(* ===== verification/_CoqProject ===== *)
-Q . S2P
Prelude.v
TreeMath.v
TreeMathFacts.v
BinaryTree.v
BinaryTreeFacts.v
Crypto.v
CryptoFacts.v
SenderRatchet.v
SenderRatchetFacts.v
SecretTree.v
SecretTreeFacts.v
SecretTreeProgress.v
Pprf.v
PprfFacts.v
MemoryStorage.v
MemoryStorageFacts.v
DualUseRatchet.v
DualUseRatchetFacts.v
PastSecrets.v
PastSecretsFacts.v
Extensions.v
ExtensionsFacts.v
TreeSync.v
LeafNode.v
TreeKem.v
Proposals.v
KeySchedule.v
KeyScheduleFacts.v
Framing.v
PrivateMessages.v
Welcome.v
Decoding.v
ProposalStore.v
PublicGroup.v
StagedCommit.v
MessageValidation.v
KeyPackages.v
MemberGroup.v
Exporting.v
MemberCommit.v
Joining.v
MemberProcessing.v
CommitBuilder.v
ExternalCommits.v
Proposing.v
DeliveryService.v
PrivateMessagesFacts.v
DecodingFacts.v
DeliveryServiceFacts.v
MemberMessagesFacts.v
ProposingFacts.v
MemberProcessingFacts.v
ReceptionFacts.v
ConversationFacts.v
ProposalStoreFacts.v
TreeSyncFacts.v
TreeSyncDiffFacts.v
TreeKemFacts.v
TreeStateFacts.v
TreeKemAgreement.v
LeafNodeFacts.v
ValidationFacts.v
ApplyProposalsFacts.v
CommitFacts.v
PublicGroupFacts.v
CommitQueueFacts.v
CommitAgreement.v
EpochAgreement.v
MemberEpochs.v
ImportFacts.v
JoiningFacts.v
ExternalCommitsFacts.v
TreeWitnesses.v
PublicGroupWitnesses.v
MemberWitnesses.v
EpochWitnesses.v
JoiningWitnesses.v
ProposingWitnesses.v
DeliveryServiceWitnesses.v
ExternalCommitsWitnesses.v
