(* ===== verification/Prelude.v ===== *)
(** * A Rocq development for OpenMLS

    OpenMLS implements the Messaging Layer Security protocol (RFC 9420). The members of a
    group share a ratchet tree: each member has a leaf with its keys, and each parent has a
    key pair whose private key is known to the members below it. A member changes the group
    by a commit, which covers proposals (add, update, remove, ...) and usually replaces the
    keys on the committer's path to the root. The new secret of the root goes into the key
    schedule of the next epoch; from the epoch's encryption secret a second tree of secrets
    gives every member its own message keys.

    The development models the code under src/ by shallow embedding, with the default
    features ([DualUseRatchet] and [Pprf] model code of draft features on its own) and the
    arithmetic of a release build (integers wrap, [debug_assert!] is compiled out). It is in
    pairs of files: [X.v] has the definitions, with the names of the
    source, and [XFacts.v] the theorems.

    ** Parts and files

    - [Prelude]: results, stateful functions and wrapping integers. [result E A] is [Ok],
      [Err] or [Panic]; [stateful S E A] is a function on a [&mut S] that can fail. Generic
      lemmas on lists, folds and maps.
    - [TreeMath]: openmls/src/binary_tree/array_representation/treemath.rs. Node indices,
      tree sizes, direct paths, copaths and common ancestors.
    - [BinaryTree]: tree.rs, diff.rs and sorted_iter.rs of the same directory. [Tree]
      is [ABinaryTree], [Diff] is [AbDiff].
    - [Crypto]: traits/src/types.rs and traits/src/grease.rs, and of openmls/src/ciphersuite
      secret.rs, kdf_label.rs, aead.rs, reuse_guard.rs, hpke.rs, signable.rs, signature.rs.
    - [SenderRatchet], [SecretTree]: openmls/src/tree/sender_ratchet.rs, secret_tree.rs.
    - [DualUseRatchet]: openmls/src/tree/dual_use_ratchet.rs, the own ratchet of a virtual client.
    - [Pprf]: schedule/pprf/ and schedule/application_export_tree.rs, the exporter tree.
    - [MemoryStorage]: memory_storage/src/lib.rs, the provider that keeps state in a map.
    - [PastSecrets]: group/mls_group/past_secrets.rs with the deletion policies of config.rs.
    - [Extensions]: extensions/, with the type codes of proposals, credentials, versions.
    - [TreeSync], [TreeKem]: treesync/ (diff.rs, mod.rs, hashes.rs, treekem.rs, node/).
      [TSync] is [TreeSync], [TSDiff] is [TreeSyncDiff], [Kem] the path operations.
    - [LeafNode]: treesync/node/leaf_node.rs, leaf_node/capabilities.rs, lifetime.rs.
    - [Proposals]: group context, senders, key packages, proposals, commits and framed
      content with the encodings that are signed or hashed, and both transcript hashes.
    - [ProposalStore]: group/mls_group/proposal_store.rs.
    - [PublicGroup]: group/public_group/mod.rs, validation.rs and builder.rs.
    - [StagedCommit]: group/public_group/diff.rs, diff/ and staged_commit.rs.
    - [KeySchedule]: schedule/ (mod.rs, psk.rs, message_secrets.rs). [KSched] is the state
      machine [KeySchedule], [RStore] the store of resumption PSKs.
    - [Framing], [PrivateMessages]: framing/ (mls_auth_content.rs, private_message.rs and
      its inbound side, public_message.rs, sender.rs, codec.rs).
    - [Welcome]: messages/group_info.rs and the secrets of a Welcome (messages/mod.rs).
    - [MessageValidation]: framing/validation.rs and the inbound forms of proposals, key
      packages and paths.
    - [MemberGroup], [MemberCommit], [MemberProcessing]: group/mls_group/ (mod.rs,
      application.rs, staged_commit.rs, processing.rs). [MGroup] is [MlsGroup], [MCommit]
      stages and merges commits, [MProcess] processes messages.
    - [CommitBuilder], [ExternalCommits]: group/mls_group/commit_builder.rs and
      commit_builder/external_commits.rs.
    - [Proposing]: group/mls_group/ (proposal.rs, membership.rs, updates.rs), the calls that
      propose or commit ([MPropose]).
    - [KeyPackages]: key_packages/mod.rs, the creation of key packages ([KPBuilder]).
    - [Exporting]: group/mls_group/exporting.rs, branch.rs, reinit.rs.
    - [Joining]: group/mls_group/creation.rs and the import of a ratchet tree in
      group/public_group/mod.rs. [PImport] is the import, [Join] the way from a Welcome to a
      group, [JBuilder] its builder with the checks of branches and successors.
    - [Decoding]: the decoders of received messages (messages/codec.rs, framing/codec.rs,
      extensions/codec.rs, extension_in.rs, treesync/node/codec.rs, and the derived ones).
    - [DeliveryService]: delivery-service/ (ds/src/main.rs, ds-lib/src), the server that keeps
      key packages and queues messages.

    A public group owns a ratchet tree, a context, a proposal store and the transcript
    hashes. Processing a commit validates it ([PStage.validate_commit]), applies its
    proposals and path to a diff of the tree ([PStage.stage_diff]) and merges the diff
    ([PStage.merge_commit]). A member's group is a public group with the secrets of the epoch:
    it stages a commit on the public side first, then decrypts the path and runs the key
    schedule ([MCommit.stage_commit]).

    ** What the theorems show

    - Tree arithmetic ([TreeMathFacts]): in coordinates (level, position) the functions
      compute the paths, the copath is a partition of the other leaves, and the common
      ancestor is the lowest one; all loops terminate.
    - Trees and diffs ([BinaryTreeFacts]): a diff refines a resizable tree and merging it
      gives that tree.
    - Message keys ([SenderRatchetFacts], [SecretTreeFacts]): no key is handed out twice,
      members agree on every key, used secrets are gone, requests in the window succeed, and
      the work of a request is bounded. [PastSecretsFacts]: past epochs are kept as the
      policy says.
    - [DualUseRatchetFacts], [PprfFacts]: the ratchet and the puncturable PRF of two draft
      features. Each generation and each input is used once, nothing from which a used secret
      derives is kept, unconfirmed sends are never pruned, and both states stay within bounds.
    - [MemoryStorageFacts]: the storage provider refines a store of typed slots that do not
      interfere, for clients that keep their leaf; two theorems show where it does not.
    - Ratchet trees ([TreeSyncFacts], [TreeSyncDiffFacts], [TreeKemFacts],
      [TreeStateFacts], [TreeKemAgreement]): unmerged leaves are what they should be in every
      reachable tree, a resolution covers each leaf exactly once, and committer and receiver
      of an update path get the same tree and commit secret.
    - Extensions and leaves ([ExtensionsFacts], [LeafNodeFacts]): an extension list refines a
      finite map, type codes round-trip, and a leaf built for a group is accepted by its
      members.
    - Commits ([ProposalStoreFacts], [ValidationFacts], [ApplyProposalsFacts],
      [CommitFacts], [PublicGroupFacts]): the queue of a commit, what validation accepts, what
      applying proposals and merging a commit do, and the invariant of every group that
      creation, proposals and commits lead to.
    - [CommitAgreement], [CommitQueueFacts], [EpochAgreement], [MemberEpochs]: committer and
      receivers of a commit end in the same state with the same secret, first in the public
      group, then as members: a commit that one member builds is staged by the others, and
      when both have merged it they share all secrets of the next epoch. A commit that a
      member accepts and that does not remove it is one that a public group accepts, with the
      same result; a member that is removed is left with the old transcript hashes.
    - Joining ([ImportFacts], [JoiningFacts]): an imported tree passed every check, the
      export of a tree is imported as that tree, and a client that a commit adds joins by the
      Welcome the very group that the committer has after merging, with its secrets.
      [ExternalCommitsFacts]: a client that prepares an external commit has the public group
      of the exporting member and an init secret that the members share.
    - Wire format ([DecodingFacts]): every message that a client sends is read back.
    - Messages ([PrivateMessagesFacts], [MemberMessagesFacts], [MemberProcessingFacts],
      [ReceptionFacts], [ConversationFacts]): the application messages of any number of
      members, delivered in any order, refine an abstract conversation that says which
      messages are read; no private message is accepted twice, and a rejected message uses no
      key. [ProposingFacts]: a proposal reaches the other members as the one that its sender
      queued, and calls of the group that commit stay in the epoch and never replace a
      pending commit.
    - [DeliveryServiceFacts]: in any run of the service messages are delivered in order and
      once, a key package is handed out once, and accepted epochs never decrease.
    - [KeyScheduleFacts]: the order of the calls on a key schedule and the recent resumption
      PSKs.
    - [TreeWitnesses], [PublicGroupWitnesses], [MemberWitnesses], [EpochWitnesses],
      [JoiningWitnesses], [ProposingWitnesses], [ExternalCommitsWitnesses],
      [DeliveryServiceWitnesses]: concrete groups and runs over a toy provider that satisfies
      the laws; they instantiate the theorems, and one run is a finding of its own.

    ** Assumptions, bounds and fuel

    The cryptographic provider, the codec of vectors and serde_json (crates outside src/) are
    the classes [OpenMlsCrypto], [TlsCodec], [TlsVecCodec] and [Serde]; [LawfulKdf],
    [LawfulHpke], [LawfulAead], [TotalAead], [LawfulCodec], [LawfulVecCodec] and [LawfulSerde]
    state the documented behaviour that some theorems need. The groups are generic in the decoders of
    contents and group infos ([ContentDecoder], [WelcomeDecoder]), which [Decoding]
    implements. Randomness, clock and signer are arguments. Recursion on the tree runs on
    fuel 32, one more than the height of the largest tree ([2^30] leaves); the theorems show
    that this always gives a result. Loops whose count is known (growing, trimming,
    ratcheting forward) recurse on that count.

    ** Not modelled

    The calls of the groups to storage and the database providers, the other code of the
    features that are off by default (virtual clients, extensions draft, fork resolution), the
    cryptographic providers, the clients and bindings on top of the library, and its test
    tools. *)
From stdpp Require Export base numbers list list_numbers gmap fin_maps sorting strings.
From Stdlib Require Export ZArith Lia.

Open Scope Z_scope.

(** ** Outcomes of Rust functions

    A fallible Rust function returns [Ok] or [Err]; [Panic] stands for a call
    that does not return normally (a panic, or a loop that never exits). *)
Inductive result (E A : Type) : Type :=
  | Ok (a : A)
  | Err (e : E)
  | Panic.
Arguments Ok {E A} a.
Arguments Err {E A} e.
Arguments Panic {E A}.

#[export] Instance result_ret E : MRet (result E) := fun A a => Ok a.
#[export] Instance result_bind E : MBind (result E) := fun A B f r =>
  match r with Ok a => f a | Err e => Err e | Panic => Panic end.
#[export] Instance result_fmap E : FMap (result E) := fun A B f r =>
  match r with Ok a => Ok (f a) | Err e => Err e | Panic => Panic end.

(** [Option::ok_or]. *)
Definition ok_or {E A} (o : option A) (e : E) : result E A :=
  match o with Some a => Ok a | None => Err e end.

(** A partial computation whose [None] is "does not return". *)
Definition returns {E A} (o : option A) : result E A :=
  match o with Some a => Ok a | None => Panic end.

(** [Result::map_err]. *)
Definition map_err {E F A} (f : E -> F) (r : result E A) : result F A :=
  match r with Ok a => Ok a | Err e => Err (f e) | Panic => Panic end.

Definition is_ok {E A} (r : result E A) : bool :=
  match r with Ok _ => true | _ => false end.

(** [?] in a loop that threads a state. *)
Fixpoint try_fold {E A S} (f : S -> A -> result E S) (l : list A) (s : S) : result E S :=
  match l with
  | [] => Ok s
  | a :: l' => s' ← f s a; try_fold f l' s'
  end.

(** [Result<Vec<_>, _>] collected from a fallible map, in order. *)
Fixpoint try_map {E A B} (f : A -> result E B) (l : list A) : result E (list B) :=
  match l with
  | [] => Ok []
  | a :: l' => b ← f a; bs ← try_map f l'; Ok (b :: bs)
  end.

Create HintDb mls discriminated.

Lemma bind_Ok {E A B} (r : result E A) (f : A -> result E B) b :
  (r ≫= f) = Ok b -> exists a, r = Ok a /\ f a = Ok b.
Proof. destruct r; cbn; naive_solver. Qed.

Lemma returns_bind {E A B} a (f : A -> result E B) : (returns (Some a) ≫= f) = f a.
Proof. done. Qed.

Lemma ok_bind {E A B} a (f : A -> result E B) : (Ok a ≫= f) = f a.
Proof. done. Qed.

Lemma some_bind {A B} a (f : A -> option B) : (Some a ≫= f) = f a.
Proof. done. Qed.

Lemma ok_or_Ok {E A} (o : option A) (e : E) a : ok_or o e = Ok a <-> o = Some a.
Proof. destruct o; cbn; naive_solver. Qed.

Lemma map_err_Ok {E F A} (f : E -> F) (r : result E A) a : map_err f r = Ok a <-> r = Ok a.
Proof. destruct r; cbn; naive_solver. Qed.

Lemma try_fold_app {E A S} (f : S -> A -> result E S) l1 l2 s :
  try_fold f (l1 ++ l2) s = (s' ← try_fold f l1 s; try_fold f l2 s').
Proof.
  revert s; induction l1 as [|a l1 IH]; intros s; cbn; [done|].
  destruct (f s a); cbn; auto.
Qed.

(** Splits a successful monadic computation into its steps. *)
Ltac inv_ok :=
  repeat match goal with
  | H : Ok _ = Ok _ |- _ => injection H as H; subst
  | H : Err _ = Ok _ |- _ => discriminate H
  | H : Panic = Ok _ |- _ => discriminate H
  | H : mret _ = Ok _ |- _ => injection H as H; subst
  | H : (_ ≫= _) = Ok _ |- _ =>
      let a := fresh "a" in let Ha := fresh "Ha" in
      apply bind_Ok in H as (a & Ha & H)
  | H : ok_or _ _ = Ok _ |- _ => apply ok_or_Ok in H
  end.

Lemma filter_all {A} (P : A -> Prop) `{forall x, Decision (P x)} (l : list A) : Forall P l -> filter P l = l.
Proof. induction 1 as [|x l Hx _ IH]; [done|]. by rewrite filter_cons_True, IH. Qed.

Lemma Forall2_fmap_eq {A B C} (f : A -> C) (g : B -> C) l k :
  Forall2 (fun a b => f a = g b) l k -> f <$> l = g <$> k.
Proof. induction 1 as [|a b l k E HF IH]; [done|]. rewrite !fmap_cons. by rewrite E, IH. Qed.

Lemma try_map_Forall2 {E A B} (f : A -> result E B) l bs :
  try_map f l = Ok bs <-> Forall2 (fun a b => f a = Ok b) l bs.
Proof.
  revert bs. induction l as [|a l IH]; intros bs; cbn.
  - split; [intros [= <-]; constructor|by inversion 1].
  - split.
    + intros H. inv_ok. constructor; [done|]. by apply IH.
    + inversion 1 as [|? b ? bs' Hb Hbs]; subst. rewrite Hb. cbn. apply IH in Hbs. by rewrite Hbs.
Qed.

(** ** Methods on [&mut self]

    [stateful S E A] is a fallible method on a state [S]: the state it leaves
    behind is also there when it returns an error. *)
Definition stateful (S E A : Type) : Type := S -> result E A * S.

#[export] Instance stateful_ret S E : MRet (stateful S E) := fun A a s => (Ok a, s).
#[export] Instance stateful_bind S E : MBind (stateful S E) := fun A B f m s =>
  match m s with
  | (Ok a, s') => f a s'
  | (Err e, s') => (Err e, s')
  | (Panic, s') => (Panic, s')
  end.

(** Reads the state through a fallible accessor. *)
Definition reading {S E A} (f : S -> result E A) : stateful S E A := fun s => (f s, s).
(** Updates the state; on an error it stays as it is. *)
Definition updating {S E A} (f : S -> result E (A * S)) : stateful S E A := fun s =>
  match f s with Ok (a, s') => (Ok a, s') | Err e => (Err e, s) | Panic => (Panic, s) end.
(** An infallible update of the state. *)
Definition modifying {S E} (f : S -> S) : stateful S E unit := fun s => (Ok tt, f s).
Definition lifting {S E A} (r : result E A) : stateful S E A := fun s => (r, s).

(** A [for] loop whose body is such a method. *)
Fixpoint for_each {S E A} (f : A -> stateful S E unit) (l : list A) : stateful S E unit :=
  match l with
  | [] => mret tt
  | a :: l' => _ ← f a; for_each f l'
  end.

Lemma stateful_bind_Ok {S E A B} (m : stateful S E A) (f : A -> stateful S E B) s b s' :
  (m ≫= f) s = (Ok b, s') -> exists a s1, m s = (Ok a, s1) /\ f a s1 = (Ok b, s').
Proof. unfold mbind, stateful_bind. destruct (m s) as [[a|e|] s1]; naive_solver. Qed.

Lemma lifting_Ok {S E A} (r : result E A) (s : S) a s' : lifting r s = (Ok a, s') <-> r = Ok a /\ s' = s.
Proof. unfold lifting. split; [by intros [= -> ->]|by intros [-> ->]]. Qed.

Lemma updating_fails {S E A} (f : S -> result E (A * S)) s r s' :
  updating f s = (r, s') -> (forall a, r <> Ok a) -> s' = s.
Proof. unfold updating. destruct (f s) as [[a s1]|e|]; naive_solver. Qed.

(** A method started in [P] ends in [Q], or fails with the error and the state
    in [X]; it panics only if [Z]. *)
Definition hoare {S E A} (P : S -> Prop) (m : stateful S E A) (Q : A -> S -> Prop)
    (X : E -> S -> Prop) (Z : Prop) : Prop :=
  forall s, P s -> match m s with (Ok a, s') => Q a s' | (Err e, s') => X e s' | (Panic, _) => Z end.

Section Hoare.
Context {S E : Type} (X : E -> S -> Prop) (Z : Prop).

Lemma hoare_ret {A} (P : S -> Prop) (Q : A -> S -> Prop) a :
  (forall s, P s -> Q a s) -> hoare P (mret a) Q X Z.
Proof. intros H s Hs. cbn. auto. Qed.

Lemma hoare_bind {A B} P (R : A -> S -> Prop) (Q : B -> S -> Prop) m f :
  hoare P m R X Z -> (forall a, hoare (R a) (f a) Q X Z) -> hoare P (m ≫= f) Q X Z.
Proof.
  intros Hm Hf s Hs. specialize (Hm s Hs). unfold mbind, stateful_bind.
  destruct (m s) as [[a|e|] s']; [by apply Hf|done|done].
Qed.

Lemma hoare_reading {A} (P : S -> Prop) (Q : A -> S -> Prop) f :
  (forall s, P s -> match f s with Ok a => Q a s | Err e => X e s | Panic => Z end) ->
  hoare P (reading f) Q X Z.
Proof. intros H s Hs. unfold reading. specialize (H s Hs). by destruct (f s). Qed.

Lemma hoare_lifting {A} (P : S -> Prop) (Q : A -> S -> Prop) r :
  (forall s, P s -> match r with Ok a => Q a s | Err e => X e s | Panic => Z end) ->
  hoare P (lifting r) Q X Z.
Proof. intros H s Hs. unfold lifting. specialize (H s Hs). by destruct r. Qed.

Lemma hoare_pre {A} (P P' : S -> Prop) (Q : A -> S -> Prop) m :
  (forall s, P s -> P' s) -> hoare P' m Q X Z -> hoare P m Q X Z.
Proof. intros H Hm s Hs. apply Hm, H, Hs. Qed.

Lemma hoare_post {A} (P : S -> Prop) (Q Q' : A -> S -> Prop) m :
  (forall a s, Q' a s -> Q a s) -> hoare P m Q' X Z -> hoare P m Q X Z.
Proof. intros H Hm s Hs. specialize (Hm s Hs). destruct (m s) as [[a|e|] s']; auto. Qed.
End Hoare.

(** [Default::default]. *)
Class Default (A : Type) : Type := default_value : A.

(** ** Ordered maps

    A [BTreeMap] with integer keys is a finite map; [btree_iter] is its
    iteration in key order. *)
Definition key_le {A} (p q : Z * A) : Prop := p.1 <= q.1.
#[export] Instance key_le_dec {A} : RelDecision (@key_le A).
Proof. intros p q. unfold key_le. apply _. Defined.

Definition btree_iter {A} (m : gmap Z A) : list (Z * A) := merge_sort key_le (map_to_list m).

(** [BTreeMap::retain] on the keys. *)
Definition retain_keys {A} (keep : Z -> bool) (m : gmap Z A) : gmap Z A :=
  filter (fun kv => keep kv.1 = true) m.

(** ** Machine integers

    [u32] values are integers in [0, 2^32).  Arithmetic wraps, as in a release
    build; a shift uses the low five bits of its amount. *)
Module u32.
Definition modulus : Z := 2 ^ 32.
Definition MAX : Z := modulus - 1.
Definition wrap (z : Z) : Z := z mod modulus.
Definition is_u32 (z : Z) : Prop := 0 <= z < modulus.

Definition add (a b : Z) : Z := wrap (a + b).
Definition sub (a b : Z) : Z := wrap (a - b).
Definition mul (a b : Z) : Z := wrap (a * b).
Definition shl (a k : Z) : Z := wrap (Z.shiftl a (Z.land k 31)).
Definition shr (a k : Z) : Z := Z.shiftr a (Z.land k 31).
Definition bitxor (a b : Z) : Z := Z.lxor a b.
Definition bitor (a b : Z) : Z := Z.lor a b.
Definition bitand (a b : Z) : Z := Z.land a b.
Definition div_ceil (a b : Z) : Z := - ((- a) / b).

(** [u32::trailing_ones], at most 32. *)
Fixpoint trailing_ones_upto (n : nat) (x : Z) : Z :=
  match n with
  | O => 0
  | S n' => if Z.odd x then 1 + trailing_ones_upto n' (Z.div2 x) else 0
  end.
Definition trailing_ones (x : Z) : Z := trailing_ones_upto 32 x.

(** [u32::leading_zeros]. *)
Definition leading_zeros (x : Z) : Z := if x =? 0 then 32 else 31 - Z.log2 x.

Lemma modulus_eq : modulus = 4294967296.
Proof. reflexivity. Qed.

Lemma wrap_small z : is_u32 z -> wrap z = z.
Proof. unfold is_u32, wrap. intros. now apply Z.mod_small. Qed.

Lemma wrap_is_u32 z : is_u32 (wrap z).
Proof. unfold is_u32, wrap. apply Z.mod_pos_bound. reflexivity. Qed.

Lemma land_31 k : 0 <= k < 32 -> Z.land k 31 = k.
Proof. intros. change 31 with (Z.ones 5). rewrite Z.land_ones by lia. apply Z.mod_small. cbn; lia. Qed.

Lemma shl_small a k : 0 <= k < 32 -> is_u32 (a * 2 ^ k) -> shl a k = a * 2 ^ k.
Proof.
  intros Hk Ha. unfold shl. rewrite land_31, Z.shiftl_mul_pow2 by lia.
  now apply wrap_small.
Qed.

Lemma shr_small a k : 0 <= k < 32 -> shr a k = a / 2 ^ k.
Proof. intros Hk. unfold shr. now rewrite land_31, Z.shiftr_div_pow2 by lia. Qed.
End u32.

Create HintDb u32 discriminated.

Declare Scope u32_scope.
Delimit Scope u32_scope with u32.
Arguments u32.add (a b)%_u32_scope.
Arguments u32.sub (a b)%_u32_scope.
Arguments u32.mul (a b)%_u32_scope.
Arguments u32.shl (a k)%_u32_scope.
Arguments u32.shr (a k)%_u32_scope.
Arguments u32.bitxor (a b)%_u32_scope.
Arguments u32.bitor (a b)%_u32_scope.
Arguments u32.bitand (a b)%_u32_scope.
Notation "a + b" := (u32.add a b) : u32_scope.
Notation "a - b" := (u32.sub a b) : u32_scope.
Notation "a * b" := (u32.mul a b) : u32_scope.
Notation "a << b" := (u32.shl a b) (at level 35) : u32_scope.
Notation "a >> b" := (u32.shr a b) (at level 35) : u32_scope.
Notation "a '.^' b" := (u32.bitxor a b) (at level 45) : u32_scope.
Notation "a '.|' b" := (u32.bitor a b) (at level 46) : u32_scope.
Notation "a '.&' b" := (u32.bitand a b) (at level 44) : u32_scope.

(** ** Powers of two *)
Lemma pow2_pos k : 0 <= k -> 0 < 2 ^ k.
Proof. intros. apply Z.pow_pos_nonneg; lia. Qed.

Lemma pow2_succ k : 0 <= k -> 2 ^ (k + 1) = 2 * 2 ^ k.
Proof. intros. rewrite Z.pow_add_r by lia. lia. Qed.

Lemma pow2_pred k : 1 <= k -> 2 ^ k = 2 * 2 ^ (k - 1).
Proof. intros. rewrite <- pow2_succ by lia. f_equal; lia. Qed.

Lemma pow2_le a b : a <= b -> 0 <= b -> 2 ^ a <= 2 ^ b.
Proof. intros. apply Z.pow_le_mono_r; lia. Qed.

Lemma pow2_lt a b : 0 <= b -> a < b -> 2 ^ a < 2 ^ b.
Proof. intros. apply Z.pow_lt_mono_r; lia. Qed.

#[export] Hint Resolve pow2_pos : mls.

(** ** Vectors *)
(** [Vec::get_mut] followed by an assignment; nothing out of range. *)
Definition set_at {A} (l : list A) (i : Z) (x : A) : list A :=
  if 0 <=? i then <[Z.to_nat i := x]> l else l.

(** [Vec::get]. *)
Definition get_at {A} (l : list A) (i : Z) : option A :=
  if 0 <=? i then l !! Z.to_nat i else None.

Definition enumerate {A} (l : list A) : list (Z * A) := imap (fun i x => (Z.of_nat i, x)) l.

Lemma get_at_set_at {A} (l : list A) i j x :
  get_at (set_at l j x) i = if (i =? j) && bool_decide (0 <= i < Z.of_nat (length l)) then Some x else get_at l i.
Proof.
  unfold get_at, set_at. destruct (Z.leb_spec 0 j), (Z.leb_spec 0 i); destruct (Z.eqb_spec i j) as [->|];
    cbn [andb]; try case_bool_decide; try lia; try done.
  - now rewrite list_lookup_insert_eq by lia.
  - rewrite list_lookup_insert. case_decide; [lia|done].
  - rewrite list_lookup_insert_ne by lia. done.
Qed.

Lemma length_set_at {A} (l : list A) i x : length (set_at l i x) = length l.
Proof. unfold set_at. case_match; [apply length_insert|done]. Qed.

Definition write_all {A} (l : list A) (kvs : list (Z * A)) : list A :=
  foldl (fun ns '(k, v) => set_at ns k v) l kvs.

Lemma length_write_all {A} (kvs : list (Z * A)) (l : list A) : length (write_all l kvs) = length l.
Proof.
  unfold write_all. revert l. induction kvs as [|[k v] kvs IH]; intros l; cbn; [done|].
  now rewrite IH, length_set_at.
Qed.

Lemma get_at_write_all {A} (kvs : list (Z * A)) (l : list A) i :
  NoDup kvs.*1 -> 0 <= i < Z.of_nat (length l) ->
  get_at (write_all l kvs) i =
    match (list_to_map kvs : gmap Z A) !! i with Some v => Some v | None => get_at l i end.
Proof.
  unfold write_all. revert l. induction kvs as [|[k v] kvs IH]; intros l Hn Hi; cbn in *; [done|].
  apply NoDup_cons in Hn as [Hk Hn]. rewrite IH by (rewrite ?length_set_at; auto).
  rewrite get_at_set_at, lookup_insert. rewrite (bool_decide_true _ Hi), andb_true_r.
  destruct (Z.eqb_spec i k) as [->|]; case_decide; try congruence.
  now rewrite (not_elem_of_list_to_map_1 kvs k Hk).
Qed.

Lemma get_at_resize {A} (l : list A) n d i :
  0 <= i < Z.of_nat n -> default d (get_at (resize n d l) i) = default d (get_at l i).
Proof.
  intros Hi. unfold get_at. destruct (Z.leb_spec 0 i); [|lia].
  destruct (Nat.lt_ge_cases (Z.to_nat i) (length l)) as [Hl|Hl].
  - now rewrite lookup_resize by lia.
  - rewrite lookup_resize_new, (lookup_ge_None_2 l) by lia. done.
Qed.

Lemma get_at_Some {A} (l : list A) i : 0 <= i < Z.of_nat (length l) -> is_Some (get_at l i).
Proof. intros. unfold get_at. destruct (Z.leb_spec 0 i); [|lia]. apply lookup_lt_is_Some. lia. Qed.

Lemma get_at_None {A} (l : list A) i : Z.of_nat (length l) <= i -> get_at l i = None.
Proof. intros. unfold get_at. destruct (Z.leb_spec 0 i); [|done]. apply lookup_ge_None. lia. Qed.

Lemma omap_cons {A B} (f : A -> option B) x l :
  omap f (x :: l) = match f x with Some y => y :: omap f l | None => omap f l end.
Proof. done. Qed.

Lemma mapM_fmap_Some {A B C} (f : B -> option C) (k : A -> B) (g : A -> C) l :
  (forall x, x ∈ l -> f (k x) = Some (g x)) -> mapM f (k <$> l) = Some (g <$> l).
Proof.
  induction l as [|x l IH]; intros H; [done|]. cbn. rewrite (H x) by constructor. cbn.
  rewrite IH; [done|]. intros y Hy. apply H. by constructor.
Qed.

Lemma filter_ext_elem {A} (P Q : A -> Prop) `{forall x, Decision (P x)} `{forall x, Decision (Q x)} (l : list A) :
  (forall x, x ∈ l -> P x <-> Q x) -> filter P l = filter Q l.
Proof.
  induction l as [|x l IH]; intros Hl; [done|]. rewrite !filter_cons, IH by (intros; apply Hl; by constructor).
  pose proof (Hl x ltac:(constructor)). destruct (decide (P x)), (decide (Q x)); tauto.
Qed.

Lemma filter_fmap {A B} (f : A -> B) (P : B -> Prop) `{forall x, Decision (P x)} (l : list A) :
  filter P (f <$> l) = f <$> filter (fun x => P (f x)) l.
Proof.
  induction l as [|x l IH]; [done|]. rewrite fmap_cons, !filter_cons, IH. by case_decide.
Qed.

Lemma list_find_first {A} (P : A -> Prop) `{forall x, Decision (P x)} (l1 : list A) x l2 :
  (forall y, y ∈ l1 -> ~ P y) -> P x -> list_find P (l1 ++ x :: l2) = Some (length l1, x).
Proof.
  intros Hl Hx. apply list_find_Some. split; [by rewrite lookup_app_r, Nat.sub_diag by lia|]. split; [done|].
  intros j y Hy Hj. apply Hl. rewrite lookup_app_l in Hy by done. by apply list_elem_of_lookup_2 in Hy.
Qed.

(** ** Searching from the end *)
(** [iter().enumerate().rev().find(..)]: the last index that satisfies [old]. *)
Definition rfind_index {A} (old : nat -> A -> bool) (l : list A) : option nat :=
  (fun x => x.2.1) <$> list_find (fun ix => old ix.1 ix.2 = true) (reverse (imap pair l)).

Section Rfind.
Context {A : Type} (old : nat -> A -> bool).

(** [rfind_index] finds the last index that satisfies the predicate. *)
Lemma rfind_index_Some l i :
  rfind_index old l = Some i ->
  (exists x, l !! i = Some x /\ old i x = true) /\
  forall j x, (i < j)%nat -> l !! j = Some x -> old j x = false.
Proof.
  unfold rfind_index. intros ([n [j y]] & Hf & ->)%fmap_Some. cbn.
  apply list_find_Some in Hf as (Hn & Ho & Hmax). cbn in Ho.
  rewrite reverse_lookup_Some, length_imap, list_lookup_imap in Hn. destruct Hn as [Hn Hlt].
  apply fmap_Some in Hn as (y' & Hy & [= -> ->]). split; [eauto|].
  intros k x Hk Hx. apply not_true_is_false. intros Hold. apply lookup_lt_Some in Hx as Hkl.
  apply (Hmax (length l - 1 - k)%nat (k, x)); [|lia|done].
  rewrite reverse_lookup_Some, length_imap, list_lookup_imap.
  split; [|lia]. replace (length l - S (length l - 1 - k))%nat with k by lia. by rewrite Hx.
Qed.

Lemma rfind_index_None l :
  rfind_index old l = None -> forall j x, l !! j = Some x -> old j x = false.
Proof.
  unfold rfind_index. rewrite fmap_None, list_find_None, Forall_forall. intros H j x Hx.
  apply not_true_is_false. intros Hold. apply (H (j, x)); [|done].
  rewrite elem_of_reverse. apply list_elem_of_lookup. exists j.
  by rewrite list_lookup_imap, Hx.
Qed.
End Rfind.

(** Filling up a prefix of a list that ends in the default. *)
Lemma resize_take {A} (l : list A) (n r : nat) (d : A) :
  length l = n -> (r <= n)%nat -> (forall i, (r <= i)%nat -> (i < length l)%nat -> l !! i = Some d) -> list.resize n d (take r l) = l.
Proof.
  intros Hl Hr Hd. rewrite resize_spec, take_ge by (rewrite length_take; lia). rewrite <- (take_drop r l) at 3. f_equal.
  apply list_eq. intros i. rewrite length_take, lookup_drop. destruct (decide (r + i < length l)%nat) as [Hi|Hi].
  - by rewrite Hd, lookup_replicate_2 by lia.
  - rewrite (lookup_ge_None_2 l) by lia. apply lookup_ge_None_2. rewrite length_replicate. lia.
Qed.

(** ** Lemmas on ordered maps *)
Lemma btree_iter_perm {A} (m : gmap Z A) : btree_iter m ≡ₚ map_to_list m.
Proof. apply merge_sort_Permutation. Qed.

Lemma btree_iter_elem {A} (m : gmap Z A) k v : (k, v) ∈ btree_iter m <-> m !! k = Some v.
Proof. rewrite btree_iter_perm. apply elem_of_map_to_list. Qed.

Lemma btree_iter_empty {A} : btree_iter (∅ : gmap Z A) = [].
Proof. unfold btree_iter. by rewrite map_to_list_empty. Qed.

Lemma btree_iter_NoDup {A} (m : gmap Z A) : NoDup (btree_iter m).*1.
Proof. rewrite btree_iter_perm. apply NoDup_fst_map_to_list. Qed.

Lemma btree_iter_list_to_map {A} (m : gmap Z A) : list_to_map (btree_iter m) = m.
Proof.
  rewrite <- (list_to_map_to_list m) at 2. apply list_to_map_proper; [apply btree_iter_NoDup|].
  apply btree_iter_perm.
Qed.

Lemma lookup_retain_keys {A} keep (m : gmap Z A) i :
  retain_keys keep m !! i = if keep i then m !! i else None.
Proof.
  unfold retain_keys. rewrite map_lookup_filter. destruct (m !! i) as [x|]; cbn; [|now destruct (keep i)].
  destruct (keep i) eqn:E; [rewrite option_guard_True by done|rewrite option_guard_False by (cbn; congruence)]; done.
Qed.

Lemma get_at_btree {A} (m : gmap Z A) (l : list A) i :
  0 <= i < Z.of_nat (length l) ->
  get_at (write_all l (btree_iter m)) i = match m !! i with Some v => Some v | None => get_at l i end.
Proof.
  intros Hi. rewrite get_at_write_all by (auto using btree_iter_NoDup). now rewrite btree_iter_list_to_map.
Qed.
