(* ===== verification/TreeMath.v ===== *)
(** * Index arithmetic of the array-represented ratchet tree

    Models openmls/src/binary_tree/array_representation/treemath.rs: node
    indices, tree sizes and the functions that navigate a perfect binary tree
    stored in in-order.  Index arithmetic is [u32] arithmetic as in a release
    build ([debug_assert!] is compiled out).  The specification places a node at
    coordinates (level, position) and gives every function in those terms. *)
From S2P Require Import Prelude.

Definition MAX_TREE_SIZE : Z := 2 ^ 30 - 1.
Definition MIN_TREE_SIZE : Z := 1.
Definition MAX_TREE_INDEX : Z := MAX_TREE_SIZE - 1.
Definition MAX_LEAF : Z := MAX_TREE_INDEX / 2.
Definition MAX_PARENT : Z := MAX_LEAF - 1.

Module LeafNodeIndex.
Abbreviation t := Z (only parsing).
Definition valid (self : t) : bool := self <=? MAX_LEAF.
Definition to_tree_index (self : t) : Z := (self * 2)%u32.
Definition from_tree_index (node_index : Z) : t := node_index / 2.
End LeafNodeIndex.

Module ParentNodeIndex.
Abbreviation t := Z (only parsing).
Definition valid (self : t) : bool := self <=? MAX_PARENT.
Definition to_tree_index (self : t) : Z := (self * 2 + 1)%u32.
Definition from_tree_index (node_index : Z) : t := ((node_index - 1)%u32) / 2.
End ParentNodeIndex.

Inductive TreeNodeIndex : Type :=
  | Leaf (l : LeafNodeIndex.t)
  | Parent (p : ParentNodeIndex.t).

#[export] Instance TreeNodeIndex_eq_dec : EqDecision TreeNodeIndex.
Proof. solve_decision. Defined.

Module TreeIdx.
Definition new (index : Z) : TreeNodeIndex :=
  if index mod 2 =? 0 then Leaf (LeafNodeIndex.from_tree_index index)
  else Parent (ParentNodeIndex.from_tree_index index).

Definition valid (self : TreeNodeIndex) : bool :=
  match self with
  | Leaf l => LeafNodeIndex.valid l
  | Parent p => ParentNodeIndex.valid p
  end.

Definition u32 (self : TreeNodeIndex) : Z :=
  match self with
  | Leaf l => LeafNodeIndex.to_tree_index l
  | Parent p => ParentNodeIndex.to_tree_index p
  end.

Definition cmp (self other : TreeNodeIndex) : comparison := u32 self ?= u32 other.
End TreeIdx.

Definition log2 (x : Z) : Z := if x =? 0 then 0 else 31 - u32.leading_zeros x.

Module TreeSize.
Abbreviation t := Z (only parsing).
Definition new (nodes : Z) : t := let k := log2 nodes in ((1 << (k + 1)%Z) - 1)%u32.
Definition from_leaf_count (leaf_count : Z) : t := new (leaf_count * 2)%u32.
Definition leaf_count (self : t) : Z := (self / 2 + 1)%Z.
Definition parent_count (self : t) : Z := self / 2.
Definition leaf_is_left (self : t) (leaf_index : LeafNodeIndex.t) : bool :=
  leaf_index <? leaf_count self / 2.
Definition inc (self : t) : t := (self * 2 + 1)%u32.
Definition dec (self : t) : t :=
  if self >=? 2 then (u32.div_ceil self 2 - 1)%u32 else 0.
End TreeSize.

Definition level (index : Z) : Z := u32.trailing_ones index.

Definition root (size : TreeSize.t) : TreeNodeIndex :=
  TreeIdx.new ((1 << log2 size) - 1)%u32.

Definition left (index : ParentNodeIndex.t) : TreeNodeIndex :=
  let x := ParentNodeIndex.to_tree_index index in
  let k := level x in
  TreeIdx.new (x .^ (1 << (k - 1)%Z))%u32.

Definition right (index : ParentNodeIndex.t) : TreeNodeIndex :=
  let x := ParentNodeIndex.to_tree_index index in
  let k := level x in
  TreeIdx.new (x .^ (3 << (k - 1)%Z))%u32.

Definition parent (index : TreeNodeIndex) : ParentNodeIndex.t :=
  let x := TreeIdx.u32 index in
  let k := level x in
  let b := ((x >> (k + 1)%Z) .& 1)%u32 in
  ParentNodeIndex.from_tree_index ((x .| (1 << k)) .^ (b << (k + 1)%Z))%u32.

Definition sibling (index : TreeNodeIndex) : TreeNodeIndex :=
  let p := parent index in
  match TreeIdx.u32 index ?= ParentNodeIndex.to_tree_index p with
  | Lt => right p
  | Gt => left p
  | Eq => left p
  end.

(** The [while x != r] loop; [None] when [fuel] iterations do not reach [r]. *)
Fixpoint direct_path_loop (fuel : nat) (x r : Z) : option (list ParentNodeIndex.t) :=
  if x =? r then Some []
  else match fuel with
       | O => None
       | S fuel' =>
           let p := parent (TreeIdx.new x) in
           d ← direct_path_loop fuel' (ParentNodeIndex.to_tree_index p) r;
           Some (p :: d)
       end.

Definition direct_path (node_index : LeafNodeIndex.t) (size : TreeSize.t) :
    option (list ParentNodeIndex.t) :=
  direct_path_loop 32 (LeafNodeIndex.to_tree_index node_index) (TreeIdx.u32 (root size)).

(** [removelast] is the [pop] of the root, a no-op on an empty path. *)
Definition copath (leaf_index : LeafNodeIndex.t) (size : TreeSize.t) :
    option (list TreeNodeIndex) :=
  d ← direct_path leaf_index size;
  Some (sibling <$> (Leaf leaf_index :: (Parent <$> removelast d))).

(** [while xn != yn { xn >>= 1; yn >>= 1; k += 1 }]. *)
Fixpoint lca_loop (fuel : nat) (xn yn k : Z) : option (Z * Z) :=
  if xn =? yn then Some (xn, k)
  else match fuel with
       | O => None
       | S fuel' => lca_loop fuel' (xn >> 1)%u32 (yn >> 1)%u32 (k + 1)
       end.

Definition lowest_common_ancestor (x y : LeafNodeIndex.t) : option ParentNodeIndex.t :=
  let x := LeafNodeIndex.to_tree_index x in
  let y := LeafNodeIndex.to_tree_index y in
  let lx := level x + 1 in
  let ly := level y + 1 in
  if (lx <=? ly) && ((x >> ly)%u32 =? (y >> ly)%u32) then
    Some (ParentNodeIndex.from_tree_index y)
  else if (ly <=? lx) && ((x >> lx)%u32 =? (y >> lx)%u32) then
    Some (ParentNodeIndex.from_tree_index x)
  else
    '(xn, k) ← lca_loop 32 x y 0;
    Some (ParentNodeIndex.from_tree_index ((xn << k) + (1 << (k - 1)%Z) - 1)%u32).

(** The longest common prefix, as the [zip]/[break] loop collects it. *)
Fixpoint common_prefix (xs ys : list ParentNodeIndex.t) : list ParentNodeIndex.t :=
  match xs, ys with
  | x :: xs', y :: ys' => if x =? y then x :: common_prefix xs' ys' else []
  | _, _ => []
  end.

Definition common_direct_path (x y : LeafNodeIndex.t) (size : TreeSize.t) :
    option (list ParentNodeIndex.t) :=
  x_path ← direct_path x size;
  y_path ← direct_path y size;
  Some (reverse (common_prefix (reverse x_path) (reverse y_path))).

Definition node_width (n : Z) : Z := if n =? 0 then 0 else 2 * (n - 1) + 1.

Definition is_node_in_tree (node_index : TreeNodeIndex) (size : TreeSize.t) : bool :=
  TreeIdx.valid node_index && (TreeIdx.u32 node_index <? size).
