(* ===== verification/TreeMathFacts.v ===== *)
(** * Coordinates of tree nodes and correctness of the index arithmetic

    A node of a perfect binary tree is given by its level [k] and its position
    [j] within the level, counted from the left; in the in-order numbering it
    has index [node k j].  The leaf [l] lies below the node [(k, j)] exactly when
    [l / 2 ^ k = j].  The theorems give each function of TreeMath in those
    terms. *)
From S2P Require Import Prelude TreeMath.

(** ** Bits of a split number *)
Lemma testbit_split a b n i :
  0 <= n -> 0 <= b < 2 ^ n -> 0 <= i ->
  Z.testbit (a * 2 ^ n + b) i = if i <? n then Z.testbit b i else Z.testbit a (i - n).
Proof.
  intros Hn Hb Hi. destruct (Z.ltb_spec i n).
  - rewrite <- (Z.mod_pow2_bits_low (a * 2 ^ n + b) n i) by lia.
    rewrite Z.add_comm, Z.mod_add by lia. now rewrite Z.mod_small.
  - replace i with ((i - n) + n) at 1 by lia.
    rewrite <- Z.div_pow2_bits by lia.
    rewrite Z.div_add_l by lia. rewrite (Z.div_small b) by lia. f_equal; lia.
Qed.

Lemma lxor_split a b c d n :
  0 <= n -> 0 <= b < 2 ^ n -> 0 <= d < 2 ^ n ->
  0 <= Z.lxor b d < 2 ^ n ->
  Z.lxor (a * 2 ^ n + b) (c * 2 ^ n + d) = Z.lxor a c * 2 ^ n + Z.lxor b d.
Proof.
  intros. apply Z.bits_inj'. intros i Hi.
  rewrite Z.lxor_spec, !testbit_split by lia.
  destruct (i <? n); now rewrite Z.lxor_spec.
Qed.

Lemma lor_split a b c d n :
  0 <= n -> 0 <= b < 2 ^ n -> 0 <= d < 2 ^ n ->
  0 <= Z.lor b d < 2 ^ n ->
  Z.lor (a * 2 ^ n + b) (c * 2 ^ n + d) = Z.lor a c * 2 ^ n + Z.lor b d.
Proof.
  intros. apply Z.bits_inj'. intros i Hi.
  rewrite Z.lor_spec, !testbit_split by lia.
  destruct (i <? n); now rewrite Z.lor_spec.
Qed.

(** Operations that leave the low [n] bits alone. *)
Lemma lxor_high a b c n :
  0 <= n -> 0 <= b < 2 ^ n -> Z.lxor (a * 2 ^ n + b) (c * 2 ^ n) = Z.lxor a c * 2 ^ n + b.
Proof.
  intros Hn Hb. rewrite <- (Z.add_0_r (c * 2 ^ n)), lxor_split; rewrite ?Z.lxor_0_r; lia.
Qed.

Lemma lor_high a b c n :
  0 <= n -> 0 <= b < 2 ^ n -> Z.lor (a * 2 ^ n + b) (c * 2 ^ n) = Z.lor a c * 2 ^ n + b.
Proof.
  intros Hn Hb. rewrite <- (Z.add_0_r (c * 2 ^ n)), lor_split; rewrite ?Z.lor_0_r; lia.
Qed.

(** Operations that leave the high bits alone. *)
Lemma lxor_low a b d n :
  0 <= n -> 0 <= b < 2 ^ n -> 0 <= d < 2 ^ n -> 0 <= Z.lxor b d < 2 ^ n ->
  Z.lxor (a * 2 ^ n + b) d = a * 2 ^ n + Z.lxor b d.
Proof.
  intros. replace d with (0 * 2 ^ n + d) at 1 by lia. rewrite lxor_split by lia.
  now rewrite Z.lxor_0_r.
Qed.

Lemma lor_low a b d n :
  0 <= n -> 0 <= b < 2 ^ n -> 0 <= d < 2 ^ n -> 0 <= Z.lor b d < 2 ^ n ->
  Z.lor (a * 2 ^ n + b) d = a * 2 ^ n + Z.lor b d.
Proof.
  intros. replace d with (0 * 2 ^ n + d) at 1 by lia. rewrite lor_split by lia.
  now rewrite Z.lor_0_r.
Qed.

(** ** Coordinates *)
Definition node (k j : Z) : Z := j * 2 ^ (k + 1) + 2 ^ k - 1.

(** [ParentNodeIndex] of the node at level [k >= 1], position [j]. *)
Definition parent_at (k j : Z) : ParentNodeIndex.t := j * 2 ^ k + 2 ^ (k - 1) - 1.

Definition node_at (k j : Z) : TreeNodeIndex :=
  if k =? 0 then Leaf j else Parent (parent_at k j).

(** Coordinates whose subtree fits into 2^31 leaves, so that no [u32] operation
    on the index wraps. *)
Definition coord (k j : Z) : Prop := 0 <= k <= 30 /\ 0 <= j /\ (j + 1) * 2 ^ k <= 2 ^ 31.

(** [leaf_below k j l]: leaf [l] is in the subtree of the node [(k, j)]. *)
Definition leaf_below (k j l : Z) : Prop := l / 2 ^ k = j.

(** The tree size of a perfect tree of depth [d]. *)
Definition perfect (d : Z) : TreeSize.t := 2 ^ (d + 1) - 1.

Lemma node_at_parent k j : 1 <= k -> Parent (parent_at k j) = node_at k j.
Proof. intros. unfold node_at. destruct (Z.eqb_spec k 0); [lia|done]. Qed.

Lemma node_0 j : node 0 j = 2 * j.
Proof. unfold node. change (2 ^ (0 + 1)) with 2. change (2 ^ 0) with 1. lia. Qed.

Lemma node_succ k j : 0 <= k -> node (k + 1) j = 2 * node k j + 1.
Proof. intros. unfold node. rewrite !pow2_succ by lia. lia. Qed.

Lemma node_nonneg k j : 0 <= k -> 0 <= j -> 0 <= node k j.
Proof. intros. unfold node. pose proof (pow2_pos k). pose proof (pow2_pos (k + 1)). nia. Qed.

Lemma coord_bound k j : coord k j -> 0 <= node k j /\ node k j + 2 ^ k < 2 ^ 32.
Proof.
  intros (Hk & Hj & Hb). split; [apply node_nonneg; lia|].
  unfold node. rewrite pow2_succ by lia. pose proof (pow2_pos k). change (2 ^ 32) with (2 * 2 ^ 31). nia.
Qed.

Lemma coord_u32 k j : coord k j -> u32.is_u32 (node k j).
Proof. intros H%coord_bound. pose proof (Z.pow_nonneg 2 k). unfold u32.is_u32, u32.modulus. lia. Qed.

Lemma coord_pow k j : coord k j -> 0 < 2 ^ k <= 2 ^ 30.
Proof. intros (? & _). split; [apply pow2_pos; lia|apply pow2_le; lia]. Qed.

Lemma parent_at_index k j : 1 <= k -> 2 * parent_at k j + 1 = node k j.
Proof.
  intros. unfold parent_at, node. rewrite pow2_succ, (pow2_pred k) by lia. lia.
Qed.

(** Every index below 2^31 - 1 has coordinates. *)
Lemma node_cover x : 0 <= x -> exists k j, 0 <= k /\ 0 <= j /\ x = node k j.
Proof.
  revert x. apply Zlt_0_ind. intros x IH Hx.
  destruct (Z.eq_dec (x mod 2) 0).
  - exists 0, (x / 2). rewrite node_0. pose proof (Z.div_mod x 2). repeat split; try lia.
  - pose proof (Z.div_mod x 2). pose proof (Z.mod_pos_bound x 2).
    destruct (IH (x / 2)) as (k & j & ? & ? & ?); [lia..|].
    exists (k + 1), j. rewrite node_succ by lia. lia.
Qed.

Lemma node_odd k j : 0 <= k -> Z.odd (node k j) = negb (k =? 0).
Proof.
  intros Hk. destruct (Z.eqb_spec k 0) as [->|].
  - rewrite node_0. rewrite Z.odd_mul. reflexivity.
  - replace k with ((k - 1) + 1) by lia. rewrite node_succ by lia.
    rewrite Z.add_comm. rewrite Z.odd_add_mul_2. reflexivity.
Qed.

Lemma node_mod2 k j : 0 <= k -> node k j mod 2 = if k =? 0 then 0 else 1.
Proof.
  intros Hk. rewrite Zmod_odd, node_odd by lia. now destruct (k =? 0).
Qed.

Lemma trailing_ones_node n k j :
  0 <= k <= Z.of_nat n -> u32.trailing_ones_upto n (node k j) = k.
Proof.
  revert k. induction n as [|n IH]; intros k Hk; cbn [u32.trailing_ones_upto]; [lia|].
  rewrite node_odd by lia. destruct (Z.eqb_spec k 0) as [->|]; cbn [negb]; [lia|].
  assert (Z.div2 (node k j) = node (k - 1) j) as ->.
  { replace k with ((k - 1) + 1) at 1 by lia. rewrite node_succ by lia.
    rewrite Z.div2_div. symmetry. apply Z.div_unique with 1; lia. }
  rewrite IH by lia. lia.
Qed.

Lemma level_node k j : 0 <= k <= 32 -> level (node k j) = k.
Proof. intros. apply (trailing_ones_node 32). lia. Qed.

(** ** Index conversions on coordinates *)
Lemma leaf_tree_index l : 0 <= l < 2 ^ 31 -> LeafNodeIndex.to_tree_index l = node 0 l.
Proof.
  intros. unfold LeafNodeIndex.to_tree_index, u32.mul. rewrite node_0.
  rewrite u32.wrap_small by (unfold u32.is_u32, u32.modulus; lia). lia.
Qed.

Lemma parent_tree_index k j :
  1 <= k -> coord k j -> ParentNodeIndex.to_tree_index (parent_at k j) = node k j.
Proof.
  intros Hk Hc. pose proof (coord_u32 _ _ Hc) as Hu. pose proof (parent_at_index k j Hk).
  pose proof (coord_bound _ _ Hc).
  assert (0 <= parent_at k j). { destruct Hc as (?&?&?). unfold parent_at. pose proof (pow2_pos k). pose proof (pow2_pos (k-1)). nia. }
  unfold ParentNodeIndex.to_tree_index, u32.add, u32.mul, u32.is_u32 in *.
  rewrite !(u32.wrap_small (parent_at k j * 2)) by (unfold u32.is_u32; lia).
  rewrite u32.wrap_small by (unfold u32.is_u32; lia). lia.
Qed.

Lemma parent_from_index k j :
  1 <= k -> coord k j -> ParentNodeIndex.from_tree_index (node k j) = parent_at k j.
Proof.
  intros Hk Hc. pose proof (coord_u32 _ _ Hc) as Hu. pose proof (parent_at_index k j Hk).
  assert (0 <= parent_at k j). { destruct Hc as (?&?&?). unfold parent_at. pose proof (pow2_pos k). pose proof (pow2_pos (k-1)). nia. }
  unfold ParentNodeIndex.from_tree_index, u32.sub, u32.is_u32 in *.
  rewrite u32.wrap_small by (unfold u32.is_u32; lia).
  rewrite <- H. replace (2 * parent_at k j + 1 - 1) with (parent_at k j * 2) by lia.
  apply Z.div_mul. lia.
Qed.

Lemma tree_new_node k j : coord k j -> TreeIdx.new (node k j) = node_at k j.
Proof.
  intros Hc. pose proof Hc as (? & ? & _). unfold TreeIdx.new, node_at. rewrite node_mod2 by lia.
  destruct (Z.eqb_spec k 0) as [->|]; cbn.
  - unfold LeafNodeIndex.from_tree_index. rewrite node_0, Z.mul_comm, Z.div_mul; [done|lia].
  - rewrite parent_from_index by (auto; lia). done.
Qed.

Lemma tree_u32_node k j : coord k j -> TreeIdx.u32 (node_at k j) = node k j.
Proof.
  intros Hc. pose proof Hc as (? & ? & ?). unfold node_at, TreeIdx.u32.
  destruct (Z.eqb_spec k 0) as [->|].
  - apply leaf_tree_index. change (2 ^ 0) with 1 in *. lia.
  - apply parent_tree_index; auto; lia.
Qed.

(** ** Neighbours on coordinates *)
Lemma coord_up k j : coord k j -> k < 30 -> coord (k + 1) (j / 2).
Proof.
  intros (? & ? & Hb) ?. pose proof (Z.div_mod j 2). pose proof (Z.mod_pos_bound j 2).
  unfold coord. rewrite pow2_succ by lia. pose proof (pow2_pos k).
  assert (2 ^ 31 = 2 ^ (31 - (k + 1)) * (2 * 2 ^ k)) as E.
  { rewrite <- pow2_succ, <- Z.pow_add_r by lia. f_equal; lia. }
  assert (2 ^ (31 - k) = 2 * 2 ^ (31 - (k + 1))) as E'.
  { rewrite (pow2_pred (31 - k)) by lia. do 2 f_equal; lia. }
  assert (2 ^ 31 = 2 ^ (31 - k) * 2 ^ k) as E2.
  { rewrite <- Z.pow_add_r by lia. f_equal; lia. }
  repeat split; try lia.
  assert (j + 1 <= 2 ^ (31 - k)) by nia. nia.
Qed.

Lemma coord_down k j b : coord k j -> 1 <= k -> 0 <= b <= 1 -> coord (k - 1) (2 * j + b).
Proof.
  intros (? & ? & Hb) ? ?. unfold coord. rewrite (pow2_pred k) in Hb by lia.
  pose proof (pow2_pos (k - 1)). repeat split; [lia..|]. nia.
Qed.

Lemma shl_coord a k : 0 <= k <= 30 -> 0 <= a <= 3 -> u32.shl a k = a * 2 ^ k.
Proof.
  intros. apply u32.shl_small; [lia|]. pose proof (pow2_le k 30). pose proof (pow2_pos k).
  unfold u32.is_u32, u32.modulus. change (2 ^ 32) with (4 * 2 ^ 30). nia.
Qed.

Lemma left_coord k j : 1 <= k -> coord k j -> left (parent_at k j) = node_at (k - 1) (2 * j).
Proof.
  intros Hk Hc. unfold left, u32.bitxor. rewrite parent_tree_index by auto. pose proof Hc as (? & ? & _).
  rewrite level_node, shl_coord by lia.
  rewrite <- (Z.add_0_r (2 * j)), <- tree_new_node by (apply coord_down; auto; lia). f_equal.
  pose proof (pow2_pos (k - 1)).
  replace (node k j) with ((4 * j + 1) * 2 ^ (k - 1) + (2 ^ (k - 1) - 1)).
  2:{ unfold node. rewrite pow2_succ, (pow2_pred k) by lia. lia. }
  rewrite lxor_high by lia. replace (4 * j + 1) with (j * 2 ^ 2 + 1) by lia.
  rewrite lxor_low by easy. unfold node. rewrite pow2_succ by lia.
  change (Z.lxor 1 1) with 0. lia.
Qed.

Lemma right_coord k j : 1 <= k -> coord k j -> right (parent_at k j) = node_at (k - 1) (2 * j + 1).
Proof.
  intros Hk Hc. unfold right, u32.bitxor. rewrite parent_tree_index by auto. pose proof Hc as (? & ? & _).
  rewrite level_node, shl_coord by lia.
  rewrite <- tree_new_node by (apply coord_down; auto; lia). f_equal.
  pose proof (pow2_pos (k - 1)).
  replace (node k j) with ((4 * j + 1) * 2 ^ (k - 1) + (2 ^ (k - 1) - 1)).
  2:{ unfold node. rewrite pow2_succ, (pow2_pred k) by lia. lia. }
  rewrite lxor_high by lia. replace (4 * j + 1) with (j * 2 ^ 2 + 1) by lia.
  rewrite lxor_low by easy. unfold node. rewrite pow2_succ by lia.
  change (Z.lxor 1 3) with 2. lia.
Qed.

Lemma lxor_low_bit j : Z.lxor j (j mod 2) = 2 * (j / 2).
Proof.
  pose proof (Z.mod_pos_bound j 2).
  replace j with (j / 2 * 2 ^ 1 + j mod 2) at 1 by (pose proof (Z.div_mod j 2); lia).
  rewrite lxor_low by (rewrite ?Z.lxor_nilpotent; cbn; lia).
  rewrite Z.lxor_nilpotent. lia.
Qed.

Lemma lor_even_1 j : Z.lor (2 * j) 1 = 2 * j + 1.
Proof.
  replace (2 * j) with (j * 2 ^ 1 + 0) by lia. rewrite lor_low by easy. change (Z.lor 0 1) with 1. lia.
Qed.

Lemma parent_coord k j : coord k j -> k < 30 -> parent (node_at k j) = parent_at (k + 1) (j / 2).
Proof.
  intros Hc Hk. pose proof (coord_up _ _ Hc Hk) as Hu. pose proof Hc as (? & ? & _).
  unfold parent, u32.bitxor, u32.bitor, u32.bitand. rewrite tree_u32_node by auto. rewrite level_node by lia.
  rewrite <- parent_from_index by (auto; lia). f_equal. pose proof (pow2_pos k).
  rewrite u32.shr_small by lia.
  assert (node k j / 2 ^ (k + 1) = j) as ->.
  { symmetry. apply Z.div_unique with (2 ^ k - 1); [|unfold node; lia].
    rewrite pow2_succ by lia. lia. }
  change 1 with (Z.ones 1) at 2. rewrite Z.land_ones by lia. change (2 ^ 1) with 2.
  pose proof (Z.mod_pos_bound j 2).
  rewrite !shl_coord by lia.
  replace (node k j) with ((2 * j) * 2 ^ k + (2 ^ k - 1)) by (unfold node; rewrite pow2_succ; lia).
  rewrite lor_high, lor_even_1 by lia.
  replace ((2 * j + 1) * 2 ^ k + (2 ^ k - 1)) with (j * 2 ^ (k + 1) + (2 ^ (k + 1) - 1))
    by (rewrite pow2_succ; lia).
  rewrite lxor_high, lxor_low_bit by (rewrite ?pow2_succ; lia).
  unfold node. rewrite (pow2_succ (k + 1)) by lia. lia.
Qed.

(** The position of the sibling. *)
Definition flip (j : Z) : Z := if j mod 2 =? 0 then j + 1 else j - 1.

Lemma flip_half j : flip j / 2 = j / 2.
Proof.
  pose proof (Z.mod_pos_bound j 2). pose proof (Z.div_mod j 2). unfold flip.
  destruct (Z.eqb_spec (j mod 2) 0); symmetry; [apply Z.div_unique with 1|apply Z.div_unique with 0]; lia.
Qed.

Lemma flip_neq j : flip j <> j.
Proof. unfold flip. case_match; lia. Qed.

Lemma flip_unique i j : i / 2 = j / 2 -> i <> j -> i = flip j.
Proof.
  intros. pose proof (Z.div_mod j 2). pose proof (Z.div_mod i 2).
  pose proof (Z.mod_pos_bound j 2). pose proof (Z.mod_pos_bound i 2).
  unfold flip. destruct (Z.eqb_spec (j mod 2) 0); lia.
Qed.

Lemma sibling_coord k j : coord k j -> k < 30 -> sibling (node_at k j) = node_at k (flip j).
Proof.
  intros Hc Hk. pose proof (coord_up _ _ Hc Hk) as Hu. pose proof Hc as (? & ? & _).
  unfold sibling. rewrite parent_coord, tree_u32_node, parent_tree_index by (auto; lia).
  rewrite left_coord, right_coord by (auto; lia). replace (k + 1 - 1) with k by lia.
  pose proof (pow2_pos k). pose proof (Z.mod_pos_bound j 2). pose proof (Z.div_mod j 2).
  assert (node k j - node (k + 1) (j / 2) = (2 * (j mod 2) - 1) * 2 ^ k).
  { unfold node. rewrite !(pow2_succ (k+1)), !pow2_succ by lia. nia. }
  unfold flip. destruct (Z.compare_spec (node k j) (node (k + 1) (j / 2)));
    destruct (Z.eqb_spec (j mod 2) 0); try (f_equal; nia); nia.
Qed.

(** ** Tree sizes *)
Lemma log2_log2 x : 0 < x < 2 ^ 32 -> log2 x = Z.log2 x.
Proof.
  intros. unfold log2, u32.leading_zeros. destruct (Z.eqb_spec x 0); lia.
Qed.

Lemma pow2_log2 d : 0 <= d -> log2 (perfect d) = d \/ 31 < d.
Proof.
  intros. destruct (Z.le_gt_cases d 31); [left|lia]. unfold perfect.
  pose proof (pow2_pos d). pose proof (pow2_le (d + 1) 32). rewrite pow2_succ in * by lia.
  rewrite log2_log2 by lia. apply Z.log2_unique; [lia|]. unfold Z.succ. rewrite pow2_succ by lia. lia.
Qed.

Lemma tree_size_new_perfect n : 0 < n < 2 ^ 31 -> TreeSize.new n = perfect (Z.log2 n).
Proof.
  intros Hn. unfold TreeSize.new, perfect. rewrite log2_log2 by lia.
  pose proof (Z.log2_nonneg n). pose proof (proj1 (Z.log2_lt_pow2 n 31 ltac:(lia)) ltac:(lia)).
  pose proof (pow2_le (Z.log2 n + 1) 31). pose proof (pow2_pos (Z.log2 n + 1)).
  rewrite u32.shl_small by (unfold u32.is_u32, u32.modulus; lia).
  unfold u32.sub. rewrite u32.wrap_small by (unfold u32.is_u32, u32.modulus; lia). lia.
Qed.

Lemma perfect_half d : 0 <= d -> perfect d / 2 = 2 ^ d - 1.
Proof.
  intros. unfold perfect. symmetry. apply Z.div_unique with 1; rewrite ?pow2_succ; lia.
Qed.

Lemma perfect_leaf_count d : 0 <= d -> TreeSize.leaf_count (perfect d) = 2 ^ d.
Proof. intros. unfold TreeSize.leaf_count. rewrite perfect_half; lia. Qed.

Lemma perfect_parent_count d : 0 <= d -> TreeSize.parent_count (perfect d) = 2 ^ d - 1.
Proof. intros. unfold TreeSize.parent_count. now apply perfect_half. Qed.

Lemma perfect_inc d : 0 <= d <= 30 -> TreeSize.inc (perfect d) = perfect (d + 1).
Proof.
  intros. unfold TreeSize.inc, perfect, u32.add, u32.mul.
  pose proof (pow2_le (d + 1 + 1) 32). pose proof (pow2_pos (d + 1)).
  rewrite (pow2_succ (d + 1)) in * by lia.
  rewrite !u32.wrap_small; unfold u32.is_u32, u32.modulus; rewrite ?u32.wrap_small;
    unfold u32.is_u32, u32.modulus; lia.
Qed.

Lemma perfect_dec d : 1 <= d <= 31 -> TreeSize.dec (perfect d) = perfect (d - 1).
Proof.
  intros. unfold TreeSize.dec, perfect, u32.sub, u32.div_ceil.
  pose proof (pow2_le d 32). pose proof (pow2_pos (d - 1)).
  replace (d - 1 + 1) with d by lia. rewrite pow2_succ by lia. rewrite (pow2_pred d) in * by lia.
  destruct (Z.geb_spec (2 * (2 * 2 ^ (d - 1)) - 1) 2); [|lia].
  replace (- (2 * (2 * 2 ^ (d - 1)) - 1)) with ((- (2 * 2 ^ (d - 1))) * 2 + 1) by lia.
  rewrite Z.div_add_l by lia. change (1 / 2) with 0.
  rewrite u32.wrap_small; unfold u32.is_u32, u32.modulus; lia.
Qed.

Lemma perfect_inj d e : 0 <= d -> 0 <= e -> perfect d = perfect e -> d = e.
Proof.
  unfold perfect. intros ? ? E. assert (2 ^ (d + 1) = 2 ^ (e + 1)) as E' by lia.
  apply Z.pow_inj_r in E'; lia.
Qed.

Lemma root_perfect d : 0 <= d <= 30 -> root (perfect d) = node_at d 0.
Proof.
  intros Hd. unfold root. destruct (pow2_log2 d) as [->|]; [lia| |lia].
  pose proof (pow2_le d 30). pose proof (pow2_pos d).
  rewrite u32.shl_small by (unfold u32.is_u32, u32.modulus; lia).
  unfold u32.sub. rewrite u32.wrap_small by (unfold u32.is_u32, u32.modulus; lia).
  rewrite <- tree_new_node; [unfold node; f_equal; lia|]. unfold coord. lia.
Qed.

(** ** Paths *)
Lemma coord_anc d k l : 0 <= k <= d -> d <= 30 -> 0 <= l < 2 ^ d -> coord k (l / 2 ^ k).
Proof.
  intros. pose proof (pow2_pos k). pose proof (pow2_le d 30). pose proof (pow2_le k 30).
  pose proof (Z.mul_div_le l (2 ^ k)). pose proof (Z.div_pos l (2 ^ k)).
  unfold coord. change (2 ^ 31) with (2 ^ 30 + 2 ^ 30). repeat split; nia.
Qed.

Lemma anc_step l k : 0 <= k -> l / 2 ^ k / 2 = l / 2 ^ (k + 1).
Proof.
  intros. pose proof (pow2_pos k). rewrite Z.div_div by lia. f_equal. rewrite pow2_succ; lia.
Qed.

Lemma node_inj k j k' j' :
  0 <= k <= 32 -> 0 <= k' <= 32 -> node k j = node k' j' -> k = k' /\ j = j'.
Proof.
  intros Hk Hk' E. assert (k = k') as <-.
  { rewrite <- (level_node k j), <- (level_node k' j') by lia. congruence. }
  split; [done|]. unfold node in E. pose proof (pow2_pos (k + 1)). nia.
Qed.

Lemma node_at_inj k j k' j' : coord k j -> coord k' j' -> node_at k j = node_at k' j' -> k = k' /\ j = j'.
Proof.
  intros Hc Hc' E%(f_equal TreeIdx.u32). rewrite !tree_u32_node in E by auto.
  destruct Hc as (?&_), Hc' as (?&_). apply node_inj in E; lia.
Qed.

Lemma parent_at_inj k j k' j' :
  1 <= k -> 1 <= k' -> coord k j -> coord k' j' -> parent_at k j = parent_at k' j' -> k = k' /\ j = j'.
Proof.
  intros ? ? Hc Hc' E. apply node_inj; [destruct Hc; lia|destruct Hc'; lia|].
  rewrite <- !parent_at_index by lia. congruence.
Qed.

Definition ancestors (d l : Z) : list ParentNodeIndex.t :=
  (fun k => parent_at k (l / 2 ^ k)) <$> seqZ 1 d.

Lemma direct_path_loop_coord n fuel k d l :
  0 <= k -> k + Z.of_nat n = d -> d <= 30 -> 0 <= l < 2 ^ d -> (n <= fuel)%nat ->
  direct_path_loop fuel (node k (l / 2 ^ k)) (node d 0)
  = Some ((fun i => parent_at i (l / 2 ^ i)) <$> seqZ (k + 1) (Z.of_nat n)).
Proof.
  revert fuel k. induction n as [|n IH]; intros fuel k Hk Hd Hd30 Hl Hf.
  - replace d with k in * by lia. rewrite Z.div_small by lia. cbn.
    destruct fuel; cbn; now rewrite Z.eqb_refl.
  - destruct fuel as [|fuel]; [lia|]. cbn [direct_path_loop].
    destruct (Z.eqb_spec (node k (l / 2 ^ k)) (node d 0)) as [E|_].
    { apply node_inj in E; lia. }
    rewrite tree_new_node, parent_coord by (try apply (coord_anc d); lia).
    rewrite anc_step by lia.
    rewrite parent_tree_index by (try apply (coord_anc d); lia).
    rewrite IH by lia. cbn.
    rewrite (seqZ_cons (k + 1)) by lia. cbn. do 4 f_equal. lia.
Qed.

Lemma direct_path_coord d l :
  0 <= d <= 30 -> 0 <= l < 2 ^ d -> direct_path l (perfect d) = Some (ancestors d l).
Proof.
  intros Hd Hl. unfold direct_path. pose proof (pow2_le d 30).
  rewrite root_perfect, tree_u32_node, leaf_tree_index by (unfold coord; lia).
  pose proof (direct_path_loop_coord (Z.to_nat d) 32 0 d l) as E.
  change (2 ^ 0) with 1 in E. rewrite Z.div_1_r in E. rewrite E by lia.
  unfold ancestors. do 3 f_equal. lia.
Qed.

(** The subtree of an index, and the leaves in it. *)
Definition below (c : TreeNodeIndex) (m : LeafNodeIndex.t) : Prop :=
  exists k j, coord k j /\ c = node_at k j /\ leaf_below k j m.

Lemma below_node_at k j m : coord k j -> below (node_at k j) m <-> leaf_below k j m.
Proof.
  intros Hc. split.
  - intros (k' & j' & Hc' & E & Hb). apply node_at_inj in E as [<- <-]; auto.
  - intros Hb. exists k, j. auto.
Qed.

Lemma copath_coord d l :
  1 <= d <= 30 -> 0 <= l < 2 ^ d ->
  copath l (perfect d) = Some ((fun k => node_at k (flip (l / 2 ^ k))) <$> seqZ 0 d).
Proof.
  intros Hd Hl. unfold copath. rewrite direct_path_coord by lia. cbn [mbind option_bind].
  f_equal. rewrite (seqZ_cons 0) by lia. rewrite fmap_cons, fmap_cons. f_equal.
  - change (Leaf l) with (node_at 0 l). change (2 ^ 0) with 1. rewrite Z.div_1_r.
    apply sibling_coord; [|lia]. rewrite <- (Z.div_1_r l). apply (coord_anc d 0); lia.
  - unfold ancestors. replace d with (Z.pred d + 1) at 1 by lia.
    rewrite seqZ_app, fmap_app by lia. rewrite (seqZ_cons (1 + Z.pred d) 1) by lia.
    rewrite fmap_cons, (seqZ_nil (Z.succ (1 + Z.pred d)) (Z.pred 1)), fmap_nil, removelast_last by lia.
    rewrite <- !list_fmap_compose. change (Z.succ 0) with 1. apply list_fmap_ext.
    intros i k Hk%list_elem_of_lookup_2%elem_of_seqZ. cbn.
    rewrite node_at_parent by lia. apply sibling_coord; [apply (coord_anc d)|]; lia.
Qed.

(** The height at which the paths of two leaves meet. *)
Definition meet (x y h : Z) : Prop :=
  0 <= h /\ x / 2 ^ h = y / 2 ^ h /\ (forall i, 0 <= i < h -> x / 2 ^ i <> y / 2 ^ i).

Lemma div_pow2_le x y i j : 0 <= i <= j -> x / 2 ^ i = y / 2 ^ i -> x / 2 ^ j = y / 2 ^ j.
Proof.
  intros Hij E. replace j with (i + (j - i)) by lia.
  rewrite Z.pow_add_r, <- !Z.div_div by (try apply Z.pow_nonzero; try apply pow2_pos; lia).
  now rewrite E.
Qed.

Lemma meet_height n x y :
  0 <= x < 2 ^ Z.of_nat n -> 0 <= y < 2 ^ Z.of_nat n -> exists h, meet x y h /\ h <= Z.of_nat n.
Proof.
  revert x y. induction n as [|n IH]; intros x y Hx Hy.
  - exists 0. cbn in *. unfold meet. split; [|lia]. replace x with y by lia. split; [lia|]. split; [done|lia].
  - destruct (Z.eq_dec x y) as [->|Hne]; [exists 0; split; [|lia]; split; [lia|]; split; [done|lia]|].
    rewrite Nat2Z.inj_succ in *. unfold Z.succ in *. rewrite pow2_succ in * by lia.
    destruct (IH (x / 2) (y / 2)) as (h & (Hh & E & Hmin) & Hle);
      [split; [apply Z.div_pos; lia|apply Z.div_lt_upper_bound; lia]..|].
    rewrite !Z.div_div, <- !pow2_succ in E by (try apply pow2_pos; lia).
    exists (h + 1). split; [|lia]. split; [lia|]. split; [done|].
    intros i Hi Ei. destruct (Z.eq_dec i 0) as [->|].
    { change (2 ^ 0) with 1 in Ei. rewrite !Z.div_1_r in Ei. done. }
    apply (Hmin (i - 1)); [lia|]. rewrite !Z.div_div, <- !pow2_succ by (try apply pow2_pos; lia).
    now replace (i - 1 + 1) with i by lia.
Qed.

Lemma meet_flip x y h : meet x y h -> 1 <= h -> y / 2 ^ (h - 1) = flip (x / 2 ^ (h - 1)).
Proof.
  intros (? & E & Hmin) ?. apply flip_unique; [|intros E'; apply (Hmin (h - 1)); [lia|done]].
  rewrite !anc_step by lia. now replace (h - 1 + 1) with h by lia.
Qed.

Lemma flip_meet x y k : 0 <= k -> y / 2 ^ k = flip (x / 2 ^ k) -> meet x y (k + 1).
Proof.
  intros Hk E. split; [lia|]. split.
  - rewrite <- !anc_step by lia. rewrite E. now rewrite flip_half.
  - intros i Hi Ei. apply (div_pow2_le x y i k) in Ei; [|lia]. rewrite Ei in E.
    symmetry in E. now apply flip_neq in E.
Qed.

Lemma meet_unique x y h h' : meet x y h -> meet x y h' -> h = h'.
Proof.
  intros (? & E & Hm) (? & E' & Hm'). destruct (Z.lt_trichotomy h h') as [|[|]]; [|done|].
  - exfalso. apply (Hm' h); auto.
  - exfalso. apply (Hm h'); auto.
Qed.

Lemma lca_loop_spec fuel a b k :
  0 <= a < 2 ^ Z.of_nat fuel -> 0 <= b < 2 ^ Z.of_nat fuel ->
  exists m, meet a b m /\ lca_loop fuel a b k = Some (a / 2 ^ m, k + m).
Proof.
  revert a b k. induction fuel as [|fuel IH]; intros a b k Ha Hb; cbn [lca_loop].
  - cbn in *. replace a with 0 by lia. replace b with 0 by lia. exists 0.
    split; [split; [lia|]; split; [done|lia]|]. cbn. do 2 f_equal. lia.
  - destruct (Z.eqb_spec a b) as [->|Hne].
    { exists 0. split; [split; [lia|]; split; [done|lia]|].
      change (2 ^ 0) with 1. rewrite Z.div_1_r. do 2 f_equal; lia. }
    rewrite Nat2Z.inj_succ in *. unfold Z.succ in *. rewrite pow2_succ in * by lia.
    rewrite !u32.shr_small by lia. change (2 ^ 1) with 2.
    destruct (IH (a / 2) (b / 2) (k + 1)) as (m & (Hm & E & Hmin) & ->);
      [split; [apply Z.div_pos; lia|apply Z.div_lt_upper_bound; lia]..|].
    rewrite !Z.div_div, <- !pow2_succ in E by (try apply pow2_pos; lia).
    exists (m + 1). rewrite !Z.div_div, <- !pow2_succ by (try apply pow2_pos; lia).
    split; [|do 2 f_equal; lia]. split; [lia|]. split; [done|].
    intros i Hi Ei. destruct (Z.eq_dec i 0) as [->|].
    { change (2 ^ 0) with 1 in Ei. rewrite !Z.div_1_r in Ei. done. }
    apply (Hmin (i - 1)); [lia|]. rewrite !Z.div_div, <- !pow2_succ by (try apply pow2_pos; lia).
    now replace (i - 1 + 1) with i by lia.
Qed.

Lemma lca_coord d x y h :
  1 <= d <= 30 -> 0 <= x < 2 ^ d -> 0 <= y < 2 ^ d -> x <> y -> meet x y h ->
  lowest_common_ancestor x y = Some (parent_at h (x / 2 ^ h)).
Proof.
  intros Hd Hx Hy Hne Hm. pose proof (pow2_le d 30). unfold lowest_common_ancestor.
  rewrite !leaf_tree_index, !level_node by lia. cbn [Z.add Z.leb Z.compare]. cbn [Pos.compare Pos.compare_cont andb].
  rewrite !u32.shr_small, !node_0 by lia. change (2 ^ 1) with 2.
  rewrite !(Z.mul_comm 2), !Z.div_mul by lia.
  destruct (Z.eqb_spec x y) as [|_]; [done|].
  destruct (lca_loop_spec 32 (x * 2) (y * 2) 0) as (m & Hm2 & ->); [lia..|].
  assert (m = h + 1) as ->.
  { apply (meet_unique (x * 2) (y * 2)); [done|]. destruct Hm as (? & E & Hmin).
    split; [lia|]. rewrite pow2_succ by lia. split.
    - rewrite <- !Z.div_div, !Z.div_mul by lia. done.
    - intros i Hi Ei. destruct (Z.eq_dec i 0) as [->|]; [rewrite !Z.div_1_r in Ei; lia|].
      rewrite (pow2_pred i), <- !Z.div_div, !Z.div_mul in Ei by (try apply pow2_pos; lia).
      apply (Hmin (i - 1)); [lia|done]. }
  assert (1 <= h <= d) as Hh.
  { destruct Hm as (? & E & Hmin). split.
    - destruct (Z.eq_dec h 0) as [->|]; [rewrite !Z.div_1_r in E; lia|lia].
    - destruct (Z.le_gt_cases h d); [done|]. exfalso. apply (Hmin d); [lia|].
      now rewrite !Z.div_small by lia. }
  cbn [mbind option_bind]. f_equal. pose proof (pow2_pos h). pose proof (pow2_le h 30).
  replace (0 + (h + 1)) with (h + 1) by lia.
  assert (x * 2 / 2 ^ (h + 1) = x / 2 ^ h) as ->.
  { rewrite pow2_succ by lia. rewrite <- Z.div_div, Z.div_mul by lia. done. }
  replace (h + 1 - 1) with h by lia.
  assert (coord h (x / 2 ^ h)) as Hc by (apply (coord_anc d); lia).
  rewrite <- parent_from_index by (auto; lia). f_equal.
  pose proof (coord_bound _ _ Hc) as Hb. pose proof Hc as (_ & ? & _).
  unfold node in *. pose proof (pow2_pos (h + 1)).
  assert (0 <= x / 2 ^ h * 2 ^ (h + 1)) by nia.
  rewrite !u32.shl_small by (unfold u32.is_u32, u32.modulus; lia).
  unfold u32.add, u32.sub.
  rewrite (u32.wrap_small (_ + _)) by (unfold u32.is_u32, u32.modulus; lia).
  rewrite u32.wrap_small by (unfold u32.is_u32, u32.modulus; lia). lia.
Qed.

Lemma common_prefix_app s u v : common_prefix (s ++ u) (s ++ v) = s ++ common_prefix u v.
Proof. induction s as [|a s IH]; cbn; [done|]. rewrite Z.eqb_refl. now rewrite IH. Qed.

Lemma common_suffix_split u v s :
  (last u = None \/ last v = None \/ last u <> last v) ->
  reverse (common_prefix (reverse (u ++ s)) (reverse (v ++ s))) = s.
Proof.
  intros Hl. rewrite !reverse_app, common_prefix_app, reverse_app, reverse_involutive.
  assert (common_prefix (reverse u) (reverse v) = []) as ->; [|done].
  destruct (last u) as [a|] eqn:Eu; [|apply last_None in Eu as ->; done].
  destruct (last v) as [b|] eqn:Ev;
    [|apply last_None in Ev as ->; destruct (reverse u); done].
  apply last_Some in Eu as [u' ->]. apply last_Some in Ev as [v' ->].
  rewrite !reverse_snoc. cbn. destruct (Z.eqb_spec a b) as [->|]; [|done].
  destruct Hl as [?|[?|[]]]; done.
Qed.

(** Ancestors above a given height do not depend on the leaf below it. *)
Lemma ancestors_split d l h :
  1 <= h <= d ->
  ancestors d l = ((fun k => parent_at k (l / 2 ^ k)) <$> seqZ 1 (h - 1)) ++
                  ((fun k => parent_at k (l / 2 ^ k)) <$> seqZ h (d - h + 1)).
Proof.
  intros. unfold ancestors. rewrite <- fmap_app. f_equal.
  replace d with ((h - 1) + (d - h + 1)) at 1 by lia. rewrite seqZ_app by lia. do 2 f_equal. lia.
Qed.

Lemma fmap_seqZ_ext {A} (f g : Z -> A) m n :
  (forall k, m <= k < m + n -> f k = g k) -> f <$> seqZ m n = g <$> seqZ m n.
Proof.
  intros H. apply list_fmap_ext. intros i k Hk%list_elem_of_lookup_2%elem_of_seqZ. auto.
Qed.

Lemma meet_bounds d x y h :
  0 <= x < 2 ^ d -> 0 <= y < 2 ^ d -> 0 <= d -> x <> y -> meet x y h -> 1 <= h <= d.
Proof.
  intros Hx Hy Hd Hne (? & E & Hmin). split.
  - destruct (Z.eq_dec h 0) as [->|]; [|lia].
    change (2 ^ 0) with 1 in E. rewrite !Z.div_1_r in E. lia.
  - destruct (Z.le_gt_cases h d); [done|]. exfalso. apply (Hmin d); [lia|].
    now rewrite !Z.div_small by lia.
Qed.

Lemma meet_exists d x y : 0 <= d -> 0 <= x < 2 ^ d -> 0 <= y < 2 ^ d -> exists h, meet x y h.
Proof.
  intros. destruct (meet_height (Z.to_nat d) x y) as (h & Hm & _); [rewrite Z2Nat.id by lia; lia..|].
  eauto.
Qed.

(** Coordinates of a valid parent index. *)
Lemma parent_cover p n :
  0 <= n <= 31 -> 0 <= p -> 2 * p + 2 < 2 ^ n ->
  exists k j, 1 <= k < n /\ coord k j /\ (j + 1) * 2 ^ (k + 1) <= 2 ^ n /\ p = parent_at k j.
Proof.
  intros Hn Hp Hb. destruct (node_cover (2 * p + 1)) as (k & j & Hk & Hj & E); [lia|].
  assert (1 <= k).
  { destruct (Z.eq_dec k 0) as [->|]; [|lia]. rewrite node_0 in E. lia. }
  pose proof (pow2_pos k). pose proof (pow2_pos (k + 1)). pose proof (pow2_pos n).
  assert (2 * 2 ^ (k - 1) = 2 ^ k) by (rewrite (pow2_pred k); lia).
  assert (k < n).
  { destruct (Z.lt_ge_cases k n) as [|Hge]; [done|]. pose proof (pow2_le n k). unfold node in E. nia. }
  exists k, j. pose proof (parent_at_index k j).
  assert ((j + 1) * 2 ^ (k + 1) <= 2 ^ n).
  { assert (2 ^ n = 2 ^ (n - (k + 1)) * 2 ^ (k + 1)) as En by (rewrite <- Z.pow_add_r by lia; f_equal; lia).
    unfold node in E. assert (j < 2 ^ (n - (k + 1))) by nia. nia. }
  rewrite pow2_succ in * by lia. pose proof (pow2_le n 31).
  repeat split; try lia.
Qed.

Lemma ancestors_elem d l p :
  0 <= d <= 30 -> 0 <= l < 2 ^ d ->
  p ∈ ancestors d l <-> 0 <= p < 2 ^ d - 1 /\ below (Parent p) l.
Proof.
  intros Hd Hl. unfold ancestors. rewrite list_elem_of_fmap. split.
  - intros [k [-> Hk%elem_of_seqZ]].
    pose proof (coord_anc d k l ltac:(lia) ltac:(lia) ltac:(lia)) as Hc.
    rewrite node_at_parent by lia. split; [|now apply below_node_at].
    pose proof (pow2_pos k). pose proof (pow2_pos (k - 1)). pose proof (pow2_pred k ltac:(lia)).
    pose proof (Z.mul_div_le l (2 ^ k)). pose proof (Z.div_pos l (2 ^ k)). unfold parent_at.
    assert (2 ^ d = 2 ^ (d - k) * 2 ^ k) by (rewrite <- Z.pow_add_r by lia; f_equal; lia).
    assert (l / 2 ^ k < 2 ^ (d - k)) by (apply Z.div_lt_upper_bound; lia). nia.
  - intros [Hp Hb]. destruct (parent_cover p (d + 1)) as (k & j & Hk & Hc & Hkj & ->);
      [lia..|rewrite pow2_succ; lia|].
    rewrite node_at_parent in Hb by lia. apply below_node_at in Hb; [|done].
    exists k. rewrite Hb. split; [done|]. apply elem_of_seqZ. lia.
Qed.

(** ** Coordinates of a subtree *)

(** [(k, j)] is a node of the perfect tree of depth [h]. *)
Definition in_tree (h k j : Z) : Prop := 0 <= k <= h /\ 0 <= j < 2 ^ (h - k).

Lemma in_tree_coord h k j : h <= 30 -> in_tree h k j -> coord k j.
Proof.
  intros Hh [Hk Hj]. split; [lia|]. split; [lia|].
  assert ((j + 1) * 2 ^ k <= 2 ^ (h - k) * 2 ^ k) as H by (apply Z.mul_le_mono_nonneg_r; [apply Z.pow_nonneg|]; lia).
  rewrite <- Z.pow_add_r in H by lia. replace (h - k + k) with h in H by lia.
  pose proof (pow2_le h 31). lia.
Qed.

Lemma in_tree_child h k j b : 1 <= k -> in_tree h k j -> 0 <= b <= 1 -> in_tree h (k - 1) (2 * j + b).
Proof.
  intros Hk [Hk' Hj] Hb. split; [lia|]. replace (h - (k - 1)) with (h - k + 1) by lia.
  rewrite pow2_succ by lia. lia.
Qed.

Lemma in_tree_anc h k l : 0 <= k <= h -> 0 <= l < 2 ^ h -> in_tree h k (l / 2 ^ k).
Proof.
  intros Hk Hl. split; [lia|]. pose proof (pow2_pos k). split; [apply Z.div_pos; lia|].
  apply Z.div_lt_upper_bound; [lia|]. rewrite <- Z.pow_add_r by lia. replace (k + (h - k)) with h by lia. lia.
Qed.

Lemma child_half l k j : 1 <= k -> l / 2 ^ k = j <-> exists b, 0 <= b <= 1 /\ l / 2 ^ (k - 1) = 2 * j + b.
Proof.
  intros Hk. pose proof (anc_step l (k - 1) ltac:(lia)) as E. replace (k - 1 + 1) with k in E by lia.
  rewrite <- E. split.
  - intros <-. exists (l / 2 ^ (k - 1) mod 2). pose proof (Z.mod_pos_bound (l / 2 ^ (k - 1)) 2).
    split; [lia|]. apply Z.div_mod. lia.
  - intros (b & Hb & ->). rewrite Z.mul_comm, Z.div_add_l by lia. rewrite Z.div_small; lia.
Qed.

Lemma in_tree_leaf h k j l : in_tree h k j -> l / 2 ^ k = j -> 0 <= l < 2 ^ h.
Proof.
  intros [Hk Hj] E. pose proof (pow2_pos k). pose proof (Z.div_mod l (2 ^ k)). pose proof (Z.mod_pos_bound l (2 ^ k)).
  replace h with (k + (h - k)) by lia. rewrite Z.pow_add_r by lia. nia.
Qed.

Lemma parent_at_range h k j : 1 <= k -> in_tree h k j -> 0 <= parent_at k j < 2 ^ h - 1.
Proof.
  intros Hk [Hkh Hj]. unfold parent_at. pose proof (pow2_pos (k - 1)). pose proof (pow2_pred k Hk).
  assert ((j + 1) * 2 ^ k <= 2 ^ (h - k) * 2 ^ k) as Hb by (apply Z.mul_le_mono_nonneg_r; lia).
  rewrite <- Z.pow_add_r in Hb by lia. replace (h - k + k) with h in Hb by lia. nia.
Qed.

(** ** Correctness of the navigation functions *)

(** [left], [right], [parent] and [sibling] are consistent on every valid parent
    index: the two children are distinct, both have the node as their parent,
    they are each other's sibling, and their leaves are exactly the leaves below
    the node, split in the middle. *)
Theorem children_parent_sibling p :
  0 <= p -> ParentNodeIndex.valid p = true ->
  parent (left p) = p /\ parent (right p) = p /\
  sibling (left p) = right p /\ sibling (right p) = left p /\
  (forall m, below (Parent p) m <-> (below (left p) m \/ below (right p) m)) /\
  (forall m, ~ (below (left p) m /\ below (right p) m)).
Proof.
  intros Hp Hv%Z.leb_le.
  destruct (parent_cover p 30) as (k & j & Hk & Hc & _ & ->); [lia..| |].
  { change MAX_PARENT with (2 ^ 29 - 2) in Hv. change (2 ^ 30) with (2 * 2 ^ 29). lia. }
  rewrite left_coord, right_coord by (auto; lia).
  assert (coord (k - 1) (2 * j)) as Hcl by (rewrite <- (Z.add_0_r (2 * j)); apply coord_down; auto; lia).
  assert (coord (k - 1) (2 * j + 1)) as Hcr by (apply coord_down; auto; lia).
  assert (2 * j / 2 = j) as E0 by (rewrite Z.mul_comm; apply Z.div_mul; lia).
  assert ((2 * j + 1) / 2 = j) as E1 by (symmetry; apply Z.div_unique with 1; lia).
  rewrite !parent_coord, !sibling_coord, E0, E1 by (auto; lia).
  replace (k - 1 + 1) with k by lia.
  assert (flip (2 * j) = 2 * j + 1) as ->. { symmetry. apply flip_unique; lia. }
  assert (flip (2 * j + 1) = 2 * j) as ->. { symmetry. apply flip_unique; lia. }
  rewrite node_at_parent by lia. repeat split; try done.
  - intros Hm. rewrite !below_node_at in * by done. unfold leaf_below in *.
    pose proof (anc_step m (k - 1) ltac:(lia)) as E. replace (k - 1 + 1) with k in E by lia.
    pose proof (Z.div_mod (m / 2 ^ (k - 1)) 2). pose proof (Z.mod_pos_bound (m / 2 ^ (k - 1)) 2). lia.
  - rewrite !below_node_at by done. unfold leaf_below.
    pose proof (anc_step m (k - 1) ltac:(lia)) as E. replace (k - 1 + 1) with k in E by lia.
    intros [H|H]; rewrite H in E; lia.
  - intros m [H1 H2]. rewrite !below_node_at in * by done. unfold leaf_below in *. lia.
Qed.

Lemma children_parent_sibling_witness : parent (left 5) = 5 /\ sibling (left 5) = right 5.
Proof. split; apply (children_parent_sibling 5); vm_compute; congruence. Defined.

(** [TreeSize::new] returns the size of the smallest perfect tree with at
    least the given number of nodes. *)
Theorem tree_size_new_least nodes :
  1 <= nodes <= MAX_TREE_SIZE ->
  exists d, 0 <= d <= 29 /\ TreeSize.new nodes = perfect d /\ nodes <= perfect d /\
  TreeSize.leaf_count (TreeSize.new nodes) = 2 ^ d /\
  TreeSize.parent_count (TreeSize.new nodes) = 2 ^ d - 1 /\
  (forall e, 0 <= e -> nodes <= perfect e -> TreeSize.new nodes <= perfect e).
Proof.
  intros Hn. change MAX_TREE_SIZE with (2 ^ 30 - 1) in Hn.
  pose proof (Z.log2_nonneg nodes). pose proof (Z.log2_spec nodes ltac:(lia)) as [Hlo Hhi].
  pose proof (proj1 (Z.log2_lt_pow2 nodes 30 ltac:(lia)) ltac:(lia)).
  exists (Z.log2 nodes). rewrite tree_size_new_perfect by lia.
  rewrite perfect_leaf_count, perfect_parent_count by lia.
  unfold perfect, Z.succ in *. repeat split; try lia.
  intros e He Hle. assert (2 ^ (Z.log2 nodes + 1) <= 2 ^ (e + 1)); [|lia].
  apply pow2_le; [|lia]. destruct (Z.le_gt_cases (Z.log2 nodes) e); [lia|].
  pose proof (pow2_le (e + 1) (Z.log2 nodes)). lia.
Qed.

Lemma tree_size_new_least_witness : exists d, 0 <= d <= 29 /\ TreeSize.new 11 = perfect d.
Proof.
  destruct (tree_size_new_least 11) as (d & ? & ? & _); [vm_compute; split; congruence|].
  exists d. auto.
Defined.

(** The loop of [direct_path] ends for every leaf of the tree, and the path
    it returns lists, by increasing level and up to the root, exactly the parent
    nodes of the tree that have the leaf below them. *)
Theorem direct_path_correct d l :
  0 <= d <= 30 -> 0 <= l < TreeSize.leaf_count (perfect d) ->
  exists path, direct_path l (perfect d) = Some path /\
  Z.of_nat (length path) = d /\
  (forall i p, path !! i = Some p -> level (ParentNodeIndex.to_tree_index p) = Z.of_nat i + 1) /\
  (forall p, p ∈ path <-> 0 <= p < TreeSize.parent_count (perfect d) /\ below (Parent p) l) /\
  (0 < d -> last path = Some (parent_at d 0) /\ root (perfect d) = Parent (parent_at d 0)).
Proof.
  intros Hd Hl. rewrite perfect_leaf_count, perfect_parent_count in * by lia.
  exists (ancestors d l). rewrite direct_path_coord by lia.
  split; [done|]. split; [|split; [|split; [|split]]].
  - unfold ancestors. rewrite length_fmap, length_seqZ. lia.
  - unfold ancestors. intros i p Hi. apply list_lookup_fmap_Some in Hi as (k & -> & Hk).
    apply lookup_seqZ in Hk as [-> Hk].
    rewrite parent_tree_index, level_node by (try apply (coord_anc d); lia). lia.
  - intros p. now apply ancestors_elem.
  - unfold ancestors. replace d with (Z.pred d + 1) at 1 by lia.
    rewrite seqZ_app, fmap_app, (seqZ_cons _ 1), fmap_cons by lia.
    rewrite (seqZ_nil (Z.succ (1 + Z.pred d)) (Z.pred 1)), fmap_nil, last_snoc by lia.
    replace (1 + Z.pred d) with d by lia. now rewrite Z.div_small by lia.
  - rewrite root_perfect, node_at_parent by lia. done.
Qed.

Lemma direct_path_correct_witness : exists path, direct_path 5 (perfect 3) = Some path.
Proof.
  destruct (direct_path_correct 3 5) as (path & E & _); [lia|vm_compute; split; congruence|].
  exists path. exact E.
Defined.

(** The copath of a leaf partitions the rest of the tree: every other leaf
    lies below exactly one copath node, and the leaf itself below none. *)
Theorem copath_partition d l :
  1 <= d <= 30 -> 0 <= l < TreeSize.leaf_count (perfect d) ->
  exists cp, copath l (perfect d) = Some cp /\
  (forall m, 0 <= m < TreeSize.leaf_count (perfect d) -> m <> l ->
     exists c, c ∈ cp /\ below c m /\ (forall c', c' ∈ cp -> below c' m -> c' = c)) /\
  (forall c, c ∈ cp -> ~ below c l).
Proof.
  intros Hd Hl. rewrite perfect_leaf_count in * by lia. rewrite copath_coord by lia.
  eexists. split; [done|].
  assert (forall k, 0 <= k < d -> coord k (flip (l / 2 ^ k))) as HC.
  { intros k Hk. pose proof (coord_anc d (k + 1) l ltac:(lia) ltac:(lia) ltac:(lia)) as Hc.
    apply coord_down with (b := flip (l / 2 ^ k) mod 2) in Hc;
      [|lia|pose proof (Z.mod_pos_bound (flip (l / 2 ^ k)) 2); lia].
    rewrite <- anc_step, <- flip_half, <- Z.div_mod in Hc by lia. now replace (k + 1 - 1) with k in Hc by lia. }
  split.
  - intros m Hm Hne. destruct (meet_exists d l m) as [h Hh]; [lia..|].
    pose proof (meet_bounds d l m h Hl Hm ltac:(lia) ltac:(lia) Hh).
    exists (node_at (h - 1) (flip (l / 2 ^ (h - 1)))). split; [|split].
    + apply list_elem_of_fmap. eexists. split; [done|]. apply elem_of_seqZ. lia.
    + apply below_node_at; [apply HC; lia|]. apply meet_flip; [done|lia].
    + intros c' [k [-> Hk%elem_of_seqZ]]%list_elem_of_fmap Hb.
      apply below_node_at in Hb; [|apply HC; lia].
      apply flip_meet in Hb; [|lia]. pose proof (meet_unique _ _ _ _ Hh Hb) as ->.
      now replace (k + 1 - 1) with k by lia.
  - intros c [k [-> Hk%elem_of_seqZ]]%list_elem_of_fmap Hb.
    apply below_node_at in Hb; [|apply HC; lia]. unfold leaf_below in Hb.
    symmetry in Hb. now apply flip_neq in Hb.
Qed.

Lemma copath_partition_witness : exists cp, copath 6 (perfect 3) = Some cp /\ (forall c, c ∈ cp -> ~ below c 6).
Proof.
  destruct (copath_partition 3 6) as (cp & E & _ & H); [lia|vm_compute; split; congruence|].
  exists cp. split; [exact E|exact H].
Defined.

(** [lowest_common_ancestor] of two distinct leaves terminates and returns the root
    of the smallest subtree that contains both: the node is above both leaves,
    and any other node above both leaves contains its whole subtree. *)
Theorem lowest_common_ancestor_correct d x y :
  1 <= d <= 30 -> 0 <= x < TreeSize.leaf_count (perfect d) ->
  0 <= y < TreeSize.leaf_count (perfect d) -> x <> y ->
  exists p, lowest_common_ancestor x y = Some p /\
  0 <= p < TreeSize.parent_count (perfect d) /\
  below (Parent p) x /\ below (Parent p) y /\
  (forall c, below c x -> below c y -> forall m, below (Parent p) m -> below c m).
Proof.
  intros Hd Hx Hy Hne. rewrite perfect_leaf_count, perfect_parent_count in * by lia.
  destruct (meet_exists d x y) as [h Hh]; [lia..|].
  pose proof (meet_bounds d x y h Hx Hy ltac:(lia) Hne Hh).
  exists (parent_at h (x / 2 ^ h)). rewrite (lca_coord d x y h) by (auto; lia).
  pose proof (coord_anc d h x ltac:(lia) ltac:(lia) Hx) as Hc.
  assert (parent_at h (x / 2 ^ h) ∈ ancestors d x) as Hin.
  { apply list_elem_of_fmap. exists h. split; [done|]. apply elem_of_seqZ. lia. }
  apply ancestors_elem in Hin as [Hp Hbx]; [|lia..].
  split; [done|]. split; [done|]. split; [done|]. rewrite node_at_parent in * by lia.
  pose proof Hh as (_ & E & Hmin). split.
  - apply below_node_at; [done|]. unfold leaf_below. congruence.
  - intros c (k & j & Hck & -> & Hkx) Hkm m Hm. apply below_node_at in Hkm, Hm; [|done..].
    apply below_node_at; [done|]. unfold leaf_below in *.
    destruct (Z.lt_ge_cases k h).
    + exfalso. apply (Hmin k); [destruct Hck; lia|congruence].
    + transitivity (x / 2 ^ k); [|done]. apply (div_pow2_le _ _ h); [lia|done].
Qed.

Lemma lowest_common_ancestor_correct_witness :
  exists p, lowest_common_ancestor 1 6 = Some p /\ below (Parent p) 1 /\ below (Parent p) 6.
Proof.
  destruct (lowest_common_ancestor_correct 3 1 6) as (p & E & _ & H1 & H2 & _);
    [lia|vm_compute; split; congruence|vm_compute; split; congruence|lia|].
  exists p. split; [exact E|split; [exact H1|exact H2]].
Defined.

(** [common_direct_path] of two distinct leaves is the path from their lowest
    common ancestor to the root: it is the part the two direct paths share, and
    the parts below it have no node in common. *)
Theorem common_direct_path_correct d x y :
  1 <= d <= 30 -> 0 <= x < TreeSize.leaf_count (perfect d) ->
  0 <= y < TreeSize.leaf_count (perfect d) -> x <> y ->
  exists p path px py,
  common_direct_path x y (perfect d) = Some (p :: path) /\
  lowest_common_ancestor x y = Some p /\
  direct_path x (perfect d) = Some (px ++ p :: path) /\
  direct_path y (perfect d) = Some (py ++ p :: path) /\
  (forall q, q ∈ px -> q ∉ py).
Proof.
  intros Hd Hx Hy Hne. rewrite perfect_leaf_count in * by lia.
  destruct (meet_exists d x y) as [h Hh]; [lia..|].
  pose proof (meet_bounds d x y h Hx Hy ltac:(lia) Hne Hh) as Hhd.
  pose proof Hh as (_ & E & Hmin).
  set (anc := fun l k => parent_at k (l / 2 ^ k)).
  assert (anc y <$> seqZ h (d - h + 1) = anc x <$> seqZ h (d - h + 1)) as Htop.
  { apply fmap_seqZ_ext. intros k Hk. unfold anc. f_equal. symmetry. apply (div_pow2_le _ _ h); [lia|done]. }
  assert (anc x <$> seqZ h (d - h + 1) = anc x h :: (anc x <$> seqZ (h + 1) (d - h))) as Hcons.
  { rewrite seqZ_cons, fmap_cons by lia. do 2 f_equal. unfold Z.succ. f_equal. lia. }
  assert (forall k k', 1 <= k < h -> 1 <= k' < h -> anc x k <> anc y k') as Hdis.
  { intros k k' Hk Hk' Ek. unfold anc in Ek.
    apply parent_at_inj in Ek as [<- Ek]; [by apply (Hmin k); [lia|]|lia..| |];
      apply (coord_anc d); lia. }
  exists (anc x h), (anc x <$> seqZ (h + 1) (d - h)),
    (anc x <$> seqZ 1 (h - 1)), (anc y <$> seqZ 1 (h - 1)).
  unfold common_direct_path. rewrite !direct_path_coord by lia. cbn [mbind option_bind].
  rewrite !(ancestors_split d _ h) by lia. fold (anc x) (anc y). rewrite Htop, <- Hcons.
  split; [|split; [|split; [|split]]]; try done.
  - f_equal. apply common_suffix_split. destruct (Z.eq_dec h 1) as [->|]; [left; done|].
    do 2 right. replace (h - 1) with ((h - 2) + 1) by lia.
    rewrite !seqZ_app, !fmap_app, !(seqZ_cons (1 + (h - 2)) 1), !fmap_cons by lia.
    rewrite (seqZ_nil (Z.succ (1 + (h - 2))) (Z.pred 1)), !fmap_nil, !last_snoc by lia.
    intros [= Ek]. apply (Hdis (1 + (h - 2)) (1 + (h - 2))); [lia..|done].
  - now apply (lca_coord d).
  - intros q [k [-> Hk%elem_of_seqZ]]%list_elem_of_fmap [k' [Ek Hk'%elem_of_seqZ]]%list_elem_of_fmap.
    apply (Hdis k k'); [lia..|done].
Qed.

Lemma common_direct_path_correct_witness :
  exists p path, common_direct_path 2 3 (perfect 3) = Some (p :: path) /\ lowest_common_ancestor 2 3 = Some p.
Proof.
  destruct (common_direct_path_correct 3 2 3) as (p & path & px & py & E & F & _);
    [lia|vm_compute; split; congruence|vm_compute; split; congruence|lia|].
  exists p, path. split; [exact E|exact F].
Defined.

(** [is_node_in_tree] decides membership for every [u32] payload, so that an
    index whose tree position would wrap around is never taken for a node of the
    tree. *)
Theorem is_node_in_tree_correct d i :
  0 <= d <= 29 -> u32.is_u32 i ->
  is_node_in_tree (Leaf i) (perfect d) = bool_decide (i < TreeSize.leaf_count (perfect d)) /\
  is_node_in_tree (Parent i) (perfect d) = bool_decide (i < TreeSize.parent_count (perfect d)).
Proof.
  intros Hd Hi. rewrite perfect_leaf_count, perfect_parent_count by lia.
  unfold is_node_in_tree, TreeIdx.valid, LeafNodeIndex.valid, ParentNodeIndex.valid, TreeIdx.u32.
  change MAX_LEAF with (2 ^ 29 - 1). change MAX_PARENT with (2 ^ 29 - 2).
  pose proof (pow2_le d 29). unfold u32.is_u32, u32.modulus in Hi. unfold perfect. rewrite pow2_succ by lia.
  split.
  - destruct (Z.leb_spec i (2 ^ 29 - 1)); cbn [andb].
    + rewrite leaf_tree_index, node_0 by lia.
      destruct (Z.ltb_spec (2 * i) (2 * 2 ^ d - 1)); case_bool_decide; lia.
    + case_bool_decide; lia.
  - destruct (Z.leb_spec i (2 ^ 29 - 2)); cbn [andb].
    + unfold ParentNodeIndex.to_tree_index, u32.add, u32.mul.
      rewrite !u32.wrap_small by (unfold u32.is_u32, u32.modulus; rewrite ?u32.wrap_small; unfold u32.is_u32, u32.modulus; lia).
      destruct (Z.ltb_spec (i * 2 + 1) (2 * 2 ^ d - 1)); case_bool_decide; lia.
    + case_bool_decide; lia.
Qed.

Lemma is_node_in_tree_correct_witness :
  is_node_in_tree (Leaf (2 ^ 31)) (perfect 1) = bool_decide (2 ^ 31 < TreeSize.leaf_count (perfect 1)).
Proof. apply (is_node_in_tree_correct 1 (2 ^ 31)); [lia|vm_compute; split; congruence]. Defined.
