(* ===== verification/BinaryTree.v ===== *)
(** * The array-represented binary tree and its diffs

    Models openmls/src/binary_tree/array_representation/: [ABinaryTree]
    (tree.rs), the merging iterator [SortedIter] (sorted_iter.rs) and
    [AbDiff]/[StagedAbDiff] (diff.rs).  References into a tree are values; a
    [&mut] parameter is passed and returned. *)
From S2P Require Import Prelude TreeMath.

(** ** SortedIter *)
Module SortedIter.
Section SortedIter.
Context {Item : Type} (cmp : Item -> Z).

Record t : Type := mk { a : list Item; b : list Item; size : Z; counter : Z }.

Definition new (a b : list Item) (size : Z) : t := mk a b size 0.

Definition next (self : t) : option Item * t :=
  if counter self =? size self then (None, self)
  else
    let c := counter self + 1 in
    match a self, b self with
    | x :: a', y :: b' =>
        match cmp x ?= cmp y with
        | Lt => (Some x, mk a' (y :: b') (size self) c)
        | Eq => (Some x, mk a' b' (size self) c)
        | Gt => (Some y, mk (x :: a') b' (size self) c)
        end
    | x :: a', [] => (Some x, mk a' [] (size self) c)
    | [], y :: b' => (Some y, mk [] b' (size self) c)
    | [], [] => (None, mk [] [] (size self) c)
    end.

(** Draining the iterator; [None] when [fuel] calls do not exhaust it. *)
Fixpoint collect (fuel : nat) (self : t) : option (list Item) :=
  match fuel with
  | O => None
  | S fuel' =>
      match next self with
      | (None, _) => Some []
      | (Some x, self') => cons x <$> collect fuel' self'
      end
  end.

Definition sorted_iter (a b : list Item) (size : Z) : option (list Item) :=
  collect (S (length a + length b)) (new a b size).
End SortedIter.
End SortedIter.

(** ** ABinaryTree *)
Inductive TreeNode (L P : Type) : Type :=
  | LeafN (l : L)
  | ParentN (p : P).
Arguments LeafN {L P} l.
Arguments ParentN {L P} p.

Inductive ABinaryTreeError : Type := OutOfRange | InvalidNumberOfNodes | WrongNodeType.

Record ABinaryTree (L P : Type) : Type := mkTree {
  leaf_nodes : list L;
  parent_nodes : list P;
  default_leaf : L;
  default_parent : P;
}.
Arguments mkTree {L P}.
Arguments leaf_nodes {L P}.
Arguments parent_nodes {L P}.
Arguments default_leaf {L P}.
Arguments default_parent {L P}.

Inductive ABinaryTreeDiffError : Type := TreeTooLarge | TreeTooSmall.

Record StagedAbDiff (L P : Type) : Type := mkStaged {
  staged_leaf_diff : gmap Z L;
  staged_parent_diff : gmap Z P;
  staged_size : TreeSize.t;
}.
Arguments mkStaged {L P}.
Arguments staged_leaf_diff {L P}.
Arguments staged_parent_diff {L P}.
Arguments staged_size {L P}.

Record AbDiff (L P : Type) : Type := mkDiff {
  original_tree : ABinaryTree L P;
  leaf_diff : gmap Z L;
  parent_diff : gmap Z P;
  size : TreeSize.t;
  diff_default_leaf : L;
  diff_default_parent : P;
}.
Arguments mkDiff {L P}.
Arguments original_tree {L P}.
Arguments leaf_diff {L P}.
Arguments parent_diff {L P}.
Arguments size {L P}.
Arguments diff_default_leaf {L P}.
Arguments diff_default_parent {L P}.

Module Tree.
Section Tree.
Context {L P : Type} `{Default L} `{Default P}.

(** The loop of [new] that splits the nodes by the parity of their position. *)
Fixpoint split_nodes (i : Z) (nodes : list (TreeNode L P)) (leaf_nodes : list L)
    (parent_nodes : list P) : result ABinaryTreeError (list L * list P) :=
  match nodes with
  | [] => Ok (leaf_nodes, parent_nodes)
  | LeafN l :: nodes' =>
      if i mod 2 =? 0 then split_nodes (i + 1) nodes' (leaf_nodes ++ [l]) parent_nodes
      else Err WrongNodeType
  | ParentN p :: nodes' =>
      if i mod 2 =? 1 then split_nodes (i + 1) nodes' leaf_nodes (parent_nodes ++ [p])
      else Err WrongNodeType
  end.

Definition new (nodes : list (TreeNode L P)) : result ABinaryTreeError (ABinaryTree L P) :=
  if Z.of_nat (length nodes) >? MAX_TREE_SIZE then Err OutOfRange
  else if negb (Z.of_nat (length nodes) mod 2 =? 1) then Err InvalidNumberOfNodes
  else
    '(leaf_nodes, parent_nodes) ← split_nodes 0 nodes [] [];
    Ok (mkTree leaf_nodes parent_nodes default_value default_value).

Definition from_components (leaf_nodes : list L) (parent_nodes : list P) :
    result ABinaryTreeError (ABinaryTree L P) :=
  if Z.of_nat (length leaf_nodes + length parent_nodes) >? MAX_TREE_SIZE then Err OutOfRange
  else if negb (Z.of_nat (length leaf_nodes) =? Z.of_nat (length parent_nodes) + 1)
  then Err InvalidNumberOfNodes
  else Ok (mkTree leaf_nodes parent_nodes default_value default_value).

Definition leaf_by_index (self : ABinaryTree L P) (leaf_index : LeafNodeIndex.t) : L :=
  default (default_leaf self) (get_at (leaf_nodes self) leaf_index).

Definition parent_by_index (self : ABinaryTree L P) (parent_index : ParentNodeIndex.t) : P :=
  default (default_parent self) (get_at (parent_nodes self) parent_index).

Definition tree_size (self : ABinaryTree L P) : TreeSize.t :=
  TreeSize.new (u32.wrap (Z.of_nat (length (leaf_nodes self) + length (parent_nodes self)))).

Definition leaf_count (self : ABinaryTree L P) : Z :=
  u32.wrap (Z.of_nat (length (leaf_nodes self))).

Definition parent_count (self : ABinaryTree L P) : Z :=
  u32.wrap (Z.of_nat (length (parent_nodes self))).

Definition leaves (self : ABinaryTree L P) : list (LeafNodeIndex.t * L) :=
  (fun '(index, leaf) => (u32.wrap index, leaf)) <$> enumerate (leaf_nodes self).

Definition parents (self : ABinaryTree L P) : list (ParentNodeIndex.t * P) :=
  (fun '(index, parent) => (u32.wrap index, parent)) <$> enumerate (parent_nodes self).

Definition leaf (self : ABinaryTree L P) (leaf_index : LeafNodeIndex.t) : L :=
  default (default_leaf self) (get_at (leaf_nodes self) leaf_index).

Definition parent (self : ABinaryTree L P) (parent_index : ParentNodeIndex.t) : P :=
  default (default_parent self) (get_at (parent_nodes self) parent_index).

Definition subtree_path (self : ABinaryTree L P) (leaf_index_1 leaf_index_2 : LeafNodeIndex.t) :
    option (list ParentNodeIndex.t) :=
  common_direct_path leaf_index_1 leaf_index_2 (tree_size self).

Definition empty_diff (self : ABinaryTree L P) : AbDiff L P :=
  mkDiff self ∅ ∅ (tree_size self) default_value default_value.

Definition merge_diff (self : ABinaryTree L P) (diff : StagedAbDiff L P) : ABinaryTree L P :=
  let tree_size := staged_size diff in
  let leaf_nodes0 := resize (Z.to_nat (TreeSize.leaf_count tree_size)) default_value (leaf_nodes self) in
  let parent_nodes0 := resize (Z.to_nat (TreeSize.parent_count tree_size)) default_value (parent_nodes self) in
  mkTree
    (foldl (fun ns '(leaf_index, diff_leaf) => set_at ns leaf_index diff_leaf)
       leaf_nodes0 (btree_iter (staged_leaf_diff diff)))
    (foldl (fun ns '(parent_index, diff_parent) => set_at ns parent_index diff_parent)
       parent_nodes0 (btree_iter (staged_parent_diff diff)))
    (default_leaf self) (default_parent self).
End Tree.
End Tree.

(** ** AbDiff *)
Module Diff.
Section Diff.
Context {L P : Type} `{Default L} `{Default P}.

Definition leaf_count (self : AbDiff L P) : Z := TreeSize.leaf_count (size self).
Definition parent_count (self : AbDiff L P) : Z := TreeSize.parent_count (size self).

(** [for index in lo..hi { map.insert(index, x) }]. *)
Definition insert_range {A} (lo hi : Z) (x : A) (m : gmap Z A) : gmap Z A :=
  foldl (fun m index => <[index := x]> m) m (seqZ lo (hi - lo)).

Definition grow_tree (self : AbDiff L P) : result ABinaryTreeDiffError (AbDiff L P) :=
  if size self >? MAX_TREE_SIZE / 2 then Err TreeTooLarge
  else
    let old_size := size self in
    let size' := TreeSize.inc old_size in
    let leaf_end := Z.min (TreeSize.leaf_count size') (Tree.leaf_count (original_tree self)) in
    let leaf_diff' := insert_range (TreeSize.leaf_count old_size) leaf_end default_value (leaf_diff self) in
    let parent_end := Z.min (TreeSize.parent_count size') (Tree.parent_count (original_tree self)) in
    let parent_diff' := insert_range (TreeSize.parent_count old_size) parent_end default_value (parent_diff self) in
    Ok (mkDiff (original_tree self) leaf_diff' parent_diff' size'
          (diff_default_leaf self) (diff_default_parent self)).

Definition shrink_tree (self : AbDiff L P) : result ABinaryTreeDiffError (AbDiff L P) :=
  if size self <=? MIN_TREE_SIZE then Err TreeTooSmall
  else
    let size' := TreeSize.dec (size self) in
    Ok (mkDiff (original_tree self)
          (retain_keys (fun index => index <? TreeSize.leaf_count size') (leaf_diff self))
          (retain_keys (fun index => index <? TreeSize.parent_count size') (parent_diff self))
          size' (diff_default_leaf self) (diff_default_parent self)).

Definition replace_leaf (self : AbDiff L P) (leaf_index : LeafNodeIndex.t) (new_leaf : L) : AbDiff L P :=
  mkDiff (original_tree self) (<[leaf_index := new_leaf]> (leaf_diff self)) (parent_diff self)
    (size self) (diff_default_leaf self) (diff_default_parent self).

Definition replace_parent (self : AbDiff L P) (parent_index : ParentNodeIndex.t) (node : P) : AbDiff L P :=
  mkDiff (original_tree self) (leaf_diff self) (<[parent_index := node]> (parent_diff self))
    (size self) (diff_default_leaf self) (diff_default_parent self).

Definition raw_parents (original_tree : ABinaryTree L P) (parent_diff : gmap Z P) (parent_count : Z) :
    option (list (ParentNodeIndex.t * P)) :=
  SortedIter.sorted_iter fst (btree_iter parent_diff) (Tree.parents original_tree) parent_count.

Definition raw_leaves (original_tree : ABinaryTree L P) (leaf_diff : gmap Z L) (leaf_count : Z) :
    option (list (LeafNodeIndex.t * L)) :=
  SortedIter.sorted_iter fst (btree_iter leaf_diff) (Tree.leaves original_tree) leaf_count.

Definition leaves (self : AbDiff L P) : option (list (LeafNodeIndex.t * L)) :=
  raw_leaves (original_tree self) (leaf_diff self) (leaf_count self).

Definition parents (self : AbDiff L P) : option (list (ParentNodeIndex.t * P)) :=
  raw_parents (original_tree self) (parent_diff self) (parent_count self).

Definition direct_path (self : AbDiff L P) (leaf_index : LeafNodeIndex.t) :
    option (list ParentNodeIndex.t) :=
  direct_path leaf_index (size self).

Definition set_direct_path_to_node (self : AbDiff L P) (leaf_index : LeafNodeIndex.t) (node : P) :
    option (AbDiff L P) :=
  path ← direct_path self leaf_index;
  Some (foldl (fun d node_index => replace_parent d node_index node) self path).

Definition copath (self : AbDiff L P) (leaf_index : LeafNodeIndex.t) : option (list TreeNodeIndex) :=
  copath leaf_index (size self).

Definition lowest_common_ancestor (self : AbDiff L P) (leaf_index_1 leaf_index_2 : LeafNodeIndex.t) :
    option ParentNodeIndex.t :=
  lowest_common_ancestor leaf_index_1 leaf_index_2.

Definition subtree_root_copath_node (self : AbDiff L P) (leaf_index_1 leaf_index_2 : LeafNodeIndex.t) :
    option TreeNodeIndex :=
  subtree_root_node_index ← TreeMath.lowest_common_ancestor leaf_index_1 leaf_index_2;
  Some (if leaf_index_2 <? leaf_index_1 then left subtree_root_node_index
        else right subtree_root_node_index).

Definition root (self : AbDiff L P) : TreeNodeIndex := root (size self).
Definition left_child (self : AbDiff L P) (node_index : ParentNodeIndex.t) : TreeNodeIndex := left node_index.
Definition right_child (self : AbDiff L P) (node_index : ParentNodeIndex.t) : TreeNodeIndex := right node_index.

Definition leaf (self : AbDiff L P) (leaf_index : LeafNodeIndex.t) : L :=
  match leaf_diff self !! leaf_index with
  | Some node => node
  | None =>
      if leaf_index >=? leaf_count self then diff_default_leaf self
      else Tree.leaf_by_index (original_tree self) leaf_index
  end.

Definition parent (self : AbDiff L P) (parent_index : ParentNodeIndex.t) : P :=
  match parent_diff self !! parent_index with
  | Some node => node
  | None => Tree.parent_by_index (original_tree self) parent_index
  end.

(** [parent_mut] and what its caller does with the reference, [f]. *)
Definition parent_mut (self : AbDiff L P) (parent_index : ParentNodeIndex.t) (f : P -> P) : AbDiff L P :=
  match parent_diff self !! parent_index with
  | Some node => replace_parent self parent_index (f node)
  | None => replace_parent self parent_index (f (Tree.parent_by_index (original_tree self) parent_index))
  end.

Definition into_staged (diff : AbDiff L P) : StagedAbDiff L P :=
  mkStaged (leaf_diff diff) (parent_diff diff) (size diff).
End Diff.
End Diff.

Module Staged.
Section Staged.
Context {L P : Type} `{Default L} `{Default P}.

Definition leaves (self : StagedAbDiff L P) (original_tree : ABinaryTree L P) :
    option (list (LeafNodeIndex.t * L)) :=
  Diff.raw_leaves original_tree (staged_leaf_diff self) (TreeSize.leaf_count (staged_size self)).

Definition parents (self : StagedAbDiff L P) (original_tree : ABinaryTree L P) :
    option (list (ParentNodeIndex.t * P)) :=
  Diff.raw_parents original_tree (staged_parent_diff self) (TreeSize.parent_count (staged_size self)).
End Staged.
End Staged.
