(* ===== verification/BinaryTreeFacts.v ===== *)
(** * Correctness of the binary tree and its diffs

    [SortedIter] computes the left-biased union of two sorted sequences;
    [ABinaryTree::new] accepts exactly the alternating node lists; a diff refines
    an abstract resizable tree, and merging it yields that tree. *)
From S2P Require Import Prelude TreeMath TreeMathFacts BinaryTree.

(** ** The merging iterator *)
Section SortedIterFacts.
Context {Item : Type} (cmp : Item -> Z).

Definition sorted (l : list Item) : Prop := StronglySorted Z.lt (cmp <$> l).

(** The union of two sorted lists, biased to the first. *)
Fixpoint merge_union (a : list Item) : list Item -> list Item :=
  fix go (b : list Item) : list Item :=
    match a, b with
    | x :: a', y :: b' =>
        match cmp x ?= cmp y with
        | Lt => x :: merge_union a' b
        | Eq => x :: merge_union a' b'
        | Gt => y :: go b'
        end
    | _, [] => a
    | [], _ => b
    end.

Lemma merge_union_eq a b :
  merge_union a b =
    match a, b with
    | x :: a', y :: b' =>
        match cmp x ?= cmp y with
        | Lt => x :: merge_union a' b
        | Eq => x :: merge_union a' b'
        | Gt => y :: merge_union a b'
        end
    | _, [] => a
    | [], _ => b
    end.
Proof. destruct a, b; reflexivity. Qed.

Lemma collect_merge fuel a b size c :
  (length a + length b < fuel)%nat -> c <= size ->
  SortedIter.collect cmp fuel (SortedIter.mk a b size c) = Some (take (Z.to_nat (size - c)) (merge_union a b)).
Proof.
  revert a b c. induction fuel as [|fuel IH]; intros a b c Hf Hc; [lia|].
  cbn [SortedIter.collect]. unfold SortedIter.next. cbn [SortedIter.counter SortedIter.size SortedIter.a SortedIter.b].
  destruct (Z.eqb_spec c size) as [->|Hne]; [now rewrite Z.sub_diag|].
  assert (Z.to_nat (size - c) = S (Z.to_nat (size - (c + 1)))) as -> by lia.
  rewrite merge_union_eq. destruct a as [|x a], b as [|y b]; cbn in Hf; cbn [SortedIter.a SortedIter.b].
  - done.
  - rewrite IH by (cbn; lia). rewrite merge_union_eq. now destruct b.
  - rewrite IH by (cbn; lia). rewrite merge_union_eq. now destruct a.
  - destruct (cmp x ?= cmp y); rewrite IH by (cbn; lia); done.
Qed.

Lemma sorted_cons x l : sorted (x :: l) <-> sorted l /\ (forall y, y ∈ l -> cmp x < cmp y).
Proof.
  unfold sorted. cbn. split.
  - intros H. apply StronglySorted_inv in H as [Hs Hall]. split; [done|].
    rewrite Forall_fmap, Forall_forall in Hall. auto.
  - intros [Hs Hall]. constructor; [done|]. now rewrite Forall_fmap, Forall_forall.
Qed.

Lemma merge_union_elem a b x :
  sorted a -> sorted b ->
  x ∈ merge_union a b <-> x ∈ a \/ (x ∈ b /\ forall y, y ∈ a -> cmp y <> cmp x).
Proof.
  remember (length a + length b)%nat as n eqn:En. revert a b En.
  induction n as [n IH] using lt_wf_ind. intros a b -> Ha Hb. rewrite merge_union_eq.
  destruct a as [|u a], b as [|v b]; [set_solver..|].
  apply sorted_cons in Ha as Ha'. apply sorted_cons in Hb as Hb'.
  destruct Ha' as [Ha1 Ha2], Hb' as [Hb1 Hb2].
  destruct (Z.compare_spec (cmp u) (cmp v)) as [E|E|E]; rewrite elem_of_cons.
  - rewrite (IH (length a + length b)%nat) by (cbn; auto; lia).
    split.
    + intros [->|[|[Hx Hn]]]; [left; constructor|left; by constructor|right].
      split; [set_solver|]. intros y [->|Hy]%elem_of_cons; [|auto].
      specialize (Hb2 _ Hx). lia.
    + intros [[->|]%elem_of_cons|[[->|Hx]%elem_of_cons Hn]]; [auto|auto| |].
      * exfalso. apply (Hn u); [set_solver|done].
      * right. right. split; [done|]. intros y Hy. apply Hn. set_solver.
  - rewrite (IH (length a + length (v :: b))%nat) by (cbn; auto; lia).
    split.
    + intros [->|[|[Hx Hn]]]; [left; constructor|left; by constructor|right].
      split; [done|]. intros y [->|Hy]%elem_of_cons; [|auto].
      apply elem_of_cons in Hx as [->|Hx]; [lia|]. specialize (Hb2 _ Hx). lia.
    + intros [[->|]%elem_of_cons|[Hx Hn]]; [auto|auto|].
      right. right. split; [done|]. intros y Hy. apply Hn. set_solver.
  - rewrite (IH (length (u :: a) + length b)%nat) by (cbn; auto; lia).
    split.
    + intros [->|[|[Hx Hn]]]; [right|left; done|right; split; [set_solver|done]].
      split; [set_solver|]. intros y [->|Hy]%elem_of_cons; [lia|]. specialize (Ha2 _ Hy). lia.
    + intros [|[[->|Hx]%elem_of_cons Hn]]; auto.
Qed.

Lemma merge_union_sorted a b : sorted a -> sorted b -> sorted (merge_union a b).
Proof.
  remember (length a + length b)%nat as n eqn:En. revert a b En.
  induction n as [n IH] using lt_wf_ind. intros a b -> Ha Hb. rewrite merge_union_eq.
  destruct a as [|u a], b as [|v b]; [done..|].
  apply sorted_cons in Ha as Ha'. apply sorted_cons in Hb as Hb'.
  destruct Ha' as [Ha1 Ha2], Hb' as [Hb1 Hb2].
  destruct (Z.compare_spec (cmp u) (cmp v)) as [E|E|E]; apply sorted_cons; split.
  - eapply IH; [|done..]; cbn; lia.
  - intros y Hy. apply merge_union_elem in Hy as [Hy|[Hy _]]; auto. rewrite E. auto.
  - eapply IH; [|done..]; cbn; lia.
  - intros y Hy. apply merge_union_elem in Hy as [Hy|[Hy _]]; auto.
    apply elem_of_cons in Hy as [->|Hy]; [done|]. specialize (Hb2 _ Hy). lia.
  - eapply IH; [|done..]; cbn; lia.
  - intros y Hy. apply merge_union_elem in Hy as [Hy|[Hy _]]; auto.
    apply elem_of_cons in Hy as [->|Hy]; [done|]. specialize (Ha2 _ Hy). lia.
Qed.

(** On two strictly sorted sequences [sorted_iter] yields, in order and up to the
    size limit, every element of the first and those elements of the second
    whose key does not occur in the first. *)
Theorem sorted_iter_union a b size :
  sorted a -> sorted b -> 0 <= size ->
  exists s, SortedIter.sorted_iter cmp a b size = Some (take (Z.to_nat size) s) /\
  sorted s /\
  (forall x, x ∈ s <-> x ∈ a \/ (x ∈ b /\ forall y, y ∈ a -> cmp y <> cmp x)).
Proof.
  intros Ha Hb Hs. exists (merge_union a b). split; [|split].
  - unfold SortedIter.sorted_iter, SortedIter.new. rewrite collect_merge by lia.
    now rewrite Z.sub_0_r.
  - now apply merge_union_sorted.
  - intros x. now apply merge_union_elem.
Qed.
End SortedIterFacts.

Lemma sorted_iter_union_witness :
  exists s, SortedIter.sorted_iter fst [(1, 1); (3, 1)] [(1, 2); (2, 2)] 2 = Some (take 2 s) /\ sorted fst s.
Proof.
  destruct (sorted_iter_union fst [(1, 1); (3, 1)] [(1, 2); (2, 2)] 2) as (s & E & Hs & _);
    [repeat constructor..|lia|].
  exists s. split; [exact E|exact Hs].
Defined.

(** ** Diff maps *)
#[local] Instance key_le_total {A} : Total (@key_le A).
Proof. intros p q. unfold key_le. lia. Qed.
#[local] Instance key_le_trans {A} : Transitive (@key_le A).
Proof. intros p q r. unfold key_le. lia. Qed.

Lemma btree_iter_sorted {A} (m : gmap Z A) : sorted fst (btree_iter m).
Proof.
  pose proof (StronglySorted_merge_sort key_le (map_to_list m)) as Hs.
  pose proof (btree_iter_NoDup m) as Hn. unfold btree_iter in *. unfold sorted.
  induction Hs as [|[k v] l Hs IH Hall]; cbn in *; [constructor|].
  apply NoDup_cons in Hn as [Hk Hn]. constructor; [auto|].
  rewrite Forall_fmap. rewrite Forall_forall in *. intros [k' v'] Hin.
  specialize (Hall _ Hin). unfold key_le in Hall. cbn in *.
  assert (k <> k'); [|lia]. intros ->. apply Hk. apply list_elem_of_fmap. now exists (k', v').
Qed.

Lemma lookup_insert_seqZ {A} (x : A) n lo (m : gmap Z A) i :
  foldl (fun m index => <[index := x]> m) m (seqZ lo (Z.of_nat n)) !! i
  = if bool_decide (lo <= i < lo + Z.of_nat n) then Some x else m !! i.
Proof.
  revert lo m. induction n as [|n IH]; intros lo m.
  - cbn. case_bool_decide; [lia|done].
  - rewrite seqZ_cons by lia. cbn [foldl]. replace (Z.pred (Z.of_nat (S n))) with (Z.of_nat n) by lia.
    rewrite IH. rewrite lookup_insert. case_decide; repeat case_bool_decide; try lia; done.
Qed.

Lemma lookup_insert_range {A} lo hi (x : A) m i :
  Diff.insert_range lo hi x m !! i = if bool_decide (lo <= i < hi) then Some x else m !! i.
Proof.
  unfold Diff.insert_range. destruct (Z.le_gt_cases lo hi).
  - rewrite <- (Z2Nat.id (hi - lo)) by lia. rewrite lookup_insert_seqZ.
    repeat case_bool_decide; try lia; done.
  - rewrite seqZ_nil by lia. cbn. case_bool_decide; [lia|done].
Qed.


(** ** Construction *)
Section TreeFacts.
Context {L P : Type} `{Default L} `{Default P}.
Abbreviation tree := (ABinaryTree L P).
Abbreviation diff := (AbDiff L P).

(** The node list of a tree: leaves at even, parents at odd positions. *)
Fixpoint interleave (ls : list L) (ps : list P) : list (TreeNode L P) :=
  match ls, ps with
  | l :: ls', p :: ps' => LeafN l :: ParentN p :: interleave ls' ps'
  | l :: _, [] => [LeafN l]
  | [], _ => []
  end.

Lemma length_interleave ls ps :
  length ls = S (length ps) -> length (interleave ls ps) = (length ls + length ps)%nat.
Proof.
  revert ps. induction ls as [|l ls IH]; intros [|p ps] E; cbn in *; try lia.
  rewrite IH; lia.
Qed.

Lemma split_interleave ls ps i l0 p0 :
  length ls = S (length ps) -> i mod 2 = 0 ->
  Tree.split_nodes i (interleave ls ps) l0 p0 = Ok (l0 ++ ls, p0 ++ ps).
Proof.
  revert ps i l0 p0. induction ls as [|l ls IH]; intros [|p ps] i l0 p0 E Hi; cbn in *; try lia.
  - rewrite Hi. cbn. destruct ls; [now rewrite app_nil_r|discriminate].
  - rewrite Hi. cbn. replace ((i + 1) mod 2) with 1 by (rewrite Z.add_mod, Hi by lia; done). cbn.
    rewrite IH by (try lia; rewrite <- Z.add_assoc, Z.add_mod, Hi by lia; done).
    now rewrite <- !app_assoc.
Qed.

Lemma split_nodes_inv nodes i l0 p0 ls ps :
  Tree.split_nodes i nodes l0 p0 = Ok (ls, ps) -> i mod 2 = 0 -> Z.of_nat (length nodes) mod 2 = 1 ->
  exists ls' ps', ls = l0 ++ ls' /\ ps = p0 ++ ps' /\ length ls' = S (length ps') /\ nodes = interleave ls' ps'.
Proof.
  remember (length nodes) as n eqn:En. revert nodes En i l0 p0.
  induction n as [n IH] using lt_wf_ind. intros nodes -> i l0 p0 E Hi Hodd.
  destruct nodes as [|[l|p] nodes]; cbn in E; [done| |rewrite Hi in E; done].
  rewrite Hi in E. cbn in E. destruct nodes as [|[l'|p] nodes]; cbn in E.
  - injection E as <- <-. exists [l], []. now rewrite app_nil_r.
  - replace ((i + 1) mod 2) with 1 in E by (rewrite Z.add_mod, Hi by lia; done). done.
  - replace ((i + 1) mod 2) with 1 in E by (rewrite Z.add_mod, Hi by lia; done). cbn in E.
    apply (IH (length nodes)) in E as (ls' & ps' & -> & -> & El & ->); [|cbn; lia|done| |].
    + exists (l :: ls'), (p :: ps'). rewrite <- !app_assoc. cbn. auto.
    + rewrite <- Z.add_assoc, Z.add_mod, Hi by lia. done.
    + cbn [length] in Hodd. rewrite !Nat2Z.inj_succ in Hodd.
      replace (Z.succ (Z.succ (Z.of_nat (length nodes)))) with (Z.of_nat (length nodes) + 1 * 2) in Hodd by lia.
      now rewrite Z.mod_add in Hodd by lia.
Qed.

(** [ABinaryTree::new] and [from_components] agree: [new] succeeds exactly on
    the in-order interleavings of a leaf and a parent vector for which
    [from_components] succeeds, and builds the same tree. *)
Theorem new_from_components nodes t :
  Tree.new nodes = Ok t <->
  nodes = interleave (leaf_nodes t) (parent_nodes t) /\
  Tree.from_components (leaf_nodes t) (parent_nodes t) = Ok t.
Proof.
  unfold Tree.new, Tree.from_components. rewrite !Z.gtb_ltb. split.
  - destruct (Z.ltb_spec MAX_TREE_SIZE (Z.of_nat (length nodes))) as [|Hle]; [done|].
    destruct (Z.eqb_spec (Z.of_nat (length nodes) mod 2) 1) as [Hodd|]; [cbn|done]. intros E.
    apply bind_Ok in E as ([ls ps] & Es & E). injection E as <-. cbn.
    apply split_nodes_inv in Es as (ls' & ps' & -> & -> & El & ->); [|done..]. cbn.
    split; [done|]. rewrite length_interleave in Hle by done.
    destruct (Z.ltb_spec MAX_TREE_SIZE (Z.of_nat (length ls' + length ps'))); [lia|].
    destruct (Z.eqb_spec (Z.of_nat (length ls')) (Z.of_nat (length ps') + 1)); [done|lia].
  - intros [-> E].
    destruct (Z.ltb_spec MAX_TREE_SIZE (Z.of_nat (length (leaf_nodes t) + length (parent_nodes t)))); [done|].
    destruct (Z.eqb_spec (Z.of_nat (length (leaf_nodes t))) (Z.of_nat (length (parent_nodes t)) + 1)) as [El|]; [|done].
    cbn in E. assert (length (leaf_nodes t) = S (length (parent_nodes t))) as El' by lia.
    rewrite length_interleave by done.
    destruct (Z.ltb_spec MAX_TREE_SIZE (Z.of_nat (length (leaf_nodes t) + length (parent_nodes t)))); [lia|].
    replace (Z.of_nat (length (leaf_nodes t) + length (parent_nodes t))) with (1 + Z.of_nat (length (parent_nodes t)) * 2) by lia.
    rewrite Z.mod_add by lia. cbn. rewrite split_interleave by done. cbn. done.
Qed.

(** ** The abstract tree a diff implements *)

(** A resizable tree: its size and the contents of its positions. *)
Record view : Type := mkView { v_size : TreeSize.t; v_leaf : Z -> L; v_parent : Z -> P }.

(** Views agree when they have the same size and the same nodes in range. *)
#[export] Instance view_equiv : Equiv view := fun v w =>
  v_size v = v_size w /\
  (forall i, 0 <= i < TreeSize.leaf_count (v_size v) -> v_leaf v i = v_leaf w i) /\
  (forall i, 0 <= i < TreeSize.parent_count (v_size v) -> v_parent v i = v_parent w i).

#[export] Instance view_equivalence : Equivalence (≡@{view}).
Proof.
  split.
  - intros v. repeat split.
  - intros v w (E & Hl & Hp). split; [done|]. rewrite <- E. split; intros; symmetry; auto.
  - intros u v w (E & Hl & Hp) (E' & Hl' & Hp'). split; [congruence|]. rewrite <- E in *.
    split; intros; [rewrite Hl, Hl'|rewrite Hp, Hp']; auto.
Qed.

Inductive op : Type :=
  | Grow
  | Shrink
  | SetLeaf (i : LeafNodeIndex.t) (x : L)
  | SetParent (i : ParentNodeIndex.t) (x : P)
  | ModifyParent (i : ParentNodeIndex.t) (f : P -> P).

Definition apply_op (v : view) (o : op) : view :=
  match o with
  | Grow =>
      mkView (TreeSize.inc (v_size v))
        (fun i => if i <? TreeSize.leaf_count (v_size v) then v_leaf v i else default_value)
        (fun i => if i <? TreeSize.parent_count (v_size v) then v_parent v i else default_value)
  | Shrink => mkView (TreeSize.dec (v_size v)) (v_leaf v) (v_parent v)
  | SetLeaf i x => mkView (v_size v) (fun j => if j =? i then x else v_leaf v j) (v_parent v)
  | SetParent i x => mkView (v_size v) (v_leaf v) (fun j => if j =? i then x else v_parent v j)
  | ModifyParent i f => mkView (v_size v) (v_leaf v) (fun j => if j =? i then f (v_parent v i) else v_parent v j)
  end.

(** The calls a client makes on a diff, within the range it may address. *)
Inductive diff_step : diff -> op -> diff -> Prop :=
  | step_grow d d' : Diff.grow_tree d = Ok d' -> diff_step d Grow d'
  | step_shrink d d' : Diff.shrink_tree d = Ok d' -> diff_step d Shrink d'
  | step_leaf d i x : 0 <= i < Diff.leaf_count d -> diff_step d (SetLeaf i x) (Diff.replace_leaf d i x)
  | step_parent d i x : 0 <= i < Diff.parent_count d -> diff_step d (SetParent i x) (Diff.replace_parent d i x)
  | step_parent_mut d i f : 0 <= i < Diff.parent_count d -> diff_step d (ModifyParent i f) (Diff.parent_mut d i f).

Inductive diff_steps : diff -> list op -> diff -> Prop :=
  | steps_nil d : diff_steps d [] d
  | steps_cons d o d' os d'' : diff_step d o d' -> diff_steps d' os d'' -> diff_steps d (o :: os) d''.

Definition tree_view (t : tree) : view := mkView (Tree.tree_size t) (Tree.leaf t) (Tree.parent t).
Definition diff_view (d : diff) : view := mkView (size d) (Diff.leaf d) (Diff.parent d).

(** ** Invariants *)
Record wf_tree (t : tree) : Prop := {
  wf_counts : length (leaf_nodes t) = S (length (parent_nodes t));
  wf_max : Z.of_nat (length (leaf_nodes t) + length (parent_nodes t)) <= MAX_TREE_SIZE;
  wf_dl : default_leaf t = default_value;
  wf_dp : default_parent t = default_value;
}.

Record wf_diff (d : diff) : Prop := {
  wf_orig : wf_tree (original_tree d);
  wf_size : exists h, 0 <= h <= 29 /\ size d = perfect h;
  wf_leaf_keys : forall i x, leaf_diff d !! i = Some x -> 0 <= i < Diff.leaf_count d;
  wf_parent_keys : forall i x, parent_diff d !! i = Some x -> 0 <= i < Diff.parent_count d;
  wf_ddl : diff_default_leaf d = default_value;
}.

Lemma wf_tree_leaf_count t : wf_tree t -> Tree.leaf_count t = Z.of_nat (length (leaf_nodes t)).
Proof.
  intros [? Hm _ _]. change MAX_TREE_SIZE with (2 ^ 30 - 1) in Hm.
  apply u32.wrap_small. unfold u32.is_u32, u32.modulus. lia.
Qed.

Lemma wf_tree_parent_count t : wf_tree t -> Tree.parent_count t = Z.of_nat (length (parent_nodes t)).
Proof.
  intros [? Hm _ _]. change MAX_TREE_SIZE with (2 ^ 30 - 1) in Hm.
  apply u32.wrap_small. unfold u32.is_u32, u32.modulus. lia.
Qed.

Lemma wf_tree_size t : wf_tree t -> exists h, 0 <= h <= 29 /\ Tree.tree_size t = perfect h /\
  Z.of_nat (length (leaf_nodes t) + length (parent_nodes t)) <= perfect h.
Proof.
  intros [Hc Hm _ _]. change MAX_TREE_SIZE with (2 ^ 30 - 1) in Hm. unfold Tree.tree_size.
  rewrite u32.wrap_small by (unfold u32.is_u32, u32.modulus; lia).
  set (n := Z.of_nat _) in *. assert (1 <= n) by lia.
  rewrite tree_size_new_perfect by lia. exists (Z.log2 n).
  pose proof (Z.log2_nonneg n). pose proof (Z.log2_spec n ltac:(lia)) as [_ Hhi].
  pose proof (proj1 (Z.log2_lt_pow2 n 30 ltac:(lia)) ltac:(lia)).
  unfold perfect, Z.succ in *. split; [lia|]. split; [done|lia].
Qed.

Lemma new_wf nodes t : Tree.new nodes = Ok t -> wf_tree t.
Proof.
  unfold Tree.new. rewrite Z.gtb_ltb.
  destruct (Z.ltb_spec MAX_TREE_SIZE (Z.of_nat (length nodes))) as [|Hle]; [done|].
  destruct (Z.eqb_spec (Z.of_nat (length nodes) mod 2) 1) as [Hodd|]; [cbn|done]. intros E.
  apply bind_Ok in E as ([ls ps] & Es & E). injection E as <-.
  apply split_nodes_inv in Es as (ls' & ps' & -> & -> & El & ->); [|done..].
  rewrite length_interleave in Hle by done. split; cbn; done.
Qed.

Lemma empty_diff_wf t : wf_tree t -> wf_diff (Tree.empty_diff t).
Proof.
  intros Ht. destruct (wf_tree_size t Ht) as (h & ? & E & _). split; cbn; [done|eauto| | |done].
  - intros i x. now rewrite lookup_empty.
  - intros i x. now rewrite lookup_empty.
Qed.

Lemma leaf_by_index_out t i : wf_tree t -> Z.of_nat (length (leaf_nodes t)) <= i -> Tree.leaf_by_index t i = default_value.
Proof. intros Ht Hi. unfold Tree.leaf_by_index. rewrite get_at_None by done. apply (wf_dl t Ht). Qed.

Lemma parent_by_index_out t i : wf_tree t -> Z.of_nat (length (parent_nodes t)) <= i -> Tree.parent_by_index t i = default_value.
Proof. intros Ht Hi. unfold Tree.parent_by_index. rewrite get_at_None by done. apply (wf_dp t Ht). Qed.

Lemma grow_tree_sim d d' :
  wf_diff d -> Diff.grow_tree d = Ok d' -> wf_diff d' /\ diff_view d' ≡ apply_op (diff_view d) Grow.
Proof.
  intros [Ho (h & Hh & Es) Hlk Hpk Hdd]. unfold Diff.grow_tree. rewrite Z.gtb_ltb.
  destruct (Z.ltb_spec (MAX_TREE_SIZE / 2) (size d)) as [|Hle]; [done|]. intros [= <-].
  unfold Diff.leaf_count, Diff.parent_count in *. rewrite Es in *.
  assert (h <= 28) as Hh28.
  { unfold perfect in Hle. change (MAX_TREE_SIZE / 2) with (2 ^ 29 - 1) in Hle.
    destruct (Z.le_gt_cases h 28); [done|]. pose proof (pow2_le 30 (h + 1)). lia. }
  rewrite perfect_leaf_count, perfect_parent_count in * by lia. pose proof (pow2_pos h).
  split.
  - split; cbn; [done| | | |done].
    + exists (h + 1). rewrite perfect_inc by lia. split; [lia|done].
    + intros i x. unfold Diff.leaf_count; cbn. rewrite perfect_inc, perfect_leaf_count, lookup_insert_range, pow2_succ by lia.
      case_bool_decide; [lia|]. intros ?%Hlk. lia.
    + intros i x. unfold Diff.parent_count; cbn. rewrite perfect_inc, perfect_parent_count, lookup_insert_range, pow2_succ by lia.
      case_bool_decide; [lia|]. intros ?%Hpk. lia.
  - split; [cbn; now rewrite Es|]. cbn. rewrite Es, perfect_inc, !perfect_leaf_count, !perfect_parent_count by lia. split.
    + intros i Hi. unfold Diff.leaf, Diff.leaf_count; cbn.
      rewrite Es, lookup_insert_range, !perfect_leaf_count, (wf_tree_leaf_count _ Ho) by lia.
      rewrite !Z.geb_leb. destruct (Z.ltb_spec i (2 ^ h)).
      * rewrite bool_decide_false by lia. destruct (leaf_diff d !! i); [done|].
        destruct (Z.leb_spec (2 ^ (h + 1)) i), (Z.leb_spec (2 ^ h) i); try lia; done.
      * case_bool_decide as Hb; [done|]. destruct (leaf_diff d !! i) eqn:El; [apply Hlk in El; lia|].
        destruct (Z.leb_spec (2 ^ (h + 1)) i); [lia|]. apply leaf_by_index_out; [done|lia].
    + intros i Hi. unfold Diff.parent; cbn.
      rewrite lookup_insert_range, (wf_tree_parent_count _ Ho) by lia.
      destruct (Z.ltb_spec i (2 ^ h - 1)).
      * now rewrite bool_decide_false by lia.
      * case_bool_decide as Hb; [done|]. destruct (parent_diff d !! i) eqn:El; [apply Hpk in El; lia|].
        apply parent_by_index_out; [done|lia].
Qed.

Lemma shrink_tree_sim d d' :
  wf_diff d -> Diff.shrink_tree d = Ok d' -> wf_diff d' /\ diff_view d' ≡ apply_op (diff_view d) Shrink.
Proof.
  intros [Ho (h & Hh & Es) Hlk Hpk Hdd]. unfold Diff.shrink_tree.
  destruct (Z.leb_spec (size d) MIN_TREE_SIZE) as [|Hle]; [done|]. intros [= <-].
  unfold Diff.leaf_count, Diff.parent_count in *. rewrite Es in *.
  assert (1 <= h) as Hh1.
  { destruct (Z.eq_dec h 0) as [->|]; [|lia]. unfold perfect, MIN_TREE_SIZE in Hle. cbn in Hle. lia. }
  assert (TreeSize.dec (perfect h) = perfect (h - 1)) as Ed by (apply perfect_dec; lia).
  rewrite Ed. rewrite perfect_leaf_count, perfect_parent_count in * by lia.
  pose proof (pow2_pred h Hh1). pose proof (pow2_pos (h - 1)).
  split.
  - split; cbn; [done| | | |done].
    + exists (h - 1). split; [lia|done].
    + intros i x. unfold Diff.leaf_count; cbn. rewrite perfect_leaf_count, lookup_retain_keys by lia.
      destruct (Z.ltb_spec i (2 ^ (h - 1))); [|done]. intros ?%Hlk. lia.
    + intros i x. unfold Diff.parent_count; cbn. rewrite perfect_parent_count, lookup_retain_keys by lia.
      destruct (Z.ltb_spec i (2 ^ (h - 1) - 1)); [|done]. intros ?%Hpk. lia.
  - split; [cbn; now rewrite Es, Ed|]. cbn. rewrite !perfect_leaf_count, !perfect_parent_count by lia. split.
    + intros i Hi. unfold Diff.leaf, Diff.leaf_count; cbn. rewrite Es, lookup_retain_keys, !perfect_leaf_count by lia.
      rewrite !Z.geb_leb.
      destruct (Z.ltb_spec i (2 ^ (h - 1))); [|lia].
      destruct (leaf_diff d !! i); [done|].
      destruct (Z.leb_spec (2 ^ (h - 1)) i), (Z.leb_spec (2 ^ h) i); try lia; done.
    + intros i Hi. unfold Diff.parent; cbn. rewrite lookup_retain_keys by lia.
      destruct (Z.ltb_spec i (2 ^ (h - 1) - 1)); [done|lia].
Qed.

Lemma replace_leaf_sim d i x :
  wf_diff d -> 0 <= i < Diff.leaf_count d ->
  wf_diff (Diff.replace_leaf d i x) /\ diff_view (Diff.replace_leaf d i x) ≡ apply_op (diff_view d) (SetLeaf i x).
Proof.
  intros [Ho Hs Hlk Hpk Hdd] Hi. split.
  - split; cbn; try done. intros j y. rewrite lookup_insert. case_decide; [now subst|apply Hlk].
  - split; [done|]. split; [|done]. intros j Hj. cbn. unfold Diff.leaf; cbn. rewrite lookup_insert.
    case_decide; destruct (Z.eqb_spec j i); try lia; done.
Qed.

Lemma replace_parent_sim d i x :
  wf_diff d -> 0 <= i < Diff.parent_count d ->
  wf_diff (Diff.replace_parent d i x) /\ diff_view (Diff.replace_parent d i x) ≡ apply_op (diff_view d) (SetParent i x).
Proof.
  intros [Ho Hs Hlk Hpk Hdd] Hi. split.
  - split; cbn; try done. intros j y. rewrite lookup_insert. case_decide; [now subst|apply Hpk].
  - split; [done|]. split; [done|]. intros j Hj. cbn. unfold Diff.parent; cbn. rewrite lookup_insert.
    case_decide; destruct (Z.eqb_spec j i); try lia; done.
Qed.

Lemma parent_replace_parent (d : diff) i x p :
  Diff.parent (Diff.replace_parent d i x) p = if decide (i = p) then x else Diff.parent d p.
Proof. unfold Diff.parent. cbn. rewrite lookup_insert. by case_decide. Qed.

Lemma parent_mut_replace (d : diff) i f : Diff.parent_mut d i f = Diff.replace_parent d i (f (Diff.parent d i)).
Proof. unfold Diff.parent_mut, Diff.parent. now destruct (parent_diff d !! i). Qed.

Lemma diff_step_sim d o d' :
  wf_diff d -> diff_step d o d' -> wf_diff d' /\ diff_view d' ≡ apply_op (diff_view d) o.
Proof.
  intros Hwf Hstep. destruct Hstep.
  - now apply grow_tree_sim.
  - now apply shrink_tree_sim.
  - now apply replace_leaf_sim.
  - now apply replace_parent_sim.
  - rewrite parent_mut_replace. now apply replace_parent_sim.
Qed.

(** Operations cannot tell equivalent views apart (in range). *)
Lemma apply_op_proper v w o :
  v ≡ w -> (match o with ModifyParent i _ => 0 <= i < TreeSize.parent_count (v_size v) | Shrink => exists h, 0 <= h <= 29 /\ v_size v = perfect h /\ 1 <= h | _ => True end) ->
  apply_op v o ≡ apply_op w o.
Proof.
  intros (E & Hl & Hp) Ho. destruct o; (split; [cbn; congruence|]); cbn; rewrite <- ?E in *.
  - split; intros j Hj; case_match; auto; [apply Hl|apply Hp]; lia.
  - destruct Ho as (h & Hh & Eh & Hh1). rewrite Eh, perfect_dec in * by lia.
    rewrite !perfect_leaf_count, !perfect_parent_count in * by lia. pose proof (pow2_pred h Hh1). pose proof (pow2_pos (h - 1)).
    split; intros j Hj; [apply Hl|apply Hp]; lia.
  - split; [|done]. intros j Hj. case_match; auto.
  - split; [done|]. intros j Hj. case_match; auto.
  - split; [done|]. intros j Hj. rewrite (Hp i Ho). case_match; auto.
Qed.

Lemma diff_steps_sim d os d' v :
  wf_diff d -> diff_steps d os d' -> diff_view d ≡ v ->
  wf_diff d' /\ original_tree d' = original_tree d /\ diff_view d' ≡ foldl apply_op v os.
Proof.
  intros Hwf Hsteps. revert v Hwf. induction Hsteps as [d|d o d' os d'' Hstep Hsteps IH]; intros v Hwf Hv; [done|].
  destruct (diff_step_sim _ _ _ Hwf Hstep) as [Hwf' Hsim]. cbn [foldl].
  assert (original_tree d' = original_tree d) as Eo.
  { destruct Hstep as [d d' Hg|d d' Hs| | |]; try done; [| |by rewrite parent_mut_replace].
    - unfold Diff.grow_tree in Hg. case_match; [done|]. now injection Hg as <-.
    - unfold Diff.shrink_tree in Hs. case_match; [done|]. now injection Hs as <-. }
  rewrite <- Eo. apply IH; [done|]. rewrite Hsim. apply apply_op_proper; [done|].
  destruct Hstep as [| d d' Hs| | |]; try done.
  unfold Diff.shrink_tree in Hs. destruct (Z.leb_spec (size d) MIN_TREE_SIZE) as [|Hle]; [done|].
  destruct (wf_size d Hwf) as (h & Hh & Es). exists h. split; [done|]. split; [done|].
  destruct (Z.eq_dec h 0) as [->|]; [|lia]. rewrite Es in Hle. unfold perfect, MIN_TREE_SIZE in Hle. cbn in Hle. lia.
Qed.

Lemma merge_diff_view d :
  wf_diff d ->
  wf_tree (Tree.merge_diff (original_tree d) (Diff.into_staged d)) /\
  tree_view (Tree.merge_diff (original_tree d) (Diff.into_staged d)) ≡ diff_view d.
Proof.
  intros [Ho (h & Hh & Es) Hlk Hpk Hdd]. set (t' := Tree.merge_diff _ _).
  pose proof (pow2_pos h). pose proof (pow2_le h 29).
  assert (leaf_nodes t' = write_all (resize (Z.to_nat (TreeSize.leaf_count (size d))) default_value
    (leaf_nodes (original_tree d))) (btree_iter (leaf_diff d))) as ELN by reflexivity.
  assert (parent_nodes t' = write_all (resize (Z.to_nat (TreeSize.parent_count (size d))) default_value
    (parent_nodes (original_tree d))) (btree_iter (parent_diff d))) as EPN by reflexivity.
  assert (length (leaf_nodes t') = Z.to_nat (2 ^ h)) as El.
  { rewrite ELN, length_write_all, length_resize, Es, perfect_leaf_count; lia. }
  assert (length (parent_nodes t') = Z.to_nat (2 ^ h - 1)) as Ep.
  { rewrite EPN, length_write_all, length_resize, Es, perfect_parent_count; lia. }
  assert (wf_tree t') as Hwf.
  { split; [lia| |apply Ho..]. change MAX_TREE_SIZE with (2 ^ 30 - 1). lia. }
  split; [done|].
  assert (Tree.tree_size t' = perfect h) as Esz.
  { unfold Tree.tree_size. rewrite El, Ep, u32.wrap_small by (unfold u32.is_u32, u32.modulus; lia).
    replace (Z.of_nat _) with (perfect h) by (unfold perfect; rewrite pow2_succ; lia).
    rewrite tree_size_new_perfect by (unfold perfect; rewrite pow2_succ; lia). f_equal.
    destruct (pow2_log2 h) as [E|]; [lia| |lia].
    rewrite log2_log2 in E by (unfold perfect; rewrite pow2_succ; lia). done. }
  split; [cbn; congruence|]. cbn. rewrite Esz, perfect_leaf_count, perfect_parent_count by lia. split.
  - intros i Hi. unfold Tree.leaf, Diff.leaf, Diff.leaf_count. rewrite ELN, Es, perfect_leaf_count by lia.
    rewrite get_at_btree by (rewrite length_resize; lia).
    destruct (leaf_diff d !! i); [done|]. rewrite Z.geb_leb. destruct (Z.leb_spec (2 ^ h) i); [lia|].
    rewrite (wf_dl _ Hwf). rewrite get_at_resize by lia. unfold Tree.leaf_by_index. now rewrite (wf_dl _ Ho).
  - intros i Hi. unfold Tree.parent, Diff.parent. rewrite EPN, Es, perfect_parent_count by lia.
    rewrite get_at_btree by (rewrite length_resize; lia).
    destruct (parent_diff d !! i); [done|].
    rewrite (wf_dp _ Hwf). rewrite get_at_resize by lia. unfold Tree.parent_by_index. now rewrite (wf_dp _ Ho).
Qed.

Lemma empty_diff_view t : wf_tree t -> diff_view (Tree.empty_diff t) ≡ tree_view t.
Proof.
  intros Ht. split; [done|]. split; [|done]. intros i Hi. cbn in *. unfold Diff.leaf, Diff.leaf_count. cbn.
  rewrite lookup_empty, Z.geb_leb. destruct (Z.leb_spec (TreeSize.leaf_count (Tree.tree_size t)) i); [lia|done].
Qed.

(** C36. Editing a tree through a diff refines editing the tree directly: for any
    sequence of growing, shrinking and in-range node replacements made on the
    empty diff of a tree, merging the staged diff gives the tree those operations
    describe, in which positions exposed by growing are blank even if the tree
    had been shrunk before. *)
Theorem merge_refines t os d :
  wf_tree t -> diff_steps (Tree.empty_diff t) os d ->
  wf_tree (Tree.merge_diff t (Diff.into_staged d)) /\
  tree_view (Tree.merge_diff t (Diff.into_staged d)) ≡ foldl apply_op (tree_view t) os.
Proof.
  intros Ht Hs.
  destruct (diff_steps_sim _ _ _ _ (empty_diff_wf t Ht) Hs (empty_diff_view t Ht)) as (Hwf & Eo & Hv).
  cbn in Eo. destruct (merge_diff_view d Hwf) as [Hw Hm]. rewrite Eo in *. split; [done|]. now rewrite Hm.
Qed.
End TreeFacts.

(** ** Iterating over a diff *)
Section TakeSorted.
Context {Item : Type} (cmp : Item -> Z).

Lemma sorted_length_bound (s : list Item) m n :
  sorted cmp s -> m <= n -> (forall x, x ∈ s -> m <= cmp x < n) -> Z.of_nat (length s) <= n - m.
Proof.
  revert m. induction s as [|x s IH]; intros m Hs Hmn Hr; cbn [length]; [lia|].
  apply sorted_cons in Hs as [Hs Hx]. pose proof (Hr x ltac:(constructor)) as Hxr.
  specialize (IH (cmp x + 1) Hs ltac:(lia)). rewrite Nat2Z.inj_succ.
  assert (Z.of_nat (length s) <= n - (cmp x + 1)); [|lia].
  apply IH. intros y Hy. specialize (Hx y Hy). specialize (Hr y ltac:(by constructor)). lia.
Qed.

Lemma take_dense (s : list Item) m n x :
  sorted cmp s -> m <= n -> (forall y, y ∈ s -> m <= cmp y) ->
  (forall i, m <= i < n -> exists y, y ∈ s /\ cmp y = i) ->
  x ∈ take (Z.to_nat (n - m)) s <-> x ∈ s /\ cmp x < n.
Proof.
  revert m. induction s as [|z s IH]; intros m Hs Hmn Hlo Hd.
  - rewrite take_nil. rewrite elem_of_nil. tauto.
  - apply sorted_cons in Hs as [Hs Hz]. pose proof (Hlo z ltac:(constructor)).
    destruct (Z.eq_dec m n) as [->|Hne].
    { rewrite Z.sub_diag. cbn. split; [by intros ?%elem_of_nil|]. intros [Hx ?]. specialize (Hlo x Hx). lia. }
    assert (cmp z = m) as Ez.
    { destruct (Hd m) as (y & Hy & Ey); [lia|]. apply elem_of_cons in Hy as [->|Hy]; [done|].
      specialize (Hz y Hy). specialize (Hlo z ltac:(constructor)). lia. }
    replace (Z.to_nat (n - m)) with (S (Z.to_nat (n - (m + 1)))) by lia. cbn [take].
    rewrite !elem_of_cons, IH; [|done|lia| |].
    + split; [intros [->|[? ?]]; [split; [by left|lia]|auto]|intros [[->|?] ?]; auto].
    + intros y Hy. specialize (Hz y Hy). lia.
    + intros i Hi. destruct (Hd i) as (y & Hy & Ey); [lia|]. exists y. split; [|done].
      apply elem_of_cons in Hy as [->|Hy]; [lia|done].
Qed.
End TakeSorted.

Lemma sorted_take {Item} (cmp : Item -> Z) n s : sorted cmp s -> sorted cmp (take n s).
Proof.
  revert n. induction s as [|x s IH]; intros n Hs; [now rewrite take_nil|].
  destruct n; cbn; [constructor|]. apply sorted_cons in Hs as [Hs Hx]. apply sorted_cons. split; [auto|].
  intros y Hy. apply Hx. eapply elem_of_take in Hy as (i & Hi & _). eauto using list_elem_of_lookup_2.
Qed.

Lemma enumerate_elem {A} (l : list A) i x : (i, x) ∈ enumerate l <-> get_at l i = Some x.
Proof.
  unfold enumerate, get_at. rewrite list_elem_of_lookup. split.
  - intros (k & Hk). rewrite list_lookup_imap in Hk. destruct (l !! k) eqn:E; [|done]. injection Hk as <- <-.
    destruct (Z.leb_spec 0 (Z.of_nat k)); [now rewrite Nat2Z.id|lia].
  - destruct (Z.leb_spec 0 i); [|done]. intros E. exists (Z.to_nat i). rewrite list_lookup_imap, E. cbn.
    now rewrite Z2Nat.id by lia.
Qed.

Lemma enumerate_sorted {A} (l : list A) : sorted fst (enumerate l).
Proof.
  unfold sorted, enumerate. rewrite fmap_imap.
  assert (forall m, StronglySorted Z.lt (imap (fun i (_ : A) => Z.of_nat (m + i)) l)) as Hs.
  { induction l as [|x l IH]; intros m; cbn; [constructor|].
    constructor.
    - specialize (IH (S m)). erewrite imap_ext; [exact IH|]. intros; cbn. f_equal. lia.
    - apply Forall_forall. intros z Hz. apply elem_of_lookup_imap in Hz as (i & y & -> & _). cbn. lia. }
  specialize (Hs 0%nat). erewrite imap_ext; [exact Hs|]. done.
Qed.

Section MergedNodes.
Context {A : Type} (orig : list A) (m : gmap Z A) (count : Z).
Hypothesis Hcount : 0 <= count.
Hypothesis Hkeys : forall i x, m !! i = Some x -> 0 <= i < count.

Lemma merged_nodes :
  exists l, SortedIter.sorted_iter fst (btree_iter m) (enumerate orig) count = Some l /\ sorted fst l /\
  (forall i x, (i, x) ∈ l <-> 0 <= i < count /\
     match m !! i with Some y => x = y | None => get_at orig i = Some x end).
Proof.
  destruct (sorted_iter_union fst (btree_iter m) (enumerate orig) count) as (s & E & Hs & Hin);
    [apply btree_iter_sorted|apply enumerate_sorted|done|].
  eexists. split; [exact E|]. split; [by apply sorted_take|].
  assert (forall i x, (i, x) ∈ s <-> match m !! i with Some y => x = y | None => get_at orig i = Some x end) as Hs'.
  { intros i x. rewrite Hin, btree_iter_elem, enumerate_elem. split.
    - intros [E1|[E1 Hn]]; [now rewrite E1|]. destruct (m !! i) as [y|] eqn:Em; [|done].
      exfalso. apply (Hn (i, y)); [by apply btree_iter_elem|done].
    - destruct (m !! i) as [y|] eqn:Em; [intros ->; by left|]. intros E1. right. split; [done|].
      intros [i' y'] Hy%btree_iter_elem. cbn. intros ->. congruence. }
  intros i x. destruct (Z.le_gt_cases count (Z.of_nat (length orig))) as [Hc|Hc].
  - replace count with (count - 0) at 1 by lia. rewrite take_dense, Hs'; [|done|done| |].
    + cbn. split; [|tauto]. intros [E1 ?]. split; [|done]. split; [|done].
      destruct (m !! i) eqn:Em; [apply Hkeys in Em; lia|]. unfold get_at in E1. destruct (Z.leb_spec 0 i); [lia|done].
    + intros [j y] Hy%Hs'. cbn. destruct (m !! j) eqn:Em; [apply Hkeys in Em; lia|].
      unfold get_at in Hy. destruct (Z.leb_spec 0 j); [lia|done].
    + intros j Hj. destruct (m !! j) as [y|] eqn:Em.
      * exists (j, y). split; [|done]. apply Hs'. now rewrite Em.
      * destruct (get_at_Some orig j ltac:(lia)) as [y Ey]. exists (j, y). split; [|done]. apply Hs'. now rewrite Em.
  - assert (forall j y, (j, y) ∈ s -> 0 <= j < count) as Hr.
    { intros j y Hy%Hs'. destruct (m !! j) eqn:Em; [by apply Hkeys in Em|].
      unfold get_at in Hy. destruct (Z.leb_spec 0 j); [|done]. apply lookup_lt_Some in Hy. lia. }
    rewrite take_ge, Hs'.
    + split; [|tauto]. intros Hy. split; [|done]. eapply Hr. by apply Hs'.
    + pose proof (sorted_length_bound fst s 0 count Hs Hcount) as Hb.
      assert (Z.of_nat (length s) <= count - 0); [|lia]. apply Hb. intros [j y] Hy. cbn. eauto.
Qed.
End MergedNodes.

Section DiffIteration.
Context {L P : Type} `{Default L} `{Default P}.

Lemma tree_leaves_enumerate (t : ABinaryTree L P) : wf_tree t -> Tree.leaves t = enumerate (leaf_nodes t).
Proof.
  intros [Hc Hm _ _]. change MAX_TREE_SIZE with (2 ^ 30 - 1) in Hm. unfold Tree.leaves.
  rewrite <- (list_fmap_id (enumerate (leaf_nodes t))) at 2. apply list_fmap_ext.
  intros k [i x] Hi%list_elem_of_lookup_2%enumerate_elem. cbn. f_equal. apply u32.wrap_small.
  unfold get_at in Hi. destruct (Z.leb_spec 0 i); [|done]. apply lookup_lt_Some in Hi.
  unfold u32.is_u32, u32.modulus. lia.
Qed.

Lemma tree_parents_enumerate (t : ABinaryTree L P) : wf_tree t -> Tree.parents t = enumerate (parent_nodes t).
Proof.
  intros [Hc Hm _ _]. change MAX_TREE_SIZE with (2 ^ 30 - 1) in Hm. unfold Tree.parents.
  rewrite <- (list_fmap_id (enumerate (parent_nodes t))) at 2. apply list_fmap_ext.
  intros k [i x] Hi%list_elem_of_lookup_2%enumerate_elem. cbn. f_equal. apply u32.wrap_small.
  unfold get_at in Hi. destruct (Z.leb_spec 0 i); [|done]. apply lookup_lt_Some in Hi.
  unfold u32.is_u32, u32.modulus. lia.
Qed.

Lemma diff_leaves_spec (d : AbDiff L P) :
  wf_diff d ->
  exists l, Diff.leaves d = Some l /\ sorted fst l /\
  (forall i x, (i, x) ∈ l <-> 0 <= i < Diff.leaf_count d /\ x = Diff.leaf d i /\
     (i < Z.of_nat (length (leaf_nodes (original_tree d))) \/ is_Some (leaf_diff d !! i))).
Proof.
  intros [Ho (h & Hh & Es) Hlk Hpk Hdd].
  assert (0 <= Diff.leaf_count d) as Hc.
  { unfold Diff.leaf_count. rewrite Es, perfect_leaf_count by lia. pose proof (pow2_pos h). lia. }
  destruct (merged_nodes (leaf_nodes (original_tree d)) (leaf_diff d) (Diff.leaf_count d) Hc Hlk) as (l & E & Hs & Hin).
  exists l. unfold Diff.leaves, Diff.raw_leaves. rewrite tree_leaves_enumerate by done.
  split; [done|]. split; [done|]. intros i x. rewrite Hin. unfold Diff.leaf.
  destruct (leaf_diff d !! i) as [y|] eqn:Ed; [split; intros (? & ?); intuition eauto|].
  split.
  - intros [Hi Hg]. split; [done|]. rewrite Z.geb_leb. destruct (Z.leb_spec (Diff.leaf_count d) i); [lia|].
    unfold Tree.leaf_by_index. rewrite Hg. split; [done|]. left.
    unfold get_at in Hg. destruct (Z.leb_spec 0 i); [|done]. apply lookup_lt_Some in Hg. lia.
  - intros (Hi & -> & [Hl|[? ?]]); [|done]. split; [done|]. rewrite Z.geb_leb.
    destruct (Z.leb_spec (Diff.leaf_count d) i); [lia|]. unfold Tree.leaf_by_index.
    destruct (get_at_Some (leaf_nodes (original_tree d)) i ltac:(lia)) as [y ->]. done.
Qed.

(** [AbDiff::leaves] terminates and lists, from left to right and without
    repetition, exactly the leaves of the edited tree that exist in the original
    tree or in the diff, each with the contents [AbDiff::leaf] reports. *)
Theorem diff_leaves_correct (d : AbDiff L P) :
  wf_diff d ->
  exists l, Diff.leaves d = Some l /\ sorted fst l /\
  (forall i x, (i, x) ∈ l <-> 0 <= i < Diff.leaf_count d /\ x = Diff.leaf d i /\
     (i < Z.of_nat (length (leaf_nodes (original_tree d))) \/ is_Some (leaf_diff d !! i))).
Proof. apply diff_leaves_spec. Qed.

Lemma replace_parents node path (d0 : AbDiff L P) :
  wf_diff d0 -> (forall p, p ∈ path -> 0 <= p < Diff.parent_count d0) ->
  let d' := foldl (fun d node_index => Diff.replace_parent d node_index node) d0 path in
  wf_diff d' /\ size d' = size d0 /\ (forall i, Diff.leaf d' i = Diff.leaf d0 i) /\
  (forall p, Diff.parent d' p = if bool_decide (p ∈ path) then node else Diff.parent d0 p).
Proof.
  revert d0. induction path as [|q path IH]; intros d0 Hw Hr; cbn [foldl].
  - split; [done|]. split; [done|]. split; [done|]. intros p.
    by rewrite bool_decide_false by apply not_elem_of_nil.
  - pose proof (Hr q ltac:(constructor)) as Hq.
    destruct (IH (Diff.replace_parent d0 q node)) as (Hw' & Hs' & Hlf & Hp);
      [by apply replace_parent_sim|intros p Hp; apply Hr; by constructor|].
    split; [done|]. split; [done|]. split; [intros i; now rewrite Hlf|].
    intros p. rewrite Hp, parent_replace_parent, (bool_decide_ext _ _ (elem_of_cons path p q)).
    repeat case_bool_decide; repeat case_decide; naive_solver.
Qed.

Lemma set_direct_path_spec (d : AbDiff L P) l node :
  wf_diff d -> 0 <= l < Diff.leaf_count d ->
  exists d', Diff.set_direct_path_to_node d l node = Some d' /\ wf_diff d' /\ size d' = size d /\
  (forall p, 0 <= p < Diff.parent_count d -> below (Parent p) l -> Diff.parent d' p = node) /\
  (forall p, 0 <= p < Diff.parent_count d -> ~ below (Parent p) l -> Diff.parent d' p = Diff.parent d p) /\
  (forall i, Diff.leaf d' i = Diff.leaf d i).
Proof.
  intros Hwf Hl. destruct (wf_size d Hwf) as (h & Hh & Es).
  unfold Diff.leaf_count, Diff.parent_count in *. rewrite Es, perfect_leaf_count, perfect_parent_count in * by lia.
  unfold Diff.set_direct_path_to_node, Diff.direct_path. rewrite Es, direct_path_coord by lia. cbn [mbind option_bind].
  eexists. split; [done|].
  destruct (replace_parents node (ancestors h l) d Hwf) as (Hw & Hs & Hlf & Hp).
  { intros p Hin. unfold Diff.parent_count. rewrite Es, perfect_parent_count by lia.
    apply ancestors_elem in Hin; [tauto|lia..]. }
  split; [done|]. split; [by rewrite Hs|]. split; [|split; [|done]].
  - intros p Hpr Hb. rewrite Hp. rewrite bool_decide_true; [done|]. by apply ancestors_elem; [lia..|].
  - intros p Hpr Hb. rewrite Hp. rewrite bool_decide_false; [done|]. rewrite ancestors_elem by lia. tauto.
Qed.

(** [set_direct_path_to_node] terminates for a leaf of the tree, overwrites
    exactly the parents above that leaf and leaves every other node alone. *)
Theorem set_direct_path_correct (d : AbDiff L P) l node :
  wf_diff d -> 0 <= l < Diff.leaf_count d ->
  exists d', Diff.set_direct_path_to_node d l node = Some d' /\ wf_diff d' /\ size d' = size d /\
  (forall p, 0 <= p < Diff.parent_count d -> below (Parent p) l -> Diff.parent d' p = node) /\
  (forall p, 0 <= p < Diff.parent_count d -> ~ below (Parent p) l -> Diff.parent d' p = Diff.parent d p) /\
  (forall i, Diff.leaf d' i = Diff.leaf d i).
Proof. apply set_direct_path_spec. Qed.

(** The copath node of [x] above [y] is the child of their meeting point. *)
Lemma subtree_root_copath_coord (d : AbDiff L P) h x y k :
  0 <= h <= 29 -> 0 <= x < 2 ^ h -> 0 <= y < 2 ^ h -> x <> y -> meet x y k ->
  Diff.subtree_root_copath_node d x y = Some (node_at (k - 1) (y / 2 ^ (k - 1))).
Proof.
  intros Hh Hx Hy Hne Hk. pose proof (meet_bounds h x y k Hx Hy ltac:(lia) Hne Hk) as Hkb.
  unfold Diff.subtree_root_copath_node. rewrite (lca_coord h x y k) by (auto; lia). cbn [mbind option_bind].
  pose proof (coord_anc h k x ltac:(lia) ltac:(lia) Hx) as Hc.
  rewrite left_coord, right_coord by (auto; lia).
  pose proof (meet_flip x y k Hk ltac:(lia)) as Hf.
  pose proof (anc_step x (k - 1) ltac:(lia)) as Ex. pose proof (anc_step y (k - 1) ltac:(lia)) as Ey.
  replace (k - 1 + 1) with k in * by lia. f_equal.
  pose proof (Z.div_mod (x / 2 ^ (k - 1)) 2). pose proof (Z.mod_pos_bound (x / 2 ^ (k - 1)) 2).
  pose proof (pow2_pos (k - 1)).
  unfold flip in Hf. destruct (Z.ltb_spec y x) as [Hlt|Hge].
  - pose proof (Z.div_le_mono y x (2 ^ (k - 1)) ltac:(lia) ltac:(lia)). f_equal.
    destruct (Z.eqb_spec (x / 2 ^ (k - 1) mod 2) 0); lia.
  - pose proof (Z.div_le_mono x y (2 ^ (k - 1)) ltac:(lia) ltac:(lia)). f_equal.
    destruct (Z.eqb_spec (x / 2 ^ (k - 1) mod 2) 0); lia.
Qed.

(** [subtree_root_copath_node] returns the node of the copath of the first leaf
    that has the second leaf below it. *)
Theorem subtree_root_copath_node_correct (d : AbDiff L P) x y :
  wf_diff d -> 0 <= x < Diff.leaf_count d -> 0 <= y < Diff.leaf_count d -> x <> y ->
  exists c cp, Diff.subtree_root_copath_node d x y = Some c /\ Diff.copath d x = Some cp /\
  c ∈ cp /\ below c y /\ ~ below c x.
Proof.
  intros Hwf Hx Hy Hne. destruct (wf_size d Hwf) as (h & Hh & Es).
  unfold Diff.leaf_count in *. rewrite Es, perfect_leaf_count in * by lia.
  destruct (meet_exists h x y) as [k Hk]; [lia..|].
  pose proof (meet_bounds h x y k Hx Hy ltac:(lia) Hne Hk) as Hkb.
  pose proof (meet_flip x y k Hk ltac:(lia)) as Hf.
  pose proof (coord_anc h (k - 1) y ltac:(lia) ltac:(lia) Hy) as Hcy.
  unfold Diff.copath. rewrite (subtree_root_copath_coord d h x y k), Es, copath_coord by (auto; lia).
  eexists _, _. split; [done|]. split; [done|]. split; [|split].
  - apply list_elem_of_fmap. exists (k - 1). split; [by rewrite <- Hf|]. apply elem_of_seqZ. lia.
  - by apply below_node_at.
  - rewrite below_node_at by done. unfold leaf_below. rewrite Hf. intros E'. symmetry in E'. by apply flip_neq in E'.
Qed.
End DiffIteration.

(** ** Witnesses *)
#[local] Instance Z_default : Default Z := 0.

Definition sample_tree : ABinaryTree Z Z := mkTree [10; 11; 12; 13] [1; 2; 3] 0 0.

Lemma sample_tree_wf : wf_tree sample_tree.
Proof. split; [reflexivity|vm_compute; congruence|reflexivity|reflexivity]. Defined.

(** Shrinking to two leaves and growing again blanks leaves 2 and 3. *)
Lemma merge_refines_witness :
  exists d, diff_steps (Tree.empty_diff sample_tree) [Shrink; Grow; SetLeaf 3 7] d /\
  tree_view (Tree.merge_diff sample_tree (Diff.into_staged d))
    ≡ foldl apply_op (tree_view sample_tree) [Shrink; Grow; SetLeaf 3 7] /\
  leaf_nodes (Tree.merge_diff sample_tree (Diff.into_staged d)) = [10; 11; 0; 7].
Proof.
  assert (exists d, diff_steps (Tree.empty_diff sample_tree) [Shrink; Grow; SetLeaf 3 7] d /\
    leaf_nodes (Tree.merge_diff sample_tree (Diff.into_staged d)) = [10; 11; 0; 7]) as (d & Hd & E).
  { eexists. split.
    - eapply steps_cons; [apply step_shrink; reflexivity|].
      eapply steps_cons; [apply step_grow; reflexivity|].
      eapply steps_cons; [apply step_leaf; vm_compute; split; congruence|apply steps_nil].
    - vm_compute. reflexivity. }
  exists d. split; [exact Hd|]. split; [|exact E].
  apply (merge_refines sample_tree _ d sample_tree_wf Hd).
Defined.

Lemma sample_diff_wf : wf_diff (Tree.empty_diff sample_tree).
Proof. apply empty_diff_wf, sample_tree_wf. Defined.

Lemma diff_leaves_correct_witness :
  exists l, Diff.leaves (Tree.empty_diff sample_tree) = Some l /\ sorted fst l.
Proof.
  destruct (diff_leaves_correct (Tree.empty_diff sample_tree) sample_diff_wf) as (l & E & Hs & _).
  exists l. split; [exact E|exact Hs].
Defined.

Lemma set_direct_path_correct_witness :
  exists d', Diff.set_direct_path_to_node (Tree.empty_diff sample_tree) 2 9 = Some d' /\ wf_diff d'.
Proof.
  destruct (set_direct_path_correct (Tree.empty_diff sample_tree) 2 9 sample_diff_wf) as (d' & E & Hw & _);
    [vm_compute; split; congruence|].
  exists d'. split; [exact E|exact Hw].
Defined.

Lemma subtree_root_copath_node_correct_witness :
  exists c, Diff.subtree_root_copath_node (Tree.empty_diff sample_tree) 0 3 = Some c /\ below c 3.
Proof.
  destruct (subtree_root_copath_node_correct (Tree.empty_diff sample_tree) 0 3 sample_diff_wf)
    as (c & cp & E & _ & _ & Hb & _); [vm_compute; split; congruence..|lia|].
  exists c. split; [exact E|exact Hb].
Defined.
