(* ===== verification/Crypto.v ===== *)
(** * Ciphersuites, secrets and key derivation

    Models traits/src/types.rs (ciphersuites and their algorithms),
    traits/src/grease.rs and openmls/src/ciphersuite/{secret,kdf_label,aead,
    reuse_guard}.rs.  Byte strings are lists of integers.  The cryptographic
    primitives of the [OpenMlsCrypto] trait and the encodings of the tls_codec
    crate are parameters, given as classes. *)
From S2P Require Import Prelude.

Abbreviation bytes := (list Z) (only parsing).

(** The bytes of an ASCII string literal. *)
Fixpoint bytes_of_string (s : string) : bytes :=
  match s with
  | EmptyString => []
  | String a s' => Z.of_N (Ascii.N_of_ascii a) :: bytes_of_string s'
  end.

(** [to_be_bytes] of an [8 * n]-bit integer. *)
Fixpoint be_bytes (n : nat) (z : Z) : bytes :=
  match n with
  | O => []
  | S n' => (z / 2 ^ (8 * Z.of_nat n')) mod 256 :: be_bytes n' z
  end.

(** ** Algorithms *)
Inductive AeadType : Type := Aes128Gcm | Aes256Gcm | ChaCha20Poly1305.
Inductive HashType : Type := Sha2_256 | Sha2_384 | Sha2_512.
Inductive SignatureScheme : Type :=
  | ECDSA_SECP256R1_SHA256 | ECDSA_SECP384R1_SHA384 | ECDSA_SECP521R1_SHA512 | ED25519 | ED448.
Inductive HpkeKemType : Type := DhKemP256 | DhKemP384 | DhKemP521 | DhKem25519 | DhKem448.
Inductive HpkeKdfType : Type := HkdfSha256 | HkdfSha384 | HkdfSha512.
Inductive HpkeAeadType : Type := HpkeAesGcm128 | HpkeAesGcm256 | HpkeChaCha20Poly1305 | HpkeExport.

Record HpkeConfig : Type := mkHpkeConfig {
  hpke_kem : HpkeKemType;
  hpke_kdf : HpkeKdfType;
  hpke_aead : HpkeAeadType;
}.

Definition tag_size (self : AeadType) : Z :=
  match self with Aes128Gcm => 16 | Aes256Gcm => 16 | ChaCha20Poly1305 => 16 end.
Definition key_size (self : AeadType) : Z :=
  match self with Aes128Gcm => 16 | Aes256Gcm => 32 | ChaCha20Poly1305 => 32 end.
Definition nonce_size (self : AeadType) : Z :=
  match self with Aes128Gcm | Aes256Gcm | ChaCha20Poly1305 => 12 end.
Definition hash_size (self : HashType) : Z :=
  match self with Sha2_256 => 32 | Sha2_384 => 48 | Sha2_512 => 64 end.

Definition signature_scheme_try_from (value : Z) : option SignatureScheme :=
  if value =? 0x0403 then Some ECDSA_SECP256R1_SHA256
  else if value =? 0x0503 then Some ECDSA_SECP384R1_SHA384
  else if value =? 0x0603 then Some ECDSA_SECP521R1_SHA512
  else if value =? 0x0807 then Some ED25519
  else if value =? 0x0808 then Some ED448
  else None.

Inductive CryptoError : Type :=
  | CryptoLibraryError | AeadDecryptionError | HpkeDecryptionError | HpkeEncryptionError
  | UnsupportedSignatureScheme | KdfLabelTooLarge | KdfSerializationError
  | HkdfOutputLengthInvalid | InsufficientRandomness | InvalidSignature
  | UnsupportedAeadAlgorithm | UnsupportedKdf | InvalidLength | UnsupportedHashAlgorithm
  | SignatureEncodingError | SignatureDecodingError | SenderSetupError | ReceiverSetupError
  | ExporterError | UnsupportedCiphersuite | TlsSerializationError | TooMuchData
  | SigningError | InvalidPublicKey.

(** ** Ciphersuites *)
Inductive Ciphersuite : Type :=
  | MLS_128_DHKEMX25519_AES128GCM_SHA256_Ed25519
  | MLS_128_DHKEMP256_AES128GCM_SHA256_P256
  | MLS_128_DHKEMX25519_CHACHA20POLY1305_SHA256_Ed25519
  | MLS_256_DHKEMX448_AES256GCM_SHA512_Ed448
  | MLS_256_DHKEMP521_AES256GCM_SHA512_P521
  | MLS_256_DHKEMX448_CHACHA20POLY1305_SHA512_Ed448
  | MLS_256_DHKEMP384_AES256GCM_SHA384_P384.

#[export] Instance Ciphersuite_eq_dec : EqDecision Ciphersuite.
Proof. solve_decision. Defined.
#[export] Instance SignatureScheme_eq_dec : EqDecision SignatureScheme.
Proof. solve_decision. Defined.

Module Suite.
Definition to_u16 (s : Ciphersuite) : Z :=
  match s with
  | MLS_128_DHKEMX25519_AES128GCM_SHA256_Ed25519 => 0x0001
  | MLS_128_DHKEMP256_AES128GCM_SHA256_P256 => 0x0002
  | MLS_128_DHKEMX25519_CHACHA20POLY1305_SHA256_Ed25519 => 0x0003
  | MLS_256_DHKEMX448_AES256GCM_SHA512_Ed448 => 0x0004
  | MLS_256_DHKEMP521_AES256GCM_SHA512_P521 => 0x0005
  | MLS_256_DHKEMX448_CHACHA20POLY1305_SHA512_Ed448 => 0x0006
  | MLS_256_DHKEMP384_AES256GCM_SHA384_P384 => 0x0007
  end.

(** [None] is the codec's [DecodingError]. *)
Definition try_from (v : Z) : option Ciphersuite :=
  if v =? 0x0001 then Some MLS_128_DHKEMX25519_AES128GCM_SHA256_Ed25519
  else if v =? 0x0002 then Some MLS_128_DHKEMP256_AES128GCM_SHA256_P256
  else if v =? 0x0003 then Some MLS_128_DHKEMX25519_CHACHA20POLY1305_SHA256_Ed25519
  else if v =? 0x0004 then Some MLS_256_DHKEMX448_AES256GCM_SHA512_Ed448
  else if v =? 0x0005 then Some MLS_256_DHKEMP521_AES256GCM_SHA512_P521
  else if v =? 0x0006 then Some MLS_256_DHKEMX448_CHACHA20POLY1305_SHA512_Ed448
  else if v =? 0x0007 then Some MLS_256_DHKEMP384_AES256GCM_SHA384_P384
  else None.

Definition algorithms (s : Ciphersuite) :
    HpkeKemType * HpkeKdfType * AeadType * HashType * SignatureScheme :=
  match s with
  | MLS_128_DHKEMX25519_AES128GCM_SHA256_Ed25519 =>
      (DhKem25519, HkdfSha256, Aes128Gcm, Sha2_256, ED25519)
  | MLS_128_DHKEMP256_AES128GCM_SHA256_P256 =>
      (DhKemP256, HkdfSha256, Aes128Gcm, Sha2_256, ECDSA_SECP256R1_SHA256)
  | MLS_128_DHKEMX25519_CHACHA20POLY1305_SHA256_Ed25519 =>
      (DhKem25519, HkdfSha256, ChaCha20Poly1305, Sha2_256, ED25519)
  | MLS_256_DHKEMX448_AES256GCM_SHA512_Ed448 =>
      (DhKem448, HkdfSha512, Aes256Gcm, Sha2_512, ED448)
  | MLS_256_DHKEMP521_AES256GCM_SHA512_P521 =>
      (DhKemP521, HkdfSha512, Aes256Gcm, Sha2_512, ECDSA_SECP521R1_SHA512)
  | MLS_256_DHKEMX448_CHACHA20POLY1305_SHA512_Ed448 =>
      (DhKem448, HkdfSha512, ChaCha20Poly1305, Sha2_512, ED448)
  | MLS_256_DHKEMP384_AES256GCM_SHA384_P384 =>
      (DhKemP384, HkdfSha384, Aes256Gcm, Sha2_384, ECDSA_SECP384R1_SHA384)
  end.

Definition hpke_kem_algorithm (s : Ciphersuite) : HpkeKemType := (algorithms s).1.1.1.1.
Definition hpke_kdf_algorithm (s : Ciphersuite) : HpkeKdfType := (algorithms s).1.1.1.2.
Definition aead_algorithm (s : Ciphersuite) : AeadType := (algorithms s).1.1.2.
Definition hash_algorithm (s : Ciphersuite) : HashType := (algorithms s).1.2.
Definition signature_algorithm (s : Ciphersuite) : SignatureScheme := (algorithms s).2.
Definition hpke_aead_algorithm (s : Ciphersuite) : HpkeAeadType :=
  match aead_algorithm s with
  | Aes128Gcm => HpkeAesGcm128
  | Aes256Gcm => HpkeAesGcm256
  | ChaCha20Poly1305 => HpkeChaCha20Poly1305
  end.
Definition hpke_config (s : Ciphersuite) : HpkeConfig :=
  mkHpkeConfig (hpke_kem_algorithm s) (hpke_kdf_algorithm s) (hpke_aead_algorithm s).

Definition hash_length (s : Ciphersuite) : Z := hash_size (hash_algorithm s).
Definition mac_length (s : Ciphersuite) : Z := tag_size (aead_algorithm s).
Definition aead_key_length (s : Ciphersuite) : Z := key_size (aead_algorithm s).
Definition aead_nonce_length (s : Ciphersuite) : Z := nonce_size (aead_algorithm s).
End Suite.

(** ** GREASE *)
Definition GREASE_VALUES : list Z :=
  [0x0A0A; 0x1A1A; 0x2A2A; 0x3A3A; 0x4A4A; 0x5A5A; 0x6A6A; 0x7A7A; 0x8A8A; 0x9A9A; 0xAAAA; 0xBABA;
   0xCACA; 0xDADA; 0xEAEA].
Definition is_grease_value (value : Z) : bool := bool_decide (value ∈ GREASE_VALUES).

(** [LibraryError]; a failed encoding, a failed provider call, or a message. *)
Inductive LibraryError : Type :=
  | MissingBoundsCheck
  | UnexpectedCryptoError (e : CryptoError)
  | CustomError (s : string).

(** ** Provider and codec *)

Record HpkeCiphertext : Type := mkHpkeCiphertext { kem_output : bytes; ciphertext : bytes }.

(** The operations of the [OpenMlsCrypto] trait used below.  A key pair is
    (public, private).  The randomness of [hpke_seal] is the provider's own. *)
Class OpenMlsCrypto : Type := {
  supports_op : Ciphersuite -> result CryptoError unit;
  hkdf_extract_op : HashType -> bytes -> bytes -> result CryptoError bytes;
  hkdf_expand_op : HashType -> bytes -> bytes -> Z -> result CryptoError bytes;
  hmac_op : HashType -> bytes -> bytes -> result CryptoError bytes;
  hash_op : HashType -> bytes -> result CryptoError bytes;
  aead_encrypt_op : AeadType -> bytes -> bytes -> bytes -> bytes -> result CryptoError bytes;
  aead_decrypt_op : AeadType -> bytes -> bytes -> bytes -> bytes -> result CryptoError bytes;
  derive_hpke_keypair_op : HpkeConfig -> bytes -> result CryptoError (bytes * bytes);
  hpke_seal_op : HpkeConfig -> bytes -> bytes -> bytes -> bytes -> result CryptoError HpkeCiphertext;
  hpke_open_op : HpkeConfig -> HpkeCiphertext -> bytes -> bytes -> bytes -> result CryptoError bytes;
  hpke_setup_sender_and_export_op : HpkeConfig -> bytes -> bytes -> bytes -> Z -> result CryptoError (bytes * bytes);
  hpke_setup_receiver_and_export_op : HpkeConfig -> bytes -> bytes -> bytes -> bytes -> Z -> result CryptoError bytes;
  verify_signature_op : SignatureScheme -> bytes -> bytes -> bytes -> result CryptoError unit;
}.

(** Encodings of tls_codec: integers are big-endian, a [VLBytes] carries its
    length; [None] is an error. Reading leaves the bytes that follow. *)
Class TlsCodec : Type := {
  tls_vlbytes : bytes -> option bytes;
  tls_read_vlbytes : bytes -> option (bytes * bytes);
}.

(** Reads an [8 * n]-bit integer, and [n] raw bytes. *)
Definition be_value (b : bytes) : Z := foldl (fun z x => 256 * z + x mod 256) 0 b.

Definition read_bytes (n : nat) (b : bytes) : option (bytes * bytes) :=
  if bool_decide (n <= length b)%nat then Some (take n b, drop n b) else None.

Definition read_be (n : nat) (b : bytes) : option (Z * bytes) :=
  '(v, b') ← read_bytes n b; Some (be_value v, b').

(** A struct is the concatenation of its fields, a vector the length-prefixed
    concatenation of its elements. *)
Definition tls_struct (fields : list (option bytes)) : option bytes := mjoin <$> mapM id fields.

Definition tls_vec `{TlsCodec} {A} (encode : A -> option bytes) (l : list A) : option bytes :=
  elements ← mapM encode l;
  tls_vlbytes (mjoin elements).

(** ** Secrets *)
Abbreviation Secret := (list Z) (only parsing).

Record AeadKey : Type := mkAeadKey { aead_mode : AeadType; aead_key_value : bytes }.
Abbreviation AeadNonce := (list Z) (only parsing).

Definition NONCE_BYTES : Z := 12.
Definition REUSE_GUARD_BYTES : Z := 4.

Definition AeadKey_from_secret (secret : Secret) (ciphersuite : Ciphersuite) : AeadKey :=
  mkAeadKey (Suite.aead_algorithm ciphersuite) secret.

(** [clone_from_slice] panics unless the lengths agree. *)
Definition AeadNonce_from_secret {E} (secret : Secret) : result E AeadNonce :=
  if Z.of_nat (length secret) =? NONCE_BYTES then Ok secret else Panic.

(** XORs the first [REUSE_GUARD_BYTES] bytes of the nonce with the guard. *)
Definition xor_with_reuse_guard (self : AeadNonce) (reuse_guard : bytes) : AeadNonce :=
  imap (fun i b =>
    if Z.of_nat i <? REUSE_GUARD_BYTES then Z.lxor b (reuse_guard !!! i) else b) self.

Section Kdf.
Context {OC : OpenMlsCrypto} {TC : TlsCodec}.

Definition secret_zero (ciphersuite : Ciphersuite) : Secret :=
  replicate (Z.to_nat (Suite.hash_length ciphersuite)) 0.

Definition hkdf_extract (self : Secret) (ciphersuite : Ciphersuite) (ikm_option : option Secret) :
    result CryptoError Secret :=
  let ikm := default (secret_zero ciphersuite) ikm_option in
  hkdf_extract_op (Suite.hash_algorithm ciphersuite) self ikm.

Definition hmac (self : Secret) (ciphersuite : Ciphersuite) (message : Secret) :
    result CryptoError Secret :=
  hmac_op (Suite.hash_algorithm ciphersuite) self message.

Definition hkdf_expand (self : Secret) (ciphersuite : Ciphersuite) (info : bytes) (okm_len : Z) :
    result CryptoError Secret :=
  key ← map_err (fun _ => CryptoLibraryError)
          (hkdf_expand_op (Suite.hash_algorithm ciphersuite) self info okm_len);
  if bool_decide (key = []) then Err InvalidLength else Ok key.

(** [KdfLabel] serializes its fields in order: [length], [label], [context]. *)
Definition serialized_label (context label : bytes) (length : Z) : result CryptoError bytes :=
  if length >? 65535 then Err KdfLabelTooLarge
  else
    ok_or (label' ← tls_vlbytes label;
           context' ← tls_vlbytes context;
           Some (be_bytes 2 length ++ label' ++ context'))
      KdfSerializationError.

Definition kdf_expand_label (self : Secret) (ciphersuite : Ciphersuite) (label : string)
    (context : bytes) (length : Z) : result CryptoError Secret :=
  let full_label := bytes_of_string (String.append "MLS 1.0 " label) in
  info ← serialized_label context full_label length;
  hkdf_expand self ciphersuite info length.

Definition derive_secret (self : Secret) (ciphersuite : Ciphersuite) (label : string) :
    result CryptoError Secret :=
  kdf_expand_label self ciphersuite label [] (Suite.hash_length ciphersuite).

Definition aead_seal (self : AeadKey) (msg aad : bytes) (nonce : AeadNonce) : result CryptoError bytes :=
  map_err (fun _ => CryptoLibraryError)
    (aead_encrypt_op (aead_mode self) (aead_key_value self) msg nonce aad).

Definition aead_open (self : AeadKey) (ciphertext aad : bytes) (nonce : AeadNonce) :
    result CryptoError bytes :=
  map_err (fun _ => AeadDecryptionError)
    (aead_decrypt_op (aead_mode self) (aead_key_value self) ciphertext nonce aad).
End Kdf.

(** ** HPKE with labels *)
Module Hpke.
Inductive Error : Type := MissingBoundCheck | DecryptionFailed.

Section Hpke.
Context {OC : OpenMlsCrypto} {TC : TlsCodec}.

(** The serialized [EncryptContext]: the prefixed label, then the context. *)
Definition encrypt_context (label : string) (context : bytes) : option bytes :=
  label' ← tls_vlbytes (bytes_of_string (String.append "MLS 1.0 " label));
  context' ← tls_vlbytes context;
  Some (label' ++ context').

Definition encrypt_with_label (public_key : bytes) (label : string) (context plaintext : bytes)
    (ciphersuite : Ciphersuite) : result Error HpkeCiphertext :=
  context ← ok_or (encrypt_context label context) MissingBoundCheck;
  map_err (fun _ => DecryptionFailed)
    (hpke_seal_op (Suite.hpke_config ciphersuite) public_key context [] plaintext).

Definition decrypt_with_label (private_key : bytes) (label : string) (context : bytes)
    (ciphertext : HpkeCiphertext) (ciphersuite : Ciphersuite) : result Error bytes :=
  context ← ok_or (encrypt_context label context) MissingBoundCheck;
  map_err (fun _ => DecryptionFailed)
    (hpke_open_op (Suite.hpke_config ciphersuite) ciphertext private_key context []).
End Hpke.
End Hpke.

(** ** Signatures *)
Inductive SignatureError : Type := SignatureVerificationError | SignatureSigningError.

(** [signer] is the [sign] method of the caller's signer. *)
Module Signable.
Section Signable.
Context {OC : OpenMlsCrypto} {TC : TlsCodec}.

(** The serialized [SignContent]. *)
Definition sign_content (label : string) (content : bytes) : option bytes :=
  tls_struct [tls_vlbytes (bytes_of_string (String.append "MLS 1.0 " label)); tls_vlbytes content].

(** [Signable::sign], up to putting payload and signature together. *)
Definition sign (label : string) (unsigned_payload : option bytes) (signer : bytes -> option bytes) :
    result SignatureError bytes :=
  payload ← ok_or unsigned_payload SignatureSigningError;
  payload_sign_content ← ok_or (sign_content label payload) SignatureSigningError;
  ok_or (signer payload_sign_content) SignatureSigningError.

(** [Verifiable::verify_no_out]. *)
Definition verify_no_out (scheme : SignatureScheme) (pk : bytes) (label : string)
    (unsigned_payload : option bytes) (signature : bytes) : result SignatureError unit :=
  payload ← ok_or unsigned_payload SignatureVerificationError;
  payload ← ok_or (sign_content label payload) SignatureVerificationError;
  map_err (fun _ => SignatureVerificationError) (verify_signature_op scheme payload pk signature).
End Signable.
End Signable.
