(* ===== verification/CryptoFacts.v ===== *)
(** * Ciphersuites and key derivation: correctness

    The laws assumed of the cryptographic provider and of the codec, a provider
    that satisfies them, and the facts on ciphersuites, labels and nonces. *)
From S2P Require Import Prelude Crypto.

(** ** Documented behaviour of the provider and the codec

    HKDF-Expand returns the requested number of bytes up to 255 hash lengths
    (RFC 5869); a variable-length vector has fewer than [2^30] bytes. *)
Class LawfulKdf {OC : OpenMlsCrypto} {TC : TlsCodec} : Prop := {
  hkdf_expand_total h prk info len :
    0 < len <= 255 * hash_size h ->
    exists okm, hkdf_expand_op h prk info len = Ok okm /\ Z.of_nat (length okm) = len;
  tls_vlbytes_total b : Z.of_nat (length b) < 2 ^ 30 -> is_Some (tls_vlbytes b);
}.

(** HPKE: what is sealed to the public key of a derived pair opens with its
    private key, and both sides of a setup export the same secret (RFC 9180). *)
Class LawfulHpke {OC : OpenMlsCrypto} : Prop := {
  hpke_open_seal cfg ikm pk sk info aad msg ct :
    derive_hpke_keypair_op cfg ikm = Ok (pk, sk) -> hpke_seal_op cfg pk info aad msg = Ok ct ->
    hpke_open_op cfg ct sk info aad = Ok msg;
  hpke_export_agree cfg ikm pk sk info context len kem_output secret :
    derive_hpke_keypair_op cfg ikm = Ok (pk, sk) ->
    hpke_setup_sender_and_export_op cfg pk info context len = Ok (kem_output, secret) ->
    hpke_setup_receiver_and_export_op cfg kem_output sk info context len = Ok secret;
}.

(** Opening a sealed message with the same key, nonce and data gives it back. *)
Class LawfulAead {OC : OpenMlsCrypto} : Prop := {
  aead_decrypt_encrypt alg key msg nonce aad ct :
    aead_encrypt_op alg key msg nonce aad = Ok ct -> aead_decrypt_op alg key ct nonce aad = Ok msg;
}.

(** Reading what was written gives it back and leaves what follows. *)
Class LawfulCodec {TC : TlsCodec} : Prop := {
  tls_read_write b e rest : tls_vlbytes b = Some e -> tls_read_vlbytes (e ++ rest) = Some (b, rest);
}.

(** AEAD encryption succeeds for keys and nonces of the right size and data within the limits of
    RFC 5116; a variable-length vector has a header of at most 8 bytes. *)
Class TotalAead {OC : OpenMlsCrypto} {TC : TlsCodec} : Prop := {
  aead_encrypt_total alg key msg nonce aad :
    Z.of_nat (length key) = key_size alg -> Z.of_nat (length nonce) = nonce_size alg ->
    Z.of_nat (length msg) <= 2 ^ 36 - 31 -> Z.of_nat (length aad) < 2 ^ 61 ->
    exists ct, aead_encrypt_op alg key msg nonce aad = Ok ct;
  tls_vlbytes_length b e : tls_vlbytes b = Some e -> (length e <= length b + 8)%nat;
}.

(** What [signer] signs verifies under [pk]. *)
Definition signs_for {OC : OpenMlsCrypto} (scheme : SignatureScheme) (pk : bytes) (signer : bytes -> option bytes) : Prop :=
  forall msg signature, signer msg = Some signature -> verify_signature_op scheme msg pk signature = Ok tt.

Lemma read_bytes_app b rest : read_bytes (length b) (b ++ rest) = Some (b, rest).
Proof.
  unfold read_bytes. rewrite bool_decide_true by (rewrite length_app; lia). by rewrite take_app_length, drop_app_length.
Qed.

Lemma be_bytes_length n z : length (be_bytes n z) = n.
Proof. induction n; cbn; auto. Qed.

Lemma be_value_bytes n z acc :
  0 <= z ->
  foldl (fun z x => 256 * z + x mod 256) acc (be_bytes n z) = acc * 2 ^ (8 * Z.of_nat n) + z mod 2 ^ (8 * Z.of_nat n).
Proof.
  intros Hz. revert acc. induction n as [|n IH]; intros acc.
  - cbn. rewrite Z.mod_1_r. lia.
  - cbn [be_bytes foldl]. rewrite IH, Z.mod_mod by lia. set (k := 8 * Z.of_nat n). replace (8 * Z.of_nat (S n)) with (k + 8) by lia.
    rewrite Z.pow_add_r by lia. rewrite (Z.rem_mul_r z (2 ^ k) (2 ^ 8)) by lia. change (2 ^ 8) with 256. lia.
Qed.

Lemma be_value_range b : 0 <= be_value b < 2 ^ (8 * Z.of_nat (length b)).
Proof.
  unfold be_value. induction b as [|x b IH] using rev_ind; [done|]. rewrite foldl_app, length_app. cbn [foldl length].
  replace (8 * Z.of_nat (length b + 1)) with (8 * Z.of_nat (length b) + 8) by lia. rewrite Z.pow_add_r by lia.
  pose proof (Z.mod_pos_bound x 256 ltac:(lia)). lia.
Qed.

Lemma read_be_range n b z b' : read_be n b = Some (z, b') -> 0 <= z < 2 ^ (8 * Z.of_nat n).
Proof.
  unfold read_be, read_bytes. case_bool_decide; [|done]. intros [= <- _].
  pose proof (be_value_range (take n b)). rewrite length_take, Nat.min_l in * by done. done.
Qed.

Lemma read_be_app n z rest : 0 <= z < 2 ^ (8 * Z.of_nat n) -> read_be n (be_bytes n z ++ rest) = Some (z, rest).
Proof.
  intros Hz. unfold read_be. rewrite <- (be_bytes_length n z) at 1. rewrite read_bytes_app. cbn.
  unfold be_value. rewrite be_value_bytes by lia. by rewrite Z.mod_small by lia.
Qed.

(** A provider and a codec for the witnesses. *)
Module Toy.
Definition mix (l : bytes) : Z := foldl (fun a b => (a * 31 + b + 7) mod 65521) 1 l.
#[export] Instance crypto : OpenMlsCrypto := {|
  supports_op _ := Ok tt;
  hkdf_extract_op h salt ikm := Ok (replicate (Z.to_nat (hash_size h)) (mix (salt ++ 1 :: ikm) mod 256));
  hkdf_expand_op h prk info len :=
    if (0 <? len) && (len <=? 255 * hash_size h)
    then Ok ((fun i => mix (Z.of_nat i :: info ++ prk) mod 256) <$> seq 0 (Z.to_nat len))
    else Err HkdfOutputLengthInvalid;
  hmac_op h k m := Ok (replicate (Z.to_nat (hash_size h)) (mix (k ++ 2 :: m) mod 256));
  hash_op h m := Ok (replicate (Z.to_nat (hash_size h)) (mix (3 :: m) mod 256));
  aead_encrypt_op _ key msg nonce aad := Ok (msg ++ [mix (key ++ nonce ++ aad ++ msg) mod 256]);
  aead_decrypt_op _ key ct nonce aad :=
    let msg := take (length ct - 1) ct in
    if bool_decide (ct = msg ++ [mix (key ++ nonce ++ aad ++ msg) mod 256])
    then Ok msg else Err AeadDecryptionError;
  derive_hpke_keypair_op _ ikm := Ok ([mix ikm mod 256; 1], [mix ikm mod 256]);
  hpke_seal_op _ pk info aad msg := Ok (mkHpkeCiphertext (take 1 pk) (msg ++ [mix (info ++ aad) mod 256]));
  hpke_open_op _ ct sk info aad :=
    let msg := take (length (ciphertext ct) - 1) (ciphertext ct) in
    if bool_decide (kem_output ct = sk /\ ciphertext ct = msg ++ [mix (info ++ aad) mod 256])
    then Ok msg else Err HpkeDecryptionError;
  hpke_setup_sender_and_export_op _ pk info context len :=
    Ok (take 1 pk, replicate (Z.to_nat len) (mix (take 1 pk ++ info ++ context) mod 256));
  hpke_setup_receiver_and_export_op _ kem_output sk info context len :=
    Ok (replicate (Z.to_nat len) (mix (sk ++ info ++ context) mod 256));
  verify_signature_op _ msg pk signature :=
    if bool_decide (signature = [mix (pk ++ msg) mod 256]) then Ok tt else Err InvalidSignature |}.

(** The signer that holds the private key of [pk]. *)
Definition signer (pk msg : bytes) : option bytes := Some [mix (pk ++ msg) mod 256].
#[export] Instance codec : TlsCodec := {|
  tls_vlbytes b :=
    if Z.of_nat (length b) <? 2 ^ 30 then Some (be_bytes 4 (2 ^ 31 + Z.of_nat (length b)) ++ b)
    else None;
  tls_read_vlbytes b := '(v, b') ← read_be 4 b; read_bytes (Z.to_nat (v - 2 ^ 31)) b' |}.
#[export] Instance lawful : LawfulKdf.
Proof.
  split.
  - intros h prk info len [H1 H2]. cbn [hkdf_expand_op crypto].
    apply Z.ltb_lt in H1 as H1'. apply Z.leb_le in H2 as H2'. rewrite H1', H2'. cbn [andb].
    eexists; split; [done|]. rewrite length_fmap, length_seq. lia.
  - intros b Hb. cbn. apply Z.ltb_lt in Hb. rewrite Hb. by eexists.
Defined.
#[export] Instance lawful_hpke : LawfulHpke.
Proof.
  split.
  - intros cfg ikm pk sk info aad msg ct Hk Hs. cbn in Hk, Hs. simplify_eq. cbn. rewrite length_app. cbn [length]. rewrite Nat.add_sub, take_app_length.
    by rewrite bool_decide_true.
  - intros cfg ikm pk sk info context len kem_output secret Hk Hs. cbn in Hk, Hs. simplify_eq. done.
Defined.
#[export] Instance lawful_aead : LawfulAead.
Proof.
  split. intros alg key msg nonce aad ct E. cbn in E. injection E as <-. cbn. rewrite length_app. cbn [length].
  rewrite Nat.add_sub, take_app_length. by rewrite bool_decide_true.
Defined.
#[export] Instance total_aead : TotalAead.
Proof.
  split; [by eexists|]. intros b e. cbn. destruct (_ <? _); [|done]. intros [= <-]. cbn. lia.
Defined.
#[export] Instance lawful_codec : LawfulCodec.
Proof.
  split. intros b e rest E. cbn [tls_vlbytes codec] in E. destruct (Z.ltb_spec (Z.of_nat (length b)) (2 ^ 30)); [|done].
  apply (inj Some) in E as <-. cbn [tls_read_vlbytes codec]. rewrite <- app_assoc, read_be_app by lia. cbn [mbind option_bind].
  replace (Z.to_nat _) with (length b) by lia. apply read_bytes_app.
Defined.
End Toy.

Lemma toy_signs scheme pk : signs_for (OC := Toy.crypto) scheme pk (Toy.signer pk).
Proof. intros msg signature [= <-]. cbn. by rewrite bool_decide_true. Qed.

Definition toy_cs : Ciphersuite := MLS_128_DHKEMX25519_AES128GCM_SHA256_Ed25519.
Definition toy_secret : Secret := replicate 32 9.

Section Totality.
Context {OC : OpenMlsCrypto} {TC : TlsCodec} (cs : Ciphersuite).

Lemma bytes_of_string_length l : length (bytes_of_string l) = String.length l.
Proof. induction l; cbn; auto. Qed.

Lemma kdf_expand_label_total `{!LawfulKdf} sec label ctx len :
  Z.of_nat (String.length label) < 2 ^ 20 -> Z.of_nat (length ctx) < 2 ^ 20 ->
  0 < len <= 255 -> exists out, kdf_expand_label sec cs label ctx len = Ok out /\
    Z.of_nat (length out) = len.
Proof.
  intros Hl Hx Hlen. unfold kdf_expand_label, serialized_label.
  destruct (Z.gtb_spec len 65535); [lia|].
  destruct (tls_vlbytes_total (bytes_of_string (String.append "MLS 1.0 " label))) as [lb ->].
  { rewrite bytes_of_string_length. change (String.length _) with (8 + String.length label)%nat. lia. }
  destruct (tls_vlbytes_total ctx) as [cx ->]; [lia|]. cbn [mbind option_bind ok_or result_bind].
  unfold hkdf_expand.
  destruct (hkdf_expand_total (Suite.hash_algorithm cs) sec (be_bytes 2 len ++ lb ++ cx) len)
    as (okm & -> & Hokm).
  { destruct (Suite.hash_algorithm cs); cbn; lia. }
  cbn. rewrite bool_decide_eq_false_2; [eauto|]. intros ->. cbn in Hokm. lia.
Qed.


End Totality.

(** Decrypting under the same label and context gives back what was encrypted. *)
Lemma decrypt_with_label_Ok {OC : OpenMlsCrypto} {TC : TlsCodec} {LH : LawfulHpke} pk sk ikm label context msg ct cs :
  derive_hpke_keypair_op (Suite.hpke_config cs) ikm = Ok (pk, sk) -> Hpke.encrypt_with_label pk label context msg cs = Ok ct ->
  Hpke.decrypt_with_label sk label context ct cs = Ok msg.
Proof.
  intros Hk E. unfold Hpke.encrypt_with_label, Hpke.decrypt_with_label in *. destruct (Hpke.encrypt_context _ _) as [c|]; [|done]. cbn in *.
  destruct (hpke_seal_op _ _ _ _ _) as [ct'| |] eqn:Es; [|done..]. injection E as <-. by rewrite (hpke_open_seal _ _ _ _ _ _ _ _ Hk Es).
Qed.

(** Verification accepts what was signed under the same label for the same payload. *)
Lemma sign_verify {OC : OpenMlsCrypto} {TC : TlsCodec} scheme pk label payload signer signature :
  signs_for scheme pk signer -> Signable.sign label payload signer = Ok signature ->
  Signable.verify_no_out scheme pk label payload signature = Ok tt.
Proof.
  intros Hs E. unfold Signable.sign, Signable.verify_no_out in *. destruct payload as [p|]; [|done]. cbn [ok_or mbind result_bind] in *.
  destruct (Signable.sign_content label p) as [c|]; [|done]. cbn [ok_or mbind result_bind] in *.
  destruct (signer c) as [s|] eqn:Ec; [|done]. cbn in *. injection E as <-. by rewrite (Hs c s Ec).
Qed.

(** ** Properties *)

Lemma lookup_xor_with_reuse_guard n g i :
  xor_with_reuse_guard n g !! i =
  (fun b => if Z.of_nat i <? REUSE_GUARD_BYTES then Z.lxor b (g !!! i) else b) <$> n !! i.
Proof. apply list_lookup_imap. Qed.

(** Ciphersuite code points: decoding a code point succeeds exactly for the
    code points of the supported suites and inverts the encoding. *)
Theorem suite_roundtrip (v : Z) (c : Ciphersuite) : Suite.try_from v = Some c <-> Suite.to_u16 c = v.
Proof.
  split; [|intros <-; by destruct c].
  unfold Suite.try_from. intros H.
  repeat (case_match; [simplify_eq; symmetry; by apply Z.eqb_eq|]). done.
Qed.

(** XORing a nonce with a reuse guard touches only its first four bytes, is
    undone by the same guard, and gives different nonces for different guards. *)
Theorem reuse_guard_correct (n : AeadNonce) (g g' : bytes) :
  Z.of_nat (length n) = NONCE_BYTES ->
  Z.of_nat (length g) = REUSE_GUARD_BYTES -> Z.of_nat (length g') = REUSE_GUARD_BYTES ->
  drop 4 (xor_with_reuse_guard n g) = drop 4 n /\
  xor_with_reuse_guard (xor_with_reuse_guard n g) g = n /\
  (xor_with_reuse_guard n g = xor_with_reuse_guard n g' -> g = g').
Proof.
  unfold NONCE_BYTES, REUSE_GUARD_BYTES. intros Hn Hg Hg'. split_and!.
  - apply list_eq; intros i. rewrite !lookup_drop, lookup_xor_with_reuse_guard.
    unfold REUSE_GUARD_BYTES. destruct (Z.ltb_spec (Z.of_nat (4 + i)) 4); [lia|].
    by rewrite option_fmap_id.
  - apply list_eq; intros i. rewrite !lookup_xor_with_reuse_guard. destruct (n !! i) as [b|]; [|done]. cbn.
    f_equal. destruct (_ <? _); [|done]. by rewrite Z.lxor_assoc, Z.lxor_nilpotent, Z.lxor_0_r.
  - intros He. apply (list_eq_same_length _ _ (length g)); [lia|done|].
    intros i x y Hi Hx Hy. destruct (lookup_lt_is_Some_2 n i) as [b Hb]; [lia|].
    apply (f_equal (.!! i)) in He. rewrite !lookup_xor_with_reuse_guard, Hb in He. cbn in He.
    unfold REUSE_GUARD_BYTES in He. destruct (Z.ltb_spec (Z.of_nat i) 4); [|lia].
    rewrite (list_lookup_total_correct _ _ _ Hx), (list_lookup_total_correct _ _ _ Hy) in He.
    injection He as He. apply (f_equal (Z.lxor b)) in He.
    by rewrite <- !Z.lxor_assoc, Z.lxor_nilpotent, !Z.lxor_0_l in He.
Qed.

Lemma reuse_guard_correct_witness :
  let n := [1; 2; 3; 4; 5; 6; 7; 8; 9; 10; 11; 12] in
  xor_with_reuse_guard n [255; 0; 17; 4] = [254; 2; 18; 0; 5; 6; 7; 8; 9; 10; 11; 12] /\
  xor_with_reuse_guard (xor_with_reuse_guard n [255; 0; 17; 4]) [255; 0; 17; 4] = n.
Proof.
  intros n. split; [reflexivity|].
  apply (reuse_guard_correct n [255; 0; 17; 4] [0; 0; 0; 0]); reflexivity.
Defined.
