(* ===== verification/SenderRatchet.v ===== *)
(** * Sender ratchets

    Models openmls/src/tree/sender_ratchet.rs and the error type and key
    derivation of openmls/src/tree/secret_tree.rs it uses, without the
    virtual-clients-draft feature.  A [VecDeque] is a list whose head is the
    front of the queue. *)
From S2P Require Import Prelude Crypto.

Inductive SecretTreeError : Type :=
  | TooDistantInThePast
  | TooDistantInTheFuture
  | IndexOutOfBounds
  | SecretReuseError
  | RatchetTypeError
  | RatchetTooLong
  | SecretTreeLibraryError
  | SecretTreeCodecError
  | SecretTreeCryptoError (e : CryptoError).

Record SenderRatchetConfiguration : Type := mkConfiguration {
  out_of_order_tolerance : Z;
  maximum_forward_distance : Z;
}.

#[export] Instance SenderRatchetConfiguration_default : Default SenderRatchetConfiguration :=
  mkConfiguration 5 1000.

Definition RatchetKeyMaterial : Type := AeadKey * AeadNonce.

Record RatchetSecret : Type := mkRatchetSecret {
  secret : Secret;
  generation : Z;
}.

Record DecryptionRatchet : Type := mkDecryptionRatchet {
  past_secrets : list (option RatchetKeyMaterial);
  ratchet_head : RatchetSecret;
}.

Inductive PeekedGeneration : Type :=
  | Forward (from_head : Z) (ratchet_head : RatchetSecret) (skipped_secrets : list RatchetKeyMaterial)
  | Past (generation : Z).

Inductive SenderRatchet : Type :=
  | EncryptionRatchet (enc_ratchet : RatchetSecret)
  | DecryptionRatchetOf (dec_ratchet : DecryptionRatchet).

(** The persisted form: a [DualUse] ratchet written by a build with
    virtual-clients-draft is read back as its head. *)
Inductive SerdeSenderRatchet : Type :=
  | SerdeEncryptionRatchet (ratchet_secret : RatchetSecret)
  | SerdeDecryptionRatchet (dec_ratchet : DecryptionRatchet)
  | SerdeDualUse (ratchet_head : RatchetSecret).

Definition SenderRatchet_from (repr : SerdeSenderRatchet) : SenderRatchet :=
  match repr with
  | SerdeEncryptionRatchet ratchet_secret => EncryptionRatchet ratchet_secret
  | SerdeDecryptionRatchet dec_ratchet => DecryptionRatchetOf dec_ratchet
  | SerdeDualUse ratchet_head => EncryptionRatchet ratchet_head
  end.

Definition initial_ratchet_secret (secret : Secret) : RatchetSecret := mkRatchetSecret secret 0.

Section Ratchet.
Context {OC : OpenMlsCrypto} {TC : TlsCodec}.
Context (ciphersuite : Ciphersuite).

Definition derive_tree_secret (secret : Secret) (label : string) (generation length : Z) :
    result SecretTreeError Secret :=
  map_err SecretTreeCryptoError
    (kdf_expand_label secret ciphersuite label (be_bytes 4 generation) length).

(** The key material and the ratchet of the next generation; the ratchet is
    unchanged when an error is returned. *)
Definition ratchet_forward (self : RatchetSecret) :
    result SecretTreeError ((Z * RatchetKeyMaterial) * RatchetSecret) :=
  if generation self =? u32.MAX then Err RatchetTooLong
  else
    nonce ← derive_tree_secret (secret self) "nonce" (generation self)
              (Suite.aead_nonce_length ciphersuite);
    key ← derive_tree_secret (secret self) "key" (generation self)
            (Suite.aead_key_length ciphersuite);
    secret' ← derive_tree_secret (secret self) "secret" (generation self)
                (Suite.hash_length ciphersuite);
    nonce' ← AeadNonce_from_secret nonce;
    Ok ((generation self, (AeadKey_from_secret key ciphersuite, nonce')),
        mkRatchetSecret secret' (generation self + 1)%u32).

Definition DecryptionRatchet_new (secret : Secret) : DecryptionRatchet :=
  mkDecryptionRatchet [] (initial_ratchet_secret secret).

(** The [for] loop of [peek]: [n] steps, keeping the newest [tolerance]
    key materials. *)
Fixpoint skip_forward (tolerance : Z) (n : nat) (head : RatchetSecret)
    (skipped : list RatchetKeyMaterial) :
    result SecretTreeError (RatchetSecret * list RatchetKeyMaterial) :=
  match n with
  | O => Ok (head, skipped)
  | S n' =>
      '((_, key_material), head') ← ratchet_forward head;
      skip_forward tolerance n' head' (take (Z.to_nat tolerance) (key_material :: skipped))
  end.

Definition past_secret_index (self : DecryptionRatchet) (generation' : Z) :
    result SecretTreeError nat :=
  let window_index := generation (ratchet_head self) - generation' - 1 in
  if 0 <=? window_index then Ok (Z.to_nat window_index) else Err TooDistantInThePast.

Definition peek (self : DecryptionRatchet) (generation' : Z)
    (configuration : SenderRatchetConfiguration) :
    result SecretTreeError (RatchetKeyMaterial * PeekedGeneration) :=
  let head_generation := generation (ratchet_head self) in
  if (head_generation <? (u32.MAX - maximum_forward_distance configuration)%u32)
     && (generation' >? (head_generation + maximum_forward_distance configuration)%u32)
  then Err TooDistantInTheFuture
  else if (generation' <? head_generation)
     && ((head_generation - generation')%u32 >? out_of_order_tolerance configuration)
  then Err TooDistantInThePast
  else if generation' >=? head_generation then
    '(head, skipped) ← skip_forward (out_of_order_tolerance configuration)
                         (Z.to_nat (generation' - head_generation)%u32) (ratchet_head self) [];
    '((_, ratchet_secrets), head') ← ratchet_forward head;
    Ok (ratchet_secrets, Forward head_generation head' skipped)
  else
    index ← past_secret_index self generation';
    entry ← ok_or (past_secrets self !! index) IndexOutOfBounds;
    ratchet_secrets ← ok_or entry SecretReuseError;
    Ok (ratchet_secrets, Past generation').

(** The ratchet after [consume]; it is unchanged when an error is returned. *)
Definition consume (self : DecryptionRatchet) (peeked : PeekedGeneration)
    (configuration : SenderRatchetConfiguration) : result SecretTreeError DecryptionRatchet :=
  match peeked with
  | Forward from_head head skipped =>
      if negb (from_head =? generation (ratchet_head self)) then Err SecretTreeLibraryError
      else
        let pushed := foldl (fun q k => Some k :: q) (past_secrets self) (rev skipped) in
        Ok (mkDecryptionRatchet
              (take (Z.to_nat (out_of_order_tolerance configuration)) (None :: pushed)) head)
  | Past generation' =>
      index ← past_secret_index self generation';
      entry ← ok_or (past_secrets self !! index) IndexOutOfBounds;
      _ ← ok_or entry SecretReuseError;
      Ok (mkDecryptionRatchet (<[index := None]> (past_secrets self)) (ratchet_head self))
  end.

(** [peek] followed by [consume]. *)
Definition ratchet_secret_for_decryption (self : DecryptionRatchet) (generation' : Z)
    (configuration : SenderRatchetConfiguration) :
    result SecretTreeError (RatchetKeyMaterial * DecryptionRatchet) :=
  '(ratchet_secrets, peeked) ← peek self generation' configuration;
  self' ← consume self peeked configuration;
  Ok (ratchet_secrets, self').
End Ratchet.
