(* ===== verification/SenderRatchetFacts.v ===== *)
(** * Sender ratchets: correctness

    The key material a decryption ratchet hands out is that of the sender's
    chain; each generation is handed out at most once; exactly the generations
    the configuration allows stay available; and the work of one request is
    bounded. *)
From S2P Require Import Prelude Crypto CryptoFacts SenderRatchet.

Section Facts.
Context {OC : OpenMlsCrypto} {TC : TlsCodec} (cs : Ciphersuite).
Implicit Types (s h : RatchetSecret) (r : DecryptionRatchet) (g : Z).

Abbreviation forward := (ratchet_forward cs).

(** ** The sender's chain *)

(** The ratchet after [n] steps, and the key material of its [n]-th step. *)
Fixpoint chain s0 (n : nat) : result SecretTreeError RatchetSecret :=
  match n with
  | O => Ok s0
  | S n' => h ← chain s0 n'; '(_, h') ← forward h; Ok h'
  end.

Definition chain_key s0 (n : nat) : result SecretTreeError RatchetKeyMaterial :=
  h ← chain s0 n; '((_, k), _) ← forward h; Ok k.

Lemma forward_generation h g k h' :
  0 <= generation h <= u32.MAX -> forward h = Ok ((g, k), h') ->
  g = generation h /\ generation h' = generation h + 1 /\ generation h < u32.MAX.
Proof.
  unfold ratchet_forward. intros Hr H. destruct (Z.eqb_spec (generation h) u32.MAX); [done|].
  inv_ok. simplify_eq. cbn [generation]. unfold u32.MAX in *. repeat split; [|lia].
  unfold u32.add. rewrite u32.wrap_small; [done|unfold u32.is_u32; lia].
Qed.

Lemma chain_generation s0 n h :
  generation s0 = 0 -> chain s0 n = Ok h -> generation h = Z.of_nat n /\ Z.of_nat n <= u32.MAX.
Proof.
  intros H0. revert h; induction n as [|n IH]; intros h H; cbn in H.
  - simplify_eq. rewrite H0. split; [lia|by vm_compute].
  - inv_ok. destruct a0 as [[g k] h']. simplify_eq.
    destruct (IH a) as [Hg Hb]; [done|].
    apply forward_generation in Ha0; [|lia]. lia.
Qed.

Lemma chain_S s0 n h g k h' :
  chain s0 n = Ok h -> forward h = Ok ((g, k), h') ->
  chain s0 (S n) = Ok h' /\ chain_key s0 n = Ok k.
Proof. intros H1 H2. unfold chain_key. cbn. rewrite H1. cbn. rewrite H2. done. Qed.

(** ** The loop of [peek] *)

Lemma take_app_take {A} n (l1 l2 : list A) : take n (l1 ++ take n l2) = take n (l1 ++ l2).
Proof.
  rewrite !take_app, take_take. do 2 f_equal. lia.
Qed.

(** The loop collects the newest [tol] of the keys it passes, newest first. *)
Lemma skip_forward_Ok s0 tol n m h sk h' sk' :
  chain s0 m = Ok h -> skip_forward cs tol n h sk = Ok (h', sk') ->
  (length sk <= Z.to_nat tol)%nat ->
  chain s0 (m + n) = Ok h' /\
  exists ks, length ks = n /\ sk' = take (Z.to_nat tol) (ks ++ sk) /\
    forall i k, ks !! i = Some k -> chain_key s0 (m + n - 1 - i) = Ok k.
Proof.
  revert m h sk; induction n as [|n IH]; intros m h sk Hm Hs Hl; cbn in Hs.
  - simplify_eq. rewrite Nat.add_0_r. split; [done|]. exists []. split_and!; [done| |done].
    cbn. by rewrite take_ge.
  - inv_ok. destruct a as [[g k] h1]. destruct (chain_S _ _ _ _ _ _ Hm Ha) as [H1 Hk].
    destruct (IH _ _ _ H1 Hs) as [Hc (ks & Hlen & -> & Hks)]; [rewrite length_take; lia|].
    rewrite Nat.add_succ_r. split; [done|]. exists (ks ++ [k]). split_and!.
    + rewrite length_app; cbn; lia.
    + by rewrite take_app_take, <- app_assoc.
    + intros i k' Hi. apply lookup_app_Some in Hi as [Hi|[Hge Hi]].
      * rewrite <- (Hks i k' Hi). f_equal; lia.
      * apply list_lookup_singleton_Some in Hi as [Hi ->]. rewrite <- Hk. f_equal; lia.
Qed.

Lemma push_all {A} (l : list A) q :
  foldl (fun q k => Some k :: q) q (rev l) = (Some <$> l) ++ q.
Proof.
  revert q; induction l as [|a l IH]; intros q; [done|]. cbn. by rewrite foldl_app, IH.
Qed.

(** ** Invariant *)

Record ratchet_inv (cfg : SenderRatchetConfiguration) s0 r : Prop := {
  inv_head : chain s0 (Z.to_nat (generation (ratchet_head r))) = Ok (ratchet_head r);
  inv_gen : 0 <= generation (ratchet_head r) <= u32.MAX;
  inv_tol : Z.of_nat (length (past_secrets r)) <= out_of_order_tolerance cfg;
  inv_len : Z.of_nat (length (past_secrets r)) <= generation (ratchet_head r);
  inv_past i k : past_secrets r !! i = Some (Some k) ->
    chain_key s0 (Z.to_nat (generation (ratchet_head r)) - 1 - i) = Ok k;
}.

Definition wf_config (cfg : SenderRatchetConfiguration) : Prop :=
  u32.is_u32 (out_of_order_tolerance cfg) /\ u32.is_u32 (maximum_forward_distance cfg).

(** The key material of past generation [g] is in the window. *)
Definition available r g : Prop :=
  0 <= g < generation (ratchet_head r) /\
  exists k, past_secrets r !! Z.to_nat (generation (ratchet_head r) - g - 1) = Some (Some k).

Lemma ratchet_inv_new cfg sec :
  wf_config cfg -> ratchet_inv cfg (initial_ratchet_secret sec) (DecryptionRatchet_new sec).
Proof. intros [[? ?] _]. split; cbn; done. Qed.

(** ** Inversion of a successful request *)

Abbreviation decrypt := (ratchet_secret_for_decryption cs).

Lemma bounds_small cfg r g s0 :
  wf_config cfg -> ratchet_inv cfg s0 r -> u32.is_u32 g -> generation (ratchet_head r) <= g ->
  (g - generation (ratchet_head r))%u32 = g - generation (ratchet_head r).
Proof.
  intros _ Hi Hg Hle. unfold u32.sub. apply u32.wrap_small.
  pose proof (inv_gen _ _ _ Hi). unfold u32.is_u32 in *. lia.
Qed.

Lemma peek_forward cfg s0 r g k p :
  wf_config cfg -> generation s0 = 0 -> ratchet_inv cfg s0 r -> u32.is_u32 g ->
  generation (ratchet_head r) <= g -> peek cs r g cfg = Ok (k, p) ->
  exists h' ks,
    p = Forward (generation (ratchet_head r)) h'
          (take (Z.to_nat (out_of_order_tolerance cfg)) ks) /\
    Z.of_nat (length ks) = g - generation (ratchet_head r) /\
    chain s0 (Z.to_nat (g + 1)) = Ok h' /\ generation h' = g + 1 /\ g + 1 <= u32.MAX /\
    chain_key s0 (Z.to_nat g) = Ok k /\
    forall i k', ks !! i = Some k' -> chain_key s0 (Z.to_nat g - 1 - i) = Ok k'.
Proof.
  intros Hc H0 Hi Hg Hle Hp. pose proof (inv_gen _ _ _ Hi) as Hb. unfold peek in Hp.
  destruct (_ && _) in Hp; [done|]. destruct (_ && _) in Hp; [done|].
  assert ((g >=? generation (ratchet_head r)) = true) as E by lia. rewrite E in Hp.
  rewrite (bounds_small cfg r g s0) in Hp by done.
  apply bind_Ok in Hp as ([h1 sk] & Hs & Hp). apply bind_Ok in Hp as ([[g1 k1] h2] & Hf & Hp).
  injection Hp as <- <-.
  apply (skip_forward_Ok s0 _ _ (Z.to_nat (generation (ratchet_head r)))) in Hs
    as [Hch (ks & Hl & -> & Hks)]; [|apply Hi|cbn; lia].
  rewrite app_nil_r. replace (_ + _)%nat with (Z.to_nat g) in Hch by lia.
  destruct (chain_S _ _ _ _ _ _ Hch Hf) as [H1 H2].
  replace (S (Z.to_nat g)) with (Z.to_nat (g + 1)) in H1 by (unfold u32.is_u32 in Hg; lia).
  destruct (chain_generation _ _ _ H0 H1) as [Hgen Hmax].
  unfold u32.is_u32 in Hg. exists h2, ks. split_and!; try done; try lia.
  intros i k' Hik. rewrite <- (Hks i k' Hik). f_equal; lia.
Qed.

Lemma peek_past cfg s0 r g k p :
  ratchet_inv cfg s0 r -> u32.is_u32 g -> g < generation (ratchet_head r) ->
  peek cs r g cfg = Ok (k, p) ->
  p = Past g /\ available r g /\ chain_key s0 (Z.to_nat g) = Ok k.
Proof.
  intros Hi Hg Hlt Hp. unfold peek, past_secret_index in Hp. unfold u32.is_u32 in Hg.
  destruct (_ && _) in Hp; [done|]. destruct (_ && _) in Hp; [done|].
  assert ((g >=? generation (ratchet_head r)) = false) as E by lia. rewrite E in Hp.
  destruct (Z.leb_spec 0 (generation (ratchet_head r) - g - 1)) as [Hle|]; [|lia].
  cbn in Hp. destruct (past_secrets r !! _) as [[k'|]|] eqn:Hk; cbn in Hp; try discriminate.
  injection Hp as <- <-. split_and!; [done|split; [lia|eauto]|].
  apply (inv_past _ _ _ Hi) in Hk. rewrite <- Hk. f_equal; lia.
Qed.

Lemma consume_forward r h' sk cfg :
  consume r (Forward (generation (ratchet_head r)) h' (take (Z.to_nat (out_of_order_tolerance cfg)) sk)) cfg =
  Ok (mkDecryptionRatchet
        (take (Z.to_nat (out_of_order_tolerance cfg)) (None :: (Some <$> sk) ++ past_secrets r)) h').
Proof.
  cbn. rewrite Z.eqb_refl. cbn. rewrite push_all. do 2 f_equal.
  destruct (Z.to_nat _) as [|n]; [done|]. cbn [take]. f_equal.
  rewrite fmap_take, !take_app, take_take, length_take. f_equal; [f_equal; lia|].
  destruct (decide (length (Some <$> sk) <= n)%nat) as [Hle|Hgt].
  - f_equal. lia.
  - rewrite !(proj2 (Nat.sub_0_le _ _)) by lia. done.
Qed.

Lemma consume_past cfg r g :
  available r g -> exists r', consume r (Past g) cfg = Ok r' /\
    r' = mkDecryptionRatchet
      (<[Z.to_nat (generation (ratchet_head r) - g - 1) := None]> (past_secrets r)) (ratchet_head r).
Proof.
  intros [Hlt [k Hk]]. eexists; split; [|done]. cbn. unfold past_secret_index.
  destruct (Z.leb_spec 0 (generation (ratchet_head r) - g - 1)); [|lia]. cbn. by rewrite Hk.
Qed.

(** ** The window after a request *)

(** An occupied slot of the window after a forward move holds a skipped key or
    an occupied slot of the old window, moved back. *)
Lemma window_lookup (t : nat) (ks : list RatchetKeyMaterial) past i k :
  take t (None :: (Some <$> ks) ++ past) !! i = Some (Some k) <->
  (i < t)%nat /\ (0 < i)%nat /\
  ((i <= length ks)%nat /\ ks !! (i - 1)%nat = Some k \/
   (length ks < i)%nat /\ past !! (i - 1 - length ks)%nat = Some (Some k)).
Proof.
  rewrite lookup_take_Some. destruct i as [|i]; cbn; [naive_solver lia|].
  rewrite Nat.sub_0_r, lookup_app_Some, list_lookup_fmap, fmap_Some, length_fmap.
  split.
  - intros [[(k' & Hk & [= ->])|[Hge Hp]] Ht]; split_and!; try lia; [left|right]; split; try done;
      [apply lookup_lt_Some in Hk; lia|lia].
  - intros (Ht & _ & [[Hle Hk]|[Hlt Hp]]); (split; [|lia]); [left; eauto|right; split; [lia|done]].
Qed.

Definition window_spec (cfg : SenderRatchetConfiguration) r g r' : Prop :=
  forall x, available r' x <->
    x <> g /\ (available r x \/ generation (ratchet_head r) <= x < g) /\
    generation (ratchet_head r') - x <= out_of_order_tolerance cfg.

Lemma forward_step cfg s0 r g h' ks :
  wf_config cfg -> ratchet_inv cfg s0 r -> u32.is_u32 g -> generation (ratchet_head r) <= g ->
  Z.of_nat (length ks) = g - generation (ratchet_head r) ->
  chain s0 (Z.to_nat (g + 1)) = Ok h' -> generation h' = g + 1 -> g + 1 <= u32.MAX ->
  (forall i k', ks !! i = Some k' -> chain_key s0 (Z.to_nat g - 1 - i) = Ok k') ->
  let r' := mkDecryptionRatchet
    (take (Z.to_nat (out_of_order_tolerance cfg)) (None :: (Some <$> ks) ++ past_secrets r)) h' in
  ratchet_inv cfg s0 r' /\ window_spec cfg r g r'.
Proof.
  intros [[Ht _] _] Hi [Hg _] Hle Hl Hch Hgen Hmax Hks r'.
  pose proof (inv_gen _ _ _ Hi) as Hb. pose proof (inv_len _ _ _ Hi) as Hln.
  assert (length (past_secrets r') =
          Z.to_nat (out_of_order_tolerance cfg) `min` S (length ks + length (past_secrets r)))%nat as Hlen.
  { unfold r'. cbn [past_secrets]. rewrite length_take. cbn. by rewrite length_app, length_fmap. }
  split.
  - split; try (cbn [ratchet_head r']; rewrite Hgen); try done; try lia.
    intros i k Hk. unfold r' in Hk. cbn [past_secrets] in Hk.
    apply window_lookup in Hk as (_ & Hp & [[_ Hk]|[Hlt Hk]]).
    + apply Hks in Hk. rewrite <- Hk. f_equal; lia.
    + apply (inv_past _ _ _ Hi) in Hk as Hk'. apply lookup_lt_Some in Hk.
      rewrite <- Hk'. f_equal; lia.
  - intros x. unfold available, r'. cbn [ratchet_head past_secrets]. rewrite Hgen. split.
    + intros [Hx [k Hk]]. apply window_lookup in Hk as (Hti & Hp & [[Hk1 Hk2]|[Hlt Hk]]).
      * split; [lia|]. split; [right; lia|lia].
      * split; [lia|]. split; [left|lia]. apply lookup_lt_Some in Hk as Hk1. split; [lia|].
        exists k. rewrite <- Hk. f_equal; lia.
    + intros (Hne & [[Hx [k Hk]]|Hx] & Htol); (split; [lia|]).
      * exists k. apply window_lookup. split_and!; try lia. right. split; [lia|].
        rewrite <- Hk. f_equal; lia.
      * destruct (lookup_lt_is_Some_2 ks (Z.to_nat (g - x - 1))) as [k Hk]; [lia|].
        exists k. apply window_lookup. split_and!; try lia. left. split; [lia|].
        rewrite <- Hk. f_equal; lia.
Qed.

Lemma past_step cfg s0 r g :
  ratchet_inv cfg s0 r -> available r g ->
  let r' := mkDecryptionRatchet
    (<[Z.to_nat (generation (ratchet_head r) - g - 1) := None]> (past_secrets r)) (ratchet_head r) in
  ratchet_inv cfg s0 r' /\ window_spec cfg r g r'.
Proof.
  intros Hi [Hg [kg Hkg]] r'. pose proof (inv_tol _ _ _ Hi). split.
  - split; unfold r'; cbn [ratchet_head past_secrets]; rewrite ?length_insert; try apply Hi.
    intros i k Hk. apply (inv_past _ _ _ Hi).
    apply list_lookup_insert_Some in Hk as [(_ & [=] & _)|[_ Hk]]. done.
  - intros x. unfold available, r'. cbn [ratchet_head past_secrets]. split.
    + intros [Hx [k Hk]]. apply list_lookup_insert_Some in Hk as [(_ & [=] & _)|[Hne Hk]].
      apply lookup_lt_Some in Hk as Hlt.
      split; [intros ->; done|]. split; [left; eauto|lia].
    + intros (Hne & [[Hx [k Hk]]|Hx] & Htol); [|lia]. split; [lia|]. exists k.
      rewrite list_lookup_insert_ne; [done|lia].
Qed.

(** ** Peeked generations

    What a peeked generation records stays true while the ratchet moves on: it
    mentions only the chain and the head it was computed from. *)
Definition valid_peeked (cfg : SenderRatchetConfiguration) s0 r g (k : RatchetKeyMaterial)
    (p : PeekedGeneration) : Prop :=
  u32.is_u32 g /\ chain_key s0 (Z.to_nat g) = Ok k /\
  match p with
  | Past g' => g' = g
  | Forward from_head h' sk =>
      from_head <= generation (ratchet_head r) /\ from_head <= g /\
      exists ks, sk = take (Z.to_nat (out_of_order_tolerance cfg)) ks /\
        Z.of_nat (length ks) = g - from_head /\
        chain s0 (Z.to_nat (g + 1)) = Ok h' /\ generation h' = g + 1 /\ g + 1 <= u32.MAX /\
        forall i k', ks !! i = Some k' -> chain_key s0 (Z.to_nat g - 1 - i) = Ok k'
  end.

Lemma valid_peeked_mono cfg s0 r r' g k p :
  generation (ratchet_head r) <= generation (ratchet_head r') ->
  valid_peeked cfg s0 r g k p -> valid_peeked cfg s0 r' g k p.
Proof. intros Hle (Hg & Hk & Hp). split_and!; [done..|]. destruct p; naive_solver lia. Qed.

Lemma peek_valid cfg s0 r g k p :
  wf_config cfg -> generation s0 = 0 -> ratchet_inv cfg s0 r -> u32.is_u32 g ->
  peek cs r g cfg = Ok (k, p) -> valid_peeked cfg s0 r g k p.
Proof.
  intros Hc H0 Hi Hg Hp.
  destruct (Z.le_gt_cases (generation (ratchet_head r)) g) as [Hle|Hlt].
  - destruct (peek_forward _ _ _ _ _ _ Hc H0 Hi Hg Hle Hp)
      as (h' & ks & -> & Hl & Hch & Hgen & Hmax & Hk & Hks).
    split_and!; [done..|lia|done|]. exists ks. by split_and!.
  - destruct (peek_past _ _ _ _ _ _ Hi Hg Hlt Hp) as (-> & Hav & Hk). by split_and!.
Qed.

(** The generations that can still be requested. *)
Definition fresh r g : Prop := available r g \/ generation (ratchet_head r) <= g.

Lemma consume_past_available r g cfg r' :
  0 <= g -> consume r (Past g) cfg = Ok r' -> available r g.
Proof.
  intros Hg H. cbn in H. unfold past_secret_index in H.
  destruct (Z.leb_spec 0 (generation (ratchet_head r) - g - 1)); cbn in H; [|done].
  destruct (past_secrets r !! _) as [[k|]|] eqn:Hk; cbn in H; try done.
  split; [lia|eauto].
Qed.

(** A successful [consume] keeps the invariant and changes the window as
    specified, no matter when the generation was peeked. *)
Lemma consume_step cfg s0 r g k p r' :
  wf_config cfg -> ratchet_inv cfg s0 r -> valid_peeked cfg s0 r g k p ->
  consume r p cfg = Ok r' ->
  fresh r g /\ ratchet_inv cfg s0 r' /\ window_spec cfg r g r' /\
  generation (ratchet_head r') = Z.max (generation (ratchet_head r)) (g + 1).
Proof.
  intros Hc Hi (Hg & Hk & Hp) H. destruct p as [from h' sk|g'].
  - destruct Hp as (_ & Hle & ks & -> & Hl & Hch & Hgen & Hmax & Hks).
    destruct (Z.eq_dec from (generation (ratchet_head r))) as [->|Hne].
    + rewrite consume_forward in H. injection H as <-.
      destruct (forward_step cfg s0 r g h' ks) as [H1 H2]; [done..|].
      split_and!; [by right|done..|]. cbn. lia.
    + cbn in H. by rewrite (proj2 (Z.eqb_neq _ _) Hne) in H.
  - subst g'. assert (available r g) as Hav by (apply (consume_past_available _ _ _ _ (proj1 Hg) H)).
    destruct (consume_past cfg r g Hav) as (r1 & Hr1 & ->). rewrite Hr1 in H. injection H as <-.
    destruct (past_step cfg s0 r g Hi Hav) as [H1 H2].
    split_and!; [by left|done..|]. destruct Hav as [Hlt _]. cbn. lia.
Qed.

Lemma fresh_after cfg r g r' x :
  window_spec cfg r g r' ->
  generation (ratchet_head r') = Z.max (generation (ratchet_head r)) (g + 1) ->
  fresh r' x -> fresh r x /\ x <> g.
Proof.
  intros Hw Hg [Hx|Hx].
  - apply Hw in Hx as (Hne & [Hx|Hx] & _); split; [by left|done|right; lia|done].
  - split; [right|]; lia.
Qed.

(** ** Sessions

    Requests in any order: a generation is peeked, and each pending change is
    consumed at any later time, or never. *)
Inductive event : Type := EPeek (g : Z) | EConsume (i : nat).

Abbreviation pending := (list (Z * RatchetKeyMaterial * PeekedGeneration)).

(** The generations used in a session, with their key material. *)
Fixpoint session (cfg : SenderRatchetConfiguration) r (pend : pending) (evs : list event) :
    list (Z * RatchetKeyMaterial) :=
  match evs with
  | [] => []
  | EPeek g :: evs' =>
      match peek cs r g cfg with
      | Ok (k, p) => session cfg r (pend ++ [(g, k, p)]) evs'
      | _ => session cfg r pend evs'
      end
  | EConsume i :: evs' =>
      match pend !! i with
      | Some (g, k, p) =>
          match consume r p cfg with
          | Ok r' => (g, k) :: session cfg r' pend evs'
          | _ => session cfg r pend evs'
          end
      | None => session cfg r pend evs'
      end
  end.

Definition wf_event (e : event) : Prop :=
  match e with EPeek g => u32.is_u32 g | EConsume _ => True end.

Lemma session_correct cfg s0 r pend evs :
  wf_config cfg -> generation s0 = 0 -> ratchet_inv cfg s0 r ->
  Forall (fun x => valid_peeked cfg s0 r x.1.1 x.1.2 x.2) pend -> Forall wf_event evs ->
  NoDup (session cfg r pend evs).*1 /\
  Forall (fun gk => fresh r gk.1 /\ chain_key s0 (Z.to_nat gk.1) = Ok gk.2) (session cfg r pend evs).
Proof.
  intros Hc H0. revert r pend; induction evs as [|[g|i] evs IH]; intros r pend Hi Hp Hw;
    inversion_clear Hw as [|? ? He Hw']; cbn [session].
  - split; constructor.
  - destruct (peek cs r g cfg) as [[k p]| |] eqn:Hpk; [|by apply IH..].
    apply IH; [done| |done]. apply Forall_app; split; [done|]. apply Forall_singleton.
    by apply peek_valid.
  - destruct (pend !! i) as [[[g k] p]|] eqn:Hl; [|by apply IH].
    destruct (consume r p cfg) as [r'| |] eqn:Hcs; [|by apply IH..].
    pose proof (Forall_lookup_1 _ _ _ _ Hp Hl) as Hv. cbn in Hv.
    destruct (consume_step _ _ _ _ _ _ _ Hc Hi Hv Hcs) as (Hf & Hi' & Hws & Hgen).
    destruct (IH r' pend) as [Hnd Hall]; [done| |done|].
    { eapply Forall_impl; [exact Hp|]. intros x. apply valid_peeked_mono. lia. }
    split; [|constructor; [by destruct Hv as (_ & ? & _)|]].
    + apply NoDup_cons. split; [|done]. intros ([g' k'] & Heq & Hin)%list_elem_of_fmap.
      rewrite Forall_forall in Hall. destruct (Hall _ Hin) as [Hfr _].
      by destruct (fresh_after _ _ _ _ _ Hws Hgen Hfr) as [_ Hne].
    + eapply Forall_impl; [exact Hall|]. intros x [Hfr Hk]. split; [|done].
      by destruct (fresh_after _ _ _ _ _ Hws Hgen Hfr).
Qed.

(** ** Totality *)

Lemma derive_tree_secret_total `{!LawfulKdf} sec label g len :
  Z.of_nat (String.length label) < 2 ^ 20 -> 0 < len <= 255 ->
  exists out, derive_tree_secret cs sec label g len = Ok out /\ Z.of_nat (length out) = len.
Proof.
  intros Hl Hlen. unfold derive_tree_secret.
  destruct (kdf_expand_label_total cs sec label (be_bytes 4 g) len) as (out & -> & Ho); [done| |done|].
  - by rewrite be_bytes_length.
  - eauto.
Qed.

Lemma forward_total `{!LawfulKdf} h :
  generation h <> u32.MAX -> exists k h', forward h = Ok ((generation h, k), h').
Proof.
  intros Hne. unfold ratchet_forward. rewrite (proj2 (Z.eqb_neq _ _) Hne).
  destruct (derive_tree_secret_total (secret h) "nonce" (generation h) (Suite.aead_nonce_length cs))
    as (nonce & -> & Hn); [done|by destruct cs|].
  destruct (derive_tree_secret_total (secret h) "key" (generation h) (Suite.aead_key_length cs))
    as (key & -> & Hk); [done|by destruct cs|].
  destruct (derive_tree_secret_total (secret h) "secret" (generation h) (Suite.hash_length cs))
    as (sec & -> & Hs); [done|by destruct cs|].
  cbn. unfold AeadNonce_from_secret. rewrite Hn.
  replace (Suite.aead_nonce_length cs) with NONCE_BYTES by (by destruct cs). cbn. eauto.
Qed.

Lemma skip_forward_total `{!LawfulKdf} tol n h sk :
  0 <= generation h -> generation h + Z.of_nat n <= u32.MAX ->
  exists h' sk', skip_forward cs tol n h sk = Ok (h', sk') /\
    generation h' = generation h + Z.of_nat n.
Proof.
  revert h sk; induction n as [|n IH]; intros h sk H0 Hb; cbn.
  - exists h, sk. split; [done|lia].
  - destruct (forward_total h) as (k & h' & Hf); [lia|]. rewrite Hf. cbn.
    apply forward_generation in Hf as (_ & Hg & _); [|lia].
    destruct (IH h' (take (Z.to_nat tol) (k :: sk))) as (h2 & sk2 & Hs & Hg2); [lia..|].
    exists h2, sk2. split; [done|lia].
Qed.

(** ** Bounds *)

Lemma too_far cfg s0 r g :
  wf_config cfg -> ratchet_inv cfg s0 r -> u32.is_u32 g ->
  let n := generation (ratchet_head r) in
  (n <? (u32.MAX - maximum_forward_distance cfg)%u32)
    && (g >? (n + maximum_forward_distance cfg)%u32)
  = (n + maximum_forward_distance cfg <? g).
Proof.
  intros [_ [Hf1 Hf2]] Hi [Hg1 Hg2] n. pose proof (inv_gen _ _ _ Hi) as Hb. fold n in Hb.
  unfold u32.add, u32.sub, u32.MAX in *. rewrite u32.modulus_eq in *.
  rewrite (u32.wrap_small (_ - 1 - _)) by (unfold u32.is_u32; rewrite u32.modulus_eq; lia).
  destruct (Z.ltb_spec n (4294967296 - 1 - maximum_forward_distance cfg)); cbn [andb]; [|lia].
  rewrite u32.wrap_small by (unfold u32.is_u32; rewrite u32.modulus_eq; lia). lia.
Qed.

Lemma too_old cfg s0 r g :
  ratchet_inv cfg s0 r -> u32.is_u32 g ->
  let n := generation (ratchet_head r) in
  (g <? n) && ((n - g)%u32 >? out_of_order_tolerance cfg)
  = (g <? n) && (g <? n - out_of_order_tolerance cfg).
Proof.
  intros Hi [Hg1 Hg2] n. pose proof (inv_gen _ _ _ Hi) as Hb. fold n in Hb.
  destruct (Z.ltb_spec g n); cbn [andb]; [|done]. unfold u32.sub.
  rewrite u32.wrap_small; [lia|]. unfold u32.is_u32, u32.MAX in *. lia.
Qed.

(** What [peek] answers for each generation, with the errors the source gives. *)
Definition peek_spec (cfg : SenderRatchetConfiguration) s0 r g
    (res : result SecretTreeError (RatchetKeyMaterial * PeekedGeneration)) : Prop :=
  let n := generation (ratchet_head r) in
  if n + maximum_forward_distance cfg <? g then res = Err TooDistantInTheFuture
  else if n <=? g then
    if g =? u32.MAX then res = Err RatchetTooLong
    else exists k h' sk, res = Ok (k, Forward n h' sk) /\ chain_key s0 (Z.to_nat g) = Ok k
  else if g <? n - out_of_order_tolerance cfg then res = Err TooDistantInThePast
  else match past_secrets r !! Z.to_nat (n - g - 1) with
       | Some (Some k) => res = Ok (k, Past g) /\ chain_key s0 (Z.to_nat g) = Ok k
       | Some None => res = Err SecretReuseError
       | None => res = Err IndexOutOfBounds
       end.

Lemma peek_at_max `{!LawfulKdf} h tol n :
  0 <= generation h -> generation h + Z.of_nat n = u32.MAX ->
  ('(h1, sk) ← skip_forward cs tol n h []; '((_, k), h2) ← forward h1;
   Ok (k, Forward (generation h) h2 sk)) = Err RatchetTooLong.
Proof.
  intros H0 Hn. destruct (skip_forward_total tol n h []) as (h1 & sk & -> & Hg); [lia..|].
  cbn. unfold ratchet_forward. rewrite Hg, Hn, Z.eqb_refl. done.
Qed.

Lemma peek_total `{!LawfulKdf} h tol n :
  0 <= generation h -> generation h + Z.of_nat n < u32.MAX ->
  exists k h2 sk, ('(h1, sk) ← skip_forward cs tol n h []; '((_, k), h2) ← forward h1;
   Ok (k, Forward (generation h) h2 sk)) = Ok (k, Forward (generation h) h2 sk).
Proof.
  intros H0 Hn. destruct (skip_forward_total tol n h []) as (h1 & sk & -> & Hg); [lia..|].
  cbn. destruct (forward_total h1) as (k & h2 & ->); [lia|]. cbn. eauto.
Qed.

Lemma peek_meets_spec `{!LawfulKdf} cfg s0 r g :
  wf_config cfg -> generation s0 = 0 -> ratchet_inv cfg s0 r -> u32.is_u32 g ->
  peek_spec cfg s0 r g (peek cs r g cfg).
Proof.
  intros Hc H0 Hi Hg. pose proof (inv_gen _ _ _ Hi) as Hb.
  assert (forall k p, peek cs r g cfg = Ok (k, p) -> chain_key s0 (Z.to_nat g) = Ok k) as Hkey.
  { intros k p Hp. by destruct (peek_valid _ _ _ _ _ _ Hc H0 Hi Hg Hp) as (_ & ? & _). }
  unfold peek_spec, peek in *. rewrite (too_far cfg s0), (too_old cfg s0) in * by done.
  destruct (Z.ltb_spec (generation (ratchet_head r) + maximum_forward_distance cfg) g); [done|].
  rewrite Z.geb_leb in *. destruct Hg as [Hg1 Hg2].
  destruct (Z.leb_spec (generation (ratchet_head r)) g) as [Hle|Hlt].
  - rewrite (proj2 (Z.ltb_ge _ _) Hle) in *. cbn [andb] in *.
    rewrite (bounds_small cfg r g s0) in * by done.
    destruct (Z.eqb_spec g u32.MAX) as [->|Hne].
    + apply peek_at_max; lia.
    + destruct (peek_total (ratchet_head r) (out_of_order_tolerance cfg)
                  (Z.to_nat (g - generation (ratchet_head r)))) as (k & h2 & sk & E);
        [lia|unfold u32.MAX in *; lia|].
      rewrite E in *. exists k, h2, sk. eauto.
  - rewrite (proj2 (Z.ltb_lt _ _) Hlt) in *. cbn [andb] in *.
    destruct (Z.ltb_spec g (generation (ratchet_head r) - out_of_order_tolerance cfg)); [done|].
    unfold past_secret_index in *.
    rewrite (proj2 (Z.leb_le 0 (generation (ratchet_head r) - g - 1))) in * by lia. cbn in *.
    destruct (past_secrets r !! _) as [[k|]|]; cbn in *; eauto.
Qed.

(** The window after a [Forward] consume, for a generation that was peeked on
    the same ratchet. *)
Lemma decrypt_step cfg s0 r g k r' :
  wf_config cfg -> generation s0 = 0 -> ratchet_inv cfg s0 r -> u32.is_u32 g ->
  decrypt r g cfg = Ok (k, r') ->
  chain_key s0 (Z.to_nat g) = Ok k /\ fresh r g /\ ratchet_inv cfg s0 r' /\ window_spec cfg r g r' /\
  generation (ratchet_head r') = Z.max (generation (ratchet_head r)) (g + 1).
Proof.
  intros Hc H0 Hi Hg Hd. apply bind_Ok in Hd as ([k1 p] & Hp & Hd).
  apply bind_Ok in Hd as (r1 & Hcs & Hd). injection Hd as -> ->.
  pose proof (peek_valid _ _ _ _ _ _ Hc H0 Hi Hg Hp) as Hv.
  split; [apply Hv|]. by apply (consume_step _ _ _ _ _ _ _ Hc Hi Hv).
Qed.
End Facts.

(** ** Properties *)

Import Toy.

(** A ratchet that has served the generations [gs], in that order. *)
Fixpoint served {OC : OpenMlsCrypto} {TC : TlsCodec} (cs : Ciphersuite)
    (cfg : SenderRatchetConfiguration) (r : DecryptionRatchet) (gs : list Z) :
    option DecryptionRatchet :=
  match gs with
  | [] => Some r
  | g :: gs' =>
      match ratchet_secret_for_decryption cs r g cfg with
      | Ok (_, r') => served cs cfg r' gs'
      | _ => None
      end
  end.

Lemma served_inv {OC : OpenMlsCrypto} {TC : TlsCodec} cs cfg s0 r gs r' :
  wf_config cfg -> generation s0 = 0 -> ratchet_inv cs cfg s0 r -> Forall u32.is_u32 gs ->
  served cs cfg r gs = Some r' -> ratchet_inv cs cfg s0 r'.
Proof.
  intros Hc H0 Hi Hg. revert r Hi; induction Hg as [|g gs Hg _ IH]; intros r Hi H; cbn in H.
  - by simplify_eq.
  - destruct (ratchet_secret_for_decryption cs r g cfg) as [[k r1]| |] eqn:Hd; try done.
    apply (IH r1); [|done]. by apply (decrypt_step _ _ _ _ _ _ _ Hc H0 Hi Hg Hd).
Qed.

Definition toy_cfg : SenderRatchetConfiguration := mkConfiguration 3 10.
(** Whatever the order in which generations are peeked and the pending
    changes are consumed, stale ones included, a decryption ratchet lets every
    generation be used at most once, and always with the key material that the
    sender's own ratchet outputs at that generation. *)
Theorem ratchet_no_reuse {OC : OpenMlsCrypto} {TC : TlsCodec} cs cfg sec evs :
  wf_config cfg -> Forall wf_event evs ->
  let used := session cs cfg (DecryptionRatchet_new sec) [] evs in
  NoDup used.*1 /\
  Forall (fun gk => chain_key cs (initial_ratchet_secret sec) (Z.to_nat gk.1) = Ok gk.2) used.
Proof.
  intros Hc Hw. edestruct (session_correct cs cfg (initial_ratchet_secret sec)) as [H1 H2];
    [done|done|by apply ratchet_inv_new|constructor|exact Hw|].
  split; [exact H1|]. eapply Forall_impl; [exact H2|]. by intros x [_ ?].
Qed.

Lemma ratchet_no_reuse_witness :
  let evs := [EPeek 4; EPeek 2; EConsume 0; EConsume 1; EPeek 3; EConsume 0; EConsume 2; EPeek 3] in
  let used := session toy_cs toy_cfg (DecryptionRatchet_new toy_secret) [] evs in
  used.*1 = [4; 3] /\ NoDup used.*1.
Proof.
  intros evs used. split; [vm_compute; reflexivity|].
  apply (ratchet_no_reuse toy_cs toy_cfg toy_secret evs); [by vm_compute|repeat constructor; by vm_compute].
Defined.

(** Once a request for a generation succeeds, exactly these past
    generations stay available: those that were available or that the request
    skipped, other than the requested one, and that are within the
    out-of-order tolerance of the new head. *)
Theorem ratchet_window {OC : OpenMlsCrypto} {TC : TlsCodec} cs cfg sec gs r g k r' :
  wf_config cfg -> Forall u32.is_u32 gs -> u32.is_u32 g ->
  served cs cfg (DecryptionRatchet_new sec) gs = Some r ->
  ratchet_secret_for_decryption cs r g cfg = Ok (k, r') ->
  generation (ratchet_head r') = Z.max (generation (ratchet_head r)) (g + 1) /\
  Z.of_nat (length (past_secrets r')) <= out_of_order_tolerance cfg /\
  forall x, available r' x <->
    x <> g /\ (available r x \/ generation (ratchet_head r) <= x < g) /\
    generation (ratchet_head r') - x <= out_of_order_tolerance cfg.
Proof.
  intros Hc Hgs Hg Hs Hd.
  assert (ratchet_inv cs cfg (initial_ratchet_secret sec) r) as Hi
    by (eapply served_inv; [done| |by apply ratchet_inv_new|done|done]; done).
  destruct (decrypt_step cs cfg (initial_ratchet_secret sec) r g k r' Hc eq_refl Hi Hg Hd) as (_ & _ & Hi' & Hw & Hgen).
  split_and!; [done|apply Hi'|done].
Qed.

(** The ratchet of a run that served generations 4, 3 and then 6. *)
Definition toy_ratchet : DecryptionRatchet :=
  Eval vm_compute in
    default (DecryptionRatchet_new toy_secret)
      (served toy_cs toy_cfg (DecryptionRatchet_new toy_secret) [4; 3]).
Definition toy_next : RatchetKeyMaterial * DecryptionRatchet :=
  Eval vm_compute in
    match ratchet_secret_for_decryption toy_cs toy_ratchet 6 toy_cfg with
    | Ok x => x
    | _ => ((mkAeadKey Aes128Gcm [], []), toy_ratchet)
    end.

Lemma toy_ratchet_served :
  served toy_cs toy_cfg (DecryptionRatchet_new toy_secret) [4; 3] = Some toy_ratchet.
Proof. vm_compute. reflexivity. Qed.

Lemma toy_next_eq :
  ratchet_secret_for_decryption toy_cs toy_ratchet 6 toy_cfg = Ok (toy_next.1, toy_next.2).
Proof. vm_compute. reflexivity. Qed.

Lemma ratchet_window_witness : available toy_next.2 5 /\ ~ available toy_next.2 3.
Proof.
  destruct (ratchet_window toy_cs toy_cfg toy_secret [4; 3] toy_ratchet 6 toy_next.1 toy_next.2)
    as (Hg & _ & Hx);
    [by vm_compute|repeat constructor; by vm_compute|by vm_compute|exact toy_ratchet_served
    |exact toy_next_eq|].
  split.
  - apply Hx. split_and!; [lia|right; cbn; lia|cbn; lia].
  - intros (_ & _ & H)%Hx. cbn in H. lia.
Defined.

(** The answer of [peek] for every generation, errors included: too far
    ahead, too far behind, ratchet exhausted, already used, never stored, or
    the key material of the sender's chain.  A request at or ahead of the
    head and inside the forward distance succeeds up to the last generation,
    and no request walks the chain further than that distance. *)
Theorem peek_outcome {OC : OpenMlsCrypto} {TC : TlsCodec} {LK : LawfulKdf} cs cfg sec gs r g :
  wf_config cfg -> Forall u32.is_u32 gs -> u32.is_u32 g ->
  served cs cfg (DecryptionRatchet_new sec) gs = Some r ->
  peek_spec cs cfg (initial_ratchet_secret sec) r g (peek cs r g cfg).
Proof.
  intros Hc Hgs Hg Hs.
  assert (ratchet_inv cs cfg (initial_ratchet_secret sec) r) as Hi
    by (eapply served_inv; [done| |by apply ratchet_inv_new|done|done]; done).
  by apply (peek_meets_spec cs cfg (initial_ratchet_secret sec) r g Hc eq_refl Hi).
Qed.

Lemma peek_outcome_witness :
  peek_spec toy_cs toy_cfg (initial_ratchet_secret toy_secret) toy_ratchet 2
    (peek toy_cs toy_ratchet 2 toy_cfg).
Proof.
  apply (peek_outcome toy_cs toy_cfg toy_secret [4; 3]);
    [by vm_compute|repeat constructor; by vm_compute|by vm_compute|exact toy_ratchet_served].
Defined.
