(* ===== verification/SecretTree.v ===== *)
(** * The secret tree

    Models openmls/src/tree/secret_tree.rs without the virtual-clients-draft
    feature: the tree of encryption secrets of an epoch, from which the sender
    ratchets of the members are derived on demand. *)
From S2P Require Import Prelude TreeMath Crypto SenderRatchet.

Inductive SecretType : Type := HandshakeSecret | ApplicationSecret.
Inductive ContentType : Type := ContentApplication | ContentProposal | ContentCommit.

#[export] Instance SecretType_eq_dec : EqDecision SecretType.
Proof. solve_decision. Defined.
#[export] Instance content_type_eq_dec : EqDecision ContentType.
Proof. solve_decision. Defined.

Definition SecretType_from (content_type : ContentType) : SecretType :=
  match content_type with
  | ContentApplication => ApplicationSecret
  | ContentCommit => HandshakeSecret
  | ContentProposal => HandshakeSecret
  end.

Inductive DecryptionSecret : Type := Available (ratchet_key_material : RatchetKeyMaterial).

Inductive PeekedRatchetGeneration : Type := Decryption (peeked : PeekedGeneration).

Record PendingRatchetUpdate : Type := mkUpdate {
  update_index : LeafNodeIndex.t;
  update_secret_type : SecretType;
  update_peeked : PeekedRatchetGeneration;
}.

Record SecretTreeNode : Type := mkSecretTreeNode { node_secret : Secret }.

Record SecretTree : Type := mkSecretTree {
  own_index : LeafNodeIndex.t;
  st_leaf_nodes : list (option SecretTreeNode);
  st_parent_nodes : list (option SecretTreeNode);
  handshake_sender_ratchets : list (option SenderRatchet);
  application_sender_ratchets : list (option SenderRatchet);
  st_size : TreeSize.t;
}.

Module STree.
Definition get_node (self : SecretTree) (index : TreeNodeIndex) :
    result SecretTreeError (option SecretTreeNode) :=
  match index with
  | Leaf leaf_index => ok_or (get_at (st_leaf_nodes self) leaf_index) IndexOutOfBounds
  | Parent parent_index => ok_or (get_at (st_parent_nodes self) parent_index) IndexOutOfBounds
  end.

Definition set_node (index : TreeNodeIndex) (node : option SecretTreeNode) :
    stateful SecretTree SecretTreeError unit :=
  updating (fun self =>
    match index with
    | Leaf leaf_index =>
        _ ← ok_or (get_at (st_leaf_nodes self) leaf_index) IndexOutOfBounds;
        Ok (tt, mkSecretTree (own_index self) (set_at (st_leaf_nodes self) leaf_index node)
                  (st_parent_nodes self) (handshake_sender_ratchets self)
                  (application_sender_ratchets self) (st_size self))
    | Parent parent_index =>
        _ ← ok_or (get_at (st_parent_nodes self) parent_index) IndexOutOfBounds;
        Ok (tt, mkSecretTree (own_index self) (st_leaf_nodes self)
                  (set_at (st_parent_nodes self) parent_index node) (handshake_sender_ratchets self)
                  (application_sender_ratchets self) (st_size self))
    end).

Definition sender_ratchets (self : SecretTree) (secret_type : SecretType) :
    list (option SenderRatchet) :=
  match secret_type with
  | HandshakeSecret => handshake_sender_ratchets self
  | ApplicationSecret => application_sender_ratchets self
  end.

Definition ratchet_opt (self : SecretTree) (index : LeafNodeIndex.t) (secret_type : SecretType) :
    result SecretTreeError (option SenderRatchet) :=
  match get_at (sender_ratchets self secret_type) index with
  | Some sender_ratchet_option => Ok sender_ratchet_option
  | None => Err IndexOutOfBounds
  end.

(** [ratchet_mut]: reading the ratchet, and writing it back. *)
Definition ratchet_mut (self : SecretTree) (index : LeafNodeIndex.t) (secret_type : SecretType) :
    result SecretTreeError SenderRatchet :=
  ok_or (get_at (sender_ratchets self secret_type) index ≫= id) IndexOutOfBounds.

Definition set_ratchet (index : LeafNodeIndex.t) (secret_type : SecretType) (ratchet : SenderRatchet) :
    stateful SecretTree SecretTreeError unit :=
  updating (fun self =>
    _ ← ok_or (get_at (sender_ratchets self secret_type) index) IndexOutOfBounds;
    Ok (tt,
      match secret_type with
      | HandshakeSecret =>
          mkSecretTree (own_index self) (st_leaf_nodes self) (st_parent_nodes self)
            (set_at (handshake_sender_ratchets self) index (Some ratchet))
            (application_sender_ratchets self) (st_size self)
      | ApplicationSecret =>
          mkSecretTree (own_index self) (st_leaf_nodes self) (st_parent_nodes self)
            (handshake_sender_ratchets self)
            (set_at (application_sender_ratchets self) index (Some ratchet)) (st_size self)
      end)).

(** The nodes of the path up to and including the first one with a secret. *)
Fixpoint collect_empty (self : SecretTree) (path : list ParentNodeIndex.t) :
    result SecretTreeError (list ParentNodeIndex.t) :=
  match path with
  | [] => Ok []
  | parent_node :: path' =>
      node ← get_node self (Parent parent_node);
      match node with
      | Some _ => Ok [parent_node]
      | None => rest ← collect_empty self path'; Ok (parent_node :: rest)
      end
  end.

Definition new (encryption_secret : Secret) (size : TreeSize.t) (own_index : LeafNodeIndex.t) :
    SecretTree :=
  let leaf_count := Z.to_nat (TreeSize.leaf_count size) in
  (set_node (root size) (Some (mkSecretTreeNode encryption_secret))
     (mkSecretTree own_index (replicate leaf_count None) (replicate leaf_count None)
        (replicate leaf_count None) (replicate leaf_count None) size)).2.

Section Ops.
Context {OC : OpenMlsCrypto} {TC : TlsCodec}.
Context (ciphersuite : Ciphersuite).

Definition derive_child_secrets (parent_secret : Secret) : result CryptoError (Secret * Secret) :=
  left_child ← kdf_expand_label parent_secret ciphersuite "tree" (bytes_of_string "left")
                 (Suite.hash_length ciphersuite);
  right_child ← kdf_expand_label parent_secret ciphersuite "tree" (bytes_of_string "right")
                  (Suite.hash_length ciphersuite);
  Ok (left_child, right_child).

Definition derive_down (index_in_tree : ParentNodeIndex.t) : stateful SecretTree SecretTreeError unit :=
  node ← reading (fun self => get_node self (Parent index_in_tree));
  match node with
  | None => lifting (Err SecretTreeLibraryError)
  | Some node =>
      let left_index := left index_in_tree in
      let right_index := right index_in_tree in
      '(left_secret, right_secret) ←
        lifting (map_err SecretTreeCryptoError (derive_child_secrets (node_secret node)));
      _ ← set_node left_index (Some (mkSecretTreeNode left_secret));
      _ ← set_node right_index (Some (mkSecretTreeNode right_secret));
      set_node (Parent index_in_tree) None
  end.

(** The part of [initialize_sender_ratchets] that derives the leaf secret. *)
Definition derive_leaf (index : LeafNodeIndex.t) : stateful SecretTree SecretTreeError unit :=
  node ← reading (fun self => get_node self (Leaf index));
  match node with
  | Some _ => mret tt
  | None =>
      empty_nodes ← reading (fun self =>
        path ← returns (direct_path index (st_size self));
        collect_empty self path);
      for_each derive_down (rev empty_nodes)
  end.

(** The part that turns the leaf secret into the two ratchets. *)
Definition install_ratchets (index : LeafNodeIndex.t) : stateful SecretTree SecretTreeError unit :=
  node ← reading (fun self => get_node self (Leaf index));
  match node with
  | None => lifting (Err SecretTreeLibraryError)
  | Some node =>
      handshake_ratchet_secret ← lifting (map_err SecretTreeCryptoError
        (kdf_expand_label (node_secret node) ciphersuite "handshake" [] (Suite.hash_length ciphersuite)));
      application_ratchet_secret ← lifting (map_err SecretTreeCryptoError
        (kdf_expand_label (node_secret node) ciphersuite "application" [] (Suite.hash_length ciphersuite)));
      self ← reading Ok;
      let wrap (s : Secret) :=
        if index =? own_index self then EncryptionRatchet (initial_ratchet_secret s)
        else DecryptionRatchetOf (DecryptionRatchet_new s) in
      _ ← set_ratchet index HandshakeSecret (wrap handshake_ratchet_secret);
      _ ← set_ratchet index ApplicationSecret (wrap application_ratchet_secret);
      set_node (Leaf index) None
  end.

Definition initialize_sender_ratchets (index : LeafNodeIndex.t) :
    stateful SecretTree SecretTreeError unit :=
  self ← reading Ok;
  if index >=? TreeSize.leaf_count (st_size self) then lifting (Err IndexOutOfBounds)
  else
    initialized ← lifting (
      handshake ← ratchet_opt self index HandshakeSecret;
      match handshake with
      | None => Ok false
      | Some _ =>
          application ← ratchet_opt self index ApplicationSecret;
          Ok (bool_decide (is_Some application))
      end);
    if (initialized : bool) then mret tt
    else
      _ ← derive_leaf index;
      install_ratchets index.

(** [if self.ratchet_opt(..)?.is_none() { self.initialize_sender_ratchets(..)? }] *)
Definition ensure_ratchets (index : LeafNodeIndex.t) (secret_type : SecretType) :
    stateful SecretTree SecretTreeError unit :=
  ratchet ← reading (fun self => ratchet_opt self index secret_type);
  match ratchet with
  | None => initialize_sender_ratchets index
  | Some _ => mret tt
  end.

Definition prepare_decryption (index : LeafNodeIndex.t) (secret_type : SecretType) (generation : Z)
    (configuration : SenderRatchetConfiguration) :
    stateful SecretTree SecretTreeError (DecryptionSecret * option PendingRatchetUpdate) :=
  self ← reading Ok;
  if index >=? TreeSize.leaf_count (st_size self) then lifting (Err IndexOutOfBounds)
  else
    _ ← ensure_ratchets index secret_type;
    ratchet ← reading (fun self => ratchet_mut self index secret_type);
    match ratchet with
    | EncryptionRatchet _ => lifting (Err RatchetTypeError)
    | DecryptionRatchetOf dec_ratchet =>
        '(ratchet_key_material, peeked) ←
          lifting (peek ciphersuite dec_ratchet generation configuration);
        mret (Available ratchet_key_material,
              Some (mkUpdate index secret_type (Decryption peeked)))
    end.

Definition apply_decryption_update (update : PendingRatchetUpdate)
    (configuration : SenderRatchetConfiguration) : stateful SecretTree SecretTreeError unit :=
  ratchet ← reading (fun self => ratchet_mut self (update_index update) (update_secret_type update));
  match ratchet, update_peeked update with
  | DecryptionRatchetOf dec_ratchet, Decryption peeked =>
      dec_ratchet' ← lifting (consume dec_ratchet peeked configuration);
      set_ratchet (update_index update) (update_secret_type update) (DecryptionRatchetOf dec_ratchet')
  | _, _ => lifting (Err RatchetTypeError)
  end.

Definition secret_for_decryption (index : LeafNodeIndex.t) (secret_type : SecretType) (generation : Z)
    (configuration : SenderRatchetConfiguration) :
    stateful SecretTree SecretTreeError DecryptionSecret :=
  '(decryption_secret, update) ← prepare_decryption index secret_type generation configuration;
  _ ← match update with
      | Some update => apply_decryption_update update configuration
      | None => mret tt
      end;
  mret decryption_secret.

Definition secret_for_encryption (index : LeafNodeIndex.t) (secret_type : SecretType) :
    stateful SecretTree SecretTreeError (Z * RatchetKeyMaterial) :=
  _ ← ensure_ratchets index secret_type;
  ratchet ← reading (fun self => ratchet_mut self index secret_type);
  match ratchet with
  | DecryptionRatchetOf _ => lifting (Err RatchetTypeError)
  | EncryptionRatchet enc_ratchet =>
      '(out, enc_ratchet') ← lifting (ratchet_forward ciphersuite enc_ratchet);
      _ ← set_ratchet index secret_type (EncryptionRatchet enc_ratchet');
      mret out
  end.
End Ops.
End STree.
