(* ===== verification/SecretTreeFacts.v ===== *)
(** * The secret tree: correctness

    Whatever the order in which sender ratchets are initialised and used, each
    ratchet starts from the secret that the derivation along the path from the
    root gives; the secrets that lead to an initialised ratchet are gone; and no
    key material is handed out twice. *)
From S2P Require Import Prelude TreeMath TreeMathFacts Crypto CryptoFacts.
From S2P Require Import SenderRatchet SenderRatchetFacts SecretTree.

Section Facts.
Context {OC : OpenMlsCrypto} {TC : TlsCodec} (cs : Ciphersuite) (cfg : SenderRatchetConfiguration).
Context (d : Z) (es : Secret) (own : LeafNodeIndex.t).
Context (Hd : 0 <= d <= 29).
Implicit Types (t : SecretTree).

(** ** Reference derivation *)

(** The secret of the [j]-th node [n] levels below the root. *)
Fixpoint node_ref (n : nat) (j : Z) : result CryptoError Secret :=
  match n with
  | O => Ok es
  | S n' =>
      p ← node_ref n' (j / 2);
      '(l, r) ← STree.derive_child_secrets cs p;
      Ok (if Z.even j then l else r)
  end.

Definition ratchet_label (ty : SecretType) : string :=
  match ty with HandshakeSecret => "handshake" | ApplicationSecret => "application" end.

Definition ratchet_ref (l : LeafNodeIndex.t) (ty : SecretType) : result CryptoError Secret :=
  s ← node_ref (Z.to_nat d) l; kdf_expand_label s cs (ratchet_label ty) [] (Suite.hash_length cs).

(** ** Nodes by coordinate *)

(** The secret stored at a node. *)
Definition stored t (k j : Z) : option Secret :=
  match STree.get_node t (node_at k j) with Ok (Some n) => Some (node_secret n) | _ => None end.

Record shape t : Prop := {
  shape_size : st_size t = perfect d;
  shape_own : own_index t = own;
  shape_leaves : Z.of_nat (length (st_leaf_nodes t)) = 2 ^ d;
  shape_parents : Z.of_nat (length (st_parent_nodes t)) = 2 ^ d;
  shape_ratchets ty : Z.of_nat (length (STree.sender_ratchets t ty)) = 2 ^ d;
}.

Lemma get_node_stored t k j :
  shape t -> in_tree d k j ->
  STree.get_node t (node_at k j) = Ok (mkSecretTreeNode <$> stored t k j).
Proof.
  intros Hs Hi. unfold stored.
  assert (exists o, STree.get_node t (node_at k j) = Ok o) as [o ->].
  { unfold node_at. destruct (Z.eqb_spec k 0) as [->|]; cbn.
    - destruct (get_at_Some (st_leaf_nodes t) j) as [o ->]; [|by eexists].
      rewrite (shape_leaves _ Hs). destruct Hi as [_ Hj]. by rewrite Z.sub_0_r in Hj.
    - destruct (get_at_Some (st_parent_nodes t) (parent_at k j)) as [o ->]; [|by eexists].
      rewrite (shape_parents _ Hs). assert (1 <= k) by (destruct Hi; lia); pose proof (parent_at_range d k j); intuition lia. }
  by destruct o as [[s]|].
Qed.

Lemma set_node_stored t k j x :
  shape t -> in_tree d k j ->
  exists t', STree.set_node (node_at k j) x t = (Ok tt, t') /\ shape t' /\
    (forall ty, STree.sender_ratchets t' ty = STree.sender_ratchets t ty) /\
    forall k' j', in_tree d k' j' ->
      stored t' k' j' =
        if bool_decide (k' = k /\ j' = j) then node_secret <$> x else stored t k' j'.
Proof.
  intros Hs Hi. pose proof (get_node_stored t k j Hs Hi) as Hget.
  assert (in_tree d k j -> k = 0 -> 0 <= j < Z.of_nat (length (st_leaf_nodes t))) as Hleaf.
  { intros [_ Hj] ->. rewrite (shape_leaves _ Hs). by rewrite Z.sub_0_r in Hj. }
  assert (in_tree d k j -> k <> 0 -> 0 <= parent_at k j < Z.of_nat (length (st_parent_nodes t))) as Hpar.
  { intros Hij Hk. rewrite (shape_parents _ Hs). assert (1 <= k) by (destruct Hij; lia); pose proof (parent_at_range d k j); intuition lia. }
  unfold STree.set_node, updating, node_at in *. destruct (Z.eqb_spec k 0) as [->|Hk]; cbn in *.
  - destruct (get_at (st_leaf_nodes t) j); [|done]. cbn. eexists; split; [done|]. split_and!.
    + destruct Hs; split; cbn; rewrite ?length_set_at; try done; by intros [].
    + by intros [].
    + intros k' j' Hi'. unfold stored, node_at. case_bool_decide as Hc.
      * destruct Hc as [-> ->]. cbn. rewrite get_at_set_at, Z.eqb_refl, bool_decide_true by auto.
        cbn. by destruct x.
      * destruct (Z.eqb_spec k' 0) as [->|]; [|done]. cbn. rewrite get_at_set_at.
        destruct (Z.eqb_spec j' j) as [->|]; [naive_solver|done].
  - destruct (get_at (st_parent_nodes t) (parent_at k j)); [|done]. cbn. eexists; split; [done|]. split_and!.
    + destruct Hs; split; cbn; rewrite ?length_set_at; try done; by intros [].
    + by intros [].
    + intros k' j' Hi'. unfold stored, node_at. case_bool_decide as Hc.
      * destruct Hc as [-> ->]. rewrite (proj2 (Z.eqb_neq _ _) Hk). cbn.
        rewrite get_at_set_at, Z.eqb_refl, bool_decide_true by auto. cbn. by destruct x.
      * destruct (Z.eqb_spec k' 0) as [->|Hk']; [done|]. cbn. rewrite get_at_set_at.
        destruct (Z.eqb_spec (parent_at k' j') (parent_at k j)) as [He|]; [|done].
        destruct Hc. apply parent_at_inj in He; [done|destruct Hi', Hi; lia..| |];
          by apply (in_tree_coord d); [lia|].
Qed.

(** ** Invariant *)

(** Leaf [l] hangs below a stored secret at height [h] of its path and at no
    other height; [h = -1] when its ratchets are initialised. *)
Definition frontier t (l h : Z) : Prop :=
  -1 <= h <= d /\
  (forall k, 0 <= k <= d -> is_Some (stored t k (l / 2 ^ k)) <-> k = h) /\
  (forall ty, exists o, get_at (STree.sender_ratchets t ty) l = Some o /\ (is_Some o <-> h = -1)).

(** A ratchet that started from the reference secret of its leaf. *)
Definition ratchet_ok (l : LeafNodeIndex.t) (ty : SecretType) (r : SenderRatchet) : Prop :=
  exists s, ratchet_ref l ty = Ok s /\
  match r with
  | EncryptionRatchet h =>
      l = own /\ 0 <= generation h <= u32.MAX /\
      chain cs (initial_ratchet_secret s) (Z.to_nat (generation h)) = Ok h
  | DecryptionRatchetOf dr => l <> own /\ ratchet_inv cs cfg (initial_ratchet_secret s) dr
  end.

Record tree_inv t : Prop := {
  inv_shape : shape t;
  inv_sound k j s : in_tree d k j -> stored t k j = Some s -> node_ref (Z.to_nat (d - k)) j = Ok s;
  inv_frontier l : 0 <= l < 2 ^ d -> exists h, frontier t l h;
  inv_ratchets l ty r :
    get_at (STree.sender_ratchets t ty) l = Some (Some r) -> ratchet_ok l ty r;
}.

Lemma frontier_unique t l h h' : frontier t l h -> frontier t l h' -> h = h'.
Proof.
  intros (Hb & H1 & H2) (Hb' & H1' & H2').
  destruct (decide (h = -1)) as [->|].
  - destruct (H2 HandshakeSecret) as (o & Ho & Hi), (H2' HandshakeSecret) as (o' & Ho' & Hi').
    simplify_eq. symmetry. apply Hi', Hi. done.
  - apply H1'; [lia|]. apply H1; [lia|done].
Qed.

(** ** Deriving down *)

Lemma node_ref_child k j p l r b :
  1 <= k <= d -> 0 <= b <= 1 -> node_ref (Z.to_nat (d - k)) j = Ok p ->
  STree.derive_child_secrets cs p = Ok (l, r) ->
  node_ref (Z.to_nat (d - (k - 1))) (2 * j + b) = Ok (if b =? 0 then l else r).
Proof.
  intros Hk Hb Hp Hc. replace (Z.to_nat (d - (k - 1))) with (S (Z.to_nat (d - k))) by lia. cbn.
  replace ((2 * j + b) / 2) with j by (apply Z.div_unique with b; lia).
  rewrite Hp. cbn. rewrite Hc. cbn. rewrite Z.even_add, Z.even_mul. cbn.
  assert (b = 0 \/ b = 1) as [-> | ->] by lia; done.
Qed.

Lemma children_path k j l : 1 <= k -> l / 2 ^ k = j -> exists b, 0 <= b <= 1 /\ l / 2 ^ (k - 1) = 2 * j + b.
Proof.
  intros Hk <-. exists (l / 2 ^ (k - 1) mod 2). split; [pose proof (Z.mod_pos_bound (l / 2 ^ (k - 1)) 2); lia|].
  replace (l / 2 ^ k) with (l / 2 ^ (k - 1) / 2); [apply Z.div_mod; lia|].
  rewrite anc_step by lia. do 2 f_equal. lia.
Qed.

(** The stored secrets after a node was replaced by its children. *)
Definition derived t t' (k j : Z) (x y : Secret) : Prop :=
  forall k' j', in_tree d k' j' -> stored t' k' j' =
    if bool_decide (k' = k /\ j' = j) then None
    else if bool_decide (k' = k - 1 /\ j' = 2 * j + 1) then Some y
    else if bool_decide (k' = k - 1 /\ j' = 2 * j) then Some x
    else stored t k' j'.

Lemma derived_frontier t t' k j x y l h :
  in_tree d k j -> 1 <= k -> is_Some (stored t k j) -> derived t t' k j x y ->
  (forall ty, STree.sender_ratchets t' ty = STree.sender_ratchets t ty) ->
  0 <= l < 2 ^ d -> frontier t l h ->
  frontier t' l (if bool_decide (l / 2 ^ k = j) then k - 1 else h).
Proof.
  intros Hi H1 Hs Hdv Hr Hl (Hb & Hst & Hra). pose proof (proj1 Hi) as Hk.
  case_bool_decide as Hbel.
  - assert (k = h) as <- by (apply Hst; [lia|by rewrite Hbel]).
    destruct (children_path k j l H1 Hbel) as (b & Hb01 & Hch).
    split_and!; [lia|lia| |].
    + intros k' Hk'. rewrite Hdv by (by apply in_tree_anc). case_bool_decide as HA.
      { split; [by intros []|lia]. }
      case_bool_decide as HB; [split; [lia|by eexists]|].
      case_bool_decide as HC; [split; [lia|by eexists]|].
      rewrite Hst by done. split; intros ->; exfalso; [by apply HA|].
      assert (b = 0 \/ b = 1) as [-> | ->] by lia; [apply HC|apply HB]; split; lia.
    + intros ty. destruct (Hra ty) as (o & Ho & Hio). rewrite Hr. exists o. split; [done|].
      rewrite Hio. lia.
  - split_and!; [lia|lia| |].
    + intros k' Hk'. rewrite Hdv by (by apply in_tree_anc).
      assert (forall b, 0 <= b <= 1 -> ~ (k' = k - 1 /\ l / 2 ^ k' = 2 * j + b)) as Hno.
      { intros b Hb01 [-> He]. apply Hbel. replace (2 ^ k) with (2 ^ (k - 1) * 2) by (rewrite (pow2_pred k); lia).
        pose proof (pow2_pos (k - 1)). rewrite <- Z.div_div by lia. rewrite He. symmetry.
        apply Z.div_unique with b; lia. }
      rewrite !bool_decide_false; [by apply Hst| | |].
      * rewrite <- (Z.add_0_r (2 * j)). apply Hno. lia.
      * apply Hno. lia.
      * intros [-> He]. done.
    + intros ty. rewrite Hr. apply Hra.
Qed.

Lemma derived_inv t t' k j p x y :
  tree_inv t -> in_tree d k j -> 1 <= k -> stored t k j = Some p ->
  STree.derive_child_secrets cs p = Ok (x, y) -> shape t' -> derived t t' k j x y ->
  (forall ty, STree.sender_ratchets t' ty = STree.sender_ratchets t ty) ->
  tree_inv t'.
Proof.
  intros Hinv Hi H1 Hp Hc Hs Hdv Hr. pose proof (inv_sound _ Hinv _ _ _ Hi Hp) as Href.
  pose proof (proj1 Hi) as Hk. split.
  - done.
  - intros k' j' s Hi' Hst. rewrite Hdv in Hst by done. case_bool_decide; [done|].
    case_bool_decide as HB.
    { destruct HB as [-> ->]. injection Hst as <-. apply (node_ref_child k j p x y 1); [lia|lia|done|done]. }
    case_bool_decide as HC; [|by apply (inv_sound _ Hinv)].
    destruct HC as [-> ->]. injection Hst as <-. rewrite <- (Z.add_0_r (2 * j)).
    apply (node_ref_child k j p x y 0); [lia|lia|done|done].
  - intros l Hl. destruct (inv_frontier _ Hinv l Hl) as [h Hh]. eexists.
    eapply derived_frontier; try eassumption. by rewrite Hp.
  - intros l ty r. rewrite Hr. apply (inv_ratchets _ Hinv).
Qed.

(** ** Methods keep the invariant *)

(** A ratchet that has not been used. *)
Definition at_start (r : SenderRatchet) : Prop :=
  match r with
  | EncryptionRatchet h => generation h = 0
  | DecryptionRatchetOf dr => generation (ratchet_head dr) = 0 /\ past_secrets dr = []
  end.

(** Initialised ratchets are not touched and new ones have not been used. *)
Definition extends t t' : Prop :=
  (forall ty i r, get_at (STree.sender_ratchets t ty) i = Some (Some r) ->
     get_at (STree.sender_ratchets t' ty) i = Some (Some r)) /\
  (forall ty i r, get_at (STree.sender_ratchets t' ty) i = Some (Some r) ->
     get_at (STree.sender_ratchets t ty) i = Some (Some r) \/ at_start r).

Definition keeps t0 t : Prop := tree_inv t /\ extends t0 t.

(** Key derivation is the only step that can fail. *)
Definition kdf_fails t0 (e : SecretTreeError) t : Prop := keeps t0 t /\ ~ LawfulKdf.

Lemma extends_same t0 t t' :
  extends t0 t -> (forall ty, STree.sender_ratchets t' ty = STree.sender_ratchets t ty) -> extends t0 t'.
Proof. intros [H1 H2] He. split; intros ty i r Hi; rewrite He in *; [by apply H1|by apply H2]. Qed.

Lemma extends_refl t : extends t t.
Proof. split; eauto. Qed.

Lemma keeps_refl t : tree_inv t -> keeps t t.
Proof. intros H. split; [exact H|apply extends_refl]. Qed.

Lemma derive_child_secrets_total (HL : LawfulKdf) p : exists x y, STree.derive_child_secrets cs p = Ok (x, y).
Proof.
  unfold STree.derive_child_secrets.
  destruct (kdf_expand_label_total cs p "tree" (bytes_of_string "left") (Suite.hash_length cs))
    as (x & -> & _); [done|done|by destruct cs|].
  destruct (kdf_expand_label_total cs p "tree" (bytes_of_string "right") (Suite.hash_length cs))
    as (y & -> & _); [done|done|by destruct cs|].
  eauto.
Qed.

Lemma derive_down_hoare t0 l k :
  0 <= l < 2 ^ d -> 1 <= k <= d ->
  hoare (fun t => keeps t0 t /\ frontier t l k) (STree.derive_down cs (parent_at k (l / 2 ^ k)))
    (fun _ t => keeps t0 t /\ frontier t l (k - 1)) (kdf_fails t0) (~ LawfulKdf).
Proof.
  intros Hl Hk t [[Hinv Hext] Hf]. set (j := l / 2 ^ k).
  assert (in_tree d k j) as Hi by (apply in_tree_anc; lia).
  destruct (proj2 (proj1 (proj2 Hf) k ltac:(lia)) eq_refl) as [p Hp]. fold j in Hp.
  pose proof (inv_shape _ Hinv) as Hs.
  unfold STree.derive_down, reading, mbind, stateful_bind.
  rewrite node_at_parent by lia. rewrite get_node_stored, Hp by done. cbn.
  destruct (STree.derive_child_secrets cs p) as [[x y]|e|] eqn:Hc; unfold lifting; cbn.
  2: { split; [done|]. intros HL. destruct (derive_child_secrets_total HL p) as (x & y & H). congruence. }
  2: { intros HL. destruct (derive_child_secrets_total HL p) as (x & y & H). congruence. }
  rewrite left_coord, right_coord by (lia || by apply (in_tree_coord d); [lia|]).
  destruct (set_node_stored t (k - 1) (2 * j) (Some (mkSecretTreeNode x)) Hs) as (t1 & -> & Hs1 & Hr1 & Hst1).
  { rewrite <- (Z.add_0_r (2 * j)). apply in_tree_child; [lia|done|lia]. }
  destruct (set_node_stored t1 (k - 1) (2 * j + 1) (Some (mkSecretTreeNode y)) Hs1) as (t2 & -> & Hs2 & Hr2 & Hst2).
  { apply in_tree_child; [lia|done|lia]. }
  destruct (set_node_stored t2 k j None Hs2 Hi) as (t3 & -> & Hs3 & Hr3 & Hst3).
  assert (derived t t3 k j x y) as Hdv.
  { intros k' j' Hi'. by rewrite Hst3, Hst2, Hst1 by done. }
  assert (forall ty, STree.sender_ratchets t3 ty = STree.sender_ratchets t ty) as Hr.
  { intros ty. by rewrite Hr3, Hr2, Hr1. }
  split; [split; [|by eapply extends_same]|].
  - apply (derived_inv t t3 k j p x y); first [assumption|lia].
  - pose proof (derived_frontier t t3 k j x y l k Hi ltac:(lia) ltac:(by rewrite Hp) Hdv Hr Hl Hf) as H.
    by rewrite bool_decide_true in H by done.
Qed.

(** Deriving down from height [h] to the leaf. *)
Lemma derive_path_hoare t0 l h :
  0 <= l < 2 ^ d -> 0 <= h <= d ->
  hoare (fun t => keeps t0 t /\ frontier t l h)
    (for_each (STree.derive_down cs) (rev ((fun k => parent_at k (l / 2 ^ k)) <$> seqZ 1 h)))
    (fun _ t => keeps t0 t /\ frontier t l 0) (kdf_fails t0) (~ LawfulKdf).
Proof.
  intros Hl Hh. rewrite <- (Z2Nat.id h) in * by lia. set (n := Z.to_nat h) in *. clearbody n.
  induction n as [|n IH].
  - apply hoare_ret. cbn. auto.
  - assert (seqZ 1 (Z.of_nat (S n)) = seqZ 1 (Z.of_nat n) ++ [Z.of_nat (S n)]) as ->.
    { replace (Z.of_nat (S n)) with (Z.of_nat n + 1) by lia. rewrite seqZ_app by lia. f_equal.
      rewrite seqZ_cons, (seqZ_nil (Z.succ _)) by lia. f_equal. lia. }
    rewrite fmap_app, rev_app_distr. cbn [fmap list_fmap rev app for_each].
    eapply hoare_bind; [apply derive_down_hoare; lia|]. intros [].
    eapply hoare_pre; [|apply IH; lia]. intros t. by replace (Z.of_nat (S n) - 1) with (Z.of_nat n) by lia.
Qed.

Lemma collect_empty_frontier t l h m n :
  tree_inv t -> 0 <= l < 2 ^ d -> frontier t l h -> 1 <= m <= h -> m + Z.of_nat n = d + 1 ->
  STree.collect_empty t ((fun k => parent_at k (l / 2 ^ k)) <$> seqZ m (Z.of_nat n)) =
  Ok ((fun k => parent_at k (l / 2 ^ k)) <$> seqZ m (h - m + 1)).
Proof.
  intros Hinv Hl Hf. pose proof Hf as (Hb & Hst & _). revert m.
  induction n as [|n IH]; intros m Hm Hn; [lia|].
  rewrite (seqZ_cons m (Z.of_nat (S n))) by lia. rewrite fmap_cons.
  replace (Z.pred (Z.of_nat (S n))) with (Z.of_nat n) by lia. cbn [STree.collect_empty].
  rewrite node_at_parent by lia.
  rewrite get_node_stored by (apply inv_shape || apply in_tree_anc; done || lia).
  cbn [mbind result_bind]. destruct (decide (m = h)) as [->|Hne].
  - destruct (proj2 (Hst h ltac:(lia)) eq_refl) as [p ->]. cbn.
    replace (h - h + 1) with 1 by lia. rewrite seqZ_cons, seqZ_nil by lia. done.
  - destruct (stored t m (l / 2 ^ m)) eqn:Hs.
    { exfalso. apply Hne, Hst; [lia|]. by rewrite Hs. }
    cbn [fmap option_fmap option_map]. rewrite IH by lia. cbn.
    rewrite (seqZ_cons m (h - m + 1)) by lia. rewrite fmap_cons. do 4 f_equal. lia.
Qed.

Lemma derive_leaf_hoare t0 l :
  0 <= l < 2 ^ d ->
  hoare (fun t => keeps t0 t /\ ~ frontier t l (-1)) (STree.derive_leaf cs l)
    (fun _ t => keeps t0 t /\ frontier t l 0) (kdf_fails t0) (~ LawfulKdf).
Proof.
  intros Hl t [[Hinv Hext] Hnf]. destruct (inv_frontier _ Hinv l Hl) as [h Hf].
  assert (0 <= h <= d) as Hh.
  { pose proof (proj1 Hf). destruct (decide (h = -1)) as [->|]; [done|lia]. }
  unfold STree.derive_leaf, reading. unfold mbind at 1, stateful_bind at 1.
  change (Leaf l) with (node_at 0 l).
  rewrite get_node_stored by (apply inv_shape || (split; rewrite ?Z.sub_0_r); done || lia).
  pose proof (proj1 (proj2 Hf) 0 ltac:(lia)) as H0. change (2 ^ 0) with 1 in H0. rewrite Z.div_1_r in H0.
  destruct (stored t 0 l) as [p|] eqn:Hp; cbn [fmap option_fmap option_map].
  - cbn. assert (0 = h) as <- by (by apply H0). done.
  - assert (0 <> h) as Hne by (intros <-; destruct (proj2 H0 eq_refl) as [? [=]]).
    unfold mbind at 1, stateful_bind at 1. rewrite (shape_size _ (inv_shape _ Hinv)).
    rewrite direct_path_coord by lia. cbn [returns mbind result_bind]. unfold ancestors.
    pose proof (collect_empty_frontier t l h 1 (Z.to_nat d) Hinv Hl Hf ltac:(lia) ltac:(lia)) as Hc.
    rewrite Z2Nat.id in Hc by lia. rewrite Hc.
    replace (h - 1 + 1) with h by lia. by apply (derive_path_hoare t0 l h).
Qed.

(** ** Installing ratchets *)

Lemma bool_decide_ext_if {A} (P Q : Prop) `{Decision P, Decision Q} (a b : A) :
  (P <-> Q) -> (if bool_decide P then a else b) = if bool_decide Q then a else b.
Proof. intros HPQ. by rewrite (bool_decide_ext P Q HPQ). Qed.

Lemma set_ratchet_spec t l ty r :
  shape t -> 0 <= l < 2 ^ d ->
  exists t', STree.set_ratchet l ty r t = (Ok tt, t') /\ shape t' /\
    (forall k j, stored t' k j = stored t k j) /\
    forall ty' i, get_at (STree.sender_ratchets t' ty') i =
      if bool_decide (ty' = ty /\ i = l) then Some (Some r) else get_at (STree.sender_ratchets t ty') i.
Proof.
  intros Hs Hl. pose proof (shape_ratchets _ Hs) as Hr. unfold STree.set_ratchet, updating.
  destruct (get_at_Some (STree.sender_ratchets t ty) l) as [o Ho]; [by rewrite Hr|].
  rewrite Ho. cbn. eexists; split; [done|].
  assert (forall ty' i, get_at (set_at (STree.sender_ratchets t ty') l (Some r)) i =
    if bool_decide (i = l) then Some (Some r) else get_at (STree.sender_ratchets t ty') i) as Hset.
  { intros ty' i. rewrite get_at_set_at, Hr. destruct (Z.eqb_spec i l) as [->|]; cbn [andb];
      [rewrite !bool_decide_true by done|rewrite bool_decide_false by done]; done. }
  split_and!.
  - destruct Hs, ty; split; cbn; try done; intros []; cbn; rewrite ?length_set_at;
      by first [apply (Hr HandshakeSecret)|apply (Hr ApplicationSecret)].
  - intros k j. unfold stored, STree.get_node. by destruct ty.
  - intros ty' i. destruct ty, ty'; cbn;
      try (rewrite bool_decide_false by (intros [[=] _]); done).
    + pose proof (Hset HandshakeSecret i) as H. cbn in H. rewrite H. apply bool_decide_ext_if. naive_solver.
    + pose proof (Hset ApplicationSecret i) as H. cbn in H. rewrite H. apply bool_decide_ext_if. naive_solver.
Qed.

Definition fresh_ratchet (l : LeafNodeIndex.t) (s : Secret) : SenderRatchet :=
  if l =? own then EncryptionRatchet (initial_ratchet_secret s)
  else DecryptionRatchetOf (DecryptionRatchet_new s).

Lemma fresh_ratchet_ok l ty s :
  wf_config cfg -> ratchet_ref l ty = Ok s -> ratchet_ok l ty (fresh_ratchet l s).
Proof.
  intros Hc Hs. exists s. split; [done|]. unfold fresh_ratchet. destruct (Z.eqb_spec l own); [done|].
  split; [done|]. by apply ratchet_inv_new.
Qed.

(** The tree in which leaf [l] has its ratchets and no secret any more. *)
Lemma installed_inv t t' l (rs : SecretType -> SenderRatchet) :
  tree_inv t -> 0 <= l < 2 ^ d -> frontier t l 0 -> shape t' ->
  (forall k j, in_tree d k j -> stored t' k j = if bool_decide (k = 0 /\ j = l) then None else stored t k j) ->
  (forall ty i, get_at (STree.sender_ratchets t' ty) i =
     if bool_decide (i = l) then Some (Some (rs ty)) else get_at (STree.sender_ratchets t ty) i) ->
  (forall ty, ratchet_ok l ty (rs ty)) -> tree_inv t' /\ frontier t' l (-1).
Proof.
  intros Hinv Hl Hf Hs Hst Hra Hok.
  assert (frontier t' l (-1)) as Hfl.
  { split_and!; [lia|lia| |].
    - intros k Hk. rewrite Hst by (by apply in_tree_anc). case_bool_decide as Hc.
      + split; [by intros []|lia].
      + rewrite (proj1 (proj2 Hf)) by done. split; [|lia]. intros ->. destruct Hc.
        split; [done|]. apply Z.div_1_r.
    - intros ty. rewrite Hra, bool_decide_true by done. eexists; split; [done|]. split; [done|by eexists]. }
  split; [|done]. split.
  - done.
  - intros k j s Hi. rewrite Hst by done. case_bool_decide; [done|]. by apply (inv_sound _ Hinv).
  - intros m Hm. destruct (decide (m = l)) as [->|Hne]; [by exists (-1)|].
    destruct (inv_frontier _ Hinv m Hm) as [h (Hb & H1 & H2)]. exists h. split_and!; [lia|lia| |].
    + intros k Hk. rewrite Hst, bool_decide_false; [by apply H1| |by apply in_tree_anc].
      intros [-> He]. change (2 ^ 0) with 1 in He. rewrite Z.div_1_r in He. done.
    + intros ty. rewrite Hra, bool_decide_false by done. apply H2.
  - intros m ty r. rewrite Hra. case_bool_decide as Hc; [|by apply (inv_ratchets _ Hinv)].
    intros [= <-]. subst. apply Hok.
Qed.

Lemma ratchet_kdf_total (HL : LawfulKdf) p ty :
  exists s, kdf_expand_label p cs (ratchet_label ty) [] (Suite.hash_length cs) = Ok s.
Proof.
  destruct (kdf_expand_label_total cs p (ratchet_label ty) [] (Suite.hash_length cs)) as (s & -> & _);
    [by destruct ty|done|by destruct cs|eauto].
Qed.

Lemma install_hoare t0 l :
  wf_config cfg -> 0 <= l < 2 ^ d ->
  hoare (fun t => keeps t0 t /\ frontier t l 0) (STree.install_ratchets cs l)
    (fun _ t => keeps t0 t /\ frontier t l (-1)) (kdf_fails t0) (~ LawfulKdf).
Proof.
  intros Hcfg Hl t [[Hinv Hext] Hf]. pose proof (inv_shape _ Hinv) as Hs.
  assert (in_tree d 0 l) as Hi by (split; rewrite ?Z.sub_0_r; lia).
  destruct (proj2 (proj1 (proj2 Hf) 0 ltac:(lia)) eq_refl) as [p Hp].
  change (2 ^ 0) with 1 in Hp. rewrite Z.div_1_r in Hp.
  pose proof (inv_sound _ Hinv _ _ _ Hi Hp) as Href. rewrite Z.sub_0_r in Href.
  unfold STree.install_ratchets, reading, mbind, stateful_bind. change (Leaf l) with (node_at 0 l).
  rewrite get_node_stored, Hp by done. cbn [fmap option_fmap option_map node_secret].
  destruct (kdf_expand_label p cs "handshake" [] (Suite.hash_length cs)) as [hs|e|] eqn:Hh; unfold lifting;
    cbn [map_err].
  2, 3: try split; [by split| ] || idtac; intros HL; destruct (ratchet_kdf_total HL p HandshakeSecret) as [s H];
    cbn [ratchet_label] in H; congruence.
  destruct (kdf_expand_label p cs "application" [] (Suite.hash_length cs)) as [ap|e|] eqn:Ha; cbn [map_err].
  2, 3: try split; [by split| ] || idtac; intros HL; destruct (ratchet_kdf_total HL p ApplicationSecret) as [s H];
    cbn [ratchet_label] in H; congruence.
  rewrite (shape_own _ Hs). fold (fresh_ratchet l hs) (fresh_ratchet l ap).
  destruct (set_ratchet_spec t l HandshakeSecret (fresh_ratchet l hs) Hs Hl) as (t1 & -> & Hs1 & Hst1 & Hr1).
  destruct (set_ratchet_spec t1 l ApplicationSecret (fresh_ratchet l ap) Hs1 Hl) as (t2 & -> & Hs2 & Hst2 & Hr2).
  destruct (set_node_stored t2 0 l None Hs2 Hi) as (t3 & -> & Hs3 & Hr3 & Hst3).
  assert (forall ty i, get_at (STree.sender_ratchets t3 ty) i = if bool_decide (i = l)
    then Some (Some (match ty with HandshakeSecret => fresh_ratchet l hs | ApplicationSecret => fresh_ratchet l ap end))
    else get_at (STree.sender_ratchets t ty) i) as Hr.
  { intros ty i. rewrite Hr3, Hr2, Hr1. destruct ty, (decide (i = l)) as [->|Hne];
      repeat first [rewrite bool_decide_true by done|rewrite bool_decide_false by naive_solver]; done. }
  destruct (installed_inv t t3 l (fun ty => match ty with HandshakeSecret => fresh_ratchet l hs
    | ApplicationSecret => fresh_ratchet l ap end)) as [Hi3 Hf3]; try done.
  - intros k j Hkj. rewrite Hst3, Hst2, Hst1 by done. done.
  - intros []; apply fresh_ratchet_ok; try done; unfold ratchet_ref; rewrite Href; done.
  - split; [split; [done|]|done]. destruct Hext as [Hext Hnew]. split; intros ty i r; rewrite Hr; case_bool_decide as Hc.
    + intros Hir. subst i. apply Hext in Hir. destruct (proj2 (proj2 Hf) ty) as (o & Ho & Hio).
      rewrite Ho in Hir. injection Hir as ->. exfalso. assert (0 = -1) by (apply Hio; by eexists). lia.
    + apply Hext.
    + intros [= <-]. right. unfold fresh_ratchet. by destruct ty, (l =? own).
    + apply Hnew.
Qed.

Lemma ratchet_opt_frontier t l h ty :
  frontier t l h -> exists o, STree.ratchet_opt t l ty = Ok o /\ (is_Some o <-> h = -1) /\
    get_at (STree.sender_ratchets t ty) l = Some o.
Proof.
  intros (_ & _ & H). destruct (H ty) as (o & Ho & Hi). exists o. unfold STree.ratchet_opt. by rewrite Ho.
Qed.

Lemma initialize_hoare t0 l :
  wf_config cfg -> 0 <= l < 2 ^ d ->
  hoare (keeps t0) (STree.initialize_sender_ratchets cs l)
    (fun _ t => keeps t0 t /\ frontier t l (-1)) (kdf_fails t0) (~ LawfulKdf).
Proof.
  intros Hc Hl t [Hinv Hext]. destruct (inv_frontier _ Hinv l Hl) as [h Hf].
  unfold STree.initialize_sender_ratchets, reading. unfold mbind at 1, stateful_bind at 1.
  rewrite (shape_size _ (inv_shape _ Hinv)), perfect_leaf_count by lia.
  destruct (Z.geb_spec l (2 ^ d)); [lia|].
  destruct (ratchet_opt_frontier t l h HandshakeSecret Hf) as (o1 & -> & Ho1 & _).
  destruct (ratchet_opt_frontier t l h ApplicationSecret Hf) as (o2 & -> & Ho2 & _).
  unfold mbind at 1, stateful_bind at 1, lifting. cbn [mbind result_bind].
  destruct o1 as [r1|].
  - rewrite bool_decide_true by (by apply Ho2, Ho1). cbn.
    assert (h = -1) as -> by (by apply Ho1). done.
  - apply (hoare_bind _ _ _ _ _ _ _ (derive_leaf_hoare t0 l Hl) (fun _ => install_hoare t0 l Hc Hl)).
    split; [done|]. intros Hf'. destruct (proj2 Ho1 (frontier_unique _ _ _ _ Hf Hf')) as [? [=]].
Qed.

Lemma ensure_hoare t0 l ty :
  wf_config cfg -> 0 <= l < 2 ^ d ->
  hoare (keeps t0) (STree.ensure_ratchets cs l ty)
    (fun _ t => keeps t0 t /\ frontier t l (-1)) (kdf_fails t0) (~ LawfulKdf).
Proof.
  intros Hc Hl t Hk. pose proof Hk as [Hinv _]. destruct (inv_frontier _ Hinv l Hl) as [h Hf].
  unfold STree.ensure_ratchets, reading. unfold mbind, stateful_bind.
  destruct (ratchet_opt_frontier t l h ty Hf) as (o & -> & Ho & _).
  destruct o as [r|]; [|by apply initialize_hoare].
  cbn. assert (h = -1) as -> by (by apply Ho). done.
Qed.

Lemma ensure_out_of_range t l ty :
  tree_inv t -> 2 ^ d <= l -> STree.ensure_ratchets cs l ty t = (Err IndexOutOfBounds, t).
Proof.
  intros Hinv Hl. unfold STree.ensure_ratchets, reading, mbind, stateful_bind, STree.ratchet_opt.
  rewrite get_at_None; [done|]. by rewrite (shape_ratchets _ (inv_shape _ Hinv)).
Qed.

Lemma ratchet_mut_frontier t l ty :
  frontier t l (-1) -> exists r, STree.ratchet_mut t l ty = Ok r /\
    get_at (STree.sender_ratchets t ty) l = Some (Some r).
Proof.
  intros Hf. destruct (ratchet_opt_frontier t l (-1) ty Hf) as (o & _ & Ho & Hg).
  destruct (proj2 Ho eq_refl) as [r ->]. exists r. unfold STree.ratchet_mut. by rewrite Hg.
Qed.

(** ** Progress *)

Definition ratchet_progress (r r' : SenderRatchet) : Prop :=
  match r, r' with
  | EncryptionRatchet h, EncryptionRatchet h' => generation h <= generation h'
  | DecryptionRatchetOf dr, DecryptionRatchetOf dr' =>
      generation (ratchet_head dr) <= generation (ratchet_head dr') /\
      forall g, fresh dr' g -> fresh dr g
  | _, _ => False
  end.

Definition progress t t' : Prop :=
  forall ty i r, get_at (STree.sender_ratchets t ty) i = Some (Some r) ->
    exists r', get_at (STree.sender_ratchets t' ty) i = Some (Some r') /\ ratchet_progress r r'.

Lemma ratchet_progress_refl r : ratchet_progress r r.
Proof. destruct r; cbn; [lia|]. split; [lia|auto]. Qed.

Lemma ratchet_progress_trans r1 r2 r3 :
  ratchet_progress r1 r2 -> ratchet_progress r2 r3 -> ratchet_progress r1 r3.
Proof.
  destruct r1, r2, r3; cbn; try done; [lia|]. intros [H1 H2] [H3 H4]. split; [lia|auto].
Qed.

Lemma extends_progress t t' : extends t t' -> progress t t'.
Proof. intros [H _] ty i r Hr. exists r. split; [by apply H|apply ratchet_progress_refl]. Qed.

Lemma keeps_progress t t' : keeps t t' -> tree_inv t' /\ progress t t'.
Proof. intros [H1 H2]. split; [done|by apply extends_progress]. Qed.

Lemma progress_trans t1 t2 t3 : progress t1 t2 -> progress t2 t3 -> progress t1 t3.
Proof.
  intros H1 H2 ty i r Hr. destruct (H1 _ _ _ Hr) as (r' & Hr' & Hp).
  destruct (H2 _ _ _ Hr') as (r'' & Hr'' & Hp'). eauto using ratchet_progress_trans.
Qed.

(** A ratchet replaced by a later state of itself. *)
Lemma replace_ratchet t l ty r r' :
  tree_inv t -> get_at (STree.sender_ratchets t ty) l = Some (Some r) ->
  0 <= l < 2 ^ d -> ratchet_ok l ty r' -> ratchet_progress r r' ->
  exists t', STree.set_ratchet l ty r' t = (Ok tt, t') /\ tree_inv t' /\ progress t t' /\
    get_at (STree.sender_ratchets t' ty) l = Some (Some r').
Proof.
  intros Hinv Hr Hl Hok Hp.
  destruct (set_ratchet_spec t l ty r' (inv_shape _ Hinv) Hl) as (t' & -> & Hs & Hst & Hget).
  exists t'. split; [done|]. split_and!.
  - split; [done| | |].
    + intros k j s. rewrite Hst. apply (inv_sound _ Hinv).
    + intros m Hm. destruct (inv_frontier _ Hinv m Hm) as (h & Hb & H1 & H2). exists h.
      split_and!; [lia|lia| |]; [intros k; rewrite Hst; apply H1|]. intros ty'. rewrite Hget.
      case_bool_decide as Hc; [|apply H2]. destruct Hc as [-> ->]. eexists; split; [done|].
      destruct (H2 ty) as (o & Ho & Hio). rewrite Ho in Hr. injection Hr as ->. rewrite <- Hio.
      split; intros; by eexists.
    + intros m ty' r''. rewrite Hget. case_bool_decide as Hc; [|apply (inv_ratchets _ Hinv)].
      destruct Hc as [-> ->]. by intros [= <-].
  - intros ty' i r'' Hr''. rewrite Hget. case_bool_decide as Hc; [|eauto using ratchet_progress_refl].
    destruct Hc as [-> ->]. rewrite Hr in Hr''. injection Hr'' as <-. eauto.
  - rewrite Hget, bool_decide_true by done. done.
Qed.

(** ** A new tree *)

Lemma get_at_replicate {A} n (x : A) i y : get_at (replicate n x) i = Some y -> y = x.
Proof. unfold get_at. case_match; [|done]. by intros [-> _]%lookup_replicate. Qed.

Lemma new_inv : tree_inv (STree.new es (perfect d) own).
Proof.
  unfold STree.new. rewrite perfect_leaf_count, root_perfect by lia.
  set (t := mkSecretTree _ _ _ _ _ _). pose proof (pow2_pos d ltac:(lia)) as Hpos.
  assert (shape t) as Hs.
  { split; cbn; rewrite ?length_replicate; try done; try lia. intros []; cbn; rewrite length_replicate; lia. }
  assert (forall k j, stored t k j = None) as Hnone.
  { intros k j. unfold stored, STree.get_node. destruct (node_at k j) as [i|i]; cbn;
      destruct (get_at _ i) eqn:Hg; cbn; try done; apply get_at_replicate in Hg; by subst. }
  assert (forall ty l, 0 <= l < 2 ^ d -> get_at (STree.sender_ratchets t ty) l = Some None) as Hr.
  { intros ty l Hl. destruct (get_at_Some (STree.sender_ratchets t ty) l) as [o Ho];
      [by rewrite (shape_ratchets _ Hs)|]. rewrite Ho. destruct ty; cbn in Ho; apply get_at_replicate in Ho; by subst. }
  assert (in_tree d d 0) as Hroot by (split; [lia|]; rewrite Z.sub_diag; cbn; lia).
  destruct (set_node_stored t d 0 (Some (mkSecretTreeNode es)) Hs Hroot) as (t' & -> & Hs' & Hr' & Hst).
  cbn [snd]. split; [done| | |].
  - intros k j s Hi. rewrite Hst, Hnone by done. case_bool_decide as Hc; [|done].
    destruct Hc as [-> ->]. rewrite Z.sub_diag. by intros [= <-].
  - intros l Hl. exists d. split_and!; [lia|lia| |].
    + intros k Hk. rewrite Hst, Hnone by (by apply in_tree_anc). case_bool_decide as Hc.
      * split; [by destruct Hc|by eexists].
      * split; [by intros []|]. intros ->. destruct Hc. split; [done|]. apply Z.div_small. lia.
    + intros ty. rewrite Hr', Hr by done. eexists; split; [done|]. split; [by intros []|lia].
  - intros l ty r. rewrite Hr'. intros Hg. exfalso.
    destruct ty; cbn in Hg; by apply get_at_replicate in Hg.
Qed.

(** ** Operations *)

(** The key material that belongs to generation [g] of a leaf. *)
Definition key_ok (l : LeafNodeIndex.t) (ty : SecretType) (g : Z) (k : RatchetKeyMaterial) : Prop :=
  exists s, ratchet_ref l ty = Ok s /\ chain_key cs (initial_ratchet_secret s) (Z.to_nat g) = Ok k.

(** Generation [g] of the leaf has been handed out. *)
Definition used t (l : LeafNodeIndex.t) (ty : SecretType) (g : Z) : Prop :=
  exists r, get_at (STree.sender_ratchets t ty) l = Some (Some r) /\
  match r with
  | EncryptionRatchet h => g < generation h
  | DecryptionRatchetOf dr => ~ fresh dr g
  end.

Lemma used_progress t t' l ty g : progress t t' -> used t l ty g -> used t' l ty g.
Proof.
  intros Hp (r & Hr & Hu). destruct (Hp _ _ _ Hr) as (r' & Hr' & Hpr). exists r'. split; [done|].
  destruct r, r'; cbn in *; try done; [lia|]. destruct Hpr as [_ Hf]. auto.
Qed.

Lemma used_extends t t' l ty g :
  extends t t' -> used t l ty g -> forall r, get_at (STree.sender_ratchets t' ty) l = Some (Some r) ->
  match r with EncryptionRatchet h => g < generation h | DecryptionRatchetOf dr => ~ fresh dr g end.
Proof. intros [He _] (r & Hr & Hu) r' Hr'. apply He in Hr. by simplify_eq. Qed.

Lemma encryption_spec t i ty :
  wf_config cfg -> tree_inv t -> 0 <= i ->
  match STree.secret_for_encryption cs i ty t with
  | (Ok (g, k), t') => tree_inv t' /\ progress t t' /\ i = own /\ key_ok i ty g k /\
      ~ used t i ty g /\ used t' i ty g /\ u32.is_u32 g
  | (Err e, t') => tree_inv t' /\ progress t t'
  | (Panic, _) => ~ LawfulKdf
  end.
Proof.
  intros Hc Hinv Hi. unfold STree.secret_for_encryption. unfold mbind at 1, stateful_bind at 1.
  destruct (Z.lt_ge_cases i (2 ^ d)) as [Hlt|Hge].
  2: { rewrite ensure_out_of_range by done. by apply keeps_progress, keeps_refl. }
  pose proof (ensure_hoare t i ty Hc (conj Hi Hlt) t) as He.
  destruct (STree.ensure_ratchets cs i ty t) as [[[]|e|] t1]; cbn in He.
  2: { by apply keeps_progress, He, keeps_refl. }
  2: { by apply He, keeps_refl. }
  destruct He as [[Hinv1 Hext] Hf]; [by apply keeps_refl|].
  destruct (ratchet_mut_frontier t1 i ty Hf) as (r & Hr & Hg).
  unfold mbind, stateful_bind, reading. rewrite Hr.
  destruct (inv_ratchets _ Hinv1 _ _ _ Hg) as (s & Hs & Hok).
  destruct r as [h|dr]; cbn; [|by apply keeps_progress]. destruct Hok as (-> & Hb & Hch).
  unfold lifting. destruct (ratchet_forward cs h) as [[[g k] h']|e|] eqn:Hfw; [|by apply keeps_progress|].
  2: { intros HL. destruct (decide (generation h = u32.MAX)) as [E|E].
       - unfold ratchet_forward in Hfw. by rewrite E, Z.eqb_refl in Hfw.
       - destruct (forward_total cs h E) as (k & h' & H). congruence. }
  destruct (forward_generation cs _ _ _ _ Hb Hfw) as (-> & Hg' & Hmax).
  destruct (chain_S cs _ _ _ _ _ _ Hch Hfw) as [Hc1 Hc2].
  destruct (replace_ratchet t1 own ty (EncryptionRatchet h) (EncryptionRatchet h'))
    as (t2 & -> & Hinv2 & Hp2 & Hg2); [done|done|lia| |cbn; lia|].
  { exists s. split; [done|]. split_and!; [done|lia|lia|]. rewrite Hg', <- Hc1. f_equal. lia. }
  cbn. split_and!; [done|eauto using progress_trans, extends_progress|done|by exists s| | |].
  - intros Hu. pose proof (used_extends _ _ _ _ _ Hext Hu _ Hg) as H. cbn in H. lia.
  - exists (EncryptionRatchet h'). split; [done|lia].
  - unfold u32.is_u32, u32.MAX in *. lia.
Qed.

(** The generation a peeked change uses. *)
Definition update_generation (u : PendingRatchetUpdate) : Z :=
  match update_peeked u with
  | Decryption (Past g) => g
  | Decryption (Forward _ h _) => generation h - 1
  end.

Definition pending_ok t (u : PendingRatchetUpdate) (k : RatchetKeyMaterial) : Prop :=
  let '(mkUpdate i ty (Decryption p)) := u in
  exists s dr, 0 <= i < 2 ^ d /\ ratchet_ref i ty = Ok s /\
    get_at (STree.sender_ratchets t ty) i = Some (Some (DecryptionRatchetOf dr)) /\
    valid_peeked cs cfg (initial_ratchet_secret s) dr (update_generation u) k p.

Lemma pending_progress t t' u k : progress t t' -> pending_ok t u k -> pending_ok t' u k.
Proof.
  destruct u as [i ty [p]]. intros Hp (s & dr & Hi & Hs & Hr & Hv).
  destruct (Hp _ _ _ Hr) as ([|dr'] & Hr' & Hpr); [done|]. exists s, dr'.
  split; [done|]. split; [done|]. split; [done|].
  eapply valid_peeked_mono; [|exact Hv]. apply Hpr.
Qed.

Lemma valid_peeked_generation s dr g k p :
  valid_peeked cs cfg s dr g k p ->
  match p with Past g' => g' | Forward _ h _ => generation h - 1 end = g.
Proof. intros (_ & _ & Hp). destruct p; [|done]. destruct Hp as (_ & _ & ks & _ & _ & _ & H & _). lia. Qed.

Lemma prepare_range t i ty g :
  tree_inv t -> 2 ^ d <= i -> STree.prepare_decryption cs i ty g cfg t = (Err IndexOutOfBounds, t).
Proof.
  intros Hinv Hi. unfold STree.prepare_decryption, reading, mbind, stateful_bind.
  rewrite (shape_size _ (inv_shape _ Hinv)), perfect_leaf_count by lia.
  destruct (Z.geb_spec i (2 ^ d)); [done|lia].
Qed.

Lemma prepare_eq t i ty g :
  tree_inv t -> i < 2 ^ d ->
  STree.prepare_decryption cs i ty g cfg t =
    match STree.ensure_ratchets cs i ty t with
    | (Ok _, t') =>
        (r ← STree.ratchet_mut t' i ty;
         match r with
         | EncryptionRatchet _ => Err RatchetTypeError
         | DecryptionRatchetOf dr =>
             '(k, p) ← peek cs dr g cfg; Ok (Available k, Some (mkUpdate i ty (Decryption p)))
         end, t')
    | (Err e, t') => (Err e, t')
    | (Panic, t') => (Panic, t')
    end.
Proof.
  intros Hinv Hi. unfold STree.prepare_decryption, reading, lifting, mbind, stateful_bind, result_bind.
  rewrite (shape_size _ (inv_shape _ Hinv)), perfect_leaf_count by lia.
  destruct (Z.geb_spec i (2 ^ d)); [lia|].
  destruct (STree.ensure_ratchets cs i ty t) as [[[]|e|] t1]; [|done..].
  destruct (STree.ratchet_mut t1 i ty) as [[h|dr]|e|]; [done| |done..].
  by destruct (peek cs dr g cfg) as [[k p]|e|].
Qed.

(** [prepare_decryption] initialises the ratchet if needed and peeks. *)
Lemma prepare_peek t i ty g :
  wf_config cfg -> tree_inv t -> 0 <= i < 2 ^ d ->
  match STree.ensure_ratchets cs i ty t with
  | (Ok _, t') => keeps t t' /\ exists r, get_at (STree.sender_ratchets t' ty) i = Some (Some r) /\
      ratchet_ok i ty r /\
      STree.prepare_decryption cs i ty g cfg t =
        (match r with
         | EncryptionRatchet _ => Err RatchetTypeError
         | DecryptionRatchetOf dr =>
             '(k, p) ← peek cs dr g cfg; Ok (Available k, Some (mkUpdate i ty (Decryption p)))
         end, t')
  | (Err e, t') => keeps t t' /\ ~ LawfulKdf /\ STree.prepare_decryption cs i ty g cfg t = (Err e, t')
  | (Panic, t') => ~ LawfulKdf /\ STree.prepare_decryption cs i ty g cfg t = (Panic, t')
  end.
Proof.
  intros Hc Hinv Hi. pose proof (ensure_hoare t i ty Hc Hi t (keeps_refl t Hinv)) as He.
  rewrite prepare_eq by (done || lia).
  destruct (STree.ensure_ratchets cs i ty t) as [[[]|e|] t1]; cbn in He.
  - destruct He as [Hk Hf]. split; [done|]. destruct (ratchet_mut_frontier t1 i ty Hf) as (r & Hr & Hg).
    exists r. split_and!; [done|by apply (inv_ratchets t1 (proj1 Hk))|]. by rewrite Hr.
  - by destruct He.
  - done.
Qed.

Lemma prepare_spec t i ty g :
  wf_config cfg -> tree_inv t -> 0 <= i -> u32.is_u32 g ->
  match STree.prepare_decryption cs i ty g cfg t with
  | (Ok (Available k, ou), t') => tree_inv t' /\ progress t t' /\
      exists u, ou = Some u /\ update_index u = i /\ update_secret_type u = ty /\
        update_generation u = g /\ key_ok i ty g k /\ pending_ok t' u k
  | (Err e, t') => tree_inv t' /\ progress t t'
  | (Panic, _) => True
  end.
Proof.
  intros Hc Hinv Hi Hg. destruct (Z.lt_ge_cases i (2 ^ d)) as [Hlt|Hge].
  2: { rewrite prepare_range by done. by apply keeps_progress, keeps_refl. }
  pose proof (prepare_peek t i ty g Hc Hinv (conj Hi Hlt)) as H.
  destruct (STree.ensure_ratchets cs i ty t) as [[[]|e|] t1].
  - destruct H as (Hk & r & Hr & (s & Hs & Hok) & ->). destruct r as [h|dr]; [by apply keeps_progress|].
    destruct (peek cs dr g cfg) as [[k p]|e|] eqn:Hp; cbn; [|by apply keeps_progress|done].
    destruct Hok as [Hne Hri].
    pose proof (peek_valid cs cfg (initial_ratchet_secret s) dr g k p Hc eq_refl Hri Hg Hp) as Hv.
    pose proof (valid_peeked_generation _ _ _ _ _ Hv) as Hgen.
    apply keeps_progress in Hk as [H1 H2]. split_and!; [done|done|].
    eexists; split_and!; [done|done|done|exact Hgen|exists s; split; [done|apply Hv]|].
    exists s, dr. split; [done|]. split; [done|]. split; [done|].
    unfold update_generation. cbn. by rewrite Hgen.
  - destruct H as (Hk & _ & ->). by apply keeps_progress.
  - by destruct H as (_ & ->).
Qed.

Lemma apply_spec t u k :
  wf_config cfg -> tree_inv t -> pending_ok t u k ->
  match STree.apply_decryption_update u cfg t with
  | (Ok _, t') => tree_inv t' /\ progress t t' /\
      ~ used t (update_index u) (update_secret_type u) (update_generation u) /\
      used t' (update_index u) (update_secret_type u) (update_generation u) /\
      key_ok (update_index u) (update_secret_type u) (update_generation u) k
  | (Err e, t') => t' = t
  | (Panic, _) => False
  end.
Proof.
  destruct u as [i ty [p]]. intros Hc Hinv (s & dr & Hi & Hs & Hr & Hv).
  set (g := update_generation _) in *. cbn [update_index update_secret_type].
  unfold STree.apply_decryption_update, reading, mbind, stateful_bind, STree.ratchet_mut, lifting.
  cbn [update_index update_secret_type update_peeked]. rewrite Hr. cbn [mbind option_bind id ok_or].
  destruct (inv_ratchets _ Hinv _ _ _ Hr) as (s' & Hs' & Hne & Hri).
  rewrite Hs in Hs'. injection Hs' as <-.
  destruct (consume dr p cfg) as [dr'|e|] eqn:Hcs; [|done|].
  2: { destruct p as [? ? ?|g']; cbn in Hcs; [by case_match|]. unfold past_secret_index in Hcs.
       case_match; cbn in Hcs; [|done]. destruct (_ !! _) as [[?|]|]; done. }
  destruct (consume_step cs cfg _ dr g k p dr' Hc Hri Hv Hcs) as (Hf & Hri' & Hw & Hgen).
  pose proof (fun x => fresh_after cfg dr g dr' x Hw Hgen) as Hfr.
  destruct (replace_ratchet t i ty (DecryptionRatchetOf dr) (DecryptionRatchetOf dr'))
    as (t' & -> & Hinv' & Hp & Hr'); [done|done|lia|by exists s| |].
  { split; [lia|]. intros x Hx. by apply Hfr. }
  split_and!; [done|done| | |by exists s; split; [done|apply Hv]].
  - intros (r & Hr2 & Hu). by simplify_eq.
  - exists (DecryptionRatchetOf dr'). split; [done|]. intros Hx. by destruct (Hfr g Hx).
Qed.

(** ** Sessions

    A member's calls in any order, failing ones included. *)
Inductive op : Type :=
  | OpEncrypt (i : LeafNodeIndex.t) (ty : SecretType)
  | OpPrepare (i : LeafNodeIndex.t) (ty : SecretType) (g : Z)
  | OpApply (n : nat).

(** The tree, the updates handed out and not yet dropped, and the key material
    handed out for good. *)
Record member : Type := mkMember {
  m_tree : SecretTree;
  m_pending : list (PendingRatchetUpdate * RatchetKeyMaterial);
  m_log : list (LeafNodeIndex.t * SecretType * Z * RatchetKeyMaterial);
}.

(** [None] when a call panics. *)
Definition exec (m : member) (o : op) : option member :=
  match o with
  | OpEncrypt i ty =>
      match STree.secret_for_encryption cs i ty (m_tree m) with
      | (Ok (g, k), t') => Some (mkMember t' (m_pending m) ((i, ty, g, k) :: m_log m))
      | (Err _, t') => Some (mkMember t' (m_pending m) (m_log m))
      | (Panic, _) => None
      end
  | OpPrepare i ty g =>
      match STree.prepare_decryption cs i ty g cfg (m_tree m) with
      | (Ok (Available k, Some u), t') => Some (mkMember t' (m_pending m ++ [(u, k)]) (m_log m))
      | (Ok (_, None), t') | (Err _, t') => Some (mkMember t' (m_pending m) (m_log m))
      | (Panic, _) => None
      end
  | OpApply n =>
      match m_pending m !! n with
      | None => Some m
      | Some (u, k) =>
          match STree.apply_decryption_update u cfg (m_tree m) with
          | (Ok _, t') => Some (mkMember t' (m_pending m)
              ((update_index u, update_secret_type u, update_generation u, k) :: m_log m))
          | (Err _, t') => Some (mkMember t' (m_pending m) (m_log m))
          | (Panic, _) => None
          end
      end
  end.

Fixpoint execs (m : member) (os : list op) : option member :=
  match os with [] => Some m | o :: os' => m' ← exec m o; execs m' os' end.

Definition new_member : member := mkMember (STree.new es (perfect d) own) [] [].

Definition wf_op (o : op) : Prop :=
  match o with
  | OpEncrypt i _ => 0 <= i
  | OpPrepare i _ g => 0 <= i /\ u32.is_u32 g
  | OpApply _ => True
  end.

Definition logged (x : LeafNodeIndex.t * SecretType * Z * RatchetKeyMaterial) t : Prop :=
  let '(i, ty, g, k) := x in used t i ty g /\ key_ok i ty g k.

Record member_inv (m : member) : Prop := {
  mem_tree : tree_inv (m_tree m);
  mem_pending : Forall (fun uk => pending_ok (m_tree m) uk.1 uk.2) (m_pending m);
  mem_log : Forall (fun x => logged x (m_tree m)) (m_log m);
  mem_nodup : NoDup (m_log m).*1;
}.

Lemma member_step m t' :
  member_inv m -> tree_inv t' -> progress (m_tree m) t' ->
  member_inv (mkMember t' (m_pending m) (m_log m)).
Proof.
  intros [H1 H2 H3 H4] Ht Hp. split; cbn; [done| | |done].
  - eapply Forall_impl; [exact H2|]. intros x. by apply pending_progress.
  - eapply Forall_impl; [exact H3|]. intros [[[i ty] g] k] [Hu Hk]. split; [|done].
    by eapply used_progress.
Qed.

Lemma member_log m i ty g k :
  member_inv m -> ~ used (m_tree m) i ty g -> forall t', tree_inv t' -> progress (m_tree m) t' ->
  used t' i ty g -> key_ok i ty g k -> member_inv (mkMember t' (m_pending m) ((i, ty, g, k) :: m_log m)).
Proof.
  intros Hm Hn t' Ht Hp Hu Hk. destruct (member_step m t' Hm Ht Hp) as [H1 H2 H3 H4].
  split; cbn; [done|done|constructor; [by split|done]|]. apply NoDup_cons. split; [|done].
  intros ([[[i' ty'] g'] k'] & Heq & Hin)%list_elem_of_fmap. cbn in Heq. simplify_eq.
  destruct (Forall_forall (fun x => logged x (m_tree m)) (m_log m)) as [Hf _].
  by destruct (Hf (mem_log _ Hm) _ Hin).
Qed.

Lemma exec_inv m o m' : wf_config cfg -> wf_op o -> member_inv m -> exec m o = Some m' -> member_inv m'.
Proof.
  intros Hc Ho Hm He. pose proof (mem_tree _ Hm) as Ht. destruct o as [i ty|i ty g|n]; cbn in He.
  - pose proof (encryption_spec (m_tree m) i ty Hc Ht Ho) as H.
    destruct (STree.secret_for_encryption cs i ty (m_tree m)) as [[[g k]|e|] t']; simplify_eq.
    + destruct H as (H1 & H2 & _ & H3 & H4 & H5 & _). by apply member_log.
    + destruct H. by apply member_step.
  - destruct Ho as [Hi Hg]. pose proof (prepare_spec (m_tree m) i ty g Hc Ht Hi Hg) as H.
    destruct (STree.prepare_decryption cs i ty g cfg (m_tree m)) as [[[[k] ou]|e|] t']; simplify_eq.
    + destruct H as (H1 & H2 & u & -> & _ & _ & _ & _ & Hp). simplify_eq.
      destruct (member_step m t' Hm H1 H2) as [G1 G2 G3 G4]. split; cbn; [done| |done|done].
      apply Forall_app; split; [done|]. by apply Forall_singleton.
    + destruct H. by apply member_step.
  - destruct (m_pending m !! n) as [[u k]|] eqn:Hl; [|by simplify_eq].
    pose proof (Forall_lookup_1 _ _ _ _ (mem_pending _ Hm) Hl) as Hp. cbn in Hp.
    pose proof (apply_spec (m_tree m) u k Hc Ht Hp) as H.
    destruct (STree.apply_decryption_update u cfg (m_tree m)) as [[[]|e|] t']; simplify_eq; [|by destruct m].
    destruct H as (H1 & H2 & H3 & H4 & H5). by apply member_log.
Qed.

Lemma execs_inv m os m' :
  wf_config cfg -> Forall wf_op os -> member_inv m -> execs m os = Some m' -> member_inv m'.
Proof.
  intros Hc Hw. revert m. induction Hw as [|o os Ho _ IH]; intros m Hm He; cbn in He.
  - by simplify_eq.
  - destruct (exec m o) as [m1|] eqn:H1; cbn in He; [|done]. by eapply IH, He; eapply exec_inv.
Qed.

Lemma new_member_inv : member_inv new_member.
Proof. split; cbn; [apply new_inv|constructor..]. Qed.
End Facts.

Section Totality.
Context {OC : OpenMlsCrypto} {TC : TlsCodec} {LK : LawfulKdf} (cs : Ciphersuite).
Context (cfg : SenderRatchetConfiguration) (d : Z) (es : Secret) (own : LeafNodeIndex.t).
Context (Hd : 0 <= d <= 29) (Hc : wf_config cfg).

(** What [prepare_decryption] answers, with the state it leaves. *)
Definition prepare_spec_total (t : SecretTree) (i : LeafNodeIndex.t) (ty : SecretType) (g : Z)
    (out : result SecretTreeError (DecryptionSecret * option PendingRatchetUpdate) * SecretTree) : Prop :=
  if 2 ^ d <=? i then out = (Err IndexOutOfBounds, t)
  else if i =? own then exists t', out = (Err RatchetTypeError, t')
  else exists t' dr s,
    ratchet_ref cs d es i ty = Ok s /\
    get_at (STree.sender_ratchets t' ty) i = Some (Some (DecryptionRatchetOf dr)) /\
    out = ('(k, p) ← peek cs dr g cfg; Ok (Available k, Some (mkUpdate i ty (Decryption p))), t') /\
    peek_spec cs cfg (initial_ratchet_secret s) dr g (peek cs dr g cfg).

Lemma prepare_meets_spec t i ty g :
  tree_inv cs cfg d es own t -> 0 <= i -> u32.is_u32 g ->
  prepare_spec_total t i ty g (STree.prepare_decryption cs i ty g cfg t).
Proof.
  intros Hinv Hi Hg. unfold prepare_spec_total. destruct (Z.leb_spec (2 ^ d) i).
  { by eapply prepare_range. }
  pose proof (prepare_peek cs cfg d es own Hd t i ty g Hc Hinv ltac:(lia)) as H1.
  destruct (STree.ensure_ratchets cs i ty t) as [[[]|e|] t1].
  - destruct H1 as (_ & r & Hr & (s & Hs & Hok) & ->).
    destruct r as [h|dr]; [destruct Hok as [-> _]; rewrite Z.eqb_refl; eauto|].
    destruct Hok as [Hne Hri]. rewrite (proj2 (Z.eqb_neq _ _) Hne).
    exists t1, dr, s. split_and!; [done|done|done|]. by apply peek_meets_spec.
  - by destruct H1 as (_ & H1 & _).
  - by destruct H1.
Qed.

Lemma peek_spec_no_panic s dr g : ~ peek_spec cs cfg s dr g Panic.
Proof. unfold peek_spec. repeat case_match; naive_solver. Qed.

Lemma prepare_no_panic t i ty g t' :
  tree_inv cs cfg d es own t -> 0 <= i -> u32.is_u32 g ->
  STree.prepare_decryption cs i ty g cfg t <> (Panic, t').
Proof.
  intros Hinv Hi Hg He. pose proof (prepare_meets_spec t i ty g Hinv Hi Hg) as H.
  rewrite He in H. unfold prepare_spec_total in H.
  destruct (2 ^ d <=? i); [done|]. destruct (i =? own); [by destruct H|].
  destruct H as (t1 & dr & s & _ & _ & Hp & Hs). revert Hp Hs.
  destruct (peek cs dr g cfg) as [[k p]|e|]; [done..|]. intros _. apply peek_spec_no_panic.
Qed.

Lemma exec_total m o :
  wf_op o -> member_inv cs cfg d es own m -> exists m', exec cs cfg m o = Some m'.
Proof.
  intros Ho Hm. pose proof (mem_tree _ _ _ _ _ _ Hm) as Ht. destruct o as [i ty|i ty g|n]; cbn.
  - pose proof (encryption_spec cs cfg d es own Hd (m_tree m) i ty Hc Ht Ho) as H.
    destruct (STree.secret_for_encryption cs i ty (m_tree m)) as [[[g k]|e|] t']; [eauto..|done].
  - destruct Ho as [Hi Hg]. pose proof (fun t' => prepare_no_panic (m_tree m) i ty g t' Ht Hi Hg) as H.
    destruct (STree.prepare_decryption cs i ty g cfg (m_tree m)) as [[[[k] [u|]]|e|] t']; [eauto..|].
    by destruct (H t').
  - destruct (m_pending m !! n) as [[u k]|] eqn:Hl; [|eauto].
    pose proof (Forall_lookup_1 _ _ _ _ (mem_pending _ _ _ _ _ _ Hm) Hl) as Hp. cbn in Hp.
    pose proof (apply_spec cs cfg d es own Hd (m_tree m) u k Hc Ht Hp) as H.
    destruct (STree.apply_decryption_update u cfg (m_tree m)) as [[[]|e|] t']; [eauto..|done].
Qed.

Lemma execs_total m os :
  Forall wf_op os -> member_inv cs cfg d es own m -> exists m', execs cs cfg m os = Some m'.
Proof.
  intros Hw. revert m. induction Hw as [|o os Ho _ IH]; intros m Hm; cbn; [eauto|].
  destruct (exec_total m o Ho Hm) as [m1 H1]. rewrite H1. cbn. apply IH. by eapply exec_inv.
Qed.
End Totality.

(** ** Properties *)

Import Toy.

(** C14. Over any sequence of encryptions, decryption preparations and updates of
    a member, failing and repeated ones included, no generation of any sender
    ratchet is handed out twice, and each is handed out with the key material
    that the derivation along the path from the root to the sender's leaf
    prescribes, irrespective of the order in which ratchets were initialised. *)
Theorem secret_tree_no_reuse {OC : OpenMlsCrypto} {TC : TlsCodec} cs cfg d es own os m :
  0 <= d <= 29 -> wf_config cfg -> Forall wf_op os ->
  execs cs cfg (new_member d es own) os = Some m ->
  NoDup (m_log m).*1 /\
  forall i ty g k, (i, ty, g, k) ∈ m_log m ->
    exists s, ratchet_ref cs d es i ty = Ok s /\
      chain_key cs (initial_ratchet_secret s) (Z.to_nat g) = Ok k.
Proof.
  intros Hd Hc Hw He.
  pose proof (execs_inv cs cfg d es own Hd _ _ _ Hc Hw (new_member_inv cs cfg d es own Hd) He) as Hm.
  split; [apply (mem_nodup _ _ _ _ _ _ Hm)|]. intros i ty g k Hin.
  by apply (proj1 (Forall_forall _ _) (mem_log _ _ _ _ _ _ Hm)) in Hin as [_ Hk].
Qed.

(** A member at leaf 2 of a tree of four leaves. *)
Definition toy_ops : list op :=
  [OpEncrypt 2 ApplicationSecret; OpPrepare 1 ApplicationSecret 2; OpApply 0;
   OpPrepare 1 ApplicationSecret 0; OpApply 1; OpApply 0; OpEncrypt 2 HandshakeSecret; OpPrepare 3 HandshakeSecret 0;
   OpPrepare 7 HandshakeSecret 0; OpApply 2; OpEncrypt 2 ApplicationSecret].

Definition toy_member : member :=
  Eval vm_compute in
    default (new_member 2 toy_secret 2) (execs toy_cs toy_cfg (new_member 2 toy_secret 2) toy_ops).

Lemma toy_member_run :
  execs toy_cs toy_cfg (new_member 2 toy_secret 2) toy_ops = Some toy_member.
Proof. vm_compute. reflexivity. Qed.

Lemma toy_ops_wf : Forall wf_op toy_ops.
Proof. repeat constructor; by vm_compute. Qed.

Lemma secret_tree_no_reuse_witness :
  (m_log toy_member).*1 =
    [(2, ApplicationSecret, 1); (3, HandshakeSecret, 0); (2, HandshakeSecret, 0);
     (1, ApplicationSecret, 0); (1, ApplicationSecret, 2); (2, ApplicationSecret, 0)] /\
  NoDup (m_log toy_member).*1.
Proof.
  split; [reflexivity|].
  apply (secret_tree_no_reuse toy_cs toy_cfg 2 toy_secret 2 toy_ops toy_member);
    [lia|by vm_compute|exact toy_ops_wf|exact toy_member_run].
Defined.

(** C20. Two members that share the epoch's encryption secret and the tree size
    agree: whenever both are handed out key material for the same leaf, type
    and generation, one encrypting and the other decrypting, it is the same. *)
Theorem members_agree {OC : OpenMlsCrypto} {TC : TlsCodec} cs cfg cfg' d es a b osa osb ma mb i ty g k k' :
  0 <= d <= 29 -> wf_config cfg -> wf_config cfg' -> Forall wf_op osa -> Forall wf_op osb ->
  execs cs cfg (new_member d es a) osa = Some ma ->
  execs cs cfg' (new_member d es b) osb = Some mb ->
  (i, ty, g, k) ∈ m_log ma -> (i, ty, g, k') ∈ m_log mb -> k = k'.
Proof.
  intros Hd Hc Hc' Hwa Hwb Ha Hb Hka Hkb.
  pose proof (execs_inv cs cfg d es a Hd _ _ _ Hc Hwa (new_member_inv cs cfg d es a Hd) Ha) as Hma.
  pose proof (execs_inv cs cfg' d es b Hd _ _ _ Hc' Hwb (new_member_inv cs cfg' d es b Hd) Hb) as Hmb.
  apply (proj1 (Forall_forall _ _) (mem_log _ _ _ _ _ _ Hma)) in Hka as [_ (s & Hs & Hk)].
  apply (proj1 (Forall_forall _ _) (mem_log _ _ _ _ _ _ Hmb)) in Hkb as [_ (s' & Hs' & Hk')].
  congruence.
Qed.

(** The member at leaf 1 that sends what leaf 2 decrypts. *)
Definition toy_sender : member :=
  Eval vm_compute in
    default (new_member 2 toy_secret 1)
      (execs toy_cs toy_cfg (new_member 2 toy_secret 1) [OpEncrypt 1 ApplicationSecret]).

Lemma toy_sender_run :
  execs toy_cs toy_cfg (new_member 2 toy_secret 1) [OpEncrypt 1 ApplicationSecret] = Some toy_sender.
Proof. vm_compute. reflexivity. Qed.

Lemma members_agree_witness :
  exists k k', (1, ApplicationSecret, 0, k) ∈ m_log toy_sender /\
    (1, ApplicationSecret, 0, k') ∈ m_log toy_member /\ k = k'.
Proof.
  eexists _, _. assert (forall (A B C : Prop), A -> B -> (A -> B -> C) -> A /\ B /\ C) as Hand by tauto.
  apply Hand; [apply list_elem_of_here|do 3 apply list_elem_of_further; apply list_elem_of_here|].
  apply (members_agree toy_cs toy_cfg toy_cfg 2 toy_secret 1 2 [OpEncrypt 1 ApplicationSecret] toy_ops
           toy_sender toy_member 1 ApplicationSecret 0);
    [lia|by vm_compute|by vm_compute|repeat constructor; by vm_compute|exact toy_ops_wf
    |exact toy_sender_run|exact toy_member_run].
Defined.

(** Forward secrecy of the tree: once the ratchets of a leaf are initialised,
    neither the leaf nor any node on its path to the root holds a secret any
    more; before that, exactly one node of that path does, and it is the secret
    that the derivation from the root prescribes. *)
Theorem secret_tree_frontier {OC : OpenMlsCrypto} {TC : TlsCodec} cs cfg d es own os m l :
  0 <= d <= 29 -> wf_config cfg -> Forall wf_op os ->
  execs cs cfg (new_member d es own) os = Some m -> 0 <= l < 2 ^ d ->
  let secret_at k := STree.get_node (m_tree m) (node_at k (l / 2 ^ k)) in
  ((forall ty, exists r, STree.ratchet_opt (m_tree m) l ty = Ok (Some r)) /\
   forall k, 0 <= k <= d -> secret_at k = Ok None) \/
  ((forall ty, STree.ratchet_opt (m_tree m) l ty = Ok None) /\
   exists h s, 0 <= h <= d /\ node_ref cs es (Z.to_nat (d - h)) (l / 2 ^ h) = Ok s /\
     forall k, 0 <= k <= d -> secret_at k = Ok (if k =? h then Some (mkSecretTreeNode s) else None)).
Proof.
  intros Hd Hc Hw He Hl secret_at.
  pose proof (execs_inv cs cfg d es own Hd _ _ _ Hc Hw (new_member_inv cs cfg d es own Hd) He) as Hm.
  pose proof (mem_tree _ _ _ _ _ _ Hm) as Ht. pose proof (inv_shape _ _ _ _ _ _ Ht) as Hs.
  destruct (inv_frontier _ _ _ _ _ _ Ht l Hl) as [h Hf]. pose proof Hf as (Hb & Hst & _).
  assert (forall k, 0 <= k <= d -> secret_at k = Ok (mkSecretTreeNode <$> stored (m_tree m) k (l / 2 ^ k))) as Hat.
  { intros k Hk. unfold secret_at. eapply get_node_stored; [done|done|]. by apply in_tree_anc. }
  pose proof (fun ty => ratchet_opt_frontier d (m_tree m) l h ty Hf) as Hro.
  destruct (decide (h = -1)) as [->|Hne]; [left|right]; split.
  - intros ty. destruct (Hro ty) as (o & -> & Ho & _). destruct (proj2 Ho eq_refl) as [r ->]. eauto.
  - intros k Hk. rewrite Hat by done. destruct (stored _ k _) eqn:E; [|done]. exfalso.
    assert (k = -1); [|lia]. apply Hst; [done|by rewrite E].
  - intros ty. destruct (Hro ty) as ([r|] & -> & Ho & _); [|done]. by destruct Hne; apply Ho.
  - destruct (proj2 (Hst h ltac:(lia)) eq_refl) as [s E]. exists h, s. split; [lia|]. split.
    { eapply inv_sound; [exact Ht| |done]. apply in_tree_anc; lia. }
    intros k Hk. rewrite Hat by done. destruct (Z.eqb_spec k h) as [->|Hkh]; [by rewrite E|].
    destruct (stored _ k _) eqn:E'; [|done]. destruct Hkh. apply Hst; [done|by rewrite E'].
Qed.

Lemma secret_tree_frontier_witness :
  STree.get_node (m_tree toy_member) (node_at 0 1) = Ok None /\
  STree.get_node (m_tree toy_member) (node_at 1 0) = Ok None /\
  STree.get_node (m_tree toy_member) (node_at 2 0) = Ok None.
Proof.
  destruct (secret_tree_frontier toy_cs toy_cfg 2 toy_secret 2 toy_ops toy_member 1) as [[_ H]|[H _]];
    [lia|by vm_compute|exact toy_ops_wf|exact toy_member_run|lia| |].
  { split_and!; [apply (H 0)|apply (H 1)|apply (H 2)]; lia. }
  exfalso. specialize (H HandshakeSecret). vm_compute in H. discriminate H.
Defined.

(** C35. With a key derivation function that meets its specification no sequence
    of calls panics, and [prepare_decryption] answers as specified: an index
    outside the tree and the member's own index are rejected, and every other
    request is answered by the sender's ratchet, started from the reference
    secret, with the answer specified for its generation. *)
Theorem secret_tree_total {OC : OpenMlsCrypto} {TC : TlsCodec} {LK : LawfulKdf} cs cfg d es own os i ty g :
  0 <= d <= 29 -> wf_config cfg -> Forall wf_op os -> 0 <= i -> u32.is_u32 g ->
  exists m, execs cs cfg (new_member d es own) os = Some m /\
    prepare_spec_total cs cfg d es own (m_tree m) i ty g
      (STree.prepare_decryption cs i ty g cfg (m_tree m)).
Proof.
  intros Hd Hc Hw Hi Hg.
  destruct (execs_total cs cfg d es own Hd Hc _ os Hw (new_member_inv cs cfg d es own Hd)) as [m He].
  exists m. split; [done|].
  pose proof (execs_inv cs cfg d es own Hd _ _ _ Hc Hw (new_member_inv cs cfg d es own Hd) He) as Hm.
  apply prepare_meets_spec; [done|done|apply Hm|done|done].
Qed.

Lemma secret_tree_total_witness :
  exists m, execs toy_cs toy_cfg (new_member 2 toy_secret 2) toy_ops = Some m /\
    prepare_spec_total toy_cs toy_cfg 2 toy_secret 2 (m_tree m) 1 ApplicationSecret 1
      (STree.prepare_decryption toy_cs 1 ApplicationSecret 1 toy_cfg (m_tree m)).
Proof.
  apply (secret_tree_total toy_cs toy_cfg 2 toy_secret 2 toy_ops 1 ApplicationSecret 1);
    [lia|by vm_compute|exact toy_ops_wf|lia|by vm_compute].
Defined.
