(* ===== verification/SecretTreeProgress.v ===== *)
(** * The secret tree: generations

    Which generation the secret tree hands out next, that the next generation of a sender
    can always be decrypted, and that an update that was just prepared can be applied. *)
From S2P Require Import Prelude TreeMath TreeMathFacts Crypto CryptoFacts SenderRatchet SenderRatchetFacts SecretTree SecretTreeFacts.

Section Generations.
Context {OC : OpenMlsCrypto} {TC : TlsCodec} (cs : Ciphersuite).
Context (cfg : SenderRatchetConfiguration) (d : Z) (es : Secret) (own : LeafNodeIndex.t).
Context (Hd : 0 <= d <= 29) (Hc : wf_config cfg).
Implicit Types t : SecretTree.

Definition ratchet_generation (r : SenderRatchet) : Z :=
  match r with EncryptionRatchet h => generation h | DecryptionRatchetOf dr => generation (ratchet_head dr) end.

(** The generation after the last one that was used. *)
Definition next_generation t (i : LeafNodeIndex.t) (ty : SecretType) : Z :=
  match get_at (STree.sender_ratchets t ty) i with Some (Some r) => ratchet_generation r | _ => 0 end.

(** Only ratchet [(i, ty)] moved, to generation [n]. *)
Definition advanced t t' (i : LeafNodeIndex.t) (ty : SecretType) (n : Z) : Prop :=
  forall j ty', next_generation t' j ty' = if bool_decide (ty' = ty /\ j = i) then n else next_generation t j ty'.

Lemma extends_next t t' i ty : extends t t' -> next_generation t' i ty = next_generation t i ty.
Proof.
  intros [H1 H2]. unfold next_generation. destruct (get_at (STree.sender_ratchets t ty) i) as [[r|]|] eqn:E.
  { by rewrite (H1 _ _ _ E). }
  all: destruct (get_at (STree.sender_ratchets t' ty) i) as [[r|]|] eqn:E'; try done.
  all: destruct (H2 _ _ _ E') as [H3|H3]; [congruence|]; destruct r; cbn in *; naive_solver.
Qed.

Lemma set_ratchet_next t t1 i ty r u t' :
  extends t t1 -> shape d own t1 -> 0 <= i < 2 ^ d -> STree.set_ratchet i ty r t1 = (Ok u, t') ->
  advanced t t' i ty (ratchet_generation r).
Proof.
  intros He Hs Hi E. destruct (set_ratchet_spec d own Hd t1 i ty r Hs Hi) as (t2 & E2 & _ & _ & Hg).
  rewrite E in E2. injection E2 as _ ->. intros j ty'. rewrite <- (extends_next t t1 j ty' He). unfold next_generation. rewrite Hg.
  by case_bool_decide.
Qed.

Lemma encryption_next t i ty g k t' :
  tree_inv cs cfg d es own t -> 0 <= i -> STree.secret_for_encryption cs i ty t = (Ok (g, k), t') ->
  g = next_generation t i ty /\ g < u32.MAX /\ advanced t t' i ty (g + 1).
Proof.
  intros Hinv Hi E. unfold STree.secret_for_encryption in E. apply stateful_bind_Ok in E as ([] & t1 & E1 & E).
  destruct (Z.lt_ge_cases i (2 ^ d)) as [Hlt|Hge].
  2: { by rewrite (ensure_out_of_range cs cfg d es own) in E1. }
  pose proof (ensure_hoare cs cfg d es own Hd t i ty Hc (conj Hi Hlt) t (keeps_refl _ _ _ _ _ _ Hinv)) as He. rewrite E1 in He.
  destruct He as [[Hinv1 Hext] Hf]. destruct (ratchet_mut_frontier d t1 i ty Hf) as (r & Hr & Hg).
  unfold mbind, stateful_bind, reading in E. rewrite Hr in E. destruct r as [h|dr]; [|done].
  destruct (inv_ratchets _ _ _ _ _ _ Hinv1 _ _ _ Hg) as (s & _ & -> & Hb & _).
  unfold lifting in E. destruct (ratchet_forward cs h) as [[[g' k'] h']| |] eqn:Hfw; [|done..].
  destruct (forward_generation cs _ _ _ _ Hb Hfw) as (-> & Hg' & Hmax).
  destruct (STree.set_ratchet own ty (EncryptionRatchet h') t1) as [[[]| |] t2] eqn:Es; [|done..].
  injection E as <- <- <-. pose proof (inv_shape _ _ _ _ _ _ Hinv1) as Hs. split_and!.
  - rewrite <- (extends_next t t1 own ty Hext). unfold next_generation. by rewrite Hg.
  - lia.
  - rewrite <- Hg'. by eapply (set_ratchet_next t t1 own ty (EncryptionRatchet h')).
Qed.

Lemma prepare_extends {LK : LawfulKdf} t i ty g r t' :
  tree_inv cs cfg d es own t -> 0 <= i -> STree.prepare_decryption cs i ty g cfg t = (r, t') -> keeps cs cfg d es own t t'.
Proof.
  intros Hinv Hi E. destruct (Z.lt_ge_cases i (2 ^ d)) as [Hlt|Hge].
  2: { rewrite (prepare_range cs cfg d es own Hd) in E by done. injection E as _ <-. by apply keeps_refl. }
  pose proof (prepare_peek cs cfg d es own Hd t i ty g Hc Hinv (conj Hi Hlt)) as H.
  destruct (STree.ensure_ratchets cs i ty t) as [[[]|e|] t1].
  - destruct H as (Hk & r1 & _ & _ & H). rewrite H in E. by injection E as _ <-.
  - destruct H as (Hk & _ & H). rewrite H in E. by injection E as _ <-.
  - by destruct H as (H & _).
Qed.

(** The next generation of another leaf, or one not too far ahead, is handed out. *)
Lemma prepare_next {LK : LawfulKdf} t i ty g :
  tree_inv cs cfg d es own t -> 0 <= i < 2 ^ d -> i <> own ->
  next_generation t i ty <= g <= next_generation t i ty + maximum_forward_distance cfg -> 0 <= g < u32.MAX ->
  exists k u t', STree.prepare_decryption cs i ty g cfg t = (Ok (Available k, Some u), t').
Proof.
  intros Hinv Hi Hne Hg Hm. pose proof (prepare_meets_spec cs cfg d es own Hd Hc t i ty g Hinv ltac:(lia)) as H.
  unfold prepare_spec_total in H. destruct (Z.leb_spec (2 ^ d) i); [lia|]. destruct (Z.eqb_spec i own); [done|].
  destruct H as (t' & dr & s & _ & Hr & Hp & Hs); [unfold u32.is_u32, u32.MAX in *; lia|].
  pose proof (prepare_extends t i ty g _ t' Hinv ltac:(lia) Hp) as [_ He]. apply (extends_next _ _ i ty) in He.
  unfold next_generation in He at 1. rewrite Hr in He. cbn in He. unfold peek_spec in Hs. rewrite He in Hs.
  destruct (Z.ltb_spec (next_generation t i ty + maximum_forward_distance cfg) g); [lia|].
  destruct (Z.leb_spec (next_generation t i ty) g); [|lia]. destruct (Z.eqb_spec g u32.MAX); [lia|].
  destruct Hs as (k & h' & sk & E & _). rewrite Hp, E. cbn. eauto.
Qed.

Lemma peek_consumable dr g k p : peek cs dr g cfg = Ok (k, p) -> exists dr', consume dr p cfg = Ok dr'.
Proof.
  unfold peek. destruct (_ && _); [done|]. destruct (_ && _); [done|]. destruct (_ >=? _).
  - intros E. apply bind_Ok in E as ([h sk] & _ & E). apply bind_Ok in E as ([[g' k'] h'] & _ & E). injection E as <- <-.
    cbn [consume]. rewrite Z.eqb_refl. cbn. eauto.
  - intros E. apply bind_Ok in E as (ix & Ei & E). apply bind_Ok in E as (o & Eo & E). apply bind_Ok in E as (k' & Ek & E).
    injection E as <- <-. cbn [consume]. rewrite Ei. cbn [mbind result_bind]. rewrite Eo. cbn [mbind result_bind].
    rewrite Ek. cbn. eauto.
Qed.

(** An update that was just prepared applies, and moves its ratchet past the generation. *)
Lemma apply_prepared {LK : LawfulKdf} t i ty g k u t' :
  tree_inv cs cfg d es own t -> 0 <= i -> u32.is_u32 g ->
  STree.prepare_decryption cs i ty g cfg t = (Ok (Available k, Some u), t') ->
  exists t'', STree.apply_decryption_update u cfg t' = (Ok tt, t'') /\
    advanced t t'' i ty (Z.max (next_generation t i ty) (g + 1)).
Proof.
  intros Hinv Hi Hg E. pose proof (prepare_meets_spec cs cfg d es own Hd Hc t i ty g Hinv Hi Hg) as H.
  pose proof (prepare_extends t i ty g _ t' Hinv Hi E) as [Hinv' He]. rewrite E in H. unfold prepare_spec_total in H.
  destruct (Z.leb_spec (2 ^ d) i); [done|]. destruct (Z.eqb_spec i own); [by destruct H|].
  destruct H as (t1 & dr & s & Hs & Hr & H & _). injection H as Hp <-.
  destruct (peek cs dr g cfg) as [[k' p]| |] eqn:Ep; [|done..]. injection Hp as <- ->.
  destruct (peek_consumable dr g k p Ep) as [dr' Ec]. destruct (inv_ratchets _ _ _ _ _ _ Hinv' _ _ _ Hr) as (s' & Hs' & _ & Hri).
  pose proof (peek_valid cs cfg (initial_ratchet_secret s') dr g k p Hc eq_refl Hri Hg Ep) as Hv.
  destruct (consume_step cs cfg _ dr g k p dr' Hc Hri Hv Ec) as (_ & _ & _ & Hgen).
  pose proof (inv_shape _ _ _ _ _ _ Hinv') as Hsh.
  destruct (set_ratchet_spec d own Hd t' i ty (DecryptionRatchetOf dr') Hsh ltac:(lia)) as (t'' & Et & _).
  exists t''. split.
  - unfold STree.apply_decryption_update, reading, mbind, stateful_bind, STree.ratchet_mut, lifting.
    cbn [update_index update_secret_type update_peeked]. rewrite Hr. cbn [mbind option_bind id ok_or]. by rewrite Ec, Et.
  - pose proof (extends_next t t' i ty He) as Hn. unfold next_generation in Hn at 1. rewrite Hr in Hn. cbn in Hn.
    rewrite <- Hn, <- Hgen. by eapply (set_ratchet_next t t' i ty (DecryptionRatchetOf dr')).
Qed.
End Generations.
