(* ===== verification/Pprf.v ===== *)
(** * The puncturable PRF of the exporter

    schedule/pprf/ (mod.rs, prefix.rs, input.rs) and schedule/application_export_tree.rs:
    a tree of secrets that is evaluated at each input at most once. The nodes are indexed
    by a prefix, the path from the root; the code is generic in it ([Prefix]). *)
From S2P Require Import Prelude TreeMath BinaryTree Crypto SenderRatchet SecretTree.

Inductive PprfError : Type :=
  | PprfIndexOutOfBounds | PuncturedInput | ChildDerivationError (e : CryptoError) | PrefixMaxDepthExceeded.

(** ** Prefixes *)

(** The trait [Prefix]; [push_bit] leaves the prefix as it is when it fails. *)
Class Prefix (P : Type) {EP : EqDecision P} {CP : Countable P} : Type := {
  MAX_DEPTH : nat;
  prefix_new : P;
  push_bit : P -> bool -> result PprfError P;
}.
Arguments MAX_DEPTH P {_ _ _}.

Definition MAX_INPUT_LEN (P : Type) `{Prefix P} : nat := Nat.div (MAX_DEPTH P) 8.

(** [PrefixLen] for lengths in a [u8]. *)
Module PLen.
Definition new (max_depth len : Z) : result PprfError Z :=
  if max_depth <? len then Err PrefixMaxDepthExceeded else Ok len.

Definition incremented (max_depth len : Z) : result PprfError Z :=
  if 2 ^ 64 - 1 <? len + 1 then Err PrefixMaxDepthExceeded
  else if 2 ^ 8 - 1 <? len + 1 then Err PrefixMaxDepthExceeded
  else new max_depth (len + 1).
End PLen.

Record Prefix16 : Type := mkPrefix16 { prefix_bits : Z; prefix_len : Z }.
#[export] Instance prefix16_eq_dec : EqDecision Prefix16.
Proof. solve_decision. Defined.
#[export] Instance prefix16_countable : Countable Prefix16.
Proof.
  refine (inj_countable' (fun p => (prefix_bits p, prefix_len p)) (fun q => mkPrefix16 q.1 q.2) _). by intros [].
Defined.

Definition push_bit16 (self : Prefix16) (bit : bool) : result PprfError Prefix16 :=
  len ← PLen.incremented 16 (prefix_len self);
  Ok (mkPrefix16 (Z.lor (Z.shiftl (prefix_bits self) 1 mod 2 ^ 16) (Z.b2z bit)) len).

#[export] Instance prefix_16 : Prefix Prefix16 := {| MAX_DEPTH := 16; prefix_new := mkPrefix16 0 0; push_bit := push_bit16 |}.

(** ** The tree *)
Record Pprf (P : Type) `{Prefix P} : Type := mkPprf { pprf_nodes : gmap P Secret; pprf_width : Z }.
Arguments mkPprf {P _ _ _} _ _.
Arguments pprf_nodes {P _ _ _} _.
Arguments pprf_width {P _ _ _} _.

(** Bit [bit_index] of [index], the most significant bit of a byte first. *)
Definition get_bit (index : bytes) (bit_index : nat) : result PprfError bool :=
  byte ← returns (index !! Nat.div bit_index 8);
  Ok (Z.testbit byte (7 - Z.of_nat (Nat.modulo bit_index 8))).

Section Pprf.
Context {OC : OpenMlsCrypto} {TC : TlsCodec} {P : Type} `{Prefix P}.

Definition new_with_size (secret : Secret) (size : TreeSize.t) : Pprf P :=
  mkPprf {[prefix_new := secret]} (TreeSize.leaf_count size).

(** The first loop of [evaluate], with [remaining] levels below [prefix]: removes the deepest
    node on the path to the input. *)
Fixpoint find_node (leaf_index : bytes) (remaining : nat) (prefix : P) :
    stateful (gmap P Secret) PprfError (nat * P * Secret) :=
  node ← reading (fun nodes => Ok (nodes !! prefix));
  match node with
  | Some node => _ ← modifying (delete prefix); mret (remaining, prefix, node)
  | None =>
      match remaining with
      | O => lifting (Err PuncturedInput)
      | S remaining' =>
          bit ← lifting (get_bit leaf_index (MAX_DEPTH P - remaining));
          prefix' ← lifting (push_bit prefix bit);
          find_node leaf_index remaining' prefix'
      end
  end.

(** The second loop: walks down to the leaf and keeps the nodes of the copath. *)
Fixpoint walk (ciphersuite : Ciphersuite) (leaf_index : bytes) (remaining : nat) (prefix : P) (current_node : Secret) :
    stateful (gmap P Secret) PprfError Secret :=
  match remaining with
  | O => mret current_node
  | S remaining' =>
      '(left, right) ← lifting (map_err ChildDerivationError (STree.derive_child_secrets ciphersuite current_node));
      bit ← lifting (get_bit leaf_index (MAX_DEPTH P - remaining));
      let '(next_node, copath_node) := if bit : bool then (right, left) else (left, right) in
      copath_prefix ← lifting (push_bit prefix (negb bit));
      _ ← modifying (<[copath_prefix := copath_node]>);
      prefix' ← lifting (push_bit prefix bit);
      walk ciphersuite leaf_index remaining' prefix' next_node
  end.

Definition evaluate (ciphersuite : Ciphersuite) (input : bytes) : stateful (Pprf P) PprfError Secret := fun self =>
  if (MAX_INPUT_LEN P <? length input)%nat then (Err PprfIndexOutOfBounds, self)
  else
    let '(r, nodes) :=
      ('(remaining, prefix, node) ← find_node input (MAX_DEPTH P) prefix_new;
       walk ciphersuite input remaining prefix node) (pprf_nodes self) in
    (r, mkPprf nodes (pprf_width self)).
End Pprf.

(** ** The exporter tree *)
Module ExportTree.
Section ExportTree.
Context {OC : OpenMlsCrypto} {TC : TlsCodec}.

Definition new (application_exporter : Secret) : Pprf Prefix16 :=
  new_with_size application_exporter (TreeSize.from_leaf_count (2 ^ 16 - 1)).

Definition safe_export_secret (ciphersuite : Ciphersuite) (component_id : Z) : stateful (Pprf Prefix16) PprfError Secret :=
  evaluate ciphersuite (be_bytes 2 component_id).
End ExportTree.
End ExportTree.
