(* ===== verification/PprfFacts.v ===== *)
(** * The puncturable PRF: theorems

    The tree of secrets implements a function that can be evaluated once at each input:
    the reference [ggm], iterated derivation along the bits of the input. *)
From S2P Require Import Prelude TreeMath TreeMathFacts BinaryTree BinaryTreeFacts Crypto CryptoFacts SenderRatchet SenderRatchetFacts SecretTree SecretTreeFacts Pprf.

(** ** Prefixes as paths *)

(** The prefix of a path from the root. *)
Definition pushes {P} `{Prefix P} (path : list bool) : result PprfError P := try_fold push_bit path prefix_new.

(** A prefix stands for one path, and every path down to the leaves has a prefix. *)
Class LawfulPrefix (P : Type) `{Prefix P} : Prop := {
  depth_bytes : MAX_DEPTH P = (8 * MAX_INPUT_LEN P)%nat;
  pushes_Ok path : (length path <= MAX_DEPTH P)%nat -> exists p, pushes (P := P) path = Ok p;
  pushes_inj path path' (p : P) : pushes path = Ok p -> pushes path' = Ok p -> path = path';
}.

(** The bits of the path as a number, the first one most significant. *)
Definition path_bits (path : list bool) : Z := foldl (fun z b => 2 * z + Z.b2z b) 0 path.

Lemma path_bits_snoc path b : path_bits (path ++ [b]) = 2 * path_bits path + Z.b2z b.
Proof. unfold path_bits. by rewrite foldl_app. Qed.

Lemma path_bits_range path : 0 <= path_bits path < 2 ^ Z.of_nat (length path).
Proof.
  induction path as [|b path IH] using rev_ind; [done|]. rewrite path_bits_snoc, length_app. cbn [length].
  replace (Z.of_nat (length path + 1)) with (Z.of_nat (length path) + 1) by lia. rewrite Z.pow_add_r by lia.
  destruct b; cbn; lia.
Qed.

Lemma pushes16 path : (length path <= 16)%nat -> pushes path = Ok (mkPrefix16 (path_bits path) (Z.of_nat (length path))).
Proof.
  induction path as [|b path IH] using rev_ind; intros Hl; [done|]. rewrite length_app in *. cbn [length] in *.
  unfold pushes in *. rewrite try_fold_app, IH by lia. cbn [try_fold mbind result_bind push_bit prefix_16]. unfold push_bit16, PLen.incremented, PLen.new.
  cbn [prefix_len prefix_bits]. rewrite !(proj2 (Z.ltb_ge _ _)) by lia. cbn [mbind result_bind]. rewrite path_bits_snoc.
  pose proof (path_bits_range path) as Hr. assert (2 ^ Z.of_nat (length path) <= 2 ^ 15) by (apply Z.pow_le_mono_r; lia).
  rewrite Z.shiftl_mul_pow2 by lia. rewrite Z.mod_small by lia. f_equal. f_equal; [|lia].
  rewrite <- Z.add_nocarry_lor; [destruct b; cbn; lia|]. apply Z.bits_inj'. intros n Hn. rewrite Z.land_spec, Z.bits_0.
  replace (path_bits path * 2 ^ 1) with (2 * path_bits path + Z.b2z false) by (cbn; lia).
  destruct (decide (n = 0)) as [->|]; [by rewrite Z.testbit_0_r|].
  replace n with (Z.succ (n - 1)) by lia. rewrite Z.testbit_succ_r by lia. destruct b; cbn [Z.b2z]; rewrite ?Z.bits_0, ?andb_false_r; [|done].
  rewrite (Z.bits_above_log2 1) by (cbn; lia). by rewrite andb_false_r.
Qed.

Lemma path_bits_inj path path' : length path = length path' -> path_bits path = path_bits path' -> path = path'.
Proof.
  revert path'. induction path as [|b path IH] using rev_ind; intros path' Hl E; [by destruct path'|].
  destruct path' as [|b' path' _] using rev_ind; [by rewrite length_app in Hl; cbn in Hl; lia|].
  rewrite !length_app in Hl. cbn [length] in Hl. rewrite !path_bits_snoc in E.
  assert (b = b') as -> by (destruct b, b'; cbn in E; try done; lia). f_equal. apply IH; lia.
Qed.

#[export] Instance lawful_prefix16 : LawfulPrefix Prefix16.
Proof.
  assert (forall path p, pushes (P := Prefix16) path = Ok p -> (length path <= 16)%nat) as Hmax.
  { intros path. induction path as [|b path IH] using rev_ind; intros p E; [cbn; lia|]. unfold pushes in E. rewrite try_fold_app in E.
    apply bind_Ok in E as (q & Eq & E). pose proof (IH _ Eq) as Hl. change (pushes path = Ok q) in Eq. rewrite pushes16 in Eq by done. injection Eq as <-. rewrite length_app. cbn [length].
    cbn [try_fold push_bit prefix_16] in E. apply bind_Ok in E as (q & E & _). apply bind_Ok in E as (len & E & _). unfold PLen.incremented, PLen.new in E.
    cbn [prefix_len] in E. destruct (_ <? _); [done|]. destruct (_ <? _); [done|]. destruct (Z.ltb_spec 16 (Z.of_nat (length path) + 1)); [done|lia]. }
  split; [done|intros path Hl; eexists; by apply pushes16|].
  intros path path' p E E'. pose proof (Hmax _ _ E). pose proof (Hmax _ _ E'). rewrite pushes16 in E, E' by done.
  apply path_bits_inj; [|congruence]. assert (Z.of_nat (length path) = Z.of_nat (length path')) by congruence. lia.
Defined.

(** ** The reference *)
Section Reference.
Context {OC : OpenMlsCrypto} {TC : TlsCodec} (cs : Ciphersuite).

(** The secret at the end of a path from the secret [s]. *)
Fixpoint ggm (s : Secret) (path : list bool) : result CryptoError Secret :=
  match path with
  | [] => Ok s
  | b :: path => '(left, right) ← STree.derive_child_secrets cs s; ggm (if b then right else left) path
  end.

Lemma ggm_app s p q : ggm s (p ++ q) = (s' ← ggm s p; ggm s' q).
Proof.
  revert s. induction p as [|b p IH]; intros s; [done|]. cbn. destruct (STree.derive_child_secrets cs s) as [[l r]| |]; [|done..]. apply IH.
Qed.

Lemma ggm_total `{!LawfulKdf} s path : exists s', ggm s path = Ok s'.
Proof.
  revert s. induction path as [|b path IH]; intros s; [by exists s|]. cbn.
  destruct (derive_child_secrets_total cs _ s) as (l & r & ->). apply IH.
Qed.
End Reference.

(** The siblings of the nodes below [l] on the path [r]. *)
Fixpoint copath (l r : list bool) : list (list bool) :=
  match r with [] => [] | b :: r => (l ++ [negb b]) :: copath (l ++ [b]) r end.

Lemma copath_length l r : length (copath l r) = length r.
Proof. revert l. induction r as [|b r IH]; intros l; [done|]. cbn. by rewrite IH. Qed.

Lemma copath_elem l r x :
  x ∈ copath l r <-> exists r1 b r2, r = r1 ++ b :: r2 /\ x = l ++ r1 ++ [negb b].
Proof.
  revert l. induction r as [|b r IH]; intros l; cbn.
  - split; [by intros ?%elem_of_nil|]. intros (r1 & b & r2 & E & _). by destruct r1.
  - rewrite elem_of_cons, IH. split.
    + intros [->|(r1 & c & r2 & -> & ->)]; [by exists [], b, r|]. exists (b :: r1), c, r2. by rewrite <- app_assoc.
    + intros (r1 & c & r2 & E & ->). destruct r1 as [|a r1]; [injection E as -> ->; by left|]. injection E as -> ->. right.
      exists r1, c, r2. by rewrite <- app_assoc.
Qed.

(** Two paths of the same length that differ split at a sibling. *)
Lemma copath_split l (r c : list bool) :
  length r = length c -> r <> c -> exists x, x ∈ copath l r /\ x `prefix_of` l ++ c.
Proof.
  revert l c. induction r as [|b r IH]; intros l c Hl Hn; [by destruct c|]. destruct c as [|a c]; [done|]. cbn [length copath] in *.
  destruct (decide (a = b)) as [->|Hab].
  - destruct (IH (l ++ [b]) c) as (x & Hx & Hp); [lia|congruence|]. exists x. split; [by right|]. by rewrite <- app_assoc in Hp.
  - exists (l ++ [negb b]). split; [by left|]. exists c. rewrite <- app_assoc. by destruct a, b.
Qed.

Lemma copath_not_prefix l r x : x ∈ copath l r -> ~ x `prefix_of` l ++ r.
Proof.
  intros (r1 & b & r2 & -> & ->)%copath_elem [k E]. rewrite <- !app_assoc in E. apply app_inv_head, app_inv_head in E. by destruct b.
Qed.

Lemma copath_incomparable l r x y : x ∈ copath l r -> y ∈ copath l r -> x `prefix_of` y -> x = y.
Proof.
  intros (r1 & b & r2 & -> & ->)%copath_elem (s1 & c & s2 & E & ->)%copath_elem [k Ek].
  rewrite <- !app_assoc in Ek. apply app_inv_head in Ek. revert s1 E Ek. induction r1 as [|a r1 IH]; intros [|d s1] E Ek; cbn in *.
  - by injection E as -> ->.
  - injection E as -> ->. injection Ek as Ek _. by destruct d.
  - injection E as -> _. injection Ek as Ek _. by destruct c.
  - injection E as -> E. injection Ek as Ek. specialize (IH s1 E Ek). apply app_inv_head in IH. by rewrite IH.
Qed.

(** ** The nodes *)
Section Nodes.
Context {OC : OpenMlsCrypto} {TC : TlsCodec} {P : Type} `{Prefix P} {LP : LawfulPrefix P} {LK : LawfulKdf}.
Context (cs : Ciphersuite) (root : Secret).
Implicit Types (nodes : gmap P Secret) (input : bytes) (l r b c : list bool).

(** The bits of an input, in the order in which [get_bit] counts them. *)
Definition bits_of input : list bool :=
  (fun i => Z.testbit (default 0 (input !! Nat.div i 8)) (7 - Z.of_nat (Nat.modulo i 8))) <$> seq 0 (MAX_DEPTH P).

Lemma length_bits_of input : length (bits_of input) = MAX_DEPTH P.
Proof. unfold bits_of. by rewrite length_fmap, length_seq. Qed.

Lemma get_bit_Ok input i : length input = MAX_INPUT_LEN P -> (i < MAX_DEPTH P)%nat ->
  exists bit, get_bit input i = Ok bit /\ bits_of input !! i = Some bit.
Proof.
  intros Hl Hi. unfold get_bit, bits_of. rewrite list_lookup_fmap, lookup_seq_lt by done.
  destruct (lookup_lt_is_Some_2 input (Nat.div i 8)) as [z Hz].
  { rewrite Hl. apply Nat.Div0.div_lt_upper_bound. by rewrite <- depth_bytes. }
  cbn [fmap option_fmap option_map Nat.add]. rewrite Hz. by eexists.
Qed.

(** The node at a path. *)
Definition node_at nodes (path : list bool) : option Secret :=
  match pushes path with Ok p => nodes !! (p : P) | _ => None end.

Lemma pushes_snoc path bit (p : P) : pushes path = Ok p -> pushes (path ++ [bit]) = push_bit p bit.
Proof. intros E. unfold pushes in *. rewrite try_fold_app, E. cbn. by destruct (push_bit p bit). Qed.

Lemma node_at_delete nodes l (p : P) x : pushes l = Ok p ->
  node_at (delete p nodes) x = if decide (x = l) then None else node_at nodes x.
Proof.
  intros E. unfold node_at. case_decide as Hx; [subst; rewrite E; apply lookup_delete_eq|].
  destruct (pushes x) as [q| |] eqn:Eq; [|done..]. apply lookup_delete_ne. intros ->. by apply Hx, (pushes_inj _ _ q).
Qed.

Lemma node_at_insert nodes l (p : P) s x : pushes l = Ok p ->
  node_at (<[p := s]> nodes) x = if decide (x = l) then Some s else node_at nodes x.
Proof.
  intros E. unfold node_at. case_decide as Hx; [subst; rewrite E; apply lookup_insert_eq|].
  destruct (pushes x) as [q| |] eqn:Eq; [|done..]. apply lookup_insert_ne. intros ->. by apply Hx, (pushes_inj _ _ q).
Qed.

Lemma find_node_eq input n (p : P) nodes :
  find_node input n p nodes =
    match nodes !! p with
    | Some s => (Ok (n, p, s), delete p nodes)
    | None => match n with
              | O => (Err PuncturedInput, nodes)
              | S n' => match get_bit input (MAX_DEPTH P - n) with
                        | Ok bit => match push_bit p bit with
                                    | Ok p' => find_node input n' p' nodes
                                    | Err e => (Err e, nodes)
                                    | Panic => (Panic, nodes)
                                    end
                        | Err e => (Err e, nodes)
                        | Panic => (Panic, nodes)
                        end
              end
    end.
Proof.
  destruct n; cbn [find_node]; unfold mbind, stateful_bind, reading, modifying, lifting, mret, stateful_ret; destruct (nodes !! p);
    done || (destruct (get_bit _ _); [|done..]; by destruct (push_bit _ _)).
Qed.

(** The bit that follows [l] on the path of the input. *)
Lemma next_bit input l bit r : length input = MAX_INPUT_LEN P -> bits_of input = l ++ bit :: r ->
  get_bit input (MAX_DEPTH P - S (length r)) = Ok bit /\ (length l < MAX_DEPTH P)%nat.
Proof.
  intros Hl Hb. pose proof (length_bits_of input) as HD. rewrite Hb, length_app in HD. cbn [length] in HD. split; [|lia].
  destruct (get_bit_Ok input (MAX_DEPTH P - S (length r))) as (bit' & Eb & Hb'); [done|lia|].
  replace (MAX_DEPTH P - S (length r))%nat with (length l) in Hb' by lia. rewrite Hb, list_lookup_middle in Hb' by done. by injection Hb' as <-.
Qed.

Lemma push_next l (p : P) bit : pushes l = Ok p -> (length l < MAX_DEPTH P)%nat ->
  exists q, push_bit p bit = Ok q /\ pushes (l ++ [bit]) = Ok q.
Proof.
  intros Hp Hl. destruct (pushes_Ok (P := P) (l ++ [bit])) as [q Hq]; [rewrite length_app; cbn; lia|].
  exists q. by rewrite <- (pushes_snoc _ _ _ Hp).
Qed.

(** The first loop finds the first node on the path. *)
Lemma find_node_spec input l r (p : P) nodes :
  length input = MAX_INPUT_LEN P -> bits_of input = l ++ r -> pushes l = Ok p ->
  (exists r1 r2 q s, r = r1 ++ r2 /\ pushes (l ++ r1) = Ok q /\ node_at nodes (l ++ r1) = Some s /\
     find_node input (length r) p nodes = (Ok (length r2, q, s), delete q nodes)) \/
  ((forall r1, r1 `prefix_of` r -> node_at nodes (l ++ r1) = None) /\ find_node input (length r) p nodes = (Err PuncturedInput, nodes)).
Proof.
  intros Hlen. revert l p. induction r as [|bit r IH]; intros l p Hb Hp; rewrite find_node_eq; destruct (nodes !! p) as [s|] eqn:Es.
  1,3: left; eexists [], _, p, s; rewrite (app_nil_r l); unfold node_at; by rewrite Hp.
  - right. split; [|done]. intros r1 ->%prefix_nil_inv. rewrite (app_nil_r l). unfold node_at. by rewrite Hp.
  - cbn [length]. destruct (next_bit _ _ _ _ Hlen Hb) as [-> Hl]. destruct (push_next l p bit Hp Hl) as (p' & -> & Hp').
    destruct (IH (l ++ [bit]) p') as [(r1 & r2 & q & s & -> & Hq & Hs & E)|[Hn E]]; [by rewrite <- app_assoc|done|left|right].
    + exists (bit :: r1), r2, q, s. rewrite <- app_assoc in Hq, Hs. done.
    + split; [|done]. intros r1 Hr. destruct r1 as [|a r1]; [rewrite (app_nil_r l); unfold node_at; by rewrite Hp|].
      pose proof (prefix_cons_inv_1 _ _ _ _ Hr) as ->. apply prefix_cons_inv_2, Hn in Hr. by rewrite <- app_assoc in Hr.
Qed.

(** The second loop returns the reference secret and adds the nodes of the copath. *)
Lemma walk_spec input l r (p : P) s nodes :
  length input = MAX_INPUT_LEN P -> bits_of input = l ++ r -> pushes l = Ok p -> ggm cs root l = Ok s ->
  exists out nodes', walk cs input (length r) p s nodes = (Ok out, nodes') /\ ggm cs root (l ++ r) = Ok out /\
    (base.size nodes' <= base.size nodes + length r)%nat /\
    forall x, (x ∈ copath l r /\ exists k, node_at nodes' x = Some k /\ ggm cs root x = Ok k) \/
              (x ∉ copath l r /\ node_at nodes' x = node_at nodes x).
Proof.
  intros Hlen. revert l p s nodes. induction r as [|bit r IH]; intros l p s nodes Hb Hp Hs.
  - exists s, nodes. rewrite app_nil_r. split; [done|]. split; [done|]. split; [lia|]. right. split; [apply not_elem_of_nil|done].
  - destruct (next_bit _ _ _ _ Hlen Hb) as [Hbit Hl]. cbn [walk length copath].
    destruct (derive_child_secrets_total cs _ s) as (left & right & Hc). destruct (push_next l p bit Hp Hl) as (p' & Epush & Hp').
    destruct (push_next l p (negb bit) Hp Hl) as (c & Ec & Hc').
    destruct (IH (l ++ [bit]) p' (if bit then right else left) (<[c := if bit then left else right]> nodes)) as (out & nodes' & E & Hg & Hsz & Hn);
      [by rewrite <- app_assoc|done| |].
    { rewrite ggm_app, Hs. cbn. rewrite Hc. by destruct bit. }
    exists out, nodes'. split.
    { unfold mbind at 1, stateful_bind at 1, lifting at 1. rewrite Hc. cbn [map_err]. unfold mbind at 1, stateful_bind at 1, lifting at 1. rewrite Hbit.
      destruct bit; unfold mbind, stateful_bind, lifting, modifying; cbn [negb] in *; by rewrite Ec, Epush. }
    split; [by rewrite <- app_assoc in Hg|]. split; [pose proof (map_size_insert c (if bit then left else right) nodes) as Hins; destruct (nodes !! c); cbn in Hins; lia|].
    intros x. destruct (Hn x) as [[Hx Hk]|[Hx Hk]].
    + left. split; [by right|done].
    + rewrite (node_at_insert nodes (l ++ [negb bit])) in Hk by done. case_decide as Hd; [left; subst x; split; [by left|]|right].
      * eexists. split; [exact Hk|]. rewrite ggm_app, Hs. cbn. rewrite Hc. by destruct bit.
      * split; [|done]. rewrite not_elem_of_cons. done.
Qed.

(** The nodes of a tree that was evaluated at [used]: they have the secrets of the reference,
    none is below another, and they cover exactly the inputs that are left. *)
Record pprf_inv (used : list (list bool)) nodes : Prop := {
  pi_value x s : node_at nodes x = Some s -> ggm cs root x = Ok s;
  pi_below x y : is_Some (node_at nodes x) -> is_Some (node_at nodes y) -> x `prefix_of` y -> x = y;
  pi_used b x : b ∈ used -> x `prefix_of` b -> node_at nodes x = None;
  pi_left b : length b = MAX_DEPTH P -> b ∉ used -> exists x, x `prefix_of` b /\ is_Some (node_at nodes x);
}.

Lemma pushes_nil : pushes [] = Ok (prefix_new : P).
Proof. done. Qed.

Lemma new_inv_pprf size : pprf_inv [] (pprf_nodes (new_with_size (P := P) root size)).
Proof.
  assert (forall x, node_at (pprf_nodes (new_with_size (P := P) root size)) x = if decide (x = []) then Some root else None) as Hn.
  { intros x. cbn [new_with_size pprf_nodes]. rewrite <- insert_empty, (node_at_insert ∅ [] prefix_new root x pushes_nil).
    repeat case_decide; try done. unfold node_at. by destruct (pushes x). }
  split.
  - intros x s. rewrite Hn. case_decide; [|done]. intros [= <-]. by subst.
  - intros x y Hx Hy. rewrite Hn in Hx, Hy. by repeat case_decide; subst; destruct Hx, Hy.
  - by intros b x ?%elem_of_nil.
  - intros b _ _. exists []. rewrite Hn. split; [apply prefix_nil|by eexists].
Qed.

Lemma comparable (x y b : list bool) : x `prefix_of` b -> y `prefix_of` b -> x `prefix_of` y \/ y `prefix_of` x.
Proof. intros Hx Hy. by destruct (prefix_weak_total _ _ _ Hx Hy); auto. Qed.

(** The nodes that an evaluation at [l ++ r] leaves, when it found the node at [l]. *)
Lemma punctured_inv used nodes nodes' l r s :
  pprf_inv used nodes -> length (l ++ r) = MAX_DEPTH P -> node_at nodes l = Some s ->
  (forall x, (x ∈ copath l r /\ exists k, node_at nodes' x = Some k /\ ggm cs root x = Ok k) \/
             (x ∉ copath l r /\ node_at nodes' x = if decide (x = l) then None else node_at nodes x)) ->
  pprf_inv ((l ++ r) :: used) nodes'.
Proof.
  intros [Hv Hb Hu Hl] Hlen Hs Hn.
  assert (forall x, is_Some (node_at nodes' x) -> x ∈ copath l r \/ x <> l /\ is_Some (node_at nodes x)) as Hold.
  { intros x Hx. destruct (Hn x) as [[? _]|[_ E]]; [by left|right]. rewrite E in Hx. case_decide; [by destruct Hx|done]. }
  assert (forall x, x ∈ copath l r -> l `prefix_of` x) as Hlx.
  { intros x (r1 & c & r2 & _ & ->)%copath_elem. by exists (r1 ++ [negb c]). }
  assert (forall x y, x <> l -> is_Some (node_at nodes x) -> y ∈ copath l r -> ~ x `prefix_of` y /\ ~ y `prefix_of` x) as Hmix.
  { intros x y Hx Hsx Hy. split; intros Hp.
    - destruct (comparable x l y) as [Hxl|Hxl]; [done|by apply Hlx|..]; apply Hx; [|symmetry]; apply Hb; eauto.
    - apply Hx. symmetry. apply Hb; eauto. etrans; [by apply Hlx|done]. }
  split.
  - intros x k Hx. destruct (Hn x) as [[_ (k' & E & Hk)]|[_ E]]; [congruence|]. rewrite E in Hx. case_decide; [done|by apply Hv].
  - intros x y Hx Hy Hp. destruct (Hold x Hx) as [Hcx|[Hnx Hsx]], (Hold y Hy) as [Hcy|[Hny Hsy]].
    + by eapply copath_incomparable.
    + by destruct (Hmix y x Hny Hsy Hcx).
    + by destruct (Hmix x y Hnx Hsx Hcy).
    + by apply Hb.
  - intros c x Hc Hp. destruct (node_at nodes' x) as [k|] eqn:E; [exfalso|done].
    destruct (Hold x) as [Hx|[Hne Hx]]; [by eexists|..].
    + apply elem_of_cons in Hc as [->|Hc]; [by eapply copath_not_prefix|].
      rewrite (Hu c l) in Hs; [done|done|]. etrans; [by apply Hlx|done].
    + apply elem_of_cons in Hc as [->|Hc]; [|rewrite (Hu c x Hc Hp) in Hx; by destruct Hx].
      destruct (comparable x l (l ++ r)) as [Hxl|Hxl]; [done|by apply prefix_app_r|..]; apply Hne; [|symmetry]; apply Hb; eauto.
  - intros c Hc [Hcr Hcu]%not_elem_of_cons. destruct (Hl c Hc Hcu) as (x & Hp & Hx). destruct (decide (x = l)) as [->|Hne].
    + destruct Hp as [c' ->]. rewrite !length_app in *. destruct (copath_split l r c') as (y & Hy & Hyc); [lia|congruence|].
      exists y. split; [done|]. destruct (Hn y) as [[_ (k & -> & _)]|[]]; [by eexists|done].
    + exists x. split; [done|]. destruct (Hn x) as [[_ (k & -> & _)]|[_ ->]]; [by eexists|]. by rewrite decide_False.
Qed.

Lemma evaluate_step used (self : Pprf P) input :
  pprf_inv used (pprf_nodes self) -> length input = MAX_INPUT_LEN P ->
  (bits_of input ∈ used /\ evaluate cs input self = (Err PuncturedInput, self)) \/
  (bits_of input ∉ used /\ exists out self', evaluate cs input self = (Ok out, self') /\ ggm cs root (bits_of input) = Ok out /\
     pprf_inv (bits_of input :: used) (pprf_nodes self') /\
     (base.size (pprf_nodes self') + 1 <= base.size (pprf_nodes self) + MAX_DEPTH P)%nat).
Proof.
  intros Hinv Hlen. unfold evaluate. rewrite Hlen, Nat.ltb_irrefl.
  destruct (find_node_spec input [] (bits_of input) prefix_new (pprf_nodes self)) as [(r1 & r2 & q & s & Hb & Hq & Hs & E)|[Hn E]]; [done..| |];
    rewrite length_bits_of in E.
  - right. cbn [app] in *. rewrite Hb. split; [intros Hin; by rewrite (pi_used _ _ Hinv _ r1 Hin (prefix_app_r _ _ _ (reflexivity _))) in Hs|].
    destruct (walk_spec input r1 r2 q s (delete q (pprf_nodes self)) Hlen Hb Hq (pi_value _ _ Hinv _ _ Hs)) as (out & nodes' & Ew & Hg & Hsz & Hw).
    exists out, (mkPprf nodes' (pprf_width self)). split; [unfold mbind, stateful_bind; by rewrite E, Ew|]. split; [done|]. split.
    + eapply punctured_inv; [done|by rewrite <- Hb, length_bits_of|done|]. intros x.
      specialize (Hw x). by rewrite (node_at_delete _ r1 q x Hq) in Hw.
    + cbn [pprf_nodes]. unfold node_at in Hs. rewrite Hq in Hs. pose proof (map_size_delete_Some q (pprf_nodes self)) as Hd.
      rewrite Hs in Hd. specialize (Hd (mk_is_Some _ _ eq_refl)). pose proof (length_bits_of input) as HD. rewrite Hb, length_app in HD.
      assert (base.size (pprf_nodes self) <> 0%nat).
      { intros Ez. apply map_size_empty_inv in Ez. by rewrite Ez, lookup_empty in Hs. } lia.
  - left. split; [|unfold mbind, stateful_bind; rewrite E; by destruct self]. destruct (decide (bits_of input ∈ used)) as [|Hu]; [done|exfalso].
    destruct (pi_left _ _ Hinv _ (length_bits_of input) Hu) as (x & Hp & Hx). pose proof (Hn x Hp) as Ex. cbn [app] in Ex. rewrite Ex in Hx. by destruct Hx.
Qed.
(** A shorter input runs out of bits: neither loop comes to the end. *)
Lemma short_bit input l (r : nat) :
  (length input < MAX_INPUT_LEN P)%nat -> (length l + r = MAX_DEPTH P)%nat -> (length l <= 8 * length input)%nat ->
  (0 < r)%nat /\ (length l < MAX_DEPTH P)%nat /\
  (get_bit input (MAX_DEPTH P - r) = Panic \/
   exists bit, get_bit input (MAX_DEPTH P - r) = Ok bit /\ (length l < 8 * length input)%nat).
Proof.
  intros Hlen Hr Hl. pose proof (depth_bytes (P := P)) as HD. split; [lia|]. split; [lia|].
  replace (MAX_DEPTH P - r)%nat with (length l) by lia. unfold get_bit.
  destruct (input !! Nat.div (length l) 8) as [byte|] eqn:E; cbn; [right|by left].
  eexists. split; [done|]. apply lookup_lt_Some in E. pose proof (Nat.div_mod_eq (length l) 8).
  pose proof (Nat.mod_upper_bound (length l) 8). lia.
Qed.

Lemma walk_short input (r : nat) l (p : P) s nodes :
  (length input < MAX_INPUT_LEN P)%nat -> pushes l = Ok p -> (length l + r = MAX_DEPTH P)%nat -> (length l <= 8 * length input)%nat ->
  (walk cs input r p s nodes).1 = Panic.
Proof.
  intros Hlen. revert l p s nodes. induction r as [|r IH]; intros l p s nodes Hp Hr Hl; destruct (short_bit _ _ _ Hlen Hr Hl) as (H0 & Hm & Hb); [lia|].
  cbn [walk]. destruct (derive_child_secrets_total cs _ s) as (left & right & Hc).
  unfold mbind at 1, stateful_bind at 1, lifting at 1. rewrite Hc. cbn [map_err]. unfold mbind at 1, stateful_bind at 1, lifting at 1.
  destruct Hb as [->|(bit & -> & Hb)]; [done|]. destruct (push_next l p bit Hp Hm) as (p' & Epush & Hp').
  destruct (push_next l p (negb bit) Hp Hm) as (c & Ec & _).
  destruct bit; unfold mbind, stateful_bind, lifting, modifying; cbn [negb] in *; rewrite Ec, Epush;
    (eapply (IH (l ++ [_])); [done|rewrite length_app; cbn; lia..]).
Qed.

Lemma find_short input (r : nat) l (p : P) nodes :
  (length input < MAX_INPUT_LEN P)%nat -> pushes l = Ok p -> (length l + r = MAX_DEPTH P)%nat -> (length l <= 8 * length input)%nat ->
  (find_node input r p nodes).1 = Panic \/
  exists (r' : nat) l' p' s nodes', find_node input r p nodes = (Ok (r', p', s), nodes') /\ pushes l' = Ok p' /\
    (length l' + r' = MAX_DEPTH P)%nat /\ (length l' <= 8 * length input)%nat.
Proof.
  intros Hlen. revert l p. induction r as [|r IH]; intros l p Hp Hr Hl; destruct (short_bit _ _ _ Hlen Hr Hl) as (H0 & Hm & Hb); [lia|].
  cbn [find_node]. unfold mbind, stateful_bind, reading, lifting, modifying, mret, stateful_ret. destruct (nodes !! p) as [s|] eqn:Es.
  - right. exists (S r), l, p, s, (delete p nodes). split_and!; [reflexivity|done|lia|lia].
  - destruct Hb as [->|(bit & -> & Hb)]; [by left|].
    destruct (push_next l p bit Hp Hm) as (p' & Epush & Hp'). rewrite Epush. apply (IH (l ++ [bit])); [done|rewrite length_app; cbn; lia..].
Qed.

Lemma evaluate_short (self : Pprf P) input : (length input < MAX_INPUT_LEN P)%nat -> (evaluate cs input self).1 = Panic.
Proof.
  intros Hlen. unfold evaluate. rewrite (proj2 (Nat.ltb_ge _ _)) by lia. unfold mbind, stateful_bind.
  destruct (find_short input (MAX_DEPTH P) [] prefix_new (pprf_nodes self) Hlen pushes_nil) as [E|(r & l & p & s & nodes & E & Hp & Hr & Hl)];
    [cbn; lia..| |].
  - destruct (find_node _ _ _ _) as [[]]; cbn in E; by simplify_eq.
  - rewrite E. pose proof (walk_short input r l p s nodes Hlen Hp Hr Hl) as Ew. by destruct (walk _ _ _ _ _ _).
Qed.
End Nodes.

(** ** Runs *)
Section Runs.
Context {OC : OpenMlsCrypto} {TC : TlsCodec} {P : Type} `{Prefix P}.

(** The outcomes of evaluating [self] at each of [inputs], and the tree that is left. *)
Fixpoint evaluations (cs : Ciphersuite) (inputs : list bytes) (self : Pprf P) : list (result PprfError Secret) * Pprf P :=
  match inputs with
  | [] => ([], self)
  | input :: inputs =>
      let '(r, self) := evaluate cs input self in
      let '(rs, self) := evaluations cs inputs self in (r :: rs, self)
  end.

(** The outcomes of a function that can be evaluated once at each input; longer inputs than the
    prefixes are refused. *)
Fixpoint one_time (f : bytes -> result PprfError Secret) (used inputs : list bytes) : list (result PprfError Secret) :=
  match inputs with
  | [] => []
  | input :: inputs =>
      if (MAX_INPUT_LEN P <? length input)%nat then Err PprfIndexOutOfBounds :: one_time f used inputs
      else (if decide (input ∈ used) then Err PuncturedInput else f input) :: one_time f (input :: used) inputs
  end.

(** Inputs of the length of the prefixes, of bytes. *)
Definition full_input (input : bytes) : Prop := length input = MAX_INPUT_LEN P /\ Forall (fun b => 0 <= b < 256) input.

(** The same or longer. *)
Definition not_short (input : bytes) : Prop := (MAX_INPUT_LEN P <= length input)%nat /\ Forall (fun b => 0 <= b < 256) input.

Lemma full_not_short input : full_input input -> not_short input.
Proof. intros [H1 H2]. split; [lia|done]. Qed.

Definition pprf_value (cs : Ciphersuite) (root : Secret) (input : bytes) : result PprfError Secret :=
  map_err ChildDerivationError (ggm cs root (bits_of (P := P) input)).

Lemma bits_of_inj {LP : LawfulPrefix P} x y : full_input x -> full_input y -> bits_of (P := P) x = bits_of (P := P) y -> x = y.
Proof.
  intros [Hlx Hx] [Hly Hy] E. apply list_eq_same_length with (MAX_INPUT_LEN P); [done..|]. intros i a b Hi Ha Hb.
  rewrite Forall_lookup in Hx, Hy. specialize (Hx i a Ha). specialize (Hy i b Hb). apply Z.bits_inj'. intros n Hn.
  destruct (Z_lt_le_dec n 8) as [Hn8|Hn8].
  - assert (bits_of (P := P) x !! (8 * i + Z.to_nat (7 - n))%nat = bits_of (P := P) y !! (8 * i + Z.to_nat (7 - n))%nat) as Ei by (by rewrite E).
    unfold bits_of in Ei. pose proof (depth_bytes (P := P)) as HD. rewrite !list_lookup_fmap, lookup_seq_lt in Ei by lia.
    cbn [fmap option_fmap option_map Nat.add] in Ei. rewrite (Nat.mul_comm 8 i), Nat.div_add_l, Nat.div_small, Nat.add_0_r in Ei by lia.
    rewrite Nat.add_comm, Nat.Div0.mod_add, Nat.mod_small in Ei by lia. rewrite Ha, Hb in Ei. cbn [default] in Ei. injection Ei as Ei.
    by replace (7 - Z.of_nat (Z.to_nat (7 - n))) with n in Ei by lia.
  - assert (forall z, 0 <= z < 256 -> Z.testbit z n = false) as Hz; [|by rewrite !Hz].
    intros z Hz. rewrite <- (Z.mod_small z (2 ^ 8)) by done. by apply Z.mod_pow2_bits_high.
Qed.

Lemma evaluations_spec {LP : LawfulPrefix P} {LK : LawfulKdf} cs root used inputs (self : Pprf P) :
  pprf_inv cs root (bits_of (P := P) <$> used) (pprf_nodes self) -> Forall full_input used -> Forall not_short inputs ->
  let '(rs, self') := evaluations cs inputs self in
  rs = one_time (pprf_value cs root) used inputs /\
  (exists used', used ++ filter (fun input => length input = MAX_INPUT_LEN P) inputs ⊆ used' /\
     pprf_inv cs root (bits_of (P := P) <$> used') (pprf_nodes self')) /\
  (base.size (pprf_nodes self') <= base.size (pprf_nodes self) + (MAX_DEPTH P - 1) * length inputs)%nat.
Proof.
  revert used self. induction inputs as [|input inputs IH]; intros used self Hi Hu HF; cbn [evaluations one_time].
  - split; [done|]. split; [|cbn [length]; lia]. exists used. by rewrite app_nil_r.
  - apply Forall_cons in HF as [[Hlen Hbytes] HF]. destruct (Nat.ltb_spec (MAX_INPUT_LEN P) (length input)) as [Hlong|Hle].
    { assert (evaluate cs input self = (Err PprfIndexOutOfBounds, self)) as ->.
      { unfold evaluate. by rewrite (proj2 (Nat.ltb_lt _ _) Hlong). }
      specialize (IH used self Hi Hu HF). destruct (evaluations cs inputs self) as [rs self'].
      destruct IH as (-> & (used' & Hsub & Hinv) & Hsz). split; [done|]. split; [|cbn [length]; rewrite Nat.mul_succ_r; lia].
      exists used'. rewrite filter_cons_False by lia. done. }
    assert (full_input input) as Hin by (split; [lia|done]). rewrite filter_cons_True by apply Hin.
    assert (bits_of (P := P) input ∈ bits_of (P := P) <$> used <-> input ∈ used) as Hmem.
    { split; [|by apply list_elem_of_fmap_2]. intros (y & E & Hy)%list_elem_of_fmap. rewrite Forall_forall in Hu.
      by rewrite (bits_of_inj input y) by auto. }
    destruct (evaluate_step cs root (bits_of <$> used) self input Hi (proj1 Hin)) as [[Hm ->]|(Hm & out & self' & -> & Hg & Hi' & Hs)].
    + rewrite decide_True by (by apply Hmem). assert (pprf_inv cs root (bits_of (P := P) <$> (input :: used)) (pprf_nodes self)) as Hi'.
      { destruct Hi as [H1 H2 H3 H4]. split; [done|done| |].
        - intros b x [->|Hb]%elem_of_cons; eauto.
        - intros b Hb [_ Hn]%not_elem_of_cons. eauto. }
      specialize (IH (input :: used) self Hi' ltac:(by constructor) HF). destruct (evaluations cs inputs self) as [rs self''].
      destruct IH as (-> & (used' & Hsub & Hinv) & Hsz). split; [done|]. split; [|cbn [length]; rewrite Nat.mul_succ_r; lia]. exists used'. split; [set_solver|done].
    + rewrite decide_False by (by rewrite <- Hmem).
      specialize (IH (input :: used) self' Hi' ltac:(by constructor) HF). destruct (evaluations cs inputs self') as [rs self''].
      destruct IH as (-> & (used' & Hsub & Hinv) & Hsz). split; [unfold pprf_value; by rewrite Hg|].
      split; [|cbn [length]; rewrite Nat.mul_succ_r; lia]. exists used'. split; [set_solver|done].
Qed.
End Runs.

(** ** The theorems *)

(** C27. One-time evaluation. Evaluating a new tree at any sequence of inputs, none shorter than the
    length of the prefixes, gives, at the first occurrence of each input of that length, the
    secret that iterated derivation along its bits gives, and at every later occurrence the
    error for a punctured input; a longer input is refused as out of bounds. No evaluation
    fails otherwise. A shorter input panics on every tree. *)
Theorem pprf_evaluates_once {OC : OpenMlsCrypto} {TC : TlsCodec} {LK : LawfulKdf} {P : Type} `{Prefix P} {LP : LawfulPrefix P}
    cs root size inputs :
  Forall (not_short (P := P)) inputs ->
  (evaluations cs inputs (new_with_size (P := P) root size)).1 = one_time (P := P) (pprf_value (P := P) cs root) [] inputs /\
  (forall input, exists s, pprf_value (P := P) cs root input = Ok s) /\
  (forall input (self : Pprf P), (length input < MAX_INPUT_LEN P)%nat -> (evaluate cs input self).1 = Panic).
Proof.
  intros HF. pose proof (evaluations_spec cs root [] inputs _ (new_inv_pprf cs root size) (Forall_nil_2 _) HF) as Hs.
  destruct (evaluations _ _ _) as [rs self']. split; [apply Hs|]. split; [|intros input self; by apply evaluate_short].
  intros input. unfold pprf_value. destruct (ggm_total cs root (bits_of (P := P) input)) as [s ->]. by exists s.
Qed.

(** C28. Forward secrecy and size. After any sequence of evaluations, the tree holds no secret on the
    path to an input it was evaluated at, so none from which the output could be derived again,
    and it has grown by at most one node less than the depth per evaluation. *)
Theorem pprf_punctured {OC : OpenMlsCrypto} {TC : TlsCodec} {LK : LawfulKdf} {P : Type} `{Prefix P} {LP : LawfulPrefix P}
    cs root size inputs :
  Forall (full_input (P := P)) inputs ->
  let nodes := pprf_nodes (evaluations cs inputs (new_with_size (P := P) root size)).2 in
  (forall input path, input ∈ inputs -> path `prefix_of` bits_of (P := P) input -> node_at nodes path = None) /\
  (base.size nodes <= 1 + (MAX_DEPTH P - 1) * length inputs)%nat.
Proof.
  intros HF. pose proof (evaluations_spec cs root [] inputs _ (new_inv_pprf cs root size) (Forall_nil_2 _)
    (Forall_impl _ _ _ HF full_not_short)) as Hs.
  destruct (evaluations _ _ _) as [rs self']. destruct Hs as (_ & (used' & Hsub & Hinv) & Hsz). split.
  - intros input path Hin Hp. apply (pi_used _ _ _ _ Hinv (bits_of input)); [|done]. apply list_elem_of_fmap_2, Hsub.
    apply list_elem_of_filter. split; [|done]. rewrite Forall_forall in HF. by apply HF.
  - cbn [new_with_size pprf_nodes] in Hsz. by rewrite map_size_singleton in Hsz.
Qed.

Import Toy.

Definition toy_inputs : list bytes := [[0; 7]; [128; 1]; [0; 7]; [255; 255]].

Lemma toy_inputs_full : Forall (full_input (P := Prefix16)) toy_inputs.
Proof. by repeat constructor. Qed.

(** With an input that is too long in between. *)
Definition toy_inputs_long : list bytes := [0; 7] :: [1; 2; 3] :: toy_inputs.

Lemma pprf_evaluates_once_witness :
  (evaluations toy_cs toy_inputs_long (ExportTree.new toy_secret)).1
    = one_time (P := Prefix16) (pprf_value (P := Prefix16) toy_cs toy_secret) [] toy_inputs_long.
Proof.
  refine (proj1 (pprf_evaluates_once (P := Prefix16) toy_cs toy_secret (TreeSize.from_leaf_count 65535) toy_inputs_long _)).
  repeat (apply Forall_cons; split; [split; [cbn; lia|by repeat constructor]|]). by apply Forall_nil.
Defined.

Lemma pprf_punctured_witness :
  (base.size (pprf_nodes (evaluations toy_cs toy_inputs (ExportTree.new toy_secret)).2) <= 61)%nat.
Proof. exact (proj2 (pprf_punctured (P := Prefix16) toy_cs toy_secret (TreeSize.from_leaf_count 65535) _ toy_inputs_full)). Defined.
