(* ===== verification/MemoryStorage.v ===== *)
(** * The in-memory storage provider

    Models memory_storage/src/lib.rs with default features: the provider of the storage trait
    (traits/src/storage.rs) that keeps serialized values in a [HashMap]. The functions are
    generic in the types they store; serde_json, a crate outside the sources, is the class
    [Serde]. The lock is taken and released by every operation, which are therefore steps of
    a sequence. *)
From S2P Require Import Prelude.

(** serde_json for a type: [to_vec], [from_slice], and [from_slice] at [Option] of the type. *)
Class Serde (A : Type) : Type := {
  to_vec : A -> option (list Z);
  from_slice : list Z -> option A;
  from_slice_option : list Z -> option (option A);
}.

Inductive MemoryStorageError : Type := UnsupportedValueTypeBytes | UnsupportedMethod | SerializationError.

(** The field [values]. *)
Definition MemoryStorage : Type := gmap (list Z) (list Z).

(** The derived [Default]. *)
Definition default_storage : MemoryStorage := ∅.

Module MemStore.

(** A byte string literal. *)
Definition ascii_bytes (s : string) : list Z := (fun c => Z.of_nat (Ascii.nat_of_ascii c)) <$> String.list_ascii_of_string s.

Definition CURRENT_VERSION : Z := 1.

Definition version_suffix : list Z := [CURRENT_VERSION / 256; CURRENT_VERSION mod 256].

Definition KEY_PACKAGE_LABEL := ascii_bytes "KeyPackage".
Definition PSK_LABEL := ascii_bytes "Psk".
Definition ENCRYPTION_KEY_PAIR_LABEL := ascii_bytes "EncryptionKeyPair".
Definition SIGNATURE_KEY_PAIR_LABEL := ascii_bytes "SignatureKeyPair".
Definition EPOCH_KEY_PAIRS_LABEL := ascii_bytes "EpochKeyPairs".
Definition TREE_LABEL := ascii_bytes "Tree".
Definition GROUP_CONTEXT_LABEL := ascii_bytes "GroupContext".
Definition INTERIM_TRANSCRIPT_HASH_LABEL := ascii_bytes "InterimTranscriptHash".
Definition CONFIRMATION_TAG_LABEL := ascii_bytes "ConfirmationTag".
Definition JOIN_CONFIG_LABEL := ascii_bytes "MlsGroupJoinConfig".
Definition OWN_LEAF_NODES_LABEL := ascii_bytes "OwnLeafNodes".
Definition GROUP_STATE_LABEL := ascii_bytes "GroupState".
Definition QUEUED_PROPOSAL_LABEL := ascii_bytes "QueuedProposal".
Definition PROPOSAL_QUEUE_REFS_LABEL := ascii_bytes "ProposalQueueRefs".
Definition OWN_LEAF_NODE_INDEX_LABEL := ascii_bytes "OwnLeafNodeIndex".
Definition EPOCH_SECRETS_LABEL := ascii_bytes "EpochSecrets".
Definition RESUMPTION_PSK_STORE_LABEL := ascii_bytes "ResumptionPsk".
Definition MESSAGE_SECRETS_LABEL := ascii_bytes "MessageSecrets".

(** The operator [?] on a result of serde_json, and [unwrap]. *)
Definition try_serde {A} (o : option A) : stateful MemoryStorage MemoryStorageError A := lifting (ok_or o SerializationError).
Definition unwrap {A} (o : option A) : stateful MemoryStorage MemoryStorageError A := lifting (returns o).

Definition build_key_from_vec (label key : list Z) : list Z := label ++ key ++ version_suffix.

Definition build_key {K} `{Serde K} (label : list Z) (key : K) : stateful MemoryStorage MemoryStorageError (list Z) :=
  key ← unwrap (to_vec key);
  mret (build_key_from_vec label key).

(** ** The helpers *)

Definition write (label key value : list Z) : stateful MemoryStorage MemoryStorageError unit :=
  modifying (<[build_key_from_vec label key := value]>).

(** The body that [append] and [remove_item] share: the list under the key, which is created
    empty, is parsed, changed and written back into its cleared buffer. *)
Definition update_list {SL : Serde (list (list Z))} (label key : list Z) (f : list (list Z) -> list (list Z)) :
    stateful MemoryStorage MemoryStorageError unit :=
  let storage_key := build_key_from_vec label key in
  list_bytes ← reading (fun values => Ok (default (ascii_bytes "[]") (values !! storage_key)));
  _ ← modifying (<[storage_key := list_bytes]>);
  list ← try_serde (from_slice list_bytes);
  _ ← modifying (<[storage_key := []]>);
  list_bytes ← try_serde (to_vec (f list));
  modifying (<[storage_key := list_bytes]>).

Definition append {SL : Serde (list (list Z))} (label key value : list Z) : stateful MemoryStorage MemoryStorageError unit :=
  update_list label key (fun list => list ++ [value]).

(** Removes the first occurrence, if any. *)
Fixpoint remove_first {A} `{EqDecision A} (value : A) (items : list A) : list A :=
  match items with
  | [] => []
  | item :: items => if decide (item = value) then items else item :: remove_first value items
  end.

Definition remove_item {SL : Serde (list (list Z))} (label key value : list Z) : stateful MemoryStorage MemoryStorageError unit :=
  update_list label key (remove_first value).

Definition read {V} `{Serde V} (label key : list Z) : stateful MemoryStorage MemoryStorageError (option V) :=
  value ← reading (fun values => Ok (values !! build_key_from_vec label key));
  match value with
  | Some value => v ← try_serde (from_slice value); mret (Some v)
  | None => mret None
  end.

Definition read_list {V} `{Serde V} {SL : Serde (list (list Z))} (label key : list Z) :
    stateful MemoryStorage MemoryStorageError (list V) :=
  value ← reading (fun values => Ok (values !! build_key_from_vec label key));
  value ← match value with Some list_bytes => unwrap (from_slice list_bytes) | None => mret [] end;
  try_serde (mapM from_slice value).

Definition delete (label key : list Z) : stateful MemoryStorage MemoryStorageError unit :=
  modifying (base.delete (build_key_from_vec label key)).

(** The reads that do not go through [read]: a stored value is parsed as an [Option]. *)
Definition read_option {K V} `{Serde K} `{Serde V} (label : list Z) (key : K) : stateful MemoryStorage MemoryStorageError (option V) :=
  key ← build_key label key;
  value ← reading (fun values => Ok (values !! key));
  match value with
  | None => mret None
  | Some value => unwrap (from_slice_option value)
  end.
(** Likewise the writes that do not go through [write]. *)
Definition write_built {K V} `{Serde K} `{Serde V} (label : list Z) (key : K) (value : V) : stateful MemoryStorage MemoryStorageError unit :=
  key ← build_key label key;
  value ← unwrap (to_vec value);
  modifying (<[key := value]>).

(** ** The operations of the trait *)

Section Operations.
Context {GroupId : Type} `{Serde GroupId} {SL : Serde (list (list Z))}.

Definition write_tree {V} `{Serde V} (group_id : GroupId) (tree : V) : stateful MemoryStorage MemoryStorageError unit :=
  key ← unwrap (to_vec group_id);
  value ← unwrap (to_vec tree);
  write TREE_LABEL key value.

Definition write_interim_transcript_hash {V} `{Serde V} (group_id : GroupId) (interim_transcript_hash : V) : stateful MemoryStorage MemoryStorageError unit :=
  write_built INTERIM_TRANSCRIPT_HASH_LABEL group_id interim_transcript_hash.

Definition write_context {V} `{Serde V} (group_id : GroupId) (group_context : V) : stateful MemoryStorage MemoryStorageError unit :=
  write_built GROUP_CONTEXT_LABEL group_id group_context.

Definition write_confirmation_tag {V} `{Serde V} (group_id : GroupId) (confirmation_tag : V) : stateful MemoryStorage MemoryStorageError unit :=
  write_built CONFIRMATION_TAG_LABEL group_id confirmation_tag.

Definition write_signature_key_pair {K} `{Serde K} {V} `{Serde V} (public_key : K) (signature_key_pair : V) : stateful MemoryStorage MemoryStorageError unit :=
  write_built SIGNATURE_KEY_PAIR_LABEL public_key signature_key_pair.

Definition tree {V} `{Serde V} (group_id : GroupId) : stateful MemoryStorage MemoryStorageError (option V) :=
  read_option TREE_LABEL group_id.

Definition group_context {V} `{Serde V} (group_id : GroupId) : stateful MemoryStorage MemoryStorageError (option V) :=
  read_option GROUP_CONTEXT_LABEL group_id.

Definition interim_transcript_hash {V} `{Serde V} (group_id : GroupId) : stateful MemoryStorage MemoryStorageError (option V) :=
  read_option INTERIM_TRANSCRIPT_HASH_LABEL group_id.

Definition confirmation_tag {V} `{Serde V} (group_id : GroupId) : stateful MemoryStorage MemoryStorageError (option V) :=
  read_option CONFIRMATION_TAG_LABEL group_id.

Definition signature_key_pair {K} `{Serde K} {V} `{Serde V} (public_key : K) : stateful MemoryStorage MemoryStorageError (option V) :=
  read_option SIGNATURE_KEY_PAIR_LABEL public_key.

Definition write_key_package {K} `{Serde K} {V} `{Serde V} (hash_ref : K) (key_package : V) : stateful MemoryStorage MemoryStorageError unit :=
  key ← unwrap (to_vec hash_ref);
  value ← unwrap (to_vec key_package);
  write KEY_PACKAGE_LABEL key value.

Definition write_psk {K} `{Serde K} {V} `{Serde V} (psk_id : K) (psk : V) : stateful MemoryStorage MemoryStorageError unit :=
  key ← unwrap (to_vec psk_id);
  value ← unwrap (to_vec psk);
  write PSK_LABEL key value.

Definition write_encryption_key_pair {K} `{Serde K} {V} `{Serde V} (public_key : K) (key_pair : V) : stateful MemoryStorage MemoryStorageError unit :=
  key ← unwrap (to_vec public_key);
  value ← unwrap (to_vec key_pair);
  write ENCRYPTION_KEY_PAIR_LABEL key value.

Definition key_package {K} `{Serde K} {V} `{Serde V} (hash_ref : K) : stateful MemoryStorage MemoryStorageError (option V) :=
  key ← unwrap (to_vec hash_ref);
  read KEY_PACKAGE_LABEL key.

Definition psk {K} `{Serde K} {V} `{Serde V} (psk_id : K) : stateful MemoryStorage MemoryStorageError (option V) :=
  key ← unwrap (to_vec psk_id);
  read PSK_LABEL key.

Definition encryption_key_pair {K} `{Serde K} {V} `{Serde V} (public_key : K) : stateful MemoryStorage MemoryStorageError (option V) :=
  key ← unwrap (to_vec public_key);
  read ENCRYPTION_KEY_PAIR_LABEL key.

Definition delete_signature_key_pair {K} `{Serde K} (public_key : K) : stateful MemoryStorage MemoryStorageError unit :=
  key ← unwrap (to_vec public_key);
  delete SIGNATURE_KEY_PAIR_LABEL key.

Definition delete_encryption_key_pair {K} `{Serde K} (public_key : K) : stateful MemoryStorage MemoryStorageError unit :=
  key ← unwrap (to_vec public_key);
  delete ENCRYPTION_KEY_PAIR_LABEL key.

Definition delete_key_package {K} `{Serde K} (hash_ref : K) : stateful MemoryStorage MemoryStorageError unit :=
  key ← try_serde (to_vec hash_ref);
  delete KEY_PACKAGE_LABEL key.

Definition delete_psk {K} `{Serde K} (psk_id : K) : stateful MemoryStorage MemoryStorageError unit :=
  key ← try_serde (to_vec psk_id);
  delete PSK_LABEL key.

Definition group_state {V} `{Serde V} (group_id : GroupId) : stateful MemoryStorage MemoryStorageError (option V) :=
  key ← try_serde (to_vec group_id);
  read GROUP_STATE_LABEL key.

Definition write_group_state {V} `{Serde V} (group_id : GroupId) (group_state' : V) : stateful MemoryStorage MemoryStorageError unit :=
  key ← try_serde (to_vec group_id);
  value ← try_serde (to_vec group_state');
  write GROUP_STATE_LABEL key value.

Definition delete_group_state (group_id : GroupId) : stateful MemoryStorage MemoryStorageError unit :=
  key ← try_serde (to_vec group_id);
  delete GROUP_STATE_LABEL key.

Definition message_secrets {V} `{Serde V} (group_id : GroupId) : stateful MemoryStorage MemoryStorageError (option V) :=
  key ← try_serde (to_vec group_id);
  read MESSAGE_SECRETS_LABEL key.

Definition write_message_secrets {V} `{Serde V} (group_id : GroupId) (message_secrets' : V) : stateful MemoryStorage MemoryStorageError unit :=
  key ← try_serde (to_vec group_id);
  value ← try_serde (to_vec message_secrets');
  write MESSAGE_SECRETS_LABEL key value.

Definition delete_message_secrets (group_id : GroupId) : stateful MemoryStorage MemoryStorageError unit :=
  key ← try_serde (to_vec group_id);
  delete MESSAGE_SECRETS_LABEL key.

Definition resumption_psk_store {V} `{Serde V} (group_id : GroupId) : stateful MemoryStorage MemoryStorageError (option V) :=
  key ← try_serde (to_vec group_id);
  read RESUMPTION_PSK_STORE_LABEL key.

Definition write_resumption_psk_store {V} `{Serde V} (group_id : GroupId) (resumption_psk_store' : V) : stateful MemoryStorage MemoryStorageError unit :=
  key ← try_serde (to_vec group_id);
  value ← try_serde (to_vec resumption_psk_store');
  write RESUMPTION_PSK_STORE_LABEL key value.

Definition delete_all_resumption_psk_secrets (group_id : GroupId) : stateful MemoryStorage MemoryStorageError unit :=
  key ← try_serde (to_vec group_id);
  delete RESUMPTION_PSK_STORE_LABEL key.

Definition own_leaf_index {V} `{Serde V} (group_id : GroupId) : stateful MemoryStorage MemoryStorageError (option V) :=
  key ← try_serde (to_vec group_id);
  read OWN_LEAF_NODE_INDEX_LABEL key.

Definition write_own_leaf_index {V} `{Serde V} (group_id : GroupId) (own_leaf_index' : V) : stateful MemoryStorage MemoryStorageError unit :=
  key ← try_serde (to_vec group_id);
  value ← try_serde (to_vec own_leaf_index');
  write OWN_LEAF_NODE_INDEX_LABEL key value.

Definition delete_own_leaf_index (group_id : GroupId) : stateful MemoryStorage MemoryStorageError unit :=
  key ← try_serde (to_vec group_id);
  delete OWN_LEAF_NODE_INDEX_LABEL key.

Definition group_epoch_secrets {V} `{Serde V} (group_id : GroupId) : stateful MemoryStorage MemoryStorageError (option V) :=
  key ← try_serde (to_vec group_id);
  read EPOCH_SECRETS_LABEL key.

Definition write_group_epoch_secrets {V} `{Serde V} (group_id : GroupId) (group_epoch_secrets' : V) : stateful MemoryStorage MemoryStorageError unit :=
  key ← try_serde (to_vec group_id);
  value ← try_serde (to_vec group_epoch_secrets');
  write EPOCH_SECRETS_LABEL key value.

Definition delete_group_epoch_secrets (group_id : GroupId) : stateful MemoryStorage MemoryStorageError unit :=
  key ← try_serde (to_vec group_id);
  delete EPOCH_SECRETS_LABEL key.

Definition mls_group_join_config {V} `{Serde V} (group_id : GroupId) : stateful MemoryStorage MemoryStorageError (option V) :=
  key ← unwrap (to_vec group_id);
  read JOIN_CONFIG_LABEL key.

Definition write_mls_join_config {V} `{Serde V} (group_id : GroupId) (config : V) : stateful MemoryStorage MemoryStorageError unit :=
  key ← unwrap (to_vec group_id);
  value ← unwrap (to_vec config);
  write JOIN_CONFIG_LABEL key value.

Definition delete_group_config (group_id : GroupId) : stateful MemoryStorage MemoryStorageError unit :=
  key ← unwrap (to_vec group_id);
  delete JOIN_CONFIG_LABEL key.

Definition delete_tree (group_id : GroupId) : stateful MemoryStorage MemoryStorageError unit :=
  key ← unwrap (to_vec group_id);
  delete TREE_LABEL key.

Definition delete_confirmation_tag (group_id : GroupId) : stateful MemoryStorage MemoryStorageError unit :=
  key ← unwrap (to_vec group_id);
  delete CONFIRMATION_TAG_LABEL key.

Definition delete_context (group_id : GroupId) : stateful MemoryStorage MemoryStorageError unit :=
  key ← unwrap (to_vec group_id);
  delete GROUP_CONTEXT_LABEL key.

Definition delete_interim_transcript_hash (group_id : GroupId) : stateful MemoryStorage MemoryStorageError unit :=
  key ← unwrap (to_vec group_id);
  delete INTERIM_TRANSCRIPT_HASH_LABEL key.

Definition delete_own_leaf_nodes (group_id : GroupId) : stateful MemoryStorage MemoryStorageError unit :=
  key ← unwrap (to_vec group_id);
  delete OWN_LEAF_NODES_LABEL key.

Definition own_leaf_nodes {V} `{Serde V} (group_id : GroupId) : stateful MemoryStorage MemoryStorageError (list V) :=
  key ← unwrap (to_vec group_id);
  read_list OWN_LEAF_NODES_LABEL key.

Definition append_own_leaf_node {V} `{Serde V} (group_id : GroupId) (leaf_node : V) : stateful MemoryStorage MemoryStorageError unit :=
  key ← try_serde (to_vec group_id);
  value ← try_serde (to_vec leaf_node);
  append OWN_LEAF_NODES_LABEL key value.

(** *** The key pairs of an epoch *)
Definition epoch_key_pairs_id {EpochKey} `{Serde EpochKey} {SN : Serde Z} (group_id : GroupId) (epoch : EpochKey) (leaf_index : Z) :
    stateful MemoryStorage MemoryStorageError (list Z) :=
  key ← try_serde (to_vec group_id);
  epoch ← try_serde (to_vec epoch);
  leaf_index ← try_serde (to_vec leaf_index);
  mret (key ++ epoch ++ leaf_index).

Definition write_encryption_epoch_key_pairs {EpochKey} `{Serde EpochKey} {SN : Serde Z} {V} {SV : Serde (list V)}
    (group_id : GroupId) (epoch : EpochKey) (leaf_index : Z) (key_pairs : list V) : stateful MemoryStorage MemoryStorageError unit :=
  key ← epoch_key_pairs_id group_id epoch leaf_index;
  value ← try_serde (to_vec key_pairs);
  write EPOCH_KEY_PAIRS_LABEL key value.

Definition encryption_epoch_key_pairs {EpochKey} `{Serde EpochKey} {SN : Serde Z} {V} {SV : Serde (list V)}
    (group_id : GroupId) (epoch : EpochKey) (leaf_index : Z) : stateful MemoryStorage MemoryStorageError (list V) :=
  key ← epoch_key_pairs_id group_id epoch leaf_index;
  value ← reading (fun values => Ok (values !! build_key_from_vec EPOCH_KEY_PAIRS_LABEL key));
  match value with
  | Some value => unwrap (from_slice value)
  | None => mret []
  end.

Definition delete_encryption_epoch_key_pairs {EpochKey} `{Serde EpochKey} {SN : Serde Z}
    (group_id : GroupId) (epoch : EpochKey) (leaf_index : Z) : stateful MemoryStorage MemoryStorageError unit :=
  key ← epoch_key_pairs_id group_id epoch leaf_index;
  delete EPOCH_KEY_PAIRS_LABEL key.

(** *** The proposal queue *)
Context {ProposalRef : Type} `{Serde ProposalRef} {SP : Serde (GroupId * ProposalRef)}.

Definition queue_proposal {V} `{Serde V} (group_id : GroupId) (proposal_ref : ProposalRef) (proposal : V) : stateful MemoryStorage MemoryStorageError unit :=
  key ← try_serde (to_vec (group_id, proposal_ref));
  value ← try_serde (to_vec proposal);
  _ ← write QUEUED_PROPOSAL_LABEL key value;
  key ← try_serde (to_vec group_id);
  value ← try_serde (to_vec proposal_ref);
  append PROPOSAL_QUEUE_REFS_LABEL key value.

Definition queued_proposal_refs (group_id : GroupId) : stateful MemoryStorage MemoryStorageError (list ProposalRef) :=
  key ← try_serde (to_vec group_id);
  read_list PROPOSAL_QUEUE_REFS_LABEL key.

(** The closure of [queued_proposals], over the references. *)
Fixpoint read_proposals {V} `{Serde V} (group_id : GroupId) (refs : list ProposalRef) : stateful MemoryStorage MemoryStorageError (list (ProposalRef * V)) :=
  match refs with
  | [] => mret []
  | proposal_ref :: refs =>
      key ← try_serde (to_vec (group_id, proposal_ref));
      proposal ← read QUEUED_PROPOSAL_LABEL key;
      proposal ← unwrap proposal;
      proposals ← read_proposals group_id refs;
      mret ((proposal_ref, proposal) :: proposals)
  end.

Definition queued_proposals {V} `{Serde V} (group_id : GroupId) : stateful MemoryStorage MemoryStorageError (list (ProposalRef * V)) :=
  key ← try_serde (to_vec group_id);
  refs ← read_list PROPOSAL_QUEUE_REFS_LABEL key;
  read_proposals group_id refs.

Fixpoint delete_proposals (group_id : GroupId) (refs : list ProposalRef) : stateful MemoryStorage MemoryStorageError unit :=
  match refs with
  | [] => mret tt
  | proposal_ref :: refs =>
      key ← try_serde (to_vec (group_id, proposal_ref));
      _ ← modifying (base.delete (build_key_from_vec QUEUED_PROPOSAL_LABEL key));
      delete_proposals group_id refs
  end.

Definition clear_proposal_queue (group_id : GroupId) : stateful MemoryStorage MemoryStorageError unit :=
  key ← try_serde (to_vec group_id);
  proposal_refs ← read_list PROPOSAL_QUEUE_REFS_LABEL key;
  _ ← delete_proposals group_id proposal_refs;
  key ← build_key PROPOSAL_QUEUE_REFS_LABEL group_id;
  modifying (base.delete key).

Definition remove_proposal (group_id : GroupId) (proposal_ref : ProposalRef) : stateful MemoryStorage MemoryStorageError unit :=
  key ← unwrap (to_vec group_id);
  value ← unwrap (to_vec proposal_ref);
  _ ← remove_item PROPOSAL_QUEUE_REFS_LABEL key value;
  key ← unwrap (to_vec (group_id, proposal_ref));
  delete QUEUED_PROPOSAL_LABEL key.
End Operations.
End MemStore.
