(* ===== verification/MemoryStorageFacts.v ===== *)
(** * The in-memory storage provider: correctness

    The provider refines a typed store: a function from slots (what is stored, and for which
    group, key package, ...) to values, in which operations on one slot do not touch others.
    The refinement holds while a client keeps its leaf in a group, because the key of the key
    pairs of an epoch is ambiguous otherwise. *)
From stdpp Require Import pretty.
From S2P Require Import Prelude MemoryStorage.
Import MemStore.

(** The documented behaviour of serde_json for a type: serialization does not fail and is
    undone by parsing; values are not serialized as null. *)
Class LawfulSerde (A : Type) `{Serde A} : Prop := {
  to_vec_total (a : A) : is_Some (to_vec a);
  from_to_vec (a : A) b : to_vec a = Some b -> from_slice b = Some a;
  from_option_to_vec (a : A) b : to_vec a = Some b -> from_slice_option b = Some (Some a);
}.

(** Serialized values. *)
Definition vec `{Serde A} (a : A) : list Z := default [] (to_vec a).

Section Vec.
Context {A : Type} `{LawfulSerde A}.

Lemma to_vec_vec (a : A) : to_vec a = Some (vec a).
Proof. unfold vec. by destruct (to_vec_total a) as [b ->]. Qed.

Lemma from_vec (a : A) : from_slice (vec a) = Some a.
Proof. apply from_to_vec, to_vec_vec. Qed.

Lemma from_option_vec (a : A) : from_slice_option (vec a) = Some (Some a).
Proof. apply from_option_to_vec, to_vec_vec. Qed.

Lemma vec_inj (a a' : A) : vec a = vec a' -> a = a'.
Proof. intros E. pose proof (from_vec a) as Ha. rewrite E, from_vec in Ha. congruence. Qed.

Lemma mapM_vec (l : list A) : mapM from_slice (vec <$> l) = Some l.
Proof. induction l as [|a l IH]; [done|]. cbn. by rewrite from_vec, IH. Qed.

Lemma remove_first_vec `{EqDecision A} (a : A) l : remove_first (vec a) (vec <$> l) = vec <$> remove_first a l.
Proof.
  induction l as [|a' l IH]; [done|]. cbn. rewrite IH. repeat case_decide; [done| | |done]; [|congruence].
  exfalso. by eauto using vec_inj.
Qed.

Lemma try_vec {B} (a : A) (f : list Z -> stateful MemoryStorage MemoryStorageError B) m :
  (b ← try_serde (to_vec a); f b) m = f (vec a) m.
Proof. by rewrite to_vec_vec. Qed.

Lemma unwrap_vec {B} (a : A) (f : list Z -> stateful MemoryStorage MemoryStorageError B) m :
  (b ← unwrap (to_vec a); f b) m = f (vec a) m.
Proof. by rewrite to_vec_vec. Qed.
End Vec.

(** ** Slots *)

(** The types that the provider stores or uses as keys. *)
Inductive entity : Type :=
  | GroupId | ProposalRef | HashRef | PskId | EncryptionKey | SignatureKey | EpochKey
  | QueuedProposal | TreeSync | TranscriptHash | GroupContext | Tag | SignatureKeyPair | KeyPackage | PskBundle | KeyPair
  | GroupState | MessageSecrets | ResumptionStore | LeafIndex | EpochSecrets | JoinConfig | LeafNode.

Section Slots.
Context {ty : entity -> Type} {eqd : forall e, EqDecision (ty e)}.

(** What is stored, and for what. *)
Inductive slot : Type :=
  | STree (g : ty GroupId) | SInterim (g : ty GroupId) | SContext (g : ty GroupId) | STag (g : ty GroupId)
  | SState (g : ty GroupId) | SMessage (g : ty GroupId) | SResumption (g : ty GroupId) | SIndex (g : ty GroupId)
  | SSecrets (g : ty GroupId) | SConfig (g : ty GroupId) | SLeaves (g : ty GroupId) | SRefs (g : ty GroupId)
  | SSigPair (k : ty SignatureKey) | SKeyPackage (r : ty HashRef) | SPsk (i : ty PskId) | SEncPair (k : ty EncryptionKey)
  | SProposal (gr : ty GroupId * ty ProposalRef) | SEpochPairs (g : ty GroupId) (e : ty EpochKey) (leaf : Z).

#[global] Instance slot_eq_dec : EqDecision slot.
Proof. solve_decision. Defined.

(** The type of a single value in a slot; the other slots hold lists. *)
Definition single (s : slot) : option entity :=
  match s with
  | STree _ => Some TreeSync | SInterim _ => Some TranscriptHash | SContext _ => Some GroupContext | STag _ => Some Tag
  | SState _ => Some GroupState | SMessage _ => Some MessageSecrets | SResumption _ => Some ResumptionStore
  | SIndex _ => Some LeafIndex | SSecrets _ => Some EpochSecrets | SConfig _ => Some JoinConfig
  | SSigPair _ => Some SignatureKeyPair | SKeyPackage _ => Some KeyPackage | SPsk _ => Some PskBundle | SEncPair _ => Some KeyPair
  | SProposal _ => Some QueuedProposal
  | SLeaves _ | SRefs _ | SEpochPairs _ _ _ => None
  end.

(** What is read from a slot. *)
Definition answer (s : slot) : Type :=
  match s with
  | SLeaves _ => list (ty LeafNode) | SRefs _ => list (ty ProposalRef) | SEpochPairs _ _ _ => list (ty KeyPair)
  | s => match single s with Some e => option (ty e) | None => Empty_set end
  end.

(** ** The typed store *)
Definition typed_store : Type := forall s : slot, answer s.

Definition empty_store : typed_store := fun s =>
  match s with SLeaves _ | SRefs _ | SEpochPairs _ _ _ => [] | _ => None end.

Definition upd (s : slot) (a : answer s) (st : typed_store) : typed_store := fun s' =>
  match decide (s = s') with left e => eq_rect s answer a s' e | right _ => st s' end.

Lemma upd_eq s a st : upd s a st s = a.
Proof. unfold upd. destruct (decide (s = s)) as [e|]; [|done]. by rewrite (proof_irrel e eq_refl). Qed.

Lemma upd_ne s a st s' : s <> s' -> upd s a st s' = st s'.
Proof. intros Hn. unfold upd. by destruct (decide (s = s')). Qed.

(** The values that are written whole; leaves are appended, proposals are queued. *)
Definition payload (s : slot) : Type :=
  match s with
  | SLeaves _ | SRefs _ | SProposal _ => Empty_set
  | SEpochPairs _ _ _ => list (ty KeyPair)
  | s => match single s with Some e => ty e | None => Empty_set end
  end.

Inductive store_op : Type :=
  | OWrite (s : slot) (v : payload s)
  | ODelete (s : slot)
  | OAppend (g : ty GroupId) (leaf_node : ty LeafNode)
  | OQueue (g : ty GroupId) (r : ty ProposalRef) (p : ty QueuedProposal)
  | ORemove (g : ty GroupId) (r : ty ProposalRef)
  | OClear (g : ty GroupId).

Definition written (s : slot) : payload s -> answer s :=
  match s with
  | SLeaves _ | SRefs _ | SProposal _ => fun v => match v with end
  | SEpochPairs _ _ _ => fun v => v
  | _ => Some
  end.

(** The slots that have an operation of their own that deletes them. *)
Definition deletable (s : slot) : bool := match s with SRefs _ | SProposal _ => false | _ => true end.

Definition spec (st : typed_store) (op : store_op) : typed_store :=
  match op with
  | OWrite s v => upd s (written s v) st
  | ODelete s => if deletable s then upd s (empty_store s) st else st
  | OAppend g leaf_node => upd (SLeaves g) (st (SLeaves g) ++ [leaf_node]) st
  | OQueue g r p => upd (SRefs g) (st (SRefs g) ++ [r]) (upd (SProposal (g, r)) (Some p) st)
  | ORemove g r => upd (SProposal (g, r)) None (upd (SRefs g) (remove_first r (st (SRefs g))) st)
  | OClear g => upd (SRefs g) [] (foldl (fun st r => upd (SProposal (g, r)) None st) st (st (SRefs g)))
  end.

(** The queue of a group, unless a proposal of it is missing. *)
Definition queue_of (st : typed_store) (g : ty GroupId) : option (list (ty ProposalRef * ty QueuedProposal)) :=
  mapM (fun r => pair r <$> (st (SProposal (g, r)) : option _)) (st (SRefs g) : list _).

(** ** The operations of the provider on slots *)
Context {ser : forall e, Serde (ty e)} {ser_ref : Serde (ty GroupId * ty ProposalRef)} {ser_pairs : Serde (list (ty KeyPair))}.
Context {ser_list : Serde (list (list Z))} {ser_index : Serde Z}.
Abbreviation M := (stateful MemoryStorage MemoryStorageError).

Definition store (s : slot) : payload s -> M unit :=
  match s with
  | STree g => fun v => write_tree g v | SInterim g => fun v => write_interim_transcript_hash g v
  | SContext g => fun v => write_context g v | STag g => fun v => write_confirmation_tag g v
  | SState g => fun v => write_group_state g v | SMessage g => fun v => write_message_secrets g v
  | SResumption g => fun v => write_resumption_psk_store g v | SIndex g => fun v => write_own_leaf_index g v
  | SSecrets g => fun v => write_group_epoch_secrets g v | SConfig g => fun v => write_mls_join_config g v
  | SSigPair k => fun v => write_signature_key_pair k v | SKeyPackage r => fun v => write_key_package r v
  | SPsk i => fun v => write_psk i v | SEncPair k => fun v => write_encryption_key_pair k v
  | SEpochPairs g e leaf => fun v => write_encryption_epoch_key_pairs g e leaf v
  | SLeaves _ | SRefs _ | SProposal _ => fun v => match v with end
  end.

Definition discard (s : slot) : M unit :=
  match s with
  | STree g => delete_tree g | SInterim g => delete_interim_transcript_hash g
  | SContext g => delete_context g | STag g => delete_confirmation_tag g
  | SState g => delete_group_state g | SMessage g => delete_message_secrets g
  | SResumption g => delete_all_resumption_psk_secrets g | SIndex g => delete_own_leaf_index g
  | SSecrets g => delete_group_epoch_secrets g | SConfig g => delete_group_config g
  | SSigPair k => delete_signature_key_pair k | SKeyPackage r => delete_key_package r
  | SPsk i => delete_psk i | SEncPair k => delete_encryption_key_pair k
  | SEpochPairs g e leaf => delete_encryption_epoch_key_pairs g e leaf
  | SLeaves g => delete_own_leaf_nodes g
  | SRefs _ | SProposal _ => mret tt
  end.

(** A single proposal is read as [queued_proposals] does. *)
Definition fetch (s : slot) : M (answer s) :=
  match s with
  | STree g => tree g | SInterim g => interim_transcript_hash g
  | SContext g => group_context g | STag g => confirmation_tag g
  | SState g => group_state g | SMessage g => message_secrets g
  | SResumption g => resumption_psk_store g | SIndex g => own_leaf_index g
  | SSecrets g => group_epoch_secrets g | SConfig g => mls_group_join_config g
  | SSigPair k => signature_key_pair k | SKeyPackage r => key_package r
  | SPsk i => psk i | SEncPair k => encryption_key_pair k
  | SEpochPairs g e leaf => encryption_epoch_key_pairs g e leaf
  | SLeaves g => own_leaf_nodes g | SRefs g => queued_proposal_refs g
  | SProposal gr => key ← try_serde (to_vec gr); read QUEUED_PROPOSAL_LABEL key
  end.

Definition perform (op : store_op) : M unit :=
  match op with
  | OWrite s v => store s v
  | ODelete s => discard s
  | OAppend g leaf_node => append_own_leaf_node g leaf_node
  | OQueue g r p => queue_proposal g r p
  | ORemove g r => remove_proposal g r
  | OClear g => clear_proposal_queue (ProposalRef := ty ProposalRef) g
  end.

Fixpoint perform_all (ops : list store_op) : M unit :=
  match ops with
  | [] => mret tt
  | op :: ops => _ ← perform op; perform_all ops
  end.
End Slots.
Arguments slot ty : clear implicits.
Arguments store_op ty : clear implicits.
Arguments typed_store ty : clear implicits.

(** ** Storage keys *)
Inductive kind : Type :=
  | KTree | KInterim | KContext | KTag | KState | KMessage | KResumption | KIndex | KSecrets | KConfig | KLeaves | KRefs
  | KSigPair | KKeyPackage | KPsk | KEncPair | KProposal | KEpochPairs.

Definition kinds : list kind :=
  [KTree; KInterim; KContext; KTag; KState; KMessage; KResumption; KIndex; KSecrets; KConfig; KLeaves; KRefs;
   KSigPair; KKeyPackage; KPsk; KEncPair; KProposal; KEpochPairs].

#[global] Instance kind_eq_dec : EqDecision kind.
Proof. solve_decision. Defined.

Definition label (k : kind) : list Z :=
  match k with
  | KTree => TREE_LABEL | KInterim => INTERIM_TRANSCRIPT_HASH_LABEL | KContext => GROUP_CONTEXT_LABEL | KTag => CONFIRMATION_TAG_LABEL
  | KState => GROUP_STATE_LABEL | KMessage => MESSAGE_SECRETS_LABEL | KResumption => RESUMPTION_PSK_STORE_LABEL
  | KIndex => OWN_LEAF_NODE_INDEX_LABEL | KSecrets => EPOCH_SECRETS_LABEL | KConfig => JOIN_CONFIG_LABEL
  | KLeaves => OWN_LEAF_NODES_LABEL | KRefs => PROPOSAL_QUEUE_REFS_LABEL | KSigPair => SIGNATURE_KEY_PAIR_LABEL
  | KKeyPackage => KEY_PACKAGE_LABEL | KPsk => PSK_LABEL | KEncPair => ENCRYPTION_KEY_PAIR_LABEL
  | KProposal => QUEUED_PROPOSAL_LABEL | KEpochPairs => EPOCH_KEY_PAIRS_LABEL
  end.

(** No label is a prefix of another one. *)
Lemma label_prefix_free k k' x y : label k ++ x = label k' ++ y -> k = k' /\ x = y.
Proof.
  assert (forall k k', label k `prefix_of` label k' -> k = k') as Hp.
  { assert (Forall (fun k => Forall (fun k' => label k `prefix_of` label k' -> k = k') kinds) kinds) as HF.
    { apply (bool_decide_eq_true_1 _). by vm_compute. }
    intros k1 k2. rewrite Forall_forall in HF. assert (forall k, k ∈ kinds) as Hin by (intros []; set_solver).
    specialize (HF k1 (Hin k1)). rewrite Forall_forall in HF. apply HF, Hin. }
  intros E. assert (k = k') as ->.
  { apply app_eq_inv in E as [[l [E _]]|[l [E _]]]; [symmetry|]; apply Hp; exists l; done. }
  split; [done|]. by eapply app_inv_head.
Qed.

Section Refinement.
Context {ty : entity -> Type} {eqd : forall e, EqDecision (ty e)}.
Context {ser : forall e, Serde (ty e)} {ser_ref : Serde (ty GroupId * ty ProposalRef)} {ser_pairs : Serde (list (ty KeyPair))}.
Context {ser_list : Serde (list (list Z))} {ser_index : Serde Z}.
Context {law : forall e, LawfulSerde (ty e)} {law_ref : LawfulSerde (ty GroupId * ty ProposalRef)}.
Context {law_pairs : LawfulSerde (list (ty KeyPair))} {law_list : LawfulSerde (list (list Z))} {law_index : LawfulSerde Z}.
(** An empty list is serialized as "[]"; serialized group ids are delimited, as all objects are. *)
Context (empty_list : vec ([] : list (list Z)) = ascii_bytes "[]").
Context (delimited : forall (g g' : ty GroupId) x y, vec g ++ x = vec g' ++ y -> g = g').
(** The leaf of the client in each group. *)
Context (own_leaf : ty GroupId -> Z).
Abbreviation M := (stateful MemoryStorage MemoryStorageError).
Implicit Types (s : slot ty) (st : typed_store ty) (m : gmap (list Z) (list Z)).

Definition kind_of s : kind :=
  match s with
  | STree _ => KTree | SInterim _ => KInterim | SContext _ => KContext | STag _ => KTag | SState _ => KState
  | SMessage _ => KMessage | SResumption _ => KResumption | SIndex _ => KIndex | SSecrets _ => KSecrets | SConfig _ => KConfig
  | SLeaves _ => KLeaves | SRefs _ => KRefs | SSigPair _ => KSigPair | SKeyPackage _ => KKeyPackage | SPsk _ => KPsk
  | SEncPair _ => KEncPair | SProposal _ => KProposal | SEpochPairs _ _ _ => KEpochPairs
  end.

Definition key_bytes s : list Z :=
  match s with
  | STree g | SInterim g | SContext g | STag g | SState g | SMessage g | SResumption g | SIndex g
  | SSecrets g | SConfig g | SLeaves g | SRefs g => vec g
  | SSigPair k => vec k | SKeyPackage r => vec r | SPsk i => vec i | SEncPair k => vec k | SProposal gr => vec gr
  | SEpochPairs g e leaf => vec g ++ vec e ++ vec leaf
  end.

Definition key_of s : list Z := build_key_from_vec (label (kind_of s)) (key_bytes s).

(** Slots of the client: the key pairs of an epoch are those of its own leaf. *)
Definition own_slot s : Prop := match s with SEpochPairs g _ leaf => leaf = own_leaf g | _ => True end.

Lemma key_of_inj s s' : own_slot s -> own_slot s' -> key_of s = key_of s' -> s = s'.
Proof.
  intros Hs Hs' E. unfold key_of, build_key_from_vec in E. apply label_prefix_free in E as [Ek Eb].
  apply app_inv_tail in Eb. destruct s, s'; cbn in Ek, Eb, Hs, Hs'; try discriminate Ek; try (by apply vec_inj in Eb as ->).
  pose proof (delimited _ _ _ _ Eb) as ->. apply app_inv_head in Eb. subst.
  apply app_inv_tail, vec_inj in Eb. by subst.
Qed.

(** ** The simulation *)

(** The bytes [o] under the key of [s] represent the answer [a]. *)
Definition stored s : answer s -> option (list Z) -> Prop :=
  match s with
  | SLeaves _ | SRefs _ => fun a o => o = Some (vec (vec <$> a)) \/ (o = None /\ a = [])
  | SEpochPairs _ _ _ => fun a o => o = Some (vec a) \/ (o = None /\ a = [])
  | _ => fun a o => o = vec <$> a
  end.

Definition sim st m : Prop := forall s, own_slot s -> stored s (st s) (m !! key_of s).

Lemma sim_set st m s a b : sim st m -> own_slot s -> stored s a (Some b) -> sim (upd s a st) (<[key_of s := b]> m).
Proof.
  intros Hsim Hs Ha s' Hs'. destruct (decide (s = s')) as [<-|Hne]; [by rewrite upd_eq, lookup_insert_eq|].
  rewrite upd_ne, lookup_insert_ne by eauto using key_of_inj. auto.
Qed.

Lemma stored_empty s : stored s (empty_store s) None.
Proof. destruct s; cbn; auto. Qed.

Lemma sim_del st m s : sim st m -> own_slot s -> sim (upd s (empty_store s) st) (base.delete (key_of s) m).
Proof.
  intros Hsim Hs s' Hs'. destruct (decide (s = s')) as [<-|Hne]; [rewrite upd_eq, lookup_delete_eq; apply stored_empty|].
  rewrite upd_ne, lookup_delete_ne by eauto using key_of_inj. auto.
Qed.

Lemma sim_empty : sim empty_store default_storage.
Proof. intros s _. unfold default_storage, MemoryStorage. rewrite lookup_empty. apply stored_empty. Qed.

(** *** Single slots *)
Ltac eval_serde :=
  unfold read_option, write_built, build_key, epoch_key_pairs_id, MemoryStorage, mbind, stateful_bind, unwrap, try_serde, lifting, reading;
  repeat (rewrite to_vec_vec; cbn [returns ok_or]).

Lemma store_ok s v m : exists b, store s v m = (Ok tt, <[key_of s := b]> m) /\ stored s (written s v) (Some b).
Proof.
  destruct s; cbn in v; try (by destruct v); (exists (vec v); split; [|first [done | by left]]); cbn [store];
    unfold write_tree, write_interim_transcript_hash, write_context, write_confirmation_tag, write_group_state, write_message_secrets,
      write_resumption_psk_store, write_own_leaf_index, write_group_epoch_secrets, write_mls_join_config, write_signature_key_pair,
      write_key_package, write_psk, write_encryption_key_pair, write_encryption_epoch_key_pairs;
    eval_serde; reflexivity.
Qed.

Lemma discard_ok s m : deletable s = true -> discard s m = (Ok tt, base.delete (key_of s) m).
Proof.
  destruct s; intros Hd; try discriminate Hd; cbn [discard];
    unfold delete_tree, delete_interim_transcript_hash, delete_context, delete_confirmation_tag, delete_group_state, delete_message_secrets,
      delete_all_resumption_psk_secrets, delete_own_leaf_index, delete_group_epoch_secrets, delete_group_config, delete_signature_key_pair,
      delete_key_package, delete_psk, delete_encryption_key_pair, delete_encryption_epoch_key_pairs, delete_own_leaf_nodes;
    eval_serde; reflexivity.
Qed.

Lemma read_list_ok {V} `{LawfulSerde V} lab key m (l : list V) :
  (m !! build_key_from_vec lab key = Some (vec (vec <$> l)) \/ m !! build_key_from_vec lab key = None /\ l = []) ->
  read_list lab key m = (Ok l, m).
Proof.
  unfold read_list. eval_serde. intros [->|[-> ->]]; [|done]. unfold lifting. rewrite from_vec. cbn [returns]. by rewrite mapM_vec.
Qed.

Lemma read_ok {V} `{LawfulSerde V} lab key m (a : option V) :
  m !! build_key_from_vec lab key = vec <$> a -> read lab key m = (Ok a, m).
Proof. unfold read. eval_serde. intros ->. destruct a as [v|]; [|done]. cbn. unfold lifting. by rewrite from_vec. Qed.

Lemma read_option_ok {K V} `{LawfulSerde K} `{LawfulSerde V} lab (key : K) m (a : option V) :
  m !! build_key_from_vec lab (vec key) = vec <$> a -> read_option lab key m = (Ok a, m).
Proof.
  eval_serde. intros E. unfold mret, stateful_ret.
  rewrite E. destruct a as [v|]; [|done]. cbn. unfold lifting. by rewrite from_option_vec. Qed.

Lemma fetch_ok st m s : sim st m -> own_slot s -> fetch s m = (Ok (st s), m).
Proof.
  intros Hsim Hs. specialize (Hsim s Hs). unfold key_of in Hsim. generalize dependent (st s). intros a Ha.
  destruct s; cbn [kind_of label key_bytes stored] in Ha; cbn [fetch];
    unfold tree, interim_transcript_hash, group_context, confirmation_tag, group_state, message_secrets, resumption_psk_store,
      own_leaf_index, group_epoch_secrets, mls_group_join_config, signature_key_pair, key_package, psk, encryption_key_pair,
      own_leaf_nodes, queued_proposal_refs;
    rewrite ?unwrap_vec, ?try_vec; try (by apply read_option_ok || by apply read_ok || by apply read_list_ok).
  unfold encryption_epoch_key_pairs. eval_serde. unfold mret, stateful_ret.
  destruct Ha as [->|[-> ->]]; [|done]. unfold lifting. by rewrite from_vec.
Qed.

(** *** Lists *)
Lemma update_list_ok {V} `{LawfulSerde V} lab key m (l : list V) f :
  (m !! build_key_from_vec lab key = Some (vec (vec <$> l)) \/ m !! build_key_from_vec lab key = None /\ l = []) ->
  update_list lab key f m = (Ok tt, <[build_key_from_vec lab key := vec (f (vec <$> l))]> m).
Proof.
  intros Hl. unfold update_list. eval_serde. unfold modifying.
  assert (default (ascii_bytes "[]") (m !! build_key_from_vec lab key) = vec (vec <$> l)) as -> by (by destruct Hl as [->|[-> ->]]).
  rewrite from_vec. cbn [ok_or]. rewrite to_vec_vec. cbn [ok_or]. by rewrite !insert_insert_eq.
Qed.

Lemma append_ok st m g leaf_node :
  sim st m -> exists m', append_own_leaf_node g leaf_node m = (Ok tt, m') /\ sim (spec st (OAppend g leaf_node)) m'.
Proof.
  intros Hsim. unfold append_own_leaf_node. rewrite !try_vec. unfold append.
  rewrite (update_list_ok _ _ m (st (SLeaves g))) by apply (Hsim (SLeaves g) I).
  eexists. split; [done|]. apply (sim_set st m (SLeaves g)); [done..|]. left. by rewrite fmap_app.
Qed.

Lemma queue_ok st m g r p :
  sim st m -> exists m', queue_proposal g r p m = (Ok tt, m') /\ sim (spec st (OQueue g r p)) m'.
Proof.
  intros Hsim. unfold queue_proposal. rewrite !try_vec. unfold write, modifying, mbind, stateful_bind.
  assert (sim (upd (SProposal (g, r)) (Some p) st) (<[key_of (SProposal (g, r)) := vec p]> m)) as Hsim' by (by apply sim_set).
  change (build_key_from_vec QUEUED_PROPOSAL_LABEL (vec (g, r))) with (key_of (SProposal (g, r))).
  eval_serde. unfold append.
  rewrite (update_list_ok _ _ _ (st (SRefs g))); [|by pose proof (Hsim' (SRefs g) I) as Hg; rewrite upd_ne in Hg].
  eexists. split; [done|]. apply sim_set; [done..|]. left. by rewrite fmap_app.
Qed.

Lemma remove_ok st m g r : sim st m -> exists m', remove_proposal g r m = (Ok tt, m') /\ sim (spec st (ORemove g r)) m'.
Proof.
  intros Hsim. unfold remove_proposal. rewrite !unwrap_vec. unfold remove_item, mbind, stateful_bind.
  rewrite (update_list_ok _ _ m (st (SRefs g))) by apply (Hsim (SRefs g) I). unfold unwrap, lifting. rewrite to_vec_vec. cbn [returns].
  eexists. split; [done|]. apply (sim_del _ _ (SProposal (g, r))); [|done]. apply sim_set; [done..|]. left. by rewrite remove_first_vec.
Qed.

Lemma delete_proposals_ok st m g refs :
  sim st m -> exists m', delete_proposals g refs m = (Ok tt, m') /\ sim (foldl (fun st r => upd (SProposal (g, r)) None st) st refs) m'.
Proof.
  revert st m. induction refs as [|r refs IH]; intros st m Hsim; [by exists m|].
  cbn [delete_proposals foldl]. rewrite try_vec. unfold mbind, stateful_bind, modifying. apply IH. by apply (sim_del _ _ (SProposal (g, r))).
Qed.

Lemma clear_ok st m g :
  sim st m -> exists m', clear_proposal_queue (ProposalRef := ty ProposalRef) g m = (Ok tt, m') /\ sim (spec st (OClear g)) m'.
Proof.
  intros Hsim. unfold clear_proposal_queue. rewrite try_vec. unfold mbind, stateful_bind.
  rewrite (read_list_ok _ _ m (st (SRefs g))) by apply (Hsim (SRefs g) I).
  destruct (delete_proposals_ok st m g (st (SRefs g)) Hsim) as (m' & -> & Hsim'). eval_serde.
  eexists. split; [done|]. by apply (sim_del _ _ (SRefs g)).
Qed.

Lemma read_proposals_ok st m g refs :
  sim st m ->
  read_proposals g refs m =
    (match mapM (fun r => pair r <$> (st (SProposal (g, r)) : option (ty QueuedProposal))) refs with Some l => Ok l | None => Panic end, m).
Proof.
  intros Hsim. induction refs as [|r refs IH]; [done|]. cbn [read_proposals]. rewrite try_vec. unfold mbind, stateful_bind.
  rewrite (read_ok _ _ m (st (SProposal (g, r)))) by apply (Hsim (SProposal (g, r)) I). cbn [mapM].
  destruct (st (SProposal (g, r))) as [p|]; [|done]. unfold unwrap, lifting. cbn [returns]. rewrite IH. cbn.
  by destruct (mapM _ refs).
Qed.

(** *** Runs *)
Definition own_op (op : store_op ty) : Prop := match op with OWrite s _ | ODelete s => own_slot s | _ => True end.

Lemma perform_ok st m op : sim st m -> own_op op -> exists m', perform op m = (Ok tt, m') /\ sim (spec st op) m'.
Proof.
  intros Hsim Hop. destruct op as [s v|s|g n|g r p|g r|g]; cbn [perform spec] in *;
    [|destruct (deletable s) eqn:Hd|by apply append_ok|by apply queue_ok|by apply remove_ok|by apply clear_ok].
  - destruct (store_ok s v m) as (b & -> & Hb). eexists. split; [done|]. by apply sim_set.
  - rewrite discard_ok by done. eexists. split; [done|]. by apply sim_del.
  - exists m. split; [|done]. by destruct s.
Qed.

Lemma perform_all_ok st m ops :
  sim st m -> Forall own_op ops -> exists m', perform_all ops m = (Ok tt, m') /\ sim (foldl spec st ops) m'.
Proof.
  intros Hsim HF. revert st m Hsim. induction HF as [|op ops Hop HF IH]; intros st m Hsim; [by exists m|].
  cbn [perform_all foldl]. unfold mbind, stateful_bind. destruct (perform_ok st m op Hsim Hop) as (m' & -> & Hsim'). by apply IH.
Qed.

(** ** The theorems *)

(** C11. The provider is a typed store. Any sequence of writes, deletions, appended leaves and
    operations on proposal queues, of a client that keeps its leaf in each group, succeeds;
    afterwards every read returns what the same operations leave in a store of typed slots
    that do not interfere, and the queue of a group is read in order. *)
Theorem storage_refines ops :
  Forall own_op ops ->
  let st := foldl spec empty_store ops in
  let '(r, m) := perform_all ops default_storage in
  r = Ok tt /\ (forall s, own_slot s -> fetch s m = (Ok (st s), m)) /\
  (forall g, queued_proposals g m = (match queue_of st g with Some l => Ok l | None => Panic end, m)).
Proof.
  intros HF st. destruct (perform_all_ok empty_store default_storage ops sim_empty HF) as (m & -> & Hsim). fold st in Hsim.
  split_and!; [done|intros s Hs; by apply fetch_ok|]. intros g. unfold queued_proposals. rewrite try_vec. unfold mbind, stateful_bind.
  rewrite (read_list_ok _ _ m (st (SRefs g))) by apply (Hsim (SRefs g) I). by apply read_proposals_ok.
Qed.

Lemma remove_first_twice `{EqDecision A} (a : A) l : a ∈ remove_first a (l ++ [a] ++ [a]).
Proof. induction l as [|a' l IH]; cbn; [by rewrite decide_True; [left|]|]. case_decide; set_solver. Qed.

(** C29. A proposal that is queued twice and removed once leaves a reference without a proposal
    behind: whatever was stored before, reading the queue of the group panics. *)
Theorem requeued_proposal_panics ops g r p p' :
  Forall own_op ops ->
  let '(res, m) := perform_all (ops ++ [OQueue g r p; OQueue g r p'; ORemove g r]) default_storage in
  res = Ok tt /\ (queued_proposals (ProposalRef := ty ProposalRef) (V := ty QueuedProposal) g m).1 = Panic.
Proof.
  intros HF. destruct (perform_all_ok empty_store default_storage (ops ++ [OQueue g r p; OQueue g r p'; ORemove g r]) sim_empty) as (m & -> & Hsim).
  { apply Forall_app. split; [done|]. by repeat constructor. }
  split; [done|]. rewrite foldl_app in Hsim. set (st := foldl spec empty_store ops) in Hsim. cbn [foldl] in Hsim.
  set (st' := spec _ (ORemove g r)) in Hsim. unfold queued_proposals. rewrite try_vec. unfold mbind, stateful_bind.
  rewrite (read_list_ok _ _ m (st' (SRefs g))) by apply (Hsim (SRefs g) I). rewrite (read_proposals_ok st') by done. cbn [fst].
  destruct (mapM _ _) as [l|] eqn:E; [exfalso|done]. apply mapM_Some in E.
  assert (r ∈ st' (SRefs g)) as Hr.
  { unfold st'. cbn [spec]. repeat first [rewrite upd_eq | rewrite upd_ne by done]. rewrite <- app_assoc. apply remove_first_twice. }
  apply list_elem_of_lookup in Hr as [i Hi]. destruct (Forall2_lookup_l _ _ _ _ _ E Hi) as (y & _ & Hy).
  unfold st' in Hy. cbn [spec] in Hy. by rewrite upd_eq in Hy.
Qed.
End Refinement.

(** Numbers in JSON. *)
Definition decimal (n : Z) : list Z := ascii_bytes (pretty (Z.to_N n)).

(** C30. The storage key of the key pairs of an epoch is ambiguous: serde_json writes the epoch
    and the leaf index as decimal numbers, one after the other. What a client stores for epoch
    11 and leaf 2 of a group replaces what is stored for epoch 1 and leaf 12. *)
Theorem epoch_key_pairs_collide {G V : Type} {SG : Serde G} {SV : Serde (list V)} {SN : Serde Z} {LG : LawfulSerde G} {LV : LawfulSerde (list V)}
    (g : G) (pairs pairs' : list V) m :
  (forall n, 0 <= n -> to_vec n = Some (decimal n)) ->
  (_ ← write_encryption_epoch_key_pairs g 1 12 pairs;
   _ ← write_encryption_epoch_key_pairs g 11 2 pairs';
   encryption_epoch_key_pairs g 1 12) m =
  (Ok pairs', <[build_key_from_vec EPOCH_KEY_PAIRS_LABEL (vec g ++ decimal 1 ++ decimal 12) := vec pairs']> m).
Proof.
  intros Hd. unfold MemoryStorage in *.
  assert (forall e l, 0 <= e -> 0 <= l -> forall m', epoch_key_pairs_id g e l m' = (Ok (vec g ++ decimal e ++ decimal l), m')) as Hid.
  { intros e l He Hl m'. unfold epoch_key_pairs_id. rewrite try_vec. unfold try_serde, lifting. by rewrite !Hd. }
  assert (decimal 11 ++ decimal 2 = decimal 1 ++ decimal 12) as E by (by vm_compute).
  unfold write_encryption_epoch_key_pairs, encryption_epoch_key_pairs, mbind, stateful_bind.
  rewrite Hid by lia. unfold try_serde, lifting. rewrite !to_vec_vec. cbn [ok_or]. unfold write, modifying. rewrite Hid, E by lia.
  rewrite Hid by lia. unfold reading, MemoryStorage. rewrite lookup_insert_eq, insert_insert_eq.
  unfold unwrap, lifting. by rewrite from_vec.
Qed.

(** ** Witnesses *)

(** A serializer for countable types that writes one number, and one of lists of byte strings. *)
Definition count_serde {A} `{Countable A} : Serde A := {|
  to_vec a := Some [Zpos (encode a)];
  from_slice b := match b with [Zpos p] => decode p | _ => None end;
  from_slice_option b := match b with [Zpos p] => Some <$> decode p | _ => None end;
|}.

Lemma count_lawful {A} `{Countable A} : @LawfulSerde A count_serde.
Proof. split; [eauto|intros a b [= <-]; cbn; by rewrite decode_encode..]. Qed.

Definition lists_serde : Serde (list (list Z)) := {|
  to_vec l := Some (match l with [] => ascii_bytes "[]" | _ => [Zpos (encode l)] end);
  from_slice b := if decide (b = ascii_bytes "[]") then Some [] else @from_slice _ count_serde b;
  from_slice_option b := Some <$> (if decide (b = ascii_bytes "[]") then Some [] else @from_slice _ count_serde b);
|}.

Lemma lists_lawful : @LawfulSerde _ lists_serde.
Proof.
  assert (forall l : list (list Z), l <> [] -> decode (encode l) = Some l) as Hd by (intros; apply decode_encode).
  split; [eauto|intros [|x l] b [= <-]; cbn -[encode decode]; [done|by rewrite decide_False, Hd]..].
Qed.

Section Example.
#[local] Existing Instance count_serde.
#[local] Existing Instance count_lawful.
#[local] Existing Instance lists_serde | 0.
#[local] Existing Instance lists_lawful | 0.

Definition numbers : entity -> Type := fun _ => Z.

Lemma numbers_delimited (g g' : numbers GroupId) x y : vec g ++ x = vec g' ++ y -> g = g'.
Proof. cbn -[encode]. intros [= E _]. by apply encode_inj in E. Qed.

(** Two groups, leaf 4 in each; a queue of three proposals of which the second is removed. *)
Definition toy_ops : list (store_op numbers) :=
  [OWrite (STree 1) 10; OWrite (STree 2) 20; OWrite (SEpochPairs 1 7 4) [70; 71]; OQueue 1 5 50; OQueue 1 6 60; OQueue 1 7 70;
   OAppend 1 8; ORemove 1 6; OWrite (SState 1) 3; ODelete (STree 2); OAppend 1 9].

Lemma toy_ops_own : Forall (own_op (fun _ => 4)) toy_ops.
Proof. by repeat constructor. Qed.

Lemma storage_refines_witness :
  let st := foldl spec empty_store toy_ops in
  let '(r, m) := perform_all toy_ops default_storage in
  r = Ok tt /\ fetch (STree 1) m = (Ok (st (STree 1)), m) /\ queue_of st 1 = Some [(5, 50); (7, 70)].
Proof.
  pose proof (storage_refines (ty := numbers) eq_refl numbers_delimited (fun _ => 4) toy_ops toy_ops_own) as Hr. cbv zeta in Hr |- *.
  destruct (perform_all toy_ops default_storage) as [r m]. destruct Hr as (Hr & Hf & _).
  split; [exact Hr|]. split; [exact (Hf (STree 1) I)|by vm_compute].
Defined.

Lemma requeued_proposal_panics_witness :
  let '(res, m) := perform_all (toy_ops ++ [OQueue 2 5 50; OQueue 2 5 51; ORemove 2 5]) default_storage in
  res = Ok tt /\ (queued_proposals (ProposalRef := numbers ProposalRef) (V := numbers QueuedProposal) 2 m).1 = Panic.
Proof. exact (requeued_proposal_panics (ty := numbers) eq_refl numbers_delimited (fun _ => 4) toy_ops 2 5 50 51 toy_ops_own). Defined.

(** Numbers as serde_json writes them, and read back digit by digit. *)
Definition decimal_serde : Serde Z := {|
  to_vec n := Some (decimal n);
  from_slice b := Some (foldl (fun n c => 10 * n + (c - 48)) 0 b);
  from_slice_option b := Some (Some (foldl (fun n c => 10 * n + (c - 48)) 0 b));
|}.

Lemma epoch_key_pairs_collide_witness :
  ((_ ← write_encryption_epoch_key_pairs (SN := decimal_serde) (H0 := decimal_serde) (V := Z) 0 1 12 [100];
    _ ← write_encryption_epoch_key_pairs (SN := decimal_serde) (H0 := decimal_serde) (V := Z) 0 11 2 [200];
    encryption_epoch_key_pairs (SN := decimal_serde) (H0 := decimal_serde) 0 1 12) default_storage).1 = Ok [200].
Proof. by rewrite (epoch_key_pairs_collide (G := Z) (V := Z) (SN := decimal_serde) 0 [100] [200] default_storage (fun _ _ => eq_refl)). Defined.
End Example.
