(* ===== verification/DualUseRatchet.v ===== *)
(** * Dual-use ratchets

    Models openmls/src/tree/dual_use_ratchet.rs (feature virtual-clients-draft): the
    ratchet of the own leaf, which encrypts and also decrypts the messages another
    emulating client sent from that leaf.  A [BTreeMap] is a finite map iterated in key
    order with [btree_iter]. *)
From S2P Require Import Prelude Crypto SenderRatchet.

Inductive RetainedDecryptionSecret : Type := RetainedAvailable (ratchet_secret : RatchetKeyMaterial) | RetainedConsumed.

Inductive DualUsePastSecret : Type :=
  | AwaitingConfirmation (ratchet_secret : RatchetKeyMaterial)
  | RetainedForDecryption (secret : RetainedDecryptionSecret).

Record DualUseRatchet : Type := mkDualUseRatchet {
  du_past_secrets : gmap Z DualUsePastSecret;
  du_ratchet_head : RatchetSecret;
  pruned_below : Z;
}.

(** [DecryptionSecret] with the variant of the feature. *)
Inductive DualDecryptionSecret : Type := DualAvailable (ratchet_key_material : RatchetKeyMaterial) | OwnMessageConfirmed.

Inductive PeekedDualUseGeneration : Type :=
  | DualForward (from_head : Z) (ratchet_head : RatchetSecret) (skipped_secrets : list RatchetKeyMaterial)
  | DualPast (generation : Z).

Module DualUse.
Section DualUse.
Context {OC : OpenMlsCrypto} {TC : TlsCodec}.
Context (ciphersuite : Ciphersuite).
Implicit Types (self : DualUseRatchet) (configuration : SenderRatchetConfiguration).

Definition peek_for_decryption (self : DualUsePastSecret) : result SecretTreeError RatchetKeyMaterial :=
  match self with
  | AwaitingConfirmation ratchet_secret | RetainedForDecryption (RetainedAvailable ratchet_secret) => Ok ratchet_secret
  | RetainedForDecryption RetainedConsumed => Err SecretReuseError
  end.

Definition take_for_decryption : stateful DualUsePastSecret SecretTreeError RatchetKeyMaterial := fun (self : DualUsePastSecret) =>
  (peek_for_decryption self, RetainedForDecryption RetainedConsumed).

Definition is_retained_for_decryption (self : DualUsePastSecret) : bool :=
  match self with RetainedForDecryption _ => true | AwaitingConfirmation _ => false end.

Definition from (ratchet_head : RatchetSecret) : DualUseRatchet := mkDualUseRatchet ∅ ratchet_head 0.
Definition new (secret : Secret) : DualUseRatchet := mkDualUseRatchet ∅ (initial_ratchet_secret secret) 0.

Definition generation self : Z := SenderRatchet.generation (du_ratchet_head self).

Definition delete_secret_for_generation (generation' : Z) self : DualUseRatchet :=
  if generation self <=? generation' then self
  else match du_past_secrets self !! generation' with
       | Some (AwaitingConfirmation _) =>
           mkDualUseRatchet (delete generation' (du_past_secrets self)) (du_ratchet_head self) (pruned_below self)
       | _ => self
       end.

Definition secret_for_encryption : stateful DualUseRatchet SecretTreeError (Z * RatchetKeyMaterial) := updating (fun self =>
  let generation' := generation self in
  '((_, ratchet_secrets), head) ← ratchet_forward ciphersuite (du_ratchet_head self);
  Ok ((generation', ratchet_secrets),
      mkDualUseRatchet (<[generation' := AwaitingConfirmation ratchet_secrets]> (du_past_secrets self)) head (pruned_below self))).

Definition missing_past_secret self (generation' : Z) : result SecretTreeError DualDecryptionSecret :=
  if generation' <? pruned_below self then Err TooDistantInThePast else Ok OwnMessageConfirmed.

(** The loop of [peek]: the skipped secrets, oldest first. *)
Fixpoint skip_all (n : nat) (head : RatchetSecret) : result SecretTreeError (RatchetSecret * list RatchetKeyMaterial) :=
  match n with
  | O => Ok (head, [])
  | S n' =>
      '((_, key_material), head') ← ratchet_forward ciphersuite head;
      '(head'', skipped_secrets) ← skip_all n' head';
      Ok (head'', key_material :: skipped_secrets)
  end.

Definition peek self (generation' : Z) configuration :
    result SecretTreeError (DualDecryptionSecret * option PeekedDualUseGeneration) :=
  let head_generation := generation self in
  if (head_generation <? (u32.MAX - maximum_forward_distance configuration)%u32)
     && (generation' >? (head_generation + maximum_forward_distance configuration)%u32)
  then Err TooDistantInTheFuture
  else if generation' >=? head_generation then
    '(ratchet_head, skipped_secrets) ← skip_all (Z.to_nat (generation' - head_generation)) (du_ratchet_head self);
    '((_, ratchet_secrets), ratchet_head) ← ratchet_forward ciphersuite ratchet_head;
    Ok (DualAvailable ratchet_secrets, Some (DualForward head_generation ratchet_head skipped_secrets))
  else
    match du_past_secrets self !! generation' with
    | None => decryption_secret ← missing_past_secret self generation'; Ok (decryption_secret, None)
    | Some entry => k ← peek_for_decryption entry; Ok (DualAvailable k, Some (DualPast generation'))
    end.

Definition prune_generation self (generation' : Z) : DualUseRatchet :=
  mkDualUseRatchet (delete generation' (du_past_secrets self)) (du_ratchet_head self)
    (Z.max (pruned_below self) (generation' + 1)%u32).

Definition prune_past_secrets configuration self : DualUseRatchet :=
  let retained := filter (fun entry => is_retained_for_decryption entry.2 = true) (btree_iter (du_past_secrets self)) in
  let excess := (length retained - Z.to_nat (out_of_order_tolerance configuration))%nat in
  foldl prune_generation self (take excess retained.*1).

(** The skipped secrets are retained from generation [from_head] on. *)
Definition retain_skipped (past : gmap Z DualUsePastSecret) (from_head : Z) (skipped_secrets : list RatchetKeyMaterial) :
    gmap Z DualUsePastSecret :=
  foldl (fun past entry => <[entry.1 := RetainedForDecryption (RetainedAvailable entry.2)]> past) past
    (zip ((fun i => (from_head + Z.of_nat i)%u32) <$> seq 0 (length skipped_secrets)) skipped_secrets).

Definition consume (peeked : PeekedDualUseGeneration) configuration : stateful DualUseRatchet SecretTreeError unit := fun self =>
  match peeked with
  | DualForward from_head ratchet_head skipped_secrets =>
      if negb (from_head =? generation self) then (Err SecretTreeLibraryError, self)
      else
        let generation' := (SenderRatchet.generation ratchet_head - 1)%u32 in
        let past := retain_skipped (du_past_secrets self) from_head skipped_secrets in
        let self := mkDualUseRatchet (<[generation' := RetainedForDecryption RetainedConsumed]> past) ratchet_head (pruned_below self) in
        (Ok tt, prune_past_secrets configuration self)
  | DualPast generation' =>
      match du_past_secrets self !! generation' with
      | None => (Err SecretReuseError, self)
      | Some entry =>
          let '(r, entry) := take_for_decryption entry in
          let self := mkDualUseRatchet (<[generation' := entry]> (du_past_secrets self)) (du_ratchet_head self) (pruned_below self) in
          match r with
          | Ok _ => (Ok tt, prune_past_secrets configuration self)
          | Err e => (Err e, self)
          | Panic => (Panic, self)
          end
      end
  end.
End DualUse.
End DualUse.
