(* ===== verification/DualUseRatchetFacts.v ===== *)
(** * Dual-use ratchets: correctness

    Sessions of a dual-use ratchet, in which sending, peeking, consuming and confirming are
    interleaved in any order: no generation is sent or opened twice, key material is that of the
    chain, a secret that was used or confirmed is gone, and one that was sent and neither opened
    nor confirmed is kept, outside the window as well. *)
From S2P Require Import Prelude Crypto CryptoFacts SenderRatchet SenderRatchetFacts DualUseRatchet.
Import DualUse.

(** ** Sessions *)
Inductive dual_event : Type := DEncrypt | DPeek (g : Z) | DConsume (i : nat) | DConfirm (g : Z).

(** The ratchet, the peeked generations at hand, and what was sent, opened and confirmed. A
    confirmation counts when the generation has been emitted. *)
Record dual_session : Type := mkSession {
  ratchet : DualUseRatchet;
  pending : list (Z * RatchetKeyMaterial * PeekedDualUseGeneration);
  sent : list (Z * RatchetKeyMaterial);
  opened : list (Z * RatchetKeyMaterial);
  confirmed : list Z;
}.

Definition wf_event (e : dual_event) : Prop :=
  match e with DPeek g | DConfirm g => u32.is_u32 g | _ => True end.

Section Session.
Context {OC : OpenMlsCrypto} {TC : TlsCodec} (cs : Ciphersuite) (cfg : SenderRatchetConfiguration).

Definition dual_step (st : dual_session) (e : dual_event) : dual_session :=
  let '(mkSession r ps ss os cf) := st in
  match e with
  | DEncrypt =>
      match secret_for_encryption cs r with
      | (Ok gk, r') => mkSession r' ps (gk :: ss) os cf
      | (_, r') => mkSession r' ps ss os cf
      end
  | DPeek g =>
      match DualUse.peek cs r g cfg with
      | Ok (DualAvailable k, Some p) => mkSession r (ps ++ [(g, k, p)]) ss os cf
      | _ => st
      end
  | DConsume i =>
      match ps !! i with
      | None => st
      | Some (gk, p) =>
          match DualUse.consume p cfg r with
          | (Ok _, r') => mkSession r' ps ss (gk :: os) cf
          | (_, r') => mkSession r' ps ss os cf
          end
      end
  | DConfirm g =>
      mkSession (delete_secret_for_generation g r) ps ss os
        (if g <? DualUse.generation r then g :: cf else cf)
  end.

Definition dual_run (secret : Secret) (events : list dual_event) : dual_session :=
  foldl dual_step (mkSession (DualUse.new secret) [] [] [] []) events.
End Session.

(** The entries that count towards the window. *)
Definition window (past : gmap Z DualUsePastSecret) : gmap Z DualUsePastSecret :=
  filter (fun entry => is_retained_for_decryption entry.2 = true) past.

(** ** Pruning *)
Section Prune.
Implicit Types (r : DualUseRatchet) (g : Z) (past : gmap Z DualUsePastSecret).

Lemma prune_fold gs r B :
  Forall (fun g => 0 <= g < B) gs -> B <= u32.MAX -> pruned_below r <= B ->
  let r' := foldl prune_generation r gs in
  du_ratchet_head r' = du_ratchet_head r /\ du_past_secrets r' = foldr delete (du_past_secrets r) gs /\
  pruned_below r <= pruned_below r' <= B /\ Forall (fun g => g < pruned_below r') gs.
Proof.
  intros HF HB. revert r. induction HF as [|g gs Hg HF IH]; intros r Hr; cbn [foldl]; [split_and!; try done; lia|].
  assert ((g + 1)%u32 = g + 1) as E.
  { unfold u32.add. apply u32.wrap_small. unfold u32.is_u32, u32.MAX in *. lia. }
  destruct (IH (prune_generation r g)) as (Hh & Hp & Hb & Hall); [cbn; lia|].
  cbn [prune_generation du_past_secrets du_ratchet_head pruned_below] in Hh, Hp, Hb. rewrite E in Hb.
  split_and!; [done| |lia|lia|constructor; [lia|done]].
  rewrite Hp. clear. induction gs as [|g' gs IH]; [done|]. cbn. rewrite IH. apply delete_delete.
Qed.

Lemma lookup_foldr_delete (gs : list Z) past g :
  foldr delete past gs !! g = if decide (g ∈ gs) then None else past !! g.
Proof.
  induction gs as [|g' gs IH]; cbn; [done|]. destruct (decide (g = g')) as [->|Hne].
  - rewrite lookup_delete_eq, decide_True by (constructor). done.
  - rewrite lookup_delete_ne, IH by done. repeat case_decide; set_solver.
Qed.

Lemma size_foldr_delete (gs : list Z) past :
  NoDup gs -> Forall (fun g => is_Some (past !! g)) gs ->
  base.size (foldr delete past gs) = (base.size past - length gs)%nat.
Proof.
  induction 1 as [|g gs Hn Hnd IH]; intros HF; cbn; [lia|]. apply Forall_cons in HF as [[e He] HF].
  rewrite map_size_delete_Some, IH; [lia|done|]. rewrite lookup_foldr_delete, decide_False by done. eauto.
Qed.

Lemma window_foldr_delete gs past : window (foldr delete past gs) = foldr delete (window past) gs.
Proof. induction gs as [|g gs IH]; [done|]. cbn. unfold window in *. by rewrite map_filter_delete, IH. Qed.

Lemma lookup_window past g e :
  window past !! g = Some e <-> past !! g = Some e /\ is_retained_for_decryption e = true.
Proof. unfold window. apply map_lookup_filter_Some. Qed.

(** The generations in the window, oldest first. *)
Definition retained past : list (Z * DualUsePastSecret) :=
  filter (fun entry => is_retained_for_decryption entry.2 = true) (btree_iter past).

Lemma retained_perm past : retained past ≡ₚ map_to_list (window past).
Proof.
  apply NoDup_Permutation.
  - apply NoDup_filter, (NoDup_fmap_1 fst), btree_iter_NoDup.
  - apply NoDup_map_to_list.
  - intros [g e]. unfold retained. rewrite list_elem_of_filter, btree_iter_elem, elem_of_map_to_list, lookup_window. tauto.
Qed.

(** What pruning does: it drops entries of the window only, all below the new bound, and
    leaves at most the tolerance of them. *)
Lemma prune_spec cfg r B :
  0 <= out_of_order_tolerance cfg -> (forall g e, du_past_secrets r !! g = Some e -> 0 <= g < B) ->
  B <= u32.MAX -> pruned_below r <= B ->
  let r' := prune_past_secrets cfg r in
  du_ratchet_head r' = du_ratchet_head r /\ pruned_below r <= pruned_below r' <= B /\
  (forall g, du_past_secrets r' !! g = du_past_secrets r !! g \/
     (exists e, du_past_secrets r !! g = Some (RetainedForDecryption e)) /\
     du_past_secrets r' !! g = None /\ g < pruned_below r') /\
  Z.of_nat (base.size (window (du_past_secrets r'))) <= out_of_order_tolerance cfg.
Proof.
  intros Ht HB HM Hb. cbn zeta. unfold prune_past_secrets. fold (retained (du_past_secrets r)).
  set (n := (length _ - _)%nat). set (gs := take n (retained (du_past_secrets r)).*1).
  assert (forall g, g ∈ gs -> exists e, window (du_past_secrets r) !! g = Some e) as Hgs.
  { intros g Hg. assert (g ∈ (retained (du_past_secrets r)).*1) as Hr by (rewrite <- (take_drop n); apply elem_of_app; by left).
    apply list_elem_of_fmap in Hr as ([g' e] & -> & Hr). rewrite retained_perm in Hr. apply elem_of_map_to_list in Hr. eauto. }
  destruct (prune_fold gs r B) as (Hh & Hp & Hbb & Hlow); [|done..|].
  { apply Forall_forall. intros g (e & [He _]%lookup_window)%Hgs. eauto. }
  split_and!; [done|lia|lia| |].
  - intros g. rewrite Hp, lookup_foldr_delete. case_decide as Hg; [right|by left].
    destruct (Hgs g Hg) as [e [He Hr]%lookup_window]. rewrite Forall_forall in Hlow.
    split_and!; [destruct e; [done|eauto]|done|auto].
  - rewrite Hp, window_foldr_delete, size_foldr_delete.
    + unfold gs. rewrite length_take, length_fmap. subst n. rewrite retained_perm, length_map_to_list. lia.
    + assert (NoDup (retained (du_past_secrets r)).*1) as Hnd by (rewrite retained_perm; apply NoDup_fst_map_to_list).
      rewrite <- (take_drop n) in Hnd. by apply NoDup_app in Hnd as [Hnd _].
    + apply Forall_forall. intros g (e & He)%Hgs. by rewrite He.
Qed.
End Prune.

(** ** The invariant *)
Section Invariant.
Context {OC : OpenMlsCrypto} {TC : TlsCodec} (cs : Ciphersuite) (cfg : SenderRatchetConfiguration) (s0 : RatchetSecret).
Context (Hcfg : wf_config cfg) (H0 : SenderRatchet.generation s0 = 0).
Implicit Types (r : DualUseRatchet) (g : Z) (past : gmap Z DualUsePastSecret) (st : dual_session).

Abbreviation key_of := (fun g => chain_key cs s0 (Z.to_nat g)).

(** The state of an emitted generation [g], by its entry: what was sent, opened and confirmed. *)
Definition entry_ok (ss os cf : list Z) (low g : Z) (entry : option DualUsePastSecret) : Prop :=
  match entry with
  | Some (AwaitingConfirmation k) => key_of g = Ok k /\ g ∈ ss /\ g ∉ os /\ g ∉ cf
  | Some (RetainedForDecryption (RetainedAvailable k)) => key_of g = Ok k /\ g ∉ ss /\ g ∉ os
  | Some (RetainedForDecryption RetainedConsumed) => g ∈ os
  | None => (g ∈ ss /\ g ∈ cf /\ g ∉ os) \/ (g < low /\ (g ∈ os \/ g ∉ ss))
  end.

Record ratchet_ok (r : DualUseRatchet) (ss os cf : list Z) : Prop := {
  ro_head : chain cs s0 (Z.to_nat (DualUse.generation r)) = Ok (du_ratchet_head r);
  ro_gen : 0 <= DualUse.generation r <= u32.MAX;
  ro_low : pruned_below r <= DualUse.generation r;
  ro_entry g : 0 <= g < DualUse.generation r -> entry_ok ss os cf (pruned_below r) g (du_past_secrets r !! g);
  ro_fresh g : ~ 0 <= g < DualUse.generation r ->
    du_past_secrets r !! g = None /\ g ∉ ss /\ g ∉ os /\ g ∉ cf;
}.

Definition pending_ok (entry : Z * RatchetKeyMaterial * PeekedDualUseGeneration) : Prop :=
  let '(g, k, p) := entry in
  0 <= g /\ key_of g = Ok k /\
  match p with
  | DualPast g' => g' = g
  | DualForward n h ks =>
      0 <= n <= g /\ chain cs s0 (Z.to_nat (g + 1)) = Ok h /\ Z.of_nat (length ks) = g - n /\
      forall i k', ks !! i = Some k' -> chain_key cs s0 (Z.to_nat n + i) = Ok k'
  end.

Record dual_inv st : Prop := {
  di_ratchet : ratchet_ok (ratchet st) (sent st).*1 (opened st).*1 (confirmed st);
  di_window : Z.of_nat (base.size (window (du_past_secrets (ratchet st)))) <= out_of_order_tolerance cfg;
  di_sent : NoDup (sent st).*1;
  di_opened : NoDup (opened st).*1;
  di_keys g k : (g, k) ∈ sent st ++ opened st -> key_of g = Ok k;
  di_pending : Forall pending_ok (pending st);
}.

Lemma ratchet_ok_range r ss os cf g e :
  ratchet_ok r ss os cf -> du_past_secrets r !! g = Some e -> 0 <= g < DualUse.generation r.
Proof.
  intros Hr He. destruct (decide (0 <= g < DualUse.generation r)) as [|Hn]; [done|].
  destruct (ro_fresh _ _ _ _ Hr g Hn). congruence.
Qed.

(** Pruning keeps the invariant and restores the window. *)
Lemma prune_ok r ss os cf :
  ratchet_ok r ss os cf ->
  ratchet_ok (prune_past_secrets cfg r) ss os cf /\
  Z.of_nat (base.size (window (du_past_secrets (prune_past_secrets cfg r)))) <= out_of_order_tolerance cfg.
Proof.
  intros Hr. destruct (prune_spec cfg r (DualUse.generation r)) as (Hh & Hb & Hp & Hw);
    [apply Hcfg|eauto using ratchet_ok_range|apply Hr..|]. split; [|done].
  set (r' := prune_past_secrets cfg r) in *.
  assert (DualUse.generation r' = DualUse.generation r) as Hg by (unfold DualUse.generation; by rewrite Hh).
  split; rewrite ?Hg, ?Hh; [apply Hr|apply Hr|lia| |].
  - intros g Hin. pose proof (ro_entry _ _ _ _ Hr g Hin) as He.
    destruct (Hp g) as [->|([e E] & -> & Hlt)].
    + destruct (du_past_secrets r !! g) as [[?|[?|]]|]; cbn in *; [done..|]. destruct He as [|[? ?]]; [by left|right; split; [lia|done]].
    + rewrite E in He. right. split; [done|]. destruct e; cbn in He; [right; apply He|by left].
  - intros g Hin. destruct (ro_fresh _ _ _ _ Hr g Hin) as (He & ?). split; [|done].
    destruct (Hp g) as [->|(_ & -> & _)]; done.
Qed.

(** ** Peeking *)
Lemma skip_all_Ok n m h h' ks :
  chain cs s0 m = Ok h -> skip_all cs n h = Ok (h', ks) ->
  chain cs s0 (m + n) = Ok h' /\ length ks = n /\ forall i k, ks !! i = Some k -> chain_key cs s0 (m + i) = Ok k.
Proof.
  revert m h ks; induction n as [|n IH]; intros m h ks Hm Hs; cbn [skip_all] in Hs.
  - simplify_eq. by rewrite Nat.add_0_r.
  - apply bind_Ok in Hs as ([[g k] h1] & Hf & Hs). apply bind_Ok in Hs as ([h2 ks'] & Hs & E). simplify_eq.
    destruct (chain_S _ _ _ _ _ _ _ Hm Hf) as [H1 Hk]. destruct (IH _ _ _ H1 Hs) as (Hc & Hl & Hks).
    rewrite Nat.add_succ_r. split_and!; [done|cbn; lia|]. intros [|i] k' Hi; cbn in Hi.
    + simplify_eq. by rewrite Nat.add_0_r.
    + rewrite Nat.add_succ_r. by apply Hks.
Qed.

Lemma peek_ok r ss os cf g k p :
  ratchet_ok r ss os cf -> u32.is_u32 g -> DualUse.peek cs r g cfg = Ok (DualAvailable k, Some p) -> pending_ok (g, k, p).
Proof.
  intros Hr Hg Hp. unfold u32.is_u32 in Hg. pose proof (ro_gen _ _ _ _ Hr). unfold DualUse.peek in Hp.
  destruct (_ && _) in Hp; [done|]. destruct (Z.geb_spec g (DualUse.generation r)).
  - apply bind_Ok in Hp as ([h1 ks] & Hs & Hp). apply bind_Ok in Hp as ([[g1 k1] h2] & Hf & Hp). simplify_eq.
    destruct (skip_all_Ok _ _ _ _ _ (ro_head _ _ _ _ Hr) Hs) as (Hc & Hl & Hks).
    replace (_ + _)%nat with (Z.to_nat g) in Hc by lia. destruct (chain_S _ _ _ _ _ _ _ Hc Hf) as [Hn Hk].
    replace (S (Z.to_nat g)) with (Z.to_nat (g + 1)) in Hn by lia. split_and!; [lia|done|lia|lia|done|lia|done].
  - destruct (du_past_secrets r !! g) as [e|] eqn:He; [|by apply bind_Ok in Hp as (? & _ & Hp)].
    pose proof (ro_entry _ _ _ _ Hr g ltac:(lia)) as Ho. rewrite He in Ho.
    destruct e as [k'|[k'|]]; cbn in Hp; simplify_eq; split_and!; try lia; apply Ho.
Qed.

(** ** The steps *)
Lemma encrypt_ok r ss os cf :
  ratchet_ok r ss os cf ->
  match secret_for_encryption cs r with
  | (Ok (g, k), r') => ratchet_ok r' (g :: ss) os cf /\ key_of g = Ok k /\ g ∉ ss /\
                       window (du_past_secrets r') = window (du_past_secrets r)
  | (_, r') => r' = r
  end.
Proof.
  intros Hr. unfold secret_for_encryption, updating. destruct (ratchet_forward cs (du_ratchet_head r)) as [[[g1 k] h]|e|] eqn:Hf; [|done..].
  cbn. pose proof (ro_gen _ _ _ _ Hr) as Hg. destruct (forward_generation cs _ _ _ _ Hg Hf) as (_ & Hh & Hlt).
  destruct (chain_S _ _ _ _ _ _ _ (ro_head _ _ _ _ Hr) Hf) as [Hc Hk]. set (n := DualUse.generation r) in *.
  destruct (ro_fresh _ _ _ _ Hr n) as (Hn & Hs & Ho & Hcf); [lia|].
  assert (forall past low, DualUse.generation (mkDualUseRatchet past h low) = n + 1) as Hgen by done.
  split_and!; [|done|done|].
  - split; rewrite ?Hgen; cbn [du_ratchet_head du_past_secrets pruned_below].
    + by replace (Z.to_nat (n + 1)) with (S (Z.to_nat n)) by lia.
    + change (n < u32.MAX) in Hlt. lia.
    + pose proof (ro_low _ _ _ _ Hr). lia.
    + intros g Hin. destruct (decide (g = n)) as [->|Hne].
      * rewrite lookup_insert_eq. cbn. split_and!; [done|set_solver|done|done].
      * rewrite lookup_insert_ne by done. pose proof (ro_entry _ _ _ _ Hr g ltac:(lia)) as He.
        destruct (du_past_secrets r !! g) as [[?|[?|]]|]; cbn in *; set_solver.
    + intros g Hin. destruct (ro_fresh _ _ _ _ Hr g) as (? & ? & ? & ?); [lia|].
      rewrite lookup_insert_ne by lia. split_and!; [done| |done|done]. apply not_elem_of_cons. split; [lia|done].
  - unfold window. rewrite map_filter_insert_False by done. by rewrite delete_id.
Qed.

Lemma confirm_ok r ss os cf g :
  u32.is_u32 g -> ratchet_ok r ss os cf ->
  ratchet_ok (delete_secret_for_generation g r) ss os (if g <? DualUse.generation r then g :: cf else cf) /\
  window (du_past_secrets (delete_secret_for_generation g r)) = window (du_past_secrets r).
Proof.
  intros [Hg _] Hr. unfold delete_secret_for_generation. destruct (Z.leb_spec (DualUse.generation r) g) as [Hle|Hlt].
  { destruct (Z.ltb_spec g (DualUse.generation r)); [lia|done]. }
  destruct (Z.ltb_spec g (DualUse.generation r)); [|lia].
  assert (forall past, (forall g', g' <> g -> past !! g' = du_past_secrets r !! g') -> entry_ok ss os (g :: cf) (pruned_below r) g (past !! g) ->
    ratchet_ok (mkDualUseRatchet past (du_ratchet_head r) (pruned_below r)) ss os (g :: cf)) as Hset.
  { intros past Hother Hhere. split; [apply Hr..| |].
    - intros g' Hin. cbn. destruct (decide (g' = g)) as [->|Hne]; [done|]. rewrite Hother by done.
      pose proof (ro_entry _ _ _ _ Hr g' Hin) as He. destruct (du_past_secrets r !! g') as [[?|[?|]]|]; cbn in *; set_solver.
    - intros g' Hin. change (~ 0 <= g' < DualUse.generation r) in Hin. destruct (ro_fresh _ _ _ _ Hr g' Hin) as (? & ? & ? & ?).
      cbn. rewrite Hother by lia. split_and!; [done..|]. apply not_elem_of_cons. split; [lia|done]. }
  pose proof (ro_entry _ _ _ _ Hr g ltac:(lia)) as He.
  assert (r = mkDualUseRatchet (du_past_secrets r) (du_ratchet_head r) (pruned_below r)) as Er by (by destruct r).
  destruct (du_past_secrets r !! g) as [[k|[k|]]|] eqn:E; (split; [|try done]); cbn [du_past_secrets].
  - apply Hset; [intros; by rewrite lookup_delete_ne|]. rewrite lookup_delete_eq. left. destruct He as (_ & ? & ? & _). set_solver.
  - unfold window. rewrite map_filter_delete. apply delete_id. by rewrite map_lookup_filter, E.
  - rewrite Er. apply Hset; [done|]. by rewrite E.
  - rewrite Er. apply Hset; [done|]. by rewrite E.
  - rewrite Er. apply Hset; [done|]. rewrite E. cbn in *. set_solver.
Qed.

Lemma lookup_retain_skipped past n ks g :
  0 <= n -> n + Z.of_nat (length ks) <= u32.MAX ->
  retain_skipped past n ks !! g =
    if decide (n <= g < n + Z.of_nat (length ks))
    then RetainedForDecryption ∘ RetainedAvailable <$> ks !! Z.to_nat (g - n) else past !! g.
Proof.
  intros Hn. induction ks as [|k ks IH] using rev_ind; intros HM; [cbn [length]; by rewrite decide_False by lia|].
  rewrite length_app in *. cbn [length] in *. unfold retain_skipped in *.
  rewrite length_app, seq_app, fmap_app, zip_with_app, foldl_app by (by rewrite length_fmap, length_seq). cbn.
  assert ((n + Z.of_nat (length ks))%u32 = n + Z.of_nat (length ks)) as ->.
  { unfold u32.add. apply u32.wrap_small. unfold u32.is_u32, u32.MAX in *. lia. }
  destruct (decide (g = n + Z.of_nat (length ks))) as [->|Hne].
  - rewrite lookup_insert_eq, decide_True by lia. rewrite lookup_app_r by lia.
    by replace (Z.to_nat _ - length ks)%nat with 0%nat by lia.
  - rewrite lookup_insert_ne, IH by lia. repeat case_decide; try lia; [|done]. by rewrite lookup_app_l by lia.
Qed.

(** Moving the head to generation [g + 1], which opens [g] and retains what was skipped. *)
Lemma forward_ok r ss os cf g k h ks :
  ratchet_ok r ss os cf -> pending_ok (g, k, DualForward (DualUse.generation r) h ks) ->
  ratchet_ok (mkDualUseRatchet
    (<[(SenderRatchet.generation h - 1)%u32 := RetainedForDecryption RetainedConsumed]>
       (retain_skipped (du_past_secrets r) (DualUse.generation r) ks)) h (pruned_below r)) ss (g :: os) cf /\ g ∉ os.
Proof.
  intros Hr (Hg & _ & Hn & Hc & Hl & Hks). destruct (chain_generation _ _ _ _ H0 Hc) as [Eh HM].
  assert ((SenderRatchet.generation h - 1)%u32 = g) as ->.
  { unfold u32.sub. rewrite u32.wrap_small; [lia|unfold u32.is_u32, u32.MAX in *; lia]. }
  set (n := DualUse.generation r) in *. destruct (ro_fresh _ _ _ _ Hr g) as (_ & Hs & Ho & Hcf); [lia|]. split; [|done].
  assert (forall past low, DualUse.generation (mkDualUseRatchet past h low) = g + 1) as Hgen by (intros; unfold DualUse.generation; cbn [du_ratchet_head]; lia).
  pose proof (ro_low _ _ _ _ Hr) as Hlow.
  split; rewrite ?Hgen; cbn [du_ratchet_head du_past_secrets pruned_below]; [done|lia|lia| |].
  - intros g' Hin. destruct (decide (g' = g)) as [->|Hne]; [rewrite lookup_insert_eq; cbn; set_solver|].
    rewrite lookup_insert_ne, lookup_retain_skipped by lia. case_decide as Hd.
    + destruct (lookup_lt_is_Some_2 ks (Z.to_nat (g' - n))) as [k' Hk]; [lia|]. rewrite Hk. cbn.
      destruct (ro_fresh _ _ _ _ Hr g') as (_ & ? & ? & _); [lia|]. apply Hks in Hk. replace (_ + _)%nat with (Z.to_nat g') in Hk by lia.
      split_and!; [done|done|set_solver].
    + pose proof (ro_entry _ _ _ _ Hr g' ltac:(lia)) as He. destruct (du_past_secrets r !! g') as [[?|[?|]]|]; cbn in *; set_solver.
  - intros g' Hin. destruct (ro_fresh _ _ _ _ Hr g') as (? & ? & ? & ?); [lia|].
    rewrite lookup_insert_ne, lookup_retain_skipped, decide_False by lia. split_and!; [done|done| |done].
    apply not_elem_of_cons. split; [lia|done].
Qed.

(** Marking the entry of a past generation as consumed, which opens it. *)
Lemma past_ok r ss os cf g e k :
  ratchet_ok r ss os cf -> du_past_secrets r !! g = Some e -> peek_for_decryption e = Ok k ->
  ratchet_ok (mkDualUseRatchet (<[g := RetainedForDecryption RetainedConsumed]> (du_past_secrets r))
    (du_ratchet_head r) (pruned_below r)) ss (g :: os) cf /\ g ∉ os.
Proof.
  intros Hr He Hk. pose proof (ratchet_ok_range _ _ _ _ _ _ Hr He) as Hin. pose proof (ro_entry _ _ _ _ Hr g Hin) as Hg.
  rewrite He in Hg. assert (g ∉ os) by (destruct e as [?|[?|]]; cbn in *; [apply Hg..|done]). split; [|done].
  split; [apply Hr..| |]; cbn [du_ratchet_head du_past_secrets pruned_below].
  - intros g' Hin'. destruct (decide (g' = g)) as [->|Hne]; [rewrite lookup_insert_eq; cbn; set_solver|].
    rewrite lookup_insert_ne by done. pose proof (ro_entry _ _ _ _ Hr g' Hin') as Hg'.
    destruct (du_past_secrets r !! g') as [[?|[?|]]|]; cbn in *; set_solver.
  - intros g' Hin'. change (~ 0 <= g' < DualUse.generation r) in Hin'. destruct (ro_fresh _ _ _ _ Hr g' Hin') as (? & ? & ? & ?).
    rewrite lookup_insert_ne by lia. split_and!; [done|done| |done]. apply not_elem_of_cons. split; [lia|done].
Qed.

Lemma consume_ok r ss os cf g k p :
  ratchet_ok r ss os cf -> pending_ok (g, k, p) ->
  match DualUse.consume p cfg r with
  | (Ok _, r') => ratchet_ok r' ss (g :: os) cf /\ g ∉ os /\
                  Z.of_nat (base.size (window (du_past_secrets r'))) <= out_of_order_tolerance cfg
  | (_, r') => r' = r
  end.
Proof.
  intros Hr Hp. destruct p as [n h ks|g']; cbn [DualUse.consume].
  - destruct (Z.eqb_spec n (DualUse.generation r)) as [->|]; [|done]. cbn [negb].
    destruct (forward_ok _ _ _ _ _ _ _ _ Hr Hp) as [Hf Ho]. by destruct (prune_ok _ _ _ _ Hf).
  - destruct Hp as (_ & _ & ->). destruct (du_past_secrets r !! g) as [e|] eqn:He; [|done].
    unfold take_for_decryption. destruct (peek_for_decryption e) as [k'|x|] eqn:Hk.
    + destruct (past_ok _ _ _ _ _ _ _ Hr He Hk) as [Hf Ho]. by destruct (prune_ok _ _ _ _ Hf).
    + destruct e as [?|[?|]]; try done. cbn. rewrite insert_id by done. by destruct r.
    + by destruct e as [?|[?|]].
Qed.

Lemma dual_step_inv st e : wf_event e -> dual_inv st -> dual_inv (dual_step cs cfg st e).
Proof.
  destruct st as [r ps ss os cf]. intros Hwf [Hr Hw Hs Ho Hk Hp]. cbn [ratchet pending sent opened confirmed] in *.
  destruct e as [|g|i|g]; cbn [dual_step].
  - pose proof (encrypt_ok _ _ _ _ Hr) as He. destruct (secret_for_encryption cs r) as [[[g k]|x|] r']; [|by subst..].
    destruct He as (Hr' & Hg & Hn & Ew). split; cbn; [done|by rewrite Ew|by constructor|done| |done].
    intros g' k' [E|Hin]%elem_of_cons; [by simplify_eq|eauto].
  - destruct (DualUse.peek cs r g cfg) as [[[k|] [p|]]|x|] eqn:E; try done. split; try done. cbn.
    apply Forall_app; split; [done|]. constructor; [eapply peek_ok; eauto|done].
  - destruct (ps !! i) as [[[g k] p]|] eqn:Hi; [|done]. rewrite Forall_forall in Hp. apply list_elem_of_lookup_2 in Hi as Hin.
    pose proof (consume_ok _ _ _ _ _ _ _ Hr (Hp _ Hin)) as Hc.
    destruct (DualUse.consume p cfg r) as [[u|x|] r']; [|by subst; split; rewrite ?Forall_forall..].
    destruct Hc as (Hr' & Hn & Hw'). split; cbn; [done|done|done|by constructor| |by rewrite Forall_forall].
    intros g' k' [Hin'|[E|Hin']%elem_of_cons]%elem_of_app; [eapply Hk; set_solver| |eapply Hk; set_solver].
    simplify_eq. apply (Hp _ Hin).
  - destruct (confirm_ok _ _ _ _ g Hwf Hr) as [Hr' Ew]. split; cbn; try done. by rewrite Ew.
Qed.
End Invariant.

Lemma dual_run_inv {OC : OpenMlsCrypto} {TC : TlsCodec} cs cfg sec events :
  wf_config cfg -> Forall wf_event events ->
  dual_inv cs cfg (initial_ratchet_secret sec) (dual_run cs cfg sec events).
Proof.
  intros Hc. unfold dual_run. set (st := mkSession _ _ _ _ _).
  assert (dual_inv cs cfg (initial_ratchet_secret sec) st) as Hi.
  { split; try (by constructor); [|cbn; unfold window; rewrite map_filter_empty, map_size_empty; apply Hc|cbn; set_solver].
    split; cbn; [done|by vm_compute|lia|lia|]. intros; split_and!; [apply lookup_empty|set_solver..]. }
  revert Hi. generalize st. clear st. intros st Hi HF. revert st Hi.
  induction HF as [|e events He HF IH]; intros st Hi; [done|]. cbn. apply IH. by apply dual_step_inv.
Qed.

(** The forward bound never refuses a generation below the head. *)
Lemma peek_below {OC : OpenMlsCrypto} {TC : TlsCodec} cs cfg (r : DualUseRatchet) g :
  wf_config cfg -> 0 <= g < DualUse.generation r -> DualUse.generation r <= u32.MAX ->
  DualUse.peek cs r g cfg =
    match du_past_secrets r !! g with
    | None => decryption_secret ← missing_past_secret r g; Ok (decryption_secret, None)
    | Some entry => k ← peek_for_decryption entry; Ok (DualAvailable k, Some (DualPast g))
    end.
Proof.
  intros [_ [Hd Hd']] Hg HM. unfold DualUse.peek. destruct (Z.geb_spec g (DualUse.generation r)); [lia|].
  destruct (_ && _) eqn:E; [exfalso|done]. apply andb_true_iff in E as [E1 E2]. apply Z.ltb_lt in E1. apply Z.gtb_lt in E2.
  unfold u32.sub, u32.add in *. rewrite u32.wrap_small in E1 by (unfold u32.is_u32, u32.MAX in *; lia).
  rewrite u32.wrap_small in E2 by (unfold u32.is_u32, u32.MAX in *; lia). lia.
Qed.

(** ** The theorems *)

(** C25. One use of each generation. In any interleaving of sends, peeks, consumptions (of peeked
    generations in any order, stale and repeated ones included) and confirmations, no generation
    is sent twice and none is opened twice; the key material of both is that of the chain; and
    once a generation is opened, or sent and confirmed, the ratchet is past it and holds no key
    material for it. *)
Theorem dual_use_one_time {OC : OpenMlsCrypto} {TC : TlsCodec} cs cfg sec events :
  wf_config cfg -> Forall wf_event events ->
  let st := dual_run cs cfg sec events in
  NoDup (sent st).*1 /\ NoDup (opened st).*1 /\
  (forall g k, (g, k) ∈ sent st ++ opened st -> chain_key cs (initial_ratchet_secret sec) (Z.to_nat g) = Ok k) /\
  (forall g, g ∈ (opened st).*1 \/ (g ∈ (sent st).*1 /\ g ∈ confirmed st) ->
     g < DualUse.generation (ratchet st) /\
     (du_past_secrets (ratchet st) !! g = None \/
      du_past_secrets (ratchet st) !! g = Some (RetainedForDecryption RetainedConsumed))).
Proof.
  intros Hc HF st. destruct (dual_run_inv cs cfg sec events Hc HF) as [Hr _ Hs Ho Hk _]. fold st in Hr, Hs, Ho, Hk.
  split_and!; [done|done|done|]. intros g Hg.
  destruct (decide (0 <= g < DualUse.generation (ratchet st))) as [Hin|Hn].
  - split; [lia|]. pose proof (ro_entry _ _ _ _ _ _ Hr g Hin) as He.
    destruct (du_past_secrets (ratchet st) !! g) as [[?|[?|]]|]; cbn in He; [| |by right|by left]; tauto.
  - destruct (ro_fresh _ _ _ _ _ _ Hr g Hn) as (_ & ? & ? & ?). tauto.
Qed.

(** C26. The window. After any such session, the secret of a message that was sent and neither
    opened nor confirmed is still available, however old it is; a generation is reported as an
    own confirmed message only when it was sent and confirmed and never opened; a generation
    that was opened is refused; and at most the configured number of entries is retained for
    decryption. *)
Theorem dual_use_window {OC : OpenMlsCrypto} {TC : TlsCodec} cs cfg sec events :
  wf_config cfg -> Forall wf_event events ->
  let st := dual_run cs cfg sec events in
  let peeked g := DualUse.peek cs (ratchet st) g cfg in
  (forall g k, (g, k) ∈ sent st -> g ∉ (opened st).*1 -> g ∉ confirmed st -> peeked g = Ok (DualAvailable k, Some (DualPast g))) /\
  (forall g p, u32.is_u32 g -> peeked g = Ok (OwnMessageConfirmed, p) ->
     g ∈ (sent st).*1 /\ g ∈ confirmed st /\ g ∉ (opened st).*1) /\
  (forall g, g ∈ (opened st).*1 -> peeked g = Err SecretReuseError \/ peeked g = Err TooDistantInThePast) /\
  Z.of_nat (base.size (window (du_past_secrets (ratchet st)))) <= out_of_order_tolerance cfg.
Proof.
  intros Hc HF st peeked. destruct (dual_run_inv cs cfg sec events Hc HF) as [Hr Hw _ _ Hk _]. fold st in Hr, Hw, Hk.
  pose proof (ro_gen _ _ _ _ _ _ Hr) as HM.
  assert (forall g, g ∈ (sent st).*1 \/ g ∈ (opened st).*1 -> 0 <= g < DualUse.generation (ratchet st)) as Hrange.
  { intros g Hg. destruct (decide (0 <= g < DualUse.generation (ratchet st))) as [|Hn]; [done|].
    destruct (ro_fresh _ _ _ _ _ _ Hr g Hn) as (_ & ? & ? & _). tauto. }
  split_and!; [| | |done].
  - intros g k Hin Ho Hcf. assert (g ∈ (sent st).*1) as Hg by (by apply (list_elem_of_fmap_2' fst _ (g, k))).
    pose proof (Hrange g (or_introl Hg)) as Hb. unfold peeked. rewrite peek_below by (done || lia).
    pose proof (ro_entry _ _ _ _ _ _ Hr g Hb) as He. specialize (Hk g k ltac:(set_solver)).
    destruct (du_past_secrets (ratchet st) !! g) as [[k'|[?|]]|]; cbn in He; [|tauto..].
    destruct He as [He _]. rewrite Hk in He. by simplify_eq.
  - intros g p [Hg0 _] Hp. unfold peeked in Hp. destruct (decide (g < DualUse.generation (ratchet st))) as [Hlt|Hge].
    + rewrite peek_below in Hp by (done || lia). pose proof (ro_entry _ _ _ _ _ _ Hr g ltac:(lia)) as He.
      destruct (du_past_secrets (ratchet st) !! g) as [[?|[?|]]|]; cbn in Hp; try done.
      unfold missing_past_secret in Hp. destruct (Z.ltb_spec g (pruned_below (ratchet st))); [done|]. destruct He as [?|[? _]]; [tauto|lia].
    + unfold DualUse.peek in Hp. destruct (_ && _) in Hp; [done|]. destruct (Z.geb_spec g (DualUse.generation (ratchet st))); [|lia].
      apply bind_Ok in Hp as ([? ?] & _ & Hp). by apply bind_Ok in Hp as ([[? ?] ?] & _ & Hp).
  - intros g Hg. pose proof (Hrange g (or_intror Hg)) as Hb. unfold peeked. rewrite peek_below by (done || lia).
    pose proof (ro_entry _ _ _ _ _ _ Hr g Hb) as He.
    destruct (du_past_secrets (ratchet st) !! g) as [[?|[?|]]|]; cbn in He; [tauto|tauto|by left|].
    right. unfold missing_past_secret. destruct (Z.ltb_spec g (pruned_below (ratchet st))); [done|]. destruct He as [|[]]; [tauto|lia].
Qed.

Import Toy.

(** A tolerance of two; a send, an opening of generation 4 that skips three, confirmations. *)
Definition toy_window : SenderRatchetConfiguration := mkConfiguration 2 1000.
Definition toy_session : list dual_event :=
  [DEncrypt; DEncrypt; DPeek 4; DConsume 0; DPeek 3; DConsume 1; DConsume 1; DConfirm 1; DEncrypt].

Lemma toy_session_wf : wf_config toy_window /\ Forall wf_event toy_session.
Proof. split; [split|repeat apply Forall_cons_2; try apply Forall_nil_2]; cbn; unfold u32.is_u32; done || lia. Qed.

Lemma dual_use_one_time_witness :
  (opened (dual_run toy_cs toy_window toy_secret toy_session)).*1 = [3; 4] /\
  (sent (dual_run toy_cs toy_window toy_secret toy_session)).*1 = [5; 1; 0] /\
  NoDup (opened (dual_run toy_cs toy_window toy_secret toy_session)).*1.
Proof.
  split_and!; [by vm_compute..|].
  apply (dual_use_one_time toy_cs toy_window toy_secret toy_session (proj1 toy_session_wf) (proj2 toy_session_wf)).
Defined.

Lemma dual_use_window_witness :
  pruned_below (ratchet (dual_run toy_cs toy_window toy_secret toy_session)) = 3 /\
  Z.of_nat (base.size (window (du_past_secrets (ratchet (dual_run toy_cs toy_window toy_secret toy_session))))) <= 2.
Proof.
  split; [by vm_compute|].
  apply (dual_use_window toy_cs toy_window toy_secret toy_session (proj1 toy_session_wf) (proj2 toy_session_wf)).
Defined.
