(* ===== verification/PastSecrets.v ===== *)
(** * Message secrets of past epochs

    Models openmls/src/group/mls_group/past_secrets.rs, the deletion policies of
    openmls/src/group/mls_group/config.rs and the record of
    openmls/src/schedule/message_secrets.rs.  Times and durations are integers;
    the readings of the system clock are arguments.  A [usize] has 64 bits where
    its bounds matter.  [Member] is the type of group members. *)
From S2P Require Import Prelude TreeMath Crypto SecretTree.

Record MessageSecrets : Type := mkMessageSecrets {
  sender_data_secret : Secret;
  membership_key : Secret;
  confirmation_key : Secret;
  serialized_context : bytes;
  secret_tree : SecretTree;
  added_at : option Z;
}.

Module MSecrets.
Definition new (sender_data_secret membership_key confirmation_key : Secret)
    (serialized_context : bytes) (secret_tree : SecretTree) : MessageSecrets :=
  mkMessageSecrets sender_data_secret membership_key confirmation_key serialized_context secret_tree None.

Definition with_timestamp (self : MessageSecrets) (timestamp : option Z) : MessageSecrets :=
  mkMessageSecrets (sender_data_secret self) (membership_key self) (confirmation_key self)
    (serialized_context self) (secret_tree self) timestamp.

Definition timestamp (self : MessageSecrets) : option Z := added_at self.
Definition own_index (self : MessageSecrets) : LeafNodeIndex.t := own_index (secret_tree self).
End MSecrets.

(** ** Deletion policies *)
Definition USIZE_MAX : Z := 2 ^ 64 - 1.
Definition U64_MAX : Z := 2 ^ 64 - 1.

Inductive PastEpochDeletionPolicy : Type :=
  | MaxEpochs (epochs : Z)
  | KeepAll.

#[export] Instance PastEpochDeletionPolicy_default : Default PastEpochDeletionPolicy := MaxEpochs 0.

Definition policy_max_epochs (self : PastEpochDeletionPolicy) : option Z :=
  match self with MaxEpochs epochs => Some epochs | KeepAll => None end.

(** The persisted forms: an integer, or the tagged form of older releases. *)
Inductive PolicyFormat : Type :=
  | FormatInt (n : Z)
  | FormatTagged (policy : PastEpochDeletionPolicy).

Definition policy_serialize (self : PastEpochDeletionPolicy) : PolicyFormat :=
  FormatInt (match self with MaxEpochs epochs => epochs | KeepAll => USIZE_MAX end).

(** [None] is a deserialization error. *)
Definition policy_deserialize (format : PolicyFormat) : option PastEpochDeletionPolicy :=
  match format with
  | FormatInt n =>
      if n =? U64_MAX then Some KeepAll
      else if n <=? USIZE_MAX then Some (MaxEpochs n) else None
  | FormatTagged (MaxEpochs n) => Some (MaxEpochs n)
  | FormatTagged KeepAll => Some KeepAll
  end.

Inductive PastEpochDeletionTimeConfig : Type :=
  | OlderThanDuration (duration : Z)
  | BeforeTimestamp (timestamp : Z)
  | DeleteAllWithoutTimestamp.

Record PastEpochDeletion : Type := mkDeletion {
  deletion_config : option PastEpochDeletionTimeConfig;
  deletion_max_past_epochs : option Z;
}.

Module Deletion.
Definition older_than_duration (duration : Z) : PastEpochDeletion :=
  mkDeletion (Some (OlderThanDuration duration)) None.
Definition before_timestamp (timestamp : Z) : PastEpochDeletion :=
  mkDeletion (Some (BeforeTimestamp timestamp)) None.
Definition delete_all_without_timestamps : PastEpochDeletion :=
  mkDeletion (Some DeleteAllWithoutTimestamp) None.
Definition delete_all : PastEpochDeletion := mkDeletion None None.
Definition max_past_epochs (self : PastEpochDeletion) (max_past_epochs : Z) : PastEpochDeletion :=
  mkDeletion (deletion_config self) (Some max_past_epochs).
End Deletion.

(** ** The store *)
Section Store.
Context {Member : Type} (member_index : Member -> LeafNodeIndex.t).

Record EpochTree : Type := mkEpochTree {
  epoch : Z;
  epoch_message_secrets : MessageSecrets;
  leaves : list Member;
}.

(** The oldest epoch is at the front of the queue. *)
Record MessageSecretsStore : Type := mkStore {
  max_epochs : Z;
  past_epoch_trees : list EpochTree;
  message_secrets : MessageSecrets;
}.

Definition VECDEQUE_MAX_CAPACITY : Z := 2 ^ 63 - 1.

Definition max_epochs_of (policy : PastEpochDeletionPolicy) : Z :=
  Z.min (default VECDEQUE_MAX_CAPACITY (policy_max_epochs policy)) VECDEQUE_MAX_CAPACITY.

Definition epoch_le (a b : EpochTree) : Prop := epoch a <= epoch b.
#[export] Instance epoch_le_dec : RelDecision epoch_le.
Proof. intros a b. unfold epoch_le. apply _. Defined.

(** The queue as it is restored from storage. *)
Definition epoch_trees_oldest_first (trees : list EpochTree) : list EpochTree :=
  merge_sort epoch_le trees.

Definition new_with_secret (policy : PastEpochDeletionPolicy) (message_secrets : MessageSecrets)
    (now : Z) : MessageSecretsStore :=
  mkStore (max_epochs_of policy) [] (MSecrets.with_timestamp message_secrets (Some now)).

Definition set_trees (self : MessageSecretsStore) (trees : list EpochTree) : MessageSecretsStore :=
  mkStore (max_epochs self) trees (message_secrets self).

Definition resize (self : MessageSecretsStore) (policy : PastEpochDeletionPolicy) :
    MessageSecretsStore :=
  let max_past_epochs := max_epochs_of policy in
  let excess := (length (past_epoch_trees self) - Z.to_nat max_past_epochs)%nat in
  mkStore max_past_epochs (drop excess (past_epoch_trees self)) (message_secrets self).

Definition replace_current_message_secrets (self : MessageSecretsStore)
    (message_secrets' : MessageSecrets) (now : Z) : MessageSecrets * MessageSecretsStore :=
  (message_secrets self,
   mkStore (max_epochs self) (past_epoch_trees self)
     (MSecrets.with_timestamp message_secrets' (Some now))).

(** [rotate_left(1)] panics on an empty queue. *)
Definition rotate_left_1 {A} (l : list A) : option (list A) :=
  match l with [] => None | x :: l' => Some (l' ++ [x]) end.

Definition add_past_epoch_tree (self : MessageSecretsStore) (group_epoch : Z)
    (message_secrets' : MessageSecrets) (leaves' : list Member) : option MessageSecretsStore :=
  if max_epochs self =? 0 then Some self
  else
    trees ← (if Z.of_nat (length (past_epoch_trees self)) >=? max_epochs self then
               rotated ← rotate_left_1 (past_epoch_trees self);
               Some (take (Z.to_nat (max_epochs self - 1)) rotated)
             else Some (past_epoch_trees self));
    Some (set_trees self (trees ++ [mkEpochTree group_epoch message_secrets' leaves'])).

Definition find_epoch (self : MessageSecretsStore) (e : Z) : option EpochTree :=
  snd <$> list_find (fun t => epoch t = e) (past_epoch_trees self).

Definition secrets_for_epoch (self : MessageSecretsStore) (group_epoch : Z) : option MessageSecrets :=
  epoch_message_secrets <$> find_epoch self group_epoch.

Definition secrets_and_leaves_for_epoch (self : MessageSecretsStore) (group_epoch : Z) :
    option (MessageSecrets * list Member) :=
  (fun t => (epoch_message_secrets t, leaves t)) <$> find_epoch self group_epoch.

(** Collecting into a [HashMap]: the last entry of an index wins. *)
Definition leaves_for_epoch (self : MessageSecretsStore) (group_epoch : Z) : gmap Z Member :=
  match find_epoch self group_epoch with
  | Some t => foldl (fun m x => <[member_index x := x]> m) ∅ (leaves t)
  | None => ∅
  end.

Definition epoch_has_leaf (self : MessageSecretsStore) (group_epoch : Z) (leaf_index : LeafNodeIndex.t) :
    bool :=
  existsb (fun t => (epoch t =? group_epoch) && existsb (fun m => member_index m =? leaf_index) (leaves t))
    (past_epoch_trees self).

(** [drain(0..found_idx + 1)], if there is such an index. *)
Definition drain_through {A} (found : option nat) (l : list A) : list A :=
  match found with Some found_idx => drop (found_idx + 1) l | None => l end.

(** [duration_since] fails when the clock is behind the timestamp. *)
Definition is_older (duration now : Z) (secrets : MessageSecrets) : bool :=
  match MSecrets.timestamp secrets with
  | Some added_at => (added_at <=? now) && (now - added_at >? duration)
  | None => false
  end.

(** [now] is read once for the current epoch and once for each past tree. *)
Definition delete_past_epoch_secrets_older_than_duration (self : MessageSecretsStore)
    (duration now : Z) (now_at : nat -> Z) : MessageSecretsStore :=
  if is_older duration now (message_secrets self) then set_trees self []
  else set_trees self
    (drain_through
       (rfind_index (fun i t => is_older duration (now_at i) (epoch_message_secrets t)) (past_epoch_trees self))
       (past_epoch_trees self)).

Definition is_before (cutoff : Z) (secrets : MessageSecrets) : bool :=
  match MSecrets.timestamp secrets with Some added_at => added_at <? cutoff | None => false end.

Definition delete_past_epoch_secrets_before_timestamp (self : MessageSecretsStore) (cutoff : Z) :
    MessageSecretsStore :=
  if is_before cutoff (message_secrets self) then set_trees self []
  else set_trees self
    (drain_through
       (rfind_index (fun _ t => is_before cutoff (epoch_message_secrets t)) (past_epoch_trees self))
       (past_epoch_trees self)).

Definition delete_past_epoch_secrets (self : MessageSecretsStore) (policy : PastEpochDeletion)
    (now : Z) (now_at : nat -> Z) : MessageSecretsStore :=
  match deletion_config policy with
  | None => set_trees self []
  | Some config =>
      let self' :=
        match config with
        | DeleteAllWithoutTimestamp =>
            set_trees self (filter (fun t => is_Some (MSecrets.timestamp (epoch_message_secrets t)))
                              (past_epoch_trees self))
        | BeforeTimestamp timestamp => delete_past_epoch_secrets_before_timestamp self timestamp
        | OlderThanDuration duration =>
            delete_past_epoch_secrets_older_than_duration self duration now now_at
        end in
      match deletion_max_past_epochs policy with
      | None => self'
      | Some max_past_epochs =>
          if max_past_epochs <=? Z.of_nat (length (past_epoch_trees self')) then
            set_trees self' (drop (length (past_epoch_trees self') - Z.to_nat max_past_epochs)%nat
                               (past_epoch_trees self'))
          else self'
      end
  end.
End Store.
Arguments EpochTree Member : clear implicits.
Arguments MessageSecretsStore Member : clear implicits.
