(* ===== verification/PastSecretsFacts.v ===== *)
(** * Message secrets of past epochs: correctness

    The store never holds more epochs than its policy allows, keeps the newest
    ones, never brings a deleted epoch back, and deletes by time exactly what
    the deletion asks for. *)
From S2P Require Import Prelude TreeMath Crypto CryptoFacts SecretTree PastSecrets.

(** The last [n] elements. *)
Definition lastn {A} (n : nat) (l : list A) : list A := drop (length l - n) l.

Lemma length_lastn {A} n (l : list A) : (length (lastn n l) <= n)%nat.
Proof. unfold lastn. rewrite length_drop. lia. Qed.

Lemma lastn_all {A} n (l : list A) : (length l <= n)%nat -> lastn n l = l.
Proof. intros H. unfold lastn. by rewrite (proj2 (Nat.sub_0_le _ _) H). Qed.

Lemma lastn_snoc {A} n (l : list A) x : lastn (S n) (lastn (S n) l ++ [x]) = lastn (S n) (l ++ [x]).
Proof.
  unfold lastn. rewrite !length_app, length_drop. cbn [length].
  rewrite !drop_app, length_drop, drop_drop. f_equal; [f_equal; lia|]. f_equal; lia.
Qed.

Lemma lastn_app {A} n (l l' : list A) : (0 < n)%nat -> lastn n (lastn n l ++ l') = lastn n (l ++ l').
Proof.
  intros Hn. destruct n as [|n]; [lia|].
  induction l' as [|x l' IH] using rev_ind.
  - by rewrite !app_nil_r, (lastn_all (S n) (lastn _ _)) by apply length_lastn.
  - by rewrite !app_assoc, <- lastn_snoc, IH, lastn_snoc.
Qed.

Lemma lastn_full {A} n (y x : A) l : length l = n -> lastn (S n) ((y :: l) ++ [x]) = l ++ [x].
Proof. intros H. unfold lastn. rewrite length_app. cbn. replace (length l + 1 - n)%nat with 1%nat by lia. done. Qed.

Section Rfind.
Context {A : Type} (old : nat -> A -> bool).

(** What is left is the longest suffix without an old element. *)
Lemma drain_through_spec l :
  exists n, drain_through (rfind_index old l) l = drop n l /\
    (forall j x, (n <= j)%nat -> l !! j = Some x -> old j x = false) /\
    (n = 0%nat \/ exists x, l !! (n - 1)%nat = Some x /\ old (n - 1)%nat x = true).
Proof.
  destruct (rfind_index old l) as [i|] eqn:Hf; cbn.
  - apply rfind_index_Some in Hf as [(x & Hx & Ho) Hmax]. exists (i + 1)%nat. split_and!; [done| |].
    + intros j y Hj. apply Hmax. lia.
    + right. exists x. by replace (i + 1 - 1)%nat with i by lia.
  - exists 0%nat. split_and!; [done| |by left]. intros j x _. by apply rfind_index_None.
Qed.
End Rfind.

Section Store.
Context {Member : Type}.
Implicit Types (st : MessageSecretsStore Member) (t : EpochTree Member).

(** ** Invariant *)
Definition bounded st : Prop :=
  0 <= max_epochs st <= VECDEQUE_MAX_CAPACITY /\ Z.of_nat (length (past_epoch_trees st)) <= max_epochs st.

(** A policy is well formed when its number of epochs is a [usize]. *)
Definition wf_policy (policy : PastEpochDeletionPolicy) : Prop :=
  match policy with MaxEpochs n => 0 <= n <= USIZE_MAX | KeepAll => True end.

Lemma max_epochs_of_range policy :
  wf_policy policy -> 0 <= max_epochs_of policy <= VECDEQUE_MAX_CAPACITY.
Proof.
  unfold max_epochs_of. change VECDEQUE_MAX_CAPACITY with 9223372036854775807.
  destruct policy as [n|]; cbn; lia.
Qed.

(** Adding keeps the newest epochs and never panics. *)
Lemma add_lastn st e s ls :
  bounded st -> add_past_epoch_tree st e s ls =
  Some (set_trees st (lastn (Z.to_nat (max_epochs st)) (past_epoch_trees st ++ [mkEpochTree e s ls]))).
Proof.
  intros [Hm Hl]. unfold add_past_epoch_tree. destruct (Z.eqb_spec (max_epochs st) 0) as [H0|H0].
  - rewrite H0 in *. destruct st as [m trees ms]; cbn in *. destruct trees; [|cbn in Hl; lia]. done.
  - destruct (Z.geb_spec (Z.of_nat (length (past_epoch_trees st))) (max_epochs st)) as [Hge|Hlt].
    + destruct (past_epoch_trees st) as [|t0 trees] eqn:Ht; [cbn in *; lia|]. cbn [length] in *.
      cbn [rotate_left_1 mbind option_bind]. f_equal. f_equal.
      replace (Z.to_nat (max_epochs st)) with (S (length trees)) by lia.
      rewrite lastn_full by done. f_equal.
      replace (Z.to_nat (max_epochs st - 1)) with (length trees) by lia. by rewrite take_app_length.
    + cbn. rewrite lastn_all; [done|]. rewrite length_app. cbn. lia.
Qed.

(** ** Traces *)
Inductive store_op : Type :=
  | SAdd (t : EpochTree Member)
  | SResize (policy : PastEpochDeletionPolicy)
  | SReplace (s : MessageSecrets) (now : Z)
  | SDelete (policy : PastEpochDeletion) (now : Z) (now_at : nat -> Z).

Definition store_step st (o : store_op) : option (MessageSecretsStore Member) :=
  match o with
  | SAdd t => add_past_epoch_tree st (epoch t) (epoch_message_secrets t) (leaves t)
  | SResize policy => Some (resize st policy)
  | SReplace s now => Some (replace_current_message_secrets st s now).2
  | SDelete policy now now_at => Some (delete_past_epoch_secrets st policy now now_at)
  end.

Fixpoint store_run st (os : list store_op) : option (MessageSecretsStore Member) :=
  match os with [] => Some st | o :: os' => st' ← store_step st o; store_run st' os' end.

(** The trees added, in order. *)
Definition added (os : list store_op) : list (EpochTree Member) :=
  omap (fun o => match o with SAdd t => Some t | _ => None end) os.

Definition wf_store_op (o : store_op) : Prop :=
  match o with
  | SResize policy => wf_policy policy
  | SDelete policy _ _ => match deletion_max_past_epochs policy with Some n => 0 <= n | None => True end
  | _ => True
  end.

Lemma delete_sublist st policy now now_at :
  past_epoch_trees (delete_past_epoch_secrets st policy now now_at) `sublist_of` past_epoch_trees st /\
  max_epochs (delete_past_epoch_secrets st policy now now_at) = max_epochs st.
Proof.
  unfold delete_past_epoch_secrets. destruct (deletion_config policy) as [config|]; cbn;
    [|split; [apply sublist_nil_l|done]].
  set (st' := match config with OlderThanDuration _ => _ | _ => _ end).
  assert (past_epoch_trees st' `sublist_of` past_epoch_trees st /\ max_epochs st' = max_epochs st) as [H1 H2].
  { destruct config; cbn in st'; subst st'.
    - unfold delete_past_epoch_secrets_older_than_duration. case_match; cbn; (split; [|done]);
        [apply sublist_nil_l|].
      edestruct (drain_through_spec (A := EpochTree Member)) as (n & -> & _). apply sublist_drop.
    - unfold delete_past_epoch_secrets_before_timestamp. case_match; cbn; (split; [|done]);
        [apply sublist_nil_l|].
      edestruct (drain_through_spec (A := EpochTree Member)) as (n & -> & _). apply sublist_drop.
    - cbn. split; [|done]. apply sublist_filter. }
  destruct (deletion_max_past_epochs policy); [|done]. case_match; [|done]. cbn. split; [|done].
  etrans; [apply sublist_drop|done].
Qed.

(** One operation keeps the bound, and keeps or adds trees in order. *)
Lemma store_step_spec st o :
  bounded st -> wf_store_op o ->
  exists st', store_step st o = Some st' /\ bounded st' /\
    past_epoch_trees st' `sublist_of` past_epoch_trees st ++ added [o].
Proof.
  intros Hb Hw. destruct o as [t|policy|s now|policy now now_at]; cbn [store_step].
  - rewrite add_lastn by done. eexists; split; [done|]. split.
    + split; [apply Hb|]. cbn [set_trees past_epoch_trees max_epochs].
      pose proof (length_lastn (Z.to_nat (max_epochs st))
        (past_epoch_trees st ++ [mkEpochTree (epoch t) (epoch_message_secrets t) (leaves t)])).
      destruct Hb as [Hb _]. lia.
    + cbn. destruct t. apply sublist_drop.
  - eexists; split; [done|]. cbn. rewrite app_nil_r. split; [|apply sublist_drop]. unfold bounded, resize. cbn.
    pose proof (max_epochs_of_range policy Hw). split; [done|]. rewrite length_drop. lia.
  - eexists; split; [done|]. cbn. by rewrite app_nil_r.
  - destruct (delete_sublist st policy now now_at) as [H1 H2]. eexists; split; [done|].
    cbn. rewrite app_nil_r. split; [|done]. destruct Hb as [Hb Hl]. split; [by rewrite H2|].
    rewrite H2. apply sublist_length in H1. lia.
Qed.

Lemma store_run_spec st os :
  bounded st -> Forall wf_store_op os ->
  exists st', store_run st os = Some st' /\ bounded st' /\
    past_epoch_trees st' `sublist_of` past_epoch_trees st ++ added os.
Proof.
  intros Hb Hw. revert st Hb. induction Hw as [|o os Ho _ IH]; intros st Hb; cbn [store_run].
  - exists st. cbn. by rewrite app_nil_r.
  - destruct (store_step_spec st o Hb Ho) as (st1 & -> & Hb1 & Hs1). cbn [mbind option_bind].
    destruct (IH st1 Hb1) as (st2 & -> & Hb2 & Hs2). exists st2. split; [done|]. split; [done|].
    etrans; [exact Hs2|]. replace (added (o :: os)) with (added [o] ++ added os) by (by destruct o).
    rewrite app_assoc. by apply sublist_app.
Qed.

Lemma new_with_secret_bounded policy s now :
  wf_policy policy -> bounded (new_with_secret policy s now : MessageSecretsStore Member).
Proof. intros H. pose proof (max_epochs_of_range policy H). split; cbn; lia. Qed.

(** ** Lookup *)
Lemma find_epoch_Some st e t :
  NoDup (epoch <$> past_epoch_trees st) ->
  find_epoch st e = Some t <-> t ∈ past_epoch_trees st /\ epoch t = e.
Proof.
  intros Hnd. unfold find_epoch. rewrite fmap_Some. split.
  - intros ([i t'] & (Hl & He & _)%list_find_Some & ->). split; [by eapply list_elem_of_lookup_2|done].
  - intros [Hin <-]. destruct (list_find (fun t' => epoch t' = epoch t) (past_epoch_trees st)) as [[i t']|] eqn:Hf.
    + apply list_find_Some in Hf as (Hl & He & _). eexists; split; [done|]. cbn.
      apply list_elem_of_lookup in Hin as [j Hj]. assert (i = j) as <-; [|congruence].
      eapply (NoDup_lookup (epoch <$> past_epoch_trees st)); [done| |]; rewrite list_lookup_fmap.
      * by rewrite Hl.
      * rewrite Hj. cbn. by rewrite He.
    + apply list_find_None in Hf. rewrite Forall_forall in Hf. by destruct (Hf t Hin).
Qed.

Lemma run_added st (ts : list (EpochTree Member)) :
  bounded st -> max_epochs st <> 0 ->
  exists st', store_run st (SAdd <$> ts) = Some st' /\ max_epochs st' = max_epochs st /\
    past_epoch_trees st' = lastn (Z.to_nat (max_epochs st)) (past_epoch_trees st ++ ts).
Proof.
  revert st. induction ts as [|t ts IH]; intros st Hb Hm; cbn [store_run fmap list_fmap store_step].
  - exists st. rewrite app_nil_r, lastn_all; [done|]. destruct Hb. lia.
  - rewrite add_lastn by done. cbn [mbind option_bind].
    destruct t as [e s ls]. cbn [epoch epoch_message_secrets leaves].
    edestruct (store_step_spec st (SAdd (mkEpochTree e s ls))) as (st1 & H1 & Hb1 & _); [done|done|].
    cbn in H1. rewrite add_lastn in H1 by done. injection H1 as H1. rewrite H1.
    assert (max_epochs st1 = max_epochs st) as Hm1 by (by rewrite <- H1).
    destruct (IH st1 Hb1) as (st' & -> & Hm' & Ht'); [congruence|]. exists st'. split; [done|].
    split; [congruence|]. rewrite Ht', Hm1, <- H1. cbn [past_epoch_trees set_trees].
    rewrite lastn_app by (destruct Hb; lia). by rewrite <- app_assoc.
Qed.
End Store.

(** ** Properties *)

(** Over any sequence of additions, resizes, replacements and deletions no
    operation panics, the store never holds more than the number of epochs its
    policy allows, and what it holds are trees that were added, in the order of
    addition: a deleted epoch does not come back. *)
Theorem past_store_invariant {Member} policy s now (os : list (store_op (Member := Member))) :
  wf_policy policy -> Forall wf_store_op os ->
  exists st, store_run (new_with_secret policy s now) os = Some st /\
    Z.of_nat (length (past_epoch_trees st)) <= max_epochs st <= VECDEQUE_MAX_CAPACITY /\
    past_epoch_trees st `sublist_of` added os.
Proof.
  intros Hp Hw. destruct (store_run_spec (new_with_secret policy s now) os) as (st & H1 & [H2 H3] & H4);
    [by apply new_with_secret_bounded|done|].
  exists st. split; [done|]. split; [lia|done].
Qed.

Definition toy_message_secrets (at_ : option Z) : MessageSecrets :=
  mkMessageSecrets [] [] [] [] (mkSecretTree 0 [] [] [] [] 1) at_.
Definition toy_tree (e : Z) : EpochTree Z := mkEpochTree e (toy_message_secrets (Some (10 * e))) [].

Lemma past_store_invariant_witness :
  exists st, store_run (new_with_secret (MaxEpochs 3) (toy_message_secrets None) 0)
    [SAdd (toy_tree 1); SAdd (toy_tree 2); SAdd (toy_tree 3); SAdd (toy_tree 4);
     SDelete (Deletion.before_timestamp 25) 50 (fun _ => 50); SResize (MaxEpochs 1); SAdd (toy_tree 5)] = Some st /\
    Z.of_nat (length (past_epoch_trees st)) <= max_epochs st.
Proof.
  destruct (past_store_invariant (MaxEpochs 3) (toy_message_secrets None) 0
    [SAdd (toy_tree 1); SAdd (toy_tree 2); SAdd (toy_tree 3); SAdd (toy_tree 4);
     SDelete (Deletion.before_timestamp 25) 50 (fun _ => 50); SResize (MaxEpochs 1); SAdd (toy_tree 5)])
    as (st & H1 & H2 & _); [by vm_compute|repeat constructor; by vm_compute|].
  exists st. split; [exact H1|apply H2].
Defined.

(** A store that is only added to holds exactly the newest epochs, as many
    as its policy allows, and [secrets_for_epoch] answers precisely for those,
    with the secrets that were added for the epoch. *)
Theorem past_store_newest {Member} policy s now (ts : list (EpochTree Member)) :
  wf_policy policy -> max_epochs_of policy <> 0 -> NoDup (epoch <$> ts) ->
  exists st, store_run (new_with_secret policy s now) (SAdd <$> ts) = Some st /\
    past_epoch_trees st = lastn (Z.to_nat (max_epochs_of policy)) ts /\
    forall e ms, secrets_for_epoch st e = Some ms <->
      exists t, t ∈ lastn (Z.to_nat (max_epochs_of policy)) ts /\ epoch t = e /\ epoch_message_secrets t = ms.
Proof.
  intros Hp H0 Hnd.
  destruct (run_added (new_with_secret policy s now) ts) as (st & Hr & _ & Ht);
    [by apply new_with_secret_bounded|done|].
  cbn in Ht. exists st. split; [done|]. split; [done|]. intros e ms. unfold secrets_for_epoch.
  rewrite fmap_Some.
  assert (NoDup (epoch <$> past_epoch_trees st)) as Hnd'.
  { rewrite Ht. unfold lastn. rewrite fmap_drop. eapply sublist_NoDup; [exact Hnd|apply sublist_drop]. }
  setoid_rewrite (find_epoch_Some st e _ Hnd'). rewrite Ht. naive_solver.
Qed.

Lemma past_store_newest_witness :
  exists st, store_run (new_with_secret (MaxEpochs 2) (toy_message_secrets None) 0)
      (SAdd <$> [toy_tree 1; toy_tree 2; toy_tree 3]) = Some st /\
    past_epoch_trees st = [toy_tree 2; toy_tree 3].
Proof.
  destruct (past_store_newest (MaxEpochs 2) (toy_message_secrets None) 0 [toy_tree 1; toy_tree 2; toy_tree 3])
    as (st & H1 & H2 & _); [by vm_compute|by vm_compute| |by exists st].
  apply (bool_decide_unpack (NoDup [1; 2; 3])). by vm_compute.
Defined.

(** Deletion before a timestamp empties the store if the current epoch is
    that old, and otherwise leaves exactly the longest run of newest epochs none
    of which is known to be that old; epochs without a timestamp go only
    together with a newer one. *)
Theorem delete_before_timestamp_correct {Member} (st : MessageSecretsStore Member) cutoff now now_at :
  let st' := delete_past_epoch_secrets st (Deletion.before_timestamp cutoff) now now_at in
  let expired t := exists a, added_at (epoch_message_secrets t) = Some a /\ a < cutoff in
  message_secrets st' = message_secrets st /\ max_epochs st' = max_epochs st /\
  ((exists a, added_at (message_secrets st) = Some a /\ a < cutoff) /\ past_epoch_trees st' = [] \/
   ~ (exists a, added_at (message_secrets st) = Some a /\ a < cutoff) /\
   exists n, past_epoch_trees st' = drop n (past_epoch_trees st) /\
     Forall (fun t => ~ expired t) (past_epoch_trees st') /\
     (n = 0%nat \/ exists t, past_epoch_trees st !! (n - 1)%nat = Some t /\ expired t)).
Proof.
  intros st' expired.
  assert (forall m, is_before cutoff m = true <-> exists a, added_at m = Some a /\ a < cutoff) as Hb.
  { intros m. unfold is_before, MSecrets.timestamp. destruct (added_at m); [|naive_solver].
    rewrite Z.ltb_lt. naive_solver. }
  unfold delete_past_epoch_secrets in st'. cbn in st'.
  unfold delete_past_epoch_secrets_before_timestamp in st'.
  destruct (is_before cutoff (message_secrets st)) eqn:Hc; cbn in st'; subst st'; cbn; split_and!; try done.
  - left. split; [by apply Hb|done].
  - right. split; [intros H%Hb; congruence|].
    destruct (drain_through_spec (fun _ t => is_before cutoff (epoch_message_secrets t)) (past_epoch_trees st))
      as (n & -> & H1 & H2).
    exists n. split; [done|]. split.
    + apply Forall_lookup. intros i t Hi. rewrite lookup_drop in Hi. intros H%Hb.
      rewrite (H1 (n + i)%nat t) in H; [done|lia|done].
    + destruct H2 as [->|(t & Ht & Ho)]; [by left|right]. exists t. split; [done|]. by apply Hb.
Qed.
