(* ===== verification/Extensions.v ===== *)
(** * Extension, proposal and credential types, and extension lists

    Models the code points of openmls/src/extensions/mod.rs, messages/proposals.rs,
    credentials/mod.rs and versions.rs with their GREASE handling, and the lists of
    extensions that leaf nodes, key packages, group contexts and group infos carry. *)
From stdpp Require Import countable.
From S2P Require Import Prelude Crypto.

(** Encoding of a 16-bit code point that is refused when it would decode as a
    different value. *)
Definition tls_serialize_code {A} `{EqDecision A} (to_u16 : A -> Z) (from : Z -> A) (self : A) : option bytes :=
  let value := to_u16 self in
  if negb (bool_decide (from value = self)) then None else Some (be_bytes 2 value).

Definition u16_of_be_bytes (b : bytes) : option Z :=
  match b with [hi; lo] => Some (hi * 256 + lo) | _ => None end.

Definition tls_deserialize_code {A} (from : Z -> A) (b : bytes) : option A := from <$> u16_of_be_bytes b.

Module ProtocolVersion.
Inductive t : Type := Mls10 | Other (v : Z).
#[global] Instance protocolversion_eq_dec : EqDecision t.
Proof. solve_decision. Defined.

Definition from (v : Z) : t := if v =? 1 then Mls10 else Other v.
Definition default : t := Mls10.

Definition tls_serialize (self : t) : option bytes :=
  match self with
  | Mls10 => Some (be_bytes 2 1)
  | Other v => if v =? 1 then None else Some (be_bytes 2 v)
  end.
End ProtocolVersion.

Module ExtensionType.
Inductive t : Type :=
  | ApplicationId | RatchetTree | RequiredCapabilities | ExternalPub | ExternalSenders | LastResort
  | Grease (v : Z) | Unknown (v : Z).
#[global] Instance extensiontype_eq_dec : EqDecision t.
Proof. solve_decision. Defined.

Definition is_default (self : t) : bool :=
  match self with
  | ApplicationId | RatchetTree | RequiredCapabilities | ExternalPub | ExternalSenders => true
  | LastResort | Grease _ | Unknown _ => false
  end.

Definition is_valid_in_leaf_node (self : t) : bool :=
  match self with
  | LastResort | RatchetTree | RequiredCapabilities | ExternalPub | ExternalSenders => false
  | Grease _ | Unknown _ | ApplicationId => true
  end.

Definition is_valid_in_group_info (self : t) : option bool :=
  match self with
  | LastResort | RequiredCapabilities | ExternalSenders | ApplicationId => Some false
  | RatchetTree | ExternalPub => Some true
  | Grease _ | Unknown _ => None
  end.

Definition is_valid_in_key_package (self : t) : bool :=
  match self with
  | RatchetTree | RequiredCapabilities | ExternalPub | ExternalSenders | ApplicationId => false
  | Grease _ | Unknown _ | LastResort => true
  end.

Definition is_valid_in_group_context (self : t) : bool :=
  match self with
  | RequiredCapabilities | ExternalSenders | Unknown _ => true
  | Grease _ => true
  | _ => false
  end.

Definition is_grease (self : t) : bool := match self with Grease v => is_grease_value v | _ => false end.

Definition from (a : Z) : t :=
  if a =? 1 then ApplicationId else if a =? 2 then RatchetTree else if a =? 3 then RequiredCapabilities
  else if a =? 4 then ExternalPub else if a =? 5 then ExternalSenders else if a =? 10 then LastResort
  else if is_grease_value a then Grease a else Unknown a.

Definition to_u16 (value : t) : Z :=
  match value with
  | ApplicationId => 1 | RatchetTree => 2 | RequiredCapabilities => 3 | ExternalPub => 4
  | ExternalSenders => 5 | LastResort => 10 | Grease value => value | Unknown unknown => unknown
  end.

Definition tls_serialize (self : t) : option bytes := tls_serialize_code to_u16 from self.
Definition tls_deserialize (b : bytes) : option t := tls_deserialize_code from b.
End ExtensionType.

Module ProposalType.
Inductive t : Type :=
  | Add | Update | Remove | PreSharedKey | Reinit | ExternalInit | GroupContextExtensions | SelfRemove
  | Grease (v : Z) | Custom (v : Z).
#[global] Instance proposaltype_eq_dec : EqDecision t.
Proof. solve_decision. Defined.

Definition is_default (self : t) : bool :=
  match self with
  | Add | Update | Remove | PreSharedKey | Reinit | ExternalInit | GroupContextExtensions => true
  | SelfRemove | Grease _ | Custom _ => false
  end.

Definition is_grease (self : t) : bool := match self with Grease v => is_grease_value v | _ => false end.

Definition is_path_required (self : t) : bool :=
  match self with
  | Update | Remove | ExternalInit | GroupContextExtensions | SelfRemove => true
  | _ => false
  end.

Definition from (value : Z) : t :=
  if value =? 1 then Add else if value =? 2 then Update else if value =? 3 then Remove
  else if value =? 4 then PreSharedKey else if value =? 5 then Reinit else if value =? 6 then ExternalInit
  else if value =? 7 then GroupContextExtensions else if value =? 10 then SelfRemove
  else if is_grease_value value then Grease value else Custom value.

Definition to_u16 (value : t) : Z :=
  match value with
  | Add => 1 | Update => 2 | Remove => 3 | PreSharedKey => 4 | Reinit => 5 | ExternalInit => 6
  | GroupContextExtensions => 7 | SelfRemove => 10 | Grease id => id | Custom id => id
  end.

Definition tls_serialize (self : t) : option bytes := tls_serialize_code to_u16 from self.
Definition tls_deserialize (b : bytes) : option t := tls_deserialize_code from b.
End ProposalType.

Module CredentialType.
Inductive t : Type := Basic | X509 | Grease (v : Z) | Other (v : Z).
#[global] Instance credentialtype_eq_dec : EqDecision t.
Proof. solve_decision. Defined.

Definition is_grease (self : t) : bool := match self with Grease v => is_grease_value v | _ => false end.

Definition from (value : Z) : t :=
  if value =? 1 then Basic else if value =? 2 then X509
  else if is_grease_value value then Grease value else Other value.

Definition to_u16 (value : t) : Z :=
  match value with Basic => 1 | X509 => 2 | Grease value => value | Other other => other end.

Definition tls_serialize (self : t) : option bytes := tls_serialize_code to_u16 from self.
Definition tls_deserialize (b : bytes) : option t := tls_deserialize_code from b.
End CredentialType.

(** The sets of types are hash sets. *)
#[export] Instance extension_type_countable : Countable ExtensionType.t.
Proof.
  refine (inj_countable' (fun t => match t with
    | ExtensionType.Grease v => inl (inl v) | ExtensionType.Unknown v => inl (inr v)
    | t => inr (ExtensionType.to_u16 t) end)
    (fun x => match x with
    | inl (inl v) => ExtensionType.Grease v | inl (inr v) => ExtensionType.Unknown v
    | inr v => ExtensionType.from v end) _).
  by intros [].
Defined.

#[export] Instance proposal_type_countable : Countable ProposalType.t.
Proof.
  refine (inj_countable' (fun t => match t with
    | ProposalType.Grease v => inl (inl v) | ProposalType.Custom v => inl (inr v)
    | t => inr (ProposalType.to_u16 t) end)
    (fun x => match x with
    | inl (inl v) => ProposalType.Grease v | inl (inr v) => ProposalType.Custom v
    | inr v => ProposalType.from v end) _).
  by intros [].
Defined.

#[export] Instance credential_type_countable : Countable CredentialType.t.
Proof.
  refine (inj_countable' (fun t => match t with
    | CredentialType.Grease v => inl (inl v) | CredentialType.Other v => inl (inr v)
    | t => inr (CredentialType.to_u16 t) end)
    (fun x => match x with
    | inl (inl v) => CredentialType.Grease v | inl (inr v) => CredentialType.Other v
    | inr v => CredentialType.from v end) _).
  by intros [].
Defined.

(** ** Extensions *)
Record RequiredCapabilitiesExtension : Type := mkRequiredCapabilities {
  required_extension_types : list ExtensionType.t;
  required_proposal_types : list ProposalType.t;
  required_credential_types : list CredentialType.t;
}.
#[global] Instance required_capabilities_eq_dec : EqDecision RequiredCapabilitiesExtension.
Proof. solve_decision. Defined.

Definition requires_extension_type_support (self : RequiredCapabilitiesExtension) (ext_type : ExtensionType.t) : bool :=
  bool_decide (ext_type ∈ required_extension_types self).

Record Credential : Type := mkCredential {
  credential_type : CredentialType.t;
  serialized_credential_content : bytes;
}.
#[global] Instance credential_eq_dec : EqDecision Credential.
Proof. solve_decision. Defined.

Record ExternalSender : Type := mkExternalSender {
  external_signature_key : bytes;
  external_credential : Credential;
}.
#[global] Instance external_sender_eq_dec : EqDecision ExternalSender.
Proof. solve_decision. Defined.

(** [Extension]; the payload of a ratchet tree extension is its encoding. *)
Module Extension.
Inductive t : Type :=
  | ApplicationId (key_id : bytes)
  | RatchetTree (ratchet_tree : bytes)
  | RequiredCapabilities (e : RequiredCapabilitiesExtension)
  | ExternalPub (external_pub : bytes)
  | ExternalSenders (e : list ExternalSender)
  | LastResort
  | Unknown (kind : Z) (data : bytes).
#[global] Instance extension_eq_dec : EqDecision t.
Proof. solve_decision. Defined.

Definition extension_type (self : t) : ExtensionType.t :=
  match self with
  | ApplicationId _ => ExtensionType.ApplicationId
  | RatchetTree _ => ExtensionType.RatchetTree
  | RequiredCapabilities _ => ExtensionType.RequiredCapabilities
  | ExternalPub _ => ExtensionType.ExternalPub
  | ExternalSenders _ => ExtensionType.ExternalSenders
  | LastResort => ExtensionType.LastResort
  | Unknown kind _ => if is_grease_value kind then ExtensionType.Grease kind else ExtensionType.Unknown kind
  end.
End Extension.

(** ** Extension lists *)
Inductive InvalidExtensionError : Type :=
  | DuplicateExtension | ExtensionNotFound
  | ExtensionTypeNotValidInLeafNode (ext : ExtensionType.t)
  | ExtensionTypeNotValidInGroupContext (ext : ExtensionType.t)
  | ExtensionTypeNotValidInKeyPackage (ext : ExtensionType.t)
  | ExtensionTypeNotValidInGroupInfo (ext : ExtensionType.t)
  | CannotAddDirectlyToGroupInfo.

(** The objects that carry extensions: the type parameter of [Extensions<T>]. *)
Inductive ExtensionObject : Type := InLeafNode | InGroupContext | InKeyPackage | InGroupInfo | AnyObject.

Definition validate_extension_type (object : ExtensionObject) (extension_type : ExtensionType.t) :
    result InvalidExtensionError unit :=
  match object with
  | AnyObject => Ok tt
  | InGroupInfo =>
      if bool_decide (ExtensionType.is_valid_in_group_info extension_type = Some true)
         || bool_decide (ExtensionType.is_valid_in_group_info extension_type = None)
      then Ok tt else Err (ExtensionTypeNotValidInGroupInfo extension_type)
  | InGroupContext =>
      if ExtensionType.is_valid_in_group_context extension_type
      then Ok tt else Err (ExtensionTypeNotValidInGroupContext extension_type)
  | InKeyPackage =>
      if ExtensionType.is_valid_in_key_package extension_type
      then Ok tt else Err (ExtensionTypeNotValidInKeyPackage extension_type)
  | InLeafNode =>
      if ExtensionType.is_valid_in_leaf_node extension_type
      then Ok tt else Err (ExtensionTypeNotValidInLeafNode extension_type)
  end.

Abbreviation Extensions := (list Extension.t) (only parsing).

Module Exts.
Section Exts.
Context (object : ExtensionObject).
Implicit Types self : Extensions.

Definition contains self (extension_type : ExtensionType.t) : bool :=
  existsb (fun ext => bool_decide (Extension.extension_type ext = extension_type)) self.

(** [Extensions::remove]: the removed extension, and what is left. *)
Fixpoint remove (extension_type : ExtensionType.t) self : option Extension.t * Extensions :=
  match self with
  | [] => (None, [])
  | ext :: self' =>
      if bool_decide (Extension.extension_type ext = extension_type) then (Some ext, self')
      else let '(removed, rest) := remove extension_type self' in (removed, ext :: rest)
  end.

Definition single (extension : Extension.t) : result InvalidExtensionError Extensions :=
  _ ← validate_extension_type object (Extension.extension_type extension);
  Ok [extension].

(** The loop of [try_from] over the candidate list. *)
Fixpoint check_candidates (seen : gset ExtensionType.t) (candidate : Extensions) : result InvalidExtensionError unit :=
  match candidate with
  | [] => Ok tt
  | extension :: candidate' =>
      let extension_type := Extension.extension_type extension in
      _ ← validate_extension_type object extension_type;
      if bool_decide (extension_type ∈ seen) then Err DuplicateExtension
      else check_candidates ({[extension_type]} ∪ seen) candidate'
  end.

Definition try_from (candidate : Extensions) : result InvalidExtensionError Extensions :=
  _ ← check_candidates ∅ candidate;
  Ok candidate.

Definition from_vec (extensions : Extensions) : result InvalidExtensionError Extensions := try_from extensions.

Fixpoint validate (extensions : Extensions) : result InvalidExtensionError unit :=
  match extensions with
  | [] => Ok tt
  | ext :: extensions' =>
      _ ← validate_extension_type object (Extension.extension_type ext);
      validate extensions'
  end.

Definition add (extension : Extension.t) : stateful Extensions InvalidExtensionError unit := fun self =>
  match validate_extension_type object (Extension.extension_type extension) with
  | Ok _ =>
      if contains self (Extension.extension_type extension) then (Err DuplicateExtension, self)
      else (Ok tt, self ++ [extension])
  | Err e => (Err e, self)
  | Panic => (Panic, self)
  end.

Definition add_or_replace (extension : Extension.t) :
    stateful Extensions InvalidExtensionError (option Extension.t) := fun self =>
  match validate_extension_type object (Extension.extension_type extension) with
  | Ok _ =>
      let '(replaced, rest) := remove (Extension.extension_type extension) self in
      (Ok replaced, rest ++ [extension])
  | Err e => (Err e, self)
  | Panic => (Panic, self)
  end.
End Exts.

Definition find_by_type (self : Extensions) (extension_type : ExtensionType.t) : option Extension.t :=
  snd <$> list_find (fun ext => Extension.extension_type ext = extension_type) self.

Definition required_capabilities (self : Extensions) : option RequiredCapabilitiesExtension :=
  e ← find_by_type self ExtensionType.RequiredCapabilities;
  match e with Extension.RequiredCapabilities e => Some e | _ => None end.

Definition external_senders (self : Extensions) : option (list ExternalSender) :=
  e ← find_by_type self ExtensionType.ExternalSenders;
  match e with Extension.ExternalSenders e => Some e | _ => None end.

Definition application_id (self : Extensions) : option bytes :=
  e ← find_by_type self ExtensionType.ApplicationId;
  match e with Extension.ApplicationId e => Some e | _ => None end.

Definition ratchet_tree (self : Extensions) : option bytes :=
  e ← find_by_type self ExtensionType.RatchetTree;
  match e with Extension.RatchetTree e => Some e | _ => None end.

Definition external_pub (self : Extensions) : option bytes :=
  e ← find_by_type self ExtensionType.ExternalPub;
  match e with Extension.ExternalPub e => Some e | _ => None end.

Definition unknown (self : Extensions) (extension_type_id : Z) : option bytes :=
  match ExtensionType.from extension_type_id with
  | ExtensionType.Grease _ | ExtensionType.Unknown _ =>
      e ← find_by_type self (ExtensionType.from extension_type_id);
      match e with Extension.Unknown _ e => Some e | _ => None end
  | _ => None
  end.

(** [TryFrom<Extensions<AnyObject>>] for the other objects. *)
Definition try_from_any (object : ExtensionObject) (value : Extensions) : result InvalidExtensionError Extensions :=
  _ ← validate object value;
  Ok value.
End Exts.
