(* ===== verification/ExtensionsFacts.v ===== *)
(** * Facts about extension lists and type code points *)
From S2P Require Import Prelude Crypto CryptoFacts Extensions.

(** ** Code points *)
Ltac eqb_cases := repeat (match goal with |- context [if ?v =? ?k then _ else _] => destruct (Z.eqb_spec v k) as [->|] end; [done|]).

(** What the decoders rely on: a decoded value encodes to the code it came from. *)
Lemma extension_type_from_to v : ExtensionType.to_u16 (ExtensionType.from v) = v.
Proof. unfold ExtensionType.from. eqb_cases. by destruct (is_grease_value v). Qed.

Lemma proposal_type_from_to v : ProposalType.to_u16 (ProposalType.from v) = v.
Proof. unfold ProposalType.from. eqb_cases. by destruct (is_grease_value v). Qed.

Lemma credential_type_from_to v : CredentialType.to_u16 (CredentialType.from v) = v.
Proof. unfold CredentialType.from. eqb_cases. by destruct (is_grease_value v). Qed.

Lemma be_bytes_2 v : 0 <= v < 65536 -> u16_of_be_bytes (be_bytes 2 v) = Some v.
Proof.
  intros Hv. cbn. f_equal. change (Z.pow_pos 2 8) with 256. rewrite Z.div_1_r.
  rewrite (Z.mod_small (v / 256)); [|split; [apply Z.div_pos; lia|apply Z.div_lt_upper_bound; lia]].
  pose proof (Z.div_mod v 256). lia.
Qed.

Section Codes.
Context {A : Type} `{EqDecision A} (to_u16 : A -> Z) (from : Z -> A).
Hypothesis from_to : forall v, to_u16 (from v) = v.

(** A value is encoded exactly when decoding its code gives it back, and then
    decoding the bytes gives it back too. *)
Lemma code_roundtrip x b :
  0 <= to_u16 x < 65536 ->
  tls_serialize_code to_u16 from x = Some b ->
  tls_deserialize_code from b = Some x.
Proof.
  unfold tls_serialize_code. intros Hx. case_bool_decide as E; [|done]. cbn [negb].
  intros Eb. apply (inj Some) in Eb as <-. unfold tls_deserialize_code. rewrite be_bytes_2 by done. cbn. by rewrite E.
Qed.

Lemma code_decoded v :
  0 <= v < 65536 -> tls_serialize_code to_u16 from (from v) = Some (be_bytes 2 v).
Proof. intros Hv. unfold tls_serialize_code. by rewrite from_to, bool_decide_true. Qed.

Lemma code_refused x : from (to_u16 x) <> x -> tls_serialize_code to_u16 from x = None.
Proof. intros Hx. unfold tls_serialize_code. by rewrite bool_decide_false. Qed.

Lemma code_injective x y b :
  0 <= to_u16 x < 65536 -> 0 <= to_u16 y < 65536 ->
  tls_serialize_code to_u16 from x = Some b -> tls_serialize_code to_u16 from y = Some b -> x = y.
Proof. intros Hx Hy Ex%code_roundtrip Ey%code_roundtrip; [congruence|done..]. Qed.
End Codes.

(** ** Extension lists *)
Section Lists.
Context (object : ExtensionObject).
Implicit Types l : list Extension.t.

(** A list of extensions as the type [Extensions] promises it: no extension type
    twice, and only types that are valid in the object. *)
Record wf_extensions l : Prop := {
  we_unique : NoDup (Extension.extension_type <$> l);
  we_valid : Forall (fun e => validate_extension_type object (Extension.extension_type e) = Ok tt) l;
}.

Lemma validate_type_cases t :
  validate_extension_type object t = Ok tt \/ exists e, validate_extension_type object t = Err e /\ e <> DuplicateExtension.
Proof. destruct object; cbn; repeat case_match; eauto. Qed.

Lemma contains_spec l t : Exts.contains l t = true <-> t ∈ Extension.extension_type <$> l.
Proof.
  unfold Exts.contains. rewrite existsb_exists, list_elem_of_fmap. split.
  - intros (e & He & Ht%bool_decide_eq_true). exists e. split; [done|]. by apply list_elem_of_In.
  - intros (e & -> & He%list_elem_of_In). exists e. split; [done|]. by apply bool_decide_eq_true.
Qed.

Lemma check_candidates_spec seen l :
  Exts.check_candidates object seen l = Ok tt <->
  wf_extensions l /\ (forall t, t ∈ Extension.extension_type <$> l -> t ∉ seen).
Proof.
  revert seen. induction l as [|e l IH]; intros seen; cbn [Exts.check_candidates].
  - split; [|done]. intros _. split; [split; constructor|]. intros t Ht. by apply elem_of_nil in Ht.
  - destruct (validate_type_cases (Extension.extension_type e)) as [Hv|(err & Hv & _)]; rewrite Hv; cbn.
    + case_bool_decide as Hin.
      * split; [done|]. intros [_ H]. exfalso. eapply H; [|exact Hin]. constructor.
      * rewrite IH. clear IH. split.
        -- intros [[Hn Hf] H]. split; [split|].
           ++ rewrite fmap_cons. constructor; [|done]. intros Hi. apply (H _ Hi). set_solver.
           ++ by constructor.
           ++ intros t [->|Ht]%elem_of_cons; [done|]. intros Hs. apply (H t Ht). set_solver.
        -- intros [[[Hn1 Hn]%NoDup_cons [_ Hf]%Forall_cons] H]. split; [done|].
           intros t Ht. assert (t ∉ seen) by (apply H; by constructor). assert (t <> Extension.extension_type e) by (by intros ->).
           set_solver.
    + split; [done|]. intros [[_ [Hf _]%Forall_cons] _]. congruence.
Qed.

Lemma try_from_spec l : Exts.try_from object l = Ok l <-> wf_extensions l.
Proof.
  unfold Exts.try_from. split.
  - intros E. destruct (Exts.check_candidates object ∅ l) as [[]| |] eqn:Ec; [|done..]. by apply check_candidates_spec in Ec as [? _].
  - intros H. assert (Exts.check_candidates object ∅ l = Ok tt) as ->; [|done].
    apply check_candidates_spec. split; [done|]. set_solver.
Qed.

Lemma remove_spec t l :
  (Exts.remove t l).1 = Exts.find_by_type l t /\
  (NoDup (Extension.extension_type <$> l) ->
   (Exts.remove t l).2 = filter (fun e => Extension.extension_type e <> t) l).
Proof.
  induction l as [|e l [IH1 IH2]]; [done|]. cbn [Exts.remove]. unfold Exts.find_by_type in *. cbn [list_find].
  rewrite fmap_cons. case_bool_decide as E; cbn [fst snd].
  - rewrite decide_True by done. split; [done|]. intros [Hn Hd]%NoDup_cons. rewrite filter_cons_False by naive_solver.
    symmetry. apply filter_all, Forall_forall. intros e' He' E'. apply Hn. rewrite E, <- E'. apply list_elem_of_fmap. eauto.
  - rewrite decide_False by done. destruct (Exts.remove t l) as [r rest]. cbn [fst snd] in *. split.
    + rewrite IH1. by destruct (list_find _ l) as [[]|].
    + intros [_ Hd]%NoDup_cons. by rewrite filter_cons_True, IH2.
Qed.
(** The operations that change a list. *)
Inductive exts_op : Type :=
  | OpAdd (e : Extension.t)
  | OpAddOrReplace (e : Extension.t)
  | OpRemove (t : ExtensionType.t).

(** What a call returns (the extension that is replaced or removed), and the list after it. *)
Definition exts_call (op : exts_op) : stateful (list Extension.t) InvalidExtensionError (option Extension.t) :=
  match op with
  | OpAdd e => _ ← Exts.add object e; mret None
  | OpAddOrReplace e => Exts.add_or_replace object e
  | OpRemove t => fun l => let '(removed, rest) := Exts.remove t l in (Ok removed, rest)
  end.

(** The same calls on a finite map from types to extensions. *)
Definition map_call (op : exts_op) :
    stateful (gmap ExtensionType.t Extension.t) InvalidExtensionError (option Extension.t) := fun m =>
  match op with
  | OpAdd e =>
      match validate_extension_type object (Extension.extension_type e), m !! Extension.extension_type e with
      | Ok _, None => (Ok None, <[Extension.extension_type e := e]> m)
      | Ok _, Some _ => (Err DuplicateExtension, m)
      | Err err, _ => (Err err, m)
      | Panic, _ => (Panic, m)
      end
  | OpAddOrReplace e =>
      match validate_extension_type object (Extension.extension_type e) with
      | Ok _ => (Ok (m !! Extension.extension_type e), <[Extension.extension_type e := e]> m)
      | Err err => (Err err, m)
      | Panic => (Panic, m)
      end
  | OpRemove t => (Ok (m !! t), delete t m)
  end.

(** The outcomes of a sequence of calls, and the state after them. *)
Fixpoint calls {S} (call : exts_op -> stateful S InvalidExtensionError (option Extension.t)) (ops : list exts_op) (s : S) :
    list (result InvalidExtensionError (option Extension.t)) * S :=
  match ops with
  | [] => ([], s)
  | op :: ops => let '(r, s) := call op s in let '(rs, s) := calls call ops s in (r :: rs, s)
  end.

Lemma wf_filter P `{forall x, Decision (P x)} l : wf_extensions l -> wf_extensions (filter P l).
Proof.
  intros [Hn Hf]. split.
  2:{ rewrite Forall_forall in Hf |- *. intros x [_ Hx]%list_elem_of_filter. by apply Hf. }
  induction l as [|e l IH]; [done|]. rewrite fmap_cons in Hn. apply NoDup_cons in Hn as [Hn1 Hn]. apply Forall_cons in Hf as [_ Hf].
  destruct (decide (P e)); [rewrite filter_cons_True by done|rewrite filter_cons_False by done; auto].
  rewrite fmap_cons. constructor; [|by apply IH]. intros (e' & Et & [_ He']%list_elem_of_filter)%list_elem_of_fmap.
  apply Hn1. rewrite Et. apply list_elem_of_fmap. eauto.
Qed.

Lemma wf_snoc e l :
  wf_extensions l -> validate_extension_type object (Extension.extension_type e) = Ok tt ->
  Extension.extension_type e ∉ Extension.extension_type <$> l -> wf_extensions (l ++ [e]).
Proof.
  intros [Hn Hf] Hv He. split; [|apply Forall_app; split; [done|by constructor]].
  rewrite fmap_app. apply NoDup_app. split; [done|]. split; [|apply NoDup_singleton].
  intros t Ht Ht'. apply list_elem_of_singleton in Ht' as ->. done.
Qed.

Lemma find_by_type_spec l e :
  NoDup (Extension.extension_type <$> l) ->
  Exts.find_by_type l (Extension.extension_type e) = Some e <-> e ∈ l.
Proof.
  intros Hn. unfold Exts.find_by_type. split.
  - intros ([i x] & (Hi & _ & _)%list_find_Some & Ex)%fmap_Some. cbn in Ex. subst. by apply list_elem_of_lookup_2 in Hi.
  - intros [i Hi]%list_elem_of_lookup. destruct (list_find _ l) as [[k x]|] eqn:Ef.
    + apply list_find_Some in Ef as (Hk & Et & _). cbn. f_equal.
      assert (k = i) as ->; [|congruence].
      apply (NoDup_lookup _ k i (Extension.extension_type e) Hn); rewrite list_lookup_fmap.
      * by rewrite Hk, <- Et.
      * by rewrite Hi.
    + apply list_find_None in Ef. rewrite Forall_forall in Ef. exfalso. by apply (Ef e); [apply list_elem_of_lookup_2 in Hi|].
Qed.

Lemma required_capabilities_spec l rc :
  NoDup (Extension.extension_type <$> l) ->
  Exts.required_capabilities l = Some rc <-> Extension.RequiredCapabilities rc ∈ l.
Proof.
  intros Hn. rewrite <- find_by_type_spec by done. cbn. unfold Exts.required_capabilities.
  destruct (Exts.find_by_type l ExtensionType.RequiredCapabilities) as [[]|]; cbn; naive_solver.
Qed.

Lemma find_type l t e : Exts.find_by_type l t = Some e -> Extension.extension_type e = t.
Proof. unfold Exts.find_by_type. intros ([i x] & (_ & Ht & _)%list_find_Some & ->)%fmap_Some. done. Qed.

Lemma find_elem l t e : wf_extensions l -> Exts.find_by_type l t = Some e -> Extension.extension_type e = t /\ e ∈ l.
Proof.
  intros Hw E. pose proof (find_type _ _ _ E) as <-. split; [done|]. by apply find_by_type_spec; [apply Hw|].
Qed.

Lemma find_None l t : Exts.find_by_type l t = None <-> t ∉ Extension.extension_type <$> l.
Proof.
  unfold Exts.find_by_type. rewrite fmap_None, list_find_None, Forall_forall, list_elem_of_fmap. split.
  - intros H (e & -> & He). by apply (H e He).
  - intros H e He Ht. apply H. by exists e.
Qed.

(** A list represents a map when it is well formed and lookups agree. *)
Record represents l (m : gmap ExtensionType.t Extension.t) : Prop := {
  rep_wf : wf_extensions l;
  rep_find t : Exts.find_by_type l t = m !! t;
}.

Lemma represents_snoc l m e :
  represents l m -> validate_extension_type object (Extension.extension_type e) = Ok tt -> m !! Extension.extension_type e = None ->
  represents (l ++ [e]) (<[Extension.extension_type e := e]> m).
Proof.
  intros [Hw Hf] Hv Hn. pose proof (proj1 (find_None l _) (eq_trans (Hf _) Hn)) as Hni.
  assert (wf_extensions (l ++ [e])) as Hw' by (by apply wf_snoc). split; [done|].
  intros t. destruct (decide (t = Extension.extension_type e)) as [->|Hne].
  - rewrite lookup_insert_eq. apply find_by_type_spec; [apply Hw'|]. apply elem_of_app. right. by constructor.
  - rewrite lookup_insert_ne, <- Hf by done. unfold Exts.find_by_type. destruct (list_find (fun ext => Extension.extension_type ext = t) l) as [[i x]|] eqn:E.
    + by rewrite (list_find_app_l _ _ _ _ _ E).
    + rewrite list_find_app_r by done. cbn. by rewrite decide_False.
Qed.

Lemma represents_filter l m t :
  represents l m -> represents (filter (fun e => Extension.extension_type e <> t) l) (delete t m).
Proof.
  intros [Hw Hf]. assert (wf_extensions (filter (fun e => Extension.extension_type e <> t) l)) as Hw' by (by apply wf_filter).
  split; [done|]. intros t'. destruct (delete t m !! t') as [e|] eqn:Ed.
  - apply lookup_delete_Some in Ed as [Hne Hm]. rewrite <- Hf in Hm. apply find_elem in Hm as [<- Hm]; [|done].
    apply find_by_type_spec; [apply Hw'|]. by apply list_elem_of_filter.
  - apply find_None. intros (e & -> & [Hne He]%list_elem_of_filter)%list_elem_of_fmap.
    apply find_by_type_spec in He; [|apply Hw]. rewrite Hf in He. by rewrite lookup_delete_ne, He in Ed.
Qed.

Lemma call_refines op l m :
  represents l m ->
  let '(r, l') := exts_call op l in let '(r', m') := map_call op m in
  r = r' /\ represents l' m' /\ (forall e, r = Err e -> l' = l).
Proof.
  intros Hr. destruct op as [e|e|t]; unfold exts_call, map_call.
  - unfold mbind, stateful_bind, mret, stateful_ret, Exts.add. destruct (validate_type_cases (Extension.extension_type e)) as [Hv|(err & Hv & _)]; rewrite Hv; [|done].
    pose proof (contains_spec l (Extension.extension_type e)) as Hc. destruct (m !! Extension.extension_type e) as [x|] eqn:Em.
    + destruct (Exts.contains l _); [done|]. exfalso. rewrite <- (rep_find _ _ Hr) in Em. apply find_elem in Em as [Ht Em]; [|apply Hr].
      apply diff_false_true, Hc. rewrite <- Ht. apply list_elem_of_fmap. eauto.
    + destruct (Exts.contains l _); [|split; [done|]; split; [by apply represents_snoc|done]].
      exfalso. rewrite <- (rep_find _ _ Hr), find_None in Em. by apply Em, Hc.
  - unfold Exts.add_or_replace. destruct (validate_type_cases (Extension.extension_type e)) as [Hv|(err & Hv & _)]; rewrite Hv; [|done].
    destruct (remove_spec (Extension.extension_type e) l) as [H1 H2]. specialize (H2 (we_unique _ (rep_wf _ _ Hr))).
    destruct (Exts.remove _ l) as [r rest]. cbn in *. subst. split; [by rewrite (rep_find _ _ Hr)|]. split; [|done].
    rewrite <- insert_delete_eq. apply represents_snoc; [by apply represents_filter|done|apply lookup_delete_eq].
  - destruct (remove_spec t l) as [H1 H2]. specialize (H2 (we_unique _ (rep_wf _ _ Hr))). destruct (Exts.remove t l) as [r rest]. cbn in *.
    subst. split; [by rewrite (rep_find _ _ Hr)|]. split; [by apply represents_filter|done].
Qed.

Lemma calls_refine ops : forall l m, represents l m ->
  let '(rs, l') := calls exts_call ops l in let '(rs', m') := calls map_call ops m in rs = rs' /\ represents l' m'.
Proof.
  induction ops as [|op ops IH]; intros l m Hr; cbn [calls]; [done|]. pose proof (call_refines op l m Hr) as Hc.
  destruct (exts_call op l) as [r l1], (map_call op m) as [r' m1]. destruct Hc as (-> & Hr1 & _). specialize (IH l1 m1 Hr1).
  destruct (calls exts_call ops l1), (calls map_call ops m1). by destruct IH as [-> ?].
Qed.

(** The map of a list. *)
Definition map_of l : gmap ExtensionType.t Extension.t := list_to_map ((fun e => (Extension.extension_type e, e)) <$> l).

Lemma map_of_represents l : wf_extensions l -> represents l (map_of l).
Proof.
  intros Hw. split; [done|]. intros t. destruct (map_of l !! t) as [e|] eqn:E.
  - apply elem_of_list_to_map_2, list_elem_of_fmap in E as (e' & [= -> ->] & He). by apply find_by_type_spec; [apply Hw|].
  - apply not_elem_of_list_to_map_2 in E. apply find_None. by rewrite <- list_fmap_compose in E.
Qed.

Lemma represents_size l m : represents l m -> length l = base.size m.
Proof.
  intros [Hw Hf]. assert (m = map_of l) as ->.
  { apply map_eq. intros t. by rewrite <- Hf, (rep_find _ _ (map_of_represents l Hw)). }
  unfold map_of. rewrite map_size_list_to_map; [by rewrite length_fmap|]. rewrite <- list_fmap_compose. apply Hw.
Qed.

(** C37. A list of extensions behaves as a finite map from extension types. Starting from a list
    that [from_vec] accepts, any sequence of calls that add, add or replace, or remove an
    extension gives the outcomes of these calls on the map, errors included: a type that is
    not valid in the object and, for adding, a type that is present are refused, and replacing
    and removing return what was there. The list is then still one that [from_vec] accepts (no
    type twice, only valid types), it has as many extensions as the map, and looking up a type
    finds what the map has. A call that fails leaves the list exactly as it was. *)
Theorem extension_list_refines_map l ops :
  Exts.from_vec object l = Ok l ->
  let '(rs, l') := calls exts_call ops l in
  let '(rs', m') := calls map_call ops (map_of l) in
  rs = rs' /\ Exts.from_vec object l' = Ok l' /\ length l' = base.size m' /\
  (forall t, Exts.find_by_type l' t = m' !! t) /\
  (forall rc, Exts.required_capabilities l' = Some rc <-> m' !! ExtensionType.RequiredCapabilities = Some (Extension.RequiredCapabilities rc)) /\
  (forall op e l'', exts_call op l' = (Err e, l'') -> l'' = l').
Proof.
  intros Hw%try_from_spec%map_of_represents. pose proof (calls_refine ops l _ Hw) as Hc.
  destruct (calls exts_call ops l) as [rs l'], (calls map_call ops (map_of l)) as [rs' m']. destruct Hc as [-> Hr].
  pose proof Hr as [Hw' Hf]. split_and!; [done|by apply try_from_spec|by apply represents_size|done| |].
  - intros rc. rewrite required_capabilities_spec, <- find_by_type_spec by apply Hw'. by rewrite Hf.
  - intros op e l'' E. pose proof (call_refines op l' m' Hr) as Hc. rewrite E in Hc. destruct (map_call op m'). by eapply Hc.
Qed.
End Lists.

Definition toy_calls : list exts_op :=
  let rc := mkRequiredCapabilities [ExtensionType.LastResort] [] [] in
  [OpAdd (Extension.ApplicationId [1]); OpAdd (Extension.Unknown 0x0A0A []); OpAddOrReplace (Extension.RequiredCapabilities rc);
   OpAdd (Extension.Unknown 0x0A0A [7]); OpRemove (ExtensionType.Unknown 3)].

Lemma extension_list_refines_map_witness :
  (calls (exts_call InGroupContext) toy_calls []).1
    = [Err (ExtensionTypeNotValidInGroupContext ExtensionType.ApplicationId); Ok None; Ok None; Err DuplicateExtension; Ok None].
Proof.
  pose proof (extension_list_refines_map InGroupContext [] toy_calls eq_refl) as H.
  destruct (calls (exts_call InGroupContext) toy_calls []) as [rs l']. cbn [fst].
  destruct (calls (map_call InGroupContext) toy_calls (map_of [])) as [rs' m'] eqn:E. destruct H as [-> _].
  assert (rs' = (calls (map_call InGroupContext) toy_calls (map_of [])).1) as -> by (by rewrite E). vm_compute. reflexivity.
Defined.

(** The code points of extension, proposal and credential types: decoding any 16-bit
    code gives a type whose encoding is that code again, GREASE codes included, and a
    value that is not the one its code decodes to is never encoded. *)
Theorem type_codes_roundtrip v :
  0 <= v < 65536 ->
  (ExtensionType.tls_serialize (ExtensionType.from v) = Some (be_bytes 2 v) /\
   ExtensionType.tls_deserialize (be_bytes 2 v) = Some (ExtensionType.from v) /\
   (forall t, ExtensionType.to_u16 t = v -> t <> ExtensionType.from v -> ExtensionType.tls_serialize t = None)) /\
  (ProposalType.tls_serialize (ProposalType.from v) = Some (be_bytes 2 v) /\
   ProposalType.tls_deserialize (be_bytes 2 v) = Some (ProposalType.from v) /\
   (forall t, ProposalType.to_u16 t = v -> t <> ProposalType.from v -> ProposalType.tls_serialize t = None)) /\
  (CredentialType.tls_serialize (CredentialType.from v) = Some (be_bytes 2 v) /\
   CredentialType.tls_deserialize (be_bytes 2 v) = Some (CredentialType.from v) /\
   (forall t, CredentialType.to_u16 t = v -> t <> CredentialType.from v -> CredentialType.tls_serialize t = None)).
Proof.
  intros Hv. split_and!;
    try (apply code_decoded; [exact extension_type_from_to||exact proposal_type_from_to||exact credential_type_from_to|done]);
    try (unfold ExtensionType.tls_deserialize, ProposalType.tls_deserialize, CredentialType.tls_deserialize, tls_deserialize_code;
         by rewrite be_bytes_2).
  all: intros t Ht Hne; apply code_refused; congruence.
Qed.

Lemma type_codes_roundtrip_witness :
  ProposalType.from 0x1A1A = ProposalType.Grease 0x1A1A /\
  ProposalType.tls_serialize (ProposalType.Grease 0x1A1A) = Some [0x1A; 0x1A] /\
  ProposalType.tls_serialize (ProposalType.Custom 0x1A1A) = None.
Proof.
  destruct (type_codes_roundtrip 0x1A1A ltac:(lia)) as (_ & (H1 & _ & H2) & _). split; [reflexivity|].
  split; [exact H1|]. apply H2; [reflexivity|discriminate].
Defined.
