(* ===== verification/TreeSync.v ===== *)
(** * The ratchet tree: nodes, hashes, resolutions and diffs

    Models openmls/src/treesync: the parent node (node/parent_node.rs), the
    hash inputs (hashes.rs), the blankable nodes (treesync_node.rs), the diff
    (diff.rs) and the tree with its import and export (mod.rs).  A blankable
    node is an [option]; the leaf node enters through the interface
    [LeafNodeOps]. *)
From S2P Require Import Prelude TreeMath BinaryTree Crypto.

(** What the tree needs of a leaf node: its HPKE key, the parent hash of a leaf
    that comes from a commit, and its encoding. *)
Class LeafNodeOps (LeafNode : Type) : Type := {
  leaf_encryption_key : LeafNode -> bytes;
  leaf_parent_hash : LeafNode -> option bytes;
  tls_leaf_node : LeafNode -> option bytes;
}.

(** ** Unmerged leaves *)
Module UnmergedLeaves.
(** The position [binary_search] reports on a sorted list, found or not. *)
Fixpoint search_position (list : list LeafNodeIndex.t) (leaf_index : LeafNodeIndex.t) : nat :=
  match list with
  | [] => 0
  | x :: list' => if x <? leaf_index then S (search_position list' leaf_index) else 0
  end.

Definition add (list : list LeafNodeIndex.t) (leaf_index : LeafNodeIndex.t) : Datatypes.list LeafNodeIndex.t :=
  let position := search_position list leaf_index in
  take position list ++ leaf_index :: drop position list.

(** [list.windows(2).all(|e| e[0] < e[1])]. *)
Fixpoint increasing (list : list LeafNodeIndex.t) : bool :=
  match list with
  | x :: (y :: _) as list' => (x <? y) && increasing list'
  | _ => true
  end.

Definition try_from (list : list LeafNodeIndex.t) : option (Datatypes.list LeafNodeIndex.t) :=
  if negb (increasing list) then None else Some list.
End UnmergedLeaves.

(** ** Parent nodes *)
Record ParentNode : Type := mkParentNode {
  encryption_key : bytes;
  parent_hash : bytes;
  unmerged_leaves : list LeafNodeIndex.t;
}.

#[export] Instance ParentNode_eq_dec : EqDecision ParentNode.
Proof. solve_decision. Defined.

Definition ParentNode_from (public_key : bytes) : ParentNode := mkParentNode public_key [] [].

Definition set_unmerged_leaves (self : ParentNode) (leaves : list LeafNodeIndex.t) : ParentNode :=
  mkParentNode (encryption_key self) (parent_hash self) leaves.

Definition add_unmerged_leaf (leaf_index : LeafNodeIndex.t) (self : ParentNode) : ParentNode :=
  mkParentNode (encryption_key self) (parent_hash self)
    (UnmergedLeaves.add (unmerged_leaves self) leaf_index).

Definition set_parent_hash (self : ParentNode) (hash : bytes) : ParentNode :=
  mkParentNode (encryption_key self) hash (unmerged_leaves self).

(** ** Nodes *)
Inductive Node (LeafNode : Type) : Type :=
  | LeafNodeN (leaf : LeafNode)
  | ParentNodeN (parent : ParentNode).
Arguments LeafNodeN {LeafNode} leaf.
Arguments ParentNodeN {LeafNode} parent.

Inductive NodeReference (LeafNode : Type) : Type :=
  | RefLeaf (leaf : LeafNode)
  | RefParent (parent : ParentNode).
Arguments RefLeaf {LeafNode} leaf.
Arguments RefParent {LeafNode} parent.

(** A blank node is the default one. *)
#[export] Instance option_default A : Default (option A) := None.

Abbreviation TreeSyncDiff LeafNode := (AbDiff (option LeafNode) (option ParentNode)) (only parsing).

(** ** Errors *)
Inductive PathSecretError : Type := PathSecretHpkeError (e : Hpke.Error).

Inductive TreeSyncAddLeaf : Type := AddLeafLibraryError (e : LibraryError) | AddLeafTreeFull.

Inductive ApplyUpdatePathError : Type :=
  | UpdatePathLibraryError (e : LibraryError)
  | PathLengthMismatch | PathMismatch | ParentHashMismatch | MissingParentHash | UnableToDecrypt
  | MissingSender | TreeFull | InconsistentSenderIndex | MissingOwnLeaf | MissingCiphertext.

Inductive TreeSyncParentHashError : Type :=
  | ParentHashLibraryError (e : LibraryError)
  | InvalidParentHash.

Inductive TreeSyncDiffError : Type :=
  | DiffLibraryError (e : LibraryError)
  | NoPrivateKeyFound
  | DiffTreeDiffError (e : ABinaryTreeDiffError)
  | DiffDerivationError (e : PathSecretError)
  | DiffCreationError (e : ABinaryTreeError).

Inductive PublicTreeError : Type :=
  | PublicTreeLibraryError (e : LibraryError)
  | PublicTreeKeyMismatch | DuplicateKeyPackage | MissingKeyPackage | MalformedTree
  | PublicInvalidParentHash | IdentityMismatch
  | PublicTreeSignatureError (e : SignatureError).

Inductive RatchetTreeError : Type :=
  | MissingNodes | TrailingBlankNodes | InvalidNodeSignature | RatchetTreeWrongNodeType.

Inductive TreeSyncFromNodesError : Type :=
  | FromNodesLibraryError (e : LibraryError)
  | FromNodesPublicTreeError (e : PublicTreeError)
  | FromNodesRatchetTreeError (e : RatchetTreeError).

Inductive LifetimeError : Type :=
  | Expired (not_after now : Z)
  | NotValidYet (not_before now : Z)
  | SystemTimeBeforeUnixEpoch.

Inductive LeafNodeValidationError : Type :=
  | LeafLifetime (e : LifetimeError)
  | UnsupportedExtensions | UnsupportedProposals | UnsupportedCredentials
  | CredentialNotInCapabilities | ExtensionsNotInCapabilities | CiphersuiteNotInCapabilities
  | SignatureKeyAlreadyInUse | EncryptionKeyAlreadyInUse | InvalidLeafNodeSource
  | LeafNodeCredentialNotSupportedByMember | MemberCredentialNotSupportedByLeafNode.

Inductive LeafNodeBuildError : Type :=
  | LeafNodeBuildLibraryError (e : LibraryError)
  | LeafNodeBuildValidation (e : LeafNodeValidationError).

(** ** Hash inputs *)
Section Hashes.
Context {OC : OpenMlsCrypto} {TC : TlsCodec} {LeafNode : Type} {LO : LeafNodeOps LeafNode}.

(** [optional<T>]: a presence byte, then the value. *)
Definition tls_optional {A} (encode : A -> option bytes) (o : option A) : option bytes :=
  match o with None => Some [0] | Some a => cons 1 <$> encode a end.

Definition tls_parent_node (self : ParentNode) : option bytes :=
  key ← tls_vlbytes (encryption_key self);
  hash ← tls_vlbytes (parent_hash self);
  unmerged ← tls_vlbytes (mjoin (be_bytes 4 <$> unmerged_leaves self));
  Some (key ++ hash ++ unmerged).

Definition hash_payload (ciphersuite : Ciphersuite) (payload : option bytes) : result LibraryError bytes :=
  payload ← ok_or payload MissingBoundsCheck;
  map_err UnexpectedCryptoError (hash_op (Suite.hash_algorithm ciphersuite) payload).

Record ParentHashInput : Type := mkParentHashInput {
  phi_public_key : bytes;
  phi_parent_hash : bytes;
  phi_original_sibling_tree_hash : bytes;
}.

Definition ParentHashInput_serialize (self : ParentHashInput) : option bytes :=
  key ← tls_vlbytes (phi_public_key self);
  hash ← tls_vlbytes (phi_parent_hash self);
  sibling ← tls_vlbytes (phi_original_sibling_tree_hash self);
  Some (key ++ hash ++ sibling).

Definition ParentHashInput_hash (self : ParentHashInput) (ciphersuite : Ciphersuite) :
    result LibraryError bytes := hash_payload ciphersuite (ParentHashInput_serialize self).

Definition compute_parent_hash (self : ParentNode) (ciphersuite : Ciphersuite)
    (original_child_resolution : bytes) : result LibraryError bytes :=
  ParentHashInput_hash
    (mkParentHashInput (encryption_key self) (parent_hash self) original_child_resolution) ciphersuite.

Inductive TreeHashInput : Type :=
  | LeafNodeHashInput (leaf_index : LeafNodeIndex.t) (leaf_node : option LeafNode)
  | ParentNodeHashInput (parent_node : option ParentNode) (left_hash right_hash : bytes).

(** The node type, 1 or 2, then the fields of the variant. *)
Definition TreeHashInput_serialize (self : TreeHashInput) : option bytes :=
  match self with
  | LeafNodeHashInput leaf_index leaf_node =>
      node ← tls_optional tls_leaf_node leaf_node;
      Some (1 :: be_bytes 4 leaf_index ++ node)
  | ParentNodeHashInput parent_node left_hash right_hash =>
      node ← tls_optional tls_parent_node parent_node;
      l ← tls_vlbytes left_hash;
      r ← tls_vlbytes right_hash;
      Some (2 :: node ++ l ++ r)
  end.

Definition TreeHashInput_hash (self : TreeHashInput) (ciphersuite : Ciphersuite) :
    result LibraryError bytes := hash_payload ciphersuite (TreeHashInput_serialize self).

(** [TreeSyncLeafNode::compute_tree_hash]. *)
Definition leaf_tree_hash (self : option LeafNode) (ciphersuite : Ciphersuite)
    (leaf_index : LeafNodeIndex.t) : result LibraryError bytes :=
  TreeHashInput_hash (LeafNodeHashInput leaf_index self) ciphersuite.

(** [TreeSyncParentNode::compute_tree_hash]. *)
Definition parent_tree_hash (self : option ParentNode) (ciphersuite : Ciphersuite)
    (left_hash right_hash : bytes) (exclusion_list : gset LeafNodeIndex.t) : result LibraryError bytes :=
  if bool_decide (exclusion_list = ∅) then
    TreeHashInput_hash (ParentNodeHashInput self left_hash right_hash) ciphersuite
  else
    match self with
    | Some parent_node =>
        let new_node := set_unmerged_leaves parent_node
          (filter (fun leaf => leaf ∉ exclusion_list) (unmerged_leaves parent_node)) in
        TreeHashInput_hash (ParentNodeHashInput (Some new_node) left_hash right_hash) ciphersuite
    | None => TreeHashInput_hash (ParentNodeHashInput None left_hash right_hash) ciphersuite
    end.
End Hashes.
Arguments TreeHashInput LeafNode : clear implicits.

(** ** TreeSyncDiff *)
Module TSDiff.
Section TSDiff.
Context {OC : OpenMlsCrypto} {TC : TlsCodec} {LeafNode : Type} {LO : LeafNodeOps LeafNode}.
Implicit Types self : TreeSyncDiff LeafNode.

Abbreviation Resolution := (list (TreeNodeIndex * NodeReference LeafNode)) (only parsing).

(** The recursion goes down one level per call; [None] when [fuel] calls do not
    reach the leaves. *)
Fixpoint resolution_upto (fuel : nat) self (node_index : TreeNodeIndex)
    (excluded_indices : gset LeafNodeIndex.t) : option Resolution :=
  match node_index with
  | Leaf leaf_index =>
      if bool_decide (leaf_index ∈ excluded_indices) then Some []
      else
        match Diff.leaf self leaf_index with
        | Some leaf => Some [(Leaf leaf_index, RefLeaf leaf)]
        | None => Some []
        end
  | Parent parent_index =>
      match Diff.parent self parent_index with
      | Some parent =>
          Some ((Parent parent_index, RefParent parent) ::
            omap (fun leaf_index =>
                if bool_decide (leaf_index ∈ excluded_indices) then None
                else (fun leaf_node => (Leaf leaf_index, RefLeaf leaf_node)) <$> Diff.leaf self leaf_index)
              (unmerged_leaves parent))
      | None =>
          match fuel with
          | O => None
          | S fuel' =>
              let left_child := Diff.left_child self parent_index in
              let right_child := Diff.right_child self parent_index in
              left_resolution ← resolution_upto fuel' self left_child excluded_indices;
              right_resolution ← resolution_upto fuel' self right_child excluded_indices;
              Some (left_resolution ++ right_resolution)
          end
      end
  end.

Definition resolution self (node_index : TreeNodeIndex) (excluded_indices : gset LeafNodeIndex.t) :
    option Resolution := resolution_upto 32 self node_index excluded_indices.

Definition leaf_count self : Z := Diff.leaf_count self.

Definition copath_resolutions self (leaf_index : LeafNodeIndex.t) : option (list Resolution) :=
  if leaf_count self =? MIN_TREE_SIZE then Some []
  else
    copath ← Diff.copath self leaf_index;
    mapM (fun node_index => resolution self node_index ∅) copath.

(** [zip(..).filter_map(..)]: the elements whose resolution is not empty. *)
Definition filter_nonempty {A} (l : list A) (resolutions : list Resolution) : list A :=
  fst <$> filter (fun x => x.2 <> []) (zip l resolutions).

Definition filtered_direct_path self (leaf_index : LeafNodeIndex.t) : option (list ParentNodeIndex.t) :=
  direct_path ← Diff.direct_path self leaf_index;
  resolutions ← copath_resolutions self leaf_index;
  Some (filter_nonempty direct_path resolutions).

Definition filtered_copath self (leaf_index : LeafNodeIndex.t) : option (list TreeNodeIndex) :=
  copath ← Diff.copath self leaf_index;
  resolutions ← copath_resolutions self leaf_index;
  Some (filter_nonempty copath resolutions).

(** The entry of a resolution is not an excluded leaf. *)
Definition included (exclusion_list : gset LeafNodeIndex.t) (index : TreeNodeIndex) : bool :=
  match index with
  | Leaf leaf_index => negb (bool_decide (leaf_index ∈ exclusion_list))
  | Parent _ => true
  end.

Definition filtered_copath_resolutions self (leaf_index : LeafNodeIndex.t)
    (exclusion_list : gset LeafNodeIndex.t) : option (list Resolution) :=
  if leaf_count self =? 1 then Some []
  else
    copath ← Diff.copath self leaf_index;
    resolutions ← mapM (fun node_index => resolution self node_index ∅) copath;
    Some (filter (fun entry => included exclusion_list entry.1 = true)
            <$> filter (fun resolution => resolution <> []) resolutions).

(** [index = leaf_index] at every full leaf of the iteration. *)
Definition last_full (leaves : list (LeafNodeIndex.t * option LeafNode)) : LeafNodeIndex.t :=
  foldl (fun index '(leaf_index, leaf) =>
    match leaf with Some _ => leaf_index | None => index end) 0 leaves.

Definition rightmost_full_leaf self : option LeafNodeIndex.t :=
  leaves ← Diff.leaves self; Some (last_full leaves).

(** The loop of [trim_tree]; on an error of [shrink_tree] it would not end. *)
Fixpoint shrink_while (fuel : nat) (rightmost : LeafNodeIndex.t) self : option (TreeSyncDiff LeafNode) :=
  if TreeSize.leaf_is_left (size self) rightmost then
    match fuel with
    | O => None
    | S fuel' =>
        match Diff.shrink_tree self with
        | Ok self' => shrink_while fuel' rightmost self'
        | _ => None
        end
    end
  else Some self.

Definition trim_tree self : option (TreeSyncDiff LeafNode) :=
  if leaf_count self =? MIN_TREE_SIZE then Some self
  else
    rightmost ← rightmost_full_leaf self;
    shrink_while 32 rightmost self.

Definition update_leaf self (leaf_node : LeafNode) (leaf_index : LeafNodeIndex.t) :
    option (TreeSyncDiff LeafNode) :=
  Diff.set_direct_path_to_node (Diff.replace_leaf self leaf_index (Some leaf_node)) leaf_index None.

Definition blank_leaf self (leaf_index : LeafNodeIndex.t) : option (TreeSyncDiff LeafNode) :=
  Diff.set_direct_path_to_node (Diff.replace_leaf self leaf_index None) leaf_index None.

(** The search for the first blank leaf, with the running count. *)
Fixpoint first_blank (leaves : list (LeafNodeIndex.t * option LeafNode)) (count : Z) : LeafNodeIndex.t :=
  match leaves with
  | [] => count
  | (leaf_index, None) :: _ => leaf_index
  | (_, Some _) :: leaves' => first_blank leaves' (count + 1)%u32
  end.

Definition free_leaf_index self : option LeafNodeIndex.t :=
  leaves ← Diff.leaves self; Some (first_blank leaves 0).

(** [while leaf_index >= leaf_count { grow_tree()? }]. *)
Fixpoint grow_until (fuel : nat) (leaf_index : LeafNodeIndex.t) :
    stateful (TreeSyncDiff LeafNode) TreeSyncAddLeaf unit := fun self =>
  if leaf_index >=? TreeSize.leaf_count (size self) then
    match fuel with
    | O => (Panic, self)
    | S fuel' =>
        match Diff.grow_tree self with
        | Ok self' => grow_until fuel' leaf_index self'
        | Err _ => (Err AddLeafTreeFull, self)
        | Panic => (Panic, self)
        end
    end
  else (Ok tt, self).

(** Adds the leaf to the unmerged leaves of the non-blank nodes of a path. *)
Definition mark_unmerged (leaf_index : LeafNodeIndex.t) (path : list ParentNodeIndex.t) self :
    TreeSyncDiff LeafNode :=
  foldl (fun d parent_index => Diff.parent_mut d parent_index (fmap (add_unmerged_leaf leaf_index)))
    self path.

Definition add_leaf (leaf_node : LeafNode) :
    stateful (TreeSyncDiff LeafNode) TreeSyncAddLeaf LeafNodeIndex.t :=
  leaf_index ← reading (fun self => returns (free_leaf_index self));
  _ ← grow_until 32 leaf_index;
  _ ← modifying (fun self => Diff.replace_leaf self leaf_index (Some leaf_node));
  direct_path ← reading (fun self => returns (Diff.direct_path self leaf_index));
  _ ← modifying (mark_unmerged leaf_index direct_path);
  mret leaf_index.

(** ** Tree hashes *)
Fixpoint compute_tree_hash_upto (fuel : nat) self (ciphersuite : Ciphersuite) (node_index : TreeNodeIndex)
    (exclusion_list : gset LeafNodeIndex.t) : result LibraryError bytes :=
  match node_index with
  | Leaf leaf_index =>
      if bool_decide (leaf_index ∈ exclusion_list) then leaf_tree_hash None ciphersuite leaf_index
      else leaf_tree_hash (Diff.leaf self leaf_index) ciphersuite leaf_index
  | Parent parent_index =>
      match fuel with
      | O => Panic
      | S fuel' =>
          left_hash ← compute_tree_hash_upto fuel' self ciphersuite (Diff.left_child self parent_index) exclusion_list;
          right_hash ← compute_tree_hash_upto fuel' self ciphersuite (Diff.right_child self parent_index) exclusion_list;
          parent_tree_hash (Diff.parent self parent_index) ciphersuite left_hash right_hash exclusion_list
      end
  end.

Definition compute_tree_hash self (ciphersuite : Ciphersuite) (node_index : TreeNodeIndex)
    (exclusion_list : gset LeafNodeIndex.t) : result LibraryError bytes :=
  compute_tree_hash_upto 32 self ciphersuite node_index exclusion_list.

Definition compute_tree_hashes self (ciphersuite : Ciphersuite) : result LibraryError bytes :=
  compute_tree_hash self ciphersuite (Diff.root self) ∅.

(** ** Parent hashes *)

(** The loop of [set_parent_hashes], from the root down: each node gets the hash
    of the one above it.  Returns the nodes in that order and the last hash. *)
Fixpoint chain_parent_hashes self (ciphersuite : Ciphersuite)
    (path : list (ParentNodeIndex.t * ParentNode)) (copath : list TreeNodeIndex)
    (previous_parent_hash : bytes) :
    result ApplyUpdatePathError (list (ParentNodeIndex.t * ParentNode) * bytes) :=
  match path, copath with
  | (index, path_node) :: path', copath_node :: copath' =>
      let path_node := set_parent_hash path_node previous_parent_hash in
      tree_hash ← map_err UpdatePathLibraryError (compute_tree_hash self ciphersuite copath_node ∅);
      hash ← map_err UpdatePathLibraryError (compute_parent_hash path_node ciphersuite tree_hash);
      '(nodes, last) ← chain_parent_hashes self ciphersuite path' copath' hash;
      Ok ((index, path_node) :: nodes, last)
  | _, _ => Ok (path, previous_parent_hash)
  end.

(** Returns the updated path and the parent hash of the leaf. *)
Definition set_parent_hashes self (ciphersuite : Ciphersuite)
    (path : list (ParentNodeIndex.t * ParentNode)) (leaf_index : LeafNodeIndex.t) :
    result ApplyUpdatePathError (list (ParentNodeIndex.t * ParentNode) * bytes) :=
  match path with
  | [] => Ok ([], [])
  | _ =>
      copath ← returns (filtered_copath self leaf_index);
      if negb (length copath =? length path)%nat then Err PathLengthMismatch
      else
        '(nodes, hash) ← chain_parent_hashes self ciphersuite (reverse path) (reverse copath) [];
        Ok (reverse nodes, hash)
  end.

(** Assigns the nodes of the path, in order. *)
Definition set_nodes (path : list (ParentNodeIndex.t * ParentNode)) self : TreeSyncDiff LeafNode :=
  foldl (fun d '(index, node) => Diff.parent_mut d index (fun _ => Some node)) self path.

Definition blank_nodes (path : list ParentNodeIndex.t) self : TreeSyncDiff LeafNode :=
  foldl (fun d index => Diff.parent_mut d index (fun _ => None)) self path.

Definition process_update_path (ciphersuite : Ciphersuite) (leaf_index : LeafNodeIndex.t)
    (path : list (ParentNodeIndex.t * ParentNode)) :
    stateful (TreeSyncDiff LeafNode) ApplyUpdatePathError bytes :=
  '(path, hash) ← reading (fun self => set_parent_hashes self ciphersuite path leaf_index);
  direct_path_nodes ← reading (fun self => returns (Diff.direct_path self leaf_index));
  _ ← modifying (blank_nodes direct_path_nodes);
  _ ← modifying (set_nodes path);
  mret hash.

(** The node of a resolution carries the parent hash. *)
Definition carries (hash : bytes) (entry : TreeNodeIndex * NodeReference LeafNode) : Prop :=
  match entry.2 with
  | RefLeaf leaf => leaf_parent_hash leaf = Some hash
  | RefParent parent => parent_hash parent = hash
  end.

#[export] Instance carries_dec hash entry : Decision (carries hash entry).
Proof. unfold carries. destruct (entry.2); apply _. Defined.

(** The body of the loop of [verify_parent_hashes] on a non-blank node. *)
Definition verify_parent_hash self (ciphersuite : Ciphersuite) (parent_index : ParentNodeIndex.t)
    (parent_node : ParentNode) : result TreeSyncParentHashError unit :=
  let left_child := Diff.left_child self parent_index in
  let right_child := Diff.right_child self parent_index in
  let exclusion_list : gset LeafNodeIndex.t := list_to_set (unmerged_leaves parent_node) in
  oth_left ← map_err ParentHashLibraryError (compute_tree_hash self ciphersuite left_child exclusion_list);
  oth_right ← map_err ParentHashLibraryError (compute_tree_hash self ciphersuite right_child exclusion_list);
  parent_hash_left ← map_err ParentHashLibraryError (compute_parent_hash parent_node ciphersuite oth_right);
  parent_hash_right ← map_err ParentHashLibraryError (compute_parent_hash parent_node ciphersuite oth_left);
  left_resolution ← returns (resolution self left_child exclusion_list);
  right_resolution ← returns (resolution self right_child exclusion_list);
  let left_descendant := list_find (carries parent_hash_left) left_resolution in
  let right_descendant := list_find (carries parent_hash_right) right_resolution in
  if xorb (bool_decide (left_descendant = None)) (bool_decide (is_Some right_descendant))
  then Err InvalidParentHash else Ok tt.

Definition verify_parent_hashes self (ciphersuite : Ciphersuite) : result TreeSyncParentHashError unit :=
  parents ← returns (Diff.parents self);
  try_fold (fun _ '(parent_index, parent) =>
    match parent with
    | Some parent_node => verify_parent_hash self ciphersuite parent_index parent_node
    | None => Ok tt
    end) parents tt.

(** ** Key lookup *)
Definition node_encryption_key (node_ref : NodeReference LeafNode) : bytes :=
  match node_ref with RefLeaf leaf => leaf_encryption_key leaf | RefParent parent => encryption_key parent end.

(** The public keys of a resolution. *)
Definition resolution_keys (resolution : Resolution) : list bytes :=
  (fun entry => node_encryption_key entry.2) <$> resolution.

Definition subtree_root_position self (leaf_index_1 leaf_index_2 : LeafNodeIndex.t) :
    result TreeSyncDiffError nat :=
  subtree_root_node_index ← returns (Diff.lowest_common_ancestor self leaf_index_1 leaf_index_2);
  direct_path ← returns (filtered_direct_path self leaf_index_1);
  ok_or (fst <$> list_find (fun index => index = subtree_root_node_index) direct_path)
    (DiffLibraryError (CustomError "index should be in the direct path")).

(** [find_map] over the enumerated keys: the first that is owned. *)
Fixpoint find_owned (keys : list bytes) (owned_keys : list (bytes * bytes)) (position : nat) :
    option (bytes * nat) :=
  match keys with
  | [] => None
  | pk :: keys' =>
      match list_find (fun owned_keypair => owned_keypair.1 = pk) owned_keys with
      | Some (_, keypair) => Some (keypair.2, position)
      | None => find_owned keys' owned_keys (S position)
      end
  end.

Definition decryption_key self (sender_leaf_index : LeafNodeIndex.t)
    (excluded_indices : gset LeafNodeIndex.t) (owned_keys : list (bytes * bytes))
    (leaf_index : LeafNodeIndex.t) : result TreeSyncDiffError (bytes * nat) :=
  copath_node ← returns (Diff.subtree_root_copath_node self sender_leaf_index leaf_index);
  resolution ← returns (resolution self copath_node excluded_indices);
  let sender_copath_resolution := resolution_keys resolution in
  ok_or (find_owned sender_copath_resolution owned_keys 0) NoPrivateKeyFound.

Definition filtered_common_direct_path self (leaf_index_1 leaf_index_2 : LeafNodeIndex.t) :
    option (list ParentNodeIndex.t) :=
  x_path ← filtered_direct_path self leaf_index_1;
  y_path ← filtered_direct_path self leaf_index_2;
  Some (reverse (common_prefix (reverse x_path) (reverse y_path))).

Definition encryption_keys self (leaf_index : LeafNodeIndex.t) : option (list bytes) :=
  let own := match Diff.leaf self leaf_index with Some leaf => [leaf_encryption_key leaf] | None => [] end in
  path ← filtered_direct_path self leaf_index;
  Some (own ++ omap (fun parent_index =>
          match Diff.parent self parent_index with
          | Some node =>
              if bool_decide (leaf_index ∈ unmerged_leaves node) then None else Some (encryption_key node)
          | None => None
          end) path).
End TSDiff.
End TSDiff.
Arguments TSDiff.resolution : simpl never.
Arguments TSDiff.compute_tree_hash : simpl never.
#[global] Strategy 100 [TSDiff.resolution TSDiff.compute_tree_hash].
#[global] Strategy 200 [TSDiff.resolution_upto TSDiff.compute_tree_hash_upto].

(** ** Exported ratchet trees *)
Module RTree.
Section RTree.
Context {LeafNode : Type}.

(** [RatchetTree::trimmed]. *)
Definition trimmed (nodes : list (option (Node LeafNode))) : list (option (Node LeafNode)) :=
  match rfind_index (fun _ node => bool_decide (is_Some node)) nodes with
  | Some rightmost_nonempty_position => take (rightmost_nonempty_position + 1) nodes
  | None => []
  end.

(** The loop that alternates parents and leaves. *)
Fixpoint interleave_nodes (leaves : list (option LeafNode)) (parents : list (option ParentNode)) :
    list (option (Node LeafNode)) :=
  match leaves, parents with
  | leaf :: leaves', parent :: parents' =>
      (ParentNodeN <$> parent) :: (LeafNodeN <$> leaf) :: interleave_nodes leaves' parents'
  | _, _ => []
  end.

(** The free function [export_ratchet_tree] of diff.rs. *)
Definition export_ratchet_tree (leaves : list (LeafNodeIndex.t * option LeafNode))
    (parents : list (ParentNodeIndex.t * option ParentNode)) (max_length : LeafNodeIndex.t) :
    list (option (Node LeafNode)) :=
  match take (Z.to_nat max_length + 1) (snd <$> leaves) with
  | [] => trimmed []
  | leaf :: leaves' =>
      let padding := replicate (length leaves - 1 - length parents) None in
      let parents' := take (Z.to_nat max_length) (snd <$> parents) ++ padding in
      trimmed ((LeafNodeN <$> leaf) :: interleave_nodes leaves' parents')
  end.

(** The loop of [from_ratchet_tree] that splits the nodes by position. *)
Fixpoint split_ratchet_tree (node_index : Z) (nodes : list (option (Node LeafNode))) :
    result PublicTreeError (list (option LeafNode) * list (option ParentNode)) :=
  match nodes with
  | [] => Ok ([], [])
  | node_option :: nodes' =>
      if node_index mod 2 =? 0 then
        match node_option with
        | Some (ParentNodeN _) => Err MalformedTree
        | Some (LeafNodeN leaf) =>
            '(leaves, parents) ← split_ratchet_tree (node_index + 1) nodes';
            Ok (Some leaf :: leaves, parents)
        | None =>
            '(leaves, parents) ← split_ratchet_tree (node_index + 1) nodes';
            Ok (None :: leaves, parents)
        end
      else
        match node_option with
        | Some (LeafNodeN _) => Err MalformedTree
        | Some (ParentNodeN parent) =>
            '(leaves, parents) ← split_ratchet_tree (node_index + 1) nodes';
            Ok (leaves, Some parent :: parents)
        | None =>
            '(leaves, parents) ← split_ratchet_tree (node_index + 1) nodes';
            Ok (leaves, None :: parents)
        end
  end.

(** "Unmerged leaves must point into the tree". *)
Definition unmerged_in_tree (leaf_count : Z) (parent : option ParentNode) : bool :=
  match parent with
  | Some parent_node =>
      match last (unmerged_leaves parent_node) with
      | Some last_unmerged_leaf_index => last_unmerged_leaf_index <? leaf_count
      | None => true
      end
  | None => true
  end.
End RTree.
End RTree.

(** ** TreeSync *)
Record TreeSync (LeafNode : Type) : Type := mkTreeSync {
  ts_tree : ABinaryTree (option LeafNode) (option ParentNode);
  ts_tree_hash : bytes;
}.
Arguments mkTreeSync {LeafNode}.
Arguments ts_tree {LeafNode}.
Arguments ts_tree_hash {LeafNode}.

Record StagedTreeSyncDiff (LeafNode : Type) : Type := mkStagedTreeSync {
  ts_diff : StagedAbDiff (option LeafNode) (option ParentNode);
  ts_new_tree_hash : bytes;
}.
Arguments mkStagedTreeSync {LeafNode}.
Arguments ts_diff {LeafNode}.
Arguments ts_new_tree_hash {LeafNode}.

Module TSync.
Section TSync.
Context {OC : OpenMlsCrypto} {TC : TlsCodec} {LeafNode : Type} {LO : LeafNodeOps LeafNode}.

(** [TreeSyncDiff::into_staged_diff]. *)
Definition into_staged_diff (self : TreeSyncDiff LeafNode) (ciphersuite : Ciphersuite) :
    result LibraryError (StagedTreeSyncDiff LeafNode) :=
  new_tree_hash ← TSDiff.compute_tree_hashes self ciphersuite;
  Ok (mkStagedTreeSync (Diff.into_staged self) new_tree_hash).

Definition empty_diff (self : TreeSync LeafNode) : TreeSyncDiff LeafNode := Tree.empty_diff (ts_tree self).

Definition merge_diff (self : TreeSync LeafNode) (tree_sync_diff : StagedTreeSyncDiff LeafNode) :
    TreeSync LeafNode :=
  mkTreeSync (Tree.merge_diff (ts_tree self) (ts_diff tree_sync_diff)) (ts_new_tree_hash tree_sync_diff).

Definition populate_parent_hashes (self : TreeSync LeafNode) (ciphersuite : Ciphersuite) :
    result LibraryError (TreeSync LeafNode) :=
  staged_diff ← into_staged_diff (empty_diff self) ciphersuite;
  Ok (merge_diff self staged_diff).

Definition verify_parent_hashes (self : TreeSync LeafNode) (ciphersuite : Ciphersuite) :
    result TreeSyncParentHashError unit :=
  TSDiff.verify_parent_hashes (empty_diff self) ciphersuite.

Definition from_ratchet_tree (ciphersuite : Ciphersuite) (ratchet_tree : list (option (Node LeafNode))) :
    result TreeSyncFromNodesError (TreeSync LeafNode) :=
  '(leaf_nodes, parent_nodes) ← map_err FromNodesPublicTreeError (RTree.split_ratchet_tree 0 ratchet_tree);
  let leaf_count := u32.wrap (Z.of_nat (length leaf_nodes)) in
  if negb (forallb (RTree.unmerged_in_tree leaf_count) parent_nodes)
  then Err (FromNodesPublicTreeError MalformedTree)
  else
    tree ← map_err (fun _ => FromNodesPublicTreeError MalformedTree)
             (Tree.from_components leaf_nodes parent_nodes);
    let tree_sync := mkTreeSync tree [] in
    _ ← map_err (fun e => match e with
                  | ParentHashLibraryError e => FromNodesLibraryError e
                  | InvalidParentHash => FromNodesPublicTreeError PublicInvalidParentHash
                  end) (verify_parent_hashes tree_sync ciphersuite);
    map_err FromNodesLibraryError (populate_parent_hashes tree_sync ciphersuite).

Definition free_leaf_index (self : TreeSync LeafNode) : option LeafNodeIndex.t :=
  TSDiff.free_leaf_index (empty_diff self).

Definition full_leaves (self : TreeSync LeafNode) : list (LeafNodeIndex.t * LeafNode) :=
  omap (fun '(index, leaf) => pair index <$> leaf) (Tree.leaves (ts_tree self)).

Definition full_parents (self : TreeSync LeafNode) : list (ParentNodeIndex.t * ParentNode) :=
  omap (fun '(index, parent) => pair index <$> parent) (Tree.parents (ts_tree self)).

Definition rightmost_full_leaf (self : TreeSync LeafNode) : LeafNodeIndex.t :=
  TSDiff.last_full (Tree.leaves (ts_tree self)).

Definition export_ratchet_tree (self : TreeSync LeafNode) : list (option (Node LeafNode)) :=
  RTree.export_ratchet_tree (Tree.leaves (ts_tree self)) (Tree.parents (ts_tree self))
    (rightmost_full_leaf self).

Definition leaf (self : TreeSync LeafNode) (leaf_index : LeafNodeIndex.t) : option LeafNode :=
  Tree.leaf (ts_tree self) leaf_index.

Definition parent (self : TreeSync LeafNode) (node_index : ParentNodeIndex.t) : option ParentNode :=
  Tree.parent (ts_tree self) node_index.

Definition is_leaf_in_tree (self : TreeSync LeafNode) (leaf_index : LeafNodeIndex.t) : bool :=
  is_node_in_tree (Leaf leaf_index) (Tree.tree_size (ts_tree self)).

Definition owned_encryption_keys (self : TreeSync LeafNode) (leaf_index : LeafNodeIndex.t) :
    option (list bytes) := TSDiff.encryption_keys (empty_diff self) leaf_index.

(** [TreeSyncDiff::export_ratchet_tree]. *)
Definition diff_export_ratchet_tree (self : TreeSyncDiff LeafNode) : option (list (option (Node LeafNode))) :=
  leaves ← Diff.leaves self;
  parents ← Diff.parents self;
  Some (RTree.export_ratchet_tree leaves parents (TSDiff.last_full leaves)).

(** [StagedTreeSyncDiff::export_ratchet_tree]. *)
Definition staged_export_ratchet_tree (self : StagedTreeSyncDiff LeafNode)
    (original_tree : ABinaryTree (option LeafNode) (option ParentNode)) :
    option (list (option (Node LeafNode))) :=
  leaves ← Staged.leaves (ts_diff self) original_tree;
  parents ← Staged.parents (ts_diff self) original_tree;
  Some (RTree.export_ratchet_tree leaves parents (TSDiff.last_full leaves)).
End TSync.
End TSync.
