(* ===== verification/LeafNode.v ===== *)
(** * Leaf nodes

    Models openmls/src/treesync/node/leaf_node.rs with its capabilities
    (leaf_node/capabilities.rs), key_packages/lifetime.rs, and the encodings that are
    signed. The random generator and the signer are arguments. *)
From S2P Require Import Prelude TreeMath BinaryTree Crypto Extensions TreeSync.

(** ** Encodings *)
Section Encodings.
Context {TC : TlsCodec}.

Definition tls_credential (self : Credential) : option bytes :=
  tls_struct [CredentialType.tls_serialize (credential_type self); tls_vlbytes (serialized_credential_content self)].

Definition tls_required_capabilities (self : RequiredCapabilitiesExtension) : option bytes :=
  tls_struct [tls_vec ExtensionType.tls_serialize (required_extension_types self);
              tls_vec ProposalType.tls_serialize (required_proposal_types self);
              tls_vec CredentialType.tls_serialize (required_credential_types self)].

Definition tls_external_sender (self : ExternalSender) : option bytes :=
  tls_struct [tls_vlbytes (external_signature_key self); tls_credential (external_credential self)].

(** [Extension::tls_serialize]: the type, then the length-prefixed data. *)
Definition tls_extension (self : Extension.t) : option bytes :=
  extension_type ← ExtensionType.tls_serialize (Extension.extension_type self);
  extension_data ← match self with
    | Extension.ApplicationId key_id => tls_vlbytes key_id
    | Extension.RatchetTree ratchet_tree => Some ratchet_tree
    | Extension.RequiredCapabilities e => tls_required_capabilities e
    | Extension.ExternalPub external_pub => tls_vlbytes external_pub
    | Extension.ExternalSenders e => tls_vec tls_external_sender e
    | Extension.LastResort => Some []
    | Extension.Unknown _ data => Some data
    end;
  data ← tls_vlbytes extension_data;
  Some (extension_type ++ data).

Definition tls_extensions (self : Extensions) : option bytes := tls_vec tls_extension self.
End Encodings.

(** ** Lifetimes *)
Inductive LeafNodeLifetimePolicy : Type := Verify | Skip | VerifyAt (unix_seconds : Z).

Record Lifetime : Type := mkLifetime { not_before : Z; not_after : Z }.

Definition DEFAULT_KEY_PACKAGE_LIFETIME_SECONDS : Z := 60 * 60 * 24 * 28 * 3.
Definition DEFAULT_KEY_PACKAGE_LIFETIME_MARGIN_SECONDS : Z := 60 * 60.
Definition MAX_LEAF_NODE_LIFETIME_RANGE_SECONDS : Z :=
  DEFAULT_KEY_PACKAGE_LIFETIME_MARGIN_SECONDS + DEFAULT_KEY_PACKAGE_LIFETIME_SECONDS.

(** [clock] is [SystemTime::now()] in seconds since the Unix epoch. Negative:
    before the epoch. *)
Module LifeTime.
Definition u64_wrap (z : Z) : Z := z mod 2 ^ 64.

Definition new {E} (clock t : Z) : result E Lifetime :=
  if clock <? 0 then Panic
  else Ok (mkLifetime (u64_wrap (clock - DEFAULT_KEY_PACKAGE_LIFETIME_MARGIN_SECONDS)) (u64_wrap (clock + t))).

Definition validate_at (self : Lifetime) (now : Z) : result LifetimeError unit :=
  if not_after self <=? now then Err (Expired (not_after self) now)
  else if not_before self >? now then Err (NotValidYet (not_before self) now)
  else Ok tt.

Definition validate_with_time (self : Lifetime) (now : Z) : result LifetimeError unit :=
  if now <? 0 then Err SystemTimeBeforeUnixEpoch else validate_at self now.

Definition validate (self : Lifetime) (clock : Z) : result LifetimeError unit := validate_with_time self clock.

Definition validate_with_policy (self : Lifetime) (clock : Z) (policy : LeafNodeLifetimePolicy) :
    result LifetimeError unit :=
  match policy with
  | Verify => validate self clock
  | Skip => Ok tt
  | VerifyAt unix_seconds => validate_at self unix_seconds
  end.

Definition has_acceptable_range (self : Lifetime) : bool :=
  Z.max 0 (not_after self - not_before self) <=? MAX_LEAF_NODE_LIFETIME_RANGE_SECONDS.
End LifeTime.

(** ** Capabilities *)
Inductive CapabilitiesPolicy : Type := Reject | Widen.

Record Capabilities : Type := mkCapabilities {
  cap_versions : list ProtocolVersion.t;
  cap_ciphersuites : list Z;
  cap_extensions : list ExtensionType.t;
  cap_proposals : list ProposalType.t;
  cap_credentials : list CredentialType.t;
}.

Module Caps.
Definition default_versions : list ProtocolVersion.t := [ProtocolVersion.Mls10].

Definition new (versions : option (list ProtocolVersion.t)) (ciphersuites : option (list Ciphersuite))
    (extensions : option (list ExtensionType.t)) (proposals : option (list ProposalType.t))
    (credentials : option (list CredentialType.t)) : Capabilities :=
  mkCapabilities (default default_versions versions)
    (match ciphersuites with Some c => Suite.to_u16 <$> c | None => [] end)
    (default [] extensions) (default [] proposals) (default [] credentials).

Definition empty : Capabilities := mkCapabilities [] [] [] [] [].
Definition default_capabilities : Capabilities := mkCapabilities default_versions [] [] [] [].

(** [supported_ciphersuites] is what the crypto provider reports. *)
Definition for_provider (supported_ciphersuites : list Ciphersuite) : Capabilities :=
  mkCapabilities default_versions (Suite.to_u16 <$> supported_ciphersuites) [] [] [].

Implicit Types self : Capabilities.

Definition supports_required_capabilities self (required_capabilities : RequiredCapabilitiesExtension) :
    result LeafNodeValidationError unit :=
  if existsb (fun e => negb (ExtensionType.is_default e) && negb (bool_decide (e ∈ cap_extensions self)))
       (required_extension_types required_capabilities)
  then Err UnsupportedExtensions
  else if existsb (fun p => negb (ProposalType.is_default p) && negb (bool_decide (p ∈ cap_proposals self)))
       (required_proposal_types required_capabilities)
  then Err UnsupportedProposals
  else if existsb (fun c => negb (bool_decide (c ∈ cap_credentials self))) (required_credential_types required_capabilities)
  then Err UnsupportedCredentials
  else Ok tt.

(** The early return on an empty list of non-default types is the empty [all]. *)
Definition contains_extensions self (exts : Extensions) : bool :=
  forallb (fun e => bool_decide (e ∈ cap_extensions self))
    (filter (fun e => ExtensionType.is_default e = false) (Extension.extension_type <$> exts)).

Definition contains_credential self (credential_type : CredentialType.t) : bool :=
  bool_decide (credential_type ∈ cap_credentials self).
Definition contains_version self (version : ProtocolVersion.t) : bool := bool_decide (version ∈ cap_versions self).
Definition contains_ciphersuite self (ciphersuite : Z) : bool := bool_decide (ciphersuite ∈ cap_ciphersuites self).

Definition ensure_version self (version : ProtocolVersion.t) : Capabilities :=
  if contains_version self version then self
  else mkCapabilities (cap_versions self ++ [version]) (cap_ciphersuites self) (cap_extensions self) (cap_proposals self) (cap_credentials self).

Definition push_extension self (e : ExtensionType.t) : Capabilities :=
  if negb (ExtensionType.is_default e) && negb (bool_decide (e ∈ cap_extensions self))
  then mkCapabilities (cap_versions self) (cap_ciphersuites self) (cap_extensions self ++ [e]) (cap_proposals self) (cap_credentials self)
  else self.

Definition widen_for_extensions self (exts : Extensions) : Capabilities :=
  foldl push_extension self (Extension.extension_type <$> exts).

Definition widen_for_key_package self (key_package_extensions : Extensions) : Capabilities :=
  widen_for_extensions self key_package_extensions.

Definition widen_for self (ciphersuite : Ciphersuite) (credential_type : CredentialType.t) (leaf_extensions : Extensions) :
    Capabilities :=
  let verifiable_ciphersuite := Suite.to_u16 ciphersuite in
  let self := if contains_ciphersuite self verifiable_ciphersuite then self
              else mkCapabilities (cap_versions self) (cap_ciphersuites self ++ [verifiable_ciphersuite]) (cap_extensions self)
                     (cap_proposals self) (cap_credentials self) in
  let self := if contains_credential self credential_type then self
              else mkCapabilities (cap_versions self) (cap_ciphersuites self) (cap_extensions self) (cap_proposals self)
                     (cap_credentials self ++ [credential_type]) in
  widen_for_extensions self leaf_extensions.
End Caps.

(** [resolve_capabilities] and its variant for a leaf that is already in a tree. *)
Definition resolve_capabilities (capabilities : option Capabilities) (policy : option CapabilitiesPolicy) :
    Capabilities * CapabilitiesPolicy :=
  match capabilities with
  | Some capabilities => (capabilities, default Reject policy)
  | None => (Caps.default_capabilities, default Widen policy)
  end.

Definition resolve_capabilities_for_existing_leaf (capabilities : option Capabilities)
    (policy : option CapabilitiesPolicy) (existing : Capabilities) : Capabilities * CapabilitiesPolicy :=
  match capabilities with
  | Some _ => resolve_capabilities capabilities policy
  | None => (existing, default Reject policy)
  end.

(** [random_grease_value] for the byte the generator returns, and
    [Capabilities::with_grease]: one value per list that has none, each from the
    next random byte. Running out of bytes is the [expect] on the generator. *)
Definition random_grease_value (byte : Z) : Z := nth (Z.to_nat (byte mod 15)) GREASE_VALUES 0.

Definition draw_grease : stateful (list Z) LibraryError Z := fun rand =>
  match rand with byte :: rand' => (Ok (random_grease_value byte), rand') | [] => (Panic, []) end.

Definition greased {A} (is_grease : A -> bool) (grease : Z -> A) (l : list A) : stateful (list Z) LibraryError (list A) :=
  if existsb is_grease l then mret l else v ← draw_grease; mret (l ++ [grease v]).

Definition with_grease (self : Capabilities) : stateful (list Z) LibraryError Capabilities :=
  ciphersuites ← greased is_grease_value id (cap_ciphersuites self);
  extensions ← greased ExtensionType.is_grease ExtensionType.Grease (cap_extensions self);
  proposals ← greased ProposalType.is_grease ProposalType.Grease (cap_proposals self);
  credentials ← greased CredentialType.is_grease CredentialType.Grease (cap_credentials self);
  mret (mkCapabilities (cap_versions self) ciphersuites extensions proposals credentials).

(** ** Leaf nodes *)
Inductive LeafNodeSource : Type :=
  | SourceKeyPackage (lifetime : Lifetime)
  | SourceUpdate
  | SourceCommit (parent_hash : bytes).

Record LeafNodePayload : Type := mkLeafNodePayload {
  payload_encryption_key : bytes;
  payload_signature_key : bytes;
  payload_credential : Credential;
  payload_capabilities : Capabilities;
  payload_source : LeafNodeSource;
  payload_extensions : Extensions;
}.

Record LeafNode : Type := mkLeafNode { payload : LeafNodePayload; signature : bytes }.

Record CredentialWithKey : Type := mkCredentialWithKey { cwk_credential : Credential; cwk_signature_key : bytes }.

Module LNode.
Definition parent_hash (self : LeafNode) : option bytes :=
  match payload_source (payload self) with SourceCommit ph => Some ph | _ => None end.

Definition life_time (self : LeafNode) : option Lifetime :=
  match payload_source (payload self) with SourceKeyPackage life_time => Some life_time | _ => None end.

Definition supports_extension (self : LeafNode) (extension_type : ExtensionType.t) : bool :=
  ExtensionType.is_default extension_type
  || bool_decide (extension_type ∈ cap_extensions (payload_capabilities (payload self))).

Definition check_extension_support (self : LeafNode) (extensions : list ExtensionType.t) :
    result LeafNodeValidationError unit :=
  if existsb (fun e => negb (bool_decide (e ∈ cap_extensions (payload_capabilities (payload self)))))
       (filter (fun e => ExtensionType.is_default e = false) extensions)
  then Err UnsupportedExtensions else Ok tt.

(** [LeafNodePayload::validate_locally]. *)
Definition validate_locally (self : LeafNodePayload) : result LeafNodeValidationError unit :=
  let invalid_extension_types :=
    filter (fun ext => ExtensionType.is_valid_in_leaf_node (Extension.extension_type ext) = false) (payload_extensions self) in
  if negb (bool_decide (invalid_extension_types = [])) then Err UnsupportedExtensions
  else if negb (Caps.contains_extensions (payload_capabilities self) (payload_extensions self))
  then Err ExtensionsNotInCapabilities
  else if negb (Caps.contains_credential (payload_capabilities self) (credential_type (payload_credential self)))
  then Err CredentialNotInCapabilities
  else Ok tt.

Definition set_capabilities (self : LeafNodePayload) (capabilities : Capabilities) : LeafNodePayload :=
  mkLeafNodePayload (payload_encryption_key self) (payload_signature_key self) (payload_credential self) capabilities
    (payload_source self) (payload_extensions self).

End LNode.

(** ** What the group requires of a leaf *)
Record LeafNodeConstraints : Type := mkLeafNodeConstraints {
  lc_required_capabilities : list RequiredCapabilitiesExtension;
  lc_group_context_extensions : gset ExtensionType.t;
  lc_credentials_in_use : gset CredentialType.t;
  lc_credentials_supported_by_all : gset CredentialType.t;
}.

Module Constraints.
Definition default_constraints : LeafNodeConstraints := mkLeafNodeConstraints [] ∅ ∅ ∅.

Definition add_group_context_extensions (self : LeafNodeConstraints) (extensions : Extensions) : LeafNodeConstraints :=
  mkLeafNodeConstraints
    (match Exts.required_capabilities extensions with
     | Some required_capabilities => lc_required_capabilities self ++ [required_capabilities]
     | None => lc_required_capabilities self
     end)
    (lc_group_context_extensions self ∪ list_to_set (Extension.extension_type <$> extensions))
    (lc_credentials_in_use self) (lc_credentials_supported_by_all self).

(** The loop of [new] over the members: the types in use, and the types all of
    the members so far support. *)
Definition add_member (acc : gset CredentialType.t * option (gset CredentialType.t)) (member : LeafNode) :
    gset CredentialType.t * option (gset CredentialType.t) :=
  let '(credentials_in_use, credentials_supported_by_all) := acc in
  let supported := cap_credentials (payload_capabilities (payload member)) in
  let all := default (list_to_set supported) credentials_supported_by_all in
  ({[credential_type (payload_credential (payload member))]} ∪ credentials_in_use,
   Some (filter (fun credential_type => credential_type ∈ supported) all)).

Definition new (extensions : Extensions) (members : list LeafNode) : LeafNodeConstraints :=
  let '(credentials_in_use, credentials_supported_by_all) := foldl add_member (∅, None) members in
  let constraints := mkLeafNodeConstraints [] ∅ credentials_in_use (default ∅ credentials_supported_by_all) in
  add_group_context_extensions constraints extensions.

Definition from_group_context_extensions (extensions : Extensions) : LeafNodeConstraints := new extensions [].

Fixpoint check_required (capabilities : Capabilities) (required : list RequiredCapabilitiesExtension) :
    result LeafNodeValidationError unit :=
  match required with
  | [] => Ok tt
  | required_capabilities :: required' =>
      _ ← Caps.supports_required_capabilities capabilities required_capabilities;
      check_required capabilities required'
  end.

Definition check (self : LeafNodeConstraints) (capabilities : Capabilities) (credential_type : CredentialType.t) :
    result LeafNodeValidationError unit :=
  _ ← check_required capabilities (lc_required_capabilities self);
  if existsb (fun extension_type => negb (ExtensionType.is_default extension_type)
                && negb (bool_decide (extension_type ∈ cap_extensions capabilities)))
       (elements (lc_group_context_extensions self))
  then Err UnsupportedExtensions
  else if negb (bool_decide (lc_credentials_supported_by_all self = ∅))
          && negb (bool_decide (credential_type ∈ lc_credentials_supported_by_all self))
  then Err LeafNodeCredentialNotSupportedByMember
  else if existsb (fun in_use => negb (Caps.contains_credential capabilities in_use))
       (elements (lc_credentials_in_use self))
  then Err MemberCredentialNotSupportedByLeafNode
  else Ok tt.
End Constraints.

(** [LeafNodePayload::enforce_capabilities]: the payload with its final
    capabilities. *)
Definition enforce_capabilities (self : LeafNodePayload) (ciphersuite : Ciphersuite) (version : ProtocolVersion.t)
    (constraints : LeafNodeConstraints) (policy : CapabilitiesPolicy) : result LeafNodeValidationError LeafNodePayload :=
  let self := match policy with
              | Widen => LNode.set_capabilities self
                  (Caps.widen_for (payload_capabilities self) ciphersuite (credential_type (payload_credential self))
                     (payload_extensions self))
              | Reject => self
              end in
  let self := LNode.set_capabilities self (Caps.ensure_version (payload_capabilities self) version) in
  _ ← LNode.validate_locally self;
  if negb (Caps.contains_ciphersuite (payload_capabilities self) (Suite.to_u16 ciphersuite))
  then Err CiphersuiteNotInCapabilities
  else
    _ ← Constraints.check constraints (payload_capabilities self) (credential_type (payload_credential self));
    Ok self.

(** ** Signing *)
Record TreePosition : Type := mkTreePosition { position_group_id : bytes; position_leaf_index : LeafNodeIndex.t }.

Inductive TreeInfoTbs : Type := TbsKeyPackage | TbsUpdate (p : TreePosition) | TbsCommit (p : TreePosition).

Record LeafNodeTbs : Type := mkLeafNodeTbs { tbs_payload : LeafNodePayload; tbs_tree_info : TreeInfoTbs }.

Definition LEAF_NODE_SIGNATURE_LABEL : string := "LeafNodeTBS".

Module LeafTbs.
Definition new (ciphersuite : Ciphersuite) (encryption_key : bytes) (credential_with_key : CredentialWithKey)
    (capabilities : Capabilities) (leaf_node_source : LeafNodeSource) (extensions : Extensions)
    (tree_info_tbs : TreeInfoTbs) (constraints : LeafNodeConstraints) (capabilities_policy : CapabilitiesPolicy) :
    result LeafNodeValidationError LeafNodeTbs :=
  let payload := mkLeafNodePayload encryption_key (cwk_signature_key credential_with_key)
                   (cwk_credential credential_with_key) capabilities leaf_node_source extensions in
  payload ← enforce_capabilities payload ciphersuite ProtocolVersion.default constraints capabilities_policy;
  Ok (mkLeafNodeTbs payload tree_info_tbs).
End LeafTbs.

Section Signing.
Context {OC : OpenMlsCrypto} {TC : TlsCodec}.

Definition tls_lifetime (self : Lifetime) : option bytes :=
  Some (be_bytes 8 (not_before self) ++ be_bytes 8 (not_after self)).

Definition tls_source (self : LeafNodeSource) : option bytes :=
  match self with
  | SourceKeyPackage lifetime => cons 1 <$> tls_lifetime lifetime
  | SourceUpdate => Some [2]
  | SourceCommit ph => cons 3 <$> tls_vlbytes ph
  end.

Definition tls_capabilities (self : Capabilities) : option bytes :=
  tls_struct [tls_vec ProtocolVersion.tls_serialize (cap_versions self);
              tls_vec (fun c => Some (be_bytes 2 c)) (cap_ciphersuites self);
              tls_vec ExtensionType.tls_serialize (cap_extensions self);
              tls_vec ProposalType.tls_serialize (cap_proposals self);
              tls_vec CredentialType.tls_serialize (cap_credentials self)].

Definition tls_payload (self : LeafNodePayload) : option bytes :=
  tls_struct [tls_vlbytes (payload_encryption_key self); tls_vlbytes (payload_signature_key self);
              tls_credential (payload_credential self); tls_capabilities (payload_capabilities self);
              tls_source (payload_source self); tls_extensions (payload_extensions self)].

Definition tls_tree_position (self : TreePosition) : option bytes :=
  tls_struct [tls_vlbytes (position_group_id self); Some (be_bytes 4 (position_leaf_index self))].

Definition tls_tree_info (self : TreeInfoTbs) : option bytes :=
  match self with
  | TbsKeyPackage => Some []
  | TbsUpdate p => tls_tree_position p
  | TbsCommit p => tls_tree_position p
  end.

Definition tls_leaf_node_tbs (self : LeafNodeTbs) : option bytes :=
  tls_struct [tls_payload (tbs_payload self); tls_tree_info (tbs_tree_info self)].

Definition tls_leaf (self : LeafNode) : option bytes :=
  tls_struct [tls_payload (payload self); tls_vlbytes (signature self)].

(** [Signable::sign] of a [LeafNodeTbs]. *)
Definition sign_leaf (self : LeafNodeTbs) (signer : bytes -> option bytes) : result SignatureError LeafNode :=
  signature ← Signable.sign LEAF_NODE_SIGNATURE_LABEL (tls_leaf_node_tbs self) signer;
  Ok (mkLeafNode (tbs_payload self) signature).

(** ** Building leaf nodes *)

(** [EncryptionKeyPair::random] from what the generator returns. *)
Definition EncryptionKeyPair_random (random : result CryptoError Secret) (ciphersuite : Ciphersuite) :
    result LibraryError (bytes * bytes) :=
  ikm ← map_err UnexpectedCryptoError random;
  map_err UnexpectedCryptoError (derive_hpke_keypair_op (Suite.hpke_config ciphersuite) ikm).

Definition new_with_key (ciphersuite : Ciphersuite) (encryption_key : bytes) (credential_with_key : CredentialWithKey)
    (leaf_node_source : LeafNodeSource) (capabilities : Capabilities) (extensions : Extensions)
    (tree_info_tbs : TreeInfoTbs) (constraints : LeafNodeConstraints) (capabilities_policy : CapabilitiesPolicy)
    (signer : bytes -> option bytes) : result LeafNodeBuildError LeafNode :=
  leaf_node_tbs ← map_err LeafNodeBuildValidation
    (LeafTbs.new ciphersuite encryption_key credential_with_key capabilities leaf_node_source extensions
       tree_info_tbs constraints capabilities_policy);
  map_err (fun _ => LeafNodeBuildLibraryError (CustomError "Signing failed")) (sign_leaf leaf_node_tbs signer).

Record NewLeafNodeParams : Type := mkNewLeafNodeParams {
  np_ciphersuite : Ciphersuite;
  np_credential_with_key : CredentialWithKey;
  np_leaf_node_source : LeafNodeSource;
  np_capabilities : Capabilities;
  np_extensions : Extensions;
  np_tree_info_tbs : TreeInfoTbs;
  np_constraints : LeafNodeConstraints;
  np_capabilities_policy : CapabilitiesPolicy;
}.

Definition new_leaf_node (random : result CryptoError Secret) (signer : bytes -> option bytes) (params : NewLeafNodeParams) :
    result LeafNodeBuildError (LeafNode * (bytes * bytes)) :=
  encryption_key_pair ← map_err LeafNodeBuildLibraryError (EncryptionKeyPair_random random (np_ciphersuite params));
  leaf_node ← new_with_key (np_ciphersuite params) encryption_key_pair.1 (np_credential_with_key params)
    (np_leaf_node_source params) (np_capabilities params) (np_extensions params) (np_tree_info_tbs params)
    (np_constraints params) (np_capabilities_policy params) signer;
  Ok (leaf_node, encryption_key_pair).

Definition new_placeholder : LeafNode :=
  mkLeafNode (mkLeafNodePayload [] [] (mkCredential CredentialType.Basic []) Caps.empty SourceUpdate []) [].

Record UpdateLeafNodeParams : Type := mkUpdateLeafNodeParams {
  up_credential_with_key : CredentialWithKey;
  up_capabilities : Capabilities;
  up_extensions : Extensions;
  up_constraints : LeafNodeConstraints;
  up_capabilities_policy : CapabilitiesPolicy;
}.

Definition new_with_parent_hash (random : result CryptoError Secret) (ciphersuite : Ciphersuite) (parent_hash : bytes)
    (leaf_node_params : UpdateLeafNodeParams) (group_id : bytes) (leaf_index : LeafNodeIndex.t)
    (signer : bytes -> option bytes) : result LeafNodeBuildError (LeafNode * (bytes * bytes)) :=
  encryption_key_pair ← map_err LeafNodeBuildLibraryError (EncryptionKeyPair_random random ciphersuite);
  leaf_node_tbs ← map_err LeafNodeBuildValidation
    (LeafTbs.new ciphersuite encryption_key_pair.1 (up_credential_with_key leaf_node_params)
       (up_capabilities leaf_node_params) (SourceCommit parent_hash) (up_extensions leaf_node_params)
       (TbsCommit (mkTreePosition group_id leaf_index)) (up_constraints leaf_node_params)
       (up_capabilities_policy leaf_node_params));
  leaf_node ← map_err (fun _ => LeafNodeBuildLibraryError (CustomError "Signing failed")) (sign_leaf leaf_node_tbs signer);
  Ok (leaf_node, encryption_key_pair).

Record LeafNodeParameters : Type := mkLeafNodeParameters {
  lp_credential_with_key : option CredentialWithKey;
  lp_capabilities : option Capabilities;
  lp_extensions : option Extensions;
  lp_capabilities_policy : option CapabilitiesPolicy;
}.

Definition is_empty (self : LeafNodeParameters) : bool :=
  bool_decide (lp_credential_with_key self = None) && bool_decide (lp_capabilities self = None)
  && bool_decide (lp_extensions self = None).

Inductive LeafNodeUpdateError : Type :=
  | LeafNodeUpdateLibraryError (e : LibraryError)
  | LeafNodeUpdateStorage
  | LeafNodeUpdateSignature (e : SignatureError)
  | LeafNodeUpdateValidation (e : LeafNodeValidationError).

(** [LeafNode::update]: the updated leaf and its key pair, which is also put into
    the key store. [storage_ok] says whether the store accepts the write. *)
Definition update (self : LeafNode) (ciphersuite : Ciphersuite) (random : result CryptoError Secret) (storage_ok : bool)
    (signer : bytes -> option bytes) (group_id : bytes) (leaf_index : LeafNodeIndex.t)
    (parameters : LeafNodeParameters) (constraints : LeafNodeConstraints) :
    stateful (list (bytes * bytes)) LeafNodeUpdateError (LeafNode * (bytes * bytes)) :=
  let tree_info := TbsUpdate (mkTreePosition group_id leaf_index) in
  let p := payload self in
  let '(credential, signature_key) :=
    match lp_credential_with_key parameters with
    | Some credential_with_key => (cwk_credential credential_with_key, cwk_signature_key credential_with_key)
    | None => (payload_credential p, payload_signature_key p)
    end in
  let extensions := default (payload_extensions p) (lp_extensions parameters) in
  let '(capabilities, capabilities_policy) :=
    resolve_capabilities_for_existing_leaf (lp_capabilities parameters) (lp_capabilities_policy parameters)
      (payload_capabilities p) in
  let p := mkLeafNodePayload (payload_encryption_key p) signature_key credential capabilities SourceUpdate extensions in
  p ← lifting (map_err LeafNodeUpdateValidation
        (enforce_capabilities p ciphersuite ProtocolVersion.default constraints capabilities_policy));
  encryption_key_pair ← lifting (map_err LeafNodeUpdateLibraryError (EncryptionKeyPair_random random ciphersuite));
  let p := mkLeafNodePayload encryption_key_pair.1 (payload_signature_key p) (payload_credential p)
             (payload_capabilities p) (payload_source p) (payload_extensions p) in
  _ ← lifting (if storage_ok then Ok tt else Err LeafNodeUpdateStorage);
  _ ← modifying (fun store => encryption_key_pair :: store);
  leaf_node ← lifting (map_err LeafNodeUpdateSignature (sign_leaf (mkLeafNodeTbs p tree_info) signer));
  mret (leaf_node, encryption_key_pair).

(** ** Verifying leaf nodes *)
Inductive VerifiableLeafNode : Type :=
  | VerifiableKeyPackageLeafNode (payload : LeafNodePayload) (signature : bytes)
  | VerifiableUpdateLeafNode (payload : LeafNodePayload) (signature : bytes) (tree_position : option TreePosition)
  | VerifiableCommitLeafNode (payload : LeafNodePayload) (signature : bytes) (tree_position : option TreePosition).

Definition into_verifiable_leaf_node (self : LeafNode) : VerifiableLeafNode :=
  match payload_source (payload self) with
  | SourceKeyPackage _ => VerifiableKeyPackageLeafNode (payload self) (signature self)
  | SourceUpdate => VerifiableUpdateLeafNode (payload self) (signature self) None
  | SourceCommit _ => VerifiableCommitLeafNode (payload self) (signature self) None
  end.

Definition add_tree_position (self : VerifiableLeafNode) (tree_info : TreePosition) : VerifiableLeafNode :=
  match self with
  | VerifiableKeyPackageLeafNode _ _ => self
  | VerifiableUpdateLeafNode payload signature _ => VerifiableUpdateLeafNode payload signature (Some tree_info)
  | VerifiableCommitLeafNode payload signature _ => VerifiableCommitLeafNode payload signature (Some tree_info)
  end.

Definition unsigned_payload (self : VerifiableLeafNode) : option bytes :=
  match self with
  | VerifiableKeyPackageLeafNode payload _ => tls_payload payload
  | VerifiableUpdateLeafNode payload _ tree_position | VerifiableCommitLeafNode payload _ tree_position =>
      tree_position ← tree_position;
      tls_leaf_node_tbs (mkLeafNodeTbs payload (TbsCommit tree_position))
  end.

Definition verifiable_parts (self : VerifiableLeafNode) : LeafNodePayload * bytes :=
  match self with
  | VerifiableKeyPackageLeafNode payload signature | VerifiableUpdateLeafNode payload signature _
  | VerifiableCommitLeafNode payload signature _ => (payload, signature)
  end.

(** [Verifiable::verify] of the three kinds. *)
Definition verify_leaf (self : VerifiableLeafNode) (scheme : SignatureScheme) (pk : bytes) : result SignatureError LeafNode :=
  let '(payload, signature) := verifiable_parts self in
  _ ← Signable.verify_no_out scheme pk LEAF_NODE_SIGNATURE_LABEL (unsigned_payload self) signature;
  Ok (mkLeafNode payload signature).

(** ** Importing ratchet trees *)

(** The loop of [RatchetTree::try_from_nodes] over the positions. *)
Fixpoint verify_nodes (ciphersuite : Ciphersuite) (group_id : bytes) (index : Z) (nodes : list (option (Node LeafNode))) :
    result RatchetTreeError (list (option (Node LeafNode))) :=
  match nodes with
  | [] => Ok []
  | node :: nodes' =>
      verified_node ←
        match node with
        | None => Ok None
        | Some (LeafNodeN leaf_node) =>
            if index mod 2 =? 0 then
              let verifiable := into_verifiable_leaf_node leaf_node in
              let signature_key := payload_signature_key (payload leaf_node) in
              let tree_position := mkTreePosition group_id (u32.wrap (index / 2)) in
              leaf ← map_err (fun _ => InvalidNodeSignature)
                (verify_leaf (add_tree_position verifiable tree_position)
                   (Suite.signature_algorithm ciphersuite) signature_key);
              Ok (Some (LeafNodeN leaf))
            else Err RatchetTreeWrongNodeType
        | Some (ParentNodeN parent_node) =>
            if index mod 2 =? 1 then Ok (Some (ParentNodeN parent_node)) else Err RatchetTreeWrongNodeType
        end;
      verified_nodes ← verify_nodes ciphersuite group_id (index + 1) nodes';
      Ok (verified_node :: verified_nodes)
  end.

Definition try_from_nodes (ciphersuite : Ciphersuite) (group_id : bytes) (nodes : list (option (Node LeafNode))) :
    result RatchetTreeError (list (option (Node LeafNode))) :=
  match last nodes with
  | Some None => Err TrailingBlankNodes
  | None => Err MissingNodes
  | Some (Some _) =>
      verified_nodes ← verify_nodes ciphersuite group_id 0 nodes;
      Ok (RTree.trimmed verified_nodes)
  end.

(** The leaf nodes of a tree, as TreeSync sees them. *)
#[export] Instance leaf_node_ops : LeafNodeOps LeafNode := {
  leaf_encryption_key leaf := payload_encryption_key (payload leaf);
  leaf_parent_hash := LNode.parent_hash;
  tls_leaf_node := tls_leaf;
}.
End Signing.
