(* ===== verification/TreeKem.v ===== *)
(** * TreeKEM: update paths

    Models path secrets (openmls/src/messages/mod.rs), the derivation of a path
    (treesync/node/parent_node.rs), its encryption and decryption
    (treesync/treekem.rs) and its application to a tree (treesync/diff.rs,
    treesync/mod.rs).  Key pairs are (public, private). *)
From S2P Require Import Prelude TreeMath BinaryTree Crypto TreeSync.

Record PlainUpdatePathNode : Type := mkPlainUpdatePathNode {
  plain_public_key : bytes;
  plain_path_secret : Secret;
}.

Record UpdatePathNode : Type := mkUpdatePathNode {
  public_key : bytes;
  encrypted_path_secrets : list HpkeCiphertext;
}.

Record UpdatePath (LeafNode : Type) : Type := mkUpdatePath {
  update_leaf_node : LeafNode;
  update_nodes : list UpdatePathNode;
}.
Arguments mkUpdatePath {LeafNode}.
Arguments update_leaf_node {LeafNode}.
Arguments update_nodes {LeafNode}.

Inductive DerivePathError : Type := DerivePathLibraryError (e : LibraryError) | PublicKeyMismatch.

Inductive ApplyOwnUpdatePathError : Type :=
  | OwnPathLibraryError (e : LibraryError)
  | OwnPathTreeFull
  | OwnPathLeafNodeBuild (e : LeafNodeBuildError).

Inductive CommitType : Type := Member | External.

(** ** Path secrets *)
Module PathSecret.
Section PathSecret.
Context {OC : OpenMlsCrypto} {TC : TlsCodec}.

Definition derive_key_pair (self : Secret) (ciphersuite : Ciphersuite) : result LibraryError (bytes * bytes) :=
  node_secret ← map_err UnexpectedCryptoError
    (kdf_expand_label self ciphersuite "node" [] (Suite.hash_length ciphersuite));
  map_err UnexpectedCryptoError (derive_hpke_keypair_op (Suite.hpke_config ciphersuite) node_secret).

Definition derive_path_secret (self : Secret) (ciphersuite : Ciphersuite) : result LibraryError Secret :=
  map_err UnexpectedCryptoError
    (kdf_expand_label self ciphersuite "path" [] (Suite.hash_length ciphersuite)).

(** [EncryptionKey::encrypt] and [EncryptionPrivateKey::decrypt]. *)
Definition EncryptionKey_encrypt (self : bytes) (ciphersuite : Ciphersuite) (context plaintext : bytes) :
    result LibraryError HpkeCiphertext :=
  map_err (fun _ => CustomError "Encryption failed. A serialization issue really")
    (Hpke.encrypt_with_label self "UpdatePathNode" context plaintext ciphersuite).

Definition EncryptionPrivateKey_decrypt (self : bytes) (ciphersuite : Ciphersuite) (ciphertext : HpkeCiphertext)
    (group_context : bytes) : result Hpke.Error Secret :=
  Hpke.decrypt_with_label self "UpdatePathNode" group_context ciphertext ciphersuite.

Definition encrypt (self : Secret) (ciphersuite : Ciphersuite) (public_key group_context : bytes) :
    result LibraryError HpkeCiphertext :=
  EncryptionKey_encrypt public_key ciphersuite group_context self.

Definition decrypt (ciphersuite : Ciphersuite) (ciphertext : HpkeCiphertext) (private_key group_context : bytes) :
    result PathSecretError Secret :=
  map_err PathSecretHpkeError (EncryptionPrivateKey_decrypt private_key ciphersuite ciphertext group_context).

(** The first loop of [ParentNode::derive_path]: one secret per node of the
    path, and the one after the last. *)
Fixpoint derive_chain (ciphersuite : Ciphersuite) (n : nat) (next_path_secret : Secret) :
    result LibraryError (list Secret * Secret) :=
  match n with
  | O => Ok ([], next_path_secret)
  | S n' =>
      let path_secret := next_path_secret in
      next ← derive_path_secret path_secret ciphersuite;
      '(secrets, last) ← derive_chain ciphersuite n' next;
      Ok (path_secret :: secrets, last)
  end.

(** The node, the key pair and the plain node of one path secret. *)
Definition derive_node (ciphersuite : Ciphersuite) (x : Secret * ParentNodeIndex.t) :
    result LibraryError ((ParentNodeIndex.t * ParentNode) * (bytes * bytes) * PlainUpdatePathNode) :=
  let '(path_secret, index) := x in
  keypair ← derive_key_pair path_secret ciphersuite;
  Ok ((index, ParentNode_from keypair.1), keypair, mkPlainUpdatePathNode keypair.1 path_secret).

Definition unzip_nodes (nodes : list ((ParentNodeIndex.t * ParentNode) * (bytes * bytes) * PlainUpdatePathNode)) :
    list (ParentNodeIndex.t * ParentNode) * list PlainUpdatePathNode * list (bytes * bytes) :=
  (nodes.*1.*1, nodes.*2, nodes.*1.*2).

(** [ParentNode::derive_path]: the path, the plain nodes, the key pairs and the
    commit secret. *)
Definition derive_path (ciphersuite : Ciphersuite) (path_secret : Secret) (path_indices : list ParentNodeIndex.t) :
    result LibraryError
      (list (ParentNodeIndex.t * ParentNode) * list PlainUpdatePathNode * list (bytes * bytes) * Secret) :=
  '(path_secrets, commit_secret) ← derive_chain ciphersuite (length path_indices) path_secret;
  nodes ← try_map (derive_node ciphersuite) (zip path_secrets path_indices);
  let '(path, update_path_nodes, keypairs) := unzip_nodes nodes in
  Ok (path, update_path_nodes, keypairs, commit_secret).

(** [PlainUpdatePathNode::encrypt]. *)
Definition encrypt_node (self : PlainUpdatePathNode) (ciphersuite : Ciphersuite) (public_keys : list bytes)
    (group_context : bytes) : result LibraryError UpdatePathNode :=
  encrypted ← try_map (fun pk => encrypt (plain_path_secret self) ciphersuite pk group_context) public_keys;
  Ok (mkUpdatePathNode (plain_public_key self) encrypted).
End PathSecret.
End PathSecret.

(** ** Update paths on a diff *)
Module Kem.
Section Kem.
Context {OC : OpenMlsCrypto} {TC : TlsCodec} {LeafNode : Type} {LO : LeafNodeOps LeafNode}.
Implicit Types self : TreeSyncDiff LeafNode.

Definition encrypt_path self (ciphersuite : Ciphersuite) (path : list PlainUpdatePathNode) (group_context : bytes)
    (exclusion_list : gset LeafNodeIndex.t) (own_leaf_index : LeafNodeIndex.t) :
    result LibraryError (list UpdatePathNode) :=
  resolutions ← returns (TSDiff.filtered_copath_resolutions self own_leaf_index exclusion_list);
  let copath_resolutions : list (list bytes) := TSDiff.resolution_keys <$> resolutions in
  try_map (fun '(node, resolution) => PathSecret.encrypt_node node ciphersuite resolution group_context)
    (zip path copath_resolutions).

Record DecryptPathParams : Type := mkDecryptPathParams {
  params_update_path : list UpdatePathNode;
  params_sender_leaf_index : LeafNodeIndex.t;
  params_exclusion_list : gset LeafNodeIndex.t;
  params_group_context : bytes;
}.

(** The check that derived and received public keys match, pairwise. *)
Definition keys_match (update_path : list UpdatePathNode) (derived_path : list (ParentNodeIndex.t * ParentNode)) : bool :=
  forallb (fun '(update_parent_node, derived) =>
    bool_decide (public_key update_parent_node = encryption_key derived.2)) (zip update_path derived_path).

Definition decrypt_path self (ciphersuite : Ciphersuite) (params : DecryptPathParams)
    (owned_keys : list (bytes * bytes)) (own_leaf_index : LeafNodeIndex.t) :
    result ApplyUpdatePathError (list (bytes * bytes) * Secret) :=
  let sender := params_sender_leaf_index params in
  path_position ← map_err (fun _ => MissingOwnLeaf) (TSDiff.subtree_root_position self sender own_leaf_index);
  update_path_node ← ok_or (params_update_path params !! path_position) PathLengthMismatch;
  '(decryption_key, resolution_position) ← map_err (fun _ => MissingSender)
    (TSDiff.decryption_key self sender (params_exclusion_list params) owned_keys own_leaf_index);
  ciphertext ← ok_or (encrypted_path_secrets update_path_node !! resolution_position) MissingCiphertext;
  path_secret ← map_err (fun _ => UnableToDecrypt)
    (PathSecret.decrypt ciphersuite ciphertext decryption_key (params_group_context params));
  common_path ← returns (TSDiff.filtered_common_direct_path self own_leaf_index sender);
  '(derived_path, _, keypairs, commit_secret) ← map_err UpdatePathLibraryError
    (PathSecret.derive_path ciphersuite path_secret common_path);
  if keys_match (drop path_position (params_update_path params)) derived_path
  then Ok (keypairs, commit_secret) else Err PathMismatch.

(** [TreeSyncDiff::derive_path]; [random] is what the random generator returns. *)
Definition derive_path self (random : result CryptoError Secret) (ciphersuite : Ciphersuite)
    (leaf_index : LeafNodeIndex.t) (path_secret_override : option Secret) :
    result LibraryError
      (list (ParentNodeIndex.t * ParentNode) * list PlainUpdatePathNode * list (bytes * bytes) * Secret) :=
  path_secret ← match path_secret_override with
                | Some p => Ok p
                | None => map_err UnexpectedCryptoError random
                end;
  path_indices ← returns (TSDiff.filtered_direct_path self leaf_index);
  PathSecret.derive_path ciphersuite path_secret path_indices.

(** Runs a method and converts its error. *)
Definition with_err {S E F A} (f : E -> F) (m : stateful S E A) : stateful S F A := fun s =>
  let '(r, s') := m s in (map_err f r, s').

(** [new_leaf] builds the leaf for a parent hash ([LeafNode::new_with_parent_hash]
    with the caller's parameters and signer); [placeholder] is
    [LeafNode::new_placeholder]. *)
Definition apply_own_update_path (random : result CryptoError Secret) (ciphersuite : Ciphersuite)
    (commit_type : CommitType) (leaf_index : LeafNodeIndex.t) (placeholder : LeafNode)
    (new_leaf : bytes -> result LeafNodeBuildError (LeafNode * (bytes * bytes)))
    (path_secret_override : option Secret) :
    stateful (TreeSyncDiff LeafNode) ApplyOwnUpdatePathError
      (list PlainUpdatePathNode * list (bytes * bytes) * Secret) :=
  _ ← match commit_type with
      | External =>
          with_err (fun e => match e with
                     | AddLeafLibraryError e => OwnPathLibraryError e
                     | AddLeafTreeFull => OwnPathTreeFull
                     end) (_ ← TSDiff.add_leaf placeholder; mret tt)
      | Member => mret tt
      end;
  '(path, update_path_nodes, parent_keypairs, commit_secret) ←
    reading (fun self => map_err OwnPathLibraryError
      (derive_path self random ciphersuite leaf_index path_secret_override));
  parent_hash ← with_err (fun e => match e with
                   | UpdatePathLibraryError e => OwnPathLibraryError e
                   | _ => OwnPathLibraryError (CustomError "Unexpected error in process_update_path")
                   end) (TSDiff.process_update_path ciphersuite leaf_index path);
  '(leaf_node, node_keypair) ← lifting (map_err OwnPathLeafNodeBuild (new_leaf parent_hash));
  _ ← modifying (fun self => Diff.replace_leaf self leaf_index (Some leaf_node));
  mret (update_path_nodes, node_keypair :: parent_keypairs, commit_secret).

Definition apply_received_update_path (ciphersuite : Ciphersuite) (sender_leaf_index : LeafNodeIndex.t)
    (update_path : UpdatePath LeafNode) : stateful (TreeSyncDiff LeafNode) ApplyUpdatePathError unit :=
  let path := update_nodes update_path in
  is_new ← reading (fun self => Ok (bool_decide (Diff.leaf self sender_leaf_index = None)
                                    || (sender_leaf_index >=? TSDiff.leaf_count self)));
  _ ← (if (is_new : bool) then
         new_leaf_index ← with_err (fun e => match e with
                            | AddLeafLibraryError e => UpdatePathLibraryError e
                            | AddLeafTreeFull => TreeFull
                            end) (TSDiff.add_leaf (update_leaf_node update_path));
         lifting (if negb (sender_leaf_index =? new_leaf_index) then Err InconsistentSenderIndex else Ok tt)
       else mret tt);
  filtered_direct_path ← reading (fun self => returns (TSDiff.filtered_direct_path self sender_leaf_index));
  _ ← lifting (if negb (length filtered_direct_path =? length path)%nat then Err PathLengthMismatch else Ok tt);
  let path := zip filtered_direct_path ((fun node => ParentNode_from (public_key node)) <$> path) in
  parent_hash ← TSDiff.process_update_path ciphersuite sender_leaf_index path;
  leaf_node_parent_hash ← lifting (ok_or (leaf_parent_hash (update_leaf_node update_path)) MissingParentHash);
  _ ← lifting (if negb (bool_decide (leaf_node_parent_hash = parent_hash)) then Err ParentHashMismatch else Ok tt);
  modifying (fun self => Diff.replace_leaf self sender_leaf_index (Some (update_leaf_node update_path))).

(** [TreeSync::new] for the leaf that [LeafNode::new] built. *)
Definition new (random : result CryptoError Secret) (ciphersuite : Ciphersuite) (leaf : LeafNode) :
    result LibraryError (TreeSync LeafNode * Secret) :=
  path_secret ← map_err UnexpectedCryptoError random;
  commit_secret ← PathSecret.derive_path_secret path_secret ciphersuite;
  tree ← map_err (fun _ => CustomError "Unexpected error creating the binary tree.")
           (Tree.new [LeafN (Some leaf)]);
  tree_sync ← TSync.populate_parent_hashes (mkTreeSync tree []) ciphersuite;
  Ok (tree_sync, commit_secret).

(** The loop of [TreeSync::derive_path_secrets]. *)
Fixpoint derive_subtree (tree : TreeSync LeafNode) (ciphersuite : Ciphersuite) (leaf_index : LeafNodeIndex.t)
    (subtree_path : list ParentNodeIndex.t) (path_secret : Secret) (keypairs : list (bytes * bytes)) :
    result DerivePathError (list (bytes * bytes) * Secret) :=
  match subtree_path with
  | [] => Ok (keypairs, path_secret)
  | parent_index :: subtree_path' =>
      match Tree.parent_by_index (ts_tree tree) parent_index with
      | Some parent_node =>
          if bool_decide (leaf_index ∈ unmerged_leaves parent_node) then
            derive_subtree tree ciphersuite leaf_index subtree_path' path_secret keypairs
          else
            keypair ← map_err DerivePathLibraryError (PathSecret.derive_key_pair path_secret ciphersuite);
            if negb (bool_decide (encryption_key parent_node = keypair.1)) then Err PublicKeyMismatch
            else
              path_secret ← map_err DerivePathLibraryError (PathSecret.derive_path_secret path_secret ciphersuite);
              derive_subtree tree ciphersuite leaf_index subtree_path' path_secret (keypairs ++ [keypair])
      | None => derive_subtree tree ciphersuite leaf_index subtree_path' path_secret keypairs
      end
  end.

Definition derive_path_secrets (self : TreeSync LeafNode) (ciphersuite : Ciphersuite) (path_secret : Secret)
    (sender_index leaf_index : LeafNodeIndex.t) : result DerivePathError (list (bytes * bytes) * Secret) :=
  subtree_path ← returns (Tree.subtree_path (ts_tree self) leaf_index sender_index);
  derive_subtree self ciphersuite leaf_index subtree_path path_secret [].
End Kem.
End Kem.

Lemma with_err_Ok {S E F A} (f : E -> F) (m : stateful S E A) s a s' :
  Kem.with_err f m s = (Ok a, s') <-> m s = (Ok a, s').
Proof. unfold Kem.with_err. destruct (m s) as [[x|e|] s1]; cbn; naive_solver. Qed.
