(* ===== verification/Proposals.v ===== *)
(** * Proposals, commits and the content that is framed and hashed

    Models the group context (openmls/src/group/group_context.rs, group/mod.rs), senders
    (framing/sender.rs), pre-shared key ids (schedule/psk.rs), key packages
    (key_packages/mod.rs), proposals and commits (messages/proposals.rs, messages/codec.rs,
    messages/mod.rs), framed content (framing/mls_content.rs, mls_auth_content.rs), the
    transcript hashes (framing/public_message.rs) and proposal references
    (ciphersuite/hash_ref.rs). *)
From S2P Require Import Prelude TreeMath BinaryTree Crypto SecretTree Extensions TreeSync LeafNode TreeKem.

(** ** Senders *)
Module Sender.
Inductive t : Type :=
  | Member (leaf_index : LeafNodeIndex.t)
  | External (index : Z)
  | NewMemberProposal
  | NewMemberCommit.

#[global] Instance sender_eq_dec : EqDecision t.
Proof. solve_decision. Defined.

Definition is_member (self : t) : bool := match self with Member _ => true | _ => false end.
Definition as_member (self : t) : option LeafNodeIndex.t :=
  match self with Member leaf_index => Some leaf_index | _ => None end.

Definition tls_sender (self : t) : option bytes :=
  Some match self with
       | Member leaf_index => 1 :: be_bytes 4 leaf_index
       | External index => 2 :: be_bytes 4 index
       | NewMemberProposal => [3]
       | NewMemberCommit => [4]
       end.
End Sender.

(** ** The group context *)
Record GroupContext : Type := mkGroupContext {
  gc_protocol_version : ProtocolVersion.t;
  gc_ciphersuite : Ciphersuite;
  gc_group_id : bytes;
  gc_epoch : Z;
  gc_tree_hash : bytes;
  gc_confirmed_transcript_hash : bytes;
  gc_extensions : Extensions;
}.

Module GContext.
Definition new (ciphersuite : Ciphersuite) (group_id : bytes) (epoch : Z)
    (tree_hash confirmed_transcript_hash : bytes) (extensions : Extensions) : GroupContext :=
  mkGroupContext ProtocolVersion.Mls10 ciphersuite group_id epoch tree_hash confirmed_transcript_hash extensions.

Definition create_initial_group_context (ciphersuite : Ciphersuite) (group_id tree_hash : bytes)
    (extensions : Extensions) : GroupContext := new ciphersuite group_id 0 tree_hash [] extensions.

(** [GroupEpoch::increment] on its [u64]. *)
Definition epoch_increment (epoch : Z) : Z := (epoch + 1) mod 2 ^ 64.

Definition increment_epoch (self : GroupContext) : GroupContext :=
  mkGroupContext (gc_protocol_version self) (gc_ciphersuite self) (gc_group_id self)
    (epoch_increment (gc_epoch self)) (gc_tree_hash self) (gc_confirmed_transcript_hash self) (gc_extensions self).

Definition update_tree_hash (self : GroupContext) (new_tree_hash : bytes) : GroupContext :=
  mkGroupContext (gc_protocol_version self) (gc_ciphersuite self) (gc_group_id self) (gc_epoch self)
    new_tree_hash (gc_confirmed_transcript_hash self) (gc_extensions self).

Definition set_extensions (self : GroupContext) (extensions : Extensions) : GroupContext :=
  mkGroupContext (gc_protocol_version self) (gc_ciphersuite self) (gc_group_id self) (gc_epoch self)
    (gc_tree_hash self) (gc_confirmed_transcript_hash self) extensions.

Definition set_confirmed_transcript_hash (self : GroupContext) (hash : bytes) : GroupContext :=
  mkGroupContext (gc_protocol_version self) (gc_ciphersuite self) (gc_group_id self) (gc_epoch self)
    (gc_tree_hash self) hash (gc_extensions self).
End GContext.

(** ** Pre-shared key ids *)
Inductive ResumptionPskUsage : Type := UsageApplication | UsageReinit | UsageBranch.

Inductive Psk : Type :=
  | PskExternal (psk_id : bytes)
  | PskResumption (usage : ResumptionPskUsage) (psk_group_id : bytes) (psk_epoch : Z).

Record PreSharedKeyId : Type := mkPreSharedKeyId { psk : Psk; psk_nonce : bytes }.

#[export] Instance usage_eq_dec : EqDecision ResumptionPskUsage.
Proof. solve_decision. Defined.
#[export] Instance psk_eq_dec : EqDecision Psk.
Proof. solve_decision. Defined.
#[export] Instance psk_id_eq_dec : EqDecision PreSharedKeyId.
Proof. solve_decision. Defined.

Inductive PskError : Type :=
  | PskLibraryError (e : LibraryError) | TooManyKeys | KeyNotFound | PskStorage
  | UsageMismatch (allowed : list ResumptionPskUsage) (got : ResumptionPskUsage)
  | UsageConflict (first second : ResumptionPskUsage) | UsageDuplicate (usage : ResumptionPskUsage)
  | NonceLengthMismatch (expected got : Z) | PskDuplicate (first : PreSharedKeyId) | NotAllowed
  | DifferentGroupId (expected got : bytes).

Definition validate_nonce (self : PreSharedKeyId) (ciphersuite : Ciphersuite) : result PskError unit :=
  let expected_nonce_length := Suite.hash_length ciphersuite in
  let got_nonce_length := Z.of_nat (length (psk_nonce self)) in
  if negb (expected_nonce_length =? got_nonce_length)
  then Err (NonceLengthMismatch expected_nonce_length got_nonce_length) else Ok tt.

(** [validate_in_welcome], with the usage seen so far. *)
Fixpoint validate_in_welcome_from (contained : option ResumptionPskUsage) (psk_ids : list PreSharedKeyId)
    (ciphersuite : Ciphersuite) : result PskError unit :=
  match psk_ids with
  | [] => Ok tt
  | id :: psk_ids' =>
      _ ← validate_nonce id ciphersuite;
      match psk id with
      | PskResumption UsageApplication _ _ => Err (UsageMismatch [UsageReinit; UsageBranch] UsageApplication)
      | PskResumption usage _ _ =>
          match contained with
          | Some previous_usage =>
              if bool_decide (previous_usage = usage) then Err (UsageDuplicate previous_usage)
              else Err (UsageConflict previous_usage usage)
          | None => validate_in_welcome_from (Some usage) psk_ids' ciphersuite
          end
      | PskExternal _ => validate_in_welcome_from contained psk_ids' ciphersuite
      end
  end.

Definition validate_in_welcome : list PreSharedKeyId -> Ciphersuite -> result PskError unit :=
  validate_in_welcome_from None.

(** ** Key packages *)
Record KeyPackageTbs : Type := mkKeyPackageTbs {
  kp_protocol_version : ProtocolVersion.t;
  kp_ciphersuite : Ciphersuite;
  kp_init_key : bytes;
  kp_leaf_node : LeafNode;
  kp_extensions : Extensions;
}.

Record KeyPackage : Type := mkKeyPackage {
  kp_payload : KeyPackageTbs;
  kp_signature : bytes;
  kp_serialized_payload : option bytes;
}.

Definition key_package_leaf (self : KeyPackage) : LeafNode := kp_leaf_node (kp_payload self).

(** ** Proposals *)
Record ReInitProposal : Type := mkReInitProposal {
  reinit_group_id : bytes;
  reinit_version : ProtocolVersion.t;
  reinit_ciphersuite : Ciphersuite;
  reinit_extensions : Extensions;
}.

Record CustomProposal : Type := mkCustomProposal { custom_proposal_type : Z; custom_payload : bytes }.

Module Proposal.
Inductive t : Type :=
  | Add (key_package : KeyPackage)
  | Update (leaf_node : LeafNode)
  | Remove (removed : LeafNodeIndex.t)
  | PreSharedKey (psk : PreSharedKeyId)
  | ReInit (p : ReInitProposal)
  | ExternalInit (kem_output : bytes)
  | GroupContextExtensions (extensions : Extensions)
  | SelfRemove
  | Custom (p : CustomProposal).

Definition proposal_type (self : t) : ProposalType.t :=
  match self with
  | Add _ => ProposalType.Add
  | Update _ => ProposalType.Update
  | Remove _ => ProposalType.Remove
  | PreSharedKey _ => ProposalType.PreSharedKey
  | ReInit _ => ProposalType.Reinit
  | ExternalInit _ => ProposalType.ExternalInit
  | GroupContextExtensions _ => ProposalType.GroupContextExtensions
  | SelfRemove => ProposalType.SelfRemove
  | Custom custom => ProposalType.Custom (custom_proposal_type custom)
  end.

Definition is_type (self : t) (proposal_type' : ProposalType.t) : bool :=
  bool_decide (proposal_type self = proposal_type').

Definition is_path_required (self : t) : bool := ProposalType.is_path_required (proposal_type self).

(** The last case is a [debug_assert] that a release build does not have. *)
Definition has_lower_priority_than (self new_proposal : t) : bool :=
  match self, new_proposal with
  | Update _, _ => true
  | Remove _, Update _ => false
  | Remove _, Remove _ => true
  | _, SelfRemove => true
  | SelfRemove, (Update _ | Remove _) => false
  | _, _ => false
  end.

Definition as_remove (self : t) : option LeafNodeIndex.t :=
  match self with Remove removed => Some removed | _ => None end.

Definition is_remove (self : t) : bool := match self with Remove _ => true | _ => false end.
End Proposal.

(** The type of the proposals of a commit: by value, or by reference. *)
Inductive ProposalOrRefType : Type := ByValue | ByReference.
#[export] Instance proposal_or_ref_type_eq_dec : EqDecision ProposalOrRefType.
Proof. solve_decision. Defined.

Inductive ProposalOrRef : Type :=
  | InlineProposal (p : Proposal.t)
  | Reference (r : bytes).

Definition as_proposal (self : ProposalOrRef) : option Proposal.t :=
  match self with InlineProposal p => Some p | Reference _ => None end.
Definition as_reference (self : ProposalOrRef) : option bytes :=
  match self with InlineProposal _ => None | Reference r => Some r end.

Record Commit : Type := mkCommit {
  commit_proposals : list ProposalOrRef;
  commit_path : option (UpdatePath LeafNode);
}.

(** ** Framed content *)
Inductive WireFormat : Type := WirePublicMessage | WirePrivateMessage | WireWelcome | WireGroupInfo | WireKeyPackage.

#[export] Instance wire_format_eq_dec : EqDecision WireFormat.
Proof. solve_decision. Defined.

Definition wire_format_u16 (self : WireFormat) : Z :=
  match self with
  | WirePublicMessage => 1 | WirePrivateMessage => 2 | WireWelcome => 3 | WireGroupInfo => 4 | WireKeyPackage => 5
  end.

Definition content_type_u8 (self : ContentType) : Z :=
  match self with ContentApplication => 1 | ContentProposal => 2 | ContentCommit => 3 end.

Definition content_type_try_from (value : Z) : option ContentType :=
  if value =? 1 then Some ContentApplication
  else if value =? 2 then Some ContentProposal
  else if value =? 3 then Some ContentCommit
  else None.

Inductive FramedContentBody : Type :=
  | BodyApplication (data : bytes)
  | BodyProposal (p : Proposal.t)
  | BodyCommit (c : Commit).

Definition content_type (self : FramedContentBody) : ContentType :=
  match self with
  | BodyApplication _ => ContentApplication
  | BodyProposal _ => ContentProposal
  | BodyCommit _ => ContentCommit
  end.

Record FramedContent : Type := mkFramedContent {
  fc_group_id : bytes;
  fc_epoch : Z;
  fc_sender : Sender.t;
  fc_authenticated_data : bytes;
  fc_body : FramedContentBody;
}.

Record FramedContentAuthData : Type := mkFramedContentAuthData {
  auth_signature : bytes;
  auth_confirmation_tag : option bytes;
}.

Record AuthenticatedContent : Type := mkAuthenticatedContent {
  ac_wire_format : WireFormat;
  ac_content : FramedContent;
  ac_auth : FramedContentAuthData;
}.

(** ** Encodings *)
Section Encodings.
Context {TC : TlsCodec}.

Definition tls_group_context (self : GroupContext) : option bytes :=
  tls_struct [ProtocolVersion.tls_serialize (gc_protocol_version self);
              Some (be_bytes 2 (Suite.to_u16 (gc_ciphersuite self)));
              tls_vlbytes (gc_group_id self); Some (be_bytes 8 (gc_epoch self)); tls_vlbytes (gc_tree_hash self);
              tls_vlbytes (gc_confirmed_transcript_hash self); tls_extensions (gc_extensions self)].

Definition usage_u8 (self : ResumptionPskUsage) : Z :=
  match self with UsageApplication => 1 | UsageReinit => 2 | UsageBranch => 3 end.

Definition tls_psk (self : Psk) : option bytes :=
  match self with
  | PskExternal psk_id => cons 1 <$> tls_vlbytes psk_id
  | PskResumption usage psk_group_id psk_epoch =>
      cons 2 <$> tls_struct [Some [usage_u8 usage]; tls_vlbytes psk_group_id; Some (be_bytes 8 psk_epoch)]
  end.

Definition tls_psk_id (self : PreSharedKeyId) : option bytes :=
  tls_struct [tls_psk (psk self); tls_vlbytes (psk_nonce self)].

Definition tls_key_package_tbs (self : KeyPackageTbs) : option bytes :=
  tls_struct [ProtocolVersion.tls_serialize (kp_protocol_version self);
              Some (be_bytes 2 (Suite.to_u16 (kp_ciphersuite self))); tls_vlbytes (kp_init_key self);
              tls_leaf (kp_leaf_node self); tls_extensions (kp_extensions self)].

(** A key package that was signed or parsed keeps its serialized payload. *)
Definition tls_key_package (self : KeyPackage) : option bytes :=
  tls_struct [match kp_serialized_payload self with
              | Some b => Some b
              | None => tls_key_package_tbs (kp_payload self)
              end; tls_vlbytes (kp_signature self)].

Definition tls_proposal (self : Proposal.t) : option bytes :=
  tls_struct [ProposalType.tls_serialize (Proposal.proposal_type self);
              match self with
              | Proposal.Add key_package => tls_key_package key_package
              | Proposal.Update leaf_node => tls_leaf leaf_node
              | Proposal.Remove removed => Some (be_bytes 4 removed)
              | Proposal.PreSharedKey id => tls_psk_id id
              | Proposal.ReInit p =>
                  tls_struct [tls_vlbytes (reinit_group_id p); ProtocolVersion.tls_serialize (reinit_version p);
                              Some (be_bytes 2 (Suite.to_u16 (reinit_ciphersuite p)));
                              tls_extensions (reinit_extensions p)]
              | Proposal.ExternalInit kem_output => tls_vlbytes kem_output
              | Proposal.GroupContextExtensions extensions => tls_extensions extensions
              | Proposal.SelfRemove => Some []
              | Proposal.Custom p => tls_vlbytes (custom_payload p)
              end].

Definition tls_proposal_or_ref (self : ProposalOrRef) : option bytes :=
  match self with
  | InlineProposal p => cons 1 <$> tls_proposal p
  | Reference r => cons 2 <$> tls_vlbytes r
  end.

Definition tls_hpke_ciphertext (self : HpkeCiphertext) : option bytes :=
  tls_struct [tls_vlbytes (kem_output self); tls_vlbytes (ciphertext self)].

Definition tls_update_path_node (self : UpdatePathNode) : option bytes :=
  tls_struct [tls_vlbytes (public_key self); tls_vec tls_hpke_ciphertext (encrypted_path_secrets self)].

Definition tls_update_path (self : UpdatePath LeafNode) : option bytes :=
  tls_struct [tls_leaf (update_leaf_node self); tls_vec tls_update_path_node (update_nodes self)].

Definition tls_commit (self : Commit) : option bytes :=
  tls_struct [tls_vec tls_proposal_or_ref (commit_proposals self);
              tls_optional tls_update_path (commit_path self)].

Definition serialize_without_type (self : FramedContentBody) : option bytes :=
  match self with
  | BodyApplication data => tls_vlbytes data
  | BodyProposal p => tls_proposal p
  | BodyCommit c => tls_commit c
  end.

Definition tls_framed_content (self : FramedContent) : option bytes :=
  tls_struct [tls_vlbytes (fc_group_id self); Some (be_bytes 8 (fc_epoch self)); Sender.tls_sender (fc_sender self);
              tls_vlbytes (fc_authenticated_data self);
              cons (content_type_u8 (content_type (fc_body self))) <$> serialize_without_type (fc_body self)].

Definition tls_auth_data (self : FramedContentAuthData) : option bytes :=
  tls_struct [tls_vlbytes (auth_signature self);
              match auth_confirmation_tag self with Some tag => tls_vlbytes tag | None => Some [] end].

Definition tls_authenticated_content (self : AuthenticatedContent) : option bytes :=
  tls_struct [Some (be_bytes 2 (wire_format_u16 (ac_wire_format self))); tls_framed_content (ac_content self);
              tls_auth_data (ac_auth self)].
End Encodings.

(** ** References and transcript hashes *)
Section Hashes.
Context {OC : OpenMlsCrypto} {TC : TlsCodec}.

Definition KEY_PACKAGE_REF_LABEL : bytes := bytes_of_string "MLS 1.0 KeyPackage Reference".
Definition PROPOSAL_REF_LABEL : bytes := bytes_of_string "MLS 1.0 Proposal Reference".

(** [HashReference::new]. *)
Definition hash_reference (value : bytes) (ciphersuite : Ciphersuite) (label : bytes) : result CryptoError bytes :=
  payload ← ok_or (tls_struct [tls_vlbytes label; tls_vlbytes value]) TlsSerializationError;
  hash_op (Suite.hash_algorithm ciphersuite) payload.

Definition make_proposal_ref (value : bytes) (ciphersuite : Ciphersuite) : result CryptoError bytes :=
  hash_reference value ciphersuite PROPOSAL_REF_LABEL.

Definition make_key_package_ref (value : bytes) (ciphersuite : Ciphersuite) : result CryptoError bytes :=
  hash_reference value ciphersuite KEY_PACKAGE_REF_LABEL.

Inductive ProposalRefError : Type :=
  | AuthenticatedContentHasWrongType (wrong : ContentType)
  | ProposalRefOther (e : LibraryError).

(** [ProposalRef::from_authenticated_content_by_ref]. *)
Definition ref_from_authenticated_content (ciphersuite : Ciphersuite) (content : AuthenticatedContent) :
    result ProposalRefError bytes :=
  match fc_body (ac_content content) with
  | BodyProposal _ =>
      encoded ← ok_or (tls_authenticated_content content) (ProposalRefOther MissingBoundsCheck);
      map_err (fun e => ProposalRefOther (UnexpectedCryptoError e)) (make_proposal_ref encoded ciphersuite)
  | body => Err (AuthenticatedContentHasWrongType (content_type body))
  end.

(** [ProposalRef::from_raw_proposal]. *)
Definition ref_from_raw_proposal (ciphersuite : Ciphersuite) (proposal : Proposal.t) : result LibraryError bytes :=
  encoded ← ok_or (tls_proposal proposal) MissingBoundsCheck;
  map_err UnexpectedCryptoError
    (make_proposal_ref (bytes_of_string "Internal OpenMLS ProposalRef Label" ++ encoded) ciphersuite).

(** [ConfirmedTranscriptHashInput]. *)
Definition calculate_confirmed_transcript_hash (ciphersuite : Ciphersuite) (interim_transcript_hash : bytes)
    (content : AuthenticatedContent) : result LibraryError bytes :=
  match content_type (fc_body (ac_content content)) with
  | ContentCommit =>
      serialized ← ok_or (tls_struct [Some (be_bytes 2 (wire_format_u16 (ac_wire_format content)));
                                      tls_framed_content (ac_content content);
                                      tls_vlbytes (auth_signature (ac_auth content))]) MissingBoundsCheck;
      map_err UnexpectedCryptoError (hash_op (Suite.hash_algorithm ciphersuite) (interim_transcript_hash ++ serialized))
  | _ => Err (CustomError "PublicMessage did not contain a commit")
  end.

(** [InterimTranscriptHashInput]. *)
Definition calculate_interim_transcript_hash (ciphersuite : Ciphersuite) (confirmed_transcript_hash : bytes)
    (confirmation_tag : bytes) : result LibraryError bytes :=
  serialized ← ok_or (tls_vlbytes confirmation_tag) MissingBoundsCheck;
  map_err UnexpectedCryptoError (hash_op (Suite.hash_algorithm ciphersuite) (confirmed_transcript_hash ++ serialized)).

(** [GroupContext::update_confirmed_transcript_hash]. *)
Definition update_confirmed_transcript_hash (self : GroupContext) (interim_transcript_hash : bytes)
    (content : AuthenticatedContent) : result LibraryError GroupContext :=
  confirmed_transcript_hash ← calculate_confirmed_transcript_hash (gc_ciphersuite self) interim_transcript_hash content;
  Ok (GContext.set_confirmed_transcript_hash self confirmed_transcript_hash).
End Hashes.
