(* ===== verification/KeySchedule.v ===== *)
(** * The key schedule

    Models openmls/src/schedule/mod.rs, the pre-shared keys of schedule/psk.rs (the PSK
    secret, loading PSKs, the store of resumption PSKs) and ciphersuite/mac.rs, without the
    draft features. The secrets of the schedule are byte strings; [storage_psk] reads an
    external PSK from the storage provider. *)
From S2P Require Import Prelude TreeMath BinaryTree Crypto SecretTree PastSecrets Extensions TreeSync LeafNode TreeKem Proposals.

Inductive ErrorState : Type := ExpectedInit | ExpectedContext.

Inductive KeyScheduleError : Type :=
  | KeyScheduleLibraryError (e : LibraryError) | InvalidState (e : ErrorState) | KeyScheduleCryptoError (e : CryptoError).

(** [State]. *)
Inductive ScheduleState : Type := StateInitial | StateContext | StateDone.
#[export] Instance schedule_state_eq_dec : EqDecision ScheduleState.
Proof. solve_decision. Defined.

Record KeySchedule : Type := mkKeySchedule {
  ks_ciphersuite : Ciphersuite;
  ks_intermediate_secret : option Secret;
  ks_epoch_secret : option Secret;
  ks_state : ScheduleState;
}.

Record EpochSecrets : Type := mkEpochSecrets {
  es_init_secret : Secret;
  es_sender_data_secret : Secret;
  es_encryption_secret : Secret;
  es_exporter_secret : Secret;
  es_epoch_authenticator : Secret;
  es_external_secret : Secret;
  es_confirmation_key : Secret;
  es_membership_key : Secret;
  es_resumption_psk : Secret;
}.

Record GroupEpochSecrets : Type := mkGroupEpochSecrets {
  ges_init_secret : Secret;
  ges_exporter_secret : Secret;
  ges_epoch_authenticator : Secret;
  ges_external_secret : Secret;
  ges_resumption_psk : Secret;
}.

Section Schedule.
Context {OC : OpenMlsCrypto} {TC : TlsCodec}.

(** ** Secrets *)

(** [Mac::new]. *)
Definition mac_new (ciphersuite : Ciphersuite) (key : Secret) (message : bytes) : result CryptoError bytes :=
  hmac key ciphersuite message.

Definition commit_secret_zero (ciphersuite : Ciphersuite) : Secret := secret_zero ciphersuite.

Definition hpke_info_from_version (version : ProtocolVersion.t) : string :=
  match version with
  | ProtocolVersion.Mls10 => "MLS 1.0 external init secret"
  | _ => "<OpenMLS reserved; Don't use this.>"
  end.

(** [InitSecret::from_group_context]. *)
Definition init_secret_from_group_context (group_context : GroupContext) (external_pub : bytes) :
    result KeyScheduleError (Secret * bytes) :=
  let ciphersuite := gc_ciphersuite group_context in
  '(kem_output, raw_init_secret) ← map_err KeyScheduleCryptoError
    (hpke_setup_sender_and_export_op (Suite.hpke_config ciphersuite) external_pub []
       (bytes_of_string (hpke_info_from_version (gc_protocol_version group_context))) (Suite.hash_length ciphersuite));
  Ok (raw_init_secret, kem_output).

(** [InitSecret::from_kem_output]. *)
Definition init_secret_from_kem_output (ciphersuite : Ciphersuite) (version : ProtocolVersion.t)
    (external_priv kem_output : bytes) : result LibraryError Secret :=
  map_err UnexpectedCryptoError
    (hpke_setup_receiver_and_export_op (Suite.hpke_config ciphersuite) kem_output external_priv []
       (bytes_of_string (hpke_info_from_version version)) (Suite.hash_length ciphersuite)).

(** [JoinerSecret::new]. *)
Definition joiner_secret_new (ciphersuite : Ciphersuite) (commit_secret_option : option Secret) (init_secret : Secret)
    (serialized_group_context : bytes) : result CryptoError Secret :=
  intermediate_secret ← hkdf_extract init_secret ciphersuite commit_secret_option;
  kdf_expand_label intermediate_secret ciphersuite "joiner" serialized_group_context (Suite.hash_length ciphersuite).

(** [ExternalSecret::derive_external_keypair]. *)
Definition derive_external_keypair (external_secret : Secret) (ciphersuite : Ciphersuite) :
    result CryptoError (bytes * bytes) := derive_hpke_keypair_op (Suite.hpke_config ciphersuite) external_secret.

(** [ExporterSecret::derive_exported_secret]. *)
Definition derive_exported_secret (exporter_secret : Secret) (ciphersuite : Ciphersuite) (label : string) (context : bytes)
    (key_length : Z) : result CryptoError Secret :=
  context_hash ← hash_op (Suite.hash_algorithm ciphersuite) context;
  secret ← derive_secret exporter_secret ciphersuite label;
  kdf_expand_label secret ciphersuite "exported" context_hash key_length.

(** [ConfirmationKey::tag]. *)
Definition confirmation_tag_new (confirmation_key : Secret) (ciphersuite : Ciphersuite) (confirmed_transcript_hash : bytes) :
    result CryptoError bytes := mac_new ciphersuite confirmation_key confirmed_transcript_hash.

(** [WelcomeSecret::derive_welcome_key_nonce]. *)
Definition derive_welcome_key_nonce (welcome_secret : Secret) (ciphersuite : Ciphersuite) :
    result CryptoError (AeadKey * AeadNonce) :=
  nonce_secret ← kdf_expand_label welcome_secret ciphersuite "nonce" [] (Suite.aead_nonce_length ciphersuite);
  welcome_nonce ← AeadNonce_from_secret nonce_secret;
  aead_secret ← kdf_expand_label welcome_secret ciphersuite "key" [] (Suite.aead_key_length ciphersuite);
  Ok (AeadKey_from_secret aead_secret ciphersuite, welcome_nonce).

(** The sample of a ciphertext, and the key and nonce of the sender data. *)
Definition ciphertext_sample (ciphersuite : Ciphersuite) (ciphertext : bytes) : bytes :=
  let sample_length := Suite.hash_length ciphersuite in
  if Z.of_nat (length ciphertext) <=? sample_length then ciphertext else take (Z.to_nat sample_length) ciphertext.

Definition sender_data_key (sender_data_secret : Secret) (ciphersuite : Ciphersuite) (ciphertext : bytes) :
    result CryptoError AeadKey :=
  secret ← kdf_expand_label sender_data_secret ciphersuite "key" (ciphertext_sample ciphersuite ciphertext)
             (Suite.aead_key_length ciphersuite);
  Ok (AeadKey_from_secret secret ciphersuite).

Definition sender_data_nonce (sender_data_secret : Secret) (ciphersuite : Ciphersuite) (ciphertext : bytes) :
    result CryptoError AeadNonce :=
  nonce_secret ← kdf_expand_label sender_data_secret ciphersuite "nonce" (ciphertext_sample ciphersuite ciphertext)
                   (Suite.aead_nonce_length ciphersuite);
  AeadNonce_from_secret nonce_secret.

End Schedule.

(** ** Epoch secrets *)
Module EpSecrets.
Section EpSecrets.
Context {OC : OpenMlsCrypto} {TC : TlsCodec}.

Definition new (ciphersuite : Ciphersuite) (epoch_secret : Secret) : result CryptoError EpochSecrets :=
  sender_data_secret ← derive_secret epoch_secret ciphersuite "sender data";
  encryption_secret ← derive_secret epoch_secret ciphersuite "encryption";
  exporter_secret ← derive_secret epoch_secret ciphersuite "exporter";
  epoch_authenticator ← derive_secret epoch_secret ciphersuite "authentication";
  external_secret ← derive_secret epoch_secret ciphersuite "external";
  confirmation_key ← derive_secret epoch_secret ciphersuite "confirm";
  membership_key ← derive_secret epoch_secret ciphersuite "membership";
  resumption_psk ← derive_secret epoch_secret ciphersuite "resumption";
  init_secret ← derive_secret epoch_secret ciphersuite "init";
  Ok (mkEpochSecrets init_secret sender_data_secret encryption_secret exporter_secret epoch_authenticator external_secret
        confirmation_key membership_key resumption_psk).

Definition with_init_secret (ciphersuite : Ciphersuite) (init_secret : Secret) : result CryptoError EpochSecrets :=
  es ← new ciphersuite (secret_zero ciphersuite);
  Ok (mkEpochSecrets init_secret (es_sender_data_secret es) (es_encryption_secret es) (es_exporter_secret es)
        (es_epoch_authenticator es) (es_external_secret es) (es_confirmation_key es) (es_membership_key es)
        (es_resumption_psk es)).

Definition split_secrets (self : EpochSecrets) (serialized_context : bytes) (treesize : TreeSize.t)
    (own_index : LeafNodeIndex.t) : GroupEpochSecrets * MessageSecrets :=
  (mkGroupEpochSecrets (es_init_secret self) (es_exporter_secret self) (es_epoch_authenticator self) (es_external_secret self)
     (es_resumption_psk self),
   MSecrets.new (es_sender_data_secret self) (es_membership_key self) (es_confirmation_key self) serialized_context
     (STree.new (es_encryption_secret self) treesize own_index)).
End EpSecrets.
End EpSecrets.

(** ** The schedule *)
Module KSched.
Section KSched.
Context {OC : OpenMlsCrypto} {TC : TlsCodec}.
Implicit Types self : KeySchedule.

(** [psk] is the secret of the [PskSecret]. *)
Definition init (ciphersuite : Ciphersuite) (joiner_secret psk : Secret) : result LibraryError KeySchedule :=
  intermediate_secret ← map_err UnexpectedCryptoError (hkdf_extract joiner_secret ciphersuite (Some psk));
  Ok (mkKeySchedule ciphersuite (Some intermediate_secret) None StateInitial).

Definition welcome self (ciphersuite : Ciphersuite) : result KeyScheduleError Secret :=
  match ks_state self, ks_intermediate_secret self with
  | StateInitial, Some intermediate_secret =>
      map_err KeyScheduleCryptoError (derive_secret intermediate_secret ciphersuite "welcome")
  | _, _ => Err (InvalidState ExpectedInit)
  end.

(** The intermediate secret is taken out of the schedule, also when the derivation fails. *)
Definition add_context (serialized_group_context : bytes) : stateful KeySchedule KeyScheduleError unit := fun self =>
  match ks_state self, ks_intermediate_secret self with
  | StateInitial, Some intermediate_secret =>
      match kdf_expand_label intermediate_secret (ks_ciphersuite self) "epoch" serialized_group_context
              (Suite.hash_length (ks_ciphersuite self)) with
      | Ok epoch_secret => (Ok tt, mkKeySchedule (ks_ciphersuite self) None (Some epoch_secret) StateContext)
      | Err e => (Err (KeyScheduleCryptoError e), mkKeySchedule (ks_ciphersuite self) None (ks_epoch_secret self) StateContext)
      | Panic => (Panic, self)
      end
  | _, _ => (Err (InvalidState ExpectedInit), self)
  end.

Definition epoch_secrets (ciphersuite : Ciphersuite) : stateful KeySchedule KeyScheduleError EpochSecrets := fun self =>
  match ks_state self, ks_epoch_secret self with
  | StateContext, Some epoch_secret =>
      (map_err KeyScheduleCryptoError (EpSecrets.new ciphersuite epoch_secret),
       mkKeySchedule (ks_ciphersuite self) (ks_intermediate_secret self) None StateDone)
  | _, _ => (Err (InvalidState ExpectedContext), self)
  end.
End KSched.
End KSched.

(** ** Pre-shared keys *)
Section Psks.
Context {OC : OpenMlsCrypto} {TC : TlsCodec}.

(** The serialized [PskLabel]. *)
Definition psk_label (id : PreSharedKeyId) (index count : Z) : option bytes :=
  tls_struct [tls_psk_id id; Some (be_bytes 2 index); Some (be_bytes 2 count)].

(** The loop of [PskSecret::new] from position [index]. *)
Fixpoint psk_secret_from (ciphersuite : Ciphersuite) (num_psks index : Z) (psk_secret : Secret)
    (psks : list (PreSharedKeyId * Secret)) : result PskError Secret :=
  match psks with
  | [] => Ok psk_secret
  | (psk_id, psk) :: psks' =>
      psk_extracted ← map_err (fun e => PskLibraryError (UnexpectedCryptoError e))
        (hkdf_extract (secret_zero ciphersuite) ciphersuite (Some psk));
      psk_label ← ok_or (psk_label psk_id (index mod 2 ^ 16) num_psks) (PskLibraryError MissingBoundsCheck);
      psk_input ← map_err (fun e => PskLibraryError (UnexpectedCryptoError e))
        (kdf_expand_label psk_extracted ciphersuite "derived psk" psk_label (Suite.hash_length ciphersuite));
      psk_secret' ← map_err (fun e => PskLibraryError (UnexpectedCryptoError e))
        (hkdf_extract psk_input ciphersuite (Some psk_secret));
      psk_secret_from ciphersuite num_psks (index + 1) psk_secret' psks'
  end.

(** [PskSecret::new]. *)
Definition psk_secret_new (ciphersuite : Ciphersuite) (psks : list (PreSharedKeyId * Secret)) : result PskError Secret :=
  let num_psks := Z.of_nat (length psks) in
  if num_psks >? 65535 then Err TooManyKeys
  else psk_secret_from ciphersuite num_psks 0 (secret_zero ciphersuite) psks.
End Psks.

(** *** The store of resumption PSKs *)
Record ResumptionPskStore : Type := mkResumptionPskStore {
  max_number_of_secrets : nat;
  resumption_psks : list (Z * Secret);
  cursor : nat;
}.

Module RStore.
Implicit Types self : ResumptionPskStore.

Definition new (max_number_of_secrets : nat) : ResumptionPskStore := mkResumptionPskStore max_number_of_secrets [] 0.

Definition add self (epoch : Z) (resumption_psk : Secret) : ResumptionPskStore :=
  if bool_decide (max_number_of_secrets self = 0%nat) then self
  else
    let item := (epoch, resumption_psk) in
    if bool_decide (length (resumption_psks self) < max_number_of_secrets self)%nat
    then mkResumptionPskStore (max_number_of_secrets self) (resumption_psks self ++ [item]) (cursor self + 1)
    else
      let cursor' := ((cursor self + 1) `mod` length (resumption_psks self))%nat in
      mkResumptionPskStore (max_number_of_secrets self) (<[cursor' := item]> (resumption_psks self)) cursor'.

Definition get self (epoch : Z) : option Secret :=
  '(_, (_, s)) ← list_find (fun entry => entry.1 = epoch) (resumption_psks self);
  Some s.
End RStore.

(** *** Loading PSKs *)

(** [load_psks]; [group_id] is [None] while a Welcome is processed. *)
Fixpoint load_psks (storage_psk : Psk -> option (option Secret)) (resumption_psk_store : ResumptionPskStore)
    (group_id : option bytes) (foreign_resumption_psk : option (PreSharedKeyId * Secret)) (psk_ids : list PreSharedKeyId) :
    result PskError (list (PreSharedKeyId * Secret)) :=
  match psk_ids with
  | [] => Ok []
  | psk_id :: psk_ids' =>
      '(secret, foreign) ←
        match psk psk_id with
        | PskResumption UsageApplication psk_group_id psk_epoch =>
            match group_id with
            | None => Err NotAllowed
            | Some group_id =>
                if negb (bool_decide (psk_group_id = group_id)) then Err (DifferentGroupId group_id psk_group_id)
                else secret ← ok_or (RStore.get resumption_psk_store psk_epoch) KeyNotFound;
                     Ok (secret, foreign_resumption_psk)
            end
        | PskResumption _ _ _ =>
            match foreign_resumption_psk with
            | Some (foreign_psk_id, foreign_psk_secret) =>
                if bool_decide (foreign_psk_id = psk_id) then Ok (foreign_psk_secret, None) else Err KeyNotFound
            | None => Err KeyNotFound
            end
        | PskExternal _ =>
            psk_bundle ← ok_or (storage_psk (psk psk_id)) KeyNotFound;
            secret ← ok_or psk_bundle KeyNotFound;
            Ok (secret, foreign_resumption_psk)
        end;
      psks ← load_psks storage_psk resumption_psk_store group_id foreign psk_ids';
      Ok ((psk_id, secret) :: psks)
  end.
