(* ===== verification/KeyScheduleFacts.v ===== *)
(** * Facts about the key schedule

    The order in which a schedule hands out its secrets, and which resumption PSKs the store
    of a group keeps. *)
From S2P Require Import Prelude TreeMath BinaryTree Crypto CryptoFacts SecretTree PastSecrets Extensions TreeSync LeafNode TreeKem Proposals KeySchedule.

(** ** The schedule as a state machine *)
Section Schedule.
Context {OC : OpenMlsCrypto} {TC : TlsCodec}.

(** The calls that a client can make on a schedule. *)
Inductive schedule_call : Type := CallWelcome | CallAddContext (context : bytes) | CallEpochSecrets.

(** A call, and whether it returned a secret or went through. *)
Definition call (c : schedule_call) (self : KeySchedule) : bool * KeySchedule :=
  match c with
  | CallWelcome => (match KSched.welcome self (ks_ciphersuite self) with Ok _ => true | _ => false end, self)
  | CallAddContext context =>
      let '(r, self') := KSched.add_context context self in (match r with Ok _ => true | _ => false end, self')
  | CallEpochSecrets =>
      let '(r, self') := KSched.epoch_secrets (ks_ciphersuite self) self in (match r with Ok _ => true | _ => false end, self')
  end.

(** The calls of a sequence that succeed. *)
Fixpoint successful (calls : list schedule_call) (self : KeySchedule) : list schedule_call :=
  match calls with
  | [] => []
  | c :: calls' => let '(ok, self') := call c self in if ok then c :: successful calls' self' else successful calls' self'
  end.

Lemma done_nothing calls self : ks_state self = StateDone -> successful calls self = [].
Proof.
  intros Hs. induction calls as [|c calls IH]; [done|]. cbn [successful]. unfold call, KSched.welcome, KSched.add_context, KSched.epoch_secrets.
  rewrite Hs. by destruct c.
Qed.

Lemma context_once calls self : ks_state self = StateContext -> successful calls self = [] \/ successful calls self = [CallEpochSecrets].
Proof.
  intros Hs. induction calls as [|c calls IH]; [by left|]. cbn [successful].
  unfold call, KSched.welcome, KSched.add_context, KSched.epoch_secrets. rewrite Hs. destruct c; [done|done|].
  destruct (ks_epoch_secret self) as [sec|]; [|done]. cbn. rewrite done_nothing by done. destruct (EpSecrets.new _ _); auto.
Qed.

Lemma no_secret_nothing calls self : ks_state self = StateContext -> ks_epoch_secret self = None -> successful calls self = [].
Proof.
  intros Hs He. induction calls as [|c calls IH]; [done|]. cbn [successful].
  unfold call, KSched.welcome, KSched.add_context, KSched.epoch_secrets. rewrite Hs, He. by destruct c.
Qed.

Lemma initial_protocol calls self :
  ks_state self = StateInitial -> ks_epoch_secret self = None ->
  exists k rest, successful calls self = replicate k CallWelcome ++ rest /\
    (rest = [] \/ exists context, rest = [CallAddContext context] \/ rest = [CallAddContext context; CallEpochSecrets]).
Proof.
  intros Hs He. induction calls as [|c calls IH]; cbn [successful]; [by exists 0%nat, []; auto|].
  unfold call, KSched.welcome, KSched.add_context, KSched.epoch_secrets. rewrite Hs. destruct c as [|ctx|]; [| |done].
  - destruct IH as (k & rest & E & Hr). destruct (ks_intermediate_secret self) as [sec|]; [|by exists k, rest].
    destruct (derive_secret _ _ _); cbn; [exists (S k), rest; by rewrite E|by exists k, rest..].
  - destruct (ks_intermediate_secret self) as [sec|]; [|done]. destruct (kdf_expand_label _ _ _ _ _) as [es|e|]; [| |done].
    + match goal with |- context [successful calls ?s] => destruct (context_once calls s eq_refl) as [-> | ->] end;
        exists 0%nat; eexists; (split; [done|]); right; exists ctx; auto.
    + exists 0%nat, []. rewrite no_secret_nothing by done. auto.
Qed.

(** A key schedule hands out its secrets in order and at most once: whatever calls are made
    on a new schedule, those that succeed are requests for the welcome secret, then at most one
    context, then at most one request for the epoch secrets. *)
Theorem schedule_protocol cs joiner_secret psk self calls :
  KSched.init cs joiner_secret psk = Ok self ->
  exists k rest, successful calls self = replicate k CallWelcome ++ rest /\
    (rest = [] \/ exists context, rest = [CallAddContext context] \/ rest = [CallAddContext context; CallEpochSecrets]).
Proof. unfold KSched.init. intros E. apply bind_Ok in E as (sec & _ & [= <-]). by apply initial_protocol. Qed.
End Schedule.

(** ** The store of resumption PSKs *)
Definition add_all (m : nat) (l : list (Z * Secret)) : ResumptionPskStore :=
  foldl (fun store entry => RStore.add store entry.1 entry.2) (RStore.new m) l.

(** Where the [j]-th entry goes in a store of size [m]. *)
Definition slot (m j : nat) : nat := if decide (j < m)%nat then j else ((j + 1) mod m)%nat.

(** The store after the entries [l]. *)
Record holds (m : nat) (l : list (Z * Secret)) (store : ResumptionPskStore) : Prop := {
  ho_max : max_number_of_secrets store = m;
  ho_length : length (resumption_psks store) = min (length l) m;
  ho_cursor : cursor store = if decide (length l <= m)%nat then length l else slot m (length l - 1);
  ho_sub entry : entry ∈ resumption_psks store -> entry ∈ l;
  ho_recent j : (j < length l < j + m)%nat -> resumption_psks store !! slot m j = l !! j;
}.

Lemma slot_apart m j n : (0 < m)%nat -> (j < n)%nat -> (n + 1 < j + m)%nat -> slot m j <> slot m n.
Proof.
  intros Hm Hj Hn. unfold slot. repeat case_decide; [lia| |lia|].
  - intros E. pose proof (Nat.div_mod_eq (n + 1) m) as Hd. rewrite <- E in Hd.
    assert ((n + 1) / m = 0 \/ (n + 1) / m = 1 \/ 2 <= (n + 1) / m)%nat as [H1|[H1|H1]] by lia; [rewrite H1 in Hd; lia..|].
    nia.
  - intros E. pose proof (Nat.div_mod_eq (n + 1) m) as Hd. pose proof (Nat.div_mod_eq (j + 1) m) as Hd'. rewrite E in Hd'.
    assert (m * ((n + 1) / m) - m * ((j + 1) / m) = n - j)%nat as Hq by lia.
    destruct (Nat.lt_trichotomy ((n + 1) / m) ((j + 1) / m)) as [|[|]]; nia.
Qed.

Lemma slot_lt m j : (0 < m)%nat -> (slot m j < m)%nat.
Proof. intros Hm. unfold slot. case_decide; [done|]. apply Nat.mod_upper_bound. lia. Qed.

Lemma cursor_next m n : (0 < m)%nat -> (m <= n)%nat ->
  (((if decide (n <= m)%nat then n else slot m (n - 1)) + 1) mod m)%nat = slot m n.
Proof.
  intros Hm Hn. unfold slot at 2. rewrite (decide_False (P := (n < m)%nat)) by lia. case_decide; [done|].
  unfold slot. rewrite decide_False by lia. replace (n - 1 + 1)%nat with n by lia. rewrite Nat.Div0.add_mod_idemp_l. done.
Qed.

Lemma holds_all m l : (0 < m)%nat -> holds m l (add_all m l).
Proof.
  intros Hm. induction l as [|x l IH] using rev_ind.
  { split; cbn; [done|done|done|by intros ? ?%not_elem_of_nil|lia]. }
  unfold add_all in *. rewrite foldl_snoc. set (store := foldl _ _ l) in *. destruct IH as [Hx Hl Hc Hs Hr].
  unfold RStore.add. rewrite Hx, bool_decide_false by lia. rewrite Hl. destruct (decide (length l < m)%nat) as [Hlt|Hge].
  - rewrite bool_decide_true by lia. split; cbn; rewrite ?length_app; cbn; [done|cbn in *; lia| | |].
    + rewrite Hc, !decide_True by lia. lia.
    + intros e. rewrite !elem_of_app. intros [He|He]; [left; by apply Hs|right; by destruct x].
    + intros j Hj. unfold slot. rewrite decide_True by lia. destruct (decide (j < length l)%nat).
      * rewrite !lookup_app_l by lia. specialize (Hr j). unfold slot in Hr. rewrite decide_True in Hr by lia. apply Hr. lia.
      * assert (j = length l) as -> by lia. rewrite !lookup_app_r by lia. rewrite Hl. replace (length l `min` m)%nat with (length l) by lia. by destruct x.
  - rewrite bool_decide_false by lia. replace (length l `min` m)%nat with m in * by lia. rewrite Hc, cursor_next by lia.
    pose proof (slot_lt m (length l) Hm) as Hsl. split; cbn; rewrite ?length_app; cbn; [done|rewrite ?length_insert; cbn in *; lia| | |].
    + rewrite decide_False by lia. f_equal. lia.
    + intros e (i & Hi)%list_elem_of_lookup. apply elem_of_app. destruct x as [e1 s1].
      apply list_lookup_insert_Some in Hi as [(_ & <- & _)|[_ Hi]]; [right; by constructor|left]. by apply Hs, list_elem_of_lookup; eauto.
    + intros j Hj. destruct (decide (j = length l)) as [->|Hne].
      * rewrite list_lookup_insert_eq by lia. rewrite lookup_app_r, Nat.sub_diag by lia. by destruct x.
      * rewrite list_lookup_insert_ne by (apply not_eq_sym, slot_apart; lia). rewrite lookup_app_l by lia. apply Hr. lia.
Qed.

Lemma get_unique store l e s :
  NoDup l.*1 -> (forall entry, entry ∈ resumption_psks store -> entry ∈ l) -> (e, s) ∈ resumption_psks store -> RStore.get store e = Some s.
Proof.
  intros Hn Hsub Hin. unfold RStore.get. destruct (list_find _ _) as [[i [e' s']]|] eqn:E.
  - apply list_find_Some in E as (Hi & He & _). cbn in *. subst e'. f_equal.
    assert ((e, s') ∈ l /\ (e, s) ∈ l) as [H1 H2] by (split; apply Hsub; [by eapply list_elem_of_lookup_2|done]).
    clear -Hn H1 H2. induction l as [|[e1 s1] l IH]; [by apply not_elem_of_nil in H1|]. rewrite fmap_cons in Hn.
    apply NoDup_cons in Hn as [Hx Hn]. apply elem_of_cons in H1 as [[= <- <-]|H1], H2 as [[= <-]|H2]; [done| | |by apply IH].
    + destruct Hx. by apply (list_elem_of_fmap_2 fst) in H2.
    + simplify_eq. destruct Hx. by apply (list_elem_of_fmap_2 fst) in H1.
  - apply list_find_None in E. by apply (proj1 (Forall_forall _ _) E) in Hin.
Qed.

(** The resumption PSKs of the most recent epochs are always there: after PSKs of distinct
    epochs were added to a new store of size [m], it returns those of the last [m - 1] epochs,
    and never a secret that was not added for the epoch. *)
Theorem resumption_psks_recent m l :
  (0 < m)%nat -> NoDup l.*1 ->
  (forall j e s, l !! j = Some (e, s) -> (length l < j + m)%nat -> RStore.get (add_all m l) e = Some s) /\
  (forall e s, RStore.get (add_all m l) e = Some s -> (e, s) ∈ l) /\ (length (resumption_psks (add_all m l)) <= m)%nat.
Proof.
  intros Hm Hn. destruct (holds_all m l Hm) as [Hx Hl _ Hs Hr]. split; [|split; [|lia]].
  - intros j e s Hj Hlt. pose proof (lookup_lt_Some _ _ _ Hj). apply (get_unique _ l); [done|done|].
    apply list_elem_of_lookup. exists (slot m j). rewrite Hr by lia. done.
  - intros e s. unfold RStore.get. destruct (list_find _ _) as [[i [e' s']]|] eqn:E; [|done]. intros [= <-].
    apply list_find_Some in E as (Hi & He & _). cbn in He. subst e'. apply Hs. by eapply list_elem_of_lookup_2.
Qed.

Lemma resumption_psks_recent_witness :
  RStore.get (add_all 3 [(0, [10]); (1, [11]); (2, [12]); (3, [13])]) 2 = Some [12].
Proof.
  refine (proj1 (resumption_psks_recent 3 [(0, [10]); (1, [11]); (2, [12]); (3, [13])] _ _) 2%nat 2 [12] eq_refl _); [lia| |cbn; lia].
  apply (bool_decide_unpack _). vm_compute. exact I.
Defined.

(** The oldest PSK outlives the second one when the store is full for the first time. *)
Lemma resumption_psks_rollover :
  RStore.get (add_all 3 [(0, [10]); (1, [11]); (2, [12]); (3, [13])]) 0 = Some [10] /\
  RStore.get (add_all 3 [(0, [10]); (1, [11]); (2, [12]); (3, [13])]) 1 = None.
Proof. split; vm_compute; reflexivity. Qed.

(** ** A run of the schedule *)
Import Toy.

Definition toy_schedule : KeySchedule :=
  Eval vm_compute in
    match KSched.init toy_cs [1] [2] with Ok self => self | _ => mkKeySchedule toy_cs None None StateDone end.

Lemma toy_schedule_init : KSched.init toy_cs [1] [2] = Ok toy_schedule.
Proof. vm_compute. reflexivity. Qed.

Lemma schedule_protocol_witness :
  let calls := [CallEpochSecrets; CallWelcome; CallAddContext [7]; CallWelcome; CallAddContext [8]; CallEpochSecrets; CallEpochSecrets] in
  successful calls toy_schedule = [CallWelcome; CallAddContext [7]; CallEpochSecrets] /\
  exists k rest, successful calls toy_schedule = replicate k CallWelcome ++ rest.
Proof.
  intros calls. split; [vm_compute; reflexivity|].
  destruct (schedule_protocol toy_cs [1] [2] toy_schedule calls toy_schedule_init) as (k & rest & E & _). by exists k, rest.
Defined.
