(* ===== verification/Framing.v ===== *)
(** * Framing: signing content, public messages

    Models the signed content of openmls/src/framing/mls_content.rs and
    mls_auth_content.rs, the membership tag of public_message.rs and public_message_in.rs,
    and the wire format policies of group/mls_group/config.rs. *)
From S2P Require Import Prelude TreeMath BinaryTree Crypto SecretTree PastSecrets Extensions TreeSync LeafNode TreeKem Proposals KeySchedule.

Record FramingParameters : Type := mkFramingParameters { fp_aad : bytes; fp_wire_format : WireFormat }.

(** ** Wire format policies *)
Inductive IncomingWireFormatPolicy : Type := IncomingCiphertext | IncomingPlaintext | IncomingMixed.
Inductive OutgoingWireFormatPolicy : Type := OutgoingCiphertext | OutgoingPlaintext.
Record WireFormatPolicy : Type := mkWireFormatPolicy {
  wf_outgoing : OutgoingWireFormatPolicy;
  wf_incoming : IncomingWireFormatPolicy;
}.

Definition is_compatible_with (self : IncomingWireFormatPolicy) (wire_format : WireFormat) : bool :=
  match self with
  | IncomingCiphertext => bool_decide (wire_format = WirePrivateMessage)
  | IncomingPlaintext => bool_decide (wire_format = WirePublicMessage)
  | IncomingMixed => bool_decide (wire_format = WirePrivateMessage) || bool_decide (wire_format = WirePublicMessage)
  end.

(** [From<OutgoingWireFormatPolicy> for WireFormat]. *)
Definition outgoing_wire_format (self : OutgoingWireFormatPolicy) : WireFormat :=
  match self with OutgoingCiphertext => WirePrivateMessage | OutgoingPlaintext => WirePublicMessage end.

Definition is_handshake_message (self : ContentType) : bool :=
  bool_decide (self = ContentProposal) || bool_decide (self = ContentCommit).

(** ** Signed content *)
Record FramedContentTbs : Type := mkFramedContentTbs {
  tbs_version : ProtocolVersion.t;
  tbs_wire_format : WireFormat;
  tbs_content : FramedContent;
  tbs_serialized_context : option bytes;
}.

Definition FRAMED_CONTENT_LABEL : string := "FramedContentTBS".

Section Content.
Context {OC : OpenMlsCrypto} {TC : TlsCodec}.

(** Whether the context is part of what a sender signs. *)
Definition signs_context (sender : Sender.t) : bool :=
  match sender with Sender.Member _ | Sender.NewMemberCommit => true | _ => false end.

(** [framed_content_tbs_serialized]. *)
Definition framed_content_tbs_serialized (version : ProtocolVersion.t) (wire_format : WireFormat) (content : FramedContent)
    (sender : Sender.t) (serialized_context : option bytes) : option bytes :=
  tls_struct [ProtocolVersion.tls_serialize version; Some (be_bytes 2 (wire_format_u16 wire_format));
              tls_framed_content content;
              Some (match serialized_context with
                    | Some context => if signs_context sender then context else []
                    | None => []
                    end)].

Definition tls_framed_content_tbs (self : FramedContentTbs) : option bytes :=
  framed_content_tbs_serialized (tbs_version self) (tbs_wire_format self) (tbs_content self) (fc_sender (tbs_content self))
    (tbs_serialized_context self).

(** [FramedContentTbs::new] and [with_context], then [sign]. *)
Definition new_and_sign (framing_parameters : FramingParameters) (sender : Sender.t) (body : FramedContentBody)
    (context : GroupContext) (signer : bytes -> option bytes) : result LibraryError AuthenticatedContent :=
  let content := mkFramedContent (gc_group_id context) (gc_epoch context) sender (fp_aad framing_parameters) body in
  serialized_context ←
    (if signs_context sender then serialized ← ok_or (tls_group_context context) MissingBoundsCheck; Ok (Some serialized)
     else Ok None);
  let tbs := mkFramedContentTbs ProtocolVersion.Mls10 (fp_wire_format framing_parameters) content serialized_context in
  signature ← map_err (fun _ => CustomError "Signing failed")
                (Signable.sign FRAMED_CONTENT_LABEL (tls_framed_content_tbs tbs) signer);
  Ok (mkAuthenticatedContent (fp_wire_format framing_parameters) content (mkFramedContentAuthData signature None)).

Definition new_application (sender_leaf_index : LeafNodeIndex.t) (authenticated_data application_message : bytes)
    (context : GroupContext) (signer : bytes -> option bytes) : result LibraryError AuthenticatedContent :=
  new_and_sign (mkFramingParameters authenticated_data WirePrivateMessage) (Sender.Member sender_leaf_index)
    (BodyApplication application_message) context signer.

Definition new_member_proposal (framing_parameters : FramingParameters) (sender_leaf_index : LeafNodeIndex.t)
    (proposal : Proposal.t) (context : GroupContext) (signer : bytes -> option bytes) :
    result LibraryError AuthenticatedContent :=
  new_and_sign framing_parameters (Sender.Member sender_leaf_index) (BodyProposal proposal) context signer.

Definition new_commit (framing_parameters : FramingParameters) (sender : Sender.t) (commit : Commit)
    (context : GroupContext) (signer : bytes -> option bytes) : result LibraryError AuthenticatedContent :=
  new_and_sign framing_parameters sender (BodyCommit commit) context signer.

Definition set_confirmation_tag (self : AuthenticatedContent) (tag : bytes) : AuthenticatedContent :=
  mkAuthenticatedContent (ac_wire_format self) (ac_content self)
    (mkFramedContentAuthData (auth_signature (ac_auth self)) (Some tag)).

(** ** Public messages *)
Record PublicMessage : Type := mkPublicMessage {
  pm_content : FramedContent;
  pm_auth : FramedContentAuthData;
  pm_membership_tag : option bytes;
}.

Inductive MembershipError : Type :=
  | MembershipLibraryError (e : LibraryError) | InvalidMembershipTag | MissingMembershipTag.

Definition public_message_from (v : AuthenticatedContent) : PublicMessage := mkPublicMessage (ac_content v) (ac_auth v) None.

(** The serialized [AuthenticatedContentTbm]. *)
Definition tbm_payload (content : FramedContent) (auth : FramedContentAuthData) (serialized_context : bytes) :
    option bytes :=
  tls_struct [framed_content_tbs_serialized ProtocolVersion.default WirePublicMessage content (fc_sender content)
                (Some serialized_context); tls_auth_data auth].

(** [MembershipKey::tag_message] of the message. *)
Definition tag_message (membership_key : Secret) (ciphersuite : Ciphersuite) (content : FramedContent)
    (auth : FramedContentAuthData) (serialized_context : bytes) : result LibraryError bytes :=
  payload ← ok_or (tbm_payload content auth serialized_context) MissingBoundsCheck;
  map_err UnexpectedCryptoError (mac_new ciphersuite membership_key payload).

Definition set_membership_tag (self : PublicMessage) (ciphersuite : Ciphersuite) (membership_key : Secret)
    (serialized_context : bytes) : result LibraryError PublicMessage :=
  membership_tag ← tag_message membership_key ciphersuite (pm_content self) (pm_auth self) serialized_context;
  Ok (mkPublicMessage (pm_content self) (pm_auth self) (Some membership_tag)).

Definition verify_membership (self : PublicMessage) (ciphersuite : Ciphersuite) (membership_key : Secret)
    (serialized_context : bytes) : result MembershipError unit :=
  expected_membership_tag ← map_err MembershipLibraryError
    (tag_message membership_key ciphersuite (pm_content self) (pm_auth self) serialized_context);
  match pm_membership_tag self with
  | Some membership_tag =>
      if bool_decide (membership_tag = expected_membership_tag) then Ok tt else Err InvalidMembershipTag
  | None => Err MissingMembershipTag
  end.
End Content.
