(* ===== verification/PrivateMessages.v ===== *)
(** * Private messages

    Models openmls/src/framing/private_message.rs, private_message_in.rs, the sender data of
    sender.rs, the padding check of codec.rs and the deserialization of mls_content_in.rs and
    mls_auth_content.rs. Messages as they come in share the types of the messages that are
    sent. [ContentDecoder] stands for the deserialization that the tls_codec derive macros
    generate for proposals and commits. *)
From S2P Require Import Prelude TreeMath BinaryTree Crypto SenderRatchet SecretTree PastSecrets Extensions TreeSync LeafNode TreeKem Proposals KeySchedule Framing.

Class ContentDecoder : Type := {
  tls_read_proposal : bytes -> option (Proposal.t * bytes);
  tls_read_commit : bytes -> option (Commit * bytes);
}.

Inductive MessageEncryptionError : Type :=
  | EncryptionLibraryError (e : LibraryError) | EncryptionWrongWireFormat | EncryptionSecretTreeError (e : SecretTreeError).

Inductive MessageDecryptionError : Type :=
  | DecryptionLibraryError (e : LibraryError) | GenerationOutOfBound | AeadError | DecryptionWrongWireFormat
  | MalformedContent | DecryptionSecretTreeError (e : SecretTreeError).

Record PrivateMessage : Type := mkPrivateMessage {
  pvm_group_id : bytes;
  pvm_epoch : Z;
  pvm_content_type : ContentType;
  pvm_authenticated_data : bytes;
  pvm_encrypted_sender_data : bytes;
  pvm_ciphertext : bytes;
}.

Record MlsSenderData : Type := mkMlsSenderData {
  sd_leaf_index : LeafNodeIndex.t;
  sd_generation : Z;
  sd_reuse_guard : bytes;
}.

Definition tls_sender_data (self : MlsSenderData) : option bytes :=
  tls_struct [Some (be_bytes 4 (sd_leaf_index self)); Some (be_bytes 4 (sd_generation self)); Some (sd_reuse_guard self)].

(** What follows the three fields is not looked at. *)
Definition tls_read_sender_data (b : bytes) : option MlsSenderData :=
  '(leaf_index, b) ← read_be 4 b;
  '(generation, b) ← read_be 4 b;
  '(reuse_guard, _) ← read_bytes (Z.to_nat REUSE_GUARD_BYTES) b;
  Some (mkMlsSenderData leaf_index generation reuse_guard).

Section PrivateMessages.
Context {OC : OpenMlsCrypto} {TC : TlsCodec} {CD : ContentDecoder}.

(** The serialized [PrivateContentAad] and [MlsSenderDataAad]. *)
Definition private_content_aad (group_id : bytes) (epoch : Z) (content_type : ContentType) (authenticated_data : bytes) :
    option bytes :=
  tls_struct [tls_vlbytes group_id; Some (be_bytes 8 epoch); Some [content_type_u8 content_type];
              tls_vlbytes authenticated_data].

Definition sender_data_aad (group_id : bytes) (epoch : Z) (content_type : ContentType) : option bytes :=
  tls_struct [tls_vlbytes group_id; Some (be_bytes 8 epoch); Some [content_type_u8 content_type]].

(** ** Encryption *)
Definition padding_length (padding_size plaintext_length mac_len : Z) : Z :=
  if padding_size >? 0 then (padding_size - (plaintext_length + mac_len) mod padding_size) mod padding_size else 0.

Definition encode_padded_ciphertext_content_detached (authenticated_content : AuthenticatedContent) (padding_size mac_len : Z) :
    option bytes :=
  plaintext ← tls_struct [serialize_without_type (fc_body (ac_content authenticated_content));
                          tls_auth_data (ac_auth authenticated_content)];
  Some (plaintext ++ replicate (Z.to_nat (padding_length padding_size (Z.of_nat (length plaintext)) mac_len)) 0).

(** A method of the secret tree, run on the tree inside the message secrets. *)
Definition set_secret_tree (self : MessageSecrets) (tree : SecretTree) : MessageSecrets :=
  mkMessageSecrets (sender_data_secret self) (membership_key self) (confirmation_key self) (serialized_context self) tree
    (added_at self).

Definition secret_tree_mut {E F A} (f : E -> F) (m : stateful SecretTree E A) : stateful MessageSecrets F A := fun self =>
  let '(r, tree) := m (secret_tree self) in (map_err f r, set_secret_tree self tree).

(** [encrypt_content]; [random_guard] is what the random number generator returns. *)
Definition encrypt_content (random_guard : option bytes) (public_message : AuthenticatedContent) (ciphersuite : Ciphersuite)
    (padding_size : Z) : stateful MessageSecrets MessageEncryptionError (Z * PrivateMessage) :=
  let content := ac_content public_message in
  let ty := content_type (fc_body content) in
  let crypto {A} (r : result CryptoError A) := lifting (map_err (fun e => EncryptionLibraryError (UnexpectedCryptoError e)) r) in
  let bounds (o : option bytes) := lifting (ok_or o (EncryptionLibraryError MissingBoundsCheck)) in
  sender_index ← lifting (ok_or (Sender.as_member (fc_sender content))
                            (EncryptionLibraryError (CustomError "Sender is not a member.")));
  private_message_content_aad_bytes ←
    bounds (private_content_aad (fc_group_id content) (fc_epoch content) ty (fc_authenticated_data content));
  '(generation, (ratchet_key, ratchet_nonce)) ←
    secret_tree_mut EncryptionSecretTreeError (STree.secret_for_encryption ciphersuite sender_index (SecretType_from ty));
  reuse_guard ← lifting (ok_or random_guard (EncryptionLibraryError (UnexpectedCryptoError InsufficientRandomness)));
  let prepared_nonce := xor_with_reuse_guard ratchet_nonce reuse_guard in
  padded ← bounds (encode_padded_ciphertext_content_detached public_message padding_size (Suite.mac_length ciphersuite));
  ciphertext ← crypto (aead_seal ratchet_key padded private_message_content_aad_bytes prepared_nonce);
  sender_data_secret ← reading (fun self => Ok (sender_data_secret self));
  sender_data_key ← crypto (sender_data_key sender_data_secret ciphersuite ciphertext);
  sender_data_nonce ← crypto (sender_data_nonce sender_data_secret ciphersuite ciphertext);
  mls_sender_data_aad_bytes ← bounds (sender_data_aad (fc_group_id content) (fc_epoch content) ty);
  sender_data ← bounds (tls_sender_data (mkMlsSenderData sender_index generation reuse_guard));
  encrypted_sender_data ← crypto (aead_seal sender_data_key sender_data mls_sender_data_aad_bytes sender_data_nonce);
  mret (generation, mkPrivateMessage (fc_group_id content) (fc_epoch content) ty (fc_authenticated_data content)
                      encrypted_sender_data ciphertext).

Definition try_from_authenticated_content (random_guard : option bytes) (public_message : AuthenticatedContent)
    (ciphersuite : Ciphersuite) (padding_size : Z) : stateful MessageSecrets MessageEncryptionError (Z * PrivateMessage) :=
  if negb (bool_decide (ac_wire_format public_message = WirePrivateMessage)) then lifting (Err EncryptionWrongWireFormat)
  else encrypt_content random_guard public_message ciphersuite padding_size.

(** ** Decryption *)
Definition deserialize_without_type (b : bytes) (content_type : ContentType) : option (FramedContentBody * bytes) :=
  match content_type with
  | ContentApplication => '(data, b') ← tls_read_vlbytes b; Some (BodyApplication data, b')
  | ContentProposal => '(p, b') ← tls_read_proposal b; Some (BodyProposal p, b')
  | ContentCommit => '(c, b') ← tls_read_commit b; Some (BodyCommit c, b')
  end.

(** [FramedContentAuthData::deserialize]. *)
Definition deserialize_auth_data (b : bytes) (content_type : ContentType) : option (FramedContentAuthData * bytes) :=
  '(signature, b) ← tls_read_vlbytes b;
  match content_type with
  | ContentCommit => '(tag, b) ← tls_read_vlbytes b; Some (mkFramedContentAuthData signature (Some tag), b)
  | _ => Some (mkFramedContentAuthData signature None, b)
  end.

Definition deserialize_ciphertext_content (b : bytes) (content_type : ContentType) :
    option (FramedContentBody * FramedContentAuthData) :=
  '(content, b) ← deserialize_without_type b content_type;
  '(auth, padding) ← deserialize_auth_data b content_type;
  if forallb (fun byte => byte =? 0) padding then Some (content, auth) else None.

Definition sender_data (self : PrivateMessage) (message_secrets : MessageSecrets) (ciphersuite : Ciphersuite) :
    result MessageDecryptionError MlsSenderData :=
  let crypto {A} (r : result CryptoError A) := map_err (fun e => DecryptionLibraryError (UnexpectedCryptoError e)) r in
  sender_data_key ← crypto (sender_data_key (sender_data_secret message_secrets) ciphersuite (pvm_ciphertext self));
  sender_data_nonce ← crypto (sender_data_nonce (sender_data_secret message_secrets) ciphersuite (pvm_ciphertext self));
  aad ← ok_or (sender_data_aad (pvm_group_id self) (pvm_epoch self) (pvm_content_type self))
          (DecryptionLibraryError MissingBoundsCheck);
  sender_data_bytes ← map_err (fun _ => AeadError)
                        (aead_open sender_data_key (pvm_encrypted_sender_data self) aad sender_data_nonce);
  ok_or (tls_read_sender_data sender_data_bytes) MalformedContent.

Definition decrypt (self : PrivateMessage) (ratchet_key : AeadKey) (ratchet_nonce : AeadNonce) :
    result MessageDecryptionError (FramedContentBody * FramedContentAuthData) :=
  aad ← ok_or (private_content_aad (pvm_group_id self) (pvm_epoch self) (pvm_content_type self) (pvm_authenticated_data self))
          (DecryptionLibraryError MissingBoundsCheck);
  private_message_content_bytes ← map_err (fun _ => AeadError) (aead_open ratchet_key (pvm_ciphertext self) aad ratchet_nonce);
  ok_or (deserialize_ciphertext_content private_message_content_bytes (pvm_content_type self)) MalformedContent.

(** [VerifiableAuthenticatedContentIn]. *)
Record VerifiableAuthenticatedContent : Type := mkVerifiable {
  v_tbs : FramedContentTbs;
  v_auth : FramedContentAuthData;
}.

Definition verifiable_new (wire_format : WireFormat) (content : FramedContent) (serialized_context : option bytes)
    (auth : FramedContentAuthData) : VerifiableAuthenticatedContent :=
  mkVerifiable (mkFramedContentTbs ProtocolVersion.default wire_format content serialized_context) auth.

Definition to_verifiable_content (self : PrivateMessage) (message_secrets : MessageSecrets)
    (ratchet_key_material : RatchetKeyMaterial) (sender_data : MlsSenderData) :
    result MessageDecryptionError VerifiableAuthenticatedContent :=
  let '(ratchet_key, ratchet_nonce) := ratchet_key_material in
  let prepared_nonce := xor_with_reuse_guard ratchet_nonce (sd_reuse_guard sender_data) in
  '(body, auth) ← decrypt self ratchet_key prepared_nonce;
  Ok (verifiable_new WirePrivateMessage
        (mkFramedContent (pvm_group_id self) (pvm_epoch self) (Sender.Member (sd_leaf_index sender_data))
           (pvm_authenticated_data self) body)
        (Some (serialized_context message_secrets)) auth).

(** [Verifiable::verify]. *)
Definition verify_content (self : VerifiableAuthenticatedContent) (scheme : SignatureScheme) (pk : bytes) :
    result SignatureError AuthenticatedContent :=
  _ ← Signable.verify_no_out scheme pk FRAMED_CONTENT_LABEL (tls_framed_content_tbs (v_tbs self))
        (auth_signature (v_auth self));
  Ok (mkAuthenticatedContent (tbs_wire_format (v_tbs self)) (tbs_content (v_tbs self)) (v_auth self)).
End PrivateMessages.
