(* ===== verification/Welcome.v ===== *)
(** * Group infos and Welcome messages

    Models openmls/src/messages/group_info.rs, the Welcome types of messages/mod.rs, the
    encoding of exported ratchet trees (treesync/mod.rs) and [encrypt_group_secrets] of
    treesync/treekem.rs. The derived deserializations are the class [WelcomeDecoder]. *)
From S2P Require Import Prelude TreeMath BinaryTree Crypto Extensions TreeSync LeafNode TreeKem Proposals KeySchedule.

(** ** Group infos *)
Record GroupInfoTBS : Type := mkGroupInfoTBS {
  gi_group_context : GroupContext;
  gi_extensions : Extensions;
  gi_confirmation_tag : bytes;
  gi_signer : LeafNodeIndex.t;
}.

(** [GroupInfo] and, before its signature is verified, [VerifiableGroupInfo]. *)
Record GroupInfo : Type := mkGroupInfo {
  gi_payload : GroupInfoTBS;
  gi_signature : bytes;
  gi_serialized_payload : option bytes;
}.
Record VerifiableGroupInfo : Type := mkVerifiableGroupInfo { vgi_payload : GroupInfoTBS; vgi_signature : bytes }.

Inductive GroupInfoError : Type := GroupInfoDecryptionFailed | GroupInfoMalformed.

Definition SIGNATURE_GROUP_INFO_LABEL : string := "GroupInfoTBS".

(** ** Welcome messages *)
Record EncryptedGroupSecrets : Type := mkEncryptedGroupSecrets {
  egs_new_member : bytes;
  egs_encrypted_group_secrets : HpkeCiphertext;
}.

Record Welcome : Type := mkWelcome {
  welcome_ciphersuite : Ciphersuite;
  welcome_secrets : list EncryptedGroupSecrets;
  welcome_encrypted_group_info : bytes;
}.

Definition find_encrypted_group_secret (self : Welcome) (hash_ref : bytes) : option EncryptedGroupSecrets :=
  snd <$> list_find (fun egs => hash_ref = egs_new_member egs) (welcome_secrets self).

Record GroupSecrets : Type := mkGroupSecrets {
  gs_joiner_secret : Secret;
  gs_path_secret : option Secret;
  gs_psks : list PreSharedKeyId;
}.

Inductive GroupSecretsError : Type := GroupSecretsDecryptionFailed | GroupSecretsMalformed.

(** The nodes of a [RatchetTree]. *)
Abbreviation RatchetTree := (list (option (Node LeafNode))) (only parsing).

(** Deserialization, with the bytes that follow. *)
Class WelcomeDecoder : Type := {
  tls_read_group_info : bytes -> option (VerifiableGroupInfo * bytes);
  tls_read_group_secrets : bytes -> option (GroupSecrets * bytes);
  tls_read_ratchet_tree : bytes -> option (RatchetTree * bytes);
}.

Section Welcomes.
Context {OC : OpenMlsCrypto} {TC : TlsCodec} {WD : WelcomeDecoder}.

(** The loop of [GroupInfoTBS::new] over the extension types. *)
Definition group_info_extensions_valid (extensions : Extensions) : result InvalidExtensionError unit :=
  try_fold (fun _ extension_type =>
    if bool_decide (ExtensionType.is_valid_in_group_info extension_type = Some false)
    then Err (ExtensionTypeNotValidInGroupInfo extension_type) else Ok tt) (Extension.extension_type <$> extensions) tt.

Definition group_info_tbs_new (group_context : GroupContext) (extensions : Extensions) (confirmation_tag : bytes)
    (signer : LeafNodeIndex.t) : result InvalidExtensionError GroupInfoTBS :=
  _ ← group_info_extensions_valid extensions;
  Ok (mkGroupInfoTBS group_context extensions confirmation_tag signer).

Definition tls_group_info_tbs (self : GroupInfoTBS) : option bytes :=
  tls_struct [tls_group_context (gi_group_context self); tls_extensions (gi_extensions self);
              tls_vlbytes (gi_confirmation_tag self); Some (be_bytes 4 (gi_signer self))].

(** [Signable::sign] and [SignedStruct::from_payload]. *)
Definition group_info_sign (self : GroupInfoTBS) (signer : bytes -> option bytes) : result SignatureError GroupInfo :=
  signature ← Signable.sign SIGNATURE_GROUP_INFO_LABEL (tls_group_info_tbs self) signer;
  Ok (mkGroupInfo self signature (tls_group_info_tbs self)).

Definition tls_group_info (self : GroupInfo) : option bytes :=
  tls_struct [match gi_serialized_payload self with Some b => Some b | None => tls_group_info_tbs (gi_payload self) end;
              tls_vlbytes (gi_signature self)].

(** [VerifiableGroupInfo::try_from_ciphertext]. *)
Definition group_info_try_from_ciphertext (skey : AeadKey) (nonce : AeadNonce) (ciphertext context : bytes) :
    result GroupInfoError VerifiableGroupInfo :=
  plaintext ← map_err (fun _ => GroupInfoDecryptionFailed) (aead_open skey ciphertext context nonce);
  '(verifiable_group_info, rest) ← ok_or (tls_read_group_info plaintext) GroupInfoMalformed;
  if negb (bool_decide (rest = [])) then Err GroupInfoMalformed else Ok verifiable_group_info.

(** [Verifiable::verify]. *)
Definition group_info_verify (self : VerifiableGroupInfo) (scheme : SignatureScheme) (pk : bytes) :
    result SignatureError GroupInfo :=
  _ ← Signable.verify_no_out scheme pk SIGNATURE_GROUP_INFO_LABEL (tls_group_info_tbs (vgi_payload self)) (vgi_signature self);
  Ok (mkGroupInfo (vgi_payload self) (vgi_signature self) None).

(** ** Group secrets *)

(** [GroupSecrets::new_encoded]. *)
Definition new_encoded (joiner_secret : Secret) (path_secret : option Secret) (psks : list PreSharedKeyId) : option bytes :=
  tls_struct [tls_vlbytes joiner_secret; tls_optional tls_vlbytes path_secret; tls_vec tls_psk_id psks].

(** [GroupSecrets::try_from_ciphertext]. *)
Definition group_secrets_try_from_ciphertext (skey : bytes) (ciphertext : HpkeCiphertext) (context : bytes)
    (ciphersuite : Ciphersuite) : result GroupSecretsError GroupSecrets :=
  plaintext ← map_err (fun _ => GroupSecretsDecryptionFailed)
                (Hpke.decrypt_with_label skey "Welcome" context ciphertext ciphersuite);
  '(group_secrets, rest) ← ok_or (tls_read_group_secrets plaintext) GroupSecretsMalformed;
  if negb (bool_decide (rest = [])) then Err GroupSecretsMalformed else Ok group_secrets.

(** [KeyPackage::hash_ref]. *)
Definition key_package_hash_ref (self : KeyPackage) : result LibraryError bytes :=
  b ← ok_or (tls_key_package self) MissingBoundsCheck;
  map_err UnexpectedCryptoError (make_key_package_ref b (kp_ciphersuite (kp_payload self))).

(** The body of the loop of [TreeSyncDiff::encrypt_group_secrets]. *)
Definition encrypt_member_secrets (self : TreeSyncDiff LeafNode) (joiner_secret : Secret)
    (plain_path_option : option (list PlainUpdatePathNode)) (presharedkeys : list PreSharedKeyId) (encrypted_group_info : bytes)
    (encryptor_leaf_index : LeafNodeIndex.t) (invited_member : LeafNodeIndex.t * KeyPackage) :
    result LibraryError EncryptedGroupSecrets :=
  let '(leaf_index, key_package) := invited_member in
  direct_path_position ← map_err (fun _ => CustomError "Unexpected error in subtree_root_position")
    (TSDiff.subtree_root_position self encryptor_leaf_index leaf_index);
  path_secret_option ← match plain_path_option with
                       | Some plain_path =>
                           pupn ← ok_or (plain_path !! direct_path_position) (CustomError "Invalid plain path");
                           Ok (Some (plain_path_secret pupn))
                       | None => Ok None
                       end;
  group_secrets_bytes ← ok_or (new_encoded joiner_secret path_secret_option presharedkeys) MissingBoundsCheck;
  ciphertext ← map_err (fun _ => CustomError "Error while encrypting group secrets. This could have really only been a missing bounds check in the serialization")
    (Hpke.encrypt_with_label (kp_init_key (kp_payload key_package)) "Welcome" encrypted_group_info group_secrets_bytes
       (kp_ciphersuite (kp_payload key_package)));
  new_member ← key_package_hash_ref key_package;
  Ok (mkEncryptedGroupSecrets new_member ciphertext).

Definition encrypt_group_secrets (self : TreeSyncDiff LeafNode) (joiner_secret : Secret)
    (invited_members : list (LeafNodeIndex.t * KeyPackage)) (plain_path_option : option (list PlainUpdatePathNode))
    (presharedkeys : list PreSharedKeyId) (encrypted_group_info : bytes) (encryptor_leaf_index : LeafNodeIndex.t) :
    result LibraryError (list EncryptedGroupSecrets) :=
  try_map (encrypt_member_secrets self joiner_secret plain_path_option presharedkeys encrypted_group_info encryptor_leaf_index)
    invited_members.

(** ** Ratchet trees *)
Definition tls_node (self : Node LeafNode) : option bytes :=
  match self with
  | LeafNodeN leaf => tls_struct [Some [1]; tls_leaf leaf]
  | ParentNodeN parent => tls_struct [Some [2]; tls_parent_node parent]
  end.

Definition tls_ratchet_tree (self : RatchetTree) : option bytes := tls_vec (tls_optional tls_node) self.
End Welcomes.
