(* ===== verification/Decoding.v ===== *)
(** * Deserialization

    The decoders of the types on the wire: the hand-written ones of openmls/src/extensions
    (mod.rs, extension_in.rs, codec.rs), messages/codec.rs, treesync/node/codec.rs and
    versions.rs, and those that the tls_codec derive macros generate for structs (the fields
    in order) and enums (the discriminant, then the field). Reading a vector of elements is the
    class [TlsVecCodec]. A decoder returns the value and the bytes that follow. *)
From S2P Require Import Prelude TreeMath BinaryTree Crypto SecretTree Extensions TreeSync LeafNode TreeKem Proposals KeySchedule Framing PrivateMessages Welcome.

(** [Vec::tls_deserialize] with the decoder of the elements. *)
Class TlsVecCodec : Type := { tls_read_vec {A : Type} : (bytes -> option (A * bytes)) -> bytes -> option (list A * bytes) }.

Section Decoding.
Context {TC : TlsCodec} {VC : TlsVecCodec}.

(** [Option::tls_deserialize]. *)
Definition tls_read_optional {A} (read : bytes -> option (A * bytes)) (b : bytes) : option (option A * bytes) :=
  '(presence, b) ← read_be 1 b;
  if presence =? 0 then Some (None, b)
  else if presence =? 1 then '(a, b) ← read b; Some (Some a, b)
  else None.

(** [tls_deserialize_exact]. *)
Definition tls_exact {A} (read : bytes -> option (A * bytes)) (b : bytes) : option A :=
  '(a, rest) ← read b; if bool_decide (rest = []) then Some a else None.

(** ** Code points *)
Definition read_code {A} (from : Z -> A) (b : bytes) : option (A * bytes) := '(v, b) ← read_be 2 b; Some (from v, b).

Definition read_version : bytes -> option (ProtocolVersion.t * bytes) := read_code ProtocolVersion.from.
Definition read_extension_type : bytes -> option (ExtensionType.t * bytes) := read_code ExtensionType.from.
Definition read_proposal_type : bytes -> option (ProposalType.t * bytes) := read_code ProposalType.from.
Definition read_credential_type : bytes -> option (CredentialType.t * bytes) := read_code CredentialType.from.

(** The derived decoder of [Ciphersuite]: its discriminants are the only values. *)
Definition read_ciphersuite (b : bytes) : option (Ciphersuite * bytes) :=
  '(v, b) ← read_be 2 b;
  ciphersuite ← Suite.try_from v;
  Some (ciphersuite, b).

(** ** Credentials and extensions *)
Definition read_credential (b : bytes) : option (Credential * bytes) :=
  '(credential_type, b) ← read_credential_type b;
  '(content, b) ← tls_read_vlbytes b;
  Some (mkCredential credential_type content, b).

Definition read_required_capabilities (b : bytes) : option (RequiredCapabilitiesExtension * bytes) :=
  '(extension_types, b) ← tls_read_vec read_extension_type b;
  '(proposal_types, b) ← tls_read_vec read_proposal_type b;
  '(credential_types, b) ← tls_read_vec read_credential_type b;
  Some (mkRequiredCapabilities extension_types proposal_types credential_types, b).

Definition read_external_sender (b : bytes) : option (ExternalSender * bytes) :=
  '(signature_key, b) ← tls_read_vlbytes b;
  '(credential, b) ← read_credential b;
  Some (mkExternalSender signature_key credential, b).

Section Extensions.
(** The decoder of ratchet trees, whose leaves carry extensions themselves. *)
Context (read_tree : bytes -> option (RatchetTree * bytes)).

Definition extension_from_data (extension_type : ExtensionType.t) (extension_data : bytes) : option Extension.t :=
  match extension_type with
  | ExtensionType.ApplicationId => Extension.ApplicationId <$> tls_exact tls_read_vlbytes extension_data
  | ExtensionType.RatchetTree => _ ← tls_exact read_tree extension_data; Some (Extension.RatchetTree extension_data)
  | ExtensionType.RequiredCapabilities => Extension.RequiredCapabilities <$> tls_exact read_required_capabilities extension_data
  | ExtensionType.ExternalPub => Extension.ExternalPub <$> tls_exact tls_read_vlbytes extension_data
  | ExtensionType.ExternalSenders => Extension.ExternalSenders <$> tls_exact (tls_read_vec read_external_sender) extension_data
  | ExtensionType.LastResort => if bool_decide (extension_data = []) then Some Extension.LastResort else None
  | ExtensionType.Grease grease | ExtensionType.Unknown grease => Some (Extension.Unknown grease extension_data)
  end.

(** [ExtensionIn::tls_deserialize] for an object that carries extensions. *)
Definition read_extension_in (object : ExtensionObject) (b : bytes) : option (Extension.t * bytes) :=
  '(extension_type, b) ← read_extension_type b;
  '(extension_data, b) ← tls_read_vlbytes b;
  match validate_extension_type object extension_type with
  | Ok _ => extension ← extension_from_data extension_type extension_data; Some (extension, b)
  | _ => None
  end.

(** The loop of [Extensions::try_from] over the candidates. *)
Fixpoint duplicate_free (seen : gset ExtensionType.t) (candidate : Extensions) : bool :=
  match candidate with
  | [] => true
  | extension :: candidate' =>
      let extension_type := Extension.extension_type extension in
      negb (bool_decide (extension_type ∈ seen)) && duplicate_free ({[extension_type]} ∪ seen) candidate'
  end.

Definition read_extensions_with (object : ExtensionObject) (b : bytes) : option (Extensions * bytes) :=
  '(candidate, b) ← tls_read_vec (read_extension_in object) b;
  if duplicate_free ∅ candidate then Some (candidate, b) else None.
End Extensions.

(** ** Leaf nodes and ratchet trees *)
Definition read_lifetime (b : bytes) : option (Lifetime * bytes) :=
  '(not_before, b) ← read_be 8 b;
  '(not_after, b) ← read_be 8 b;
  Some (mkLifetime not_before not_after, b).

Definition read_source (b : bytes) : option (LeafNodeSource * bytes) :=
  '(discriminant, b) ← read_be 1 b;
  if discriminant =? 1 then '(lifetime, b) ← read_lifetime b; Some (SourceKeyPackage lifetime, b)
  else if discriminant =? 2 then Some (SourceUpdate, b)
  else if discriminant =? 3 then '(parent_hash, b) ← tls_read_vlbytes b; Some (SourceCommit parent_hash, b)
  else None.

Definition read_capabilities (b : bytes) : option (Capabilities * bytes) :=
  '(versions, b) ← tls_read_vec read_version b;
  '(ciphersuites, b) ← tls_read_vec (read_be 2) b;
  '(extensions, b) ← tls_read_vec read_extension_type b;
  '(proposals, b) ← tls_read_vec read_proposal_type b;
  '(credentials, b) ← tls_read_vec read_credential_type b;
  Some (mkCapabilities versions ciphersuites extensions proposals credentials, b).

(** No ratchet tree is read here: its extension is not valid in a leaf node. *)
Definition read_payload (b : bytes) : option (LeafNodePayload * bytes) :=
  '(encryption_key, b) ← tls_read_vlbytes b;
  '(signature_key, b) ← tls_read_vlbytes b;
  '(credential, b) ← read_credential b;
  '(capabilities, b) ← read_capabilities b;
  '(source, b) ← read_source b;
  '(extensions, b) ← read_extensions_with (fun _ => None) InLeafNode b;
  Some (mkLeafNodePayload encryption_key signature_key credential capabilities source extensions, b).

Definition read_leaf (b : bytes) : option (LeafNode * bytes) :=
  '(payload, b) ← read_payload b;
  '(signature, b) ← tls_read_vlbytes b;
  Some (mkLeafNode payload signature, b).

Definition read_unmerged_leaves (b : bytes) : option (list LeafNodeIndex.t * bytes) :=
  '(list, b) ← tls_read_vec (read_be 4) b;
  list ← UnmergedLeaves.try_from list;
  Some (list, b).

Definition read_parent_node (b : bytes) : option (ParentNode * bytes) :=
  '(encryption_key, b) ← tls_read_vlbytes b;
  '(parent_hash, b) ← tls_read_vlbytes b;
  '(unmerged_leaves, b) ← read_unmerged_leaves b;
  Some (mkParentNode encryption_key parent_hash unmerged_leaves, b).

Definition read_node (b : bytes) : option (Node LeafNode * bytes) :=
  '(discriminant, b) ← read_be 1 b;
  if discriminant =? 1 then '(leaf, b) ← read_leaf b; Some (LeafNodeN leaf, b)
  else if discriminant =? 2 then '(parent, b) ← read_parent_node b; Some (ParentNodeN parent, b)
  else None.

Definition read_ratchet_tree : bytes -> option (RatchetTree * bytes) := tls_read_vec (tls_read_optional read_node).

Definition read_extensions : ExtensionObject -> bytes -> option (Extensions * bytes) := read_extensions_with read_ratchet_tree.
End Decoding.

(** ** Group contexts, PSK ids and key packages *)
Section Messages.
Context {TC : TlsCodec} {VC : TlsVecCodec}.

Definition read_group_context (b : bytes) : option (GroupContext * bytes) :=
  '(protocol_version, b) ← read_version b;
  '(ciphersuite, b) ← read_ciphersuite b;
  '(group_id, b) ← tls_read_vlbytes b;
  '(epoch, b) ← read_be 8 b;
  '(tree_hash, b) ← tls_read_vlbytes b;
  '(confirmed_transcript_hash, b) ← tls_read_vlbytes b;
  '(extensions, b) ← read_extensions InGroupContext b;
  Some (mkGroupContext protocol_version ciphersuite group_id epoch tree_hash confirmed_transcript_hash extensions, b).

Definition read_usage (b : bytes) : option (ResumptionPskUsage * bytes) :=
  '(discriminant, b) ← read_be 1 b;
  if discriminant =? 1 then Some (UsageApplication, b)
  else if discriminant =? 2 then Some (UsageReinit, b)
  else if discriminant =? 3 then Some (UsageBranch, b)
  else None.

Definition read_psk (b : bytes) : option (Psk * bytes) :=
  '(discriminant, b) ← read_be 1 b;
  if discriminant =? 1 then '(psk_id, b) ← tls_read_vlbytes b; Some (PskExternal psk_id, b)
  else if discriminant =? 2 then
    '(usage, b) ← read_usage b;
    '(psk_group_id, b) ← tls_read_vlbytes b;
    '(psk_epoch, b) ← read_be 8 b;
    Some (PskResumption usage psk_group_id psk_epoch, b)
  else None.

Definition read_psk_id (b : bytes) : option (PreSharedKeyId * bytes) :=
  '(psk, b) ← read_psk b;
  '(psk_nonce, b) ← tls_read_vlbytes b;
  Some (mkPreSharedKeyId psk psk_nonce, b).

(** [KeyPackageTbsIn] and [KeyPackageIn]. *)
Definition read_key_package_tbs (b : bytes) : option (KeyPackageTbs * bytes) :=
  '(protocol_version, b) ← read_version b;
  '(ciphersuite, b) ← read_ciphersuite b;
  '(init_key, b) ← tls_read_vlbytes b;
  '(leaf_node, b) ← read_leaf b;
  '(extensions, b) ← read_extensions AnyObject b;
  Some (mkKeyPackageTbs protocol_version ciphersuite init_key leaf_node extensions, b).

Definition read_key_package (b : bytes) : option (KeyPackage * bytes) :=
  '(payload, b) ← read_key_package_tbs b;
  '(signature, b) ← tls_read_vlbytes b;
  Some (mkKeyPackage payload signature None, b).

(** ** Proposals and commits *)
Definition read_reinit (b : bytes) : option (ReInitProposal * bytes) :=
  '(group_id, b) ← tls_read_vlbytes b;
  '(version, b) ← read_version b;
  '(ciphersuite, b) ← read_ciphersuite b;
  '(extensions, b) ← read_extensions InGroupContext b;
  Some (mkReInitProposal group_id version ciphersuite extensions, b).

(** [ProposalIn::tls_deserialize]. *)
Definition read_proposal (b : bytes) : option (Proposal.t * bytes) :=
  '(proposal_type, b) ← read_proposal_type b;
  match proposal_type with
  | ProposalType.Add => '(key_package, b) ← read_key_package b; Some (Proposal.Add key_package, b)
  | ProposalType.Update => '(leaf_node, b) ← read_leaf b; Some (Proposal.Update leaf_node, b)
  | ProposalType.Remove => '(removed, b) ← read_be 4 b; Some (Proposal.Remove removed, b)
  | ProposalType.PreSharedKey => '(psk, b) ← read_psk_id b; Some (Proposal.PreSharedKey psk, b)
  | ProposalType.Reinit => '(p, b) ← read_reinit b; Some (Proposal.ReInit p, b)
  | ProposalType.ExternalInit => '(kem_output, b) ← tls_read_vlbytes b; Some (Proposal.ExternalInit kem_output, b)
  | ProposalType.GroupContextExtensions =>
      '(extensions, b) ← read_extensions AnyObject b; Some (Proposal.GroupContextExtensions extensions, b)
  | ProposalType.SelfRemove => Some (Proposal.SelfRemove, b)
  | ProposalType.Grease _ | ProposalType.Custom _ =>
      '(payload, b) ← tls_read_vlbytes b;
      Some (Proposal.Custom (mkCustomProposal (ProposalType.to_u16 proposal_type) payload), b)
  end.

Definition read_proposal_or_ref (b : bytes) : option (ProposalOrRef * bytes) :=
  '(discriminant, b) ← read_be 1 b;
  if discriminant =? 1 then '(p, b) ← read_proposal b; Some (InlineProposal p, b)
  else if discriminant =? 2 then '(r, b) ← tls_read_vlbytes b; Some (Reference r, b)
  else None.

Definition read_hpke_ciphertext (b : bytes) : option (HpkeCiphertext * bytes) :=
  '(kem_output, b) ← tls_read_vlbytes b;
  '(ciphertext, b) ← tls_read_vlbytes b;
  Some (mkHpkeCiphertext kem_output ciphertext, b).

Definition read_update_path_node (b : bytes) : option (UpdatePathNode * bytes) :=
  '(public_key, b) ← tls_read_vlbytes b;
  '(encrypted_path_secrets, b) ← tls_read_vec read_hpke_ciphertext b;
  Some (mkUpdatePathNode public_key encrypted_path_secrets, b).

Definition read_update_path (b : bytes) : option (UpdatePath LeafNode * bytes) :=
  '(leaf_node, b) ← read_leaf b;
  '(nodes, b) ← tls_read_vec read_update_path_node b;
  Some (mkUpdatePath leaf_node nodes, b).

Definition read_commit (b : bytes) : option (Commit * bytes) :=
  '(proposals, b) ← tls_read_vec read_proposal_or_ref b;
  '(path, b) ← tls_read_optional read_update_path b;
  Some (mkCommit proposals path, b).

Definition content_decoder : ContentDecoder := {| tls_read_proposal := read_proposal; tls_read_commit := read_commit |}.

(** ** Welcomes and group infos *)
Definition read_group_secrets (b : bytes) : option (GroupSecrets * bytes) :=
  '(joiner_secret, b) ← tls_read_vlbytes b;
  '(path_secret, b) ← tls_read_optional tls_read_vlbytes b;
  '(psks, b) ← tls_read_vec read_psk_id b;
  Some (mkGroupSecrets joiner_secret path_secret psks, b).

Definition read_group_info_tbs (b : bytes) : option (GroupInfoTBS * bytes) :=
  '(group_context, b) ← read_group_context b;
  '(extensions, b) ← read_extensions InGroupInfo b;
  '(confirmation_tag, b) ← tls_read_vlbytes b;
  '(signer, b) ← read_be 4 b;
  Some (mkGroupInfoTBS group_context extensions confirmation_tag signer, b).

(** [VerifiableGroupInfo]. *)
Definition read_group_info (b : bytes) : option (VerifiableGroupInfo * bytes) :=
  '(payload, b) ← read_group_info_tbs b;
  '(signature, b) ← tls_read_vlbytes b;
  Some (mkVerifiableGroupInfo payload signature, b).

Definition welcome_decoder : WelcomeDecoder :=
  {| tls_read_group_info := read_group_info; tls_read_group_secrets := read_group_secrets; tls_read_ratchet_tree := read_ratchet_tree |}.

Definition tls_encrypted_group_secrets (self : EncryptedGroupSecrets) : option bytes :=
  tls_struct [tls_vlbytes (egs_new_member self); tls_hpke_ciphertext (egs_encrypted_group_secrets self)].

Definition tls_welcome (self : Welcome) : option bytes :=
  tls_struct [Some (be_bytes 2 (Suite.to_u16 (welcome_ciphersuite self)));
              tls_vec tls_encrypted_group_secrets (welcome_secrets self); tls_vlbytes (welcome_encrypted_group_info self)].

Definition read_encrypted_group_secrets (b : bytes) : option (EncryptedGroupSecrets * bytes) :=
  '(new_member, b) ← tls_read_vlbytes b;
  '(encrypted_group_secrets, b) ← read_hpke_ciphertext b;
  Some (mkEncryptedGroupSecrets new_member encrypted_group_secrets, b).

Definition read_welcome (b : bytes) : option (Welcome * bytes) :=
  '(ciphersuite, b) ← read_ciphersuite b;
  '(secrets, b) ← tls_read_vec read_encrypted_group_secrets b;
  '(encrypted_group_info, b) ← tls_read_vlbytes b;
  Some (mkWelcome ciphersuite secrets encrypted_group_info, b).
End Messages.

(** ** Framed messages *)
Inductive MlsMessageBodyOut : Type :=
  | OutPublicMessage (m : PublicMessage) | OutPrivateMessage (m : PrivateMessage) | OutWelcome (w : Welcome)
  | OutGroupInfo (g : GroupInfo) | OutKeyPackage (k : KeyPackage).

Inductive MlsMessageBodyIn : Type :=
  | InPublicMessage (m : PublicMessage) | InPrivateMessage (m : PrivateMessage) | InWelcome (w : Welcome)
  | InVerifiableGroupInfo (g : VerifiableGroupInfo) | InKeyPackageMessage (k : KeyPackage).

Section Framed.
Context {TC : TlsCodec} {VC : TlsVecCodec}.

Definition read_sender (b : bytes) : option (Sender.t * bytes) :=
  '(discriminant, b) ← read_be 1 b;
  if discriminant =? 1 then '(leaf_index, b) ← read_be 4 b; Some (Sender.Member leaf_index, b)
  else if discriminant =? 2 then '(index, b) ← read_be 4 b; Some (Sender.External index, b)
  else if discriminant =? 3 then Some (Sender.NewMemberProposal, b)
  else if discriminant =? 4 then Some (Sender.NewMemberCommit, b)
  else None.

Definition read_content_type (b : bytes) : option (ContentType * bytes) :=
  '(v, b) ← read_be 1 b;
  content_type ← content_type_try_from v;
  Some (content_type, b).

Definition read_framed_content (b : bytes) : option (FramedContent * bytes) :=
  '(group_id, b) ← tls_read_vlbytes b;
  '(epoch, b) ← read_be 8 b;
  '(sender, b) ← read_sender b;
  '(authenticated_data, b) ← tls_read_vlbytes b;
  '(content_type, b) ← read_content_type b;
  '(body, b) ← deserialize_without_type (CD := content_decoder) b content_type;
  Some (mkFramedContent group_id epoch sender authenticated_data body, b).

(** [PublicMessage::tls_serialize] and [PublicMessageIn::tls_deserialize]. *)
Definition tls_public_message (self : PublicMessage) : option bytes :=
  tls_struct [tls_framed_content (pm_content self); tls_auth_data (pm_auth self);
              match pm_membership_tag self with Some tag => tls_vlbytes tag | None => Some [] end].

Definition read_public_message (b : bytes) : option (PublicMessage * bytes) :=
  '(content, b) ← read_framed_content b;
  '(auth, b) ← deserialize_auth_data b (content_type (fc_body content));
  '(membership_tag, b) ←
    (if Sender.is_member (fc_sender content) then '(tag, b) ← tls_read_vlbytes b; Some (Some tag, b) else Some (None, b));
  Some (mkPublicMessage content auth membership_tag, b).

Definition tls_private_message (self : PrivateMessage) : option bytes :=
  tls_struct [tls_vlbytes (pvm_group_id self); Some (be_bytes 8 (pvm_epoch self));
              Some [content_type_u8 (pvm_content_type self)]; tls_vlbytes (pvm_authenticated_data self);
              tls_vlbytes (pvm_encrypted_sender_data self); tls_vlbytes (pvm_ciphertext self)].

Definition read_private_message (b : bytes) : option (PrivateMessage * bytes) :=
  '(group_id, b) ← tls_read_vlbytes b;
  '(epoch, b) ← read_be 8 b;
  '(content_type, b) ← read_content_type b;
  '(authenticated_data, b) ← tls_read_vlbytes b;
  '(encrypted_sender_data, b) ← tls_read_vlbytes b;
  '(ciphertext, b) ← tls_read_vlbytes b;
  Some (mkPrivateMessage group_id epoch content_type authenticated_data encrypted_sender_data ciphertext, b).

(** [MlsMessageOut]; the discriminant of the body is the wire format. *)
Definition tls_mls_message (version : ProtocolVersion.t) (body : MlsMessageBodyOut) : option bytes :=
  tls_struct [ProtocolVersion.tls_serialize version;
              match body with
              | OutPublicMessage m => app (be_bytes 2 1) <$> tls_public_message m
              | OutPrivateMessage m => app (be_bytes 2 2) <$> tls_private_message m
              | OutWelcome w => app (be_bytes 2 3) <$> tls_welcome w
              | OutGroupInfo g => app (be_bytes 2 4) <$> tls_group_info g
              | OutKeyPackage k => app (be_bytes 2 5) <$> tls_key_package k
              end].

Definition read_message_body (b : bytes) : option (MlsMessageBodyIn * bytes) :=
  '(discriminant, b) ← read_be 2 b;
  if discriminant =? 1 then '(m, b) ← read_public_message b; Some (InPublicMessage m, b)
  else if discriminant =? 2 then '(m, b) ← read_private_message b; Some (InPrivateMessage m, b)
  else if discriminant =? 3 then '(w, b) ← read_welcome b; Some (InWelcome w, b)
  else if discriminant =? 4 then '(g, b) ← read_group_info b; Some (InVerifiableGroupInfo g, b)
  else if discriminant =? 5 then '(k, b) ← read_key_package b; Some (InKeyPackageMessage k, b)
  else None.

(** [MlsMessageIn::tls_deserialize]. *)
Definition read_mls_message (b : bytes) : option (ProtocolVersion.t * MlsMessageBodyIn * bytes) :=
  '(version, b) ← read_version b;
  '(body, b) ← read_message_body b;
  if negb (bool_decide (version = ProtocolVersion.Mls10)) then None
  else match body with
       | InKeyPackageMessage key_package =>
           if bool_decide (kp_protocol_version (kp_payload key_package) = version) then Some (version, body, b) else None
       | _ => Some (version, body, b)
       end.
End Framed.
