(* ===== verification/ProposalStore.v ===== *)
(** * The proposal store and the proposal queue

    Models openmls/src/group/mls_group/proposal_store.rs. A [HashMap] from references is a
    [gmap]; the order in which one is iterated is an argument. *)
From S2P Require Import Prelude TreeMath BinaryTree Crypto Extensions TreeSync LeafNode TreeKem Proposals.

Record QueuedProposal : Type := mkQueuedProposal {
  qp_proposal : Proposal.t;
  qp_reference : bytes;
  qp_sender : Sender.t;
  qp_type : ProposalOrRefType;
}.

Record SelfRemoveInStore : Type := mkSelfRemoveInStore {
  self_remove_sender : LeafNodeIndex.t;
  self_remove_ref : bytes;
}.

(** ** The store of standalone proposals *)
Abbreviation ProposalStore := (list QueuedProposal) (only parsing).

Module Store.
Definition new : ProposalStore := [].
Definition add (self : ProposalStore) (queued_proposal : QueuedProposal) : ProposalStore := self ++ [queued_proposal].
Definition is_empty (self : ProposalStore) : bool := bool_decide (length self = 0%nat).
Definition empty (self : ProposalStore) : ProposalStore := [].

(** Removes the first proposal with the reference; [None] if there is none. *)
Definition remove (proposal_ref : bytes) (self : ProposalStore) : option unit * ProposalStore :=
  match list_find (fun p => qp_reference p = proposal_ref) self with
  | Some (index, _) => (Some tt, delete index self)
  | None => (None, self)
  end.

Definition self_removes (self : ProposalStore) : list SelfRemoveInStore :=
  omap (fun queued_proposal =>
    match qp_proposal queued_proposal, qp_sender queued_proposal with
    | Proposal.SelfRemove, Sender.Member sender_index =>
        Some (mkSelfRemoveInStore sender_index (qp_reference queued_proposal))
    | _, _ => None
    end) self.
End Store.

(** ** Queued proposals *)
Section Queued.
Context {OC : OpenMlsCrypto} {TC : TlsCodec}.

Definition from_authenticated_content (ciphersuite : Ciphersuite) (content : AuthenticatedContent)
    (proposal_or_ref_type : ProposalOrRefType) : result LibraryError QueuedProposal :=
  proposal_reference ← map_err (fun _ => CustomError "Could not calculate `ProposalRef`.")
                         (ref_from_authenticated_content ciphersuite content);
  match fc_body (ac_content content) with
  | BodyProposal p => Ok (mkQueuedProposal p proposal_reference (fc_sender (ac_content content)) proposal_or_ref_type)
  | _ => Err (CustomError "Wrong content type")
  end.

Definition from_authenticated_content_by_ref (ciphersuite : Ciphersuite) (content : AuthenticatedContent) :
    result LibraryError QueuedProposal := from_authenticated_content ciphersuite content ByReference.

Definition from_proposal_and_sender (ciphersuite : Ciphersuite) (proposal : Proposal.t) (sender : Sender.t) :
    result LibraryError QueuedProposal :=
  proposal_reference ← ref_from_raw_proposal ciphersuite proposal;
  Ok (mkQueuedProposal proposal proposal_reference sender ByValue).
End Queued.

(** ** Helpers of the queue *)
Record OrderedProposalRefs : Type := mkOrderedProposalRefs {
  proposal_refs : gset bytes;
  ordered_proposal_refs : list bytes;
}.

Module Ordered.
Definition new : OrderedProposalRefs := mkOrderedProposalRefs ∅ [].
Definition add (self : OrderedProposalRefs) (proposal_ref : bytes) : OrderedProposalRefs :=
  if bool_decide (proposal_ref ∈ proposal_refs self) then self
  else mkOrderedProposalRefs ({[proposal_ref]} ∪ proposal_refs self) (ordered_proposal_refs self ++ [proposal_ref]).
Definition iter (self : OrderedProposalRefs) : list bytes := ordered_proposal_refs self.
End Ordered.

Inductive FromCommittedProposalsError : Type :=
  | CommittedLibraryError (e : LibraryError) | CommittedProposalNotFound | SelfRemoval
  | DuplicatePskId (id : PreSharedKeyId).

Inductive ProposalQueueError : Type :=
  | QueueLibraryError (e : LibraryError) | QueueProposalNotFound | UpdateFromExternalSender
  | SelfRemoveFromNonMember.

(** [PskProposalDuplicateChecker]: the set of ids seen, as a list. *)
Definition psk_check (psk_proposals : list PreSharedKeyId) (proposal : Proposal.t) :
    result FromCommittedProposalsError (list PreSharedKeyId) :=
  match proposal with
  | Proposal.PreSharedKey psk_id =>
      if bool_decide (psk_id ∈ psk_proposals) then Err (DuplicatePskId psk_id) else Ok (psk_id :: psk_proposals)
  | _ => Ok psk_proposals
  end.

(** ** The queue *)
Record ProposalQueue : Type := mkProposalQueue {
  proposal_references : list bytes;
  queued_proposals_map : gmap bytes QueuedProposal;
}.

Module Queue.
Definition default_queue : ProposalQueue := mkProposalQueue [] ∅.
Definition is_empty (self : ProposalQueue) : bool := bool_decide (length (proposal_references self) = 0%nat).
Definition get (self : ProposalQueue) (proposal_reference : bytes) : option QueuedProposal :=
  queued_proposals_map self !! proposal_reference.

Definition add (self : ProposalQueue) (queued_proposal : QueuedProposal) : ProposalQueue :=
  let proposal_reference := qp_reference queued_proposal in
  match queued_proposals_map self !! proposal_reference with
  | Some _ => self
  | None => mkProposalQueue (proposal_references self ++ [proposal_reference])
              (<[proposal_reference := queued_proposal]> (queued_proposals_map self))
  end.

(** [Extend] and [FromIterator]. *)
Definition extend (self : ProposalQueue) (iter : list QueuedProposal) : ProposalQueue := foldl add self iter.
Definition from_iter (iter : list QueuedProposal) : ProposalQueue := extend default_queue iter.

Definition queued_proposals (self : ProposalQueue) : list QueuedProposal := omap (get self) (proposal_references self).

Definition filtered_by_type (self : ProposalQueue) (proposal_type : ProposalType.t) : list QueuedProposal :=
  omap (get self) (List.filter (fun pr => match queued_proposals_map self !! pr with
                                          | Some p => Proposal.is_type (qp_proposal p) proposal_type
                                          | None => false
                                          end) (proposal_references self)).

Definition add_proposals (self : ProposalQueue) : list (KeyPackage * Sender.t) :=
  omap (fun qp => match qp_proposal qp with Proposal.Add kp => Some (kp, qp_sender qp) | _ => None end)
    (queued_proposals self).
Definition remove_proposals (self : ProposalQueue) : list (LeafNodeIndex.t * Sender.t) :=
  omap (fun qp => match qp_proposal qp with Proposal.Remove removed => Some (removed, qp_sender qp) | _ => None end)
    (queued_proposals self).
Definition update_proposals (self : ProposalQueue) : list (LeafNode * Sender.t) :=
  omap (fun qp => match qp_proposal qp with Proposal.Update leaf_node => Some (leaf_node, qp_sender qp) | _ => None end)
    (queued_proposals self).
Definition psk_proposals (self : ProposalQueue) : list (PreSharedKeyId * Sender.t) :=
  omap (fun qp => match qp_proposal qp with Proposal.PreSharedKey id => Some (id, qp_sender qp) | _ => None end)
    (queued_proposals self).
Definition reinit_proposal (self : ProposalQueue) : option ReInitProposal :=
  head (omap (fun qp => match qp_proposal qp with Proposal.ReInit p => Some p | _ => None end) (queued_proposals self)).

Definition commit_list (self : ProposalQueue) : list ProposalOrRef :=
  (fun qp => match qp_type qp with
             | ByValue => InlineProposal (qp_proposal qp)
             | ByReference => Reference (qp_reference qp)
             end) <$> omap (fun r => queued_proposals_map self !! r) (proposal_references self).

Section Committed.
Context {OC : OpenMlsCrypto} {TC : TlsCodec}.

Definition proposals_by_reference (proposal_store : ProposalStore) : gmap bytes QueuedProposal :=
  foldl (fun m p => <[qp_reference p := p]> m) ∅ proposal_store.

(** ValSem200: does the proposal remove its committer? *)
Definition removes_sender (sender : Sender.t) (proposal : Proposal.t) : bool :=
  bool_decide (is_Some (removed ← Proposal.as_remove proposal;
                        leaf_index ← Sender.as_member sender;
                        if removed =? leaf_index then Some leaf_index else None)).

(** One round of the loop of [from_committed_proposals]. *)
Definition commit_proposal (ciphersuite : Ciphersuite) (by_reference : gmap bytes QueuedProposal) (sender : Sender.t)
    (state : ProposalQueue * list PreSharedKeyId) (proposal_or_ref : ProposalOrRef) :
    result FromCommittedProposalsError (ProposalQueue * list PreSharedKeyId) :=
  let '(proposal_queue, seen) := state in
  '(queued_proposal, seen) ←
    match proposal_or_ref with
    | InlineProposal proposal =>
        if removes_sender sender proposal then Err SelfRemoval
        else
          seen ← psk_check seen proposal;
          queued_proposal ← map_err CommittedLibraryError (from_proposal_and_sender ciphersuite proposal sender);
          Ok (queued_proposal, seen)
    | Reference proposal_reference =>
        match by_reference !! proposal_reference with
        | Some queued_proposal =>
            if removes_sender sender (qp_proposal queued_proposal) then Err SelfRemoval
            else
              seen ← psk_check seen (qp_proposal queued_proposal);
              Ok (queued_proposal, seen)
        | None => Err CommittedProposalNotFound
        end
    end;
  Ok (add proposal_queue queued_proposal, seen).

Definition from_committed_proposals (ciphersuite : Ciphersuite) (committed_proposals : list ProposalOrRef)
    (proposal_store : ProposalStore) (sender : Sender.t) : result FromCommittedProposalsError ProposalQueue :=
  fst <$> try_fold (commit_proposal ciphersuite (proposals_by_reference proposal_store) sender)
            committed_proposals (default_queue, []).
End Committed.

(** *** Filtering the received proposals *)
Record FilterState : Type := mkFilterState {
  fs_adds : OrderedProposalRefs;
  fs_valid_proposals : OrderedProposalRefs;
  fs_proposal_pool : gmap bytes QueuedProposal;
  fs_contains_own_updates : bool;
  fs_contains_external_init : bool;
  fs_contains_reinit : bool;
  fs_member_specific : gmap LeafNodeIndex.t QueuedProposal;
}.

Definition filter_start : FilterState := mkFilterState Ordered.new Ordered.new ∅ false false false ∅.

Definition register_member_specific_proposal (member : LeafNodeIndex.t) (proposal : QueuedProposal)
    (m : gmap LeafNodeIndex.t QueuedProposal) : gmap LeafNodeIndex.t QueuedProposal :=
  match m !! member with
  | None => <[member := proposal]> m
  | Some occupied =>
      if Proposal.has_lower_priority_than (qp_proposal occupied) (qp_proposal proposal)
      then <[member := proposal]> m else m
  end.

Definition filter_step (own_index : LeafNodeIndex.t) (s : FilterState) (queued_proposal : QueuedProposal) :
    result ProposalQueueError FilterState :=
  let proposal_ref := qp_reference queued_proposal in
  let pool := <[proposal_ref := queued_proposal]> (fs_proposal_pool s) in
  let '(mkFilterState adds valid _ own external_init reinit members) := s in
  let keep := mkFilterState adds (Ordered.add valid proposal_ref) pool own external_init reinit members in
  let register member := mkFilterState adds valid pool own external_init reinit
                           (register_member_specific_proposal member queued_proposal members) in
  match qp_proposal queued_proposal with
  | Proposal.Add _ =>
      Ok (mkFilterState (Ordered.add adds proposal_ref) valid pool own external_init reinit members)
  | Proposal.Update _ =>
      match qp_sender queued_proposal with
      | Sender.Member sender_index =>
          if sender_index =? own_index
          then Ok (mkFilterState adds valid pool true external_init reinit members)
          else Ok (register sender_index)
      | _ => Err UpdateFromExternalSender
      end
  | Proposal.Remove removed => Ok (register removed)
  | Proposal.PreSharedKey _ => Ok keep
  | Proposal.ReInit _ =>
      if reinit then Ok (mkFilterState adds valid pool own external_init reinit members)
      else Ok (mkFilterState adds (Ordered.add valid proposal_ref) pool own external_init true members)
  | Proposal.ExternalInit _ =>
      if external_init then Ok (mkFilterState adds valid pool own external_init reinit members)
      else Ok (mkFilterState adds (Ordered.add valid proposal_ref) pool own true reinit members)
  | Proposal.GroupContextExtensions _ => Ok keep
  | Proposal.SelfRemove =>
      match qp_sender queued_proposal with
      | Sender.Member removed => Ok (register removed)
      | _ => Err SelfRemoveFromNonMember
      end
  | Proposal.Custom _ => Ok keep
  end.

(** [values] is the iteration order of [member_specific_proposals.values()]. *)
Definition filter_proposals (values : gmap LeafNodeIndex.t QueuedProposal -> list QueuedProposal)
    (iter : list QueuedProposal) (own_index : LeafNodeIndex.t) : result ProposalQueueError (ProposalQueue * bool) :=
  s ← try_fold (filter_step own_index) iter filter_start;
  let valid := foldl (fun valid p => Ordered.add valid (qp_reference p)) (fs_valid_proposals s)
                 (values (fs_member_specific s)) in
  proposal_queue ← try_fold (fun proposal_queue proposal_reference =>
                      queued_proposal ← ok_or (fs_proposal_pool s !! proposal_reference) QueueProposalNotFound;
                      Ok (add proposal_queue queued_proposal))
                    (Ordered.iter (fs_adds s) ++ Ordered.iter valid) default_queue;
  Ok (proposal_queue, fs_contains_own_updates s).
End Queue.
