(* ===== verification/PublicGroup.v ===== *)
(** * Public groups: state and validation

    Models openmls/src/group/public_group/{mod,validation,diff}.rs, diff/apply_proposals.rs,
    diff/compute_path.rs and staged_commit.rs. [clock] is the current time in seconds since
    the Unix epoch. *)
From S2P Require Import Prelude TreeMath BinaryTree Crypto Extensions TreeSync LeafNode TreeKem Proposals ProposalStore.

(** ** Errors *)
Inductive ProposalValidationError : Type :=
  | ProposalLibraryError (e : LibraryError) | UnknownMember | DuplicateSignatureKey | DuplicateEncryptionKey
  | DuplicateInitKey | InitEncryptionKeyCollision | DuplicateMemberRemoval | UnknownMemberRemoval
  | UpdateFromNonMember | CommitterIncludedOwnUpdate | InsufficientCapabilities
  | InvalidAddProposalCiphersuiteOrVersion | ProposalPsk (e : PskError) | UnsupportedProposalType
  | ProposalLeafNodeValidation (e : LeafNodeValidationError) | ExternalInitProposalInRegularCommit
  | ReInitProposalNotAlone | ReInitDowngrade | ReInitUnsupportedVersion.

Inductive ExternalCommitValidationError : Type :=
  | ExternalCommitLibraryError (e : LibraryError) | NoExternalInitProposals | MultipleExternalInitProposals
  | InvalidInlineProposals | MultipleRemoveProposals | InvalidRemoveProposal | NoPath | ReferencedProposal
  | UnsupportedGroupContextExtensions.

Inductive GroupContextExtensionsProposalValidationError : Type :=
  | TooManyGCEProposals | GCELibraryError (e : LibraryError) | ExtensionNotSupportedByAllMembers
  | ChangedImmutableMetadata | RequiredExtensionNotSupportedByAllMembers | ExtensionNotInRequiredCapabilities.

Inductive StageCommitError : Type :=
  | StageLibraryError (e : LibraryError) | EpochMismatch | OwnCommitMismatch | WrongPlaintextContentType
  | PathLeafNodeVerificationFailure | RequiredPathNotFound | ConfirmationTagMissing | ConfirmationTagMismatch
  | AttemptedSelfRemoval | MissingProposal | OwnKeyNotFound | StageInconsistentSenderIndex | SenderTypeExternal
  | SenderTypeNewMemberProposal | TooManyNewMembers | StageProposalValidation (e : ProposalValidationError)
  | StagePskError (e : PskError) | StageExternalCommitValidation (e : ExternalCommitValidationError)
  | StageUpdatePathError (e : ApplyUpdatePathError) | MissingDecryptionKey
  | StageGCEValidation (e : GroupContextExtensionsProposalValidationError)
  | StageLeafNodeValidation (e : LeafNodeValidationError) | StageDuplicatePskId (id : PreSharedKeyId).

(** ** State *)
Record GroupMember : Type := mkGroupMember {
  member_index : LeafNodeIndex.t;
  member_encryption_key : bytes;
  member_signature_key : bytes;
  member_credential : Credential;
}.

(** [TreeSync::full_leaf_members]. *)
Definition full_leaf_members (self : TreeSync LeafNode) : list GroupMember :=
  (fun '(index, leaf_node) =>
     mkGroupMember index (payload_encryption_key (payload leaf_node)) (payload_signature_key (payload leaf_node))
       (payload_credential (payload leaf_node))) <$> TSync.full_leaves self.

Record PublicGroup : Type := mkPublicGroup {
  pg_treesync : TreeSync LeafNode;
  pg_proposal_store : ProposalStore;
  pg_group_context : GroupContext;
  pg_interim_transcript_hash : bytes;
  pg_confirmation_tag : bytes;
}.

Record PublicGroupDiff : Type := mkPublicGroupDiff {
  pgd_diff : TreeSyncDiff LeafNode;
  pgd_group_context : GroupContext;
  pgd_interim_transcript_hash : bytes;
  pgd_confirmation_tag : bytes;
}.

Record StagedPublicGroupDiff : Type := mkStagedPublicGroupDiff {
  spg_staged_diff : StagedTreeSyncDiff LeafNode;
  spg_group_context : GroupContext;
  spg_interim_transcript_hash : bytes;
  spg_confirmation_tag : bytes;
}.

(** [HashSet::insert] that must be new. *)
Definition insert_new {E} (e : E) (s : gset bytes) (k : bytes) : result E (gset bytes) :=
  if bool_decide (k ∈ s) then Err e else Ok ({[k]} ∪ s).

Module PGroup.
Section PGroup.
Context {OC : OpenMlsCrypto} {TC : TlsCodec}.

Implicit Types self : PublicGroup.

Definition ciphersuite self : Ciphersuite := gc_ciphersuite (pg_group_context self).
Definition version self : ProtocolVersion.t := gc_protocol_version (pg_group_context self).
Definition group_id self : bytes := gc_group_id (pg_group_context self).
Definition leaves self : list LeafNode := snd <$> TSync.full_leaves (pg_treesync self).

Definition new (treesync : TreeSync LeafNode) (group_context : GroupContext) (initial_confirmation_tag : bytes) :
    result LibraryError PublicGroup :=
  interim_transcript_hash ← calculate_interim_transcript_hash (gc_ciphersuite group_context)
                              (gc_confirmed_transcript_hash group_context) initial_confirmation_tag;
  Ok (mkPublicGroup treesync Store.new group_context interim_transcript_hash initial_confirmation_tag).

(** The smallest of the freed indices and the free leaf. *)
Definition leftmost_free_index self (queued_proposals : list QueuedProposal) : result LibraryError LeafNodeIndex.t :=
  free_leaf_index ← returns (TSync.free_leaf_index (pg_treesync self));
  let removed_indices := omap (fun proposal =>
    match qp_proposal proposal, qp_sender proposal with
    | Proposal.Remove removed, _ => Some removed
    | Proposal.SelfRemove, Sender.Member sender => Some sender
    | _, _ => None
    end) queued_proposals in
  Ok (foldr Z.min free_leaf_index removed_indices).

Definition empty_diff self : PublicGroupDiff :=
  mkPublicGroupDiff (TSync.empty_diff (pg_treesync self)) (pg_group_context self) (pg_interim_transcript_hash self)
    (pg_confirmation_tag self).

Definition merge_diff self (diff : StagedPublicGroupDiff) : PublicGroup :=
  mkPublicGroup (TSync.merge_diff (pg_treesync self) (spg_staged_diff diff)) (pg_proposal_store self)
    (spg_group_context diff) (spg_interim_transcript_hash diff) (spg_confirmation_tag diff).

(** ** Validation of leaf nodes *)
Definition validate_leaf_node_capabilities self (leaf_node : LeafNode) : result LeafNodeValidationError unit :=
  _ ← LNode.validate_locally (payload leaf_node);
  let capabilities := payload_capabilities (payload leaf_node) in
  if negb (Caps.contains_ciphersuite capabilities (Suite.to_u16 (ciphersuite self)))
     || negb (Caps.contains_version capabilities (version self))
  then Err CiphersuiteNotInCapabilities
  else
    _ ← match Exts.required_capabilities (gc_extensions (pg_group_context self)) with
        | Some required_capabilities => Caps.supports_required_capabilities capabilities required_capabilities
        | None => Ok tt
        end;
    if negb (forallb (fun node => Caps.contains_credential (payload_capabilities (payload node))
                                    (credential_type (payload_credential (payload leaf_node)))) (leaves self))
    then Err UnsupportedCredentials
    else if negb (forallb (fun node => Caps.contains_credential capabilities
                                         (credential_type (payload_credential (payload node)))) (leaves self))
    then Err UnsupportedCredentials
    else Ok tt.

Definition leaf_node_constraints self : LeafNodeConstraints :=
  Constraints.new (gc_extensions (pg_group_context self)) (leaves self).

Definition validate_leaf_node self (clock : Z) (leaf_node : LeafNode) (lifetime_policy : LeafNodeLifetimePolicy) :
    result LeafNodeValidationError unit :=
  _ ← validate_leaf_node_capabilities self leaf_node;
  match LNode.life_time leaf_node with
  | Some lifetime => map_err LeafLifetime (LifeTime.validate_with_policy lifetime clock lifetime_policy)
  | None => Ok tt
  end.

Definition check_extension_support self (extensions : list ExtensionType.t) : result LeafNodeValidationError unit :=
  try_fold (fun _ leaf => LNode.check_extension_support leaf extensions) (leaves self) tt.

Definition supports_group_context_extensions self (leaf_node : LeafNode) : bool :=
  forallb (fun extension => LNode.supports_extension leaf_node (Extension.extension_type extension))
    (gc_extensions (pg_group_context self)).

(** ** Validation of proposals *)
Implicit Types proposal_queue : ProposalQueue.

Definition validate_proposal_type_support self proposal_queue : result ProposalValidationError unit :=
  let signature_keys : gset bytes := list_to_set (omap (fun '(removed, _) =>
    (fun leaf_node => payload_signature_key (payload leaf_node)) <$> TSync.leaf (pg_treesync self) removed)
    (Queue.remove_proposals proposal_queue)) in
  match filter (fun leaf_node => payload_signature_key (payload leaf_node) ∉ signature_keys) (leaves self) with
  | [] => Ok tt
  | first_leaf :: leaves =>
      let proposals leaf_node : gset ProposalType.t :=
        list_to_set (cap_proposals (payload_capabilities (payload leaf_node))) in
      let capabilities_intersection :=
        foldl (fun capabilities leaf_node => capabilities ∩ proposals leaf_node) (proposals first_leaf) leaves in
      if existsb (fun proposal =>
           let proposal_type := Proposal.proposal_type (qp_proposal proposal) in
           negb (ProposalType.is_default proposal_type)
           && negb (bool_decide (proposal_type ∈ capabilities_intersection))) (Queue.queued_proposals proposal_queue)
      then Err UnsupportedProposalType else Ok tt
  end.

Definition removed_members proposal_queue : gset LeafNodeIndex.t :=
  list_to_set ((fst <$> Queue.remove_proposals proposal_queue)
               ++ omap (fun self_remove => Sender.as_member (qp_sender self_remove))
                    (Queue.filtered_by_type proposal_queue ProposalType.SelfRemove)).

Definition validate_key_uniqueness self proposal_queue (commit : option Commit) (sender : Sender.t)
    (path_leaf_signature_key : option bytes) : result ProposalValidationError unit :=
  let replaced_leaf := path_leaf_signature_key ≫= fun _ => Sender.as_member sender in
  let members := filter (fun m => member_index m ∉ removed_members proposal_queue)
                   (full_leaf_members (pg_treesync self)) in
  let encryption_key_set : gset bytes := list_to_set (member_encryption_key <$> members) in
  let signature_key_set : gset bytes :=
    list_to_set (member_signature_key <$> filter (fun m => replaced_leaf ≠ Some (member_index m)) members) in
  let added := (fun '(key_package, _) => key_package) <$> Queue.add_proposals proposal_queue in
  let signature_keys :=
    ((fun kp => payload_signature_key (payload (key_package_leaf kp))) <$> added) ++ option_list path_leaf_signature_key in
  let path := commit ≫= commit_path in
  let encryption_keys :=
    ((fun kp => payload_encryption_key (payload (key_package_leaf kp))) <$> added)
    ++ ((fun '(leaf_node, _) => payload_encryption_key (payload leaf_node)) <$> Queue.update_proposals proposal_queue)
    ++ option_list ((fun p => payload_encryption_key (payload (update_leaf_node p))) <$> path)
    ++ match path with Some p => public_key <$> update_nodes p | None => [] end in
  let init_keys := (fun kp => kp_init_key (kp_payload kp)) <$> added in
  _ ← try_fold (insert_new DuplicateSignatureKey) signature_keys signature_key_set;
  encryption_key_set ←
    try_fold (fun s encryption_key =>
                if bool_decide (encryption_key ∈ (∅ : gset bytes)) then Err InitEncryptionKeyCollision
                else insert_new DuplicateEncryptionKey s encryption_key) encryption_keys encryption_key_set;
  _ ← try_fold (fun s init_key =>
                  if bool_decide (init_key ∈ encryption_key_set) then Err InitEncryptionKeyCollision
                  else insert_new DuplicateInitKey s init_key) init_keys ∅;
  Ok tt.

Definition validate_capabilities self proposal_queue : result ProposalValidationError unit :=
  try_fold (fun _ leaf_node => map_err (fun _ => InsufficientCapabilities) (validate_leaf_node_capabilities self leaf_node))
    (omap (fun p => match qp_proposal p with
                    | Proposal.Add key_package => Some (key_package_leaf key_package)
                    | Proposal.Update leaf_node => Some leaf_node
                    | _ => None
                    end) (Queue.queued_proposals proposal_queue)) tt.

(** [validate_key_package_for_add_with_lifetime_policy]. *)
Definition validate_key_package_for_add self (clock : Z) (key_package : KeyPackage)
    (lifetime_policy : LeafNodeLifetimePolicy) : result ProposalValidationError unit :=
  if negb (bool_decide (kp_ciphersuite (kp_payload key_package) = ciphersuite self))
     || negb (bool_decide (kp_protocol_version (kp_payload key_package) = version self))
  then Err InvalidAddProposalCiphersuiteOrVersion
  else if negb (supports_group_context_extensions self (key_package_leaf key_package))
  then Err InsufficientCapabilities
  else map_err ProposalLeafNodeValidation
         (validate_leaf_node self clock (key_package_leaf key_package) lifetime_policy).

Definition validate_add_proposals self (clock : Z) proposal_queue (lifetime_policy : LeafNodeLifetimePolicy) :
    result ProposalValidationError unit :=
  try_fold (fun _ '(key_package, _) => validate_key_package_for_add self clock key_package lifetime_policy)
    (Queue.add_proposals proposal_queue) tt.

Definition update_sender (update : LeafNode * Sender.t) : result ProposalValidationError LeafNodeIndex.t :=
  ok_or (Sender.as_member update.2) UpdateFromNonMember.

(** One round of the loop over the removes. *)
Definition check_remove self (updates_set removes_set : gset LeafNodeIndex.t) (remove : LeafNodeIndex.t * Sender.t) :
    result ProposalValidationError (gset LeafNodeIndex.t) :=
  let removed := remove.1 in
  if negb (TSync.is_leaf_in_tree (pg_treesync self) removed) then Err UnknownMemberRemoval
  else if bool_decide (removed ∈ removes_set) then Err DuplicateMemberRemoval
  else if bool_decide (removed ∈ updates_set) then Err DuplicateMemberRemoval
  else match TSync.leaf (pg_treesync self) removed with
       | None => Err UnknownMemberRemoval
       | Some _ => Ok ({[removed]} ∪ removes_set)
       end.

Definition validate_remove_proposals self proposal_queue : result ProposalValidationError unit :=
  updates ← try_map update_sender (Queue.update_proposals proposal_queue);
  _ ← try_fold (check_remove self (list_to_set updates)) (Queue.remove_proposals proposal_queue) ∅;
  Ok tt.

Definition validate_update_proposals self (clock : Z) proposal_queue (committer : LeafNodeIndex.t) :
    result ProposalValidationError unit :=
  try_fold (fun _ '(leaf_node, sender) =>
    _ ← match sender with
        | Sender.Member sender_index => if committer =? sender_index then Err CommitterIncludedOwnUpdate else Ok tt
        | _ => Err UpdateFromNonMember
        end;
    _ ← map_err ProposalLeafNodeValidation (validate_leaf_node self clock leaf_node Verify);
    if negb (supports_group_context_extensions self leaf_node)
    then Err (ProposalLeafNodeValidation UnsupportedExtensions) else Ok tt) (Queue.update_proposals proposal_queue) tt.

Definition validate_pre_shared_key_proposals self proposal_queue : result ProposalValidationError unit :=
  _ ← try_fold (fun visited_psk_ids '(psk_id, _) =>
        _ ← map_err ProposalPsk (validate_nonce psk_id (ciphersuite self));
        _ ← match psk psk_id with
            | PskResumption (UsageBranch | UsageReinit) _ _ =>
                if negb (gc_epoch (pg_group_context self) =? 0) then Err (ProposalPsk NotAllowed) else Ok tt
            | PskResumption UsageApplication psk_group_id _ =>
                if negb (bool_decide (group_id self = psk_group_id))
                then Err (ProposalPsk (DifferentGroupId (group_id self) psk_group_id)) else Ok tt
            | PskExternal _ => Ok tt
            end;
        if bool_decide (psk_id ∈ visited_psk_ids) then Err (ProposalPsk (PskDuplicate psk_id))
        else Ok (psk_id :: visited_psk_ids)) (Queue.psk_proposals proposal_queue) [];
  Ok tt.

Definition validate_external_commit self proposal_queue : result ExternalCommitValidationError unit :=
  let count_external_init_proposals := length (Queue.filtered_by_type proposal_queue ProposalType.ExternalInit) in
  if bool_decide (count_external_init_proposals = 0%nat) then Err NoExternalInitProposals
  else if bool_decide (1 < count_external_init_proposals)%nat then Err MultipleExternalInitProposals
  else if existsb (fun p =>
       let is_inline := bool_decide (qp_type p = ByValue) in
       let is_allowed_type := match qp_proposal p with
                              | Proposal.ExternalInit _ | Proposal.Remove _ | Proposal.PreSharedKey _
                              | Proposal.Custom _ => true
                              | _ => false
                              end in
       is_inline && negb is_allowed_type) (Queue.queued_proposals proposal_queue)
  then Err InvalidInlineProposals
  else Ok tt.

Definition validate_gce_proposal self (queued_proposal : QueuedProposal) :
    result GroupContextExtensionsProposalValidationError unit :=
  match qp_proposal queued_proposal with
  | Proposal.GroupContextExtensions extensions =>
      required_capabilities ←
        match Exts.required_capabilities extensions with
        | Some required_capabilities_new =>
            _ ← map_err (fun _ => RequiredExtensionNotSupportedByAllMembers)
                  (check_extension_support self (required_extension_types required_capabilities_new));
            Ok required_capabilities_new
        | None => Ok (mkRequiredCapabilities [] [] [])
        end;
      if negb (forallb (fun ext_type => ExtensionType.is_default ext_type
                                        || requires_extension_type_support required_capabilities ext_type)
                 (Extension.extension_type <$> extensions))
      then Err ExtensionNotInRequiredCapabilities else Ok tt
  | _ => Err (GCELibraryError (CustomError "found non-gce proposal when filtered for gce proposals"))
  end.

(** The loop stops at the second proposal. *)
Definition validate_group_context_extensions_proposal self proposal_queue :
    result GroupContextExtensionsProposalValidationError unit :=
  match Queue.filtered_by_type proposal_queue ProposalType.GroupContextExtensions with
  | [] => Ok tt
  | queued_proposal :: more =>
      _ ← validate_gce_proposal self queued_proposal;
      match more with [] => Ok tt | _ :: _ => Err TooManyGCEProposals end
  end.

Definition validate_no_external_init_proposals self proposal_queue : result ProposalValidationError unit :=
  if existsb (fun proposal => Proposal.is_type (qp_proposal proposal) ProposalType.ExternalInit)
       (Queue.queued_proposals proposal_queue)
  then Err ExternalInitProposalInRegularCommit else Ok tt.

(** [ProtocolVersion]'s derived order: [Mls10] first, then the others. *)
Definition version_lt (a b : ProtocolVersion.t) : bool :=
  match a, b with
  | ProtocolVersion.Mls10, ProtocolVersion.Other _ => true
  | ProtocolVersion.Other v, ProtocolVersion.Other w => v <? w
  | _, _ => false
  end.

Definition validate_reinit_proposals self proposal_queue : result ProposalValidationError unit :=
  match Queue.reinit_proposal proposal_queue with
  | None => Ok tt
  | Some reinit =>
      if negb (bool_decide (length (Queue.queued_proposals proposal_queue) = 1%nat)) then Err ReInitProposalNotAlone
      else if negb (bool_decide (reinit_version reinit = ProtocolVersion.Mls10)) then Err ReInitUnsupportedVersion
      else if version_lt (reinit_version reinit) (version self) then Err ReInitDowngrade
      else Ok tt
  end.
End PGroup.
End PGroup.

(** ** Creating a group *)

(** [TempBuilderPG1]. *)
Record TempBuilderPG1 : Type := mkTempBuilderPG1 {
  pb_group_id : bytes;
  pb_ciphersuite : Ciphersuite;
  pb_credential_with_key : CredentialWithKey;
  pb_lifetime : option Lifetime;
  pb_capabilities : option Capabilities;
  pb_leaf_node_extensions : Extensions;
  pb_group_context_extensions : Extensions;
  pb_capabilities_policy : option CapabilitiesPolicy;
}.

Module PBuilder.
Section PBuilder.
Context {OC : OpenMlsCrypto} {TC : TlsCodec}.

(** [TreeSync::new], with the leaf. [leaf_random] draws the key of the leaf and [random]
    the path secret. *)
Definition treesync_new (leaf_random random : result CryptoError Secret) (signer : bytes -> option bytes)
    (params : NewLeafNodeParams) : result LeafNodeBuildError (TreeSync LeafNode * Secret * (bytes * bytes)) :=
  '(leaf, encryption_key_pair) ← new_leaf_node leaf_random signer params;
  '(tree_sync, commit_secret) ← map_err LeafNodeBuildLibraryError (Kem.new random (np_ciphersuite params) leaf);
  Ok (tree_sync, commit_secret, encryption_key_pair).

(** [TempBuilderPG1::get_secrets]; the next builder holds the tree and the context. *)
Definition get_secrets (self : TempBuilderPG1) (clock : Z) (leaf_random random : result CryptoError Secret)
    (signer : bytes -> option bytes) :
    result LeafNodeBuildError (TreeSync LeafNode * GroupContext * Secret * (bytes * bytes)) :=
  let constraints := Constraints.from_group_context_extensions (pb_group_context_extensions self) in
  let '(capabilities, capabilities_policy) := resolve_capabilities (pb_capabilities self) (pb_capabilities_policy self) in
  lifetime ← match pb_lifetime self with
             | Some lifetime => Ok lifetime
             | None => LifeTime.new clock DEFAULT_KEY_PACKAGE_LIFETIME_SECONDS
             end;
  '(treesync, commit_secret, leaf_keypair) ←
    treesync_new leaf_random random signer
      (mkNewLeafNodeParams (pb_ciphersuite self) (pb_credential_with_key self) (SourceKeyPackage lifetime) capabilities
         (pb_leaf_node_extensions self) TbsKeyPackage constraints capabilities_policy);
  let group_context := GContext.create_initial_group_context (pb_ciphersuite self) (pb_group_id self)
                         (ts_tree_hash treesync) (pb_group_context_extensions self) in
  Ok (treesync, group_context, commit_secret, leaf_keypair).

(** [PublicGroupBuilder::build]. *)
Definition build (treesync : TreeSync LeafNode) (group_context : GroupContext) (confirmation_tag : bytes) :
    result LibraryError PublicGroup := PGroup.new treesync group_context confirmation_tag.
End PBuilder.
End PBuilder.
