(* ===== verification/StagedCommit.v ===== *)
(** * Staging and merging commits in a public group

    Models openmls/src/group/public_group/diff.rs with diff/apply_proposals.rs and
    diff/compute_path.rs, and group/public_group/staged_commit.rs. *)
From S2P Require Import Prelude TreeMath BinaryTree Crypto Extensions TreeSync LeafNode TreeKem Proposals ProposalStore PublicGroup.

Record ApplyProposalsValues : Type := mkApplyProposalsValues {
  apv_path_required : bool;
  apv_self_removed : bool;
  apv_invitation_list : list (LeafNodeIndex.t * KeyPackage);
  apv_presharedkeys : list PreSharedKeyId;
  apv_external_init_proposal_option : option bytes;
  apv_extensions : option Extensions;
}.

Definition exclusion_list (self : ApplyProposalsValues) : gset LeafNodeIndex.t :=
  list_to_set (fst <$> apv_invitation_list self).

Record PathComputationResult : Type := mkPathComputationResult {
  pcr_commit_secret : option Secret;
  pcr_encrypted_path : option (UpdatePath LeafNode);
  pcr_plain_path : option (list PlainUpdatePathNode);
  pcr_new_keypairs : list (bytes * bytes);
}.

Inductive CreateCommitError : Type :=
  | CreateLibraryError (e : LibraryError) | CreateOwnKeyNotFound | CannotRemoveSelf | CreateMissingProposal
  | WrongProposalSenderType | CreatePskError (e : PskError) | CreateProposalValidation (e : ProposalValidationError)
  | CreateSignatureError (e : SignatureError) | MissingCredential | CreatePublicTreeError (e : PublicTreeError)
  | CreateInvalidExtension (e : InvalidExtensionError)
  | CreateGCEValidation (e : GroupContextExtensionsProposalValidationError)
  | ApplyOwnUpdatePath (e : ApplyOwnUpdatePathError) | InvalidLeafNodeParameters | InvalidSignerCiphersuite
  | ExternalCommitWithNewSigner | ExternalCommitCredentialMismatch
  | InvalidExternalCommit (e : ExternalCommitValidationError) | CreateLeafNodeValidation (e : LeafNodeValidationError).

(** ** Diffs *)
Module PGDiff.
Section PGDiff.
Context {OC : OpenMlsCrypto} {TC : TlsCodec}.

Implicit Types self : PublicGroupDiff.

Definition set_diff self (diff : TreeSyncDiff LeafNode) : PublicGroupDiff :=
  mkPublicGroupDiff diff (pgd_group_context self) (pgd_interim_transcript_hash self) (pgd_confirmation_tag self).

Definition set_group_context self (group_context : GroupContext) : PublicGroupDiff :=
  mkPublicGroupDiff (pgd_diff self) group_context (pgd_interim_transcript_hash self) (pgd_confirmation_tag self).

(** A method of the tree diff, on the tree diff of the group diff. *)
Definition on_diff {E A} (m : stateful (TreeSyncDiff LeafNode) E A) : stateful PublicGroupDiff E A := fun self =>
  let '(r, diff) := m (pgd_diff self) in (r, set_diff self diff).

(** The same for a method without result. *)
Definition diff_update {E} (f : TreeSyncDiff LeafNode -> option (TreeSyncDiff LeafNode)) :
    stateful PublicGroupDiff E unit :=
  on_diff (updating (fun diff => diff' ← returns (f diff); Ok (tt, diff'))).

Definition into_staged_diff self (ciphersuite : Ciphersuite) : result LibraryError StagedPublicGroupDiff :=
  staged_diff ← TSync.into_staged_diff (pgd_diff self) ciphersuite;
  Ok (mkStagedPublicGroupDiff staged_diff (pgd_group_context self) (pgd_interim_transcript_hash self)
        (pgd_confirmation_tag self)).

Definition decrypt_path self (owned_keys : list (bytes * bytes)) (own_leaf_index sender_leaf_index : LeafNodeIndex.t)
    (update_path : list UpdatePathNode) (exclusion_list : gset LeafNodeIndex.t) :
    result ApplyUpdatePathError (list (bytes * bytes) * Secret) :=
  group_context ← ok_or (tls_group_context (pgd_group_context self)) (UpdatePathLibraryError MissingBoundsCheck);
  Kem.decrypt_path (pgd_diff self) (gc_ciphersuite (pgd_group_context self))
    (Kem.mkDecryptPathParams update_path sender_leaf_index exclusion_list group_context) owned_keys own_leaf_index.

Definition apply_received_update_path (ciphersuite : Ciphersuite) (sender_leaf_index : LeafNodeIndex.t)
    (update_path : UpdatePath LeafNode) : stateful PublicGroupDiff ApplyUpdatePathError unit :=
  on_diff (Kem.apply_received_update_path ciphersuite sender_leaf_index update_path).

Definition update_interim_transcript_hash (ciphersuite : Ciphersuite) (confirmation_tag : bytes) :
    stateful PublicGroupDiff LibraryError unit :=
  updating (fun self =>
    interim_transcript_hash ← calculate_interim_transcript_hash ciphersuite
      (gc_confirmed_transcript_hash (pgd_group_context self)) confirmation_tag;
    Ok (tt, mkPublicGroupDiff (pgd_diff self) (pgd_group_context self) interim_transcript_hash confirmation_tag)).

Definition update_group_context (extensions : option Extensions) : stateful PublicGroupDiff LibraryError unit :=
  updating (fun self =>
    new_tree_hash ← TSDiff.compute_tree_hashes (pgd_diff self) (gc_ciphersuite (pgd_group_context self));
    let group_context := GContext.increment_epoch (GContext.update_tree_hash (pgd_group_context self) new_tree_hash) in
    let group_context := match extensions with
                         | Some extensions => GContext.set_extensions group_context extensions
                         | None => group_context
                         end in
    Ok (tt, set_group_context self group_context)).

Definition update_confirmed_transcript_hash (commit_content : AuthenticatedContent) :
    stateful PublicGroupDiff LibraryError unit :=
  updating (fun self =>
    group_context ← Proposals.update_confirmed_transcript_hash (pgd_group_context self)
                      (pgd_interim_transcript_hash self) commit_content;
    Ok (tt, set_group_context self group_context)).

(** ** Applying proposals *)
Definition apply_update (queued_proposal : QueuedProposal) : stateful PublicGroupDiff LibraryError unit :=
  match qp_proposal queued_proposal with
  | Proposal.Update leaf_node =>
      match qp_sender queued_proposal with
      | Sender.Member sender_index => diff_update (fun diff => TSDiff.update_leaf diff leaf_node sender_index)
      | _ => lifting (Err (CustomError "Update proposal from non-member"))
      end
  | _ => mret tt
  end.

(** The leaf a Remove or a SelfRemove names. *)
Definition removed_leaf (queued_proposal : QueuedProposal) : result LibraryError (option LeafNodeIndex.t) :=
  match qp_proposal queued_proposal with
  | Proposal.Remove removed => Ok (Some removed)
  | Proposal.SelfRemove =>
      match qp_sender queued_proposal with
      | Sender.Member removed => Ok (Some removed)
      | _ => Err (CustomError "SelfRemove proposal from non-member")
      end
  | _ => Ok None
  end.

(** The loops over the Removes and over the SelfRemoves; the result says whether
    the own leaf was among them. *)
Fixpoint apply_removes (own_leaf_index : option LeafNodeIndex.t) (self_removed : bool) (removes : list QueuedProposal) :
    stateful PublicGroupDiff LibraryError bool :=
  match removes with
  | [] => mret self_removed
  | queued_proposal :: removes' =>
      removed ← lifting (removed_leaf queued_proposal);
      match removed with
      | Some removed =>
          _ ← diff_update (fun diff => TSDiff.blank_leaf diff removed);
          apply_removes own_leaf_index (self_removed || bool_decide (own_leaf_index = Some removed)) removes'
      | None => apply_removes own_leaf_index self_removed removes'
      end
  end.

Fixpoint apply_adds (adds : list KeyPackage) : stateful PublicGroupDiff LibraryError (list (LeafNodeIndex.t * KeyPackage)) :=
  match adds with
  | [] => mret []
  | key_package :: adds' =>
      leaf_index ← on_diff (Kem.with_err (fun _ => CustomError "Tree full: cannot add more members")
                              (TSDiff.add_leaf (key_package_leaf key_package)));
      invitation_list ← apply_adds adds';
      mret ((leaf_index, key_package) :: invitation_list)
  end.

Definition apply_proposals (proposal_queue : ProposalQueue) (own_leaf_index : option LeafNodeIndex.t) :
    stateful PublicGroupDiff LibraryError ApplyProposalsValues :=
  let filtered := Queue.filtered_by_type proposal_queue in
  let external_init_proposal_option :=
    head (filtered ProposalType.ExternalInit) ≫= fun qp =>
      match qp_proposal qp with Proposal.ExternalInit kem_output => Some kem_output | _ => None end in
  _ ← for_each apply_update (filtered ProposalType.Update);
  self_removed ← apply_removes own_leaf_index false (filtered ProposalType.Remove);
  self_removed ← apply_removes own_leaf_index self_removed (filtered ProposalType.SelfRemove);
  let add_proposals := omap (fun qp => match qp_proposal qp with Proposal.Add kp => Some kp | _ => None end)
                         (filtered ProposalType.Add) in
  invitation_list ← apply_adds add_proposals;
  _ ← diff_update TSDiff.trim_tree;
  let presharedkeys := omap (fun qp => match qp_proposal qp with Proposal.PreSharedKey id => Some id | _ => None end)
                         (filtered ProposalType.PreSharedKey) in
  let extensions := head (omap (fun qp => match qp_proposal qp with
                                          | Proposal.GroupContextExtensions extensions => Some extensions
                                          | _ => None
                                          end) (filtered ProposalType.GroupContextExtensions)) in
  let proposals_require_path :=
    existsb (fun p => Proposal.is_path_required (qp_proposal p)) (Queue.queued_proposals proposal_queue) in
  let path_required := proposals_require_path || Queue.is_empty proposal_queue in
  mret (mkApplyProposalsValues path_required self_removed invitation_list presharedkeys external_init_proposal_option
          extensions).

(** ** Computing the path of an own commit *)

(** [random] draws the path secret, [leaf_random] the key of the new leaf. *)
Definition compute_path (random leaf_random : result CryptoError Secret) (leaf_index : LeafNodeIndex.t)
    (exclusion_list : gset LeafNodeIndex.t) (commit_type : CommitType) (leaf_node_params : LeafNodeParameters)
    (signer : bytes -> option bytes) (gc_extensions : option Extensions) (leaf_node_constraints : LeafNodeConstraints) :
    stateful PublicGroupDiff CreateCommitError PathComputationResult :=
  ciphersuite ← reading (fun self => Ok (gc_ciphersuite (pgd_group_context self)));
  group_id ← reading (fun self => Ok (gc_group_id (pgd_group_context self)));
  params ←
    match commit_type with
    | External =>
        credential_with_key ← lifting (ok_or (lp_credential_with_key leaf_node_params) MissingCredential);
        let '(capabilities, capabilities_policy) :=
          resolve_capabilities (lp_capabilities leaf_node_params) (lp_capabilities_policy leaf_node_params) in
        mret (mkUpdateLeafNodeParams credential_with_key capabilities (default [] (lp_extensions leaf_node_params))
                leaf_node_constraints capabilities_policy)
    | TreeKem.Member =>
        leaf ← reading (fun self => ok_or (Diff.leaf (pgd_diff self) leaf_index)
                 (CreateLibraryError (CustomError "Couldn't find own leaf")));
        let credential_with_key :=
          match lp_credential_with_key leaf_node_params with
          | Some cwk => cwk
          | None => mkCredentialWithKey (payload_credential (payload leaf)) (payload_signature_key (payload leaf))
          end in
        let '(capabilities, capabilities_policy) :=
          resolve_capabilities_for_existing_leaf (lp_capabilities leaf_node_params)
            (lp_capabilities_policy leaf_node_params) (payload_capabilities (payload leaf)) in
        mret (mkUpdateLeafNodeParams credential_with_key capabilities
                (default (payload_extensions (payload leaf)) (lp_extensions leaf_node_params))
                leaf_node_constraints capabilities_policy)
    end;
  '(plain_path, new_keypairs, commit_secret) ←
    on_diff (Kem.with_err ApplyOwnUpdatePath
      (Kem.apply_own_update_path random ciphersuite commit_type leaf_index new_placeholder
         (fun parent_hash => new_with_parent_hash leaf_random ciphersuite parent_hash params group_id leaf_index signer)
         None));
  _ ← Kem.with_err CreateLibraryError (update_group_context gc_extensions);
  serialized_group_context ← reading (fun self =>
    ok_or (tls_group_context (pgd_group_context self)) (CreateLibraryError MissingBoundsCheck));
  encrypted_path ← reading (fun self => map_err CreateLibraryError
    (Kem.encrypt_path (pgd_diff self) ciphersuite plain_path serialized_group_context exclusion_list leaf_index));
  leaf_node ← reading (fun self => ok_or (Diff.leaf (pgd_diff self) leaf_index)
    (CreateLibraryError (CustomError "Couldn't find own leaf")));
  mret (mkPathComputationResult (Some commit_secret) (Some (mkUpdatePath leaf_node encrypted_path)) (Some plain_path)
          new_keypairs).
End PGDiff.
End PGDiff.

(** ** Validating and staging received commits *)
Record PublicStagedCommitState : Type := mkPublicStagedCommitState {
  psc_staged_diff : StagedPublicGroupDiff;
  psc_update_path_leaf_node : option LeafNode;
}.

(** [MemberState] is the state a member of the group stages. *)
Inductive StagedCommitState (MemberState : Type) : Type :=
  | PublicState (state : PublicStagedCommitState)
  | GroupMemberState (state : MemberState).
Arguments PublicState {MemberState}.
Arguments GroupMemberState {MemberState}.

Record StagedCommit (MemberState : Type) : Type := mkStagedCommit {
  staged_proposal_queue : ProposalQueue;
  staged_state : StagedCommitState MemberState;
}.
Arguments mkStagedCommit {MemberState}.
Arguments staged_proposal_queue {MemberState}.
Arguments staged_state {MemberState}.

Module PStage.
Section PStage.
Context {OC : OpenMlsCrypto} {TC : TlsCodec}.

Implicit Types self : PublicGroup.

Definition commit_of (content : AuthenticatedContent) : result StageCommitError Commit :=
  match fc_body (ac_content content) with
  | BodyCommit commit => Ok commit
  | _ => Err WrongPlaintextContentType
  end.

(** What an external commit has to satisfy before its proposals are looked up. *)
Definition check_external_commit self (commit : Commit) : result StageCommitError unit :=
  match commit_path commit with
  | None => Err (StageExternalCommitValidation NoPath)
  | Some path =>
      if negb (Caps.contains_extensions (payload_capabilities (payload (update_leaf_node path)))
                 (gc_extensions (pg_group_context self)))
      then Err (StageExternalCommitValidation UnsupportedGroupContextExtensions)
      else if existsb (fun proposal =>
           match as_reference proposal with
           | None => false
           | Some proposal_ref =>
               negb (existsb (fun p => bool_decide (qp_reference p = proposal_ref)
                                       && Proposal.is_type (qp_proposal p) ProposalType.SelfRemove)
                       (pg_proposal_store self))
           end) (commit_proposals commit)
      then Err (StageExternalCommitValidation ReferencedProposal)
      else
        let number_of_remove_proposals :=
          length (List.filter (fun prop => match as_proposal prop with
                                           | Some p => Proposal.is_remove p
                                           | None => false
                                           end) (commit_proposals commit)) in
        if bool_decide (1 < number_of_remove_proposals)%nat
        then Err (StageExternalCommitValidation MultipleExternalInitProposals) else Ok tt
  end.

Definition committed_proposals_error (e : FromCommittedProposalsError) : StageCommitError :=
  match e with
  | CommittedLibraryError e => StageLibraryError e
  | CommittedProposalNotFound => MissingProposal
  | SelfRemoval => AttemptedSelfRemoval
  | DuplicatePskId psk_id => StageDuplicatePskId psk_id
  end.

(** The checks of the leaf node in the path. *)
Definition check_path_leaf self (clock : Z) (commit : Commit) : result StageCommitError unit :=
  match commit_path commit with
  | None => Ok tt
  | Some update_path =>
      let leaf_node := update_leaf_node update_path in
      _ ← map_err StageLeafNodeValidation (PGroup.validate_leaf_node self clock leaf_node Verify);
      if negb (Caps.contains_extensions (payload_capabilities (payload leaf_node)) (gc_extensions (pg_group_context self)))
      then Err (StageLeafNodeValidation UnsupportedExtensions) else Ok tt
  end.

Definition validate_commit self (clock : Z) (content : AuthenticatedContent) (lifetime_policy : LeafNodeLifetimePolicy) :
    result StageCommitError (Commit * ProposalQueue * LeafNodeIndex.t) :=
  if negb (fc_epoch (ac_content content) =? gc_epoch (pg_group_context self)) then Err EpochMismatch
  else
    commit ← commit_of content;
    let sender := fc_sender (ac_content content) in
    _ ← (if bool_decide (sender = Sender.NewMemberCommit) then check_external_commit self commit else Ok tt);
    proposal_queue ← map_err committed_proposals_error
      (Queue.from_committed_proposals (PGroup.ciphersuite self) (commit_proposals commit) (pg_proposal_store self) sender);
    _ ← check_path_leaf self clock commit;
    _ ← map_err StageProposalValidation
          (PGroup.validate_key_uniqueness self proposal_queue (Some commit) sender
             ((fun path => payload_signature_key (payload (update_leaf_node path))) <$> commit_path commit));
    _ ← map_err StageProposalValidation (PGroup.validate_add_proposals self clock proposal_queue lifetime_policy);
    _ ← map_err StageProposalValidation (PGroup.validate_capabilities self proposal_queue);
    _ ← map_err StageProposalValidation (PGroup.validate_remove_proposals self proposal_queue);
    _ ← map_err StageProposalValidation (PGroup.validate_proposal_type_support self proposal_queue);
    _ ← map_err StageGCEValidation (PGroup.validate_group_context_extensions_proposal self proposal_queue);
    _ ← map_err StageProposalValidation (PGroup.validate_pre_shared_key_proposals self proposal_queue);
    _ ← match sender with
        | Sender.Member committer_leaf_index =>
            _ ← map_err StageProposalValidation
                  (PGroup.validate_update_proposals self clock proposal_queue committer_leaf_index);
            _ ← map_err StageProposalValidation (PGroup.validate_no_external_init_proposals self proposal_queue);
            map_err StageProposalValidation (PGroup.validate_reinit_proposals self proposal_queue)
        | Sender.External _ => Err SenderTypeExternal
        | Sender.NewMemberProposal => Err SenderTypeNewMemberProposal
        | Sender.NewMemberCommit =>
            map_err StageExternalCommitValidation (PGroup.validate_external_commit self proposal_queue)
        end;
    sender_index ← match sender with
                   | Sender.Member leaf_index => Ok leaf_index
                   | Sender.NewMemberCommit =>
                       map_err StageLibraryError
                         (PGroup.leftmost_free_index self (Queue.queued_proposals proposal_queue))
                   | _ => Err SenderTypeExternal
                   end;
    Ok (commit, proposal_queue, sender_index).

Definition stage_diff_internal self (content : AuthenticatedContent) (values : ApplyProposalsValues)
    (sender_index : LeafNodeIndex.t) : stateful PublicGroupDiff StageCommitError StagedPublicGroupDiff :=
  let ciphersuite := PGroup.ciphersuite self in
  commit ← lifting (commit_of content);
  _ ← match commit_path commit with
      | Some update_path =>
          Kem.with_err StageUpdatePathError (PGDiff.apply_received_update_path ciphersuite sender_index update_path)
      | None => if apv_path_required values then lifting (Err RequiredPathNotFound) else mret tt
      end;
  _ ← Kem.with_err StageLibraryError (PGDiff.update_group_context (apv_extensions values));
  _ ← Kem.with_err StageLibraryError (PGDiff.update_confirmed_transcript_hash content);
  received_confirmation_tag ← lifting (ok_or (auth_confirmation_tag (ac_auth content)) ConfirmationTagMissing);
  _ ← Kem.with_err StageLibraryError (PGDiff.update_interim_transcript_hash ciphersuite received_confirmation_tag);
  reading (fun diff => map_err StageLibraryError (PGDiff.into_staged_diff diff ciphersuite)).

Definition stage_diff self (content : AuthenticatedContent) (proposal_queue : ProposalQueue)
    (sender_index : LeafNodeIndex.t) : result StageCommitError StagedPublicGroupDiff :=
  fst ((apply_proposals_values ← Kem.with_err StageLibraryError (PGDiff.apply_proposals proposal_queue None);
        stage_diff_internal self content apply_proposals_values sender_index) (PGroup.empty_diff self)).

Definition stage_commit {MemberState} self (clock : Z) (content : AuthenticatedContent)
    (lifetime_policy : LeafNodeLifetimePolicy) : result StageCommitError (StagedCommit MemberState) :=
  '(commit, proposal_queue, sender_index) ← validate_commit self clock content lifetime_policy;
  staged_diff ← stage_diff self content proposal_queue sender_index;
  let staged_state := mkPublicStagedCommitState staged_diff (update_leaf_node <$> commit_path commit) in
  Ok (mkStagedCommit proposal_queue (PublicState staged_state)).

(** [merge_commit], before it writes the group to the storage. *)
Definition merge_commit {MemberState} self (staged_commit : StagedCommit MemberState) : PublicGroup :=
  let self := match staged_state staged_commit with
              | PublicState state => PGroup.merge_diff self (psc_staged_diff state)
              | GroupMemberState _ => self
              end in
  mkPublicGroup (pg_treesync self) (Store.empty (pg_proposal_store self)) (pg_group_context self)
    (pg_interim_transcript_hash self) (pg_confirmation_tag self).
End PStage.
End PStage.
