(* ===== verification/MessageValidation.v ===== *)
(** * Validating received messages

    Models openmls/src/framing/validation.rs and message_in.rs, the validation of received
    content (framing/mls_content_in.rs, mls_auth_content_in.rs, messages/mod.rs,
    messages/proposals_in.rs, key_packages/key_package_in.rs, treesync/treekem.rs) and the
    framing checks of group/public_group/{validation,process}.rs. Content before and after its
    validation has the same type. *)
From S2P Require Import Prelude TreeMath BinaryTree Crypto SenderRatchet SecretTree PastSecrets Extensions TreeSync LeafNode TreeKem Proposals KeySchedule Framing PrivateMessages ProposalStore PublicGroup.

(** ** Errors *)
Inductive KeyPackageVerifyError : Type :=
  | KeyPackageLibraryError (e : LibraryError) | KeyPackageLifetimeError (e : LifetimeError) | MissingLifetime
  | KeyPackageUnsupportedExtension | KeyPackageInvalidSignature | KeyPackageInvalidLeafNodeSignature
  | KeyPackageInvalidLeafNodeSourceType | InitKeyEqualsEncryptionKey | InvalidProtocolVersion
  | KeyPackageUnsupportedCiphersuite (ciphersuite : Ciphersuite) | KeyPackageInvalidExtension (e : InvalidExtensionError).

Inductive UpdatePathError : Type := UpdatePathInvalidType | UpdatePathSignatureError (e : SignatureError).

Inductive ValidationError : Type :=
  | ValidationLibraryError (e : LibraryError) | WrongGroupId | WrongEpoch | NotACommit | NotAnExternalAddProposal
  | ValidationNoPath | UnencryptedApplicationMessage | ValidationUnknownMember | ValidationMissingMembershipTag
  | ValidationInvalidMembershipTag | MissingConfirmationTag | WrongWireFormat | ValidationInvalidSignature
  | NonMemberApplicationMessage | UnableToDecrypt (e : MessageDecryptionError) | NoPastEpochData
  | UnauthorizedExternalSender | NoExternalSendersExtension | KeyPackageVerify (e : KeyPackageVerifyError)
  | ValidationUpdatePath (e : UpdatePathError) | ValidationInvalidLeafNodeSignature | ValidationInvalidLeafNodeSourceType
  | InvalidSenderType | ValidationCommitterIncludedOwnUpdate | InvalidAddProposalCiphersuite
  | ValidationInvalidExtension (e : InvalidExtensionError).

Definition membership_error (e : MembershipError) : ValidationError :=
  match e with
  | MembershipLibraryError e => ValidationLibraryError e
  | InvalidMembershipTag => ValidationInvalidMembershipTag
  | MissingMembershipTag => ValidationMissingMembershipTag
  end.

(** ** Content *)
Inductive SenderContext : Type :=
  | ContextMember (group_id : bytes) (leaf_index : LeafNodeIndex.t)
  | ContextExternalCommit (group_id : bytes) (leftmost_blank_index : LeafNodeIndex.t)
      (self_removes_in_store : list SelfRemoveInStore).

Definition SIGNATURE_KEY_PACKAGE_LABEL : string := "KeyPackageTBS".

Section Content.
Context {OC : OpenMlsCrypto} {TC : TlsCodec}.

(** [KeyPackageIn::validate_with_lifetime_policy]. *)
Definition key_package_validate (self : KeyPackage) (clock : Z) (protocol_version : ProtocolVersion.t)
    (lifetime_policy : LeafNodeLifetimePolicy) : result KeyPackageVerifyError KeyPackage :=
  let p := kp_payload self in
  let ciphersuite := kp_ciphersuite p in
  let scheme := Suite.signature_algorithm ciphersuite in
  _ ← map_err (fun _ => KeyPackageUnsupportedCiphersuite ciphersuite) (supports_op ciphersuite);
  let signature_key := payload_signature_key (payload (kp_leaf_node p)) in
  leaf_node ← match into_verifiable_leaf_node (kp_leaf_node p) with
              | VerifiableKeyPackageLeafNode _ _ as leaf_node =>
                  map_err (fun _ => KeyPackageInvalidLeafNodeSignature) (verify_leaf leaf_node scheme signature_key)
              | _ => Err KeyPackageInvalidLeafNodeSourceType
              end;
  if negb (bool_decide (kp_protocol_version p = protocol_version)) then Err InvalidProtocolVersion
  else if bool_decide (payload_encryption_key (payload leaf_node) = kp_init_key p) then Err InitKeyEqualsEncryptionKey
  else
    extensions ← map_err KeyPackageInvalidExtension (Exts.try_from_any InKeyPackage (kp_extensions p));
    let key_package_tbs := mkKeyPackageTbs (kp_protocol_version p) ciphersuite (kp_init_key p) leaf_node extensions in
    _ ← map_err (fun _ => KeyPackageInvalidSignature)
          (Signable.verify_no_out scheme signature_key SIGNATURE_KEY_PACKAGE_LABEL (tls_key_package_tbs key_package_tbs)
             (kp_signature self));
    if negb (Caps.contains_extensions (payload_capabilities (payload leaf_node)) extensions)
    then Err KeyPackageUnsupportedExtension
    else
      _ ← match LNode.life_time leaf_node with
          | Some life_time => map_err KeyPackageLifetimeError (LifeTime.validate_with_policy life_time clock lifetime_policy)
          | None => Err MissingLifetime
          end;
      Ok (mkKeyPackage key_package_tbs (kp_signature self) None).

(** [UpdateProposalIn::validate]. *)
Definition update_validate (leaf_node : LeafNode) (ciphersuite : Ciphersuite) (sender_context : SenderContext) :
    result ValidationError LeafNode :=
  match into_verifiable_leaf_node leaf_node with
  | VerifiableUpdateLeafNode _ _ _ as verifiable =>
      tree_position ← match sender_context with
                      | ContextMember group_id leaf_index => Ok (mkTreePosition group_id leaf_index)
                      | _ => Err InvalidSenderType
                      end;
      map_err (fun _ => ValidationInvalidLeafNodeSignature)
        (verify_leaf (add_tree_position verifiable tree_position) (Suite.signature_algorithm ciphersuite)
           (payload_signature_key (payload leaf_node)))
  | _ => Err ValidationInvalidLeafNodeSourceType
  end.

(** [ProposalIn::validate]. *)
Definition proposal_validate (self : Proposal.t) (clock : Z) (ciphersuite : Ciphersuite)
    (sender_context : option SenderContext) (protocol_version : ProtocolVersion.t)
    (lifetime_policy : LeafNodeLifetimePolicy) : result ValidationError Proposal.t :=
  match self with
  | Proposal.Add key_package =>
      if negb (bool_decide (kp_ciphersuite (kp_payload key_package) = ciphersuite)) then Err InvalidAddProposalCiphersuite
      else
        key_package ← map_err KeyPackageVerify (key_package_validate key_package clock protocol_version lifetime_policy);
        Ok (Proposal.Add key_package)
  | Proposal.Update leaf_node =>
      sender_context ← ok_or sender_context ValidationCommitterIncludedOwnUpdate;
      leaf_node ← update_validate leaf_node ciphersuite sender_context;
      Ok (Proposal.Update leaf_node)
  | Proposal.GroupContextExtensions extensions =>
      extensions ← map_err ValidationInvalidExtension (Exts.try_from_any InGroupContext extensions);
      Ok (Proposal.GroupContextExtensions extensions)
  | _ => Ok self
  end.

(** [ProposalOrRefIn::validate]. *)
Definition proposal_or_ref_validate (clock : Z) (ciphersuite : Ciphersuite) (protocol_version : ProtocolVersion.t)
    (lifetime_policy : LeafNodeLifetimePolicy) (self : ProposalOrRef) : result ValidationError ProposalOrRef :=
  match self with
  | InlineProposal p =>
      p ← proposal_validate p clock ciphersuite None protocol_version lifetime_policy;
      Ok (InlineProposal p)
  | Reference r => Ok (Reference r)
  end.

(** [UpdatePathIn::into_verified]. *)
Definition path_into_verified (self : UpdatePath LeafNode) (ciphersuite : Ciphersuite) (tree_position : TreePosition) :
    result UpdatePathError (UpdatePath LeafNode) :=
  match into_verifiable_leaf_node (update_leaf_node self) with
  | VerifiableCommitLeafNode _ _ _ as commit_leaf_node =>
      leaf_node ← map_err UpdatePathSignatureError
        (verify_leaf (add_tree_position commit_leaf_node tree_position) (Suite.signature_algorithm ciphersuite)
           (payload_signature_key (payload (update_leaf_node self))));
      Ok (mkUpdatePath leaf_node (update_nodes self))
  | _ => Err UpdatePathInvalidType
  end.

(** The leaf that the committer of an external commit gets. *)
Definition new_leaf_index (leftmost_blank_index : LeafNodeIndex.t) (self_removes_in_store : list SelfRemoveInStore)
    (proposals : list ProposalOrRef) : LeafNodeIndex.t :=
  let former_sender_index := head (omap (fun p => as_proposal p ≫= Proposal.as_remove) proposals) in
  let self_removed_indices := omap (fun self_remove =>
    head (omap (fun committed_p => committed_p_ref ← as_reference committed_p;
                                   if bool_decide (self_remove_ref self_remove = committed_p_ref)
                                   then Some (self_remove_sender self_remove) else None) proposals)) self_removes_in_store in
  foldr Z.min leftmost_blank_index (option_list former_sender_index ++ self_removed_indices).

(** [CommitIn::validate]. *)
Definition commit_validate (self : Commit) (clock : Z) (ciphersuite : Ciphersuite) (sender_context : SenderContext)
    (protocol_version : ProtocolVersion.t) (lifetime_policy : LeafNodeLifetimePolicy) : result ValidationError Commit :=
  proposals ← try_map (proposal_or_ref_validate clock ciphersuite protocol_version lifetime_policy) (commit_proposals self);
  path ← match commit_path self with
         | Some path =>
             let tree_position := match sender_context with
                                  | ContextMember group_id leaf_index => mkTreePosition group_id leaf_index
                                  | ContextExternalCommit group_id leftmost_blank_index self_removes_in_store =>
                                      mkTreePosition group_id
                                        (new_leaf_index leftmost_blank_index self_removes_in_store proposals)
                                  end in
             path ← map_err ValidationUpdatePath (path_into_verified path ciphersuite tree_position);
             Ok (Some path)
         | None => Ok None
         end;
  Ok (mkCommit proposals path).

(** [FramedContentBodyIn::validate] and [FramedContentIn::validate]. *)
Definition body_validate (self : FramedContentBody) (clock : Z) (ciphersuite : Ciphersuite)
    (sender_context : option SenderContext) (protocol_version : ProtocolVersion.t)
    (lifetime_policy : LeafNodeLifetimePolicy) : result ValidationError FramedContentBody :=
  match self with
  | BodyApplication data => Ok (BodyApplication data)
  | BodyProposal p =>
      p ← proposal_validate p clock ciphersuite sender_context protocol_version lifetime_policy;
      Ok (BodyProposal p)
  | BodyCommit c =>
      sender_context ← ok_or sender_context (ValidationLibraryError (CustomError "Forgot the commit sender context"));
      c ← commit_validate c clock ciphersuite sender_context protocol_version lifetime_policy;
      Ok (BodyCommit c)
  end.

Definition content_validate (self : AuthenticatedContent) (clock : Z) (ciphersuite : Ciphersuite)
    (sender_context : option SenderContext) (protocol_version : ProtocolVersion.t)
    (lifetime_policy : LeafNodeLifetimePolicy) : result ValidationError AuthenticatedContent :=
  let content := ac_content self in
  body ← body_validate (fc_body content) clock ciphersuite sender_context protocol_version lifetime_policy;
  Ok (mkAuthenticatedContent (ac_wire_format self)
        (mkFramedContent (fc_group_id content) (fc_epoch content) (fc_sender content) (fc_authenticated_data content) body)
        (ac_auth self)).
End Content.

(** ** Messages *)
Inductive ProtocolMessage : Type := PrivateProtocolMessage (m : PrivateMessage) | PublicProtocolMessage (m : PublicMessage).

Module PMsg.
Implicit Types self : ProtocolMessage.

Definition wire_format self : WireFormat :=
  match self with PrivateProtocolMessage _ => WirePrivateMessage | PublicProtocolMessage _ => WirePublicMessage end.
Definition group_id self : bytes :=
  match self with PrivateProtocolMessage m => pvm_group_id m | PublicProtocolMessage m => fc_group_id (pm_content m) end.
Definition epoch self : Z :=
  match self with PrivateProtocolMessage m => pvm_epoch m | PublicProtocolMessage m => fc_epoch (pm_content m) end.
Definition content_type self : ContentType :=
  match self with
  | PrivateProtocolMessage m => pvm_content_type m
  | PublicProtocolMessage m => Proposals.content_type (fc_body (pm_content m))
  end.
Definition is_external self : bool :=
  match self with
  | PublicProtocolMessage m => negb (Sender.is_member (fc_sender (pm_content m)))
  | PrivateProtocolMessage _ => false
  end.
Definition is_handshake_message self : bool := Framing.is_handshake_message (content_type self).
End PMsg.

(** [From<&LeafNode>] and [From<&Member>] for [CredentialWithKey]. *)
Definition credential_of_leaf (leaf : LeafNode) : CredentialWithKey :=
  mkCredentialWithKey (payload_credential (payload leaf)) (payload_signature_key (payload leaf)).
Definition credential_of_member (member : GroupMember) : CredentialWithKey :=
  mkCredentialWithKey (member_credential member) (member_signature_key member).

(** [DecryptedMessage] holds the content. *)
Section Messages.
Context {OC : OpenMlsCrypto} {TC : TlsCodec}.

Implicit Types content : VerifiableAuthenticatedContent.

Definition v_sender content : Sender.t := fc_sender (tbs_content (v_tbs content)).
Definition v_epoch content : Z := fc_epoch (tbs_content (v_tbs content)).
Definition v_content_type content : ContentType := content_type (fc_body (tbs_content (v_tbs content))).

Definition from_verifiable_content content : result ValidationError VerifiableAuthenticatedContent :=
  if bool_decide (v_content_type content = ContentCommit) && bool_decide (auth_confirmation_tag (v_auth content) = None)
  then Err MissingConfirmationTag
  else if bool_decide (v_content_type content = ContentApplication) then
    if negb (bool_decide (tbs_wire_format (v_tbs content) = WirePrivateMessage)) then Err UnencryptedApplicationMessage
    else if negb (Sender.is_member (v_sender content))
    then Err (ValidationLibraryError (CustomError "Expected sender to be member."))
    else Ok content
  else Ok content.

Definition from_inbound_public_message (public_message : PublicMessage) (message_secrets_option : option MessageSecrets)
    (serialized_context : bytes) (ciphersuite : Ciphersuite) : result ValidationError VerifiableAuthenticatedContent :=
  _ ← (if Sender.is_member (fc_sender (pm_content public_message)) then
         if bool_decide (pm_membership_tag public_message = None) then Err ValidationMissingMembershipTag
         else match message_secrets_option with
              | Some message_secrets =>
                  map_err membership_error
                    (verify_membership public_message ciphersuite (membership_key message_secrets)
                       (PastSecrets.serialized_context message_secrets))
              | None => Ok tt
              end
       else Ok tt);
  from_verifiable_content
    (verifiable_new WirePublicMessage (pm_content public_message) (Some serialized_context) (pm_auth public_message)).

Definition new_member_credential content : result ValidationError CredentialWithKey :=
  match v_sender content with
  | Sender.NewMemberCommit =>
      match fc_body (tbs_content (v_tbs content)) with
      | BodyCommit commit =>
          ok_or ((fun path => credential_of_leaf (update_leaf_node path)) <$> commit_path commit) ValidationNoPath
      | _ => Err NotACommit
      end
  | Sender.NewMemberProposal =>
      match fc_body (tbs_content (v_tbs content)) with
      | BodyProposal (Proposal.Add key_package) => Ok (credential_of_leaf (key_package_leaf key_package))
      | _ => Err NotAnExternalAddProposal
      end
  | _ => Err ValidationUnknownMember
  end.

(** [DecryptedMessage::credential]. *)
Definition message_credential content (look_up_credential_with_key : LeafNodeIndex.t -> option CredentialWithKey)
    (external_senders : option (list ExternalSender)) : result ValidationError CredentialWithKey :=
  match v_sender content with
  | Sender.Member leaf_index => ok_or (look_up_credential_with_key leaf_index) ValidationUnknownMember
  | Sender.External index =>
      senders ← ok_or external_senders NoExternalSendersExtension;
      sender ← ok_or (senders !! Z.to_nat index) UnauthorizedExternalSender;
      Ok (mkCredentialWithKey (external_credential sender) (external_signature_key sender))
  | Sender.NewMemberCommit | Sender.NewMemberProposal => new_member_credential content
  end.

Record UnverifiedMessage : Type := mkUnverifiedMessage {
  um_verifiable_content : VerifiableAuthenticatedContent;
  um_credential : Credential;
  um_sender_pk : bytes * SignatureScheme;
  um_sender_context : option SenderContext;
}.

(** [UnverifiedMessage::verify]. *)
Definition message_verify (self : UnverifiedMessage) (clock : Z) (ciphersuite : Ciphersuite)
    (protocol_version : ProtocolVersion.t) (lifetime_policy : LeafNodeLifetimePolicy) :
    result ValidationError (AuthenticatedContent * Credential) :=
  content ← map_err (fun _ => ValidationInvalidSignature)
              (verify_content (um_verifiable_content self) (um_sender_pk self).2 (um_sender_pk self).1);
  content ← content_validate content clock ciphersuite (um_sender_context self) protocol_version lifetime_policy;
  Ok (content, um_credential self).

(** ** Public groups *)
Implicit Types self : PublicGroup.

Definition validate_framing self (message : ProtocolMessage) : result ValidationError unit :=
  if negb (bool_decide (PMsg.group_id message = PGroup.group_id self)) then Err WrongGroupId
  else match PMsg.content_type message with
       | ContentApplication => if PMsg.epoch message >? gc_epoch (pg_group_context self) then Err WrongEpoch else Ok tt
       | _ => if negb (PMsg.epoch message =? gc_epoch (pg_group_context self)) then Err WrongEpoch else Ok tt
       end.

Definition validate_verifiable_content self content
    (message_secrets_store_option : option (MessageSecretsStore GroupMember)) : result ValidationError unit :=
  _ ← match v_sender content with
      | Sender.Member leaf_index =>
          let is_in_secrets_store := match message_secrets_store_option with
                                     | Some mss => epoch_has_leaf member_index mss (v_epoch content) leaf_index
                                     | None => false
                                     end in
          if negb (TSync.is_leaf_in_tree (pg_treesync self) leaf_index) && negb is_in_secrets_store
          then Err ValidationUnknownMember else Ok tt
      | _ => Ok tt
      end;
  if bool_decide (v_content_type content = ContentApplication)
     && negb (bool_decide (tbs_wire_format (v_tbs content) = WirePrivateMessage)) then Err UnencryptedApplicationMessage
  else if bool_decide (v_content_type content = ContentApplication) && negb (Sender.is_member (v_sender content))
  then Err NonMemberApplicationMessage
  else if bool_decide (v_content_type content = ContentCommit) && bool_decide (auth_confirmation_tag (v_auth content) = None)
  then Err MissingConfirmationTag
  else Ok tt.

Definition look_up_credential self (message_secrets_store_option : option (MessageSecretsStore GroupMember))
    (message_epoch : Z) (leaf_node_index : LeafNodeIndex.t) : option CredentialWithKey :=
  if message_epoch =? gc_epoch (pg_group_context self)
  then credential_of_leaf <$> TSync.leaf (pg_treesync self) leaf_node_index
  else match message_secrets_store_option with
       | Some store => credential_of_member <$> leaves_for_epoch member_index store message_epoch !! leaf_node_index
       | None => None
       end.

Definition parse_message self content (message_secrets_store_option : option (MessageSecretsStore GroupMember)) :
    result ValidationError UnverifiedMessage :=
  _ ← validate_verifiable_content self content message_secrets_store_option;
  cwk ← message_credential content (look_up_credential self message_secrets_store_option (v_epoch content))
          (Exts.external_senders (gc_extensions (pg_group_context self)));
  sender_context ←
    match v_sender content with
    | Sender.Member leaf_index => Ok (Some (ContextMember (PGroup.group_id self) leaf_index))
    | Sender.NewMemberCommit =>
        free_leaf_index ← returns (TSync.free_leaf_index (pg_treesync self));
        Ok (Some (ContextExternalCommit (PGroup.group_id self) free_leaf_index (Store.self_removes (pg_proposal_store self))))
    | _ => Ok None
    end;
  Ok (mkUnverifiedMessage content (cwk_credential cwk)
        (cwk_signature_key cwk, Suite.signature_algorithm (PGroup.ciphersuite self)) sender_context).
End Messages.
