(* ===== verification/KeyPackages.v ===== *)
(** * Key packages: creation

    Models the builder of openmls/src/key_packages/mod.rs. The bundles that the storage
    provider holds are the state of [build], by the hash reference of their key package.
    [random] is what the generator returns for the init key, [leaf_random] for the key of the
    leaf, [clock] the time in seconds. *)
From S2P Require Import Prelude Crypto Extensions TreeSync LeafNode Proposals MessageValidation Welcome.

Inductive KeyPackageNewError : Type :=
  | KeyPackageNewLibraryError (e : LibraryError) | CiphersuiteSignatureSchemeMismatch
  | KeyPackageNewUnsupportedCiphersuite (ciphersuite : Ciphersuite) | KeyPackageNewStorageError
  | MissingLastResortCapability (extension_type : ExtensionType.t) | KeyPackageNewSignatureError (e : SignatureError)
  | KeyPackageNewLeafNodeBuild (e : LeafNodeBuildError).

Record KeyPackageBundle : Type := mkKeyPackageBundle {
  key_package : KeyPackage;
  private_init_key : bytes;
  private_encryption_key : bytes;
}.

(** The key packages in storage, by reference. *)
Abbreviation KeyPackageStore := (gmap bytes KeyPackageBundle) (only parsing).

Definition encryption_key_pair (self : KeyPackageBundle) : bytes * bytes :=
  (payload_encryption_key (payload (key_package_leaf (key_package self))), private_encryption_key self).

Definition has_last_resort_marker (extensions : Extensions) : bool := Exts.contains extensions ExtensionType.LastResort.
Definition last_resort (self : KeyPackage) : bool := has_last_resort_marker (kp_extensions (kp_payload self)).

Record KeyPackageLeafNodeParams : Type := mkKeyPackageLeafNodeParams {
  kl_lifetime : Lifetime;
  kl_capabilities : Capabilities;
  kl_extensions : Extensions;
  kl_capabilities_policy : CapabilitiesPolicy;
}.

Record KeyPackageBuilder : Type := mkKeyPackageBuilder {
  key_package_lifetime : option Lifetime;
  key_package_extensions : option Extensions;
  leaf_node_capabilities : option Capabilities;
  leaf_node_extensions : option Extensions;
  kb_last_resort : bool;
  kb_capabilities_policy : option CapabilitiesPolicy;
}.

Section KeyPackages.
Context {OC : OpenMlsCrypto} {TC : TlsCodec}.

Definition key_package_sign (self : KeyPackageTbs) (signer : bytes -> option bytes) : result SignatureError KeyPackage :=
  signature ← Signable.sign SIGNATURE_KEY_PACKAGE_LABEL (tls_key_package_tbs self) signer;
  Ok (mkKeyPackage self signature (tls_key_package_tbs self)).

(** [KeyPackage::new_from_keys]. *)
Definition new_from_keys (ciphersuite : Ciphersuite) (leaf_random : result CryptoError Secret)
    (signer : bytes -> option bytes) (credential_with_key : CredentialWithKey) (extensions : Extensions)
    (leaf_node_params : KeyPackageLeafNodeParams) (init_key : bytes) :
    result KeyPackageNewError (KeyPackage * (bytes * bytes)) :=
  let capabilities := match kl_capabilities_policy leaf_node_params with
                      | Widen => Caps.widen_for_key_package (kl_capabilities leaf_node_params) extensions
                      | Reject => kl_capabilities leaf_node_params
                      end in
  let new_leaf_node_params :=
    mkNewLeafNodeParams ciphersuite credential_with_key (SourceKeyPackage (kl_lifetime leaf_node_params)) capabilities
      (kl_extensions leaf_node_params) TbsKeyPackage Constraints.default_constraints
      (kl_capabilities_policy leaf_node_params) in
  '(leaf_node, encryption_key_pair) ←
    map_err KeyPackageNewLeafNodeBuild (new_leaf_node leaf_random signer new_leaf_node_params);
  let key_package_tbs := mkKeyPackageTbs ProtocolVersion.default ciphersuite init_key leaf_node extensions in
  key_package ← map_err KeyPackageNewSignatureError (key_package_sign key_package_tbs signer);
  Ok (key_package, encryption_key_pair).

(** [KeyPackage::create]: the key package, the key pair of the leaf and the private init key. *)
Definition create (ciphersuite : Ciphersuite) (random leaf_random : result CryptoError Secret)
    (signer : bytes -> option bytes) (signature_scheme : SignatureScheme) (credential_with_key : CredentialWithKey)
    (extensions : Extensions) (leaf_node_params : KeyPackageLeafNodeParams) :
    result KeyPackageNewError (KeyPackage * (bytes * bytes) * bytes) :=
  if negb (bool_decide (Suite.signature_algorithm ciphersuite = signature_scheme))
  then Err CiphersuiteSignatureSchemeMismatch
  else
    _ ← map_err (fun _ => KeyPackageNewUnsupportedCiphersuite ciphersuite) (supports_op ciphersuite);
    ikm ← map_err (fun e => KeyPackageNewLibraryError (UnexpectedCryptoError e)) random;
    '(init_public, init_private) ← map_err (fun e => KeyPackageNewLibraryError (UnexpectedCryptoError e))
      (derive_hpke_keypair_op (Suite.hpke_config ciphersuite) ikm);
    '(key_package, encryption_keypair) ←
      new_from_keys ciphersuite leaf_random signer credential_with_key extensions leaf_node_params init_public;
    Ok (key_package, encryption_keypair, init_private).
End KeyPackages.

Module KPBuilder.
Section KPBuilder.
Context {OC : OpenMlsCrypto} {TC : TlsCodec}.
Implicit Types self : KeyPackageBuilder.

Definition new : KeyPackageBuilder := mkKeyPackageBuilder None None None None false None.

Definition mark_as_last_resort self : KeyPackageBuilder :=
  mkKeyPackageBuilder (key_package_lifetime self) (key_package_extensions self) (leaf_node_capabilities self)
    (leaf_node_extensions self) true (kb_capabilities_policy self).

Definition ensure_last_resort_capability self (extension_type : ExtensionType.t) : result KeyPackageNewError unit :=
  let '(capabilities, capabilities_policy) := resolve_capabilities (leaf_node_capabilities self) (kb_capabilities_policy self) in
  match capabilities_policy with
  | Reject => if bool_decide (extension_type ∈ cap_extensions capabilities) then Ok tt
              else Err (MissingLastResortCapability extension_type)
  | Widen => Ok tt
  end.

(** [ensure_last_resort]; an error of the extension list is the panic of [expect]. *)
Definition ensure_last_resort self : result KeyPackageNewError KeyPackageBuilder :=
  if negb (kb_last_resort self) then Ok self
  else
    _ ← ensure_last_resort_capability self ExtensionType.LastResort;
    let r := match key_package_extensions self with
             | Some extensions =>
                 let '(r, extensions) := Exts.add_or_replace InKeyPackage Extension.LastResort extensions in
                 _ ← r; Ok extensions
             | None => Exts.single InKeyPackage Extension.LastResort
             end in
    match r with
    | Ok extensions =>
        Ok (mkKeyPackageBuilder (key_package_lifetime self) (Some extensions) (leaf_node_capabilities self)
              (leaf_node_extensions self) (kb_last_resort self) (kb_capabilities_policy self))
    | Err _ | Panic => Panic
    end.

(** [build] up to the bundle and its reference. *)
Definition build_bundle self (ciphersuite : Ciphersuite) (clock : Z) (random leaf_random : result CryptoError Secret)
    (signer : bytes -> option bytes) (signature_scheme : SignatureScheme) (credential_with_key : CredentialWithKey) :
    result KeyPackageNewError (bytes * KeyPackageBundle) :=
  self ← ensure_last_resort self;
  let '(capabilities, capabilities_policy) := resolve_capabilities (leaf_node_capabilities self) (kb_capabilities_policy self) in
  lifetime ← match key_package_lifetime self with
             | Some lifetime => Ok lifetime
             | None => LifeTime.new clock DEFAULT_KEY_PACKAGE_LIFETIME_SECONDS
             end;
  '(key_package, encryption_keypair, init_private_key) ←
    create ciphersuite random leaf_random signer signature_scheme credential_with_key
      (default [] (key_package_extensions self))
      (mkKeyPackageLeafNodeParams lifetime capabilities (default [] (leaf_node_extensions self)) capabilities_policy);
  let full_kp := mkKeyPackageBundle key_package init_private_key encryption_keypair.2 in
  hash_ref ← map_err KeyPackageNewLibraryError (key_package_hash_ref key_package);
  Ok (hash_ref, full_kp).

Definition build self (ciphersuite : Ciphersuite) (clock : Z) (random leaf_random : result CryptoError Secret)
    (signer : bytes -> option bytes) (signature_scheme : SignatureScheme) (credential_with_key : CredentialWithKey) :
    stateful KeyPackageStore KeyPackageNewError KeyPackageBundle :=
  '(hash_ref, full_kp) ← lifting
    (build_bundle self ciphersuite clock random leaf_random signer signature_scheme credential_with_key);
  _ ← modifying (<[hash_ref := full_kp]>);
  mret full_kp.
End KPBuilder.
End KPBuilder.
