(* ===== verification/MemberGroup.v ===== *)
(** * Groups of a member: state and messages

    Models openmls/src/group/mls_group/{mod,config,application,processing}.rs: the state of a
    member's group, creating application messages and processing messages. [Storage] holds
    what the library reads back from the storage provider; writes that only persist the
    group are left out, and the provider does not fail. [clock] is the time in seconds. *)
From S2P Require Import Prelude TreeMath BinaryTree Crypto SenderRatchet SecretTree PastSecrets Extensions TreeSync LeafNode TreeKem Proposals KeySchedule Framing PrivateMessages ProposalStore PublicGroup StagedCommit MessageValidation.

(** ** Configuration and errors *)
Record MlsGroupJoinConfig : Type := mkMlsGroupJoinConfig {
  wire_format_policy : WireFormatPolicy;
  padding_size : Z;
  past_epoch_deletion_policy : PastEpochDeletionPolicy;
  number_of_resumption_psks : nat;
  use_ratchet_tree_extension : bool;
  sender_ratchet_configuration : SenderRatchetConfiguration;
}.

Inductive MlsGroupStateError : Type :=
  | StateLibraryError (e : LibraryError) | UseAfterEviction | StatePendingProposal | StatePendingCommit
  | NoPendingCommit | PendingProposalNotFound.

Inductive ProcessMessageError : Type :=
  | ProcessLibraryError (e : LibraryError) | IncompatibleWireFormat | ProcessValidation (e : ValidationError)
  | ProcessGroupState (e : MlsGroupStateError) | InvalidCommit (e : StageCommitError)
  | UnauthorizedExternalApplicationMessage | UnauthorizedExternalCommitMessage | ProcessUnsupportedProposalType.

Inductive CreateMessageError : Type := CreateMessageLibrary (e : LibraryError) | CreateMessageState (e : MlsGroupStateError).

(** ** State *)
Record MemberStagedCommitState : Type := mkMemberStagedCommitState {
  ms_group_epoch_secrets : GroupEpochSecrets;
  ms_message_secrets : MessageSecrets;
  ms_staged_diff : StagedPublicGroupDiff;
  ms_new_keypairs : list (bytes * bytes);
  ms_new_leaf_keypair_option : option (bytes * bytes);
  ms_update_path_leaf_node : option LeafNode;
}.

Abbreviation MStagedCommit := (StagedCommit MemberStagedCommitState) (only parsing).

Inductive PendingCommitState : Type := PendingMember (c : MStagedCommit) | PendingExternal (c : MStagedCommit).

Definition staged_commit_of (self : PendingCommitState) : MStagedCommit :=
  match self with PendingMember pc => pc | PendingExternal pc => pc end.

Inductive MlsGroupState : Type := PendingCommit (c : PendingCommitState) | Operational | Inactive.

Record MlsGroup : Type := mkMlsGroup {
  mls_group_config : MlsGroupJoinConfig;
  public_group : PublicGroup;
  group_epoch_secrets : GroupEpochSecrets;
  own_leaf_index : LeafNodeIndex.t;
  message_secrets_store : MessageSecretsStore GroupMember;
  resumption_psk_store : ResumptionPskStore;
  own_leaf_nodes : list LeafNode;
  aad : bytes;
  group_state : MlsGroupState;
}.

(** What is read back from storage: the key pairs of an epoch, key pairs by public key, and
    external pre-shared keys. *)
Record Storage : Type := mkStorage {
  epoch_keypairs : gmap (bytes * Z * LeafNodeIndex.t) (list (bytes * bytes));
  encryption_keypairs : gmap bytes (bytes * bytes);
  stored_psk : Psk -> option (option Secret);
}.

Module MGroup.
Section MGroup.
Context {OC : OpenMlsCrypto} {TC : TlsCodec} {CD : ContentDecoder}.
Implicit Types self : MlsGroup.

Definition context self : GroupContext := pg_group_context (public_group self).
Definition epoch self : Z := gc_epoch (context self).
Definition group_id self : bytes := PGroup.group_id (public_group self).
Definition ciphersuite self : Ciphersuite := PGroup.ciphersuite (public_group self).
Definition version self : ProtocolVersion.t := PGroup.version (public_group self).
Definition proposal_store self : ProposalStore := pg_proposal_store (public_group self).
Definition current_secrets self : MessageSecrets := message_secrets (message_secrets_store self).

Definition set_public_group self (g : PublicGroup) : MlsGroup :=
  mkMlsGroup (mls_group_config self) g (group_epoch_secrets self) (own_leaf_index self) (message_secrets_store self)
    (resumption_psk_store self) (own_leaf_nodes self) (aad self) (group_state self).
Definition set_secrets_store self (s : MessageSecretsStore GroupMember) : MlsGroup :=
  mkMlsGroup (mls_group_config self) (public_group self) (group_epoch_secrets self) (own_leaf_index self) s
    (resumption_psk_store self) (own_leaf_nodes self) (aad self) (group_state self).
Definition set_group_state self (s : MlsGroupState) : MlsGroup :=
  mkMlsGroup (mls_group_config self) (public_group self) (group_epoch_secrets self) (own_leaf_index self)
    (message_secrets_store self) (resumption_psk_store self) (own_leaf_nodes self) (aad self) s.
Definition set_aad self (a : bytes) : MlsGroup :=
  mkMlsGroup (mls_group_config self) (public_group self) (group_epoch_secrets self) (own_leaf_index self)
    (message_secrets_store self) (resumption_psk_store self) (own_leaf_nodes self) a (group_state self).

Definition is_active self : bool := match group_state self with Inactive => false | _ => true end.

Definition is_operational self : result MlsGroupStateError unit :=
  match group_state self with
  | PendingCommit _ => Err StatePendingCommit
  | Inactive => Err UseAfterEviction
  | Operational => Ok tt
  end.

Definition pending_commit self : option MStagedCommit :=
  match group_state self with PendingCommit c => Some (staged_commit_of c) | _ => None end.

Definition credential self : result MlsGroupStateError Credential :=
  if negb (is_active self) then Err UseAfterEviction
  else ok_or ((fun node => payload_credential (payload node)) <$>
                TSync.leaf (pg_treesync (public_group self)) (own_leaf_index self))
         (StateLibraryError (CustomError "Own leaf node missing")).

(** ** Message secrets by epoch *)
Definition message_secrets_for_epoch self (e : Z) : result SecretTreeError MessageSecrets :=
  if e <? epoch self then ok_or (secrets_for_epoch (message_secrets_store self) e) TooDistantInThePast
  else Ok (current_secrets self).

Definition message_secrets_and_leaves self (e : Z) : result SecretTreeError (MessageSecrets * list GroupMember) :=
  if e <? epoch self then ok_or (secrets_and_leaves_for_epoch (message_secrets_store self) e) TooDistantInThePast
  else Ok (current_secrets self, []).

(** Writing back the secrets that [message_secrets_for_epoch_mut] lends out. *)
Definition set_current_secrets self (s : MessageSecrets) : MlsGroup :=
  set_secrets_store self
    (mkStore (max_epochs (message_secrets_store self)) (past_epoch_trees (message_secrets_store self)) s).

Definition set_past_secrets self (e : Z) (s : MessageSecrets) : MlsGroup :=
  set_secrets_store self
    (match list_find (fun t => PastSecrets.epoch t = e) (past_epoch_trees (message_secrets_store self)) with
     | Some (i, t) => set_trees (message_secrets_store self)
                        (<[i := mkEpochTree (PastSecrets.epoch t) s (leaves t)]> (past_epoch_trees (message_secrets_store self)))
     | None => message_secrets_store self
     end).

Definition message_secrets_for_epoch_mut {E A} (f : SecretTreeError -> E) (e : Z) (m : stateful MessageSecrets E A) :
    stateful MlsGroup E A := fun self =>
  match message_secrets_for_epoch self e with
  | Ok secrets =>
      let '(r, secrets') := m secrets in
      (r, if e <? epoch self then set_past_secrets self e secrets' else set_current_secrets self secrets')
  | Err err => (Err (f err), self)
  | Panic => (Panic, self)
  end.

(** ** Creating messages *)

(** [encrypt]; the message secrets are the current ones. *)
Definition encrypt (random_guard : option bytes) (public_message : AuthenticatedContent) :
    stateful MlsGroup MessageEncryptionError (Z * PrivateMessage) := fun self =>
  let '(r, secrets) := try_from_authenticated_content random_guard public_message (ciphersuite self)
                         (padding_size (mls_group_config self)) (current_secrets self) in
  (r, set_current_secrets self secrets).

Definition outgoing_authenticated_data self : result LibraryError bytes := Ok (aad self).

Definition create_message_internal (random_guard : option bytes) (signer : bytes -> option bytes) (message : bytes) :
    stateful MlsGroup CreateMessageError (Z * PrivateMessage) :=
  active ← reading (fun self => Ok (is_active self));
  if negb active then lifting (Err (CreateMessageState UseAfterEviction))
  else
    pending ← reading (fun self => Ok (negb (Store.is_empty (proposal_store self))));
    if (pending : bool) then lifting (Err (CreateMessageState StatePendingProposal))
    else
      aad ← reading (fun self => map_err CreateMessageLibrary (outgoing_authenticated_data self));
      authenticated_content ← reading (fun self => map_err CreateMessageLibrary
        (new_application (own_leaf_index self) aad message (context self) signer));
      out ← Kem.with_err (fun _ => CreateMessageLibrary (CustomError "Malformed plaintext"))
              (encrypt random_guard authenticated_content);
      _ ← modifying (fun self => set_aad self []);
      mret out.

Definition create_message (random_guard : option bytes) (signer : bytes -> option bytes) (message : bytes) :
    stateful MlsGroup CreateMessageError PrivateMessage :=
  '(_, output) ← create_message_internal random_guard signer message;
  mret output.

(** [content_to_mls_message]. *)
Definition content_to_mls_message (random_guard : option bytes) (mls_auth_content : AuthenticatedContent) :
    stateful MlsGroup LibraryError ProtocolMessage :=
  outgoing ← reading (fun self => Ok (wf_outgoing (wire_format_policy (mls_group_config self))));
  match outgoing with
  | OutgoingPlaintext =>
      let plaintext := public_message_from mls_auth_content in
      plaintext ← (if Sender.is_member (fc_sender (pm_content plaintext)) then
                     reading (fun self => set_membership_tag plaintext (ciphersuite self)
                       (membership_key (current_secrets self)) (serialized_context (current_secrets self)))
                   else mret plaintext);
      mret (PublicProtocolMessage plaintext)
  | OutgoingCiphertext =>
      '(_, private_message) ← Kem.with_err (fun _ => CustomError "Malformed plaintext")
                                (encrypt random_guard mls_auth_content);
      mret (PrivateProtocolMessage private_message)
  end.
End MGroup.
End MGroup.
