(* ===== verification/Exporting.v ===== *)
(** * Groups of a member: exports

    Models openmls/src/group/mls_group/exporting.rs, and the snapshots of a group that
    branching and reinitialization start from (branch.rs, reinit.rs). *)
From S2P Require Import Prelude TreeMath BinaryTree Crypto SenderRatchet SecretTree PastSecrets Extensions TreeSync LeafNode TreeKem Proposals KeySchedule Framing PrivateMessages Welcome ProposalStore PublicGroup StagedCommit MessageValidation MemberGroup.

Inductive ExportSecretError : Type :=
  | ExportSecretLibraryError (e : LibraryError) | KeyLengthTooLong | ExportSecretGroupState (e : MlsGroupStateError).

Inductive ExportGroupInfoError : Type :=
  | ExportGroupInfoLibraryError (e : LibraryError) | ExportGroupInfoInvalidExtension (e : InvalidExtensionError).

Record BranchInfo : Type := mkBranchInfo {
  br_version : ProtocolVersion.t;
  br_ciphersuite : Ciphersuite;
  br_group_id : bytes;
  br_epoch : Z;
  br_resumption_psk_secret : Secret;
  br_member_credentials : list Credential;
}.

Record ReInitInfo : Type := mkReInitInfo {
  ri_proposal : ReInitProposal;
  ri_old_group_id : bytes;
  ri_old_group_epoch : Z;
  ri_resumption_psk_secret : Secret;
  ri_member_credentials : list Credential;
}.

Module Exports.
Section Exports.
Context {OC : OpenMlsCrypto} {TC : TlsCodec}.
Implicit Types self : MlsGroup.

(** [export_secret] of any state that holds an exporter secret. *)
Definition export_from (exporter_secret : Secret) (ciphersuite : Ciphersuite) (label : string) (context : bytes)
    (key_length : Z) : result ExportSecretError Secret :=
  map_err (fun e => ExportSecretLibraryError (UnexpectedCryptoError e))
    (derive_exported_secret exporter_secret ciphersuite label context key_length).

Definition export_secret self (label : string) (context : bytes) (key_length : Z) : result ExportSecretError Secret :=
  if 65535 <? key_length then Err KeyLengthTooLong
  else if MGroup.is_active self then
    export_from (ges_exporter_secret (group_epoch_secrets self)) (MGroup.ciphersuite self) label context key_length
  else Err (ExportSecretGroupState UseAfterEviction).

Definition epoch_authenticator self : Secret := ges_epoch_authenticator (group_epoch_secrets self).

Definition members self : list GroupMember := full_leaf_members (pg_treesync (public_group self)).

Definition branch_info self : BranchInfo :=
  mkBranchInfo (MGroup.version self) (MGroup.ciphersuite self) (MGroup.group_id self) (MGroup.epoch self)
    (ges_resumption_psk (group_epoch_secrets self)) (member_credential <$> members self).

Definition reinit_info self (proposal : ReInitProposal) : option ReInitInfo :=
  match group_state self with
  | Inactive =>
      Some (mkReInitInfo proposal (MGroup.group_id self) (MGroup.epoch self) (ges_resumption_psk (group_epoch_secrets self))
              (member_credential <$> members self))
  | _ => None
  end.

Definition get_past_resumption_psk self (epoch : Z) : option Secret := RStore.get (resumption_psk_store self) epoch.

(** An additional extension of a group info. *)
Definition additional_extension (extension : Extension.t) : result InvalidExtensionError Extension.t :=
  match extension with
  | Extension.RatchetTree _ | Extension.ExternalPub _ => Err CannotAddDirectlyToGroupInfo
  | _ => Ok extension
  end.

(** [export_group_info_with_additional_extensions]. The encoding of the tree is made when the
    group info is signed; where it fails, so does signing. *)
Definition export_group_info_with_additional_extensions self (signer : bytes -> option bytes) (with_ratchet_tree : bool)
    (additional_extensions : list Extension.t) : result ExportGroupInfoError GroupInfo :=
  let library {A} (r : result LibraryError A) := map_err ExportGroupInfoLibraryError r in
  let crypto {A} (r : result CryptoError A) := map_err (fun e => ExportGroupInfoLibraryError (UnexpectedCryptoError e)) r in
  '(external_pub, _) ← crypto (derive_external_keypair (ges_external_secret (group_epoch_secrets self)) (MGroup.ciphersuite self));
  additional ← map_err ExportGroupInfoInvalidExtension (try_map additional_extension additional_extensions);
  let tree := tls_ratchet_tree (TSync.export_ratchet_tree (pg_treesync (public_group self))) in
  let tree_extension := if with_ratchet_tree then [Extension.RatchetTree (default [] tree)] else [] in
  extensions ← map_err ExportGroupInfoInvalidExtension
    (Exts.from_vec InGroupInfo (tree_extension ++ [Extension.ExternalPub external_pub] ++ additional));
  confirmation_tag ← crypto (confirmation_tag_new (confirmation_key (MGroup.current_secrets self)) (MGroup.ciphersuite self)
                               (gc_confirmed_transcript_hash (MGroup.context self)));
  group_info_tbs ← map_err ExportGroupInfoInvalidExtension
    (group_info_tbs_new (MGroup.context self) extensions confirmation_tag (own_leaf_index self));
  _ ← library (if with_ratchet_tree && bool_decide (tree = None) then Err (CustomError "Signing failed") else Ok tt);
  library (map_err (fun _ => CustomError "Signing failed") (group_info_sign group_info_tbs signer)).
End Exports.
End Exports.
