(* ===== verification/MemberCommit.v ===== *)
(** * Groups of a member: staging and merging commits

    Models openmls/src/group/mls_group/staged_commit.rs and the functions of processing.rs
    and mod.rs that store, merge and clear commits and proposals. *)
From S2P Require Import Prelude TreeMath BinaryTree Crypto SenderRatchet SecretTree PastSecrets Extensions TreeSync LeafNode TreeKem Proposals KeySchedule Framing PrivateMessages ProposalStore PublicGroup StagedCommit MessageValidation MemberGroup.

Inductive MergeCommitError : Type := MergeLibraryError (e : LibraryError).
Inductive MergePendingCommitError : Type :=
  | MergePendingState (e : MlsGroupStateError) | MergePendingCommit (e : MergeCommitError).

(** [StagedCommit::self_removed] and [StagedCommit::reinit_proposal]. *)
Definition staged_self_removed (self : MStagedCommit) : bool :=
  match staged_state self with PublicState _ => true | GroupMemberState _ => false end.
Definition staged_reinit_proposal (self : MStagedCommit) : option ReInitProposal :=
  Queue.reinit_proposal (staged_proposal_queue self).

#[export] Instance deletion_policy_eq_dec : EqDecision PastEpochDeletionPolicy.
Proof. solve_decision. Defined.

Module MCommit.
Section MCommit.
Context {OC : OpenMlsCrypto} {TC : TlsCodec}.
Implicit Types self : MlsGroup.

(** ** Key pairs *)
Definition read_epoch_keypairs self (storage : Storage) : list (bytes * bytes) :=
  default [] (epoch_keypairs storage !! (MGroup.group_id self, MGroup.epoch self, own_leaf_index self)).

Definition read_decryption_keypairs self (storage : Storage) :
    result StageCommitError (list (bytes * bytes) * list (bytes * bytes)) :=
  leaf_node_keypairs ← try_map (fun leaf_node =>
    ok_or (encryption_keypairs storage !! payload_encryption_key (payload leaf_node)) MissingDecryptionKey)
    (own_leaf_nodes self);
  Ok (read_epoch_keypairs self storage, leaf_node_keypairs).

(** ** Staging *)
Definition matches_pending_commit self (received_tag : bytes) : bool :=
  match group_state self with
  | PendingCommit (PendingMember staged_commit) =>
      match staged_state staged_commit with
      | GroupMemberState member_state => bool_decide (spg_confirmation_tag (ms_staged_diff member_state) = received_tag)
      | PublicState _ => false
      end
  | _ => false
  end.

Definition derive_epoch_secrets self (storage : Storage) (values : ApplyProposalsValues) (epoch_secrets : GroupEpochSecrets)
    (commit_secret : Secret) (serialized_provisional_group_context : bytes) : result StageCommitError EpochSecrets :=
  let ciphersuite := MGroup.ciphersuite self in
  let crypto {A} (r : result CryptoError A) := map_err (fun e => StageLibraryError (UnexpectedCryptoError e)) r in
  init_secret ←
    match apv_external_init_proposal_option values with
    | Some kem_output =>
        '(_, external_priv) ← crypto (derive_external_keypair (ges_external_secret epoch_secrets) ciphersuite);
        map_err StageLibraryError
          (init_secret_from_kem_output ciphersuite (MGroup.version self) external_priv kem_output)
    | None => Ok (ges_init_secret epoch_secrets)
    end;
  joiner_secret ←
    crypto (joiner_secret_new ciphersuite (Some commit_secret) init_secret serialized_provisional_group_context);
  psks ← map_err StagePskError (load_psks (stored_psk storage) (resumption_psk_store self) (Some (MGroup.group_id self)) None
                                  (apv_presharedkeys values));
  psk_secret ← map_err StagePskError (psk_secret_new ciphersuite psks);
  key_schedule ← map_err StageLibraryError (KSched.init ciphersuite joiner_secret psk_secret);
  let wrong_state {A} (r : result KeyScheduleError A) :=
    map_err (fun _ => StageLibraryError (CustomError "Using the key schedule in the wrong state")) r in
  let '(r, key_schedule) := KSched.add_context serialized_provisional_group_context key_schedule in
  _ ← wrong_state r;
  wrong_state (fst (KSched.epoch_secrets ciphersuite key_schedule)).

(** What the path of a commit gives: the commit secret, the key pairs of the path, the key pair
    of an own update, and the leaf of the path. *)
Record PathSecrets : Type := mkPathSecrets {
  ps_commit_secret : Secret;
  ps_new_keypairs : list (bytes * bytes);
  ps_new_leaf_keypair_option : option (bytes * bytes);
  ps_update_path_leaf_node : option LeafNode;
}.

(** The first part of [stage_applied_proposal_values]; [inl] when the member was removed. *)
Definition process_path self (values : ApplyProposalsValues) (commit : Commit) (sender_index : LeafNodeIndex.t)
    (old_epoch_keypairs leaf_node_keypairs : list (bytes * bytes)) :
    stateful PublicGroupDiff StageCommitError (StagedPublicGroupDiff + PathSecrets) :=
  let ciphersuite := MGroup.ciphersuite self in
  match commit_path commit with
  | Some path =>
      _ ← Kem.with_err StageUpdatePathError (PGDiff.apply_received_update_path ciphersuite sender_index path);
      _ ← Kem.with_err StageLibraryError (PGDiff.update_group_context (apv_extensions values));
      if apv_self_removed values then
        staged_diff ← reading (fun diff => map_err StageLibraryError (PGDiff.into_staged_diff diff ciphersuite));
        mret (inl staged_diff)
      else
        '(new_keypairs, commit_secret) ← reading (fun diff => map_err StageUpdatePathError
          (PGDiff.decrypt_path diff (old_epoch_keypairs ++ leaf_node_keypairs) (own_leaf_index self) sender_index
             (update_nodes path) (exclusion_list values)));
        leaf ← reading (fun diff => Ok (Diff.leaf (pgd_diff diff) (own_leaf_index self)));
        let new_leaf_keypair_option :=
          leaf ≫= fun leaf => snd <$> list_find (fun keypair => payload_encryption_key (payload leaf) = keypair.1)
                                        leaf_node_keypairs in
        mret (inr (mkPathSecrets commit_secret new_keypairs new_leaf_keypair_option (Some (update_leaf_node path))))
  | None =>
      if apv_path_required values then lifting (Err RequiredPathNotFound)
      else
        _ ← Kem.with_err StageLibraryError (PGDiff.update_group_context (apv_extensions values));
        mret (inr (mkPathSecrets (commit_secret_zero ciphersuite) [] None None))
  end.

Definition stage_applied_proposal_values self (storage : Storage) (values : ApplyProposalsValues) (commit : Commit)
    (proposal_queue : ProposalQueue) (sender_index : LeafNodeIndex.t) (mls_content : AuthenticatedContent)
    (old_epoch_keypairs leaf_node_keypairs : list (bytes * bytes)) :
    stateful PublicGroupDiff StageCommitError MStagedCommit :=
  let ciphersuite := MGroup.ciphersuite self in
  path_secrets ← process_path self values commit sender_index old_epoch_keypairs leaf_node_keypairs;
  match path_secrets with
  | inl staged_diff =>
      mret (mkStagedCommit proposal_queue
              (PublicState (mkPublicStagedCommitState staged_diff (update_leaf_node <$> commit_path commit))))
  | inr ps =>
      _ ← Kem.with_err StageLibraryError (PGDiff.update_confirmed_transcript_hash mls_content);
      received_confirmation_tag ← lifting (ok_or (auth_confirmation_tag (ac_auth mls_content)) ConfirmationTagMissing);
      serialized_provisional_group_context ← reading (fun diff =>
        ok_or (tls_group_context (pgd_group_context diff)) (StageLibraryError MissingBoundsCheck));
      epoch_secrets ← lifting (derive_epoch_secrets self storage values (group_epoch_secrets self) (ps_commit_secret ps)
                                 serialized_provisional_group_context);
      '(group_secrets, message_secrets) ← reading (fun diff =>
        Ok (EpSecrets.split_secrets epoch_secrets serialized_provisional_group_context (size (pgd_diff diff))
              (own_leaf_index self)));
      own_confirmation_tag ← reading (fun diff => map_err (fun e => StageLibraryError (UnexpectedCryptoError e))
        (confirmation_tag_new (confirmation_key message_secrets) ciphersuite
           (gc_confirmed_transcript_hash (pgd_group_context diff))));
      if negb (bool_decide (own_confirmation_tag = received_confirmation_tag)) then lifting (Err ConfirmationTagMismatch)
      else
        _ ← Kem.with_err StageLibraryError (PGDiff.update_interim_transcript_hash ciphersuite own_confirmation_tag);
        staged_diff ← reading (fun diff => map_err StageLibraryError (PGDiff.into_staged_diff diff ciphersuite));
        mret (mkStagedCommit proposal_queue
                (GroupMemberState (mkMemberStagedCommitState group_secrets message_secrets staged_diff (ps_new_keypairs ps)
                                     (ps_new_leaf_keypair_option ps) (ps_update_path_leaf_node ps))))
  end.

Definition stage_commit self (storage : Storage) (clock : Z) (mls_content : AuthenticatedContent)
    (old_epoch_keypairs leaf_node_keypairs : list (bytes * bytes)) (lifetime_policy : LeafNodeLifetimePolicy) :
    result StageCommitError MStagedCommit :=
  '(commit, proposal_queue, sender_index) ←
    PStage.validate_commit (public_group self) clock mls_content lifetime_policy;
  fst ((apply_proposals_values ← Kem.with_err StageLibraryError
          (PGDiff.apply_proposals proposal_queue (Some (own_leaf_index self)));
        stage_applied_proposal_values self storage apply_proposals_values commit proposal_queue sender_index mls_content
          old_epoch_keypairs leaf_node_keypairs) (PGroup.empty_diff (public_group self))).

(** ** Merging *)

(** A member's group together with its storage. *)
Record Client : Type := mkClient { cl_group : MlsGroup; cl_storage : Storage }.

Definition on_group {E A} (m : stateful MlsGroup E A) : stateful Client E A := fun c =>
  let '(r, g) := m (cl_group c) in (r, mkClient g (cl_storage c)).

(** [store_epoch_keypairs], [delete_previous_epoch_keypairs] and [EncryptionKeyPair::delete]. *)
Definition store_epoch_keypairs self (keypairs : list (bytes * bytes)) (storage : Storage) : Storage :=
  mkStorage (<[(MGroup.group_id self, MGroup.epoch self, own_leaf_index self) := keypairs]> (epoch_keypairs storage))
    (encryption_keypairs storage) (stored_psk storage).
Definition delete_previous_epoch_keypairs self (storage : Storage) : Storage :=
  mkStorage (delete (MGroup.group_id self, MGroup.epoch self - 1, own_leaf_index self) (epoch_keypairs storage))
    (encryption_keypairs storage) (stored_psk storage).
Definition delete_keypair (keypair : bytes * bytes) (storage : Storage) : Storage :=
  mkStorage (epoch_keypairs storage) (delete keypair.1 (encryption_keypairs storage)) (stored_psk storage).

Definition empty_proposal_store (g : PublicGroup) : PublicGroup :=
  mkPublicGroup (pg_treesync g) (Store.empty (pg_proposal_store g)) (pg_group_context g) (pg_interim_transcript_hash g)
    (pg_confirmation_tag g).

(** [merge_commit]; [now] is the time at which the new secrets are stored. The group is
    already advanced when the key pairs turn out to be incomplete. *)
Definition merge_commit (now : Z) (staged_commit : MStagedCommit) : stateful Client MergeCommitError unit := fun c =>
  let self := cl_group c in
  let old_epoch_keypairs := read_epoch_keypairs self (cl_storage c) in
  match staged_state staged_commit with
  | PublicState state =>
      (Ok tt, mkClient (MGroup.set_public_group self (PGroup.merge_diff (public_group self) (psc_staged_diff state)))
                (cl_storage c))
  | GroupMemberState state =>
      let past_epoch := MGroup.epoch self in
      let leaves := full_leaf_members (pg_treesync (public_group self)) in
      let '(old_message_secrets, store) :=
        replace_current_message_secrets (message_secrets_store self) (ms_message_secrets state) now in
      match add_past_epoch_tree store past_epoch old_message_secrets leaves with
      | None => (Panic, c)
      | Some store =>
          let self := mkMlsGroup (mls_group_config self) (PGroup.merge_diff (public_group self) (ms_staged_diff state))
                        (ms_group_epoch_secrets state) (own_leaf_index self) store (resumption_psk_store self)
                        (own_leaf_nodes self) (aad self) (group_state self) in
          let leaf_keypair := option_list (ms_new_leaf_keypair_option state) in
          match TSync.owned_encryption_keys (pg_treesync (public_group self)) (own_leaf_index self) with
          | None => (Panic, mkClient self (cl_storage c))
          | Some new_owned_encryption_keys =>
              let epoch_keypairs :=
                filter (fun keypair => keypair.1 ∈ new_owned_encryption_keys)
                  (old_epoch_keypairs ++ ms_new_keypairs state ++ leaf_keypair) in
              if negb (bool_decide (length new_owned_encryption_keys = length epoch_keypairs))
              then (Err (MergeLibraryError (CustomError "We should have all the private key material we need.")),
                    mkClient self (cl_storage c))
              else
                let storage := delete_previous_epoch_keypairs self (store_epoch_keypairs self epoch_keypairs (cl_storage c)) in
                let storage := match ms_new_leaf_keypair_option state with
                               | Some keypair => delete_keypair keypair storage
                               | None => storage
                               end in
                (Ok tt, mkClient (MGroup.set_public_group self (empty_proposal_store (public_group self))) storage)
          end
      end
  end.

(** [clear_pending_commit]. *)
Definition clear_pending_commit self : MlsGroup :=
  match group_state self with
  | PendingCommit (PendingMember _) => MGroup.set_group_state self Operational
  | _ => self
  end.

Definition merge_staged_commit (now : Z) (staged_commit : MStagedCommit) : stateful Client MergeCommitError unit :=
  let is_reinit := bool_decide (is_Some (staged_reinit_proposal staged_commit)) in
  _ ← on_group (modifying (fun self =>
        if staged_self_removed staged_commit then MGroup.set_group_state self Inactive else self));
  _ ← merge_commit now staged_commit;
  _ ← on_group (modifying (fun self =>
        clear_pending_commit
          (mkMlsGroup (mls_group_config self) (public_group self) (group_epoch_secrets self) (own_leaf_index self)
             (message_secrets_store self)
             (RStore.add (resumption_psk_store self) (MGroup.epoch self) (ges_resumption_psk (group_epoch_secrets self)))
             [] (aad self) (group_state self))));
  on_group (modifying (fun self => if is_reinit then MGroup.set_group_state self Inactive else self)).

Definition merge_pending_commit (now : Z) : stateful Client MergePendingCommitError unit :=
  state ← reading (fun c => Ok (group_state (cl_group c)));
  match state with
  | PendingCommit pending_commit_state =>
      _ ← on_group (modifying (fun self => MGroup.set_group_state self Operational));
      Kem.with_err MergePendingCommit (merge_staged_commit now (staged_commit_of pending_commit_state))
  | Inactive => lifting (Err (MergePendingState UseAfterEviction))
  | Operational => mret tt
  end.

(** ** Proposals *)
Definition set_proposal_store self (store : ProposalStore) : MlsGroup :=
  let g := public_group self in
  MGroup.set_public_group self
    (mkPublicGroup (pg_treesync g) store (pg_group_context g) (pg_interim_transcript_hash g) (pg_confirmation_tag g)).

Definition store_pending_proposal self (proposal : QueuedProposal) : MlsGroup :=
  set_proposal_store self (Store.add (MGroup.proposal_store self) proposal).

Definition has_pending_proposals self : bool := negb (Store.is_empty (MGroup.proposal_store self)).

Definition clear_pending_proposals self : MlsGroup :=
  if Store.is_empty (MGroup.proposal_store self) then self
  else set_proposal_store self (Store.empty (MGroup.proposal_store self)).

(** ** Configuration *)
Definition set_config self (config : MlsGroupJoinConfig) : MlsGroup :=
  mkMlsGroup config (public_group self) (group_epoch_secrets self) (own_leaf_index self) (message_secrets_store self)
    (resumption_psk_store self) (own_leaf_nodes self) (aad self) (group_state self).

Definition set_configuration self (config : MlsGroupJoinConfig) : MlsGroup :=
  let policy_changed :=
    negb (bool_decide (past_epoch_deletion_policy (mls_group_config self) = past_epoch_deletion_policy config)) in
  let self := set_config self config in
  if policy_changed
  then MGroup.set_secrets_store self (resize (message_secrets_store self) (past_epoch_deletion_policy config)) else self.

Definition set_past_epoch_deletion_policy self (policy : PastEpochDeletionPolicy) : MlsGroup :=
  let config := mls_group_config self in
  set_config (MGroup.set_secrets_store self (resize (message_secrets_store self) policy))
    (mkMlsGroupJoinConfig (wire_format_policy config) (padding_size config) policy (number_of_resumption_psks config)
       (use_ratchet_tree_extension config) (sender_ratchet_configuration config)).

Definition delete_past_epoch_secrets self (policy : PastEpochDeletion) (now : Z) (now_at : nat -> Z) : MlsGroup :=
  MGroup.set_secrets_store self (PastSecrets.delete_past_epoch_secrets (message_secrets_store self) policy now now_at).
End MCommit.
End MCommit.
