(* ===== verification/Joining.v ===== *)
(** * Joining a group

    Models [PublicGroup::from_ratchet_tree] (openmls/src/group/public_group/mod.rs) and the
    processing of a Welcome (group/mls_group/creation.rs, with the types of mod.rs). The
    storage provider holds key packages by reference, groups by id, and what [Storage] holds;
    it does not fail. [clock] is the time in seconds and [now] the time at which message
    secrets are stored. *)
From S2P Require Import Prelude TreeMath BinaryTree Crypto SenderRatchet SecretTree PastSecrets Extensions TreeSync LeafNode TreeKem Proposals KeySchedule Framing PrivateMessages Welcome ProposalStore PublicGroup StagedCommit MessageValidation KeyPackages MemberGroup Exporting MemberCommit.

(** ** Importing a public group *)
Inductive CreationFromExternalError : Type :=
  | ExternalLibraryError (e : LibraryError) | ExternalTreeSyncError (e : TreeSyncFromNodesError) | ExternalUnknownSender
  | ExternalInvalidGroupInfoSignature | TreeHashMismatch | ExternalUnsupportedMlsVersion
  | ExternalUnsupportedCiphersuite (ciphersuite : Ciphersuite) | ExternalLeafNodeValidation (e : LeafNodeValidationError)
  | UnmergedLeafNotADescendant | IntermediateNodeMissingUnmergedLeaf | ExternalDuplicateEncryptionKey
  | ExternalDuplicateSignatureKey.

Module PImport.
Section PImport.
Context {OC : OpenMlsCrypto} {TC : TlsCodec}.

(** The basic checks of a leaf, with the signature and the encryption keys seen so far. *)
Definition check_leaf (seen : gset bytes * gset bytes) (leaf_node : LeafNode) :
    result CreationFromExternalError (gset bytes * gset bytes) :=
  let '(signature_keys, encryption_keys) := seen in
  _ ← map_err ExternalLeafNodeValidation (LNode.validate_locally (payload leaf_node));
  signature_keys ← insert_new ExternalDuplicateSignatureKey signature_keys (payload_signature_key (payload leaf_node));
  encryption_keys ← insert_new ExternalDuplicateEncryptionKey encryption_keys (payload_encryption_key (payload leaf_node));
  Ok (signature_keys, encryption_keys).

(** An unmerged leaf of the parent [parent_index]. Lists of unmerged leaves are sorted, so a
    binary search finds exactly their members. *)
Definition check_unmerged_leaf (treesync : TreeSync LeafNode) (parent_index : ParentNodeIndex.t) (leaf_index : LeafNodeIndex.t) :
    result CreationFromExternalError unit :=
  path ← returns (direct_path leaf_index (Tree.tree_size (ts_tree treesync)));
  '(this_parent_offset, _) ← ok_or (list_find (fun x => x = parent_index) path) UnmergedLeafNotADescendant;
  try_fold (fun _ intermediate_index =>
    match TSync.parent treesync intermediate_index with
    | Some intermediate_node =>
        if bool_decide (leaf_index ∈ unmerged_leaves intermediate_node) then Ok tt
        else Err IntermediateNodeMissingUnmergedLeaf
    | None => Ok tt
    end) (take this_parent_offset path) tt.

Definition check_parent (treesync : TreeSync LeafNode) (encryption_keys : gset bytes)
    (parent : ParentNodeIndex.t * ParentNode) : result CreationFromExternalError (gset bytes) :=
  let '(parent_index, parent_node) := parent in
  encryption_keys ← insert_new ExternalDuplicateEncryptionKey encryption_keys (encryption_key parent_node);
  _ ← try_fold (fun _ leaf_index => check_unmerged_leaf treesync parent_index leaf_index) (unmerged_leaves parent_node) tt;
  Ok encryption_keys.

Definition from_ratchet_tree (clock : Z) (ratchet_tree : RatchetTree) (verifiable_group_info : VerifiableGroupInfo)
    (proposal_store : ProposalStore) (validate_lifetimes : LeafNodeLifetimePolicy) :
    result CreationFromExternalError (PublicGroup * GroupInfo) :=
  let group_context := gi_group_context (vgi_payload verifiable_group_info) in
  let ciphersuite := gc_ciphersuite group_context in
  _ ← map_err (fun _ => ExternalUnsupportedCiphersuite ciphersuite) (supports_op ciphersuite);
  ratchet_tree ← map_err (fun e => ExternalTreeSyncError (FromNodesRatchetTreeError e))
    (try_from_nodes ciphersuite (gc_group_id group_context) ratchet_tree);
  treesync ← map_err ExternalTreeSyncError (TSync.from_ratchet_tree ciphersuite ratchet_tree);
  '(_, encryption_keys) ← try_fold check_leaf (snd <$> TSync.full_leaves treesync) (∅, ∅);
  _ ← try_fold (check_parent treesync) (TSync.full_parents treesync) encryption_keys;
  signer ← ok_or (TSync.leaf treesync (gi_signer (vgi_payload verifiable_group_info))) ExternalUnknownSender;
  group_info ← map_err (fun _ => ExternalInvalidGroupInfoSignature)
    (group_info_verify verifiable_group_info (Suite.signature_algorithm ciphersuite) (payload_signature_key (payload signer)));
  if negb (bool_decide (ts_tree_hash treesync = gc_tree_hash group_context)) then Err TreeHashMismatch
  else if negb (bool_decide (gc_protocol_version group_context = ProtocolVersion.Mls10)) then Err ExternalUnsupportedMlsVersion
  else
    let confirmation_tag := gi_confirmation_tag (gi_payload group_info) in
    interim_transcript_hash ← map_err ExternalLibraryError
      (calculate_interim_transcript_hash ciphersuite (gc_confirmed_transcript_hash group_context) confirmation_tag);
    let public_group := mkPublicGroup treesync proposal_store group_context interim_transcript_hash confirmation_tag in
    _ ← try_fold (fun _ leaf_node => map_err ExternalLeafNodeValidation
          (PGroup.validate_leaf_node public_group clock leaf_node validate_lifetimes)) (PGroup.leaves public_group) tt;
    Ok (public_group, group_info).
End PImport.
End PImport.

(** ** Joining by a Welcome *)
Inductive WelcomeError : Type :=
  | WelcomeGroupSecrets (e : GroupSecretsError) | WelcomeLibraryError (e : LibraryError) | CiphersuiteMismatch
  | WelcomeGroupInfo (e : GroupInfoError) | JoinerSecretNotFound | MissingRatchetTree | WelcomeConfirmationTagMismatch
  | WelcomeUnsupportedCiphersuite (ciphersuite : Ciphersuite) | UnsupportedExtensions | WelcomePsk (e : PskError)
  | NoMatchingKeyPackage | WelcomePublicTreeError (e : PublicTreeError) | WelcomePublicGroupError (e : CreationFromExternalError)
  | WelcomeLeafNodeValidation (e : LeafNodeValidationError) | GroupAlreadyExists | WelcomeKeySchedule (e : KeyScheduleError)
  | SubgroupParameterMismatch | SubgroupEpochInvalid | SubgroupLeafMismatch | SubgroupParentMismatch
  | ReInitParameterMismatch | ReInitEpochInvalid | ReInitLeafMismatch | ReInitPredecessorMismatch.

Inductive ResumptionInfo : Type := InfoReInit (reinit_info : ReInitInfo) | InfoBranch (branch_info : BranchInfo).

Definition info_member_credentials (self : ResumptionInfo) : list Credential :=
  match self with InfoBranch info => br_member_credentials info | InfoReInit info => ri_member_credentials info end.

Record ProcessedWelcome : Type := mkProcessedWelcome {
  pw_config : MlsGroupJoinConfig;
  pw_ciphersuite : Ciphersuite;
  pw_group_secrets : GroupSecrets;
  pw_epoch_secrets : EpochSecrets;
  pw_verifiable_group_info : VerifiableGroupInfo;
  pw_resumption_psk_store : ResumptionPskStore;
  pw_key_package_bundle : KeyPackageBundle;
}.

Record StagedWelcome : Type := mkStagedWelcome {
  sw_config : MlsGroupJoinConfig;
  sw_public_group : PublicGroup;
  sw_group_epoch_secrets : GroupEpochSecrets;
  sw_own_leaf_index : LeafNodeIndex.t;
  sw_message_secrets_store : MessageSecretsStore GroupMember;
  sw_resumption_psk_store : ResumptionPskStore;
  sw_verifiable_group_info : VerifiableGroupInfo;
  sw_key_package_bundle : KeyPackageBundle;
  sw_path_keypairs : option (list (bytes * bytes));
}.

Record PendingResumingWelcome : Type := mkPendingResumingWelcome {
  prw_config : MlsGroupJoinConfig;
  prw_welcome : Welcome;
  prw_resumption_psk_store : ResumptionPskStore;
  prw_key_package_bundle : KeyPackageBundle;
  prw_group_secrets : GroupSecrets;
}.

(** What a client stores: its groups, and what [Storage] holds. *)
Record JoinStorage : Type := mkJoinStorage { js_groups : gmap bytes MlsGroup; js_storage : Storage }.

Module Join.
Section Join.
Context {OC : OpenMlsCrypto} {TC : TlsCodec} {WD : WelcomeDecoder}.

(** The first key package that the Welcome addresses. *)
Definition find_key_package (welcome : Welcome) (store : KeyPackageStore) : option KeyPackageBundle :=
  head (omap (fun egs => store !! egs_new_member egs) (welcome_secrets welcome)).

Definition keys_for_welcome (mls_group_config : MlsGroupJoinConfig) (welcome : Welcome) :
    stateful KeyPackageStore WelcomeError (ResumptionPskStore * KeyPackageBundle) :=
  bundle ← reading (fun store => ok_or (find_key_package welcome store) NoMatchingKeyPackage);
  _ ← (if last_resort (key_package bundle) then mret tt
       else
         hash_ref ← lifting (map_err WelcomeLibraryError (key_package_hash_ref (key_package bundle)));
         modifying (delete hash_ref));
  mret (RStore.new (number_of_resumption_psks mls_group_config), bundle).

Definition decrypt_group_secrets (mls_group_config : MlsGroupJoinConfig) (welcome : Welcome) :
    stateful KeyPackageStore WelcomeError (ResumptionPskStore * KeyPackageBundle * GroupSecrets) :=
  let ciphersuite := welcome_ciphersuite welcome in
  _ ← lifting (map_err (fun _ => WelcomeUnsupportedCiphersuite ciphersuite) (supports_op ciphersuite));
  '(resumption_psk_store, bundle) ← keys_for_welcome mls_group_config welcome;
  hash_ref ← lifting (map_err WelcomeLibraryError (key_package_hash_ref (key_package bundle)));
  egs ← lifting (ok_or (find_encrypted_group_secret welcome hash_ref) JoinerSecretNotFound);
  if negb (bool_decide (ciphersuite = kp_ciphersuite (kp_payload (key_package bundle)))) then lifting (Err CiphersuiteMismatch)
  else
    group_secrets ← lifting (map_err WelcomeGroupSecrets
      (group_secrets_try_from_ciphertext (private_init_key bundle) (egs_encrypted_group_secrets egs)
         (welcome_encrypted_group_info welcome) ciphersuite));
    _ ← lifting (map_err WelcomePsk (validate_in_welcome (gs_psks group_secrets) ciphersuite));
    mret (resumption_psk_store, bundle, group_secrets).

(** The resumption PSK that a branch or reinit takes from the other group. *)
Definition foreign_psk (psks : list PreSharedKeyId) (resumption_info : option ResumptionInfo) :
    result WelcomeError (option (PreSharedKeyId * Secret)) :=
  match resumption_info with
  | None => Ok None
  | Some (InfoBranch info) =>
      '(_, psk_id) ← ok_or (list_find (fun id => psk id = PskResumption UsageBranch (br_group_id info) (br_epoch info)) psks)
                       SubgroupParentMismatch;
      Ok (Some (psk_id, br_resumption_psk_secret info))
  | Some (InfoReInit info) =>
      '(_, psk_id) ← ok_or (list_find (fun id => psk id = PskResumption UsageReinit (ri_old_group_id info) (ri_old_group_epoch info)) psks)
                       ReInitPredecessorMismatch;
      Ok (Some (psk_id, ri_resumption_psk_secret info))
  end.

Definition finish_processed_welcome (mls_group_config : MlsGroupJoinConfig) (storage : Storage)
    (resumption_psk_store : ResumptionPskStore) (bundle : KeyPackageBundle) (group_secrets : GroupSecrets) (welcome : Welcome)
    (resumption_info : option ResumptionInfo) : result WelcomeError ProcessedWelcome :=
  let ciphersuite := welcome_ciphersuite welcome in
  foreign ← foreign_psk (gs_psks group_secrets) resumption_info;
  psks ← map_err WelcomePsk (KeySchedule.load_psks (stored_psk storage) resumption_psk_store None foreign (gs_psks group_secrets));
  psk_secret ← map_err WelcomePsk (psk_secret_new ciphersuite psks);
  key_schedule ← map_err WelcomeLibraryError (KSched.init ciphersuite (gs_joiner_secret group_secrets) psk_secret);
  welcome_secret ← map_err (fun _ => WelcomeLibraryError (CustomError "Using the key schedule in the wrong state"))
    (KSched.welcome key_schedule ciphersuite);
  '(welcome_key, welcome_nonce) ← map_err (fun e => WelcomeLibraryError (UnexpectedCryptoError e))
    (derive_welcome_key_nonce welcome_secret ciphersuite);
  verifiable_group_info ← map_err WelcomeGroupInfo
    (group_info_try_from_ciphertext welcome_key welcome_nonce (welcome_encrypted_group_info welcome) []);
  let group_context := gi_group_context (vgi_payload verifiable_group_info) in
  serialized_group_context ← ok_or (tls_group_context group_context) (WelcomeLibraryError MissingBoundsCheck);
  let '(r, key_schedule) := KSched.add_context serialized_group_context key_schedule in
  _ ← map_err WelcomeKeySchedule r;
  epoch_secrets ← map_err WelcomeKeySchedule (fst (KSched.epoch_secrets ciphersuite key_schedule));
  let key_package := key_package bundle in
  _ ← match Exts.required_capabilities (gi_extensions (vgi_payload verifiable_group_info)) with
      | Some required_capabilities =>
          map_err WelcomeLeafNodeValidation
            (Caps.supports_required_capabilities (payload_capabilities (payload (key_package_leaf key_package))) required_capabilities)
      | None => Ok tt
      end;
  if negb (bool_decide (gc_ciphersuite group_context = kp_ciphersuite (kp_payload key_package))) then Err CiphersuiteMismatch
  else Ok (mkProcessedWelcome mls_group_config ciphersuite group_secrets epoch_secrets verifiable_group_info
             resumption_psk_store bundle).

Definition new_from_welcome_inner (mls_group_config : MlsGroupJoinConfig) (storage : Storage) (welcome : Welcome)
    (resumption_info : option ResumptionInfo) : stateful KeyPackageStore WelcomeError ProcessedWelcome :=
  '(resumption_psk_store, bundle, group_secrets) ← decrypt_group_secrets mls_group_config welcome;
  lifting (finish_processed_welcome mls_group_config storage resumption_psk_store bundle group_secrets welcome resumption_info).

Definition new_from_welcome (mls_group_config : MlsGroupJoinConfig) (storage : Storage) (welcome : Welcome) :
    stateful KeyPackageStore WelcomeError ProcessedWelcome :=
  new_from_welcome_inner mls_group_config storage welcome None.

(** The tree of the ratchet tree extension, or the one that is given. A group info whose
    extension holds no tree is malformed. *)
Definition welcome_ratchet_tree (group_info : VerifiableGroupInfo) (ratchet_tree : option RatchetTree) :
    result WelcomeError RatchetTree :=
  match Exts.ratchet_tree (gi_extensions (vgi_payload group_info)) with
  | Some b =>
      '(nodes, rest) ← ok_or (tls_read_ratchet_tree b) (WelcomeGroupInfo GroupInfoMalformed);
      if bool_decide (rest = []) then Ok nodes else Err (WelcomeGroupInfo GroupInfoMalformed)
  | None => ok_or ratchet_tree MissingRatchetTree
  end.

(** The leaf of the joiner: the one with the signature key of its key package. *)
Definition find_own_leaf (public_group : PublicGroup) (key_package : KeyPackage) : result WelcomeError LeafNodeIndex.t :=
  if negb (PGroup.supports_group_context_extensions public_group (key_package_leaf key_package)) then Err UnsupportedExtensions
  else
    '(_, m) ← ok_or (list_find (fun m => member_signature_key m = payload_signature_key (payload (key_package_leaf key_package)))
                       (full_leaf_members (pg_treesync public_group))) (WelcomePublicTreeError MalformedTree);
    Ok (member_index m).

Definition into_staged_welcome_inner (self : ProcessedWelcome) (clock now : Z) (groups : gmap bytes MlsGroup)
    (ratchet_tree : option RatchetTree) (validate_lifetimes : LeafNodeLifetimePolicy) (replace_old_group : bool) :
    result WelcomeError StagedWelcome :=
  let group_info := pw_verifiable_group_info self in
  if negb replace_old_group && bool_decide (is_Some (groups !! gc_group_id (gi_group_context (vgi_payload group_info))))
  then Err GroupAlreadyExists
  else
    ratchet_tree ← welcome_ratchet_tree group_info ratchet_tree;
    '(public_group, _) ← map_err WelcomePublicGroupError
      (PImport.from_ratchet_tree clock ratchet_tree group_info Store.new validate_lifetimes);
    own_leaf_index ← find_own_leaf public_group (key_package (pw_key_package_bundle self));
    serialized_group_context ← ok_or (tls_group_context (pg_group_context public_group)) (WelcomeLibraryError MissingBoundsCheck);
    let '(group_epoch_secrets, message_secrets) :=
      EpSecrets.split_secrets (pw_epoch_secrets self) serialized_group_context
        (Tree.tree_size (ts_tree (pg_treesync public_group))) own_leaf_index in
    confirmation_tag ← map_err (fun e => WelcomeLibraryError (UnexpectedCryptoError e))
      (confirmation_tag_new (confirmation_key message_secrets) (pw_ciphersuite self)
         (gc_confirmed_transcript_hash (pg_group_context public_group)));
    if negb (bool_decide (confirmation_tag = pg_confirmation_tag public_group)) then Err WelcomeConfirmationTagMismatch
    else
      let message_secrets_store := new_with_secret (MaxEpochs 0) message_secrets now in
      let resumption_psk_store := RStore.add (pw_resumption_psk_store self) (gc_epoch (pg_group_context public_group))
                                    (ges_resumption_psk group_epoch_secrets) in
      path_keypairs ←
        match gs_path_secret (pw_group_secrets self) with
        | Some path_secret =>
            '(path_keypairs, _) ← map_err (fun e => match e with
                | DerivePathLibraryError e => WelcomeLibraryError e
                | PublicKeyMismatch => WelcomePublicTreeError PublicTreeKeyMismatch
                end) (Kem.derive_path_secrets (pg_treesync public_group) (pw_ciphersuite self) path_secret
                        (gi_signer (vgi_payload group_info)) own_leaf_index);
            Ok (Some path_keypairs)
        | None => Ok None
        end;
      Ok (mkStagedWelcome (pw_config self) public_group group_epoch_secrets own_leaf_index message_secrets_store
            resumption_psk_store group_info (pw_key_package_bundle self) path_keypairs).

Definition into_staged_welcome (self : ProcessedWelcome) (clock now : Z) (groups : gmap bytes MlsGroup)
    (ratchet_tree : option RatchetTree) : result WelcomeError StagedWelcome :=
  into_staged_welcome_inner self clock now groups ratchet_tree Verify false.

Definition welcome_sender (self : StagedWelcome) : result LibraryError LeafNode :=
  ok_or (TSync.leaf (pg_treesync (sw_public_group self)) (gi_signer (vgi_payload (sw_verifiable_group_info self))))
    (CustomError "no leaf with given welcome sender index exists").

(** [StagedWelcome::into_group]; the group is stored. *)
Definition into_group (self : StagedWelcome) : stateful JoinStorage WelcomeError MlsGroup := fun s =>
  let group_keypairs := encryption_key_pair (sw_key_package_bundle self) :: default [] (sw_path_keypairs self) in
  let mls_group :=
    mkMlsGroup (sw_config self) (sw_public_group self) (sw_group_epoch_secrets self) (sw_own_leaf_index self)
      (sw_message_secrets_store self) (sw_resumption_psk_store self) [] [] Operational in
  let storage := MCommit.store_epoch_keypairs mls_group group_keypairs (js_storage s) in
  let mls_group :=
    MGroup.set_secrets_store mls_group
      (PastSecrets.resize (sw_message_secrets_store self) (past_epoch_deletion_policy (sw_config self))) in
  (Ok mls_group, mkJoinStorage (<[MGroup.group_id mls_group := mls_group]> (js_groups s)) storage).
(** [export_secret] of a processed and of a staged Welcome. *)
Definition processed_export_secret (self : ProcessedWelcome) (label : string) (context : bytes) (key_length : Z) :
    result ExportSecretError Secret :=
  if 65535 <? key_length then Err KeyLengthTooLong
  else Exports.export_from (es_exporter_secret (pw_epoch_secrets self)) (pw_ciphersuite self) label context key_length.

Definition staged_export_secret (self : StagedWelcome) (label : string) (context : bytes) (key_length : Z) :
    result ExportSecretError Secret :=
  if 65535 <? key_length then Err KeyLengthTooLong
  else Exports.export_from (ges_exporter_secret (sw_group_epoch_secrets self)) (PGroup.ciphersuite (sw_public_group self))
         label context key_length.
End Join.
End Join.

(** ** Branches and reinitialized groups *)
Record JoinBuilder : Type := mkJoinBuilder {
  jb_processed_welcome : ProcessedWelcome;
  jb_ratchet_tree : option RatchetTree;
  jb_validate_lifetimes : LeafNodeLifetimePolicy;
  jb_replace_old_group : bool;
  jb_resumption_info : option ResumptionInfo;
  jb_check_members : bool;
}.

(** [Vec::swap_remove] for a position of the list. *)
Definition swap_remove {A} (i : nat) (l : list A) : list A :=
  match last l with Some x => removelast (<[i := x]> l) | None => l end.

Module JBuilder.
Section JBuilder.
Context {OC : OpenMlsCrypto} {TC : TlsCodec} {WD : WelcomeDecoder}.

Definition new (processed_welcome : ProcessedWelcome) : JoinBuilder :=
  mkJoinBuilder processed_welcome None Verify false None true.

Definition with_resumption_info (self : JoinBuilder) (resumption_info : ResumptionInfo) : JoinBuilder :=
  mkJoinBuilder (jb_processed_welcome self) (jb_ratchet_tree self) (jb_validate_lifetimes self) (jb_replace_old_group self)
    (Some resumption_info) (jb_check_members self).

(** The checks of [build] before staging: the parameters and the epoch of the new group. *)
Definition check_parameters (group_context : GroupContext) (resumption_info : option ResumptionInfo) : result WelcomeError unit :=
  match resumption_info with
  | Some (InfoBranch info) =>
      if negb (bool_decide (gc_protocol_version group_context = br_version info))
         || negb (bool_decide (gc_ciphersuite group_context = br_ciphersuite info))
      then Err SubgroupParameterMismatch
      else if negb (gc_epoch group_context =? 1) then Err SubgroupEpochInvalid else Ok tt
  | Some (InfoReInit info) =>
      let proposal := ri_proposal info in
      if negb (bool_decide (gc_protocol_version group_context = reinit_version proposal))
         || negb (bool_decide (gc_ciphersuite group_context = reinit_ciphersuite proposal))
         || negb (bool_decide (gc_group_id group_context = reinit_group_id proposal))
         || negb (bool_decide (gc_extensions group_context = reinit_extensions proposal))
      then Err ReInitParameterMismatch
      else if negb (gc_epoch group_context =? 1) then Err ReInitEpochInvalid else Ok tt
  | None => Ok tt
  end.

(** The loop of [build] over the members of the new group: the old credentials not seen yet. *)
Definition unseen_credentials (e : WelcomeError) (old new : list Credential) : result WelcomeError (list Credential) :=
  try_fold (fun unseen_old_credentials credential =>
    match list_find (fun m => m = credential) unseen_old_credentials with
    | Some (parent_index, _) => Ok (swap_remove parent_index unseen_old_credentials)
    | None => Err e
    end) new old.

Definition check_members (resumption_info : ResumptionInfo) (new : list Credential) : result WelcomeError unit :=
  let old := info_member_credentials resumption_info in
  match resumption_info with
  | InfoBranch _ => _ ← unseen_credentials SubgroupLeafMismatch old new; Ok tt
  | InfoReInit _ =>
      unseen ← unseen_credentials ReInitLeafMismatch old new;
      if bool_decide (unseen = []) then Ok tt else Err ReInitLeafMismatch
  end.

Definition build (self : JoinBuilder) (clock now : Z) (groups : gmap bytes MlsGroup) : result WelcomeError StagedWelcome :=
  let welcome := jb_processed_welcome self in
  _ ← check_parameters (gi_group_context (vgi_payload (pw_verifiable_group_info welcome))) (jb_resumption_info self);
  staged_welcome ← Join.into_staged_welcome_inner welcome clock now groups (jb_ratchet_tree self)
    (jb_validate_lifetimes self) (jb_replace_old_group self);
  _ ← match jb_resumption_info self with
      | Some resumption_info =>
          if jb_check_members self then
            check_members resumption_info
              (member_credential <$> full_leaf_members (pg_treesync (sw_public_group staged_welcome)))
          else Ok tt
      | None => Ok tt
      end;
  Ok staged_welcome.

(** [StagedWelcome::process_resuming_welcome]. *)
Definition process_resuming_welcome (mls_group_config : MlsGroupJoinConfig) (welcome : Welcome) :
    stateful KeyPackageStore WelcomeError PendingResumingWelcome :=
  '(resumption_psk_store, bundle, group_secrets) ← Join.decrypt_group_secrets mls_group_config welcome;
  mret (mkPendingResumingWelcome mls_group_config welcome resumption_psk_store bundle group_secrets).

(** The usage, group and epoch of the first branch or reinit PSK. *)
Definition required_resumption_secret (self : PendingResumingWelcome) : option (ResumptionPskUsage * bytes * Z) :=
  head (omap (fun psk_id => match psk psk_id with
                            | PskResumption UsageReinit group_id epoch => Some (UsageReinit, group_id, epoch)
                            | PskResumption UsageBranch group_id epoch => Some (UsageBranch, group_id, epoch)
                            | _ => None
                            end) (gs_psks (prw_group_secrets self))).

Definition finish (self : PendingResumingWelcome) (storage : Storage) (resumption_info : option ResumptionInfo) :
    result WelcomeError ProcessedWelcome :=
  Join.finish_processed_welcome (prw_config self) storage (prw_resumption_psk_store self) (prw_key_package_bundle self)
    (prw_group_secrets self) (prw_welcome self) resumption_info.

Definition build_from_reinit (self : PendingResumingWelcome) (storage : Storage) (reinit_info : ReInitInfo) :
    result WelcomeError JoinBuilder :=
  processed_welcome ← finish self storage (Some (InfoReInit reinit_info));
  Ok (with_resumption_info (new processed_welcome) (InfoReInit reinit_info)).

Definition build_from_branch (self : PendingResumingWelcome) (storage : Storage) (branch_info : BranchInfo) :
    result WelcomeError JoinBuilder :=
  processed_welcome ← finish self storage (Some (InfoBranch branch_info));
  Ok (with_resumption_info (new processed_welcome) (InfoBranch branch_info)).
End JBuilder.
End JBuilder.
