(* ===== verification/MemberProcessing.v ===== *)
(** * Groups of a member: processing messages

    Models the processing of openmls/src/group/mls_group/processing.rs and the decryption of
    framing/validation.rs that works on a member's group. *)
From S2P Require Import Prelude TreeMath BinaryTree Crypto SenderRatchet SecretTree PastSecrets Extensions TreeSync LeafNode TreeKem Proposals KeySchedule Framing PrivateMessages ProposalStore PublicGroup StagedCommit MessageValidation MemberGroup MemberCommit.

Inductive InboundDecryptionResult : Type :=
  | Decrypted (message : VerifiableAuthenticatedContent) (ratchet_update : option PendingRatchetUpdate)
  | OwnPrivate (epoch : Z) (authenticated_data : bytes).

(** [EpochRatchetUpdate] and [UnprotectedMessage]. *)
Record EpochRatchetUpdate : Type := mkEpochRatchetUpdate { eru_epoch : Z; eru_update : PendingRatchetUpdate }.

Inductive UnprotectedMessage : Type :=
  | Unverified (message : UnverifiedMessage) (ratchet_update : option EpochRatchetUpdate)
  | UnprotectedOwnPrivate (epoch : Z) (authenticated_data : bytes).

Inductive ProcessedMessageContent : Type :=
  | ApplicationMessage (data : bytes)
  | ProposalMessage (p : QueuedProposal)
  | ExternalJoinProposalMessage (p : QueuedProposal)
  | StagedCommitMessage (c : MStagedCommit)
  | OwnPendingCommit
  | OwnPrivateMessage.

Record ProcessedMessage : Type := mkProcessedMessage {
  processed_group_id : bytes;
  processed_epoch : Z;
  processed_sender : Sender.t;
  processed_authenticated_data : bytes;
  processed_content : ProcessedMessageContent;
  processed_credential : Credential;
}.

Module MProcess.
Section MProcess.
Context {OC : OpenMlsCrypto} {TC : TlsCodec} {CD : ContentDecoder}.
Implicit Types self : MlsGroup.

(** ** Decryption *)

(** [DecryptedMessage::from_inbound_ciphertext]. *)
Definition from_inbound_ciphertext (ciphertext : PrivateMessage) (configuration : SenderRatchetConfiguration) :
    stateful MlsGroup ValidationError InboundDecryptionResult :=
  ciphersuite ← reading (fun self => Ok (MGroup.ciphersuite self));
  '(message_secrets, _) ← reading (fun self => map_err (fun e => UnableToDecrypt (DecryptionSecretTreeError e))
    (MGroup.message_secrets_and_leaves self (pvm_epoch ciphertext)));
  sender_data ← lifting (map_err UnableToDecrypt (sender_data ciphertext message_secrets ciphersuite));
  if sd_leaf_index sender_data =? MSecrets.own_index message_secrets
  then mret (OwnPrivate (pvm_epoch ciphertext) (pvm_authenticated_data ciphertext))
  else
    '(Available ratchet_key_material, ratchet_update) ←
      MGroup.message_secrets_for_epoch_mut (fun _ => UnableToDecrypt AeadError) (pvm_epoch ciphertext)
        (secret_tree_mut (fun e => UnableToDecrypt (DecryptionSecretTreeError e))
           (STree.prepare_decryption ciphersuite (sd_leaf_index sender_data) (SecretType_from (pvm_content_type ciphertext))
              (sd_generation sender_data) configuration));
    message_secrets ← reading (fun self => map_err (fun _ => UnableToDecrypt AeadError)
                        (MGroup.message_secrets_for_epoch self (pvm_epoch ciphertext)));
    decrypted ← lifting (map_err UnableToDecrypt
                  (to_verifiable_content ciphertext message_secrets ratchet_key_material sender_data));
    message ← lifting (from_verifiable_content decrypted);
    mret (Decrypted message ratchet_update).

Definition decrypt_message (message : ProtocolMessage) (configuration : SenderRatchetConfiguration) :
    stateful MlsGroup ValidationError InboundDecryptionResult :=
  _ ← reading (fun self => validate_framing (public_group self) message);
  match message with
  | PublicProtocolMessage public_message =>
      reading (fun self =>
        message_secrets ← map_err (fun e => match e with
                                            | TooDistantInThePast => NoPastEpochData
                                            | _ => ValidationLibraryError
                                                (CustomError "Unexpected error while retrieving message secrets for epoch.")
                                            end) (MGroup.message_secrets_for_epoch self (PMsg.epoch message));
        message ← from_inbound_public_message public_message (Some message_secrets) (serialized_context message_secrets)
                    (MGroup.ciphersuite self);
        Ok (Decrypted message None))
  | PrivateProtocolMessage ciphertext => from_inbound_ciphertext ciphertext configuration
  end.

Definition unprotect_message (message : ProtocolMessage) : stateful MlsGroup ProcessMessageError UnprotectedMessage :=
  active ← reading (fun self => Ok (MGroup.is_active self));
  config ← reading (fun self => Ok (mls_group_config self));
  if negb active then lifting (Err (ProcessGroupState UseAfterEviction))
  else if negb (PMsg.is_external message) && PMsg.is_handshake_message message
          && negb (is_compatible_with (wf_incoming (wire_format_policy config)) (PMsg.wire_format message))
  then lifting (Err IncompatibleWireFormat)
  else
    decrypt_result ← Kem.with_err ProcessValidation (decrypt_message message (sender_ratchet_configuration config));
    match decrypt_result with
    | OwnPrivate epoch authenticated_data => mret (UnprotectedOwnPrivate epoch authenticated_data)
    | Decrypted decrypted_message ratchet_update =>
        unverified_message ← reading (fun self => map_err ProcessValidation
          (parse_message (public_group self) decrypted_message (Some (message_secrets_store self))));
        mret (Unverified unverified_message (mkEpochRatchetUpdate (PMsg.epoch message) <$> ratchet_update))
    end.

(** ** Verified content *)
Definition processed self (epoch : Z) (content : AuthenticatedContent) (credential : Credential)
    (processed_content : ProcessedMessageContent) : ProcessedMessage :=
  mkProcessedMessage (MGroup.group_id self) epoch (fc_sender (ac_content content))
    (fc_authenticated_data (ac_content content)) processed_content credential.

Definition process_internal_authenticated_content self (storage : Storage) (clock : Z) (content : AuthenticatedContent)
    (credential : Credential) (lifetime_policy : LeafNodeLifetimePolicy) : result ProcessMessageError ProcessedMessage :=
  let sender := fc_sender (ac_content content) in
  let done := processed self (fc_epoch (ac_content content)) content credential in
  match fc_body (ac_content content) with
  | BodyApplication application_message => Ok (done (ApplicationMessage application_message))
  | BodyProposal _ =>
      proposal ← map_err ProcessLibraryError (from_authenticated_content_by_ref (MGroup.ciphersuite self) content);
      Ok (done (if bool_decide (sender = Sender.NewMemberProposal) then ExternalJoinProposalMessage proposal
                else ProposalMessage proposal))
  | BodyCommit commit =>
      let is_own_commit := bool_decide (sender = Sender.Member (own_leaf_index self)) in
      is_pending ← (if is_own_commit then
                      received_tag ← ok_or (auth_confirmation_tag (ac_auth content)) (InvalidCommit ConfirmationTagMissing);
                      Ok (MCommit.matches_pending_commit self received_tag)
                    else Ok false);
      if (is_pending : bool) then Ok (done OwnPendingCommit)
      else if is_own_commit && bool_decide (is_Some (commit_path commit)) then Err (InvalidCommit OwnCommitMismatch)
      else
        '(old_epoch_keypairs, leaf_node_keypairs) ← map_err InvalidCommit (MCommit.read_decryption_keypairs self storage);
        staged_commit ← map_err InvalidCommit (MCommit.stage_commit self storage clock content old_epoch_keypairs
                                                 leaf_node_keypairs lifetime_policy);
        Ok (done (StagedCommitMessage staged_commit))
  end.

Definition process_external_authenticated_content self (content : AuthenticatedContent) (credential : Credential) :
    result ProcessMessageError ProcessedMessage :=
  match fc_body (ac_content content) with
  | BodyApplication _ => Err UnauthorizedExternalApplicationMessage
  | BodyProposal (Proposal.GroupContextExtensions _ | Proposal.Remove _ | Proposal.Add _ | Proposal.PreSharedKey _
                 | Proposal.ReInit _) =>
      proposal ← map_err ProcessLibraryError (from_authenticated_content_by_ref (MGroup.ciphersuite self) content);
      Ok (processed self (MGroup.epoch self) content credential (ProposalMessage proposal))
  | BodyProposal _ => Err ProcessUnsupportedProposalType
  | BodyCommit _ => Err UnauthorizedExternalCommitMessage
  end.

Definition process_verified_message self (storage : Storage) (clock : Z) (verified : AuthenticatedContent * Credential)
    (lifetime_policy : LeafNodeLifetimePolicy) : result ProcessMessageError ProcessedMessage :=
  match fc_sender (ac_content verified.1) with
  | Sender.Member _ | Sender.NewMemberProposal | Sender.NewMemberCommit =>
      process_internal_authenticated_content self storage clock verified.1 verified.2 lifetime_policy
  | Sender.External _ => process_external_authenticated_content self verified.1 verified.2
  end.

Definition apply_ratchet_update (ratchet_update : EpochRatchetUpdate) : stateful MlsGroup ProcessMessageError unit :=
  let missing {A} (_ : A) := ProcessLibraryError (CustomError "Message secrets of a decrypted message are missing") in
  configuration ← reading (fun self => Ok (sender_ratchet_configuration (mls_group_config self)));
  MGroup.message_secrets_for_epoch_mut missing (eru_epoch ratchet_update)
    (secret_tree_mut missing (STree.apply_decryption_update (eru_update ratchet_update) configuration)).

Definition process_unverified_message (storage : Storage) (clock : Z) (unverified_message : UnverifiedMessage)
    (ratchet_update : option EpochRatchetUpdate) (lifetime_policy : LeafNodeLifetimePolicy) :
    stateful MlsGroup ProcessMessageError ProcessedMessage :=
  verified ← reading (fun self => map_err ProcessValidation
    (message_verify unverified_message clock (MGroup.ciphersuite self) (MGroup.version self) lifetime_policy));
  processed ← reading (fun self => process_verified_message self storage clock verified lifetime_policy);
  _ ← match ratchet_update with Some ratchet_update => apply_ratchet_update ratchet_update | None => mret tt end;
  mret processed.

Definition process_message_with_lifetime_policy (storage : Storage) (clock : Z) (message : ProtocolMessage)
    (lifetime_policy : LeafNodeLifetimePolicy) : stateful MlsGroup ProcessMessageError ProcessedMessage :=
  unprotected ← unprotect_message message;
  match unprotected with
  | Unverified message ratchet_update => process_unverified_message storage clock message ratchet_update lifetime_policy
  | UnprotectedOwnPrivate epoch authenticated_data =>
      credential ← reading (fun self => map_err ProcessGroupState (MGroup.credential self));
      reading (fun self => Ok (mkProcessedMessage (MGroup.group_id self) epoch (Sender.Member (own_leaf_index self))
                                 authenticated_data OwnPrivateMessage credential))
  end.

Definition process_message (storage : Storage) (clock : Z) (message : ProtocolMessage) :
    stateful MlsGroup ProcessMessageError ProcessedMessage :=
  process_message_with_lifetime_policy storage clock message Verify.
End MProcess.
End MProcess.
