(* ===== verification/CommitBuilder.v ===== *)
(** * Groups of a member: creating commits

    Models openmls/src/group/mls_group/commit_builder.rs: the stages of the [CommitBuilder],
    for regular and external commits. Randomness, the iteration order of a [HashMap] and the
    caller's filter are arguments. The encoding of an exported ratchet tree is made when its
    extension is created, and the bundle holds the framed commit. *)
From S2P Require Import Prelude TreeMath BinaryTree Crypto SenderRatchet SecretTree PastSecrets Extensions TreeSync LeafNode TreeKem Proposals KeySchedule Framing PrivateMessages Welcome ProposalStore PublicGroup StagedCommit MessageValidation MemberGroup MemberCommit.

(** ** Stages *)
Record ExternalCommitInfo : Type := mkExternalCommitInfo {
  eci_credential : CredentialWithKey;
  eci_wire_format_policy : WireFormatPolicy;
}.

Record GroupInfoConfig : Type := mkGroupInfoConfig {
  gic_create_group_info : bool;
  gic_use_ratchet_tree_extension : bool;
  gic_other_extensions : Extensions;
}.

Record Initial : Type := mkInitial {
  in_own_proposals : list Proposal.t;
  in_force_self_update : bool;
  in_leaf_node_parameters : LeafNodeParameters;
  in_external_commit_info : option ExternalCommitInfo;
  in_bare_aad : option bytes;
  in_consume_proposal_store : bool;
  in_lifetime_policy : LeafNodeLifetimePolicy;
  in_foreign_resumption_psk : option (PreSharedKeyId * Secret);
}.

Record LoadedPsks : Type := mkLoadedPsks {
  lo_own_proposals : list Proposal.t;
  lo_force_self_update : bool;
  lo_leaf_node_parameters : LeafNodeParameters;
  lo_external_commit_info : option ExternalCommitInfo;
  lo_consume_proposal_store : bool;
  lo_psks : list (PreSharedKeyId * Secret);
  lo_group_info_config : GroupInfoConfig;
  lo_lifetime_policy : LeafNodeLifetimePolicy;
  lo_bare_aad : option bytes;
}.

Record CreateCommitResult : Type := mkCreateCommitResult {
  ccr_commit : AuthenticatedContent;
  ccr_welcome_option : option Welcome;
  ccr_staged_commit : MStagedCommit;
  ccr_group_info : option GroupInfo;
}.

Record Complete : Type := mkComplete {
  co_result : CreateCommitResult;
  co_original_wire_format_policy : option WireFormatPolicy;
}.

Record CommitMessageBundle : Type := mkCommitMessageBundle {
  bundle_version : ProtocolVersion.t;
  bundle_commit : ProtocolMessage;
  bundle_welcome : option Welcome;
  bundle_group_info : option GroupInfo;
}.

(** [NewSignerBundle], with the scheme of its signer. *)
Record NewSignerBundle : Type := mkNewSignerBundle {
  ns_signer : bytes -> option bytes;
  ns_signature_scheme : SignatureScheme;
  ns_credential_with_key : CredentialWithKey;
}.

#[export] Instance credential_with_key_eq_dec : EqDecision CredentialWithKey.
Proof. solve_decision. Defined.

Module CBuilder.
(** ** The initial stage *)
Definition default_initial : Initial :=
  mkInitial [] false (mkLeafNodeParameters None None None None) None None true Verify None.

Definition set_own_proposals (self : Initial) (proposals : list Proposal.t) : Initial :=
  mkInitial proposals (in_force_self_update self) (in_leaf_node_parameters self) (in_external_commit_info self)
    (in_bare_aad self) (in_consume_proposal_store self) (in_lifetime_policy self) (in_foreign_resumption_psk self).

Definition set_foreign_resumption_psk (self : Initial) (psk : option (PreSharedKeyId * Secret)) : Initial :=
  mkInitial (in_own_proposals self) (in_force_self_update self) (in_leaf_node_parameters self) (in_external_commit_info self)
    (in_bare_aad self) (in_consume_proposal_store self) (in_lifetime_policy self) psk.

Definition consume_proposal_store (self : Initial) (consume : bool) : Initial :=
  mkInitial (in_own_proposals self) (in_force_self_update self) (in_leaf_node_parameters self) (in_external_commit_info self)
    (in_bare_aad self) consume (in_lifetime_policy self) (in_foreign_resumption_psk self).

Definition force_self_update (self : Initial) (force : bool) : Initial :=
  mkInitial (in_own_proposals self) force (in_leaf_node_parameters self) (in_external_commit_info self)
    (in_bare_aad self) (in_consume_proposal_store self) (in_lifetime_policy self) (in_foreign_resumption_psk self).

Definition leaf_node_parameters (self : Initial) (parameters : LeafNodeParameters) : Initial :=
  mkInitial (in_own_proposals self) (in_force_self_update self) parameters (in_external_commit_info self)
    (in_bare_aad self) (in_consume_proposal_store self) (in_lifetime_policy self) (in_foreign_resumption_psk self).

Definition leaf_node_lifetime_policy (self : Initial) (lifetime_policy : LeafNodeLifetimePolicy) : Initial :=
  mkInitial (in_own_proposals self) (in_force_self_update self) (in_leaf_node_parameters self) (in_external_commit_info self)
    (in_bare_aad self) (in_consume_proposal_store self) lifetime_policy (in_foreign_resumption_psk self).

Definition with_aad (self : Initial) (aad : bytes) : Initial :=
  mkInitial (in_own_proposals self) (in_force_self_update self) (in_leaf_node_parameters self) (in_external_commit_info self)
    (Some aad) (in_consume_proposal_store self) (in_lifetime_policy self) (in_foreign_resumption_psk self).

Definition add_proposals (self : Initial) (proposals : list Proposal.t) : Initial :=
  set_own_proposals self (in_own_proposals self ++ proposals).
Definition add_proposal (self : Initial) (proposal : Proposal.t) : Initial := add_proposals self [proposal].
Definition propose_adds (self : Initial) (key_packages : list KeyPackage) : Initial :=
  add_proposals self (Proposal.Add <$> key_packages).
Definition propose_removals (self : Initial) (removed : list LeafNodeIndex.t) : Initial :=
  add_proposals self (Proposal.Remove <$> removed).
Definition propose_group_context_extensions (self : Initial) (extensions : Extensions) : Initial :=
  add_proposal self (Proposal.GroupContextExtensions extensions).
Definition propose_psks_unchecked (self : Initial) (psk_ids : list PreSharedKeyId) : Initial :=
  add_proposals self (Proposal.PreSharedKey <$> psk_ids).

(** [propose_psks]. *)
Definition propose_psks (self : Initial) (psk_ids : list PreSharedKeyId) : result CreateCommitError Initial :=
  try_fold (fun self psk_id =>
    match psk psk_id with
    | PskResumption UsageBranch _ _ => Err (CreatePskError (UsageMismatch [UsageApplication] UsageBranch))
    | PskResumption UsageReinit _ _ => Err (CreatePskError (UsageMismatch [UsageApplication] UsageReinit))
    | _ => Ok (add_proposal self (Proposal.PreSharedKey psk_id))
    end) psk_ids self.

(** [branch] and [reinit]: a resumption PSK of another group, with the nonce drawn. *)
Definition propose_foreign_psk (self : Initial) (nonce : result CryptoError bytes) (usage : ResumptionPskUsage)
    (group_id : bytes) (epoch : Z) (resumption_psk_secret : Secret) : result CreateCommitError Initial :=
  nonce ← map_err (fun e => CreateLibraryError (UnexpectedCryptoError e)) nonce;
  let psk_id := mkPreSharedKeyId (PskResumption usage group_id epoch) nonce in
  Ok (set_foreign_resumption_psk (propose_psks_unchecked self [psk_id]) (Some (psk_id, resumption_psk_secret))).

Section CBuilder.
Context {OC : OpenMlsCrypto} {TC : TlsCodec}.
Implicit Types group : MlsGroup.

(** ** Loading PSKs *)
Definition proposed_psk (proposal : Proposal.t) : option PreSharedKeyId :=
  match proposal with Proposal.PreSharedKey psk_id => Some psk_id | _ => None end.

Definition load_psks (self : Initial) group (storage : Storage) : result CreateCommitError LoadedPsks :=
  let psk_ids := omap proposed_psk (in_own_proposals self ++ (qp_proposal <$> MGroup.proposal_store group)) in
  psks ← map_err CreatePskError
    (KeySchedule.load_psks (stored_psk storage) (resumption_psk_store group) (Some (MGroup.group_id group))
       (in_foreign_resumption_psk self) psk_ids);
  let use_tree := use_ratchet_tree_extension (mls_group_config group) in
  Ok (mkLoadedPsks (in_own_proposals self) (in_force_self_update self) (in_leaf_node_parameters self)
        (in_external_commit_info self) (in_consume_proposal_store self) psks (mkGroupInfoConfig use_tree use_tree [])
        (in_lifetime_policy self) (in_bare_aad self)).

Definition set_group_info_config (self : LoadedPsks) (config : GroupInfoConfig) : LoadedPsks :=
  mkLoadedPsks (lo_own_proposals self) (lo_force_self_update self) (lo_leaf_node_parameters self)
    (lo_external_commit_info self) (lo_consume_proposal_store self) (lo_psks self) config (lo_lifetime_policy self)
    (lo_bare_aad self).

Definition create_group_info (self : LoadedPsks) (create : bool) : LoadedPsks :=
  let c := lo_group_info_config self in
  set_group_info_config self (mkGroupInfoConfig create (gic_use_ratchet_tree_extension c) (gic_other_extensions c)).

Definition use_ratchet_tree (self : LoadedPsks) (use_tree : bool) : LoadedPsks :=
  let c := lo_group_info_config self in
  set_group_info_config self
    (mkGroupInfoConfig (if use_tree then true else gic_create_group_info c) use_tree (gic_other_extensions c)).

Definition create_group_info_with_extensions (self : LoadedPsks) (extensions : Extensions) :
    result InvalidExtensionError LoadedPsks :=
  other_extensions ← try_map (fun extension =>
    match extension with
    | Extension.RatchetTree _ | Extension.ExternalPub _ => Err CannotAddDirectlyToGroupInfo
    | _ => Ok extension
    end) extensions;
  Ok (set_group_info_config self
        (mkGroupInfoConfig true (gic_use_ratchet_tree_extension (lo_group_info_config self)) other_extensions)).

(** ** Building the commit *)

(** The parameters of the new leaf: the authoritative credential of an external commit, or
    the one of a new signer, is folded in. *)
Definition set_credential_with_key (self : LeafNodeParameters) (credential_with_key : CredentialWithKey) : LeafNodeParameters :=
  mkLeafNodeParameters (Some credential_with_key) (lp_capabilities self) (lp_extensions self) (lp_capabilities_policy self).

Definition fold_credential (e : CreateCommitError) (self : LeafNodeParameters) (credential : CredentialWithKey) :
    result CreateCommitError LeafNodeParameters :=
  match lp_credential_with_key self with
  | Some params_credential =>
      if negb (bool_decide (params_credential = credential)) then Err e else Ok (set_credential_with_key self credential)
  | None => Ok (set_credential_with_key self credential)
  end.

Definition effective_parameters (self : LoadedPsks) (ciphersuite : Ciphersuite) (new_signer : option NewSignerBundle) :
    result CreateCommitError LeafNodeParameters :=
  parameters ← match lo_external_commit_info self with
               | Some info => fold_credential ExternalCommitCredentialMismatch (lo_leaf_node_parameters self) (eci_credential info)
               | None => Ok (lo_leaf_node_parameters self)
               end;
  match new_signer with
  | Some bundle =>
      if negb (bool_decide (Suite.signature_algorithm ciphersuite = ns_signature_scheme bundle)) then Err InvalidSignerCiphersuite
      else fold_credential InvalidLeafNodeParameters parameters (ns_credential_with_key bundle)
  | None => Ok parameters
  end.

Definition commit_sender (self : LoadedPsks) group : Sender.t :=
  match lo_external_commit_info self with None => Sender.Member (own_leaf_index group) | Some _ => Sender.NewMemberCommit end.

Definition is_external_commit (self : LoadedPsks) : bool := bool_decide (is_Some (lo_external_commit_info self)).

Definition filter_error (e : ProposalQueueError) : CreateCommitError :=
  match e with
  | QueueLibraryError e => CreateLibraryError e
  | QueueProposalNotFound => CreateMissingProposal
  | UpdateFromExternalSender | SelfRemoveFromNonMember => WrongProposalSenderType
  end.

(** The proposals of the commit: pending ones if wanted, then own ones, as the caller filters them. *)
Definition commit_queue (self : LoadedPsks) group (values : gmap LeafNodeIndex.t QueuedProposal -> list QueuedProposal)
    (f : QueuedProposal -> bool) : result CreateCommitError (ProposalQueue * bool) :=
  own_proposals ← map_err CreateLibraryError
    (try_map (fun proposal => from_proposal_and_sender (MGroup.ciphersuite group) proposal (commit_sender self group))
       (lo_own_proposals self));
  let pending := if lo_consume_proposal_store self then MGroup.proposal_store group else [] in
  map_err filter_error (Queue.filter_proposals values (filter f (pending ++ own_proposals)) (own_leaf_index group)).

(** The validation of the queue, in the order of the source. *)
Definition validate_queue (self : LoadedPsks) group (clock : Z) (parameters : LeafNodeParameters) (proposal_queue : ProposalQueue) :
    result CreateCommitError unit :=
  let g := public_group group in
  let checked r := map_err CreateProposalValidation r in
  _ ← checked (PGroup.validate_proposal_type_support g proposal_queue);
  _ ← checked (PGroup.validate_key_uniqueness g proposal_queue None (commit_sender self group)
                 (cwk_signature_key <$> lp_credential_with_key parameters));
  _ ← checked (PGroup.validate_add_proposals g clock proposal_queue (lo_lifetime_policy self));
  _ ← checked (PGroup.validate_capabilities g proposal_queue);
  _ ← checked (PGroup.validate_remove_proposals g proposal_queue);
  _ ← checked (PGroup.validate_pre_shared_key_proposals g proposal_queue);
  _ ← checked (PGroup.validate_reinit_proposals g proposal_queue);
  _ ← checked (PGroup.validate_update_proposals g clock proposal_queue (own_leaf_index group));
  _ ← map_err CreateGCEValidation (PGroup.validate_group_context_extensions_proposal g proposal_queue);
  if is_external_commit self then map_err InvalidExternalCommit (PGroup.validate_external_commit g proposal_queue) else Ok tt.

(** The path, or only the new group context. *)
Definition commit_path_result (self : LoadedPsks) group (random leaf_random : result CryptoError Secret)
    (parameters : LeafNodeParameters) (old_signer : bytes -> option bytes) (new_signer : option NewSignerBundle)
    (contains_own_updates : bool) (values : ApplyProposalsValues) :
    stateful PublicGroupDiff CreateCommitError PathComputationResult :=
  if apv_path_required values || contains_own_updates || lo_force_self_update self || negb (is_empty parameters)
     || bool_decide (is_Some new_signer)
  then
    let constraints := PGroup.leaf_node_constraints (public_group group) in
    let constraints := match apv_extensions values with
                       | Some extensions => Constraints.add_group_context_extensions constraints extensions
                       | None => constraints
                       end in
    PGDiff.compute_path random leaf_random (own_leaf_index group) (exclusion_list values)
      (if is_external_commit self then TreeKem.External else TreeKem.Member) parameters
      (match new_signer with Some bundle => ns_signer bundle | None => old_signer end) (apv_extensions values) constraints
  else
    _ ← Kem.with_err CreateLibraryError (PGDiff.update_group_context (apv_extensions values));
    mret (mkPathComputationResult None None None []).

(** The key schedule of the new epoch: the joiner secret, the welcome secret and the epoch secrets. *)
Definition commit_epoch_secrets group (psks : list (PreSharedKeyId * Secret)) (commit_secret : option Secret)
    (serialized_provisional_group_context : bytes) : result CreateCommitError (Secret * Secret * EpochSecrets) :=
  let ciphersuite := MGroup.ciphersuite group in
  joiner_secret ← map_err (fun e => CreateLibraryError (UnexpectedCryptoError e))
    (joiner_secret_new ciphersuite commit_secret (ges_init_secret (group_epoch_secrets group)) serialized_provisional_group_context);
  psk_secret ← map_err CreatePskError (psk_secret_new ciphersuite psks);
  key_schedule ← map_err CreateLibraryError (KSched.init ciphersuite joiner_secret psk_secret);
  let wrong_state {A} (r : result KeyScheduleError A) :=
    map_err (fun _ => CreateLibraryError (CustomError "Using the key schedule in the wrong state")) r in
  welcome_secret ← wrong_state (KSched.welcome key_schedule ciphersuite);
  let '(r, key_schedule) := KSched.add_context serialized_provisional_group_context key_schedule in
  _ ← wrong_state r;
  epoch_secrets ← wrong_state (fst (KSched.epoch_secrets ciphersuite key_schedule));
  Ok (joiner_secret, welcome_secret, epoch_secrets).

(** The Welcome for the invited members. *)
Definition commit_welcome group (diff : PublicGroupDiff) (extensions : Extensions) (confirmation_tag : bytes)
    (signer : bytes -> option bytes) (joiner_secret welcome_secret : Secret) (values : ApplyProposalsValues)
    (plain_path : option (list PlainUpdatePathNode)) : result CreateCommitError Welcome :=
  let ciphersuite := MGroup.ciphersuite group in
  let crypto {A} (r : result CryptoError A) := map_err (fun e => CreateLibraryError (UnexpectedCryptoError e)) r in
  group_info_tbs ← map_err CreateInvalidExtension
    (group_info_tbs_new (pgd_group_context diff) extensions confirmation_tag (own_leaf_index group));
  group_info ← map_err CreateSignatureError (group_info_sign group_info_tbs signer);
  '(welcome_key, welcome_nonce) ← crypto (derive_welcome_key_nonce welcome_secret ciphersuite);
  serialized_group_info ← ok_or (tls_group_info group_info) (CreateLibraryError MissingBoundsCheck);
  encrypted_group_info ← crypto (aead_seal welcome_key serialized_group_info [] welcome_nonce);
  encrypted_secrets ← map_err CreateLibraryError
    (encrypt_group_secrets (pgd_diff diff) joiner_secret (apv_invitation_list values) plain_path (apv_presharedkeys values)
       encrypted_group_info (own_leaf_index group));
  Ok (mkWelcome ciphersuite encrypted_secrets encrypted_group_info).

(** The group info for export, with the external public key. *)
Definition commit_group_info group (diff : PublicGroupDiff) (extensions : Extensions) (confirmation_tag : bytes)
    (signer : bytes -> option bytes) (epoch_secrets : EpochSecrets) : result CreateCommitError GroupInfo :=
  '(external_pub, _) ← map_err (fun e => CreateLibraryError (UnexpectedCryptoError e))
    (derive_external_keypair (es_external_secret epoch_secrets) (MGroup.ciphersuite group));
  let '(r, extensions) := Exts.add InGroupInfo (Extension.ExternalPub external_pub) extensions in
  _ ← map_err CreateInvalidExtension r;
  group_info_tbs ← map_err CreateInvalidExtension
    (group_info_tbs_new (pgd_group_context diff) extensions confirmation_tag (own_leaf_index group));
  map_err CreateSignatureError (group_info_sign group_info_tbs signer).

Definition welcome_and_group_info (self : LoadedPsks) group (diff : PublicGroupDiff) (confirmation_tag : bytes)
    (signer : bytes -> option bytes) (joiner_secret welcome_secret : Secret) (epoch_secrets : EpochSecrets)
    (values : ApplyProposalsValues) (plain_path : option (list PlainUpdatePathNode)) :
    result CreateCommitError (option Welcome * option GroupInfo) :=
  let config := lo_group_info_config self in
  let needs_welcome := negb (bool_decide (length (apv_invitation_list values) = 0%nat)) in
  if negb (needs_welcome || gic_create_group_info config) then Ok (None, None)
  else
    tree_extension ←
      (if gic_use_ratchet_tree_extension config then
         nodes ← returns (TSync.diff_export_ratchet_tree (pgd_diff diff));
         ratchet_tree ← ok_or (tls_ratchet_tree nodes) (CreateSignatureError SignatureSigningError);
         Ok [Extension.RatchetTree ratchet_tree]
       else Ok []);
    extensions ← map_err CreateInvalidExtension (Exts.from_vec InGroupInfo (tree_extension ++ gic_other_extensions config));
    welcome_option ←
      (if needs_welcome then
         welcome ← commit_welcome group diff extensions confirmation_tag signer joiner_secret welcome_secret values plain_path;
         Ok (Some welcome)
       else Ok None);
    exported_group_info ←
      (if gic_create_group_info config then
         group_info ← commit_group_info group diff extensions confirmation_tag signer epoch_secrets;
         Ok (Some group_info)
       else Ok None);
    Ok (welcome_option, exported_group_info).

(** [build_internal] after the validation, on a diff of the public group. *)
Definition build_on_diff (self : LoadedPsks) group (random leaf_random : result CryptoError Secret)
    (parameters : LeafNodeParameters) (old_signer : bytes -> option bytes) (new_signer : option NewSignerBundle)
    (proposal_queue : ProposalQueue) (contains_own_updates : bool) :
    stateful PublicGroupDiff CreateCommitError CreateCommitResult :=
  let ciphersuite := MGroup.ciphersuite group in
  let library {A} (m : stateful PublicGroupDiff LibraryError A) := Kem.with_err CreateLibraryError m in
  values ← library (PGDiff.apply_proposals proposal_queue (Some (own_leaf_index group)));
  if apv_self_removed values && negb (is_external_commit self) then lifting (Err CannotRemoveSelf)
  else
    path ← commit_path_result self group random leaf_random parameters old_signer new_signer contains_own_updates values;
    let commit := mkCommit (Queue.commit_list proposal_queue) (pcr_encrypted_path path) in
    let wire_format := if is_external_commit self then WirePublicMessage
                       else outgoing_wire_format (wf_outgoing (wire_format_policy (mls_group_config group))) in
    outgoing_aad ← lifting (match lo_bare_aad self with
                            | Some aad => Ok aad
                            | None => map_err CreateLibraryError (MGroup.outgoing_authenticated_data group)
                            end);
    authenticated_content ← lifting (map_err CreateLibraryError
      (new_commit (mkFramingParameters outgoing_aad wire_format) (commit_sender self group) commit (MGroup.context group) old_signer));
    _ ← library (PGDiff.update_confirmed_transcript_hash authenticated_content);
    serialized_provisional_group_context ← reading (fun diff =>
      ok_or (tls_group_context (pgd_group_context diff)) (CreateLibraryError MissingBoundsCheck));
    '(joiner_secret, welcome_secret, epoch_secrets) ← lifting
      (commit_epoch_secrets group (lo_psks self) (pcr_commit_secret path) serialized_provisional_group_context);
    confirmation_tag ← reading (fun diff => map_err (fun e => CreateLibraryError (UnexpectedCryptoError e))
      (confirmation_tag_new (es_confirmation_key epoch_secrets) ciphersuite (gc_confirmed_transcript_hash (pgd_group_context diff))));
    let authenticated_content := set_confirmation_tag authenticated_content confirmation_tag in
    _ ← library (PGDiff.update_interim_transcript_hash ciphersuite confirmation_tag);
    '(welcome_option, group_info) ← reading (fun diff =>
      welcome_and_group_info self group diff confirmation_tag
        (match new_signer with Some bundle => ns_signer bundle | None => old_signer end)
        joiner_secret welcome_secret epoch_secrets values (pcr_plain_path path));
    '(group_secrets, message_secrets) ← reading (fun diff =>
      Ok (EpSecrets.split_secrets epoch_secrets serialized_provisional_group_context (size (pgd_diff diff)) (own_leaf_index group)));
    staged_diff ← reading (fun diff => map_err CreateLibraryError (PGDiff.into_staged_diff diff ciphersuite));
    let state := mkMemberStagedCommitState group_secrets message_secrets staged_diff (pcr_new_keypairs path) None
                   (update_leaf_node <$> pcr_encrypted_path path) in
    mret (mkCreateCommitResult authenticated_content welcome_option (mkStagedCommit proposal_queue (GroupMemberState state)) group_info).

Definition build_internal (self : LoadedPsks) group (clock : Z) (random leaf_random : result CryptoError Secret)
    (values : gmap LeafNodeIndex.t QueuedProposal -> list QueuedProposal) (old_signer : bytes -> option bytes)
    (new_signer : option NewSignerBundle) (f : QueuedProposal -> bool) : result CreateCommitError Complete :=
  parameters ← effective_parameters self (MGroup.ciphersuite group) new_signer;
  '(proposal_queue, contains_own_updates) ← commit_queue self group values f;
  _ ← validate_queue self group clock parameters proposal_queue;
  result ← fst (build_on_diff self group random leaf_random parameters old_signer new_signer proposal_queue contains_own_updates
                  (PGroup.empty_diff (public_group group)));
  Ok (mkComplete result (eci_wire_format_policy <$> lo_external_commit_info self)).

Definition build (self : LoadedPsks) group (clock : Z) (random leaf_random : result CryptoError Secret)
    (values : gmap LeafNodeIndex.t QueuedProposal -> list QueuedProposal) (signer : bytes -> option bytes)
    (f : QueuedProposal -> bool) : result CreateCommitError Complete :=
  build_internal self group clock random leaf_random values signer None f.

Definition build_with_new_signer (self : LoadedPsks) group (clock : Z) (random leaf_random : result CryptoError Secret)
    (values : gmap LeafNodeIndex.t QueuedProposal -> list QueuedProposal) (old_signer : bytes -> option bytes)
    (new_signer : NewSignerBundle) (f : QueuedProposal -> bool) : result CreateCommitError Complete :=
  if is_external_commit self then Err ExternalCommitWithNewSigner
  else build_internal self group clock random leaf_random values old_signer (Some new_signer) f.

(** ** Staging *)

(** [stage_commit] of a regular commit. *)
Definition stage_commit (self : Complete) (random_guard : option bytes) : stateful MlsGroup LibraryError CommitMessageBundle :=
  let result := co_result self in
  _ ← modifying (fun group => MGroup.set_group_state group (PendingCommit (PendingMember (ccr_staged_commit result))));
  _ ← modifying (fun group => MGroup.set_aad group []);
  commit ← MGroup.content_to_mls_message random_guard (ccr_commit result);
  version ← reading (fun group => Ok (MGroup.version group));
  mret (mkCommitMessageBundle version commit (ccr_welcome_option result) (ccr_group_info result)).
End CBuilder.
End CBuilder.
