(* ===== verification/ExternalCommits.v ===== *)
(** * Joining a group by an external commit

    Models group/mls_group/commit_builder/external_commits.rs and
    [MlsGroup::join_by_external_commit] of creation.rs: the group of a client that is not a
    member yet, on which the commit builder builds the commit that adds the client. *)
From S2P Require Import Prelude TreeMath BinaryTree Crypto SenderRatchet SecretTree PastSecrets Extensions TreeSync LeafNode TreeKem Proposals KeySchedule Framing PrivateMessages Welcome ProposalStore PublicGroup StagedCommit MessageValidation KeyPackages MemberGroup Exporting MemberCommit Joining CommitBuilder.

Inductive ExternalCommitBuilderError : Type :=
  | EcbLibraryError (e : LibraryError) | EcbMissingRatchetTree | EcbMissingExternalPub
  | EcbUnsupportedCiphersuite (ciphersuite : Ciphersuite) | EcbPublicGroupError (e : CreationFromExternalError)
  | EcbInvalidProposal (e : ValidationError).

Inductive ExternalCommitBuilderFinalizeError : Type :=
  | FinalizeLibraryError (e : LibraryError) | FinalizeMergeCommitError (e : MergePendingCommitError).

Inductive ExternalCommitError : Type :=
  | EcLibraryError (e : LibraryError) | EcMissingRatchetTree | EcMissingExternalPub | EcUnsupportedCiphersuite (ciphersuite : Ciphersuite)
  | EcUnknownSender | EcInvalidGroupInfoSignature | EcCommitError (e : CreateCommitError) | EcPublicGroupError (e : CreationFromExternalError)
  | EcMissingCredential.

(** [From<ExternalCommitBuilderError>] and [From<ExternalCommitBuilderFinalizeError>]. *)
Definition from_builder_error (error : ExternalCommitBuilderError) : ExternalCommitError :=
  match error with
  | EcbLibraryError e => EcLibraryError e
  | EcbMissingRatchetTree => EcMissingRatchetTree
  | EcbMissingExternalPub => EcMissingExternalPub
  | EcbUnsupportedCiphersuite ciphersuite => EcUnsupportedCiphersuite ciphersuite
  | EcbPublicGroupError e => EcPublicGroupError e
  | EcbInvalidProposal _ => EcLibraryError (CustomError "Error creating external commit")
  end.
Definition from_finalize_error (error : ExternalCommitBuilderFinalizeError) : ExternalCommitError :=
  match error with
  | FinalizeLibraryError e => EcLibraryError e
  | FinalizeMergeCommitError _ => EcLibraryError (CustomError "Error merging external commit")
  end.

Record ExternalCommitBuilder : Type := mkExternalCommitBuilder {
  eb_proposals : list PublicMessage;
  eb_ratchet_tree : option RatchetTree;
  eb_config : MlsGroupJoinConfig;
  eb_validate_lifetimes : LeafNodeLifetimePolicy;
  eb_aad : bytes;
}.

Definition PURE_PLAINTEXT_WIRE_FORMAT_POLICY : WireFormatPolicy := mkWireFormatPolicy OutgoingPlaintext IncomingPlaintext.

Definition set_wire_format_policy (self : MlsGroupJoinConfig) (policy : WireFormatPolicy) : MlsGroupJoinConfig :=
  mkMlsGroupJoinConfig policy (padding_size self) (past_epoch_deletion_policy self) (number_of_resumption_psks self)
    (use_ratchet_tree_extension self) (sender_ratchet_configuration self).

Module EBuilder.
Section EBuilder.
Context {OC : OpenMlsCrypto} {TC : TlsCodec} {WD : WelcomeDecoder}.

(** The tree of the extension, which was decoded with the group info, or the one that is given. *)
Definition find_ratchet_tree (self : ExternalCommitBuilder) (verifiable_group_info : VerifiableGroupInfo) :
    result ExternalCommitBuilderError RatchetTree :=
  match Exts.ratchet_tree (gi_extensions (vgi_payload verifiable_group_info)) with
  | Some extension => '(nodes, _) ← returns (tls_read_ratchet_tree extension); Ok nodes
  | None => ok_or (eb_ratchet_tree self) EcbMissingRatchetTree
  end.

(** The SelfRemove proposals among the messages, authenticated without a membership tag. *)
Definition authenticate_proposal (public_group : PublicGroup) (clock : Z) (serialized_context : bytes) (ciphersuite : Ciphersuite)
    (queued_proposals : list QueuedProposal) (message : PublicMessage) : result ExternalCommitBuilderError (list QueuedProposal) :=
  if negb (bool_decide (content_type (fc_body (pm_content message)) = ContentProposal)) then Ok queued_proposals
  else
    decrypted_message ← map_err EcbInvalidProposal (from_inbound_public_message message None serialized_context ciphersuite);
    unverified_message ← map_err EcbInvalidProposal (parse_message public_group decrypted_message None);
    '(content, _) ← map_err EcbInvalidProposal (message_verify unverified_message clock ciphersuite ProtocolVersion.default Verify);
    queued_proposal ← map_err EcbLibraryError (from_authenticated_content ciphersuite content ByReference);
    Ok (if Proposal.is_type (qp_proposal queued_proposal) ProposalType.SelfRemove
        then queued_proposals ++ [queued_proposal] else queued_proposals).

(** The removal of the member that has our signature key. *)
Definition own_removal (public_group : PublicGroup) (credential_with_key : CredentialWithKey) : option Proposal.t :=
  (fun m => Proposal.Remove (member_index m.2)) <$>
    list_find (fun member => member_signature_key member = cwk_signature_key credential_with_key)
      (full_leaf_members (pg_treesync public_group)).

Definition build_group (self : ExternalCommitBuilder) (clock now : Z) (verifiable_group_info : VerifiableGroupInfo)
    (credential_with_key : CredentialWithKey) : result ExternalCommitBuilderError (Initial * MlsGroup) :=
  let group_ciphersuite := gc_ciphersuite (gi_group_context (vgi_payload verifiable_group_info)) in
  _ ← map_err (fun _ => EcbUnsupportedCiphersuite group_ciphersuite) (supports_op group_ciphersuite);
  ratchet_tree ← find_ratchet_tree self verifiable_group_info;
  '(public_group, group_info) ← map_err EcbPublicGroupError
    (PImport.from_ratchet_tree clock ratchet_tree verifiable_group_info Store.new (eb_validate_lifetimes self));
  let group_context := pg_group_context public_group in
  external_pub ← ok_or (Exts.external_pub (gi_extensions (gi_payload group_info))) EcbMissingExternalPub;
  '(init_secret, kem_output) ← map_err (fun _ => EcbUnsupportedCiphersuite (gc_ciphersuite group_context))
    (init_secret_from_group_context group_context external_pub);
  let ciphersuite := gc_ciphersuite group_context in
  epoch_secrets ← map_err (fun e => EcbLibraryError (UnexpectedCryptoError e)) (EpSecrets.with_init_secret ciphersuite init_secret);
  serialized_context ← ok_or (tls_group_context group_context) (EcbLibraryError MissingBoundsCheck);
  let '(group_epoch_secrets, message_secrets) :=
    EpSecrets.split_secrets epoch_secrets serialized_context (Tree.tree_size (ts_tree (pg_treesync public_group))) 0 in
  let message_secrets_store := new_with_secret (past_epoch_deletion_policy (eb_config self)) message_secrets now in
  queued_proposals ← try_fold (authenticate_proposal public_group clock serialized_context ciphersuite) (eb_proposals self) [];
  inline_proposals ← try_map (fun p => map_err EcbLibraryError (from_proposal_and_sender ciphersuite p Sender.NewMemberCommit))
    (Proposal.ExternalInit kem_output :: option_list (own_removal public_group credential_with_key));
  let queued_proposals := queued_proposals ++ inline_proposals in
  own_leaf_index ← map_err EcbLibraryError (PGroup.leftmost_free_index public_group queued_proposals);
  let mls_group := mkMlsGroup (set_wire_format_policy (eb_config self) PURE_PLAINTEXT_WIRE_FORMAT_POLICY) public_group group_epoch_secrets
    own_leaf_index message_secrets_store (RStore.new 32) [] [] Operational in
  let mls_group := MCommit.set_proposal_store mls_group (foldl Store.add (MGroup.proposal_store mls_group) queued_proposals) in
  Ok (mkInitial [] true (in_leaf_node_parameters CBuilder.default_initial)
        (Some (mkExternalCommitInfo credential_with_key (wire_format_policy (eb_config self)))) (Some (eb_aad self))
        (in_consume_proposal_store CBuilder.default_initial) (in_lifetime_policy CBuilder.default_initial) None, mls_group).

Definition set_config (self : MlsGroup) (config : MlsGroupJoinConfig) : MlsGroup :=
  mkMlsGroup config (public_group self) (group_epoch_secrets self) (own_leaf_index self) (message_secrets_store self)
    (resumption_psk_store self) (own_leaf_nodes self) (aad self) (group_state self).

Definition finalize (self : Complete) (random_guard : option bytes) (now : Z) :
    stateful MCommit.Client ExternalCommitBuilderFinalizeError CommitMessageBundle :=
  let create_commit_result := co_result self in
  mls_message ← MCommit.on_group (Kem.with_err FinalizeLibraryError
    (MGroup.content_to_mls_message random_guard (ccr_commit create_commit_result)));
  _ ← MCommit.on_group (modifying (fun group => MGroup.set_aad group []));
  _ ← MCommit.on_group (modifying (fun group =>
        match co_original_wire_format_policy self with
        | Some policy => set_config group (set_wire_format_policy (mls_group_config group) policy)
        | None => group
        end));
  _ ← MCommit.on_group (modifying (fun group =>
        MGroup.set_group_state group (PendingCommit (PendingMember (ccr_staged_commit create_commit_result)))));
  _ ← Kem.with_err FinalizeMergeCommitError (MCommit.merge_pending_commit now);
  version ← MCommit.on_group (reading (fun group => Ok (MGroup.version group)));
  mret (mkCommitMessageBundle version mls_message (ccr_welcome_option create_commit_result) (ccr_group_info create_commit_result)).

Definition join_by_external_commit (clock now : Z) (random leaf_random : result CryptoError Secret) (random_guard : option bytes)
    (values : gmap LeafNodeIndex.t QueuedProposal -> list QueuedProposal) (storage : Storage) (signer : bytes -> option bytes)
    (ratchet_tree : option RatchetTree) (verifiable_group_info : VerifiableGroupInfo) (mls_group_config : MlsGroupJoinConfig)
    (capabilities : option Capabilities) (extensions : option Extensions) (aad : bytes) (credential_with_key : CredentialWithKey) :
    result ExternalCommitError (MCommit.Client * ProtocolMessage * option GroupInfo) :=
  let leaf_node_parameters := mkLeafNodeParameters None capabilities (Some (default [] extensions)) None in
  '(initial, group) ← map_err from_builder_error
    (build_group (mkExternalCommitBuilder [] ratchet_tree mls_group_config Verify aad) clock now verifiable_group_info credential_with_key);
  loaded ← map_err (fun _ => EcLibraryError (CustomError "Error loading PSKs for external commit"))
    (CBuilder.load_psks (CBuilder.leaf_node_parameters initial leaf_node_parameters) group storage);
  complete ← map_err EcCommitError (CBuilder.build loaded group clock random leaf_random values signer (fun _ => true));
  match finalize complete random_guard now (MCommit.mkClient group storage) with
  | (Ok bundle, client) => Ok (client, bundle_commit bundle, bundle_group_info bundle)
  | (Err e, _) => Err (from_finalize_error e)
  | (Panic, _) => Panic
  end.
End EBuilder.
End EBuilder.
