(* ===== verification/Proposing.v ===== *)
(** * Groups of a member: proposals and commits of the application

    Models openmls/src/group/mls_group/{proposal,membership,updates}.rs with default features,
    commit_to_pending_proposals of processing.rs and create_group_context_ext_proposal of
    mod.rs: the calls with which an application proposes and commits. Writes to storage do not
    fail and are left out, but for the key pair of an update, which is read back. *)
From S2P Require Import Prelude TreeMath BinaryTree Crypto SenderRatchet SecretTree PastSecrets Extensions TreeSync LeafNode TreeKem Proposals KeySchedule Framing PrivateMessages Welcome ProposalStore PublicGroup StagedCommit MessageValidation MemberGroup MemberCommit CommitBuilder.

(** ** What is proposed, and errors *)
Inductive Propose : Type :=
  | ProposeAdd (key_package : KeyPackage)
  | ProposeUpdate (leaf_node_parameters : LeafNodeParameters)
  | ProposeRemove (leaf_index : LeafNodeIndex.t)
  | ProposeRemoveCredential (credential : Credential)
  | ProposePreSharedKey (psk_id : PreSharedKeyId)
  | ProposeGroupContextExtensions (extensions : Extensions)
  | ProposeCustom (custom_proposal : CustomProposal).

Inductive EmptyInputError : Type := EmptyAddMembers | EmptyRemoveMembers.

Inductive CreateAddProposalError : Type :=
  | CreateAddLibraryError (e : LibraryError) | CreateAddLeafNodeValidation (e : LeafNodeValidationError).

Inductive ProposeAddMemberError : Type :=
  | AddMemberLibraryError (e : LibraryError) | AddMemberGroupState (e : MlsGroupStateError)
  | AddMemberLeafNodeValidation (e : LeafNodeValidationError).

Inductive ProposeRemoveMemberError : Type :=
  | RemoveMemberLibraryError (e : LibraryError) | RemoveMemberGroupState (e : MlsGroupStateError) | RemoveUnknownMember.

Inductive LeaveGroupError : Type :=
  | LeaveLibraryError (e : LibraryError) | LeaveGroupState (e : MlsGroupStateError) | CannotSelfRemoveWithPureCiphertext.

Inductive ProposeSelfUpdateError : Type :=
  | SelfUpdateLibrary (e : LibraryError) | SelfUpdateGroupState (e : MlsGroupStateError)
  | SelfUpdateLeafNode (e : LeafNodeUpdateError) | SelfUpdateInvalidLeafNodeParameters | SelfUpdateInvalidSignerCiphersuite.

Inductive CreateGroupContextExtProposalError : Type :=
  | GceLibraryError (e : LibraryError) | GceLeafNodeValidation (e : LeafNodeValidationError).

Inductive ProposalError : Type :=
  | ProposalLibraryError (e : LibraryError) | ProposalAddMember (e : ProposeAddMemberError)
  | ProposalCreateAdd (e : CreateAddProposalError) | ProposalSelfUpdate (e : ProposeSelfUpdateError)
  | ProposalRemoveMember (e : ProposeRemoveMemberError) | ProposalGroupState (e : MlsGroupStateError)
  | ProposalValidation (e : ValidationError) | ProposalGce (e : CreateGroupContextExtProposalError).

Inductive RemoveProposalError : Type := ProposalNotFound.

(** The errors of the calls that commit. *)
Inductive CommitCallError : Type :=
  | CallLibraryError (e : LibraryError) | CallEmptyInput (e : EmptyInputError) | CallInvalidInput
  | CallCreateCommit (e : CreateCommitError) | CallStage (e : LibraryError) | CallGroupState (e : MlsGroupStateError).

Module MPropose.
Section MPropose.
Context {OC : OpenMlsCrypto} {TC : TlsCodec} {CD : ContentDecoder}.
Implicit Types self : MlsGroup.

(** ** Members *)
Definition own_leaf self : option LeafNode := TSync.leaf (pg_treesync (public_group self)) (own_leaf_index self).
Definition members self : list GroupMember := full_leaf_members (pg_treesync (public_group self)).

Definition member_leaf_index self (credential : Credential) : option LeafNodeIndex.t :=
  (fun m => member_index m.2) <$> list_find (fun m => member_credential m = credential) (members self).

Definition member self (leaf_index : LeafNodeIndex.t) : option Credential :=
  (fun leaf => payload_credential (payload leaf)) <$> TSync.leaf (pg_treesync (public_group self)) leaf_index.

Definition member_at self (leaf_index : LeafNodeIndex.t) : option GroupMember :=
  (fun leaf_node => mkGroupMember leaf_index (payload_encryption_key (payload leaf_node)) (payload_signature_key (payload leaf_node))
                      (payload_credential (payload leaf_node))) <$> TSync.leaf (pg_treesync (public_group self)) leaf_index.

(** ** Creating proposals *)
Definition create_add_proposal self (framing_parameters : FramingParameters) (joiner_key_package : KeyPackage)
    (signer : bytes -> option bytes) : result CreateAddProposalError AuthenticatedContent :=
  _ ← match Exts.required_capabilities (gc_extensions (MGroup.context self)) with
      | Some required_capabilities => map_err CreateAddLeafNodeValidation
          (Caps.supports_required_capabilities (payload_capabilities (payload (key_package_leaf joiner_key_package))) required_capabilities)
      | None => Ok tt
      end;
  map_err CreateAddLibraryError
    (new_member_proposal framing_parameters (own_leaf_index self) (Proposal.Add joiner_key_package) (MGroup.context self) signer).

Definition create_update_proposal self (framing_parameters : FramingParameters) (leaf_node : LeafNode) (signer : bytes -> option bytes) :
    result LibraryError AuthenticatedContent :=
  new_member_proposal framing_parameters (own_leaf_index self) (Proposal.Update leaf_node) (MGroup.context self) signer.

Definition create_remove_proposal self (framing_parameters : FramingParameters) (removed : LeafNodeIndex.t)
    (signer : bytes -> option bytes) : result ValidationError AuthenticatedContent :=
  if bool_decide (TSync.leaf (pg_treesync (public_group self)) removed = None) then Err ValidationUnknownMember
  else map_err ValidationLibraryError
    (new_member_proposal framing_parameters (own_leaf_index self) (Proposal.Remove removed) (MGroup.context self) signer).

Definition create_self_remove_proposal self (aad : bytes) (signer : bytes -> option bytes) : result LibraryError AuthenticatedContent :=
  new_member_proposal (mkFramingParameters aad WirePublicMessage) (own_leaf_index self) Proposal.SelfRemove (MGroup.context self) signer.

Definition create_presharedkey_proposal self (framing_parameters : FramingParameters) (psk : PreSharedKeyId)
    (signer : bytes -> option bytes) : result LibraryError AuthenticatedContent :=
  new_member_proposal framing_parameters (own_leaf_index self) (Proposal.PreSharedKey psk) (MGroup.context self) signer.

Definition create_reinit_proposal self (framing_parameters : FramingParameters) (reinit_proposal : ReInitProposal)
    (signer : bytes -> option bytes) : result LibraryError AuthenticatedContent :=
  new_member_proposal framing_parameters (own_leaf_index self) (Proposal.ReInit reinit_proposal) (MGroup.context self) signer.

Definition create_custom_proposal self (framing_parameters : FramingParameters) (custom_proposal : CustomProposal)
    (signer : bytes -> option bytes) : result LibraryError AuthenticatedContent :=
  new_member_proposal framing_parameters (own_leaf_index self) (Proposal.Custom custom_proposal) (MGroup.context self) signer.

Definition create_group_context_ext_proposal self (framing_parameters : FramingParameters) (extensions : Extensions)
    (signer : bytes -> option bytes) : result CreateGroupContextExtProposalError AuthenticatedContent :=
  _ ← match Exts.required_capabilities extensions with
      | Some required_capabilities =>
          own_leaf_node ← ok_or (own_leaf self) (GceLibraryError (CustomError "Tree has no own leaf."));
          _ ← map_err GceLeafNodeValidation
                (Caps.supports_required_capabilities (payload_capabilities (payload own_leaf_node)) required_capabilities);
          map_err GceLeafNodeValidation
            (PGroup.check_extension_support (public_group self) (required_extension_types required_capabilities))
      | None => Ok tt
      end;
  map_err GceLibraryError
    (new_member_proposal framing_parameters (own_leaf_index self) (Proposal.GroupContextExtensions extensions) (MGroup.context self) signer).

(** ** Sending proposals *)
Definition check_operational {E} (state : MlsGroupStateError -> E) : stateful MlsGroup E unit :=
  reading (fun self => map_err state (MGroup.is_operational self)).

(** The framing parameters of the next message. *)
Definition framing_parameters {E} (library : LibraryError -> E) : stateful MlsGroup E FramingParameters :=
  reading (fun self =>
    aad ← map_err library (MGroup.outgoing_authenticated_data self);
    Ok (mkFramingParameters aad (outgoing_wire_format (wf_outgoing (wire_format_policy (mls_group_config self)))))).

(** Queueing the proposal in the store of the group. *)
Definition queue_proposal {E} (library : LibraryError -> E) (proposal : AuthenticatedContent) (ref_or_value : ProposalOrRefType) :
    stateful MlsGroup E bytes :=
  queued_proposal ← reading (fun self => map_err library (from_authenticated_content (MGroup.ciphersuite self) proposal ref_or_value));
  _ ← modifying (fun self => MCommit.set_proposal_store self (Store.add (MGroup.proposal_store self) queued_proposal));
  mret (qp_reference queued_proposal).

(** Queueing, framing and resetting the authenticated data: the end of every call that proposes. *)
Definition queue_and_frame {E} (library : LibraryError -> E) (random_guard : option bytes) (proposal : AuthenticatedContent)
    (ref_or_value : ProposalOrRefType) : stateful MlsGroup E (ProtocolMessage * bytes) :=
  proposal_ref ← queue_proposal library proposal ref_or_value;
  framing ← Kem.with_err library (MGroup.content_to_mls_message random_guard proposal);
  _ ← modifying (fun self => MGroup.set_aad self []);
  mret (framing, proposal_ref).

(** The macro [impl_propose_fun]. *)
Definition propose_impl {E V} (inject : E -> ProposalError) (group_fun : MlsGroup -> FramingParameters -> V -> (bytes -> option bytes) -> result E AuthenticatedContent)
    (ref_or_value : ProposalOrRefType) (random_guard : option bytes) (signer : bytes -> option bytes) (value : V) :
    stateful MlsGroup ProposalError (ProtocolMessage * bytes) :=
  _ ← check_operational ProposalGroupState;
  framing_parameters ← framing_parameters ProposalLibraryError;
  proposal ← reading (fun self => map_err inject (group_fun self framing_parameters value signer));
  queue_and_frame ProposalLibraryError random_guard proposal ref_or_value.

Definition propose_add_member_by_value := propose_impl ProposalCreateAdd create_add_proposal ByValue.
Definition propose_remove_member_by_value := propose_impl ProposalValidation create_remove_proposal ByValue.
Definition propose_pre_shared_key := propose_impl ProposalLibraryError create_presharedkey_proposal ByReference.
Definition propose_pre_shared_key_by_value := propose_impl ProposalLibraryError create_presharedkey_proposal ByValue.
Definition propose_custom_proposal_by_value := propose_impl ProposalLibraryError create_custom_proposal ByValue.
Definition propose_custom_proposal_by_reference := propose_impl ProposalLibraryError create_custom_proposal ByReference.

Definition propose_add_member (random_guard : option bytes) (signer : bytes -> option bytes) (key_package : KeyPackage) :
    stateful MlsGroup ProposeAddMemberError (ProtocolMessage * bytes) :=
  _ ← check_operational AddMemberGroupState;
  framing_parameters ← framing_parameters AddMemberLibraryError;
  add_proposal ← reading (fun self =>
    map_err (fun e => match e with
                      | CreateAddLibraryError e => AddMemberLibraryError e
                      | CreateAddLeafNodeValidation e => AddMemberLeafNodeValidation e
                      end) (create_add_proposal self framing_parameters key_package signer));
  queue_and_frame AddMemberLibraryError random_guard add_proposal ByReference.

Definition propose_remove_member (random_guard : option bytes) (signer : bytes -> option bytes) (member : LeafNodeIndex.t) :
    stateful MlsGroup ProposeRemoveMemberError (ProtocolMessage * bytes) :=
  _ ← check_operational RemoveMemberGroupState;
  framing_parameters ← framing_parameters RemoveMemberLibraryError;
  remove_proposal ← reading (fun self =>
    map_err (fun _ => RemoveUnknownMember) (create_remove_proposal self framing_parameters member signer));
  queue_and_frame RemoveMemberLibraryError random_guard remove_proposal ByReference.

Definition propose_remove_member_by_credential (random_guard : option bytes) (signer : bytes -> option bytes) (member : Credential) :
    stateful MlsGroup ProposeRemoveMemberError (ProtocolMessage * bytes) :=
  member_index ← reading (fun self => Ok (member_leaf_index self member));
  match member_index with
  | Some member_index => propose_remove_member random_guard signer member_index
  | None => lifting (Err RemoveUnknownMember)
  end.

Definition propose_remove_member_by_credential_by_value (random_guard : option bytes) (signer : bytes -> option bytes)
    (member : Credential) : stateful MlsGroup ProposalError (ProtocolMessage * bytes) :=
  member_index ← reading (fun self => Ok (member_leaf_index self member));
  match member_index with
  | Some member_index => propose_remove_member_by_value random_guard signer member_index
  | None => lifting (Err (ProposalRemoveMember RemoveUnknownMember))
  end.

Definition propose_group_context_extensions_impl (random_guard : option bytes) (extensions : Extensions)
    (signer : bytes -> option bytes) (ref_or_value : ProposalOrRefType) : stateful MlsGroup ProposalError (ProtocolMessage * bytes) :=
  _ ← check_operational ProposalGroupState;
  framing_parameters ← framing_parameters ProposalLibraryError;
  proposal ← reading (fun self => map_err ProposalGce (create_group_context_ext_proposal self framing_parameters extensions signer));
  queue_and_frame ProposalLibraryError random_guard proposal ref_or_value.

Definition propose_group_context_extensions (random_guard : option bytes) (extensions : Extensions) (signer : bytes -> option bytes) :
    stateful MlsGroup ProposalError (ProtocolMessage * bytes) :=
  propose_group_context_extensions_impl random_guard extensions signer ByReference.

Definition propose_reinit (random_guard : option bytes) (reinit_proposal : ReInitProposal) (signer : bytes -> option bytes) :
    stateful MlsGroup ProposalError (ProtocolMessage * bytes) :=
  _ ← check_operational ProposalGroupState;
  framing_parameters ← framing_parameters ProposalLibraryError;
  proposal ← reading (fun self => map_err ProposalLibraryError (create_reinit_proposal self framing_parameters reinit_proposal signer));
  queue_and_frame ProposalLibraryError random_guard proposal ByReference.

Definition remove_pending_proposal (proposal_ref : bytes) : stateful MlsGroup RemoveProposalError unit := fun self =>
  let '(removed, store) := Store.remove proposal_ref (MGroup.proposal_store self) in
  (ok_or removed ProposalNotFound, MCommit.set_proposal_store self store).

(** ** Leaving *)
Definition leave_group (random_guard : option bytes) (signer : bytes -> option bytes) : stateful MlsGroup LeaveGroupError ProtocolMessage :=
  _ ← check_operational LeaveGroupState;
  framing_parameters ← framing_parameters LeaveLibraryError;
  remove_proposal ← reading (fun self =>
    map_err (fun _ => LeaveLibraryError (CustomError "Creating a self removal should not fail"))
      (create_remove_proposal self framing_parameters (own_leaf_index self) signer));
  '(message, _) ← queue_and_frame LeaveLibraryError random_guard remove_proposal ByReference;
  mret message.

(** The authenticated data is reset before the message is framed. *)
Definition leave_group_via_self_remove (random_guard : option bytes) (signer : bytes -> option bytes) :
    stateful MlsGroup LeaveGroupError ProtocolMessage :=
  _ ← check_operational LeaveGroupState;
  outgoing ← reading (fun self => Ok (wf_outgoing (wire_format_policy (mls_group_config self))));
  match outgoing with
  | OutgoingCiphertext => lifting (Err CannotSelfRemoveWithPureCiphertext)
  | OutgoingPlaintext =>
      aad ← reading (fun self => map_err LeaveLibraryError (MGroup.outgoing_authenticated_data self));
      self_remove_proposal ← reading (fun self => map_err LeaveLibraryError (create_self_remove_proposal self aad signer));
      _ ← queue_proposal LeaveLibraryError self_remove_proposal ByReference;
      _ ← modifying (fun self => MGroup.set_aad self []);
      Kem.with_err LeaveLibraryError (MGroup.content_to_mls_message random_guard self_remove_proposal)
  end.

(** ** Updates

    The state has the key pairs that were stored. *)
Definition on_group {E A} (m : stateful MlsGroup E A) : stateful (MlsGroup * list (bytes * bytes)) E A := fun '(self, keys) =>
  let '(r, self) := m self in (r, (self, keys)).
Definition on_keys {E A} (m : stateful (list (bytes * bytes)) E A) : stateful (MlsGroup * list (bytes * bytes)) E A := fun '(self, keys) =>
  let '(r, keys) := m keys in (r, (self, keys)).

(** The parameters and the signer of the new leaf. *)
Definition update_parameters self (old_signer : bytes -> option bytes) (new_signer : option NewSignerBundle)
    (leaf_node_parameters : LeafNodeParameters) : result ProposeSelfUpdateError (LeafNodeParameters * (bytes -> option bytes)) :=
  match new_signer with
  | None => Ok (leaf_node_parameters, old_signer)
  | Some new_signer =>
      if negb (bool_decide (Suite.signature_algorithm (MGroup.ciphersuite self) = ns_signature_scheme new_signer))
      then Err SelfUpdateInvalidSignerCiphersuite
      else
        match lp_credential_with_key leaf_node_parameters with
        | Some ln_cred =>
            if negb (bool_decide (ln_cred = ns_credential_with_key new_signer)) then Err SelfUpdateInvalidLeafNodeParameters
            else Ok (leaf_node_parameters, ns_signer new_signer)
        | None => Ok (CBuilder.set_credential_with_key leaf_node_parameters (ns_credential_with_key new_signer), ns_signer new_signer)
        end
  end.

Definition push_own_leaf self (leaf : LeafNode) : MlsGroup :=
  mkMlsGroup (mls_group_config self) (public_group self) (group_epoch_secrets self) (own_leaf_index self) (message_secrets_store self)
    (resumption_psk_store self) (own_leaf_nodes self ++ [leaf]) (aad self) (group_state self).

Definition create_self_update_proposal_internal (leaf_random : result CryptoError Secret) (old_signer : bytes -> option bytes)
    (new_signer : option NewSignerBundle) (leaf_node_parameters : LeafNodeParameters) :
    stateful (MlsGroup * list (bytes * bytes)) ProposeSelfUpdateError AuthenticatedContent :=
  _ ← on_group (check_operational SelfUpdateGroupState);
  self ← on_group (reading Ok);
  leaf ← lifting (ok_or (own_leaf self) (SelfUpdateLibrary (CustomError "The tree is broken. Couldn't find own leaf.")));
  let constraints := PGroup.leaf_node_constraints (public_group self) in
  '(leaf_node_parameters, signer) ← lifting (update_parameters self old_signer new_signer leaf_node_parameters);
  '(leaf, _) ← on_keys (Kem.with_err SelfUpdateLeafNode
    (update leaf (MGroup.ciphersuite self) leaf_random true signer (MGroup.group_id self) (own_leaf_index self) leaf_node_parameters constraints));
  framing_parameters ← on_group (framing_parameters SelfUpdateLibrary);
  update_proposal ← lifting (map_err SelfUpdateLibrary (create_update_proposal self framing_parameters leaf old_signer));
  _ ← on_group (modifying (fun self => push_own_leaf self leaf));
  mret update_proposal.

Definition propose_self_update_internal (random_guard : option bytes) (leaf_random : result CryptoError Secret)
    (old_signer : bytes -> option bytes) (new_signer : option NewSignerBundle) (leaf_node_parameters : LeafNodeParameters) :
    stateful (MlsGroup * list (bytes * bytes)) ProposeSelfUpdateError (ProtocolMessage * bytes) :=
  update_proposal ← create_self_update_proposal_internal leaf_random old_signer new_signer leaf_node_parameters;
  on_group (queue_and_frame SelfUpdateLibrary random_guard update_proposal ByReference).

Definition propose_self_update (random_guard : option bytes) (leaf_random : result CryptoError Secret) (signer : bytes -> option bytes)
    (leaf_node_parameters : LeafNodeParameters) : stateful (MlsGroup * list (bytes * bytes)) ProposeSelfUpdateError (ProtocolMessage * bytes) :=
  propose_self_update_internal random_guard leaf_random signer None leaf_node_parameters.

Definition propose_self_update_with_new_signer (random_guard : option bytes) (leaf_random : result CryptoError Secret)
    (old_signer : bytes -> option bytes) (new_signer : NewSignerBundle) (leaf_node_parameters : LeafNodeParameters) :
    stateful (MlsGroup * list (bytes * bytes)) ProposeSelfUpdateError (ProtocolMessage * bytes) :=
  propose_self_update_internal random_guard leaf_random old_signer (Some new_signer) leaf_node_parameters.

(** ** Proposing by kind *)
Definition propose_dispatch (random_guard : option bytes) (leaf_random : result CryptoError Secret) (signer : bytes -> option bytes)
    (propose : Propose) (ref_or_value : ProposalOrRefType) :
    stateful (MlsGroup * list (bytes * bytes)) ProposalError (ProtocolMessage * bytes) :=
  match propose with
  | ProposeAdd key_package =>
      on_group (match ref_or_value with
                | ByValue => propose_add_member_by_value random_guard signer key_package
                | ByReference => Kem.with_err ProposalAddMember (propose_add_member random_guard signer key_package)
                end)
  | ProposeUpdate leaf_node_parameters =>
      Kem.with_err ProposalSelfUpdate (propose_self_update_internal random_guard leaf_random signer None leaf_node_parameters)
  | ProposeRemove leaf_index =>
      on_group (match ref_or_value with
                | ByValue => propose_remove_member_by_value random_guard signer leaf_index
                | ByReference => Kem.with_err ProposalRemoveMember (propose_remove_member random_guard signer leaf_index)
                end)
  | ProposeRemoveCredential credential =>
      on_group (match ref_or_value with
                | ByValue => propose_remove_member_by_credential_by_value random_guard signer credential
                | ByReference => Kem.with_err ProposalRemoveMember (propose_remove_member_by_credential random_guard signer credential)
                end)
  | ProposePreSharedKey psk_id =>
      match psk psk_id with
      | PskExternal _ =>
          on_group (match ref_or_value with
                    | ByValue => propose_pre_shared_key_by_value random_guard signer psk_id
                    | ByReference => propose_pre_shared_key random_guard signer psk_id
                    end)
      | PskResumption _ _ _ => lifting (Err (ProposalLibraryError (CustomError "Invalid PSk argument")))
      end
  | ProposeGroupContextExtensions extensions =>
      on_group (propose_group_context_extensions_impl random_guard extensions signer ref_or_value)
  | ProposeCustom custom_proposal =>
      on_group (match ref_or_value with
                | ByValue => propose_custom_proposal_by_value random_guard signer custom_proposal
                | ByReference => propose_custom_proposal_by_reference random_guard signer custom_proposal
                end)
  end.

(** ** Commits

    [random] and [leaf_random] are the secrets drawn for the path and the leaf, [values] the
    order in which a hash map is iterated. *)
Record Randomness : Type := mkRandomness {
  rnd_path : result CryptoError Secret;
  rnd_leaf : result CryptoError Secret;
  rnd_guard : option bytes;
  rnd_values : gmap LeafNodeIndex.t QueuedProposal -> list QueuedProposal;
}.

(** Loading PSKs, building and staging the commit of a builder, for all pending proposals. *)
Definition build_and_stage (rnd : Randomness) (clock : Z) (storage : Storage) (signer : bytes -> option bytes)
    (new_signer : option NewSignerBundle) (builder : Initial) : stateful MlsGroup CommitCallError CommitMessageBundle :=
  loaded ← reading (fun self => map_err CallCreateCommit (CBuilder.load_psks builder self storage));
  complete ← reading (fun self => map_err CallCreateCommit
    (match new_signer with
     | None => CBuilder.build loaded self clock (rnd_path rnd) (rnd_leaf rnd) (rnd_values rnd) signer (fun _ => true)
     | Some new_signer =>
         CBuilder.build_with_new_signer loaded self clock (rnd_path rnd) (rnd_leaf rnd) (rnd_values rnd) signer new_signer (fun _ => true)
     end));
  Kem.with_err CallStage (CBuilder.stage_commit complete (rnd_guard rnd)).

Definition reset_aad {E} : stateful MlsGroup E unit := modifying (fun self => MGroup.set_aad self []).

Definition add_members_internal (rnd : Randomness) (clock : Z) (storage : Storage) (signer : bytes -> option bytes)
    (key_packages : list KeyPackage) (force_self_update : bool) :
    stateful MlsGroup CommitCallError (ProtocolMessage * Welcome * option GroupInfo) :=
  _ ← check_operational CallGroupState;
  if bool_decide (length key_packages = 0%nat) then lifting (Err (CallEmptyInput EmptyAddMembers))
  else
    bundle ← build_and_stage rnd clock storage signer None
               (CBuilder.force_self_update (CBuilder.propose_adds CBuilder.default_initial key_packages) force_self_update);
    welcome ← lifting (ok_or (bundle_welcome bundle) (CallLibraryError (CustomError "No secrets to generate commit message.")));
    _ ← reset_aad;
    mret (bundle_commit bundle, welcome, bundle_group_info bundle).

Definition add_members (rnd : Randomness) (clock : Z) (storage : Storage) (signer : bytes -> option bytes) (key_packages : list KeyPackage) :
    stateful MlsGroup CommitCallError (ProtocolMessage * Welcome * option GroupInfo) :=
  add_members_internal rnd clock storage signer key_packages true.

Definition add_members_without_update (rnd : Randomness) (clock : Z) (storage : Storage) (signer : bytes -> option bytes)
    (key_packages : list KeyPackage) : stateful MlsGroup CommitCallError (ProtocolMessage * Welcome * option GroupInfo) :=
  add_members_internal rnd clock storage signer key_packages false.

Definition swap_members (rnd : Randomness) (clock : Z) (storage : Storage) (signer : bytes -> option bytes)
    (members : list LeafNodeIndex.t) (key_packages : list KeyPackage) :
    stateful MlsGroup CommitCallError (ProtocolMessage * Welcome * option GroupInfo) :=
  _ ← check_operational CallGroupState;
  if bool_decide (length members = 0%nat) then lifting (Err (CallEmptyInput EmptyRemoveMembers))
  else if bool_decide (length key_packages = 0%nat) then lifting (Err (CallEmptyInput EmptyAddMembers))
  else if negb (bool_decide (length members = length key_packages)) then lifting (Err CallInvalidInput)
  else
    bundle ← build_and_stage rnd clock storage signer None
               (CBuilder.propose_adds (CBuilder.propose_removals CBuilder.default_initial members) key_packages);
    _ ← reset_aad;
    welcome ← lifting (ok_or (bundle_welcome bundle) (CallLibraryError
      (CustomError "WelcomeCommitMessages must only be used with commits that produce a welcome.")));
    mret (bundle_commit bundle, welcome, bundle_group_info bundle).

Definition remove_members (rnd : Randomness) (clock : Z) (storage : Storage) (signer : bytes -> option bytes)
    (members : list LeafNodeIndex.t) : stateful MlsGroup CommitCallError CommitMessageBundle :=
  _ ← check_operational CallGroupState;
  if bool_decide (length members = 0%nat) then lifting (Err (CallEmptyInput EmptyRemoveMembers))
  else
    bundle ← build_and_stage rnd clock storage signer None (CBuilder.propose_removals CBuilder.default_initial members);
    _ ← reset_aad;
    mret bundle.

Definition self_update (rnd : Randomness) (clock : Z) (storage : Storage) (signer : bytes -> option bytes)
    (leaf_node_parameters : LeafNodeParameters) : stateful MlsGroup CommitCallError CommitMessageBundle :=
  _ ← check_operational CallGroupState;
  bundle ← build_and_stage rnd clock storage signer None
             (CBuilder.consume_proposal_store (CBuilder.leaf_node_parameters CBuilder.default_initial leaf_node_parameters) true);
  _ ← reset_aad;
  mret bundle.

Definition self_update_with_new_signer (rnd : Randomness) (clock : Z) (storage : Storage) (old_signer : bytes -> option bytes)
    (new_signer : NewSignerBundle) (leaf_node_parameters : LeafNodeParameters) : stateful MlsGroup CommitCallError CommitMessageBundle :=
  _ ← check_operational CallGroupState;
  bundle ← build_and_stage rnd clock storage old_signer (Some new_signer)
             (CBuilder.consume_proposal_store (CBuilder.leaf_node_parameters CBuilder.default_initial leaf_node_parameters) true);
  _ ← reset_aad;
  mret bundle.

Definition update_group_context_extensions (rnd : Randomness) (clock : Z) (storage : Storage) (signer : bytes -> option bytes)
    (extensions : Extensions) : stateful MlsGroup CommitCallError CommitMessageBundle :=
  _ ← check_operational CallGroupState;
  build_and_stage rnd clock storage signer None (CBuilder.propose_group_context_extensions CBuilder.default_initial extensions).

Definition commit_to_pending_proposals (rnd : Randomness) (clock : Z) (storage : Storage) (signer : bytes -> option bytes) :
    stateful MlsGroup CommitCallError CommitMessageBundle :=
  _ ← check_operational CallGroupState;
  build_and_stage rnd clock storage signer None (CBuilder.consume_proposal_store CBuilder.default_initial true).
End MPropose.
End MPropose.

(** ** Classifying removals *)
Inductive RemoveOperation : Type :=
  | WeLeft | WeWereRemovedBy (sender : Sender.t) | TheyLeft (leaf_index : LeafNodeIndex.t)
  | TheyWereRemovedBy (leaf_index : LeafNodeIndex.t) (sender : Sender.t) | WeRemovedThem (leaf_index : LeafNodeIndex.t).

(** [RemoveOperation::new], for the sender and the removed leaf of a queued proposal. *)
Definition remove_operation_new (sender : Sender.t) (removed : LeafNodeIndex.t) (group : MlsGroup) : RemoveOperation :=
  let own_index := own_leaf_index group in
  let removal := if bool_decide (removed = own_index) then WeWereRemovedBy sender else TheyWereRemovedBy removed sender in
  match sender with
  | Sender.Member leaf_index =>
      if bool_decide (leaf_index = own_index) then
        if bool_decide (removed = own_index) then WeLeft else WeRemovedThem removed
      else if bool_decide (removed = leaf_index) then TheyLeft removed
      else removal
  | _ => removal
  end.
