(* ===== verification/DeliveryService.v ===== *)
(** * The delivery service

    delivery-service/ds/src/main.rs and delivery-service/ds-lib/src: a server that keeps the
    key packages of clients and queues messages for them. Every handler holds the lock of the
    clients while it works, so requests take effect one after the other; a request is a
    function on the state. [DsWire] stands for the base64 decoding of paths and the vectors
    with a length of fixed width (tls_codec). *)
From S2P Require Import Prelude TreeMath BinaryTree Crypto SenderRatchet SecretTree PastSecrets Extensions TreeSync LeafNode TreeKem Proposals KeySchedule Framing PrivateMessages Welcome Decoding ProposalStore PublicGroup StagedCommit MessageValidation.

Class DsWire : Type := {
  url_safe_decode : bytes -> option bytes;
  tls_read_vec_u32 {A : Type} : (bytes -> option (A * bytes)) -> bytes -> option (list A * bytes);
}.

(** ** Clients *)
Definition MlsMessageIn : Type := ProtocolVersion.t * MlsMessageBodyIn.
Definition ClientKeyPackages : Type := list (bytes * KeyPackage).

Record ClientInfo : Type := mkClientInfo {
  ci_id : bytes;
  ci_key_packages : ClientKeyPackages;
  ci_reserved_key_pkg_hash : gset bytes;
  ci_msgs : list MlsMessageIn;
  ci_welcome_queue : list MlsMessageIn;
  ci_auth_token : bytes;
}.

Module Client.
Implicit Types self : ClientInfo.

(** The identity of the first key package; [None] is the panic of the indexing. *)
Definition new (auth_token : bytes) (key_packages : ClientKeyPackages) : option ClientInfo :=
  key_package ← key_packages !! 0%nat;
  Some (mkClientInfo (serialized_credential_content (payload_credential (payload (key_package_leaf key_package.2))))
          key_packages ∅ [] [] auth_token).

Definition set_key_packages self (key_packages : ClientKeyPackages) : ClientInfo :=
  mkClientInfo (ci_id self) key_packages (ci_reserved_key_pkg_hash self) (ci_msgs self) (ci_welcome_queue self) (ci_auth_token self).
Definition set_reserved self (reserved : gset bytes) : ClientInfo :=
  mkClientInfo (ci_id self) (ci_key_packages self) reserved (ci_msgs self) (ci_welcome_queue self) (ci_auth_token self).
Definition set_queues self (welcome_queue msgs : list MlsMessageIn) : ClientInfo :=
  mkClientInfo (ci_id self) (ci_key_packages self) (ci_reserved_key_pkg_hash self) msgs welcome_queue (ci_auth_token self).

(** One key package is always kept. *)
Definition consume_kp self : option KeyPackage * ClientInfo :=
  if bool_decide (length (ci_key_packages self) <= 1)%nat then (None, self)
  else match last (ci_key_packages self) with
       | Some c =>
           (Some c.2, set_reserved (set_key_packages self (take (length (ci_key_packages self) - 1) (ci_key_packages self)))
                        ({[c.1]} ∪ ci_reserved_key_pkg_hash self))
       | None => (None, self)
       end.
End Client.

(** ** Requests and their encodings *)
Record GroupMessage : Type := mkGroupMessage {
  gm_msg : MlsMessageIn;
  gm_recipients : list bytes;
}.

Record PublishKeyPackagesRequest : Type := mkPublishKeyPackagesRequest {
  pk_key_packages : ClientKeyPackages;
  pk_auth_token : bytes;
}.

Section Codec.
Context {TC : TlsCodec} {VC : TlsVecCodec} {DW : DsWire}.

(** [TlsByteVecU8] and [TlsByteVecU32]. *)
Definition tls_read_byte_vec (n : nat) (b : bytes) : option (bytes * bytes) :=
  '(len, b) ← read_be n b; read_bytes (Z.to_nat len) b.
Definition tls_byte_vec (n : nat) (b : bytes) : option bytes :=
  if bool_decide (Z.of_nat (length b) < 256 ^ Z.of_nat n) then Some (be_bytes n (Z.of_nat (length b)) ++ b) else None.

(** [TlsVecU32] and [TlsSliceU16]. *)
Definition tls_vec_fixed {A} (n : nat) (encode : A -> option bytes) (l : list A) : option bytes :=
  elements ← mapM encode l; tls_byte_vec n (mjoin elements).

Definition read_client_key_packages (b : bytes) : option (ClientKeyPackages * bytes) :=
  tls_read_vec_u32 (fun b => '(hash, b) ← tls_read_byte_vec 1 b; '(key_package, b) ← read_key_package b; Some ((hash, key_package), b)) b.
Definition tls_client_key_packages : ClientKeyPackages -> option bytes :=
  tls_vec_fixed 4 (fun p => tls_struct [tls_byte_vec 1 p.1; tls_key_package p.2]).

Definition read_publish_request (b : bytes) : option (PublishKeyPackagesRequest * bytes) :=
  '(key_packages, b) ← read_client_key_packages b;
  '(auth_token, b) ← tls_read_vlbytes b;
  Some (mkPublishKeyPackagesRequest key_packages auth_token, b).

(** [GroupMessage::tls_deserialize]. *)
Definition read_group_message (b : bytes) : option (GroupMessage * bytes) :=
  '(version, body, b) ← read_mls_message b;
  '(recipients, b) ← tls_read_vec_u32 (tls_read_byte_vec 4) b;
  Some (mkGroupMessage (version, body) recipients, b).

(** [MlsMessageIn::tls_serialize]. *)
Definition tls_message_in (message : MlsMessageIn) : option bytes :=
  let '(version, body) := message in
  tls_struct [ProtocolVersion.tls_serialize version;
    match body with
    | InPublicMessage m => tls_struct [Some (be_bytes 2 1); tls_public_message m]
    | InPrivateMessage m => tls_struct [Some (be_bytes 2 2); tls_private_message m]
    | InWelcome w => tls_struct [Some (be_bytes 2 3); tls_welcome w]
    | InVerifiableGroupInfo g => tls_struct [Some (be_bytes 2 4); tls_group_info_tbs (vgi_payload g); tls_vlbytes (vgi_signature g)]
    | InKeyPackageMessage k => tls_struct [Some (be_bytes 2 5); tls_key_package k]
    end].
End Codec.

(** ** Responses *)
Inductive StatusCode : Type :=
  | StatusOk | BadRequest | Unauthorized | NotFound | Conflict | NoContent | InternalServerError | NetworkAuthenticationRequired.

(** What the body of a response encodes. *)
Inductive Payload : Type :=
  | AuthTokenBody (token : bytes) | ClientsBody (ids : list bytes) | KeyPackagesBody (key_packages : ClientKeyPackages)
  | KeyPackageBody (key_package : KeyPackage) | MessagesBody (messages : list MlsMessageIn).

Inductive Response : Type := Status (status : StatusCode) | Body (payload : Payload).

(** ** The service *)
Record DsData : Type := mkDsData {
  ds_clients : gmap bytes ClientInfo;
  ds_groups : gmap bytes Z;
}.

Module DS.
Section DS.
Context {TC : TlsCodec} {VC : TlsVecCodec} {DW : DsWire}.

Definition default : DsData := mkDsData ∅ ∅.
Definition set_clients (data : DsData) (clients : gmap bytes ClientInfo) : DsData := mkDsData clients (ds_groups data).
Definition set_client (data : DsData) (id : bytes) (client : ClientInfo) : DsData := set_clients data (<[id := client]> (ds_clients data)).

Definition encode (payload : Payload) : option bytes :=
  match payload with
  | AuthTokenBody token => tls_vlbytes token
  | ClientsBody ids => tls_vec_fixed 4 tls_vlbytes ids
  | KeyPackagesBody key_packages => tls_client_key_packages key_packages
  | KeyPackageBody key_package => tls_key_package key_package
  | MessagesBody messages => tls_vec_fixed 2 tls_message_in messages
  end.

(** The response with the encoding of a payload. *)
Definition respond (payload : Payload) : Response :=
  match encode payload with Some _ => Body payload | None => Status InternalServerError end.

(** Handlers end early with a response ([Err]) or at their end ([Ok]). *)
Definition Handler : Type := stateful DsData Response Response.
Definition abort {A} (status : StatusCode) : stateful DsData Response A := lifting (Err (Status status)).
Definition or_abort {A} (status : StatusCode) (o : option A) : stateful DsData Response A := lifting (ok_or o (Status status)).

Definition register_client (random_token : bytes) (body : bytes) : Handler :=
  '(key_packages, _) ← or_abort BadRequest (read_client_key_packages body);
  if bool_decide (key_packages = []) then abort BadRequest
  else
    new_client_info ← lifting (returns (Client.new random_token key_packages));
    let response := AuthTokenBody (ci_auth_token new_client_info) in
    known ← reading (fun data => Ok (bool_decide (is_Some (ds_clients data !! ci_id new_client_info))));
    if (known : bool) then abort Conflict
    else
      _ ← modifying (fun data => set_client data (ci_id new_client_info) new_client_info);
      _ ← lifting (returns (encode response));
      mret (Body response).

(** [order] is the order in which the map of clients is iterated. *)
Definition list_clients (order : gmap bytes ClientInfo -> list bytes) : Handler :=
  clients ← reading (fun data => Ok (omap (fun id => ds_clients data !! id) (order (ds_clients data))));
  mret (respond (ClientsBody (ci_id <$> clients))).

Definition RESET_KEY : bytes := [112; 111; 99; 45; 114; 101; 115; 101; 116; 45; 112; 97; 115; 115; 119; 111; 114; 100].

Definition reset (reset_key : option bytes) : Handler :=
  if match reset_key with Some key => negb (bool_decide (key = RESET_KEY)) | None => false end
  then abort NetworkAuthenticationRequired
  else
    _ ← modifying (fun _ => default);
    mret (Status StatusOk).

Definition get_key_packages (path : bytes) : Handler :=
  id ← or_abort BadRequest (url_safe_decode path);
  client ← reading (fun data => ok_or (ds_clients data !! id) (Status NoContent));
  mret (respond (KeyPackagesBody (ci_key_packages client))).

Definition publish_key_packages (path body : bytes) : Handler :=
  id ← or_abort BadRequest (url_safe_decode path);
  client ← reading (fun data => ok_or (ds_clients data !! id) (Status NotFound));
  '(req, _) ← or_abort BadRequest (read_publish_request body);
  if negb (bool_decide (ci_auth_token client = pk_auth_token req)) then abort Unauthorized
  else
    client ← reading (fun data => ok_or (ds_clients data !! id) (Status NotFound));
    _ ← modifying (fun data => set_client data id (Client.set_key_packages client (ci_key_packages client ++ pk_key_packages req)));
    mret (Status StatusOk).

Definition consume_key_package (path : bytes) : Handler :=
  id ← or_abort BadRequest (url_safe_decode path);
  client ← reading (fun data => ok_or (ds_clients data !! id) (Status NoContent));
  let '(key_package, client) := Client.consume_kp client in
  _ ← modifying (fun data => set_client data id client);
  key_package ← or_abort NoContent key_package;
  mret (respond (KeyPackageBody key_package)).

(** The first client, in the order of iteration, that has the hash reserved. *)
Definition find_reserved (data : DsData) (order : list bytes) (key_package_hash : bytes) : option (bytes * ClientInfo) :=
  head (omap (fun id => client ← ds_clients data !! id;
                        if bool_decide (key_package_hash ∈ ci_reserved_key_pkg_hash client) then Some (id, client) else None) order).

Fixpoint store_welcome (order : gmap bytes ClientInfo -> list bytes) (welcome_msg : MlsMessageIn) (secrets : list EncryptedGroupSecrets) : Handler :=
  match secrets with
  | [] => mret (Status NoContent)
  | secret :: secrets =>
      let key_package_hash := egs_new_member secret in
      found ← reading (fun data => Ok (find_reserved data (order (ds_clients data)) key_package_hash));
      match found with
      | Some (id, client) =>
          let client := Client.set_reserved client (ci_reserved_key_pkg_hash client ∖ {[key_package_hash]}) in
          _ ← modifying (fun data => set_client data id
                (Client.set_queues client (ci_welcome_queue client ++ [welcome_msg]) (ci_msgs client)));
          mret (Status StatusOk)
      | None => store_welcome order welcome_msg secrets
      end
  end.

Definition send_welcome (order : gmap bytes ClientInfo -> list bytes) (body : bytes) : Handler :=
  '(version, message_body, _) ← or_abort InternalServerError (read_mls_message body);
  welcome ← lifting (returns (match message_body with InWelcome w => Some w | _ => None end));
  store_welcome order (version, message_body) (welcome_secrets welcome).

(** [TryFrom<MlsMessageIn> for ProtocolMessage]. *)
Definition protocol_message (message : MlsMessageIn) : option ProtocolMessage :=
  match message.2 with
  | InPublicMessage m => Some (PublicProtocolMessage m)
  | InPrivateMessage m => Some (PrivateProtocolMessage m)
  | _ => None
  end.

(** The loop over the recipients, which ends at the first unknown one. *)
Fixpoint deliver (msg : MlsMessageIn) (recipients : list bytes) : Handler :=
  match recipients with
  | [] => mret (Status StatusOk)
  | recipient :: recipients =>
      client ← reading (fun data => ok_or (ds_clients data !! recipient) (Status NotFound));
      _ ← modifying (fun data => set_client data recipient (Client.set_queues client (ci_welcome_queue client) (ci_msgs client ++ [msg])));
      deliver msg recipients
  end.

(** The check of the epoch of a handshake message. *)
Definition check_epoch (protocol_msg : ProtocolMessage) : stateful DsData Response unit :=
  if PMsg.is_handshake_message protocol_msg then
    let epoch := PMsg.epoch protocol_msg in
    let group_id := PMsg.group_id protocol_msg in
    known ← reading (fun data => Ok (ds_groups data !! group_id));
    if match known with Some group_epoch => group_epoch >? epoch | None => false end then abort Conflict
    else modifying (fun data => mkDsData (ds_clients data) (<[group_id := epoch]> (ds_groups data)))
  else mret tt.

Definition msg_send (body : bytes) : Handler :=
  '(group_msg, _) ← or_abort InternalServerError (read_group_message body);
  protocol_msg ← lifting (returns (protocol_message (gm_msg group_msg)));
  _ ← check_epoch protocol_msg;
  deliver (gm_msg group_msg) (gm_recipients group_msg).

Definition msg_recv (path body : bytes) : Handler :=
  id ← or_abort BadRequest (url_safe_decode path);
  client ← reading (fun data => ok_or (ds_clients data !! id) (Status NotFound));
  '(auth_token, _) ← or_abort BadRequest (tls_read_vlbytes body);
  if negb (bool_decide (auth_token = ci_auth_token client)) then abort Unauthorized
  else
    let out := ci_welcome_queue client ++ ci_msgs client in
    _ ← modifying (fun data => set_client data id (Client.set_queues client [] []));
    mret (respond (MessagesBody out)).

(** ** Routes *)
Inductive Request : Type :=
  | PostRegister (random_token body : bytes) | GetClients (order : gmap bytes ClientInfo -> list bytes) | GetReset (reset_key : option bytes)
  | GetKeyPackages (path : bytes) | PostKeyPackages (path body : bytes) | GetKeyPackage (path : bytes)
  | PostWelcome (order : gmap bytes ClientInfo -> list bytes) (body : bytes) | PostMessage (body : bytes) | GetMessages (path body : bytes).

Definition route (request : Request) : Handler :=
  match request with
  | PostRegister random_token body => register_client random_token body
  | GetClients order => list_clients order
  | GetReset reset_key => reset reset_key
  | GetKeyPackages path => get_key_packages path
  | PostKeyPackages path body => publish_key_packages path body
  | GetKeyPackage path => consume_key_package path
  | PostWelcome order body => send_welcome order body
  | PostMessage body => msg_send body
  | GetMessages path body => msg_recv path body
  end.

(** The response of a request, [None] when the handler panics, and the state after it. *)
Definition handle (data : DsData) (request : Request) : option Response * DsData :=
  match route request data with
  | (Ok response, data) | (Err response, data) => (Some response, data)
  | (Panic, data) => (None, data)
  end.
End DS.
End DS.
