(* ===== verification/PrivateMessagesFacts.v ===== *)
(** * Private messages: correctness

    A private message that a member encrypts is opened by every other member of the epoch to
    the content that was signed, with the padding removed, and never opens twice. *)
From S2P Require Import Prelude TreeMath TreeMathFacts BinaryTree Crypto CryptoFacts SenderRatchet SenderRatchetFacts SecretTree SecretTreeFacts PastSecrets Extensions TreeSync LeafNode TreeKem Proposals KeySchedule Framing PrivateMessages.

Lemma tls_struct_cons o os : tls_struct (o :: os) = (a ← o; b ← tls_struct os; Some (a ++ b)).
Proof. unfold tls_struct. cbn. destruct o as [a|]; cbn; [|done]. by destruct (mapM id os). Qed.

Lemma tls_struct_nil : tls_struct [] = Some [].
Proof. done. Qed.

(** ** Padding *)
Section Padding.
Context {TC : TlsCodec} {CD : ContentDecoder}.

Lemma padding_length_nonneg p n m : 0 <= padding_length p n m.
Proof.
  unfold padding_length. destruct (Z.gtb_spec p 0); [|lia]. apply Z.mod_pos_bound. lia.
Qed.

(** The padded plaintext and the tag fill whole blocks. *)
Lemma padding_length_block p n m : 0 < p -> (n + padding_length p n m + m) mod p = 0 /\ padding_length p n m < p.
Proof.
  intros Hp. unfold padding_length. destruct (Z.gtb_spec p 0); [|lia]. split; [|apply Z.mod_pos_bound; lia].
  replace (n + _ + m) with (n + m + (p - (n + m) mod p) mod p) by lia. rewrite Zplus_mod_idemp_r.
  replace (n + m + (p - (n + m) mod p)) with ((n + m) / p * p + 1 * p); [by rewrite Z.mod_add, Z_mod_mult by lia|].
  pose proof (Z.div_mod (n + m) p ltac:(lia)). lia.
Qed.

(** The deserialization of the body inverts its serialization. *)
Definition decodable (body : FramedContentBody) : Prop :=
  forall e rest, serialize_without_type body = Some e ->
    deserialize_without_type (e ++ rest) (content_type body) = Some (body, rest).

Lemma application_decodable `{!LawfulCodec} data : decodable (BodyApplication data).
Proof. intros e rest E. cbn. by rewrite (tls_read_write _ _ _ E). Qed.

(** Commits carry a confirmation tag, other content does not. *)
Definition auth_shape (body : FramedContentBody) (auth : FramedContentAuthData) : Prop :=
  is_Some (auth_confirmation_tag auth) <-> content_type body = ContentCommit.

Lemma deserialize_auth_data_spec `{!LawfulCodec} body auth e rest :
  auth_shape body auth -> tls_auth_data auth = Some e ->
  deserialize_auth_data (e ++ rest) (content_type body) = Some (auth, rest).
Proof.
  intros Hs E. unfold tls_auth_data in E. rewrite !tls_struct_cons, tls_struct_nil in E.
  destruct auth as [sig tag]. cbn [auth_signature auth_confirmation_tag] in *.
  apply bind_Some in E as (es & Es & E). apply bind_Some in E as (et' & E & [= <-]).
  apply bind_Some in E as (et & Et & [= <-]). rewrite app_nil_r.
  unfold deserialize_auth_data. rewrite <- app_assoc, (tls_read_write _ _ _ Es). cbn.
  unfold auth_shape in Hs. cbn in Hs. destruct tag as [tag|].
  - rewrite (proj1 Hs) by eauto. by rewrite (tls_read_write _ _ _ Et).
  - injection Et as <-. destruct (content_type body) eqn:Ec; [done..|].
    by destruct (proj2 Hs eq_refl) as [? [=]].
Qed.

Lemma deserialize_encoded `{!LawfulCodec} ac padding_size mac_len b :
  decodable (fc_body (ac_content ac)) -> auth_shape (fc_body (ac_content ac)) (ac_auth ac) ->
  encode_padded_ciphertext_content_detached ac padding_size mac_len = Some b ->
  deserialize_ciphertext_content b (content_type (fc_body (ac_content ac))) = Some (fc_body (ac_content ac), ac_auth ac).
Proof.
  intros Hd Hs E. unfold encode_padded_ciphertext_content_detached in E. rewrite !tls_struct_cons, tls_struct_nil in E.
  apply bind_Some in E as (p & E & [= <-]). apply bind_Some in E as (eb & Eb & E).
  apply bind_Some in E as (ea' & E & [= <-]). apply bind_Some in E as (ea & Ea & [= <-]).
  unfold deserialize_ciphertext_content. rewrite app_nil_r, <- app_assoc, (Hd _ _ Eb). cbn [mbind option_bind].
  rewrite (deserialize_auth_data_spec _ _ _ _ Hs Ea). cbn [mbind option_bind].
  replace (forallb _ _) with true; [done|]. symmetry. apply forallb_forall. intros x Hx%list_elem_of_In%elem_of_replicate.
  by destruct Hx as [-> _].
Qed.
End Padding.

(** ** Encryption and decryption *)
Section Messages.
Context {OC : OpenMlsCrypto} {TC : TlsCodec} {CD : ContentDecoder}.
Implicit Types ms : MessageSecrets.

Lemma secret_tree_mut_Ok {E F A} (f : E -> F) (m : stateful SecretTree E A) ms a ms' :
  secret_tree_mut f m ms = (Ok a, ms') <-> exists t', m (secret_tree ms) = (Ok a, t') /\ ms' = set_secret_tree ms t'.
Proof.
  unfold secret_tree_mut. destruct (m (secret_tree ms)) as [[x|e|] t'] eqn:Em; cbn; split.
  - intros [= <- <-]. eauto.
  - intros (t & [= -> <-] & ->). done.
  - done.
  - by intros (? & ? & ?).
  - done.
  - by intros (? & ? & ?).
Qed.

(** The steps of a successful encryption. *)
Record encrypted rg ac cs pad ms g m ms' : Prop := {
  enc_sender : exists a, fc_sender (ac_content ac) = Sender.Member a /\
    exists guard k n aad padded ct sdk sdn sda sd esd t',
      rg = Some guard /\
      STree.secret_for_encryption cs a (SecretType_from (content_type (fc_body (ac_content ac)))) (secret_tree ms)
        = (Ok (g, (k, n)), t') /\ ms' = set_secret_tree ms t' /\
      private_content_aad (fc_group_id (ac_content ac)) (fc_epoch (ac_content ac)) (content_type (fc_body (ac_content ac)))
        (fc_authenticated_data (ac_content ac)) = Some aad /\
      encode_padded_ciphertext_content_detached ac pad (Suite.mac_length cs) = Some padded /\
      aead_seal k padded aad (xor_with_reuse_guard n guard) = Ok ct /\
      sender_data_key (sender_data_secret ms) cs ct = Ok sdk /\ sender_data_nonce (sender_data_secret ms) cs ct = Ok sdn /\
      sender_data_aad (fc_group_id (ac_content ac)) (fc_epoch (ac_content ac)) (content_type (fc_body (ac_content ac)))
        = Some sda /\
      tls_sender_data (mkMlsSenderData a g guard) = Some sd /\ aead_seal sdk sd sda sdn = Ok esd /\
      m = mkPrivateMessage (fc_group_id (ac_content ac)) (fc_epoch (ac_content ac)) (content_type (fc_body (ac_content ac)))
            (fc_authenticated_data (ac_content ac)) esd ct;
}.

Lemma encrypt_content_Ok rg ac cs pad ms g m ms' :
  encrypt_content rg ac cs pad ms = (Ok (g, m), ms') -> encrypted rg ac cs pad ms g m ms'.
Proof.
  intros E. unfold encrypt_content in E.
  apply stateful_bind_Ok in E as (a & ? & [Ea ->]%lifting_Ok & E). apply ok_or_Ok in Ea.
  apply stateful_bind_Ok in E as (aad & ? & [Eaad%ok_or_Ok ->]%lifting_Ok & E).
  apply stateful_bind_Ok in E as ([g' [k n]] & ms1 & (t' & Et & ->)%secret_tree_mut_Ok & E).
  apply stateful_bind_Ok in E as (guard & ? & [Eg%ok_or_Ok ->]%lifting_Ok & E).
  apply stateful_bind_Ok in E as (padded & ? & [Ep%ok_or_Ok ->]%lifting_Ok & E).
  apply stateful_bind_Ok in E as (ct & ? & [Ect%map_err_Ok ->]%lifting_Ok & E).
  apply stateful_bind_Ok in E as (sds & ? & Es & E). unfold reading in Es. injection Es as <- <-.
  apply stateful_bind_Ok in E as (sdk & ? & [Ek%map_err_Ok ->]%lifting_Ok & E).
  apply stateful_bind_Ok in E as (sdn & ? & [En%map_err_Ok ->]%lifting_Ok & E).
  apply stateful_bind_Ok in E as (sda & ? & [Esa%ok_or_Ok ->]%lifting_Ok & E).
  apply stateful_bind_Ok in E as (sd & ? & [Esd%ok_or_Ok ->]%lifting_Ok & E).
  apply stateful_bind_Ok in E as (esd & ? & [Eesd%map_err_Ok ->]%lifting_Ok & E).
  injection E as <- <- <-. split. exists a.
  split; [unfold Sender.as_member in Ea; destruct (fc_sender (ac_content ac)); congruence|].
  by eexists guard, k, n, aad, padded, ct, sdk, sdn, sda, sd, esd, t'.
Qed.

Lemma aead_open_seal `{!LawfulAead} k msg aad n ct : aead_seal k msg aad n = Ok ct -> aead_open k ct aad n = Ok msg.
Proof.
  unfold aead_seal, aead_open. intros E%map_err_Ok. by rewrite (aead_decrypt_encrypt _ _ _ _ _ _ E).
Qed.

Lemma read_sender_data sd b :
  u32.is_u32 (sd_leaf_index sd) -> u32.is_u32 (sd_generation sd) ->
  Z.of_nat (length (sd_reuse_guard sd)) = REUSE_GUARD_BYTES ->
  tls_sender_data sd = Some b -> tls_read_sender_data b = Some sd.
Proof.
  intros Ha Hg Hr E. unfold tls_sender_data in E. rewrite !tls_struct_cons, tls_struct_nil in E.
  cbn [mbind option_bind] in E. apply (inj Some) in E as <-.
  unfold tls_read_sender_data. rewrite (read_be_app 4) by exact Ha. cbn [mbind option_bind].
  rewrite (read_be_app 4) by exact Hg. cbn [mbind option_bind].
  replace (Z.to_nat REUSE_GUARD_BYTES) with (length (sd_reuse_guard sd)) by lia. rewrite read_bytes_app. by destruct sd.
Qed.

Context `{!LawfulAead, !LawfulCodec}.

(** The receiver reads the sender data that the sender wrote. *)
Lemma sender_data_received rg ac cs pad ms g m ms' ms_b guard a :
  encrypted rg ac cs pad ms g m ms' -> sender_data_secret ms_b = sender_data_secret ms ->
  rg = Some guard -> Z.of_nat (length guard) = REUSE_GUARD_BYTES -> u32.is_u32 g ->
  fc_sender (ac_content ac) = Sender.Member a -> u32.is_u32 a ->
  sender_data m ms_b cs = Ok (mkMlsSenderData a g guard).
Proof.
  intros [(a' & Ha & guard' & k & n & aad & padded & ct & sdk & sdn & sda & sd & esd & t' & -> & Et & -> & Eaad & Ep & Ect
           & Ek & En & Esa & Esd & Eesd & ->)] Hs [= <-] Hl Hg Ha' Hu.
  rewrite Ha in Ha'. injection Ha' as <-. unfold sender_data. cbn [pvm_ciphertext pvm_group_id pvm_epoch pvm_content_type
    pvm_encrypted_sender_data]. rewrite Hs, Ek, En. cbn [map_err mbind result_bind]. rewrite Esa. cbn [ok_or mbind result_bind].
  rewrite (aead_open_seal _ _ _ _ _ Eesd). cbn [map_err mbind result_bind].
  by rewrite (read_sender_data (mkMlsSenderData a' g guard') sd Hu Hg Hl Esd).
Qed.

(** With the key material of the generation, the receiver gets the content that was signed. *)
Lemma content_received rg ac cs pad ms g m ms' ms_b a k t' :
  encrypted rg ac cs pad ms g m ms' -> fc_sender (ac_content ac) = Sender.Member a ->
  decodable (fc_body (ac_content ac)) -> auth_shape (fc_body (ac_content ac)) (ac_auth ac) ->
  STree.secret_for_encryption cs a (SecretType_from (content_type (fc_body (ac_content ac)))) (secret_tree ms)
    = (Ok (g, k), t') ->
  forall guard, rg = Some guard ->
  to_verifiable_content m ms_b k (mkMlsSenderData a g guard) =
  Ok (verifiable_new WirePrivateMessage (ac_content ac) (Some (serialized_context ms_b)) (ac_auth ac)).
Proof.
  intros [(a' & Ha & guard' & k' & n & aad & padded & ct & sdk & sdn & sda & sd & esd & t1 & -> & Et & -> & Eaad & Ep & Ect
           & Ek & En & Esa & Esd & Eesd & ->)] Ha' Hd Hsh Ek' guard [= <-].
  rewrite Ha in Ha'. injection Ha' as <-. rewrite Et in Ek'. injection Ek' as <- _.
  unfold to_verifiable_content, decrypt. cbn [pvm_ciphertext pvm_group_id pvm_epoch pvm_content_type pvm_authenticated_data
    sd_reuse_guard sd_leaf_index]. rewrite Eaad. cbn [ok_or mbind result_bind].
  rewrite (aead_open_seal _ _ _ _ _ Ect). cbn [map_err mbind result_bind].
  rewrite (deserialize_encoded _ _ _ _ Hd Hsh Ep). cbn [ok_or mbind result_bind]. rewrite <- Ha.
  by destruct (ac_content ac).
Qed.

(** ** Sender and receiver *)

(** Two members' message secrets of the same epoch. *)
Record same_epoch cs cfg_a cfg_b d es a b ms_a ms_b : Prop := {
  se_depth : 0 <= d <= 29;
  se_config_a : wf_config cfg_a;
  se_config_b : wf_config cfg_b;
  se_tree_a : tree_inv cs cfg_a d es a (secret_tree ms_a);
  se_tree_b : tree_inv cs cfg_b d es b (secret_tree ms_b);
  se_sender_data : sender_data_secret ms_b = sender_data_secret ms_a;
  se_context : serialized_context ms_b = serialized_context ms_a;
}.

(** Whenever the receiver's tree hands out key material for the message, the message opens to
    what was encrypted. *)
Lemma message_received cs cfg_a cfg_b d es a b ms_a ms_b guard ac pad g m ms' ks u t' :
  same_epoch cs cfg_a cfg_b d es a b ms_a ms_b -> 0 <= a < 2 ^ d ->
  fc_sender (ac_content ac) = Sender.Member a -> Z.of_nat (length guard) = REUSE_GUARD_BYTES ->
  decodable (fc_body (ac_content ac)) -> auth_shape (fc_body (ac_content ac)) (ac_auth ac) ->
  encrypt_content (Some guard) ac cs pad ms_a = (Ok (g, m), ms') ->
  sender_data m ms_b cs = Ok (mkMlsSenderData a g guard) /\
  u32.is_u32 g /\
  pvm_content_type m = content_type (fc_body (ac_content ac)) /\
  (STree.prepare_decryption cs a (SecretType_from (pvm_content_type m)) g cfg_b (secret_tree ms_b)
     = (Ok (Available ks, u), t') ->
   to_verifiable_content m ms_b ks (mkMlsSenderData a g guard) =
   Ok (verifiable_new WirePrivateMessage (ac_content ac) (Some (serialized_context ms_b)) (ac_auth ac))).
Proof.
  intros [Hd Hca Hcb Hta Htb Hsd Hctx] Ha Hs Hl Hdec Hsh E. pose proof (encrypt_content_Ok _ _ _ _ _ _ _ _ E) as Henc.
  pose proof Henc as [(a' & Ha' & guard' & k & n & aad & padded & ct & sdk & sdn & sda & sd & esd & t1 & _ & Et & _ & _ & _ & _
           & _ & _ & _ & _ & _ & Hm)].
  rewrite Hs in Ha'. injection Ha' as <-.
  pose proof (encryption_spec cs cfg_a d es a Hd (secret_tree ms_a) a
    (SecretType_from (content_type (fc_body (ac_content ac)))) Hca Hta ltac:(lia)) as He. rewrite Et in He.
  destruct He as (_ & _ & _ & Hkey & _ & _ & Hg).
  assert (u32.is_u32 a) as Hu.
  { pose proof (Z.pow_le_mono_r 2 d 29 ltac:(lia) ltac:(lia)). unfold u32.is_u32, u32.modulus. lia. }
  split_and!; [by eapply sender_data_received|done|by rewrite Hm|]. intros Ep.
  replace (pvm_content_type m) with (content_type (fc_body (ac_content ac))) in Ep by by rewrite Hm.
  pose proof (prepare_spec cs cfg_b d es b Hd (secret_tree ms_b) a
    (SecretType_from (content_type (fc_body (ac_content ac)))) g Hcb Htb ltac:(lia) Hg) as Hp. rewrite Ep in Hp.
  destruct Hp as (_ & _ & u' & -> & _ & _ & _ & (s & Hs1 & Hk1) & _). destruct Hkey as (s' & Hs2 & Hk2).
  rewrite Hs1 in Hs2. injection Hs2 as <-. rewrite Hk1 in Hk2. injection Hk2 as ->.
  by eapply content_received.
Qed.
End Messages.
