(* ===== verification/DecodingFacts.v ===== *)
(** * Deserialization: theorems

    Decoders invert the encoders on all values whose integers fit their width: extensions,
    leaf nodes, ratchet trees, key packages, proposals, commits, group infos, Welcomes and
    whole messages. *)
From S2P Require Import Prelude TreeMath BinaryTree Crypto CryptoFacts SecretTree Extensions ExtensionsFacts TreeSync LeafNode TreeKem Proposals.
From S2P Require Import KeySchedule Framing PrivateMessages PrivateMessagesFacts Welcome Decoding.

(** ** The laws *)

(** [read] inverts [encode] on [a], whatever follows. *)
Definition reads {A} (encode : A -> option bytes) (read : bytes -> option (A * bytes)) (a : A) : Prop :=
  forall b rest, encode a = Some b -> read (b ++ rest) = Some (a, rest).

(** Elements that are read back, and whose encodings are not empty, are read back from a vector;
    a length prefix is not empty. *)
Class LawfulVecCodec {TC : TlsCodec} {VC : TlsVecCodec} : Prop := {
  tls_read_vec_write {A} (encode : A -> option bytes) (read : bytes -> option (A * bytes)) l :
    Forall (reads encode read) l -> Forall (fun a => encode a <> Some []) l -> reads (tls_vec encode) (tls_read_vec read) l;
  tls_vlbytes_not_empty b : tls_vlbytes b <> Some [];
}.

Module ToyVec.
Fixpoint read_all {A} (fuel : nat) (read : bytes -> option (A * bytes)) (b : bytes) : option (list A) :=
  match b, fuel with
  | [], _ => Some []
  | _, O => None
  | _, S fuel => '(a, b) ← read b; cons a <$> read_all fuel read b
  end.

#[export] Instance vec_codec : TlsVecCodec := {|
  tls_read_vec A read b := '(content, rest) ← Toy.codec.(tls_read_vlbytes) b; l ← read_all (length content) read content; Some (l, rest) |}.

Lemma read_all_written {A} (encode : A -> option bytes) read l es fuel :
  Forall (reads encode read) l -> Forall (fun a => encode a <> Some []) l -> mapM encode l = Some es ->
  (length (mjoin es) <= fuel)%nat -> read_all fuel read (mjoin es) = Some l.
Proof.
  intros Hr Hn. revert es fuel. induction l as [|a l IH]; intros es fuel E Hf; [injection E as <-; by destruct fuel|].
  apply Forall_cons in Hr as [Ha Hr]. apply Forall_cons in Hn as [Hna Hn].
  cbn in E. apply bind_Some in E as (e & Ee & E). apply bind_Some in E as (es' & E & [= <-]).
  cbn [mjoin list_join] in *. rewrite length_app in Hf.
  destruct e as [|x e]; [done|]. destruct fuel as [|fuel]; [cbn in Hf; lia|]. cbn [read_all app].
  change (x :: e ++ mjoin es') with ((x :: e) ++ mjoin es'). rewrite (Ha _ _ Ee). cbn [mbind option_bind].
  rewrite (IH Hr Hn es' fuel E); [done|]. apply le_S_n in Hf. etrans; [apply Nat.le_add_l|exact Hf].
Qed.

#[export] Instance lawful_vec : LawfulVecCodec (TC := Toy.codec).
Proof.
  split.
  - intros A encode read l Hr Hn b rest E. unfold tls_vec in E. apply bind_Some in E as (es & Em & E).
    cbn [tls_read_vec vec_codec]. rewrite (tls_read_write (LawfulCodec := Toy.lawful_codec) _ _ _ E). cbn [mbind option_bind].
    by rewrite (read_all_written encode read l es _ Hr Hn Em).
  - intros b. cbn. by case_match.
Defined.
End ToyVec.

(** ** Readers of fields *)
Lemma mapM_map {A B} (f : A -> A) (g : A -> option B) (l : list A) :
  Forall (fun a => g (f a) = g a) l -> mapM g (f <$> l) = mapM g l.
Proof. induction 1 as [|a l Ha _ IH]; [done|]. cbn. by rewrite Ha, IH. Qed.

Lemma mapM_pure {A B} (f : A -> B) (l : list A) : mapM (fun a => Some (f a)) l = Some (f <$> l).
Proof. induction l as [|a l IH]; [done|]. cbn. rewrite IH. done. Qed.

Ltac inv_struct := repeat match goal with
  | H : tls_struct (_ :: _) = Some _ |- _ => rewrite tls_struct_cons in H
  | H : tls_struct [] = Some _ |- _ => rewrite tls_struct_nil in H
  | H : mbind _ _ = Some _ |- _ => apply bind_Some in H as (?b & ?E & H)
  | H : fmap _ _ = Some _ |- _ => apply fmap_Some in H as (?b & ?E & ->)
  | H : Some _ = Some _ |- _ => apply (inj Some) in H; subst
  end.

(** One step of a decoder. *)
Lemma reads_bind {A B} encode (read : bytes -> option (A * bytes)) a b rest (k : A * bytes -> option B) :
  encode a = Some b -> reads encode read a -> (read (b ++ rest) ≫= k) = k (a, rest).
Proof. intros E H. by rewrite (H _ _ E). Qed.

Lemma read_be_bind {B} n z rest (k : Z * bytes -> option B) :
  0 <= z < 2 ^ (8 * Z.of_nat n) -> (read_be n (be_bytes n z ++ rest) ≫= k) = k (z, rest).
Proof. intros Hz. by rewrite read_be_app. Qed.

Lemma read_byte_bind {B} z rest (k : Z * bytes -> option B) : 0 <= z < 256 -> (read_be 1 (z :: rest) ≫= k) = k (z, rest).
Proof.
  intros Hz. change (z :: rest) with ([z] ++ rest). replace [z] with (be_bytes 1 z); [by apply read_be_bind|].
  cbn. by rewrite Z.div_1_r, Z.mod_small.
Qed.

Definition fits (n : nat) (z : Z) : Prop := 0 <= z < 2 ^ (8 * Z.of_nat n).

Section Fields.
Context {TC : TlsCodec} {VC : TlsVecCodec} {LC : LawfulCodec} {LV : LawfulVecCodec}.

Lemma reads_vlbytes b : reads tls_vlbytes tls_read_vlbytes b.
Proof. intros e rest E. by apply tls_read_write. Qed.

Lemma reads_be n z : fits n z -> reads (fun z => Some (be_bytes n z)) (read_be n) z.
Proof. intros Hz e rest [= <-]. by apply read_be_app. Qed.

Lemma reads_code {A} `{EqDecision A} (to_u16 : A -> Z) from a :
  fits 2 (to_u16 a) -> reads (tls_serialize_code to_u16 from) (read_code from) a.
Proof.
  intros Ha e rest E. unfold tls_serialize_code in E. destruct (bool_decide_reflect (from (to_u16 a) = a)) as [Ef|]; [|done].
  apply (inj Some) in E as <-. unfold read_code. rewrite read_be_bind by done. by rewrite Ef.
Qed.

Lemma reads_optional {A} (encode : A -> option bytes) read o :
  (forall a, o = Some a -> reads encode read a) -> reads (tls_optional encode) (tls_read_optional read) o.
Proof.
  intros H e rest E. unfold tls_read_optional. destruct o as [a|]; cbn [tls_optional] in E; inv_struct.
  - cbn [app]. rewrite read_byte_bind by lia. cbn. erewrite reads_bind; [done|eassumption|auto].
  - cbn [app]. by rewrite read_byte_bind by lia.
Qed.

Lemma code_not_empty {A} `{EqDecision A} (to_u16 : A -> Z) from a : tls_serialize_code to_u16 from a <> Some [].
Proof. unfold tls_serialize_code. by case_match. Qed.

Lemma reads_code_vec {A} `{EqDecision A} (to_u16 : A -> Z) from l :
  Forall (fun a => fits 2 (to_u16 a)) l -> reads (tls_vec (tls_serialize_code to_u16 from)) (tls_read_vec (read_code from)) l.
Proof.
  intros Hl. apply tls_read_vec_write.
  - eapply Forall_impl; [exact Hl|]. intros a. apply reads_code.
  - apply Forall_true. intros a. apply code_not_empty.
Qed.

Lemma tls_exact_app {A} (encode : A -> option bytes) read a b :
  reads encode read a -> encode a = Some b -> tls_exact read b = Some a.
Proof. intros H E. unfold tls_exact. rewrite <- (app_nil_r b), (H _ _ E). done. Qed.

Lemma reads_version v : fits 2 (match v with ProtocolVersion.Mls10 => 1 | ProtocolVersion.Other v => v end) ->
  reads ProtocolVersion.tls_serialize read_version v.
Proof.
  intros Hv e rest E. unfold read_version, read_code. destruct v as [|v]; cbn [ProtocolVersion.tls_serialize] in E.
  - inv_struct. by rewrite read_be_bind.
  - destruct (Z.eqb_spec v 1) as [|Hne]; [done|]. inv_struct. rewrite read_be_bind by done. cbn. unfold ProtocolVersion.from.
    by rewrite (proj2 (Z.eqb_neq v 1)).
Qed.

Lemma read_ciphersuite_bind {B} cs rest (k : Ciphersuite * bytes -> option B) :
  (read_ciphersuite (be_bytes 2 (Suite.to_u16 cs) ++ rest) ≫= k) = k (cs, rest).
Proof. unfold read_ciphersuite. rewrite read_be_bind by (destruct cs; cbn; lia). by destruct cs. Qed.
End Fields.

Create HintDb codec.
#[export] Hint Resolve reads_vlbytes reads_be reads_code reads_code_vec reads_version : codec.
#[export] Hint Unfold ExtensionType.tls_serialize ProposalType.tls_serialize CredentialType.tls_serialize : codec.
#[export] Hint Unfold read_extension_type read_proposal_type read_credential_type : codec.

Ltac read_step :=
  first [ erewrite reads_bind; [|eassumption|solve [eauto 6 with codec]]
        | rewrite read_be_bind by assumption
        | rewrite read_ciphersuite_bind
        | rewrite read_byte_bind by lia ]; cbn iota beta.
Ltac read_all := rewrite <- ?app_assoc, ?app_nil_l; cbn [app]; repeat read_step.

(** ** Values on the wire *)
Section Wire.
Context {TC : TlsCodec} {VC : TlsVecCodec} {LC : LawfulCodec} {LV : LawfulVecCodec}.

Definition wire_version (v : ProtocolVersion.t) : Prop :=
  fits 2 (match v with ProtocolVersion.Mls10 => 1 | ProtocolVersion.Other v => v end).
Definition wire_credential (c : Credential) : Prop := fits 2 (CredentialType.to_u16 (credential_type c)).

Record wire_required (r : RequiredCapabilitiesExtension) : Prop := {
  wr_extensions : Forall (fun t => fits 2 (ExtensionType.to_u16 t)) (required_extension_types r);
  wr_proposals : Forall (fun t => fits 2 (ProposalType.to_u16 t)) (required_proposal_types r);
  wr_credentials : Forall (fun t => fits 2 (CredentialType.to_u16 t)) (required_credential_types r);
}.

Lemma reads_credential c : wire_credential c -> reads tls_credential read_credential c.
Proof.
  intros Hc e rest E. unfold tls_credential in E. inv_struct. unfold read_credential, read_credential_type. read_all. by destruct c.
Qed.

Lemma reads_required r : wire_required r -> reads tls_required_capabilities read_required_capabilities r.
Proof.
  intros [] e rest E. unfold tls_required_capabilities in E. inv_struct. unfold read_required_capabilities. read_all. by destruct r.
Qed.

Lemma struct_not_empty (o : option bytes) os : o <> Some [] -> tls_struct (o :: os) <> Some [].
Proof.
  intros Ho E. rewrite tls_struct_cons in E. apply bind_Some in E as (b & Eb & E). apply bind_Some in E as (b' & _ & E).
  destruct b; [done|discriminate].
Qed.

Definition wire_sender (s : ExternalSender) : Prop := wire_credential (external_credential s).

Lemma reads_sender s : wire_sender s -> reads tls_external_sender read_external_sender s.
Proof.
  intros Hs e rest E. unfold tls_external_sender in E. inv_struct. unfold read_external_sender. read_all.
  by erewrite reads_bind; [destruct s|eassumption|by apply reads_credential].
Qed.

Lemma reads_senders l : Forall wire_sender l -> reads (tls_vec tls_external_sender) (tls_read_vec read_external_sender) l.
Proof.
  intros Hl. apply tls_read_vec_write; [by eapply Forall_impl; [exact Hl|apply reads_sender]|].
  apply Forall_true. intros s. apply struct_not_empty, tls_vlbytes_not_empty.
Qed.

(** The data of an extension that is read back. A ratchet tree is one that decodes. *)
Record wire_extension (read_tree : bytes -> option (RatchetTree * bytes)) (e : Extension.t) : Prop := {
  wx_type : fits 2 (ExtensionType.to_u16 (Extension.extension_type e));
  wx_data : match e with
            | Extension.RatchetTree b => is_Some (tls_exact read_tree b)
            | Extension.RequiredCapabilities r => wire_required r
            | Extension.ExternalSenders l => Forall wire_sender l
            | _ => True
            end;
}.

Lemma extension_not_empty e : tls_extension e <> Some [].
Proof.
  unfold tls_extension. intros E. apply bind_Some in E as (t & Et & E). apply bind_Some in E as (d & _ & E).
  apply bind_Some in E as (d' & _ & [= E]). destruct t; [by apply code_not_empty in Et|done].
Qed.

Lemma reads_extension read_tree object e :
  wire_extension read_tree e -> validate_extension_type object (Extension.extension_type e) = Ok tt ->
  reads tls_extension (read_extension_in read_tree object) e.
Proof.
  intros [Ht Hd] Hv b rest E. unfold tls_extension in E. apply bind_Some in E as (t & Et & E). apply bind_Some in E as (data & Ed & E).
  apply bind_Some in E as (bd & Ebd & [= <-]). unfold read_extension_in, read_extension_type. read_all. rewrite Hv.
  assert (extension_from_data read_tree (Extension.extension_type e) data = Some e) as ->; [|done].
  destruct e as [k|k|r|k|l| |kind d]; cbn [Extension.extension_type extension_from_data] in *.
  - by rewrite (tls_exact_app tls_vlbytes _ k data (reads_vlbytes k) Ed).
  - apply (inj Some) in Ed as ->. destruct Hd as [t' ->]. done.
  - by rewrite (tls_exact_app tls_required_capabilities _ r data (reads_required r Hd) Ed).
  - by rewrite (tls_exact_app tls_vlbytes _ k data (reads_vlbytes k) Ed).
  - by rewrite (tls_exact_app (tls_vec tls_external_sender) _ l data (reads_senders l Hd) Ed).
  - by injection Ed as <-.
  - injection Ed as <-. by destruct (is_grease_value kind).
Qed.

Lemma duplicate_free_NoDup seen l :
  NoDup (Extension.extension_type <$> l) -> (forall t, t ∈ Extension.extension_type <$> l -> t ∉ seen) -> duplicate_free seen l = true.
Proof.
  revert seen. induction l as [|e l IH]; intros seen Hn Hs; cbn in *; [done|]. apply NoDup_cons in Hn as [He Hn].
  rewrite bool_decide_false by (apply Hs; constructor). cbn. apply IH; [done|]. intros t Ht.
  rewrite not_elem_of_union, not_elem_of_singleton. split; [by intros ->|]. apply Hs. by constructor.
Qed.

Definition wire_extensions read_tree (object : ExtensionObject) (l : Extensions) : Prop :=
  wf_extensions object l /\ Forall (wire_extension read_tree) l.

Lemma reads_extensions read_tree object l :
  wire_extensions read_tree object l -> reads tls_extensions (read_extensions_with read_tree object) l.
Proof.
  intros [[Hn Hv] Hw] b rest E. unfold read_extensions_with. erewrite reads_bind; [|exact E|].
  2:{ apply tls_read_vec_write; [|apply Forall_true; apply extension_not_empty].
      rewrite Forall_forall in *. intros e He. apply reads_extension; auto. }
  by rewrite duplicate_free_NoDup by set_solver.
Qed.
End Wire.
#[export] Hint Resolve reads_credential reads_required reads_sender reads_senders reads_extensions : codec.

(** ** Leaf nodes and ratchet trees *)
Section Trees.
Context {TC : TlsCodec} {VC : TlsVecCodec} {LC : LawfulCodec} {LV : LawfulVecCodec}.

Record wire_capabilities (c : Capabilities) : Prop := {
  wc_versions : Forall wire_version (cap_versions c);
  wc_ciphersuites : Forall (fits 2) (cap_ciphersuites c);
  wc_extensions : Forall (fun t => fits 2 (ExtensionType.to_u16 t)) (cap_extensions c);
  wc_proposals : Forall (fun t => fits 2 (ProposalType.to_u16 t)) (cap_proposals c);
  wc_credentials : Forall (fun t => fits 2 (CredentialType.to_u16 t)) (cap_credentials c);
}.

Definition wire_source (s : LeafNodeSource) : Prop :=
  match s with SourceKeyPackage l => fits 8 (not_before l) /\ fits 8 (not_after l) | _ => True end.

Record wire_leaf (l : LeafNode) : Prop := {
  wl_credential : wire_credential (payload_credential (payload l));
  wl_capabilities : wire_capabilities (payload_capabilities (payload l));
  wl_source : wire_source (payload_source (payload l));
  wl_extensions : wire_extensions (fun _ => None) InLeafNode (payload_extensions (payload l));
}.

Lemma reads_be_vec n l : (n <> 0)%nat -> Forall (fits n) l -> reads (tls_vec (fun z => Some (be_bytes n z))) (tls_read_vec (read_be n)) l.
Proof.
  intros Hn Hl. apply tls_read_vec_write; [eapply Forall_impl; [exact Hl|apply reads_be]|].
  apply Forall_true. intros z [= E]. by destruct n.
Qed.

Lemma reads_versions l : Forall wire_version l -> reads (tls_vec ProtocolVersion.tls_serialize) (tls_read_vec read_version) l.
Proof.
  intros Hl. apply tls_read_vec_write; [by eapply Forall_impl; [exact Hl|apply reads_version]|].
  apply Forall_true. intros [|v]; cbn; [done|]. by destruct (v =? 1).
Qed.

Lemma reads_capabilities c : wire_capabilities c -> reads tls_capabilities read_capabilities c.
Proof.
  intros [] e rest E. unfold tls_capabilities in E. inv_struct. unfold read_capabilities. rewrite <- ?app_assoc.
  erewrite reads_bind; [|eassumption|by apply reads_versions]. cbn iota beta.
  erewrite reads_bind; [|eassumption|by apply (reads_be_vec 2)]. cbn iota beta. read_all. by destruct c.
Qed.

Lemma reads_lifetime l : fits 8 (not_before l) -> fits 8 (not_after l) -> reads tls_lifetime read_lifetime l.
Proof. intros Hb Ha e rest E. unfold tls_lifetime in E. inv_struct. unfold read_lifetime. read_all. by destruct l. Qed.

Lemma reads_source s : wire_source s -> reads tls_source read_source s.
Proof.
  intros Hs e rest E. unfold read_source. destruct s as [l| |ph]; cbn [tls_source] in E; inv_struct; read_all; cbn; [|done|].
  - destruct Hs. by erewrite reads_bind; [|eassumption|by apply reads_lifetime].
  - by read_all.
Qed.

Lemma reads_payload p :
  wire_credential (payload_credential p) -> wire_capabilities (payload_capabilities p) -> wire_source (payload_source p) ->
  wire_extensions (fun _ => None) InLeafNode (payload_extensions p) -> reads tls_payload read_payload p.
Proof.
  intros H1 H2 H3 H4 e rest E. unfold tls_payload in E. inv_struct. unfold read_payload. read_all.
  erewrite reads_bind; [|eassumption|by apply reads_capabilities]. cbn iota beta.
  erewrite reads_bind; [|eassumption|by apply reads_source]. read_all. by destruct p.
Qed.

Lemma reads_leaf l : wire_leaf l -> reads tls_leaf read_leaf l.
Proof.
  intros [] e rest E. unfold tls_leaf in E. inv_struct. unfold read_leaf. rewrite <- ?app_assoc.
  erewrite reads_bind; [|eassumption|by apply reads_payload]. read_all. by destruct l.
Qed.

Record wire_parent (p : ParentNode) : Prop := {
  wp_leaves : Forall (fits 4) (unmerged_leaves p);
  wp_sorted : UnmergedLeaves.increasing (unmerged_leaves p) = true;
}.

Lemma reads_parent p : wire_parent p -> reads tls_parent_node read_parent_node p.
Proof.
  intros [Hl Hs] e rest E. unfold tls_parent_node in E. apply bind_Some in E as (k & Ek & E). apply bind_Some in E as (h & Eh & E).
  apply bind_Some in E as (u & Eu & [= <-]). unfold read_parent_node. read_all. unfold read_unmerged_leaves.
  assert (tls_vec (fun z => Some (be_bytes 4 z)) (unmerged_leaves p) = Some u) as Ev.
  { unfold tls_vec. rewrite (mapM_pure (be_bytes 4)). exact Eu. }
  erewrite (reads_bind _ (tls_read_vec (read_be 4))); [|exact Ev|by apply (reads_be_vec 4)]. cbn iota beta. unfold UnmergedLeaves.try_from. rewrite Hs. by destruct p.
Qed.

Definition wire_node (n : Node LeafNode) : Prop :=
  match n with LeafNodeN l => wire_leaf l | ParentNodeN p => wire_parent p end.

Lemma reads_node n : wire_node n -> reads tls_node read_node n.
Proof.
  intros Hn e rest E. unfold read_node. destruct n as [l|p]; cbn [tls_node] in E; inv_struct; read_all; cbn.
  - by erewrite reads_bind; [|eassumption|by apply reads_leaf].
  - by erewrite reads_bind; [|eassumption|by apply reads_parent].
Qed.

Definition wire_tree (t : RatchetTree) : Prop := Forall (fun o => forall n, o = Some n -> wire_node n) t.

Lemma reads_ratchet_tree t : wire_tree t -> reads tls_ratchet_tree read_ratchet_tree t.
Proof.
  intros Ht. apply tls_read_vec_write.
  - eapply Forall_impl; [exact Ht|]. intros o Ho. apply reads_optional. intros n ->. by apply reads_node, Ho.
  - apply Forall_true. intros [n|]; cbn; [|done]. by destruct (tls_node n).
Qed.
End Trees.
#[export] Hint Resolve reads_leaf : codec.

(** ** Messages *)

(** Values as they arrive: a key package loses the serialized payload it kept, and a group
    info is not verified yet. *)
Definition key_package_received (k : KeyPackage) : KeyPackage := mkKeyPackage (kp_payload k) (kp_signature k) None.

Definition proposal_received (p : Proposal.t) : Proposal.t :=
  match p with Proposal.Add k => Proposal.Add (key_package_received k) | p => p end.

Definition proposal_or_ref_received (p : ProposalOrRef) : ProposalOrRef :=
  match p with InlineProposal p => InlineProposal (proposal_received p) | p => p end.

Definition commit_received (c : Commit) : Commit :=
  mkCommit (proposal_or_ref_received <$> commit_proposals c) (commit_path c).

Definition body_received (b : FramedContentBody) : FramedContentBody :=
  match b with
  | BodyProposal p => BodyProposal (proposal_received p)
  | BodyCommit c => BodyCommit (commit_received c)
  | b => b
  end.

Section Messages.
Context {TC : TlsCodec} {VC : TlsVecCodec} {LC : LawfulCodec} {LV : LawfulVecCodec}.

Record wire_context (c : GroupContext) : Prop := {
  wg_version : wire_version (gc_protocol_version c);
  wg_epoch : fits 8 (gc_epoch c);
  wg_extensions : wire_extensions read_ratchet_tree InGroupContext (gc_extensions c);
}.

Lemma reads_group_context c : wire_context c -> reads tls_group_context read_group_context c.
Proof.
  intros [] e rest E. unfold tls_group_context in E. inv_struct. unfold read_group_context, read_extensions. rewrite <- ?app_assoc.
  erewrite reads_bind; [|eassumption|by apply reads_version]. cbn iota beta.
  read_all. by destruct c.
Qed.

Definition wire_psk (p : Psk) : Prop := match p with PskResumption _ _ epoch => fits 8 epoch | _ => True end.

Lemma read_usage_bind {B} u rest (k : ResumptionPskUsage * bytes -> option B) : (read_usage (usage_u8 u :: rest) ≫= k) = k (u, rest).
Proof. unfold read_usage. rewrite read_byte_bind by (destruct u; cbn; lia). by destruct u. Qed.

Lemma reads_psk p : wire_psk p -> reads tls_psk read_psk p.
Proof.
  intros Hp e rest E. unfold read_psk. destruct p as [id|u g ep]; cbn [tls_psk] in E; inv_struct; read_all; cbn [Z.eqb Pos.eqb].
  - by read_all.
  - rewrite read_usage_bind. by read_all.
Qed.

Lemma reads_psk_id i : wire_psk (psk i) -> reads tls_psk_id read_psk_id i.
Proof.
  intros Hp e rest E. unfold tls_psk_id in E. inv_struct. unfold read_psk_id. rewrite <- ?app_assoc.
  erewrite reads_bind; [|eassumption|by apply reads_psk]. read_all. by destruct i.
Qed.

Record wire_key_package (k : KeyPackage) : Prop := {
  wk_version : wire_version (kp_protocol_version (kp_payload k));
  wk_leaf : wire_leaf (kp_leaf_node (kp_payload k));
  wk_extensions : wire_extensions read_ratchet_tree AnyObject (kp_extensions (kp_payload k));
  wk_payload b : kp_serialized_payload k = Some b -> tls_key_package_tbs (kp_payload k) = Some b;
}.

Lemma reads_key_package_tbs k : wire_key_package k -> reads tls_key_package_tbs read_key_package_tbs (kp_payload k).
Proof.
  intros [Hv Hl He _] e rest E. unfold tls_key_package_tbs in E. inv_struct. unfold read_key_package_tbs, read_extensions. rewrite <- ?app_assoc.
  erewrite reads_bind; [|eassumption|by apply reads_version]. cbn iota beta.
  read_all. by destruct (kp_payload k).
Qed.

Lemma key_package_read k b rest :
  wire_key_package k -> tls_key_package k = Some b -> read_key_package (b ++ rest) = Some (key_package_received k, rest).
Proof.
  intros Hk E. unfold tls_key_package in E. inv_struct. unfold read_key_package. rewrite <- ?app_assoc.
  assert (tls_key_package_tbs (kp_payload k) = Some b0) as Eb.
  { destruct (kp_serialized_payload k) as [s|] eqn:Es; [|done]. injection E0 as ->. by apply (wk_payload k Hk). }
  erewrite reads_bind; [|exact Eb|by apply reads_key_package_tbs]. by read_all.
Qed.

Definition wire_proposal (p : Proposal.t) : Prop :=
  match p with
  | Proposal.Add k => wire_key_package k
  | Proposal.Update l => wire_leaf l
  | Proposal.Remove i => fits 4 i
  | Proposal.PreSharedKey i => wire_psk (psk i)
  | Proposal.ReInit r => wire_version (reinit_version r) /\ wire_extensions read_ratchet_tree InGroupContext (reinit_extensions r)
  | Proposal.GroupContextExtensions l => wire_extensions read_ratchet_tree AnyObject l
  | Proposal.Custom c => fits 2 (custom_proposal_type c)
  | Proposal.ExternalInit _ | Proposal.SelfRemove => True
  end.

Lemma reads_reinit r b rest :
  wire_proposal (Proposal.ReInit r) ->
  tls_struct [tls_vlbytes (reinit_group_id r); ProtocolVersion.tls_serialize (reinit_version r);
              Some (be_bytes 2 (Suite.to_u16 (reinit_ciphersuite r))); tls_extensions (reinit_extensions r)] = Some b ->
  read_reinit (b ++ rest) = Some (r, rest).
Proof.
  intros [Hv He] E. inv_struct. unfold read_reinit, read_extensions. read_all.
  by destruct r.
Qed.

Lemma proposal_read p b rest :
  wire_proposal p -> tls_proposal p = Some b -> read_proposal (b ++ rest) = Some (proposal_received p, rest).
Proof.
  intros Hp E. unfold tls_proposal in E. rewrite !tls_struct_cons, tls_struct_nil in E. apply bind_Some in E as (bt & E0 & E).
  apply bind_Some in E as (b1 & E & [= <-]). apply bind_Some in E as (b2 & E1 & [= <-]). unfold read_proposal, read_proposal_type. rewrite <- ?app_assoc.
  erewrite reads_bind; [|exact E0|apply reads_code; destruct p; done || exact Hp]. cbn iota beta.
  destruct p as [k|l|i|i|r|k|l| |c]; cbn [Proposal.proposal_type ProposalType.to_u16 proposal_received] in *; rewrite ?app_nil_r.
  - by rewrite (key_package_read k _ _ Hp E1).
  - by read_all.
  - inv_struct. by read_all.
  - by erewrite reads_bind; [|eassumption|by apply reads_psk_id].
  - by rewrite (reads_reinit r _ _ Hp E1).
  - by read_all.
  - unfold read_extensions. by read_all.
  - by inv_struct.
  - read_all. by destruct c.
Qed.

(** A value that arrives has the encoding of the value that was sent. *)
Lemma key_package_received_encoding k : wire_key_package k -> tls_key_package (key_package_received k) = tls_key_package k.
Proof.
  intros Hk. unfold tls_key_package, key_package_received. cbn [kp_serialized_payload kp_payload kp_signature]. destruct (kp_serialized_payload k) as [b|] eqn:E; [|done]. by rewrite (wk_payload k Hk b E).
Qed.

Lemma proposal_received_encoding p : wire_proposal p -> tls_proposal (proposal_received p) = tls_proposal p.
Proof. intros Hp. destruct p; try done. unfold tls_proposal, proposal_received. by rewrite key_package_received_encoding. Qed.

Definition wire_proposal_or_ref (p : ProposalOrRef) : Prop := match p with InlineProposal p => wire_proposal p | Reference _ => True end.

Lemma proposal_or_ref_received_encoding p :
  wire_proposal_or_ref p -> tls_proposal_or_ref (proposal_or_ref_received p) = tls_proposal_or_ref p.
Proof. intros Hp. destruct p as [p|r]; [|done]. unfold tls_proposal_or_ref, proposal_or_ref_received. by rewrite proposal_received_encoding. Qed.

Lemma proposal_or_ref_read p b rest :
  wire_proposal_or_ref p -> tls_proposal_or_ref p = Some b -> read_proposal_or_ref (b ++ rest) = Some (proposal_or_ref_received p, rest).
Proof.
  intros Hp E. unfold read_proposal_or_ref.
  destruct p as [p|r]; cbn [tls_proposal_or_ref] in E; apply fmap_Some in E as (e & E & ->); read_all; cbn [Z.eqb Pos.eqb].
  - by rewrite (proposal_read p _ _ Hp E).
  - by read_all.
Qed.

Lemma proposals_read l b rest :
  Forall wire_proposal_or_ref l -> tls_vec tls_proposal_or_ref l = Some b ->
  tls_read_vec read_proposal_or_ref (b ++ rest) = Some (proposal_or_ref_received <$> l, rest).
Proof.
  intros Hl E. eapply (tls_read_vec_write tls_proposal_or_ref).
  - apply Forall_fmap. eapply Forall_impl; [exact Hl|]. intros p Hp b' rest' E'.
    rewrite proposal_or_ref_received_encoding in E' by done. by apply proposal_or_ref_read.
  - apply Forall_true. intros [p|r]; cbn [tls_proposal_or_ref]; [by destruct (tls_proposal p)|by destruct (tls_vlbytes r)].
  - unfold tls_vec in *. rewrite mapM_map; [exact E|]. eapply Forall_impl; [exact Hl|apply proposal_or_ref_received_encoding].
Qed.

Record wire_commit (c : Commit) : Prop := {
  wm_proposals : Forall wire_proposal_or_ref (commit_proposals c);
  wm_path p : commit_path c = Some p -> wire_leaf (update_leaf_node p);
}.

Lemma reads_hpke_ciphertext c : reads tls_hpke_ciphertext read_hpke_ciphertext c.
Proof. intros e rest E. unfold tls_hpke_ciphertext in E. inv_struct. unfold read_hpke_ciphertext. read_all. by destruct c. Qed.

Lemma reads_vec {A} (encode : A -> option bytes) read l :
  (forall a, reads encode read a) -> (forall a, encode a <> Some []) -> reads (tls_vec encode) (tls_read_vec read) l.
Proof. intros Hr Hn. apply tls_read_vec_write; by apply Forall_true. Qed.

Lemma reads_update_path_node n : reads tls_update_path_node read_update_path_node n.
Proof.
  intros e rest E. unfold tls_update_path_node in E. inv_struct. unfold read_update_path_node. read_all.
  erewrite reads_bind; [|eassumption|]; [by destruct n|]. apply reads_vec; [apply reads_hpke_ciphertext|].
  intros a. apply struct_not_empty, tls_vlbytes_not_empty.
Qed.

Lemma reads_update_path p : wire_leaf (update_leaf_node p) -> reads tls_update_path read_update_path p.
Proof.
  intros Hl e rest E. unfold tls_update_path in E. inv_struct. unfold read_update_path. read_all.
  erewrite reads_bind; [|eassumption|]; [by destruct p|]. apply reads_vec; [apply reads_update_path_node|].
  intros a. apply struct_not_empty, tls_vlbytes_not_empty.
Qed.

Lemma commit_read c b rest : wire_commit c -> tls_commit c = Some b -> read_commit (b ++ rest) = Some (commit_received c, rest).
Proof.
  intros [Hp Hl] E. unfold tls_commit in E. inv_struct. unfold read_commit. rewrite <- ?app_assoc.
  erewrite (proposals_read _ _ _ Hp) by eassumption. cbn [mbind option_bind]. erewrite reads_bind; [|eassumption|]; [done|].
  apply reads_optional. intros p Ep. by apply reads_update_path, Hl.
Qed.

(** *** Welcomes and group infos *)
Lemma reads_psk_ids l : Forall (fun i => wire_psk (psk i)) l -> reads (tls_vec tls_psk_id) (tls_read_vec read_psk_id) l.
Proof.
  intros Hl. apply tls_read_vec_write; [by eapply Forall_impl; [exact Hl|apply reads_psk_id]|].
  apply Forall_true. intros [[id|u g e] n]; apply struct_not_empty; cbn [psk tls_psk]; [by destruct (tls_vlbytes id)|by destruct (tls_struct _)].
Qed.

Lemma group_secrets_read joiner path psks b rest :
  Forall (fun i => wire_psk (psk i)) psks -> new_encoded joiner path psks = Some b ->
  read_group_secrets (b ++ rest) = Some (mkGroupSecrets joiner path psks, rest).
Proof.
  intros Hp E. unfold new_encoded in E. inv_struct. unfold read_group_secrets. read_all.
  erewrite reads_bind; [|eassumption|apply reads_optional; intros a _; apply reads_vlbytes]. cbn iota beta.
  by erewrite reads_bind; [|eassumption|by apply reads_psk_ids].
Qed.

Record wire_group_info (g : GroupInfoTBS) : Prop := {
  wi_context : wire_context (gi_group_context g);
  wi_extensions : wire_extensions read_ratchet_tree InGroupInfo (gi_extensions g);
  wi_signer : fits 4 (gi_signer g);
}.

Lemma reads_group_info_tbs g : wire_group_info g -> reads tls_group_info_tbs read_group_info_tbs g.
Proof.
  intros [Hc He Hs] e rest E. unfold tls_group_info_tbs in E. inv_struct. unfold read_group_info_tbs, read_extensions. rewrite <- ?app_assoc.
  erewrite reads_bind; [|eassumption|by apply reads_group_context]. cbn iota beta. read_all. by destruct g.
Qed.

(** A group info that keeps a serialized payload keeps its own. *)
Definition own_payload (g : GroupInfo) : Prop := forall b, gi_serialized_payload g = Some b -> tls_group_info_tbs (gi_payload g) = Some b.

Definition group_info_received (g : GroupInfo) : VerifiableGroupInfo := mkVerifiableGroupInfo (gi_payload g) (gi_signature g).

Lemma group_info_read g b rest :
  wire_group_info (gi_payload g) -> own_payload g -> tls_group_info g = Some b ->
  read_group_info (b ++ rest) = Some (group_info_received g, rest).
Proof.
  intros Hg Ho E. unfold tls_group_info in E. rewrite !tls_struct_cons, tls_struct_nil in E. apply bind_Some in E as (p & Ep & E).
  apply bind_Some in E as (b' & E & [= <-]). apply bind_Some in E as (s & Es & [= <-]). unfold read_group_info. rewrite <- ?app_assoc.
  assert (tls_group_info_tbs (gi_payload g) = Some p) as Et.
  { destruct (gi_serialized_payload g) as [q|] eqn:Eq; [|done]. injection Ep as ->. by apply Ho. }
  erewrite reads_bind; [|exact Et|by apply reads_group_info_tbs]. by read_all.
Qed.

Lemma reads_encrypted_group_secrets s : reads tls_encrypted_group_secrets read_encrypted_group_secrets s.
Proof.
  intros e rest E. unfold tls_encrypted_group_secrets in E. rewrite !tls_struct_cons, tls_struct_nil in E.
  apply bind_Some in E as (m & Em & E). apply bind_Some in E as (b' & E & [= <-]). apply bind_Some in E as (c & Ec & [= <-]).
  unfold read_encrypted_group_secrets. read_all. erewrite reads_bind; [|exact Ec|apply reads_hpke_ciphertext]. by destruct s.
Qed.

Lemma reads_welcome w : reads tls_welcome read_welcome w.
Proof.
  intros e rest E. unfold tls_welcome in E. inv_struct. unfold read_welcome. read_all.
  erewrite reads_bind; [|eassumption|apply reads_vec; [apply reads_encrypted_group_secrets|intros a; apply struct_not_empty, tls_vlbytes_not_empty]].
  read_all. by destruct w.
Qed.
End Messages.

(** ** Framed messages *)
Definition content_received (c : FramedContent) : FramedContent :=
  mkFramedContent (fc_group_id c) (fc_epoch c) (fc_sender c) (fc_authenticated_data c) (body_received (fc_body c)).

Definition message_received (m : MlsMessageBodyOut) : MlsMessageBodyIn :=
  match m with
  | OutPublicMessage m => InPublicMessage (mkPublicMessage (content_received (pm_content m)) (pm_auth m) (pm_membership_tag m))
  | OutPrivateMessage m => InPrivateMessage m
  | OutWelcome w => InWelcome w
  | OutGroupInfo g => InVerifiableGroupInfo (group_info_received g)
  | OutKeyPackage k => InKeyPackageMessage (key_package_received k)
  end.

Section Framed.
Context {TC : TlsCodec} {VC : TlsVecCodec} {LC : LawfulCodec} {LV : LawfulVecCodec}.

Definition wire_body (b : FramedContentBody) : Prop :=
  match b with BodyApplication _ => True | BodyProposal p => wire_proposal p | BodyCommit c => wire_commit c end.

Lemma body_read body b rest :
  wire_body body -> serialize_without_type body = Some b ->
  deserialize_without_type (CD := content_decoder) (b ++ rest) (content_type body) = Some (body_received body, rest).
Proof.
  intros Hb E. destruct body as [d|p|c]; cbn [serialize_without_type content_type deserialize_without_type tls_read_proposal tls_read_commit content_decoder] in *.
  - by read_all.
  - by rewrite (proposal_read p _ _ Hb E).
  - by rewrite (commit_read c _ _ Hb E).
Qed.

Definition wire_index (s : Sender.t) : Prop :=
  match s with Sender.Member i | Sender.External i => fits 4 i | _ => True end.

Record wire_content (c : FramedContent) : Prop := {
  wf_epoch : fits 8 (fc_epoch c);
  wf_sender : wire_index (fc_sender c);
  wf_body : wire_body (fc_body c);
}.

Lemma reads_message_sender s : wire_index s -> reads Sender.tls_sender read_sender s.
Proof.
  intros Hs e rest E. unfold read_sender. destruct s; cbn [Sender.tls_sender] in E; apply (inj Some) in E as <-;
    cbn [app]; rewrite read_byte_bind by lia; cbn [Z.eqb Pos.eqb]; rewrite ?read_be_bind by done; done.
Qed.

Lemma read_content_type_bind {B} t rest (k : ContentType * bytes -> option B) :
  (read_content_type (content_type_u8 t :: rest) ≫= k) = k (t, rest).
Proof. unfold read_content_type. rewrite read_byte_bind by (destruct t; cbn; lia). by destruct t. Qed.

Lemma content_read c b rest :
  wire_content c -> tls_framed_content c = Some b -> read_framed_content (b ++ rest) = Some (content_received c, rest).
Proof.
  intros [He Hs Hb] E. unfold tls_framed_content in E. rewrite !tls_struct_cons, tls_struct_nil in E.
  apply bind_Some in E as (b1 & E1 & E). apply bind_Some in E as (? & E & <-%(inj Some)). apply bind_Some in E as (b2 & <-%(inj Some) & E).
  apply bind_Some in E as (? & E & <-%(inj Some)). apply bind_Some in E as (b3 & E3 & E). apply bind_Some in E as (? & E & <-%(inj Some)).
  apply bind_Some in E as (b4 & E4 & E). apply bind_Some in E as (? & E & <-%(inj Some)). apply bind_Some in E as (b5 & E5 & <-%(inj Some)).
  apply fmap_Some in E5 as (b6 & E6 & ->). unfold read_framed_content. read_all.
  erewrite reads_bind; [|exact E3|by apply reads_message_sender]. read_all. rewrite read_content_type_bind. cbn iota beta.
  by rewrite (body_read _ _ _ Hb E6).
Qed.

(** What holds of a message that the library sends. *)
Definition wire_message (m : MlsMessageBodyOut) : Prop :=
  match m with
  | OutPublicMessage m =>
      wire_content (pm_content m) /\ auth_shape (fc_body (pm_content m)) (pm_auth m) /\
      (is_Some (pm_membership_tag m) <-> Sender.is_member (fc_sender (pm_content m)) = true)
  | OutPrivateMessage m => fits 8 (pvm_epoch m)
  | OutWelcome _ => True
  | OutGroupInfo g => wire_group_info (gi_payload g) /\ own_payload g
  | OutKeyPackage k => wire_key_package k /\ kp_protocol_version (kp_payload k) = ProtocolVersion.Mls10
  end.

Lemma body_received_type b : content_type (body_received b) = content_type b.
Proof. by destruct b. Qed.

Lemma public_message_read m b rest :
  wire_message (OutPublicMessage m) -> tls_public_message m = Some b ->
  read_public_message (b ++ rest) = Some (mkPublicMessage (content_received (pm_content m)) (pm_auth m) (pm_membership_tag m), rest).
Proof.
  intros (Hc & Ha & Ht) E. unfold tls_public_message in E. rewrite !tls_struct_cons, tls_struct_nil in E.
  apply bind_Some in E as (b1 & E1 & E). apply bind_Some in E as (? & E & <-%(inj Some)). apply bind_Some in E as (b2 & E2 & E).
  apply bind_Some in E as (? & E & <-%(inj Some)). apply bind_Some in E as (b3 & E3 & <-%(inj Some)). unfold read_public_message. rewrite <- ?app_assoc.
  rewrite (content_read _ _ _ Hc E1). cbn [mbind option_bind]. cbn [content_received fc_body fc_sender]. rewrite body_received_type.
  rewrite (deserialize_auth_data_spec _ _ _ _ Ha E2). cbn [mbind option_bind].
  destruct (pm_membership_tag m) as [tag|]; rewrite app_nil_l.
  - rewrite (proj1 Ht) by eauto. by read_all.
  - injection E3 as <-. destruct (Sender.is_member _); [|done]. by destruct (proj2 Ht eq_refl).
Qed.

Lemma private_message_read m b rest :
  fits 8 (pvm_epoch m) -> tls_private_message m = Some b -> read_private_message (b ++ rest) = Some (m, rest).
Proof.
  intros He E. unfold tls_private_message in E. inv_struct. unfold read_private_message. read_all.
  rewrite read_content_type_bind. read_all. by destruct m.
Qed.

(** C13. Wire format. Every message that a client sends (a public message with an application
    message, proposal or commit, a private message, a Welcome, a group info or a key package)
    is read back by the decoder of received messages, whatever follows it in the input: the
    received form of the message, nothing else consumed. *)
Theorem message_roundtrip m b rest :
  wire_message m -> tls_mls_message ProtocolVersion.Mls10 m = Some b ->
  read_mls_message (b ++ rest) = Some (ProtocolVersion.Mls10, message_received m, rest).
Proof.
  intros Hm E. unfold tls_mls_message in E. rewrite !tls_struct_cons, tls_struct_nil in E. apply bind_Some in E as (v & Ev & E).
  apply bind_Some in E as (? & E & <-%(inj Some)). apply bind_Some in E as (b1 & E & <-%(inj Some)). unfold read_mls_message, read_message_body.
  rewrite <- ?app_assoc. erewrite (reads_bind ProtocolVersion.tls_serialize read_version ProtocolVersion.Mls10); [|exact Ev|by apply reads_version].
  cbn iota beta. destruct m as [m|m|w|g|k]; apply fmap_Some in E as (e & E & ->); rewrite <- ?app_assoc, read_be_bind by done;
    cbn [Z.eqb Pos.eqb]; rewrite app_nil_l.
  - by rewrite (public_message_read m _ _ Hm E).
  - by rewrite (private_message_read m _ _ Hm E).
  - erewrite reads_bind; [|exact E|apply reads_welcome]. done.
  - by rewrite (group_info_read g _ _ (proj1 Hm) (proj2 Hm) E).
  - destruct Hm as [Hk Hv]. rewrite (key_package_read k _ _ Hk E). cbn. by rewrite !bool_decide_true.
Qed.

(** C40. GREASE proposals. The decoder of proposals accepts a proposal with a reserved GREASE type,
    but the proposal it returns, a custom proposal with that type, has no encoding: no content
    with it can be verified, hashed or sent on. *)
Theorem grease_proposal_not_encodable v payload data rest :
  is_grease_value v = true -> fits 2 v -> tls_vlbytes payload = Some data ->
  read_proposal (be_bytes 2 v ++ data ++ rest) = Some (Proposal.Custom (mkCustomProposal v payload), rest) /\
  tls_proposal (Proposal.Custom (mkCustomProposal v payload)) = None.
Proof.
  intros Hg Hv Hd. assert (ProposalType.from v = ProposalType.Grease v) as Hf.
  { unfold ProposalType.from. rewrite Hg. repeat (case_match eqn:E; [apply Z.eqb_eq in E; by subst|clear E]). done. }
  split.
  - unfold read_proposal, read_proposal_type, read_code. rewrite read_be_bind by done. cbn [mbind option_bind]. rewrite Hf. cbn iota beta.
    by rewrite (tls_read_write _ _ _ Hd).
  - unfold tls_proposal. rewrite tls_struct_cons. cbn [Proposal.proposal_type custom_proposal_type].
    unfold ProposalType.tls_serialize, tls_serialize_code. cbn [ProposalType.to_u16]. rewrite Hf. by rewrite bool_decide_false.
Qed.
End Framed.
