(* ===== verification/DeliveryServiceFacts.v ===== *)
(** * The delivery service: correctness

    What each request does to a client, and what follows for whole runs: a key package is
    handed out at most once, messages are delivered in order and at most once, and handshake
    messages of a group pass in the order of their epochs. *)
From S2P Require Import Prelude TreeMath BinaryTree Crypto SenderRatchet SecretTree PastSecrets Extensions TreeSync LeafNode TreeKem Proposals KeySchedule Framing PrivateMessages Welcome Decoding ProposalStore PublicGroup StagedCommit MessageValidation DeliveryService.

Section Service.
Context {TC : TlsCodec} {VC : TlsVecCodec} {DW : DsWire}.
Implicit Types (data : DsData) (id : bytes).

(** ** The loop over recipients *)
Definition add_msgs (msg : MlsMessageIn) (n : nat) (c : ClientInfo) : ClientInfo :=
  Client.set_queues c (ci_welcome_queue c) (ci_msgs c ++ replicate n msg).

Definition count (id : bytes) (l : list bytes) : nat := length (filter (eq id) l).

Lemma add_msgs_0 msg c : add_msgs msg 0 c = c.
Proof. destruct c. unfold add_msgs, Client.set_queues. cbn. by rewrite app_nil_r. Qed.

Lemma deliver_effect msg recipients id data r data' :
  DS.deliver msg recipients data = (r, data') ->
  ds_groups data' = ds_groups data /\
  exists n, (n <= count id recipients)%nat /\ ds_clients data' !! id = add_msgs msg n <$> ds_clients data !! id /\
    match r with
    | Ok response => response = Status StatusOk /\ n = count id recipients /\ ((0 < n)%nat -> is_Some (ds_clients data !! id))
    | Err response => response = Status NotFound
    | Panic => False
    end.
Proof.
  revert data. induction recipients as [|x recipients IH]; intros data; cbn [DS.deliver].
  { intros [= <- <-]. split; [done|]. exists 0%nat. split_and!; [done| |done|done|lia].
    rewrite <- (option_fmap_id (ds_clients data !! id)) at 1. apply option_fmap_ext. intros c. by rewrite add_msgs_0. }
  unfold reading, modifying. unfold mbind, stateful_bind. destruct (ds_clients data !! x) as [c|] eqn:Hx; cbn [ok_or].
  2: { intros [= <- <-]. split; [done|]. exists 0%nat. split_and!; [lia| |done].
       rewrite <- (option_fmap_id (ds_clients data !! id)) at 1. apply option_fmap_ext. intros c. by rewrite add_msgs_0. }
  intros E. apply IH in E as (-> & n & Hn & Hc & Hr). split; [done|]. cbn [DS.set_client DS.set_clients ds_clients] in *.
  unfold count in *. destruct (decide (id = x)) as [<-|Hne].
  - rewrite filter_cons_True by done. exists (S n). rewrite lookup_insert_eq in Hc, Hr. cbn [length fmap option_fmap option_map] in *.
    rewrite Hx. cbn [fmap option_fmap option_map]. split_and!; [lia| |].
    + rewrite Hc. f_equal. unfold add_msgs, Client.set_queues. cbn. by rewrite <- app_assoc.
    + destruct r as [?|?|]; [|done..]. destruct Hr as (-> & -> & _). split_and!; [done|lia|by eexists].
  - rewrite filter_cons_False by done. rewrite lookup_insert_ne in Hc, Hr by done. by exists n.
Qed.

(** ** The effect of a request on a client *)

(** The client [c] after it got the Welcome for the key package [hash]. *)
Definition welcomed (message : MlsMessageIn) (hash : bytes) (c : ClientInfo) : ClientInfo :=
  Client.set_queues (Client.set_reserved c (ci_reserved_key_pkg_hash c ∖ {[hash]})) (ci_welcome_queue c ++ [message]) (ci_msgs c).

(** [o] and [o'] are what is stored for client [id] before and after the request. *)
Definition effect (request : DS.Request) (response : option Response) id (o o' : option ClientInfo) : Prop :=
  match request with
  | DS.PostRegister random_token body =>
      o' = o \/ (o = None /\ (forall s, response <> Some (Status s)) /\
        exists key_packages rest client, read_client_key_packages body = Some (key_packages, rest) /\
          Client.new random_token key_packages = Some client /\ ci_id client = id /\ o' = Some client)
  | DS.GetReset _ => o' = o \/ (response = Some (Status StatusOk) /\ o' = None)
  | DS.PostKeyPackages path body =>
      o' = o \/ (response = Some (Status StatusOk) /\ url_safe_decode path = Some id /\
        exists req rest client, read_publish_request body = Some (req, rest) /\ o = Some client /\
          ci_auth_token client = pk_auth_token req /\ o' = Some (Client.set_key_packages client (ci_key_packages client ++ pk_key_packages req)))
  | DS.GetKeyPackage path =>
      (o' = o /\ (url_safe_decode path = Some id -> forall k, response <> Some (Body (KeyPackageBody k)))) \/
      (url_safe_decode path = Some id /\ exists client key_package client', o = Some client /\
        Client.consume_kp client = (Some key_package, client') /\ o' = Some client' /\
        response = Some (DS.respond (KeyPackageBody key_package)))
  | DS.PostWelcome _ body =>
      o' = o \/ (response = Some (Status StatusOk) /\ exists version w rest client hash,
        read_mls_message body = Some (version, InWelcome w, rest) /\ hash ∈ egs_new_member <$> welcome_secrets w /\
        hash ∈ ci_reserved_key_pkg_hash client /\ o = Some client /\
        o' = Some (welcomed (version, InWelcome w) hash client))
  | DS.PostMessage body =>
      match read_group_message body with
      | Some (gm, _) => exists n, (n <= count id (gm_recipients gm))%nat /\ o' = add_msgs (gm_msg gm) n <$> o /\
          (n <> 0%nat -> is_Some (DS.protocol_message (gm_msg gm))) /\
          (response = Some (Status StatusOk) -> n = count id (gm_recipients gm) /\ ((0 < n)%nat -> is_Some o))
      | None => o' = o /\ response = Some (Status InternalServerError)
      end
  | DS.GetMessages path body =>
      (o' = o /\ (url_safe_decode path = Some id -> forall ms, response <> Some (Body (MessagesBody ms)))) \/
      (url_safe_decode path = Some id /\ exists client rest, o = Some client /\ tls_read_vlbytes body = Some (ci_auth_token client, rest) /\
        o' = Some (Client.set_queues client [] []) /\
        response = Some (DS.respond (MessagesBody (ci_welcome_queue client ++ ci_msgs client))))
  | DS.GetClients _ | DS.GetKeyPackages _ => o' = o
  end.

Lemma add_msgs_none msg (o : option ClientInfo) : o = add_msgs msg 0 <$> o.
Proof. destruct o; [|done]. cbn. by rewrite add_msgs_0. Qed.

Ltac run_handler := unfold DS.or_abort, DS.abort, lifting, reading, modifying, mret, stateful_ret, mbind, stateful_bind; cbv beta.

Lemma register_effect token body id data response data' :
  DS.handle data (DS.PostRegister token body) = (response, data') ->
  effect (DS.PostRegister token body) response id (ds_clients data !! id) (ds_clients data' !! id).
Proof.
  unfold DS.handle. cbn [DS.route effect]. unfold DS.register_client. run_handler.
  destruct (read_client_key_packages body) as [[kps rest]|]; cbn [ok_or]; [|intros [= <- <-]; by left].
  case_bool_decide; [intros [= <- <-]; by left|].
  destruct (Client.new token kps) as [c|] eqn:Ec; cbn [returns]; [|intros [= <- <-]; by left].
  case_bool_decide as Hk; [intros [= <- <-]; by left|]. apply eq_None_not_Some in Hk.
  intros E. assert ((forall s, response <> Some (Status s)) /\ data' = DS.set_client data (ci_id c) c) as [Hr ->].
  { destruct (DS.encode _); cbn [returns] in E; injection E as <- <-; by split. }
  cbn [DS.set_client DS.set_clients ds_clients]. destruct (decide (ci_id c = id)) as [<-|Hne].
  - right. rewrite lookup_insert_eq. split_and!; [done|done|]. by exists kps, rest, c.
  - left. by rewrite lookup_insert_ne.
Qed.

Lemma publish_effect path body id data response data' :
  DS.handle data (DS.PostKeyPackages path body) = (response, data') ->
  effect (DS.PostKeyPackages path body) response id (ds_clients data !! id) (ds_clients data' !! id).
Proof.
  unfold DS.handle. cbn [DS.route effect]. unfold DS.publish_key_packages. run_handler.
  destruct (url_safe_decode path) as [i|]; cbn [ok_or]; [|intros [= <- <-]; by left].
  destruct (ds_clients data !! i) as [c|] eqn:Hc; cbn [ok_or]; [|intros [= <- <-]; by left].
  destruct (read_publish_request body) as [[req rest]|]; cbn [ok_or]; [|intros [= <- <-]; by left].
  case_bool_decide; cbn [negb]; [|intros [= <- <-]; by left]. rewrite Hc. cbn [ok_or]. intros [= <- <-].
  cbn [DS.set_client DS.set_clients ds_clients]. destruct (decide (i = id)) as [<-|Hne].
  - right. rewrite lookup_insert_eq. split_and!; [done|done|]. by exists req, rest, c.
  - left. by rewrite lookup_insert_ne.
Qed.

Lemma consume_effect path id data response data' :
  DS.handle data (DS.GetKeyPackage path) = (response, data') ->
  effect (DS.GetKeyPackage path) response id (ds_clients data !! id) (ds_clients data' !! id).
Proof.
  unfold DS.handle. cbn [DS.route effect]. unfold DS.consume_key_package. run_handler.
  destruct (url_safe_decode path) as [i|]; cbn [ok_or]; [|intros [= <- <-]; by left].
  destruct (ds_clients data !! i) as [c|] eqn:Hc; cbn [ok_or]; [|intros [= <- <-]; by left].
  destruct (Client.consume_kp c) as [[k|] c'] eqn:Ek; cbn [ok_or]; intros [= <- <-];
    cbn [DS.set_client DS.set_clients ds_clients]; (destruct (decide (i = id)) as [<-|Hne]; [|left; split; [by rewrite lookup_insert_ne|naive_solver]]).
  - right. rewrite lookup_insert_eq. split; [done|]. by exists c, k, c'.
  - left. rewrite lookup_insert_eq, Hc. split; [|done]. unfold Client.consume_kp in Ek. case_bool_decide; [by injection Ek as <-|].
    destruct (last _); [done|by injection Ek as <-].
Qed.

Lemma find_reserved_Some data order hash id client :
  DS.find_reserved data order hash = Some (id, client) ->
  ds_clients data !! id = Some client /\ hash ∈ ci_reserved_key_pkg_hash client.
Proof.
  unfold DS.find_reserved. intros H%head_Some_elem_of. apply list_elem_of_omap in H as (i & _ & H).
  apply bind_Some in H as (c & Hc & H). case_bool_decide; [|done]. by injection H as -> ->.
Qed.

Lemma find_reserved_None data order hash id client :
  DS.find_reserved data order hash = None -> id ∈ order -> ds_clients data !! id = Some client -> hash ∉ ci_reserved_key_pkg_hash client.
Proof.
  unfold DS.find_reserved. intros H Hi Hc Hh. apply head_None in H. apply (not_elem_of_nil (id, client)). rewrite <- H.
  apply list_elem_of_omap. exists id. split; [done|]. rewrite Hc. cbn. by rewrite bool_decide_true.
Qed.

Lemma store_welcome_spec order message secrets data r data' :
  DS.store_welcome order message secrets data = (r, data') ->
  (r = Ok (Status NoContent) /\ data' = data /\ forall id client hash, id ∈ order (ds_clients data) -> ds_clients data !! id = Some client ->
     hash ∈ egs_new_member <$> secrets -> hash ∉ ci_reserved_key_pkg_hash client) \/
  (r = Ok (Status StatusOk) /\ exists id client hash, hash ∈ egs_new_member <$> secrets /\ hash ∈ ci_reserved_key_pkg_hash client /\
     ds_clients data !! id = Some client /\ data' = DS.set_client data id (welcomed message hash client)).
Proof.
  induction secrets as [|secret secrets IH]; cbn [DS.store_welcome]; run_handler.
  { intros [= <- <-]. left. split_and!; [done..|]. intros id client hash _ _ []%elem_of_nil. }
  destruct (DS.find_reserved _ _ _) as [[i c]|] eqn:Hf.
  - apply find_reserved_Some in Hf as [Hc Hh]. intros [= <- <-]. right. split; [done|].
    exists i, c, (egs_new_member secret). split_and!; [left|done..].
  - intros E. destruct (IH E) as [(-> & -> & Hn)|(-> & i & c & h & Hh & H)]; [left|right].
    + split_and!; [done..|]. intros id client hash Hi Hc [->|Hh]%elem_of_cons; [by eapply find_reserved_None|by eapply Hn].
    + split; [done|]. exists i, c, h. split; [by right|done].
Qed.

Lemma store_welcome_effect order message secrets id data r data' :
  DS.store_welcome order message secrets data = (r, data') ->
  ds_groups data' = ds_groups data /\
  (ds_clients data' !! id = ds_clients data !! id \/
   (r = Ok (Status StatusOk) /\ exists client hash, hash ∈ egs_new_member <$> secrets /\ hash ∈ ci_reserved_key_pkg_hash client /\
     ds_clients data !! id = Some client /\ ds_clients data' !! id = Some (welcomed message hash client))).
Proof.
  intros [(-> & -> & _)|(-> & i & c & h & Hh & Hr & Hc & ->)]%store_welcome_spec; [auto|]. split; [done|].
  cbn [DS.set_client DS.set_clients ds_clients]. destruct (decide (i = id)) as [<-|Hne]; [right|left; by rewrite lookup_insert_ne].
  rewrite lookup_insert_eq. split; [done|]. by exists c, h.
Qed.

Lemma welcome_effect order body id data response data' :
  DS.handle data (DS.PostWelcome order body) = (response, data') ->
  effect (DS.PostWelcome order body) response id (ds_clients data !! id) (ds_clients data' !! id).
Proof.
  unfold DS.handle. cbn [DS.route effect]. unfold DS.send_welcome. run_handler.
  destruct (read_mls_message body) as [[[v m] rest]|]; cbn [ok_or]; [|intros [= <- <-]; by left].
  destruct m as [m|m|w|g|k]; cbn [returns]; try (intros [= <- <-]; by left).
  destruct (DS.store_welcome _ _ _ _) as [r d] eqn:E. apply (store_welcome_effect _ _ _ id) in E as [_ [Hc|(-> & c & h & Hh & Hr & Hc & Hd)]].
  - intros H. left. destruct r; by injection H as <- <-.
  - intros [= <- <-]. right. split; [done|]. by exists v, w, rest, c, h.
Qed.

Lemma check_epoch_clients m data r data' : DS.check_epoch m data = (r, data') -> ds_clients data' = ds_clients data /\
  match r with Ok _ => True | Err e => e = Status Conflict /\ data' = data | Panic => False end.
Proof.
  unfold DS.check_epoch. run_handler. destruct (PMsg.is_handshake_message m); [|by intros [= <- <-]].
  destruct (match ds_groups data !! PMsg.group_id m with Some _ => _ | None => _ end); by intros [= <- <-].
Qed.

Lemma message_effect body id data response data' :
  DS.handle data (DS.PostMessage body) = (response, data') ->
  effect (DS.PostMessage body) response id (ds_clients data !! id) (ds_clients data' !! id).
Proof.
  unfold DS.handle. cbn [DS.route effect]. unfold DS.msg_send. run_handler.
  destruct (read_group_message body) as [[gm rest]|]; cbn [ok_or]; [|by intros [= <- <-]].
  destruct (DS.protocol_message (gm_msg gm)) as [pm|] eqn:Hp; cbn [returns].
  2: { intros [= <- <-]. exists 0%nat. split_and!; [lia|apply add_msgs_none|done|done]. }
  destruct (DS.check_epoch pm data) as [r1 d1] eqn:Ec. apply check_epoch_clients in Ec as [Hc He].
  destruct r1 as [[]|e|]; [|destruct He as [-> ->]; intros [= <- <-]; exists 0%nat; split_and!; [lia|apply add_msgs_none|done|done]|done].
  destruct (DS.deliver _ _ _) as [r d] eqn:E. apply (deliver_effect _ _ id) in E as (_ & n & Hn & Hd & Hr). rewrite Hc in Hd, Hr.
  intros H. assert (data' = d) as -> by (by destruct r; injection H). exists n. split_and!; [done|done|by eexists|].
  destruct r as [x|x|]; [|subst x; by injection H as <-|done]. destruct Hr as (_ & -> & Hr). by intros _.
Qed.

Lemma recv_effect path body id data response data' :
  DS.handle data (DS.GetMessages path body) = (response, data') ->
  effect (DS.GetMessages path body) response id (ds_clients data !! id) (ds_clients data' !! id).
Proof.
  unfold DS.handle. cbn [DS.route effect]. unfold DS.msg_recv. run_handler.
  destruct (url_safe_decode path) as [i|]; cbn [ok_or]; [|intros [= <- <-]; by left].
  destruct (ds_clients data !! i) as [c|] eqn:Hc; cbn [ok_or]; [|intros [= <- <-]; by left].
  destruct (tls_read_vlbytes body) as [[t rest]|]; cbn [ok_or]; [|intros [= <- <-]; by left].
  case_bool_decide as Ht; cbn [negb]; [subst t|intros [= <- <-]; by left]. intros [= <- <-].
  cbn [DS.set_client DS.set_clients ds_clients].
  destruct (decide (i = id)) as [<-|Hne]; [|left; split; [by rewrite lookup_insert_ne|naive_solver]].
  right. rewrite lookup_insert_eq. split; [done|]. by exists c, rest.
Qed.

(** What every request does. *)
Lemma handle_effect request id data response data' :
  DS.handle data request = (response, data') -> effect request response id (ds_clients data !! id) (ds_clients data' !! id).
Proof.
  destruct request; eauto using register_effect, publish_effect, consume_effect, welcome_effect, message_effect, recv_effect.
  - by intros [= <- <-].
  - unfold DS.handle. cbn [DS.route effect]. unfold DS.reset. run_handler.
    destruct (match reset_key with Some _ => _ | None => _ end); intros [= <- <-]; [by left|right; split; [done|apply lookup_empty]].
  - unfold DS.handle. cbn [DS.route effect]. unfold DS.get_key_packages. run_handler.
    destruct (url_safe_decode path); cbn [ok_or]; [|by intros [= <- <-]]. destruct (ds_clients data !! _); by intros [= <- <-].
Qed.

(** ** Runs *)
Definition event : Type := DS.Request * option Response.

Fixpoint serve data (requests : list DS.Request) : list event * DsData :=
  match requests with
  | [] => ([], data)
  | request :: requests =>
      let '(response, data) := DS.handle data request in
      let '(log, data) := serve data requests in ((request, response) :: log, data)
  end.

(** An invariant of all requests holds after a run. *)
Lemma serve_invariant (P : DsData -> Prop) requests data log data' :
  (forall request d r d', DS.handle d request = (r, d') -> P d -> P d') ->
  serve data requests = (log, data') -> P data -> P data'.
Proof.
  intros HP. revert data log. induction requests as [|request requests IH]; intros data log; cbn [serve]; [by intros [= <- <-]|].
  destruct (DS.handle data request) as [r d] eqn:E. destruct (serve d requests) as [log1 d1] eqn:Es. intros [= <- <-] H.
  eapply IH; [exact Es|]. by eapply HP.
Qed.

(** *** Key packages *)
Definition published id (e : event) : ClientKeyPackages :=
  match e with
  | (DS.PostRegister token body, (None | Some (Body _))) =>
      match read_client_key_packages body with
      | Some (key_packages, _) =>
          match Client.new token key_packages with
          | Some client => if bool_decide (ci_id client = id) then key_packages else []
          | None => []
          end
      | None => []
      end
  | (DS.PostKeyPackages path body, Some (Status StatusOk)) =>
      match read_publish_request body with
      | Some (req, _) => if bool_decide (url_safe_decode path = Some id) then pk_key_packages req else []
      | None => []
      end
  | _ => []
  end.

Definition handed_out id (e : event) : list KeyPackage :=
  match e with
  | (DS.GetKeyPackage path, Some (Body (KeyPackageBody key_package))) =>
      if bool_decide (url_safe_decode path = Some id) then [key_package] else []
  | _ => []
  end.

Definition stored data id : ClientKeyPackages := default [] (ci_key_packages <$> ds_clients data !! id).

Lemma consume_kp_Some c k c' :
  Client.consume_kp c = (Some k, c') ->
  exists h, ci_key_packages c = ci_key_packages c' ++ [(h, k)] /\ ci_key_packages c' <> [] /\ ci_id c' = ci_id c /\
    ci_reserved_key_pkg_hash c' = {[h]} ∪ ci_reserved_key_pkg_hash c /\ ci_msgs c' = ci_msgs c /\ ci_welcome_queue c' = ci_welcome_queue c.
Proof.
  unfold Client.consume_kp. case_bool_decide as Hl; [done|]. destruct (last (ci_key_packages c)) as [[h k']|] eqn:El; [|done].
  intros [= <- <-]. apply last_Some in El as [l' El]. exists h. cbn. rewrite El, length_app in *. cbn in Hl |- *.
  replace (length l' + 1 - 1)%nat with (length l') by lia. rewrite take_app_length. split_and!; try done.
  intros ->. cbn in Hl. lia.
Qed.

Lemma published_respond id path r : published id (DS.GetKeyPackage path, r) = [].
Proof. done. Qed.

(** One request hands out what is stored, and stores what is published. *)
Lemma effect_key_packages request response id o o' :
  effect request response id o o' ->
  handed_out id (request, response) ++ (snd <$> default [] (ci_key_packages <$> o')) ⊆+
    (snd <$> default [] (ci_key_packages <$> o)) ++ (snd <$> published id (request, response)).
Proof.
  destruct request as [t b|od|key|path|path b|path|od b|b|path b]; cbn [effect handed_out].
  - intros [->|(-> & Hr & kps & rest & c & Hb & Hc & <- & ->)]; [by apply submseteq_inserts_r|].
    unfold published. rewrite Hb, Hc, bool_decide_true by done. unfold Client.new in Hc. apply bind_Some in Hc as (k & _ & [= <-]). cbn.
    destruct response as [[s|p]|]; [by destruct (Hr s)|done..].
  - intros ->. by apply submseteq_inserts_r.
  - intros [->|[_ ->]]; [by apply submseteq_inserts_r|apply submseteq_nil_l].
  - intros ->. by apply submseteq_inserts_r.
  - intros [->|(-> & Hp & req & rest & c & Hb & -> & _ & ->)]; [by apply submseteq_inserts_r|].
    unfold published. rewrite Hb, bool_decide_true by done. change (default [] (ci_key_packages <$> Some ?x)) with (ci_key_packages x). cbn [ci_key_packages Client.set_key_packages]. by rewrite fmap_app.
  - rewrite published_respond. cbn [fmap list_fmap]. rewrite app_nil_r. intros [[-> Hr]|(Hp & c & k & c' & -> & Hk & -> & ->)].
    + destruct response as [[|[]]|]; try done. case_bool_decide as Hp; [by destruct (Hr Hp key_package)|done].
    + apply consume_kp_Some in Hk as (h & Hk & _). change (default [] (ci_key_packages <$> Some ?x)) with (ci_key_packages x). rewrite Hk, fmap_app.
      unfold DS.respond. destruct (DS.encode _); [rewrite bool_decide_true by done|by apply submseteq_inserts_r].
      apply Permutation_submseteq, (Permutation_app_comm [k]).
  - intros [->|(_ & v & w & rest & c & h & _ & _ & _ & -> & ->)]; by apply submseteq_inserts_r.
  - destruct (read_group_message b) as [[gm rest]|]; [|intros [-> _]; by apply submseteq_inserts_r].
    intros (n & _ & -> & _). apply submseteq_inserts_r. by destruct o.
  - intros [[-> _]|(_ & c & rest & -> & _ & -> & _)]; by apply submseteq_inserts_r.
Qed.

Lemma serve_key_packages requests id data log data' :
  serve data requests = (log, data') ->
  (log ≫= handed_out id) ++ (snd <$> stored data' id) ⊆+ (snd <$> stored data id) ++ (snd <$> (log ≫= published id)).
Proof.
  revert data log. induction requests as [|request requests IH]; intros data log; cbn [serve].
  { intros [= <- <-]. cbn. by rewrite app_nil_r. }
  destruct (DS.handle data request) as [r d] eqn:E. destruct (serve d requests) as [log1 d1] eqn:Es. intros [= <- <-].
  apply (handle_effect _ id), effect_key_packages in E. fold (stored d id) (stored data id) in E. specialize (IH _ _ Es).
  cbn [mbind list_bind]. rewrite fmap_app, <- app_assoc. etransitivity; [apply submseteq_skips_l, IH|].
  rewrite !app_assoc. by apply submseteq_skips_r.
Qed.

(** Every client keeps a key package. *)
Definition keeps_one data : Prop := forall id c, ds_clients data !! id = Some c -> ci_key_packages c <> [].

Lemma handle_keeps_one request data r data' : DS.handle data request = (r, data') -> keeps_one data -> keeps_one data'.
Proof.
  intros E Hk id c Hc. apply (handle_effect _ id) in E. rewrite Hc in E. pose proof (Hk id) as Hk'. clear Hk Hc. rename Hk' into Hk. revert E Hk. generalize (ds_clients data !! id) as o. intros o E Hk.
  destruct request as [t b|od|key|path|path b|path|od b|b|path b]; cbn [effect] in E.
  - destruct E as [<-|(_ & _ & kps & rest & c' & _ & Hn & _ & [= <-])]; [by apply Hk|].
    unfold Client.new in Hn. apply bind_Some in Hn as (k & Hl & [= <-]). cbn. by intros ->.
  - by apply Hk.
  - destruct E as [<-|[_ [=]]]. by apply Hk.
  - by apply Hk.
  - destruct E as [<-|(_ & _ & req & rest & c' & _ & Ho & _ & [= ->])]; [by apply Hk|]. cbn. intros [H _]%app_eq_nil. by apply (Hk c').
  - destruct E as [[<- _]|(_ & c0 & k & c' & _ & Ek & [= <-] & _)]; [by apply Hk|]. by apply consume_kp_Some in Ek as (h & _ & H & _).
  - destruct E as [<-|(_ & v & w & rest & c' & h & _ & _ & _ & Ho & [= ->])]; [by apply Hk|]. exact (Hk c' Ho).
  - destruct (read_group_message b) as [[gm rest]|]; [|destruct E as [<- _]; by apply Hk].
    destruct E as (n & _ & E & _). destruct o as [c'|]; [|done]. injection E as ->. exact (Hk c' eq_refl).
  - destruct E as [[<- _]|(_ & c' & rest & Ho & _ & [= ->] & _)]; [by apply Hk|]. exact (Hk c' Ho).
Qed.

(** *** Mail *)

(** Group messages, as opposed to Welcomes. *)
Definition is_group_message (m : MlsMessageIn) : Prop := is_Some (DS.protocol_message m).
#[local] Instance is_group_message_dec m : Decision (is_group_message m).
Proof. unfold is_group_message. apply _. Defined.

(** What is sent to [id] by a request, and what a request answered with success promised. *)
Definition sent_to id (e : event) : list MlsMessageIn :=
  match e with
  | (DS.PostMessage body, _) =>
      match read_group_message body with Some (gm, _) => replicate (count id (gm_recipients gm)) (gm_msg gm) | None => [] end
  | _ => []
  end.
Definition promised_to id (e : event) : list MlsMessageIn :=
  match e.2 with Some (Status StatusOk) => sent_to id e | _ => [] end.
Definition received_by id (e : event) : list MlsMessageIn :=
  match e with
  | (DS.GetMessages path _, Some (Body (MessagesBody messages))) =>
      if bool_decide (url_safe_decode path = Some id) then filter is_group_message messages else []
  | _ => []
  end.

(** The two requests by which queued messages can be lost. *)
Definition keeps_mail id (e : event) : Prop :=
  match e with
  | (DS.GetReset _, Some (Status StatusOk)) => False
  | (DS.GetMessages path _, Some (Status InternalServerError)) => url_safe_decode path <> Some id
  | _ => True
  end.

Definition pending (o : option ClientInfo) : list MlsMessageIn := default [] (ci_msgs <$> o).
Definition queues_ok (o : option ClientInfo) : Prop :=
  forall c, o = Some c -> Forall is_group_message (ci_msgs c) /\ Forall (fun m => ~ is_group_message m) (ci_welcome_queue c).

Lemma effect_queues_ok request response id o o' : effect request response id o o' -> queues_ok o -> queues_ok o'.
Proof.
  intros E Hq. destruct request as [t b|od|key|path|path b|path|od b|b|path b]; cbn [effect] in E.
  - destruct E as [->|(_ & _ & kps & rest & c' & _ & Hn & _ & ->)]; [done|]. intros c [= <-].
    unfold Client.new in Hn. by apply bind_Some in Hn as (k & Hl & [= <-]).
  - by subst o'.
  - by destruct E as [->|[_ ->]].
  - by subst o'.
  - destruct E as [->|(_ & _ & req & rest & c' & _ & -> & _ & ->)]; [done|]. intros c [= <-]. by apply (Hq c').
  - destruct E as [[-> _]|(_ & c0 & k & c' & -> & Ek & -> & _)]; [done|]. intros c [= <-].
    apply consume_kp_Some in Ek as (h & _ & _ & _ & _ & -> & ->). by apply Hq.
  - destruct E as [->|(_ & v & w & rest & c' & h & _ & _ & _ & -> & ->)]; [done|]. intros c [= <-]. destruct (Hq c' eq_refl) as [H1 H2].
    split; [done|]. cbn. apply Forall_app. split; [done|]. constructor; [|done]. by intros [? [=]].
  - destruct (read_group_message b) as [[gm rest]|]; [|by destruct E as [-> _]].
    destruct E as (n & _ & -> & Hp & _). destruct o as [c'|]; [|done]. intros c [= <-]. destruct (Hq c' eq_refl) as [H1 H2].
    split; [|done]. cbn. apply Forall_app. split; [done|]. destruct n; [by constructor|]. apply Forall_replicate. by apply Hp.
  - destruct E as [[-> _]|(_ & c' & rest & -> & _ & -> & _)]; [done|]. by intros c [= <-].
Qed.

Lemma queues_filter c : queues_ok (Some c) -> filter is_group_message (ci_welcome_queue c ++ ci_msgs c) = ci_msgs c.
Proof.
  intros Hq. destruct (Hq c eq_refl) as [H1 H2]. rewrite filter_app.
  assert (filter is_group_message (ci_welcome_queue c) = []) as ->; [|by apply filter_all].
  clear H1 Hq. induction H2 as [|m l Hm _ IH]; [done|]. by rewrite filter_cons_False.
Qed.

(** One request: nothing is delivered but what was queued or sent. *)
Lemma effect_mail_safe request response id o o' :
  effect request response id o o' -> queues_ok o ->
  received_by id (request, response) ++ pending o' `sublist_of` pending o ++ sent_to id (request, response).
Proof.
  intros E Hq. destruct request as [t b|od|key|path|path b|path|od b|b|path b]; cbn [effect received_by sent_to] in *; rewrite ?app_nil_r.
  - destruct E as [->|(-> & _ & kps & rest & c' & _ & Hn & _ & ->)]; [done|]. unfold Client.new in Hn. by apply bind_Some in Hn as (k & Hl & [= <-]).
  - by subst o'.
  - destruct E as [->|[_ ->]]; [done|]. apply sublist_nil_l.
  - by subst o'.
  - by destruct E as [->|(_ & _ & req & rest & c' & _ & -> & _ & ->)].
  - destruct E as [[-> _]|(_ & c0 & k & c' & -> & Ek & -> & _)]; [done|]. apply consume_kp_Some in Ek as (h & _ & _ & _ & _ & Hm & _).
    cbn. by rewrite Hm.
  - by destruct E as [->|(_ & v & w & rest & c' & h & _ & _ & _ & -> & ->)].
  - destruct (read_group_message b) as [[gm rest]|]; [|by destruct E as [-> _]; rewrite app_nil_r].
    destruct E as (n & Hn & -> & _). destruct o as [c'|]; [|apply sublist_nil_l]. cbn. apply sublist_app; [done|].
    replace (count id (gm_recipients gm)) with (n + (count id (gm_recipients gm) - n))%nat by lia. rewrite replicate_add.
    by apply sublist_inserts_r.
  - destruct E as [[-> Hr]|(Hp & c' & rest & -> & _ & -> & ->)].
    + destruct response as [[|[]]|]; try done. case_bool_decide as Hp; [by destruct (Hr Hp messages)|done].
    + unfold DS.respond. destruct (DS.encode _); [|apply sublist_nil_l]. rewrite bool_decide_true, (queues_filter c' Hq) by done.
      cbn. by rewrite app_nil_r.
Qed.

(** One request: all that was queued or promised is delivered or stays queued. *)
Lemma effect_mail_live request response id o o' :
  effect request response id o o' -> queues_ok o -> keeps_mail id (request, response) ->
  pending o ++ promised_to id (request, response) `sublist_of` received_by id (request, response) ++ pending o'.
Proof.
  intros E Hq Hk. unfold promised_to.
  destruct request as [t b|od|key|path|path b|path|od b|b|path b]; cbn [effect received_by sent_to fst snd] in *;
    try (replace (match response with Some (Status StatusOk) => _ | _ => _ end) with (@nil MlsMessageIn) by (by destruct response as [[[]|]|]));
    rewrite ?app_nil_r.
  - destruct E as [->|(-> & _)]; [done|apply sublist_nil_l].
  - by subst o'.
  - destruct E as [->|[-> _]]; done.
  - by subst o'.
  - by destruct E as [->|(_ & _ & req & rest & c' & _ & -> & _ & ->)].
  - destruct E as [[-> _]|(_ & c0 & k & c' & -> & Ek & -> & _)]; [done|]. apply consume_kp_Some in Ek as (h & _ & _ & _ & _ & Hm & _).
    cbn. by rewrite Hm.
  - by destruct E as [->|(_ & v & w & rest & c' & h & _ & _ & _ & -> & ->)].
  - destruct (read_group_message b) as [[gm rest]|]; [|by destruct E as [-> ->]; cbn; rewrite app_nil_r].
    destruct E as (n & Hn & -> & _ & Hr). cbn [app]. destruct response as [[[]|]|]; rewrite ?app_nil_r;
      try (destruct o; [cbn; by apply sublist_inserts_r|done]).
    destruct (Hr eq_refl) as [-> Hs]. destruct o as [c'|]; [done|]. destruct (count id (gm_recipients gm)); [done|].
    by destruct (Hs ltac:(lia)) as [? [=]].
  - destruct E as [[-> _]|(Hp & c' & rest & -> & _ & -> & ->)]; [by apply sublist_inserts_l|].
    unfold DS.respond in *. destruct (DS.encode _); [|by destruct Hk]. rewrite bool_decide_true, (queues_filter c' Hq) by done.
    cbn. by rewrite app_nil_r.
Qed.

Lemma serve_mail requests id data log data' :
  serve data requests = (log, data') -> queues_ok (ds_clients data !! id) ->
  (log ≫= received_by id) ++ pending (ds_clients data' !! id) `sublist_of` pending (ds_clients data !! id) ++ (log ≫= sent_to id) /\
  (Forall (keeps_mail id) log ->
   pending (ds_clients data !! id) ++ (log ≫= promised_to id) `sublist_of` (log ≫= received_by id) ++ pending (ds_clients data' !! id)).
Proof.
  revert data log. induction requests as [|request requests IH]; intros data log; cbn [serve].
  { intros [= <- <-] _. cbn. by rewrite app_nil_r. }
  destruct (DS.handle data request) as [r d] eqn:E. destruct (serve d requests) as [log1 d1] eqn:Es. intros [= <- <-] Hq.
  apply (handle_effect _ id) in E. destruct (IH _ _ Es (effect_queues_ok _ _ _ _ _ E Hq)) as [IH1 IH2].
  pose proof (effect_mail_safe _ _ _ _ _ E Hq) as H1. pose proof (effect_mail_live _ _ _ _ _ E Hq) as H2. cbn [mbind list_bind]. split.
  - rewrite <- app_assoc. etransitivity; [apply sublist_app; [reflexivity|exact IH1]|]. rewrite !app_assoc. by apply sublist_app.
  - intros [Hk Hks]%Forall_cons. etransitivity; [|rewrite <- app_assoc; apply sublist_app; [reflexivity|exact (IH2 Hks)]].
    rewrite !app_assoc. apply sublist_app; [by apply H2|done].
Qed.

(** *** Epochs of groups *)
Definition accepted_epoch (group_id : bytes) (e : event) : list Z :=
  match e with
  | (DS.PostMessage body, Some (Status StatusOk)) =>
      match read_group_message body with
      | Some (gm, _) =>
          match DS.protocol_message (gm_msg gm) with
          | Some m => if PMsg.is_handshake_message m && bool_decide (PMsg.group_id m = group_id) then [PMsg.epoch m] else []
          | None => []
          end
      | None => []
      end
  | _ => []
  end.

Definition no_reset (e : event) : Prop := match e with (DS.GetReset _, Some (Status StatusOk)) => False | _ => True end.

(** Later epochs are at least those that were seen. *)
Definition at_least (o : option Z) (n : Z) : Prop := forall e, o = Some e -> e <= n.

Lemma check_epoch_effect m g data data' :
  DS.check_epoch m data = (Ok tt, data') ->
  if PMsg.is_handshake_message m && bool_decide (PMsg.group_id m = g)
  then ds_groups data' !! g = Some (PMsg.epoch m) /\ at_least (ds_groups data !! g) (PMsg.epoch m)
  else ds_groups data' !! g = ds_groups data !! g.
Proof.
  unfold DS.check_epoch. run_handler. destruct (PMsg.is_handshake_message m); cbn [andb]; [|by intros [= <-]].
  destruct (ds_groups data !! PMsg.group_id m) as [e|] eqn:Hg; [destruct (Z.gtb_spec e (PMsg.epoch m)); [done|]|]; intros [= <-];
    cbn [ds_groups]; (case_bool_decide as Hi; [subst g; rewrite lookup_insert_eq, Hg|by rewrite lookup_insert_ne]);
    (split; [done|]); intros x [= <-]; lia.
Qed.

Lemma message_groups body g data response data' :
  DS.handle data (DS.PostMessage body) = (response, data') ->
  Forall (fun e => ds_groups data' !! g = Some e /\ at_least (ds_groups data !! g) e) (accepted_epoch g (DS.PostMessage body, response)) /\
  (forall n, at_least (ds_groups data' !! g) n -> at_least (ds_groups data !! g) n).
Proof.
  unfold DS.handle. cbn [DS.route accepted_epoch]. unfold DS.msg_send. run_handler.
  destruct (read_group_message body) as [[gm rest]|]; cbn [ok_or]; [|intros [= <- <-]; split; [constructor|done]].
  destruct (DS.protocol_message (gm_msg gm)) as [m|]; cbn [returns]; [|intros [= <- <-]; split; [constructor|done]].
  destruct (DS.check_epoch m data) as [r1 d1] eqn:Ec. pose proof (check_epoch_clients _ _ _ _ Ec) as [_ He].
  destruct r1 as [[]|e|]; [|destruct He as [-> ->]; intros [= <- <-]; split; [constructor|done]|done].
  apply (check_epoch_effect m g) in Ec. destruct (DS.deliver _ _ _) as [r d] eqn:E. apply (deliver_effect _ _ []) in E as [Hg _].
  intros H. assert (data' = d) as -> by (by destruct r; injection H). rewrite Hg.
  destruct (PMsg.is_handshake_message m && _).
  - destruct Ec as [-> Ha]. split; [|intros n Hn x Hx; specialize (Ha x Hx); specialize (Hn _ eq_refl); lia].
    destruct response as [[[]|]|]; repeat constructor; done.
  - rewrite Ec. split; [destruct response as [[[]|]|]; constructor|done].
Qed.

Lemma other_groups request data response data' :
  DS.handle data request = (response, data') -> no_reset (request, response) ->
  match request with DS.PostMessage _ => True | _ => ds_groups data' = ds_groups data end.
Proof.
  destruct request as [t b|od|key|path|path b|path|od b|b|path b]; unfold DS.handle; cbn [DS.route]; [| | | | | |intros E _|done|].
  - unfold DS.register_client. run_handler. destruct (read_client_key_packages b) as [[]|]; cbn [ok_or]; [|by intros [= <- <-]].
    case_bool_decide; [by intros [= <- <-]|]. destruct (Client.new _ _); cbn [returns]; [|by intros [= <- <-]].
    case_bool_decide; [by intros [= <- <-]|]. destruct (DS.encode _); by intros [= <- <-].
  - unfold DS.list_clients. run_handler. by intros [= <- <-].
  - unfold DS.reset. run_handler. destruct (match key with Some _ => _ | None => _ end); by intros [= <- <-].
  - unfold DS.get_key_packages. run_handler. destruct (url_safe_decode path); cbn [ok_or]; [|by intros [= <- <-]].
    destruct (ds_clients data !! _); by intros [= <- <-].
  - unfold DS.publish_key_packages. run_handler. destruct (url_safe_decode path); cbn [ok_or]; [|by intros [= <- <-]].
    destruct (ds_clients data !! _) eqn:Hc; cbn [ok_or]; [|by intros [= <- <-]]. destruct (read_publish_request b) as [[]|]; cbn [ok_or]; [|by intros [= <- <-]].
    case_bool_decide; cbn [negb]; [rewrite Hc|]; by intros [= <- <-].
  - unfold DS.consume_key_package. run_handler. destruct (url_safe_decode path); cbn [ok_or]; [|by intros [= <- <-]].
    destruct (ds_clients data !! _); cbn [ok_or]; [|by intros [= <- <-]]. destruct (Client.consume_kp _) as [[|] ?]; by intros [= <- <-].
  - revert E. unfold DS.send_welcome. run_handler. destruct (read_mls_message b) as [[[v m] rest]|]; cbn [ok_or]; [|by intros [= <- <-]].
    destruct m; cbn [returns]; try by intros [= <- <-].
    destruct (DS.store_welcome _ _ _ _) as [r d] eqn:E. apply (store_welcome_effect _ _ _ []) in E as [<- _]. by destruct r; intros [= <- <-].
  - unfold DS.msg_recv. run_handler. destruct (url_safe_decode path); cbn [ok_or]; [|by intros [= <- <-]].
    destruct (ds_clients data !! _); cbn [ok_or]; [|by intros [= <- <-]]. destruct (tls_read_vlbytes b) as [[]|]; cbn [ok_or]; [|by intros [= <- <-]].
    case_bool_decide; by intros [= <- <-].
Qed.

Lemma handle_groups request g data response data' :
  DS.handle data request = (response, data') -> no_reset (request, response) ->
  Forall (fun e => ds_groups data' !! g = Some e /\ at_least (ds_groups data !! g) e) (accepted_epoch g (request, response)) /\
  (forall n, at_least (ds_groups data' !! g) n -> at_least (ds_groups data !! g) n).
Proof.
  intros E Hn. pose proof (other_groups _ _ _ _ E Hn) as Ho. destruct request; try (rewrite Ho; split; [constructor|done]).
  by apply (message_groups _ g) in E.
Qed.

Lemma serve_epochs requests g data log data' :
  serve data requests = (log, data') -> Forall no_reset log ->
  StronglySorted Z.le (log ≫= accepted_epoch g) /\ Forall (at_least (ds_groups data !! g)) (log ≫= accepted_epoch g).
Proof.
  revert data log. induction requests as [|request requests IH]; intros data log; cbn [serve].
  { intros [= <- <-] _. split; constructor. }
  destruct (DS.handle data request) as [r d] eqn:E. destruct (serve d requests) as [log1 d1] eqn:Es. intros [= <- <-] [Hn Hns]%Forall_cons.
  destruct (IH _ _ Es Hns) as [H1 H2]. destruct (handle_groups _ g _ _ _ E Hn) as [H3 H4]. cbn [mbind list_bind].
  assert (Forall (at_least (ds_groups data !! g)) (log1 ≫= accepted_epoch g)) as H5 by (eapply Forall_impl; [exact H2|exact H4]).
  split; [|apply Forall_app; split; [|done]; eapply Forall_impl; [exact H3|]; by intros e [_ ?]].
  assert (accepted_epoch g (request, r) = [] \/ exists e, accepted_epoch g (request, r) = [e]) as [->|[e He]].
  { destruct request; try by left. unfold accepted_epoch. destruct r as [[[]|]|]; try by left. destruct (read_group_message _) as [[]|]; [|by left].
    destruct (DS.protocol_message _); [|by left]. destruct (_ && _); [right; by eexists|by left]. }
  { done. }
  rewrite He in *. constructor; [done|]. apply Forall_cons in H3 as [[H3 _] _]. eapply Forall_impl; [exact H2|]. intros n Hx. by apply Hx.
Qed.

(** ** Properties *)

(** C32. Key packages are used once: whatever requests are made of a new service, the key
    packages handed out for a client, together with those still stored for it, are among
    those that were published for it, counted with multiplicity; and the last key package of
    a client is never handed out. *)
Theorem key_packages_once requests id :
  let '(log, data) := serve DS.default requests in
  (log ≫= handed_out id) ++ (snd <$> stored data id) ⊆+ snd <$> (log ≫= published id) /\
  forall client, ds_clients data !! id = Some client -> ci_key_packages client <> [].
Proof.
  destruct (serve DS.default requests) as [log data] eqn:E. split.
  - exact (serve_key_packages _ id _ _ _ E).
  - eapply (serve_invariant keeps_one) in E; [apply E|exact handle_keeps_one|by intros ? ?].
Qed.

(** C31. Mail: whatever requests are made of a new service, a client receives only group messages
    that were sent to it, in the order in which they were sent and none twice. If the
    service is not reset and no retrieval of the client fails, every message that was
    accepted for the client has been received or is still queued, in order. *)
Theorem mail_in_order requests id :
  let '(log, data) := serve DS.default requests in
  let mail := (log ≫= received_by id) ++ pending (ds_clients data !! id) in
  mail `sublist_of` log ≫= sent_to id /\
  (Forall (keeps_mail id) log -> log ≫= promised_to id `sublist_of` mail).
Proof.
  destruct (serve DS.default requests) as [log data] eqn:E. by apply (serve_mail _ id) in E as [H1 H2].
Qed.

(** C33. Epochs: until the service is reset, the handshake messages of a group that it accepts
    have epochs that never decrease. *)
Theorem handshakes_in_order requests group_id :
  let '(log, _) := serve DS.default requests in
  Forall no_reset log -> StronglySorted Z.le (log ≫= accepted_epoch group_id).
Proof.
  destruct (serve DS.default requests) as [log data] eqn:E. intros H. by apply (serve_epochs _ group_id) in E as [? _].
Qed.

(** C34. A Welcome is stored for one client: however many key packages it has secrets for, at most
    one client gets it, the key package of that client is no longer reserved, and no other
    client changes; no client gets it only if none has one of the key packages reserved. A
    request that is not a Welcome is answered with an error or panics, and changes nothing. *)
Theorem welcome_stored_once order body data :
  let '(response, data') := DS.handle data (DS.PostWelcome order body) in
  match read_mls_message body with
  | Some (version, InWelcome w, _) =>
      (response = Some (Status NoContent) /\ data' = data /\
       forall id client hash, id ∈ order (ds_clients data) -> ds_clients data !! id = Some client ->
         hash ∈ egs_new_member <$> welcome_secrets w -> hash ∉ ci_reserved_key_pkg_hash client) \/
      (response = Some (Status StatusOk) /\ exists id client hash,
        hash ∈ egs_new_member <$> welcome_secrets w /\ hash ∈ ci_reserved_key_pkg_hash client /\ ds_clients data !! id = Some client /\
        data' = DS.set_client data id (welcomed (version, InWelcome w) hash client))
  | Some _ => response = None /\ data' = data
  | None => response = Some (Status InternalServerError) /\ data' = data
  end.
Proof.
  destruct (DS.handle _ _) as [response data'] eqn:E. revert E. unfold DS.handle. cbn [DS.route]. unfold DS.send_welcome. run_handler.
  destruct (read_mls_message body) as [[[v m] rest]|]; cbn [ok_or]; [|by intros [= <- <-]].
  destruct m as [m|m|w|g|k]; cbn [returns]; try by intros [= <- <-].
  destruct (DS.store_welcome _ _ _ _) as [r d] eqn:E. apply store_welcome_spec in E as [(-> & -> & Hn)|(-> & H)]; intros [= <- <-]; auto.
Qed.
End Service.
