(* ===== verification/MemberMessagesFacts.v ===== *)
(** * Groups of a member: messages

    What a member signs and encrypts for the group, and what it comes down to when another
    member of the epoch processes it: the answer of that member's secret tree decides. *)
From S2P Require Import Prelude TreeMath TreeMathFacts BinaryTree Crypto CryptoFacts SenderRatchet SenderRatchetFacts SecretTree SecretTreeFacts SecretTreeProgress PastSecrets Extensions TreeSync LeafNode TreeKem Proposals KeySchedule Framing PrivateMessages ProposalStore PublicGroup StagedCommit MessageValidation MemberGroup MemberCommit MemberProcessing PrivateMessagesFacts.

(** ** Members of an epoch *)
Definition secret_tree_of (self : MlsGroup) : SecretTree := secret_tree (MGroup.current_secrets self).

Definition with_tree (self : MlsGroup) (t : SecretTree) : MlsGroup :=
  MGroup.set_current_secrets self (set_secret_tree (MGroup.current_secrets self) t).

Section Delivery.
Context {OC : OpenMlsCrypto} {TC : TlsCodec} {CD : ContentDecoder}.
Context {LK : LawfulKdf} {LA : LawfulAead} {LC : LawfulCodec}.

(** The group's secrets are those of an epoch with encryption secret [es] and [2 ^ d] leaves. *)
Record member_ok (d : Z) (es : Secret) (self : MlsGroup) : Prop := {
  ok_depth : 0 <= d <= 29;
  ok_config : wf_config (sender_ratchet_configuration (mls_group_config self));
  ok_own : 0 <= own_leaf_index self < 2 ^ d;
  ok_context : tls_group_context (MGroup.context self) = Some (serialized_context (MGroup.current_secrets self));
  ok_tree : tree_inv (MGroup.ciphersuite self) (sender_ratchet_configuration (mls_group_config self)) d es
              (own_leaf_index self) (secret_tree_of self);
}.

(** Two members of the same epoch. *)
Record in_step (d : Z) (es : Secret) (ga gb : MlsGroup) : Prop := {
  step_a : member_ok d es ga;
  step_b : member_ok d es gb;
  step_context : MGroup.context ga = MGroup.context gb;
  step_sender_data : sender_data_secret (MGroup.current_secrets ga) = sender_data_secret (MGroup.current_secrets gb);
}.

(** [gb] holds the leaf of member [a], whose signing key is [signer]. *)
Record knows (gb : MlsGroup) (a : LeafNodeIndex.t) (leaf : LeafNode) (signer : bytes -> option bytes) : Prop := {
  knows_leaf : TSync.leaf (pg_treesync (public_group gb)) a = Some leaf;
  knows_in_tree : TSync.is_leaf_in_tree (pg_treesync (public_group gb)) a = true;
  knows_signer : signs_for (Suite.signature_algorithm (MGroup.ciphersuite gb)) (payload_signature_key (payload leaf)) signer;
}.

Lemma member_ok_with_tree d es self t :
  member_ok d es self ->
  tree_inv (MGroup.ciphersuite self) (sender_ratchet_configuration (mls_group_config self)) d es (own_leaf_index self) t ->
  member_ok d es (with_tree self t).
Proof. intros [H1 H2 H3 H4 H5] Ht. by split. Qed.

Lemma in_step_with_trees d es ga gb ta tb :
  in_step d es ga gb -> member_ok d es (with_tree ga ta) -> member_ok d es (with_tree gb tb) ->
  in_step d es (with_tree ga ta) (with_tree gb tb).
Proof. intros [_ _ H3 H4] Ha Hb. by split. Qed.

(** ** Sending *)

(** A message in flight: what was signed and how it was encrypted. *)
Record sent (ga : MlsGroup) (body : FramedContentBody) (signer : bytes -> option bytes) (m : PrivateMessage) (g : Z)
    (ac : AuthenticatedContent) (guard : bytes) : Prop := {
  sent_content : new_and_sign (mkFramingParameters (aad ga) WirePrivateMessage) (Sender.Member (own_leaf_index ga)) body
                   (MGroup.context ga) signer = Ok ac;
  sent_encrypted : exists ms', encrypt_content (Some guard) ac (MGroup.ciphersuite ga) (padding_size (mls_group_config ga))
                     (MGroup.current_secrets ga) = (Ok (g, m), ms');
}.

Lemma new_and_sign_Ok a data wire body context signer ac :
  new_and_sign (mkFramingParameters data wire) (Sender.Member a) body context signer = Ok ac ->
  exists serialized signature, tls_group_context context = Some serialized /\
    ac = mkAuthenticatedContent wire
           (mkFramedContent (gc_group_id context) (gc_epoch context) (Sender.Member a) data body)
           (mkFramedContentAuthData signature None) /\
    Signable.sign FRAMED_CONTENT_LABEL (tls_framed_content_tbs (mkFramedContentTbs ProtocolVersion.Mls10 wire
      (ac_content ac) (Some serialized))) signer = Ok signature.
Proof.
  unfold new_and_sign. cbn [signs_context fp_aad fp_wire_format]. intros E.
  apply bind_Ok in E as (o & E1 & E). apply bind_Ok in E1 as (s & Es%ok_or_Ok & E1). injection E1 as <-.
  apply bind_Ok in E as (signature & E2%map_err_Ok & E). injection E as <-. by exists s, signature.
Qed.

(** Encrypting content of the member moves its ratchet for the kind of the content. *)
Lemma encrypt_Ok guard body signer ga ac g m ga' :
  new_and_sign (mkFramingParameters (aad ga) WirePrivateMessage) (Sender.Member (own_leaf_index ga)) body
    (MGroup.context ga) signer = Ok ac ->
  MGroup.encrypt (Some guard) ac ga = (Ok (g, m), ga') ->
  exists k t', sent ga body signer m g ac guard /\
    STree.secret_for_encryption (MGroup.ciphersuite ga) (own_leaf_index ga) (SecretType_from (content_type body)) (secret_tree_of ga)
      = (Ok (g, k), t') /\ ga' = with_tree ga t'.
Proof.
  intros Eac E2. unfold MGroup.encrypt in E2. destruct (new_and_sign_Ok _ _ _ _ _ _ _ Eac) as (ctx & signature & Ectx & Hac & Hsig).
  unfold try_from_authenticated_content in E2. rewrite Hac in E2. cbn [ac_wire_format] in E2. rewrite bool_decide_true in E2 by done.
  cbn [negb] in E2. rewrite <- Hac in E2. destruct (encrypt_content _ _ _ _ _) as [r ms'] eqn:Ee.
  injection E2 as -> <-.
  pose proof (encrypt_content_Ok _ _ _ _ _ _ _ _ Ee) as [(a & Ha & guard' & k & n & aad' & padded & ct & sdk & sdn & sda & sd & esd
    & t1 & [= <-] & Et & -> & _)].
  rewrite Hac in Ha, Et. cbn [ac_content fc_sender fc_body] in Ha, Et. injection Ha as <-.
  exists (k, n), t1. split_and!; [|done|done]. split; [done|]. by eexists.
Qed.

Lemma create_message_Ok guard signer message ga m ga' :
  MGroup.create_message (Some guard) signer message ga = (Ok m, ga') ->
  exists g ac ga1,
    new_and_sign (mkFramingParameters (aad ga) WirePrivateMessage) (Sender.Member (own_leaf_index ga)) (BodyApplication message)
      (MGroup.context ga) signer = Ok ac /\
    MGroup.encrypt (Some guard) ac ga = (Ok (g, m), ga1) /\ ga' = MGroup.set_aad ga1 [].
Proof.
  unfold MGroup.create_message, MGroup.create_message_internal. intros E.
  apply stateful_bind_Ok in E as ([g m'] & s1 & E & [= -> ->]).
  apply stateful_bind_Ok in E as (active & s2 & [= <- <-] & E). destruct (negb _); [done|].
  apply stateful_bind_Ok in E as (pending & s3 & [= <- <-] & E). destruct (negb _); [done|].
  apply stateful_bind_Ok in E as (data & s4 & [= <- <-] & E).
  apply stateful_bind_Ok in E as (ac & s5 & E1 & E). unfold reading in E1. injection E1 as Eac%map_err_Ok <-.
  apply stateful_bind_Ok in E as (out & s6 & E2%with_err_Ok & E). apply stateful_bind_Ok in E as ([] & s7 & E3 & [= -> ->]).
  unfold modifying in E3. injection E3 as <-. by exists g, ac, s6.
Qed.

Lemma content_to_message_frame guard content ga r ga1 :
  MGroup.content_to_mls_message guard content ga = (r, ga1) -> exists ms, ga1 = MGroup.set_current_secrets ga ms \/ ga1 = ga.
Proof.
  unfold MGroup.content_to_mls_message, MGroup.encrypt, Kem.with_err, mbind, stateful_bind, reading, mret, stateful_ret, lifting. cbv beta zeta iota.
  destruct (wf_outgoing _).
  - destruct (try_from_authenticated_content _ _ _ _ _) as [[[]| |] ms]; cbn; intros [= _ <-]; eauto.
  - intros H. exists (MGroup.current_secrets ga). right. destruct (Sender.is_member _); cbn in H; [destruct (set_membership_tag _ _ _ _)|]; by injection H.
Qed.

(** ** Receiving *)
Definition received (gb : MlsGroup) (a : LeafNodeIndex.t) (data : bytes) (leaf : LeafNode) (message : bytes) : ProcessedMessage :=
  mkProcessedMessage (gc_group_id (MGroup.context gb)) (gc_epoch (MGroup.context gb)) (Sender.Member a) data
    (ApplicationMessage message) (payload_credential (payload leaf)).

(** What a member verifies of content with body [body] from member [a]: signature and body. *)
Section Verified.
Context (gb : MlsGroup) (a : LeafNodeIndex.t) (wire : WireFormat) (data : bytes) (body : FramedContentBody) (signature : bytes).
Context (leaf : LeafNode) (signer : bytes -> option bytes) (Hknows : knows gb a leaf signer).
Let content := mkFramedContent (gc_group_id (MGroup.context gb)) (gc_epoch (MGroup.context gb)) (Sender.Member a) data body.
Let ac := mkAuthenticatedContent wire content (mkFramedContentAuthData signature None).
Let verifiable := verifiable_new wire content (Some (serialized_context (MGroup.current_secrets gb))) (mkFramedContentAuthData signature None).
Let unverified := mkUnverifiedMessage verifiable (payload_credential (payload leaf))
  (payload_signature_key (payload leaf), Suite.signature_algorithm (MGroup.ciphersuite gb))
  (Some (ContextMember (MGroup.group_id gb) a)).
Context (Hsigned : Signable.sign FRAMED_CONTENT_LABEL (tls_framed_content_tbs (v_tbs verifiable)) signer = Ok signature).
Context (Hbody : match body with BodyApplication _ => wire = WirePrivateMessage | BodyProposal _ => True | BodyCommit _ => False end).

Lemma parse_verified store t' : parse_message (public_group (with_tree gb t')) verifiable store = Ok unverified.
Proof.
  clear Hsigned. destruct Hknows as [Hleaf Hin _].
  unfold parse_message, validate_verifiable_content, message_credential, v_content_type, v_sender, v_epoch, verifiable, content.
  cbn [v_tbs tbs_content tbs_wire_format verifiable_new fc_sender fc_epoch fc_body v_auth].
  change (public_group (with_tree gb t')) with (public_group gb). rewrite Hin. cbn [negb andb mbind result_bind].
  assert ((bool_decide (content_type body = ContentApplication) && negb (bool_decide (wire = WirePrivateMessage)) = false) /\
    (bool_decide (content_type body = ContentCommit) = false)) as [-> ->].
  { destruct body; cbn; [|done|done]. by rewrite Hbody, bool_decide_true. }
  cbn [andb Sender.is_member]. rewrite andb_false_r. cbn [mbind result_bind].
  unfold look_up_credential. rewrite Z.eqb_refl, Hleaf. done.
Qed.

Lemma verify_verified clock policy :
  body_validate body clock (MGroup.ciphersuite gb) (Some (ContextMember (MGroup.group_id gb) a)) (MGroup.version gb) policy = Ok body ->
  message_verify unverified clock (MGroup.ciphersuite gb) (MGroup.version gb) policy = Ok (ac, payload_credential (payload leaf)).
Proof.
  intros Hv. destruct Hknows as [_ _ Hk]. unfold message_verify, verify_content.
  cbn [um_verifiable_content um_sender_pk um_sender_context um_credential fst snd unverified].
  change (auth_signature (v_auth verifiable)) with signature.
  rewrite (sign_verify _ _ _ _ _ _ Hk Hsigned). unfold content_validate, verifiable, content. cbn. by rewrite Hv.
Qed.

Lemma from_verified : from_verifiable_content verifiable = Ok verifiable.
Proof.
  clear Hsigned unverified. unfold from_verifiable_content, v_content_type, v_sender, verifiable, content. cbn. destruct body; cbn; [|done|done].
  by rewrite (bool_decide_true (wire = _) Hbody).
Qed.
End Verified.

Section Received.
Context (d : Z) (es : Secret) (ga gb : MlsGroup) (body : FramedContentBody) (signer : bytes -> option bytes) (m : PrivateMessage) (g : Z).
Context (ac : AuthenticatedContent) (guard : bytes) (leaf : LeafNode).
Context (Hstep : in_step d es ga gb) (Hne : own_leaf_index ga <> own_leaf_index gb).
Context (Hguard : Z.of_nat (length guard) = REUSE_GUARD_BYTES) (Hsent : sent ga body signer m g ac guard).
Context (Hknows : knows gb (own_leaf_index ga) leaf signer).
Context (Hdec : decodable body) (Hbody : match body with BodyCommit _ => False | _ => True end).

Let cfg := sender_ratchet_configuration (mls_group_config gb).
Let ty := SecretType_from (content_type body).
Let verifiable := verifiable_new WirePrivateMessage (ac_content ac) (Some (serialized_context (MGroup.current_secrets gb))) (ac_auth ac).
Let unverified := mkUnverifiedMessage verifiable (payload_credential (payload leaf))
  (payload_signature_key (payload leaf), Suite.signature_algorithm (MGroup.ciphersuite gb))
  (Some (ContextMember (MGroup.group_id gb) (own_leaf_index ga))).

Lemma sent_shape :
  exists signature, ac = mkAuthenticatedContent WirePrivateMessage
    (mkFramedContent (gc_group_id (MGroup.context gb)) (gc_epoch (MGroup.context gb)) (Sender.Member (own_leaf_index ga)) (aad ga)
       body) (mkFramedContentAuthData signature None) /\
    Signable.sign FRAMED_CONTENT_LABEL (tls_framed_content_tbs (v_tbs verifiable)) signer = Ok signature.
Proof.
  destruct Hstep as [_ Hb Hctx _], Hsent as [Hc _].
  destruct (new_and_sign_Ok _ _ _ _ _ _ _ Hc) as (s & signature & Es & Hac & Hs). exists signature. rewrite <- Hctx. split; [done|].
  rewrite Hctx, (ok_context _ _ _ Hb) in Es. injection Es as <-. done.
Qed.

Lemma same_epoch_of_step :
  same_epoch (MGroup.ciphersuite ga) (sender_ratchet_configuration (mls_group_config ga)) cfg d es
    (own_leaf_index ga) (own_leaf_index gb) (MGroup.current_secrets ga) (MGroup.current_secrets gb).
Proof.
  destruct Hstep as [[H1 H2 H3 H4 H5] [H1' H2' H3' H4' H5'] Hctx Hsd].
  assert (MGroup.ciphersuite ga = MGroup.ciphersuite gb) as Hcs by (by apply (f_equal gc_ciphersuite) in Hctx).
  split; [done|done|done|done|by rewrite Hcs|done|]. rewrite Hctx, H4' in H4. by injection H4.
Qed.

Lemma suites_agree : MGroup.ciphersuite ga = MGroup.ciphersuite gb.
Proof. by destruct Hstep as [_ _ Hctx%(f_equal gc_ciphersuite) _]. Qed.

Lemma sent_opens ks u t' :
  sender_data m (MGroup.current_secrets gb) (MGroup.ciphersuite gb) = Ok (mkMlsSenderData (own_leaf_index ga) g guard) /\
  u32.is_u32 g /\ pvm_content_type m = content_type body /\
  (STree.prepare_decryption (MGroup.ciphersuite gb) (own_leaf_index ga) ty g cfg (secret_tree_of gb)
     = (Ok (Available ks, u), t') ->
   to_verifiable_content m (MGroup.current_secrets gb) ks (mkMlsSenderData (own_leaf_index ga) g guard) = Ok verifiable).
Proof.
  destruct Hsent as [Hc [ms' He]]. destruct sent_shape as (signature & Hac & _). pose proof same_epoch_of_step as Hse.
  rewrite suites_agree in *.
  destruct (message_received _ _ _ _ _ _ _ _ _ guard ac (padding_size (mls_group_config ga)) g m ms' ks u t' Hse (ok_own _ _ _ (step_a _ _ _ _ Hstep))) as (H1 & H2 & H3 & H4);
    [by rewrite Hac|done|by rewrite Hac|rewrite Hac; unfold auth_shape; cbn; by destruct body as [| |]; [split; [by intros [? [=]]|done]..|]|done|].
  rewrite Hac in H3. cbn [ac_content fc_body] in H3. rewrite H3 in H4. done.
Qed.

Lemma sent_header : pvm_group_id m = gc_group_id (MGroup.context gb) /\ pvm_epoch m = gc_epoch (MGroup.context gb).
Proof.
  destruct Hsent as [Hc [ms' He]]. destruct sent_shape as (signature & Hac & _).
  pose proof (encrypt_content_Ok _ _ _ _ _ _ _ _ He) as [(a & _ & guard' & k & n & aad' & padded & ct & sdk & sdn & sda & sd & esd
    & t1 & _ & _ & _ & _ & _ & _ & _ & _ & _ & _ & _ & ->)]. by rewrite Hac.
Qed.

Lemma sent_not_own : MSecrets.own_index (MGroup.current_secrets gb) = own_leaf_index gb.
Proof. exact (shape_own _ _ _ (inv_shape _ _ _ _ _ _ (ok_tree _ _ _ (step_b _ _ _ _ Hstep)))). Qed.

Lemma sent_wire : match body with BodyApplication _ => WirePrivateMessage = WirePrivateMessage | BodyProposal _ => True | BodyCommit _ => False end.
Proof. by destruct body. Qed.

Lemma inbound_received :
  MProcess.from_inbound_ciphertext m cfg gb =
  match STree.prepare_decryption (MGroup.ciphersuite gb) (own_leaf_index ga) ty g cfg (secret_tree_of gb) with
  | (Ok (Available _, u), t') => (Ok (Decrypted verifiable u), with_tree gb t')
  | (Err e, t') => (Err (UnableToDecrypt (DecryptionSecretTreeError e)), with_tree gb t')
  | (Panic, t') => (Panic, with_tree gb t')
  end.
Proof.
  destruct sent_header as [Hg He]. destruct sent_shape as (signature & Hac & _).
  assert ((pvm_epoch m <? MGroup.epoch gb) = false) as Hep by (rewrite He; apply Z.ltb_irrefl).
  unfold MProcess.from_inbound_ciphertext, reading, lifting, mbind, stateful_bind, MGroup.message_secrets_and_leaves,
    MGroup.message_secrets_for_epoch_mut, MGroup.message_secrets_for_epoch, secret_tree_mut.
  rewrite Hep. cbn [map_err].
  destruct (sent_opens (mkAeadKey Aes128Gcm [], []) None (secret_tree_of gb)) as (Esd & _ & Hty & _). rewrite Esd. cbn [map_err sd_leaf_index sd_generation].
  rewrite sent_not_own, (proj2 (Z.eqb_neq _ _) Hne), Hty, Hep. fold ty (secret_tree_of gb).
  destruct (STree.prepare_decryption _ _ _ _ _ _) as [[[[ks] u]|e|] t'] eqn:Ep; cbn [map_err]; [|done|done].
  destruct (sent_opens ks u t') as (_ & _ & _ & Hv). specialize (Hv Ep).
  change (MGroup.epoch (MGroup.set_current_secrets gb _)) with (MGroup.epoch gb). rewrite Hep. cbn [map_err].
  change (MGroup.current_secrets (MGroup.set_current_secrets gb ?x)) with x.
  assert (to_verifiable_content m (set_secret_tree (MGroup.current_secrets gb) t') ks (mkMlsSenderData (own_leaf_index ga) g guard)
          = Ok verifiable) as -> by exact Hv. cbn [map_err].
  unfold verifiable. rewrite Hac. cbn [ac_content ac_auth]. by rewrite (from_verified gb (own_leaf_index ga) _ _ _ _ sent_wire).
Qed.

Lemma decrypt_received : MProcess.decrypt_message (PrivateProtocolMessage m) cfg gb = MProcess.from_inbound_ciphertext m cfg gb.
Proof.
  destruct sent_header as [Hg He].
  destruct (sent_opens (mkAeadKey Aes128Gcm [], []) None (secret_tree_of gb)) as (_ & _ & Hty & _).
  assert (validate_framing (public_group gb) (PrivateProtocolMessage m) = Ok tt) as Hf.
  { unfold validate_framing, PMsg.group_id, PMsg.content_type, PMsg.epoch. rewrite Hty, Hg, He, bool_decide_true by done. cbn [negb].
    fold (MGroup.context gb). rewrite Z.gtb_ltb, Z.ltb_irrefl, Z.eqb_refl. by destruct (content_type body). }
  unfold MProcess.decrypt_message. unfold mbind at 1, stateful_bind at 1, reading at 1. by rewrite Hf.
Qed.

Context (Hactive : MGroup.is_active gb = true).
Context (Hcompat : is_handshake_message (content_type body) = true ->
  is_compatible_with (wf_incoming (wire_format_policy (mls_group_config gb))) WirePrivateMessage = true).

Lemma unprotect_received :
  MProcess.unprotect_message (PrivateProtocolMessage m) gb =
  match STree.prepare_decryption (MGroup.ciphersuite gb) (own_leaf_index ga) ty g cfg (secret_tree_of gb) with
  | (Ok (Available _, u), t') => (Ok (Unverified unverified (mkEpochRatchetUpdate (MGroup.epoch gb) <$> u)), with_tree gb t')
  | (Err e, t') => (Err (ProcessValidation (UnableToDecrypt (DecryptionSecretTreeError e))), with_tree gb t')
  | (Panic, t') => (Panic, with_tree gb t')
  end.
Proof.
  destruct sent_header as [_ He]. destruct sent_shape as (signature & Hac & _).
  destruct (sent_opens (mkAeadKey Aes128Gcm [], []) None (secret_tree_of gb)) as (_ & _ & Hty & _).
  pose proof inbound_received as Hin. rewrite <- decrypt_received in Hin.
  unfold MProcess.unprotect_message, reading. unfold mbind at 1 2, stateful_bind at 1 2. rewrite Hactive. cbn [negb PMsg.is_external andb].
  assert (PMsg.is_handshake_message (PrivateProtocolMessage m) &&
    negb (is_compatible_with (wf_incoming (wire_format_policy (mls_group_config gb))) (PMsg.wire_format (PrivateProtocolMessage m))) = false) as ->.
  { unfold PMsg.is_handshake_message, PMsg.content_type. rewrite Hty. destruct (is_handshake_message _); [|done]. cbn [andb PMsg.wire_format].
    by rewrite Hcompat. }
  unfold Kem.with_err. unfold mbind at 1, stateful_bind at 1. fold cfg. rewrite Hin.
  destruct (STree.prepare_decryption _ _ _ _ _ _) as [[[[ks] u]|e|] t']; cbn [map_err]; [|done|done].
  unfold mbind at 1, stateful_bind at 1. unfold verifiable. rewrite Hac. cbn [ac_content ac_auth].
  rewrite (parse_verified gb (own_leaf_index ga) _ _ _ _ leaf signer Hknows sent_wire (Some (message_secrets_store (with_tree gb t'))) t').
  unfold unverified, verifiable, PMsg.epoch. rewrite He, Hac. done.
Qed.

(** The outcome for the receiver is decided by its secret tree alone. *)
Lemma process_content storage clock pm :
  body_validate body clock (MGroup.ciphersuite gb) (Some (ContextMember (MGroup.group_id gb) (own_leaf_index ga))) (MGroup.version gb) Verify
    = Ok body ->
  (forall t', MProcess.process_internal_authenticated_content (with_tree gb t') storage clock ac (payload_credential (payload leaf)) Verify = Ok pm) ->
  MProcess.process_message storage clock (PrivateProtocolMessage m) gb =
  match STree.prepare_decryption (MGroup.ciphersuite gb) (own_leaf_index ga) ty g cfg (secret_tree_of gb) with
  | (Ok (Available _, u), t') =>
      (_ ← match u with
           | Some u => MProcess.apply_ratchet_update (mkEpochRatchetUpdate (MGroup.epoch gb) u)
           | None => mret tt
           end;
       mret pm) (with_tree gb t')
  | (Err e, t') => (Err (ProcessValidation (UnableToDecrypt (DecryptionSecretTreeError e))), with_tree gb t')
  | (Panic, t') => (Panic, with_tree gb t')
  end.
Proof.
  intros Hv Hpm. pose proof unprotect_received as Hu. destruct sent_shape as (signature & Hac & Hsig).
  unfold MProcess.process_message, MProcess.process_message_with_lifetime_policy. unfold mbind at 1, stateful_bind at 1. rewrite Hu.
  destruct (STree.prepare_decryption _ _ _ _ _ _) as [[[[ks] u]|e|] t']; [|done|done].
  unfold MProcess.process_unverified_message, reading. unfold mbind at 1 2, stateful_bind at 1 2.
  change (MGroup.ciphersuite (with_tree gb t')) with (MGroup.ciphersuite gb).
  change (MGroup.version (with_tree gb t')) with (MGroup.version gb). unfold unverified, verifiable in *. rewrite Hac in *. cbn [ac_content ac_auth] in *.
  rewrite (verify_verified gb (own_leaf_index ga) _ _ _ signature leaf signer Hknows Hsig clock Verify Hv). cbn [map_err].
  unfold MProcess.process_verified_message. cbn [fst snd ac_content fc_sender]. rewrite Hpm. by destruct u.
Qed.
End Received.

Lemma process_received d es ga gb message signer m g ac guard leaf storage clock :
  in_step d es ga gb -> own_leaf_index ga <> own_leaf_index gb -> Z.of_nat (length guard) = REUSE_GUARD_BYTES ->
  sent ga (BodyApplication message) signer m g ac guard -> knows gb (own_leaf_index ga) leaf signer -> MGroup.is_active gb = true ->
  MProcess.process_message storage clock (PrivateProtocolMessage m) gb =
  match STree.prepare_decryption (MGroup.ciphersuite gb) (own_leaf_index ga) ApplicationSecret g
          (sender_ratchet_configuration (mls_group_config gb)) (secret_tree_of gb) with
  | (Ok (Available _, u), t') =>
      (_ ← match u with
           | Some u => MProcess.apply_ratchet_update (mkEpochRatchetUpdate (MGroup.epoch gb) u)
           | None => mret tt
           end;
       mret (received gb (own_leaf_index ga) (aad ga) leaf message)) (with_tree gb t')
  | (Err e, t') => (Err (ProcessValidation (UnableToDecrypt (DecryptionSecretTreeError e))), with_tree gb t')
  | (Panic, t') => (Panic, with_tree gb t')
  end.
Proof.
  intros Hstep Hne Hguard Hsent Hknows Hactive.
  destruct (sent_shape d es ga gb (BodyApplication message) signer m g ac guard Hstep Hsent) as (signature & Hac & _).
  refine (process_content d es ga gb (BodyApplication message) signer m g ac guard leaf Hstep Hne Hguard Hsent Hknows
    (application_decodable message) I Hactive _ storage clock _ eq_refl _); [done|]. intros t'. by rewrite Hac.
Qed.

(** ** Exchanges *)
Lemma apply_ratchet_update_current gb t1 u :
  MProcess.apply_ratchet_update (mkEpochRatchetUpdate (MGroup.epoch gb) u) (with_tree gb t1) =
  (let '(r, t2) := STree.apply_decryption_update u (sender_ratchet_configuration (mls_group_config gb)) t1 in
   (map_err (fun _ => ProcessLibraryError (CustomError "Message secrets of a decrypted message are missing")) r, with_tree gb t2)).
Proof.
  unfold MProcess.apply_ratchet_update, reading. unfold mbind, stateful_bind.
  unfold MGroup.message_secrets_for_epoch_mut, MGroup.message_secrets_for_epoch. cbn [eru_epoch eru_update].
  change (MGroup.epoch (with_tree gb t1)) with (MGroup.epoch gb). rewrite !Z.ltb_irrefl.
  unfold secret_tree_mut. change (secret_tree (MGroup.current_secrets (with_tree gb t1))) with t1.
  change (mls_group_config (with_tree gb t1)) with (mls_group_config gb). by destruct (STree.apply_decryption_update _ _ _).
Qed.

Definition next_of (self : MlsGroup) (i : LeafNodeIndex.t) : Z := next_generation (secret_tree_of self) i ApplicationSecret.

(** The sender's side of an encryption. *)
Lemma encrypted d es ga guard body signer ac g m ga' :
  let ty := SecretType_from (content_type body) in
  member_ok d es ga ->
  new_and_sign (mkFramingParameters (aad ga) WirePrivateMessage) (Sender.Member (own_leaf_index ga)) body
    (MGroup.context ga) signer = Ok ac ->
  MGroup.encrypt (Some guard) ac ga = (Ok (g, m), ga') ->
  sent ga body signer m g ac guard /\ g = next_generation (secret_tree_of ga) (own_leaf_index ga) ty /\ 0 <= g < u32.MAX /\
  exists t', ga' = with_tree ga t' /\ member_ok d es ga' /\ advanced (secret_tree_of ga) t' (own_leaf_index ga) ty (g + 1).
Proof.
  intros ty Ha Eac Ee. destruct (encrypt_Ok _ _ _ _ _ _ _ _ Eac Ee) as (k & t' & Hsent & Et & ->). fold ty in Et.
  destruct (ok_own _ _ _ Ha) as [Ho1 Ho2]. pose proof (ok_depth _ _ _ Ha) as Hd. pose proof (ok_config _ _ _ Ha) as Hc.
  pose proof (encryption_spec _ _ d es _ Hd _ _ ty Hc (ok_tree _ _ _ Ha) Ho1) as He.
  rewrite Et in He. destruct He as (Hta & _ & _ & _ & _ & _ & [Hu _]).
  destruct (encryption_next _ _ d es _ Hd Hc _ _ _ _ _ _ (ok_tree _ _ _ Ha) Ho1 Et) as (Hg & Hmax & Hadv).
  split_and!; [done..|]. exists t'. split_and!; [done|by apply member_ok_with_tree|done].
Qed.

(** The sender's side of a message. *)
Lemma created d es ga guard signer message m ga' :
  member_ok d es ga -> MGroup.create_message (Some guard) signer message ga = (Ok m, ga') ->
  exists ac t', sent ga (BodyApplication message) signer m (next_of ga (own_leaf_index ga)) ac guard /\
    0 <= next_of ga (own_leaf_index ga) < u32.MAX /\ member_ok d es ga' /\ ga' = MGroup.set_aad (with_tree ga t') [] /\
    next_of ga' (own_leaf_index ga) = next_of ga (own_leaf_index ga) + 1.
Proof.
  intros Ha Ec. destruct (create_message_Ok _ _ _ _ _ _ Ec) as (g & ac & ga1 & Eac & Ee & ->).
  destruct (encrypted _ _ _ _ _ _ _ _ _ _ Ha Eac Ee) as (Hsent & -> & Hg & t' & -> & Hok & Hadv).
  exists ac, t'. split_and!; [done|apply Hg..| |done|]; [by destruct Hok; split|].
  unfold next_of at 1. change (secret_tree_of _) with t'. by rewrite Hadv, bool_decide_true.
Qed.

(** The receiver's side: the next generations of another member are handed out. *)
Lemma opens d es gb i ty g :
  member_ok d es gb -> 0 <= i < 2 ^ d -> i <> own_leaf_index gb -> 0 <= g < u32.MAX ->
  next_generation (secret_tree_of gb) i ty <= g <= next_generation (secret_tree_of gb) i ty
    + maximum_forward_distance (sender_ratchet_configuration (mls_group_config gb)) ->
  exists k u t1 t2,
    STree.prepare_decryption (MGroup.ciphersuite gb) i ty g (sender_ratchet_configuration (mls_group_config gb))
      (secret_tree_of gb) = (Ok (Available k, Some u), t1) /\
    MProcess.apply_ratchet_update (mkEpochRatchetUpdate (MGroup.epoch gb) u) (with_tree gb t1) = (Ok tt, with_tree gb t2) /\
    member_ok d es (with_tree gb t2) /\ advanced (secret_tree_of gb) t2 i ty (g + 1).
Proof.
  intros Hb Hi Hne Hm Hn. pose proof (ok_depth _ _ _ Hb) as Hd. pose proof (ok_config _ _ _ Hb) as Hc.
  assert (u32.is_u32 g) as Hu by (unfold u32.is_u32, u32.MAX in *; lia). pose proof (ok_tree _ _ _ Hb) as Ht.
  destruct (prepare_next _ _ d es _ Hd Hc _ i ty g Ht Hi Hne Hn Hm) as (k & u & t1 & Ep).
  destruct (apply_prepared _ _ d es _ Hd Hc _ _ _ _ _ _ _ Ht (proj1 Hi) Hu Ep) as (t2 & Ea & Hadv).
  pose proof (prepare_spec _ _ d es _ Hd _ i ty g Hc Ht (proj1 Hi) Hu) as Hp. rewrite Ep in Hp.
  destruct Hp as (Ht1 & _ & u' & [= <-] & _ & _ & _ & _ & Hpend).
  pose proof (apply_spec _ _ d es _ Hd _ _ _ Hc Ht1 Hpend) as Hap. rewrite Ea in Hap. destruct Hap as (Ht2 & _).
  exists k, u, t1, t2. rewrite apply_ratchet_update_current, Ea. split_and!; [done|done|by apply member_ok_with_tree|].
  by rewrite Z.max_r in Hadv by lia.
Qed.

End Delivery.
