(* ===== verification/ProposingFacts.v ===== *)
(** * Proposals of a member: correctness

    A proposal that a member sends is queued at the member under the reference that is
    returned, and a member of the same epoch that gets the message ends with the same proposal
    under the same reference, whether the message was framed in plain or encrypted. *)
From S2P Require Import Prelude TreeMath TreeMathFacts BinaryTree Crypto CryptoFacts SenderRatchet SenderRatchetFacts SecretTree SecretTreeFacts SecretTreeProgress PastSecrets Extensions TreeSync LeafNode TreeKem Proposals KeySchedule Framing PrivateMessages Decoding ProposalStore PublicGroup StagedCommit MessageValidation KeyPackages MemberGroup MemberCommit MemberProcessing CommitBuilder Proposing PrivateMessagesFacts DecodingFacts MemberMessagesFacts.

Section Proposals.
Context {OC : OpenMlsCrypto} {TC : TlsCodec} {CD : ContentDecoder}.
Implicit Types self : MlsGroup.

(** ** Sending *)

(** The proposal that a call asks for. *)
Definition proposes self (propose : Propose) (p : Proposal.t) : Prop :=
  match propose with
  | ProposeAdd key_package => p = Proposal.Add key_package
  | ProposeUpdate _ => exists leaf_node, p = Proposal.Update leaf_node
  | ProposeRemove leaf_index => p = Proposal.Remove leaf_index
  | ProposeRemoveCredential credential =>
      exists leaf_index, MPropose.member_leaf_index self credential = Some leaf_index /\ p = Proposal.Remove leaf_index
  | ProposePreSharedKey psk_id => p = Proposal.PreSharedKey psk_id
  | ProposeGroupContextExtensions extensions => p = Proposal.GroupContextExtensions extensions
  | ProposeCustom custom_proposal => p = Proposal.Custom custom_proposal
  end.

(** Updates are always queued by reference. *)
Definition queued_as (propose : Propose) (ref_or_value : ProposalOrRefType) : ProposalOrRefType :=
  match propose with ProposeUpdate _ => ByReference | _ => ref_or_value end.

Definition outgoing self : WireFormat := outgoing_wire_format (wf_outgoing (wire_format_policy (mls_group_config self))).

(** [ac] is the signed proposal [p] of the member. *)
Definition signed_proposal self (signer : bytes -> option bytes) (p : Proposal.t) (ac : AuthenticatedContent) : Prop :=
  new_and_sign (mkFramingParameters (aad self) (outgoing self)) (Sender.Member (own_leaf_index self)) (BodyProposal p)
    (MGroup.context self) signer = Ok ac.

(** Differs in the leaves that the member proposed for itself only. *)
Definition same_but_leaves self self' : Prop := self' = self \/ exists leaf, self' = MPropose.push_own_leaf self leaf.

(** What every successful call did: sign, queue, frame, and reset the authenticated data. *)
Record proposed self (random_guard : option bytes) (signer : bytes -> option bytes) (propose : Propose)
    (ref_or_value : ProposalOrRefType) (message : ProtocolMessage) (reference : bytes) self' : Prop := {
  proposed_by : exists p ac self1 self2,
    proposes self propose p /\ signed_proposal self signer p ac /\ same_but_leaves self self1 /\
    from_authenticated_content (MGroup.ciphersuite self) ac ref_or_value
      = Ok (mkQueuedProposal p reference (Sender.Member (own_leaf_index self)) ref_or_value) /\
    MGroup.content_to_mls_message random_guard ac (MCommit.store_pending_proposal self1
      (mkQueuedProposal p reference (Sender.Member (own_leaf_index self)) ref_or_value)) = (Ok message, self2) /\
    self' = MGroup.set_aad self2 [];
}.

Lemma queue_and_frame_Ok {E} (library : LibraryError -> E) self self1 guard signer propose p ac rv message r self' :
  proposes self propose p -> signed_proposal self signer p ac -> same_but_leaves self self1 ->
  MPropose.queue_and_frame library guard ac rv self1 = (Ok (message, r), self') ->
  proposed self guard signer propose rv message r self'.
Proof.
  intros Hp Hs Hl E1. split. exists p, ac, self1.
  assert (MGroup.ciphersuite self1 = MGroup.ciphersuite self) as Hcs by (by destruct Hl as [->|[? ->]]).
  apply stateful_bind_Ok in E1 as (r' & s1 & Eq & E1). apply stateful_bind_Ok in Eq as (q & s2 & Eq & E2).
  unfold reading in Eq. injection Eq as Eq%map_err_Ok <-. rewrite Hcs in Eq.
  apply stateful_bind_Ok in E2 as ([] & s3 & [= <-] & [= <- <-]).
  apply stateful_bind_Ok in E1 as (m' & s4 & Em%with_err_Ok & E1). apply stateful_bind_Ok in E1 as ([] & s5 & [= <-] & [= -> <- <-]).
  assert (q = mkQueuedProposal p (qp_reference q) (Sender.Member (own_leaf_index self)) rv) as Hq.
  { destruct (new_and_sign_Ok _ _ _ _ _ _ _ Hs) as (? & ? & _ & -> & _). unfold from_authenticated_content in Eq.
    apply bind_Ok in Eq as (rf & _ & Eq). by injection Eq as <-. }
  exists s4. rewrite <- Hq. by split_and!.
Qed.

(** The calls that read the group only before they queue. *)
Lemma propose_steps {E F} (state : MlsGroupStateError -> E) (library : LibraryError -> E) (inject : F -> E)
    (f : MlsGroup -> FramingParameters -> result F AuthenticatedContent) self guard signer propose p rv message r self' :
  proposes self propose p ->
  (forall ac, f self (mkFramingParameters (aad self) (outgoing self)) = Ok ac -> signed_proposal self signer p ac) ->
  (_ ← MPropose.check_operational state;
   fp ← MPropose.framing_parameters library;
   ac ← reading (fun self => map_err inject (f self fp));
   MPropose.queue_and_frame library guard ac rv) self = (Ok (message, r), self') ->
  proposed self guard signer propose rv message r self'.
Proof.
  intros Hp Hf E1. apply stateful_bind_Ok in E1 as ([] & s1 & [= _ <-] & E1).
  apply stateful_bind_Ok in E1 as (fp & s2 & [= <- <-] & E1). apply stateful_bind_Ok in E1 as (ac & s3 & E2 & E1).
  unfold reading in E2. injection E2 as E2%map_err_Ok <-. eapply queue_and_frame_Ok; [done|by apply Hf|by left|done].
Qed.

(** ** Creating proposals *)
Lemma create_add_Ok self key_package signer ac :
  MPropose.create_add_proposal self (mkFramingParameters (aad self) (outgoing self)) key_package signer = Ok ac ->
  signed_proposal self signer (Proposal.Add key_package) ac.
Proof. intros E. apply bind_Ok in E as (? & _ & E%map_err_Ok). exact E. Qed.

Lemma create_remove_Ok self i signer ac :
  MPropose.create_remove_proposal self (mkFramingParameters (aad self) (outgoing self)) i signer = Ok ac ->
  signed_proposal self signer (Proposal.Remove i) ac.
Proof. unfold MPropose.create_remove_proposal. case_bool_decide; [done|]. intros E%map_err_Ok. exact E. Qed.

Lemma create_gce_Ok self extensions signer ac :
  MPropose.create_group_context_ext_proposal self (mkFramingParameters (aad self) (outgoing self)) extensions signer = Ok ac ->
  signed_proposal self signer (Proposal.GroupContextExtensions extensions) ac.
Proof. intros E. apply bind_Ok in E as (? & _ & E%map_err_Ok). exact E. Qed.

Lemma self_update_Ok guard rnd signer parameters keys self message r self' keys' :
  MPropose.propose_self_update_internal guard rnd signer None parameters (self, keys) = (Ok (message, r), (self', keys')) ->
  proposed self guard signer (ProposeUpdate parameters) ByReference message r self'.
Proof.
  intros E. apply stateful_bind_Ok in E as (ac & [s1 k1] & E1 & E). unfold MPropose.create_self_update_proposal_internal in E1.
  apply stateful_bind_Ok in E1 as ([] & [s2 k2] & [= _ <- <-] & E1).
  apply stateful_bind_Ok in E1 as (x & [s3 k3] & [= <- <- <-] & E1).
  apply stateful_bind_Ok in E1 as (leaf & [s4 k4] & [= _ <- <-] & E1).
  apply stateful_bind_Ok in E1 as ([parameters' sg] & [s5 k5] & [= _ <- <-] & E1).
  apply stateful_bind_Ok in E1 as ([leaf' kp] & [s6 k6] & E2 & E1). unfold MPropose.on_keys in E2.
  destruct (Kem.with_err _ _ _) as [ru ku]. injection E2 as _ <- <-.
  apply stateful_bind_Ok in E1 as (fp & [s7 k7] & [= <- <- <-] & E1).
  apply stateful_bind_Ok in E1 as (ac' & [s8 k8] & E2 & E1). unfold lifting in E2. injection E2 as E2%map_err_Ok <- <-.
  apply stateful_bind_Ok in E1 as ([] & [s9 k9] & [= <- <-] & [= -> <- <-]).
  unfold MPropose.on_group in E. destruct (MPropose.queue_and_frame _ _ _ _ _) as [rq sq] eqn:Eq. injection E as -> <- <-.
  eapply queue_and_frame_Ok; [by eexists|exact E2|right; by eexists|exact Eq].
Qed.

Lemma on_group_Ok {E A} (m : stateful MlsGroup E A) self keys a self' (keys' : list (bytes * bytes)) :
  MPropose.on_group m (self, keys) = (Ok a, (self', keys')) -> m self = (Ok a, self').
Proof. unfold MPropose.on_group. destruct (m self). naive_solver. Qed.

Lemma dispatch_Ok guard rnd signer propose rv keys self message r self' keys' :
  MPropose.propose_dispatch guard rnd signer propose rv (self, keys) = (Ok (message, r), (self', keys')) ->
  proposed self guard signer propose (queued_as propose rv) message r self'.
Proof.
  destruct propose as [kp|lp|i|c|id|exts|cp]; cbn [MPropose.propose_dispatch queued_as]; intros E.
  - apply on_group_Ok in E. destruct rv; [|apply with_err_Ok in E]; (eapply propose_steps; [reflexivity| |exact E]);
      intros ac; apply create_add_Ok.
  - apply with_err_Ok in E. by eapply self_update_Ok.
  - apply on_group_Ok in E. destruct rv; [|apply with_err_Ok in E]; (eapply propose_steps; [reflexivity| |exact E]);
      intros ac; apply create_remove_Ok.
  - apply on_group_Ok in E. destruct rv; [|apply with_err_Ok in E]; apply stateful_bind_Ok in E as (o & s1 & [= <- <-] & E);
      destruct (MPropose.member_leaf_index self c) as [i|] eqn:Hi; try done;
      (eapply propose_steps; [by eexists| |exact E]); intros ac; apply create_remove_Ok.
  - destruct (psk id); [|done]. apply on_group_Ok in E. destruct rv; (eapply propose_steps; [reflexivity| |exact E]); by intros ac.
  - apply on_group_Ok in E. eapply propose_steps; [reflexivity| |exact E]. intros ac. apply create_gce_Ok.
  - apply on_group_Ok in E. destruct rv; (eapply propose_steps; [reflexivity| |exact E]); by intros ac.
Qed.
End Proposals.

(** ** Delivery *)
Section Delivery.
Context {OC : OpenMlsCrypto} {TC : TlsCodec} {CD : ContentDecoder}.
Context {LK : LawfulKdf} {LA : LawfulAead} {LC : LawfulCodec}.

(** The message as [gb] reports it: proposals that were sent are referenced. *)
Definition received_proposal (gb : MlsGroup) (a : LeafNodeIndex.t) (data : bytes) (leaf : LeafNode) (p : Proposal.t) (reference : bytes) :
    ProcessedMessage :=
  mkProcessedMessage (MGroup.group_id gb) (MGroup.epoch gb) (Sender.Member a) data
    (ProposalMessage (mkQueuedProposal p reference (Sender.Member a) ByReference)) (payload_credential (payload leaf)).

Section Sent.
Context (d : Z) (es : Secret) (ga gb : MlsGroup) (signer : bytes -> option bytes) (leaf : LeafNode).
Context (p : Proposal.t) (ac : AuthenticatedContent) (rv : ProposalOrRefType) (reference : bytes).
Context (Hstep : in_step d es ga gb) (Hknows : knows gb (own_leaf_index ga) leaf signer) (Hactive : MGroup.is_active gb = true).
Context (Hsigned : signed_proposal ga signer p ac).
Context (Hq : from_authenticated_content (MGroup.ciphersuite ga) ac rv
  = Ok (mkQueuedProposal p reference (Sender.Member (own_leaf_index ga)) rv)).
Context (Hcompat : is_compatible_with (wf_incoming (wire_format_policy (mls_group_config gb))) (outgoing ga) = true).
Context (storage : Storage) (clock : Z).
Context (Hvalid : proposal_validate p clock (MGroup.ciphersuite gb) (Some (ContextMember (MGroup.group_id gb) (own_leaf_index ga)))
  (MGroup.version gb) Verify = Ok p).

Lemma sent_body_valid :
  body_validate (BodyProposal p) clock (MGroup.ciphersuite gb) (Some (ContextMember (MGroup.group_id gb) (own_leaf_index ga)))
    (MGroup.version gb) Verify = Ok (BodyProposal p).
Proof. unfold body_validate. by rewrite Hvalid. Qed.

Lemma sent_proposal_shape : exists signature,
  ac = mkAuthenticatedContent (outgoing ga)
    (mkFramedContent (gc_group_id (MGroup.context gb)) (gc_epoch (MGroup.context gb)) (Sender.Member (own_leaf_index ga)) (aad ga)
       (BodyProposal p)) (mkFramedContentAuthData signature None) /\
  Signable.sign FRAMED_CONTENT_LABEL (tls_framed_content_tbs (v_tbs (verifiable_new (outgoing ga) (ac_content ac)
    (Some (serialized_context (MGroup.current_secrets gb))) (ac_auth ac)))) signer = Ok signature.
Proof.
  destruct Hstep as [_ Hb Hctx _]. destruct (new_and_sign_Ok _ _ _ _ _ _ _ Hsigned) as (s & signature & Es & Hac & Hs).
  exists signature. rewrite <- Hctx. split; [done|]. rewrite Hctx, (ok_context _ _ _ Hb) in Es. injection Es as <-. done.
Qed.

Lemma proposal_processed self :
  MGroup.ciphersuite self = MGroup.ciphersuite gb -> MGroup.group_id self = MGroup.group_id gb ->
  MProcess.process_internal_authenticated_content self storage clock ac (payload_credential (payload leaf)) Verify
  = Ok (received_proposal gb (own_leaf_index ga) (aad ga) leaf p reference).
Proof.
  intros Hcs Hid. destruct sent_proposal_shape as (signature & Hac & _). rewrite (suites_agree d es ga gb Hstep), <- Hcs in Hq.
  unfold MProcess.process_internal_authenticated_content, from_authenticated_content_by_ref, from_authenticated_content in *.
  apply bind_Ok in Hq as (rf & -> & E). rewrite Hac in *. cbn in E |- *. injection E as ->.
  unfold MProcess.processed. by rewrite Hid.
Qed.

Lemma contexts_agree : serialized_context (MGroup.current_secrets ga) = serialized_context (MGroup.current_secrets gb).
Proof.
  destruct Hstep as [Ha Hb Hctx _]. pose proof (ok_context _ _ _ Ha) as H. rewrite Hctx, (ok_context _ _ _ Hb) in H. by injection H.
Qed.

(** In plain: the membership tag and the signature verify, and the group does not change. *)
Lemma public_unprotected tag :
  outgoing ga = WirePublicMessage -> membership_key (MGroup.current_secrets ga) = membership_key (MGroup.current_secrets gb) ->
  tag_message (membership_key (MGroup.current_secrets ga)) (MGroup.ciphersuite ga) (ac_content ac) (ac_auth ac)
    (serialized_context (MGroup.current_secrets ga)) = Ok tag ->
  MProcess.decrypt_message (PublicProtocolMessage (mkPublicMessage (ac_content ac) (ac_auth ac) (Some tag)))
    (sender_ratchet_configuration (mls_group_config gb)) gb
  = (Ok (Decrypted (verifiable_new (outgoing ga) (ac_content ac) (Some (serialized_context (MGroup.current_secrets gb))) (ac_auth ac)) None), gb).
Proof.
  intros Hw Hkey Htag. rewrite Hkey, contexts_agree, (suites_agree d es ga gb Hstep) in Htag.
  destruct sent_proposal_shape as (signature & Hac & _). rewrite Hw in *.
  unfold MProcess.decrypt_message, validate_framing, reading. unfold mbind at 1, stateful_bind at 1. rewrite Hac in *.
  cbn [PMsg.group_id PMsg.content_type PMsg.epoch pm_content ac_content ac_auth fc_group_id fc_epoch fc_body content_type] in *.
  rewrite bool_decide_true by done. cbn [negb]. fold (MGroup.context gb). rewrite Z.eqb_refl. cbn [negb].
  unfold MGroup.message_secrets_for_epoch. change (gc_epoch (MGroup.context gb)) with (MGroup.epoch gb). rewrite Z.ltb_irrefl.
  cbn [map_err mbind result_bind]. unfold from_inbound_public_message, verify_membership.
  cbn [pm_content pm_auth pm_membership_tag fc_sender Sender.is_member]. rewrite bool_decide_false by done.
  change (MGroup.epoch gb) with (gc_epoch (MGroup.context gb)). rewrite Htag.
  cbn [map_err mbind result_bind]. rewrite bool_decide_true by done. done.
Qed.

Lemma public_delivered tag :
  outgoing ga = WirePublicMessage -> membership_key (MGroup.current_secrets ga) = membership_key (MGroup.current_secrets gb) ->
  tag_message (membership_key (MGroup.current_secrets ga)) (MGroup.ciphersuite ga) (ac_content ac) (ac_auth ac)
    (serialized_context (MGroup.current_secrets ga)) = Ok tag ->
  MProcess.process_message storage clock (PublicProtocolMessage (mkPublicMessage (ac_content ac) (ac_auth ac) (Some tag))) gb
  = (Ok (received_proposal gb (own_leaf_index ga) (aad ga) leaf p reference), gb).
Proof.
  intros Hw Hkey Htag. pose proof (public_unprotected tag Hw Hkey Htag) as Hd.
  pose proof (proposal_processed gb eq_refl eq_refl) as Hp. destruct sent_proposal_shape as (signature & Hac & Hsig).
  unfold MProcess.process_message, MProcess.process_message_with_lifetime_policy, MProcess.unprotect_message, reading.
  unfold mbind at 1 2 3, stateful_bind at 1 2 3. rewrite Hactive.
  assert (negb (PMsg.is_external (PublicProtocolMessage (mkPublicMessage (ac_content ac) (ac_auth ac) (Some tag)))) = true) as ->
    by (by rewrite Hac).
  unfold mbind at 1, stateful_bind at 1. cbn [negb andb PMsg.wire_format]. rewrite Hw in Hcompat. rewrite Hcompat, andb_false_r.
  unfold Kem.with_err. unfold mbind at 1, stateful_bind at 1. rewrite Hd. cbn [map_err].
  unfold mbind at 1, stateful_bind at 1. rewrite Hac in *. cbn [ac_content ac_auth] in *.
  rewrite (parse_verified gb (own_leaf_index ga) _ _ (BodyProposal p) _ leaf signer Hknows I (Some (message_secrets_store gb)) (secret_tree_of gb)).
  cbn [map_err]. unfold mret, stateful_ret. unfold MProcess.process_unverified_message, reading. unfold mbind at 1 2, stateful_bind at 1 2.
  rewrite (verify_verified gb (own_leaf_index ga) _ _ _ signature leaf signer Hknows Hsig clock Verify sent_body_valid). cbn [map_err].
  unfold MProcess.process_verified_message. cbn [fst snd ac_content fc_sender]. by rewrite Hp.
Qed.

(** Encrypted: a key of the handshake ratchet is used, on both sides. *)
Lemma private_delivered guard g m ga' :
  outgoing ga = WirePrivateMessage -> own_leaf_index ga <> own_leaf_index gb -> Z.of_nat (length guard) = REUSE_GUARD_BYTES ->
  decodable (BodyProposal p) ->
  next_generation (secret_tree_of gb) (own_leaf_index ga) HandshakeSecret
    <= next_generation (secret_tree_of ga) (own_leaf_index ga) HandshakeSecret
    <= next_generation (secret_tree_of gb) (own_leaf_index ga) HandshakeSecret
       + maximum_forward_distance (sender_ratchet_configuration (mls_group_config gb)) ->
  MGroup.encrypt (Some guard) ac ga = (Ok (g, m), ga') ->
  exists gb' t, MProcess.process_message storage clock (PrivateProtocolMessage m) gb
    = (Ok (received_proposal gb (own_leaf_index ga) (aad ga) leaf p reference), gb') /\
    gb' = with_tree gb t /\ in_step d es ga' gb'.
Proof.
  intros Hw Hne Hguard Hdec Hwin Ee. pose proof Hstep as [Ha Hb Hctx Hsd]. pose proof Hsigned as Hs. pose proof Hcompat as Hc.
  unfold signed_proposal in Hs. rewrite Hw in Hs, Hc.
  destruct (encrypted _ _ _ _ _ _ _ _ _ _ Ha Hs Ee) as (Hsent & Hg & Hmax & t' & -> & Hok & _).
  cbn [content_type SecretType_from] in Hg. rewrite <- Hg in Hwin.
  destruct (opens d es gb (own_leaf_index ga) HandshakeSecret g Hb (ok_own _ _ _ Ha) Hne Hmax Hwin) as (k & u & t1 & t2 & Ep & Eu & Hb2 & _).
  exists (with_tree gb t2), t2. split_and!; [|done|by apply in_step_with_trees].
  rewrite (process_content d es ga gb (BodyProposal p) signer m g ac guard leaf Hstep Hne Hguard Hsent Hknows Hdec I Hactive
    (fun _ => Hc) storage clock _ sent_body_valid (fun t => proposal_processed (with_tree gb t) eq_refl eq_refl)).
  cbn [content_type SecretType_from]. rewrite Ep. unfold mbind, stateful_bind. by rewrite Eu.
Qed.
End Sent.

(** [gb] takes the messages that [ga] frames: it is another, active member that knows the leaf
    of [ga] and its membership key, accepts the wire format, and is not too far behind. *)
Record hears (ga gb : MlsGroup) (leaf : LeafNode) (signer : bytes -> option bytes) : Prop := {
  hears_other : own_leaf_index ga <> own_leaf_index gb;
  hears_active : MGroup.is_active gb = true;
  hears_knows : knows gb (own_leaf_index ga) leaf signer;
  hears_key : membership_key (MGroup.current_secrets ga) = membership_key (MGroup.current_secrets gb);
  hears_format : is_compatible_with (wf_incoming (wire_format_policy (mls_group_config gb))) (outgoing ga) = true;
  hears_window : outgoing ga = WirePrivateMessage ->
    next_generation (secret_tree_of gb) (own_leaf_index ga) HandshakeSecret
      <= next_generation (secret_tree_of ga) (own_leaf_index ga) HandshakeSecret
      <= next_generation (secret_tree_of gb) (own_leaf_index ga) HandshakeSecret
         + maximum_forward_distance (sender_ratchet_configuration (mls_group_config gb));
}.

Lemma content_framed ga guard ac message ga' :
  Sender.is_member (fc_sender (ac_content ac)) = true ->
  MGroup.content_to_mls_message guard ac ga = (Ok message, ga') ->
  (outgoing ga = WirePublicMessage /\ ga' = ga /\
   exists tag, message = PublicProtocolMessage (mkPublicMessage (ac_content ac) (ac_auth ac) (Some tag)) /\
     tag_message (membership_key (MGroup.current_secrets ga)) (MGroup.ciphersuite ga) (ac_content ac) (ac_auth ac)
       (serialized_context (MGroup.current_secrets ga)) = Ok tag) \/
  (outgoing ga = WirePrivateMessage /\ exists g m, message = PrivateProtocolMessage m /\ MGroup.encrypt guard ac ga = (Ok (g, m), ga')).
Proof.
  intros Hm E. unfold outgoing. apply stateful_bind_Ok in E as (o & s & [= <- <-] & E). destruct (wf_outgoing _); [right|left].
  - split; [done|]. apply stateful_bind_Ok in E as ([g m] & s & Ee%with_err_Ok & [= <- <-]). by exists g, m.
  - cbn [pm_content public_message_from] in E. rewrite Hm in E. apply stateful_bind_Ok in E as (pm & s & Et & [= <- <-]).
    unfold reading in Et. injection Et as Et <-. apply bind_Ok in Et as (tag & Et & [= <-]). split_and!; [done..|]. by exists tag.
Qed.

Lemma with_tree_id self : with_tree self (secret_tree_of self) = self.
Proof. by destruct self as [? ? ? ? [? ? []] ? ? ? ?]. Qed.

(** The message that a member framed for a proposal reaches the member [gb]. *)
Lemma framed_delivered d es ga gb guard signer p ac rv reference message ga' leaf storage clock :
  in_step d es ga gb -> hears ga gb leaf signer -> Z.of_nat (length guard) = REUSE_GUARD_BYTES ->
  signed_proposal ga signer p ac ->
  from_authenticated_content (MGroup.ciphersuite ga) ac rv = Ok (mkQueuedProposal p reference (Sender.Member (own_leaf_index ga)) rv) ->
  MGroup.content_to_mls_message (Some guard) ac ga = (Ok message, ga') ->
  decodable (BodyProposal p) ->
  proposal_validate p clock (MGroup.ciphersuite gb) (Some (ContextMember (MGroup.group_id gb) (own_leaf_index ga)))
    (MGroup.version gb) Verify = Ok p ->
  exists t, MProcess.process_message storage clock message gb
    = (Ok (received_proposal gb (own_leaf_index ga) (aad ga) leaf p reference), with_tree gb t) /\ in_step d es ga' (with_tree gb t).
Proof.
  intros Hstep [Hne Hact Hk Hkey Hfmt Hwin] Hguard Hs Hq Hf Hdec Hv.
  destruct (sent_proposal_shape d es ga gb signer p ac Hstep Hs) as (sg & Hac & _).
  apply content_framed in Hf as [(Hw & -> & tag & -> & Ht)|(Hw & g & m & -> & Ee)]; [| |by rewrite Hac].
  - exists (secret_tree_of gb). rewrite with_tree_id. split; [|done].
    by eapply (public_delivered d es ga gb signer leaf p ac rv reference).
  - destruct (private_delivered d es ga gb signer leaf p ac rv reference Hstep Hk Hact Hs Hq Hfmt storage clock Hv guard g m ga' Hw Hne
      Hguard Hdec (Hwin Hw) Ee) as (gb' & t & Hp & -> & Hst). by exists t.
Qed.

(** The effect of a call that proposes, on the sender and on a receiver. *)
Lemma dispatch_delivered d es ga gb keys guard leaf_random signer propose ref_or_value message reference ga' keys' leaf storage clock :
  in_step d es ga gb -> hears ga gb leaf signer -> Z.of_nat (length guard) = REUSE_GUARD_BYTES ->
  MPropose.propose_dispatch (Some guard) leaf_random signer propose ref_or_value (ga, keys)
    = (Ok (message, reference), (ga', keys')) ->
  exists p, proposes ga propose p /\ aad ga' = [] /\
    MGroup.proposal_store ga' = Store.add (MGroup.proposal_store ga)
      (mkQueuedProposal p reference (Sender.Member (own_leaf_index ga)) (queued_as propose ref_or_value)) /\
    (decodable (BodyProposal p) ->
     proposal_validate p clock (MGroup.ciphersuite gb) (Some (ContextMember (MGroup.group_id gb) (own_leaf_index ga)))
       (MGroup.version gb) Verify = Ok p ->
     exists gb', MProcess.process_message storage clock message gb
         = (Ok (received_proposal gb (own_leaf_index ga) (aad ga) leaf p reference), gb') /\
       in_step d es ga' gb' /\
       MGroup.proposal_store (MCommit.store_pending_proposal gb' (mkQueuedProposal p reference (Sender.Member (own_leaf_index ga)) ByReference))
         = Store.add (MGroup.proposal_store gb) (mkQueuedProposal p reference (Sender.Member (own_leaf_index ga)) ByReference)).
Proof.
  intros Hstep Hh Hguard E. apply dispatch_Ok in E as [(p & ac & s1 & s2 & Hp & Hs & Hl & Hq & Hf & ->)].
  set (q := mkQueuedProposal _ _ _ _) in *. set (gq := MCommit.store_pending_proposal s1 q) in *.
  assert (in_step d es gq gb /\ hears gq gb leaf signer /\ signed_proposal gq signer p ac /\ own_leaf_index gq = own_leaf_index ga /\
    aad gq = aad ga /\ MGroup.ciphersuite gq = MGroup.ciphersuite ga) as (Hstep' & Hh' & Hs' & Ho & Had & Hcs).
  { destruct Hstep as [[] ? ? ?], Hh. unfold gq. destruct Hl as [->|[? ->]]; (split_and!; [by split; [split|..]|by split|done..]). }
  assert (public_group s2 = public_group gq) as Hpub by (by destruct (content_to_message_frame _ _ _ _ _ Hf) as (? & [->| ->])).
  exists p. split_and!; [done|done| |].
  { unfold MGroup.proposal_store. cbn [public_group MGroup.set_aad]. rewrite Hpub. unfold gq. by destruct Hl as [->|[? ->]]. }
  intros Hdec Hv. rewrite <- Ho in Hv.
  rewrite <- Hcs in Hq. unfold q in Hq. rewrite <- Ho in Hq.
  destruct (framed_delivered d es gq gb guard signer p ac _ reference message s2 leaf storage clock Hstep' Hh' Hguard Hs' Hq Hf Hdec Hv)
    as (tb & Hproc & Hst). exists (with_tree gb tb). rewrite Hproc, Ho, Had. split_and!; [done| |done].
  destruct Hst as [[] ? ? ?]. by split; [split|..].
Qed.
End Delivery.

(** ** Calls that commit *)
Section Commits.
Context {OC : OpenMlsCrypto} {TC : TlsCodec}.
Implicit Types self : MlsGroup.

Inductive CommitCall : Type :=
  | CallAddMembers (key_packages : list KeyPackage) (force_self_update : bool)
  | CallSwapMembers (members : list LeafNodeIndex.t) (key_packages : list KeyPackage)
  | CallRemoveMembers (members : list LeafNodeIndex.t)
  | CallSelfUpdate (leaf_node_parameters : LeafNodeParameters) (new_signer : option NewSignerBundle)
  | CallUpdateExtensions (extensions : Extensions)
  | CallCommitToPending.

Definition run_call (rnd : MPropose.Randomness) (clock : Z) (storage : Storage) (signer : bytes -> option bytes) (call : CommitCall) :
    stateful MlsGroup CommitCallError unit :=
  match call with
  | CallAddMembers key_packages true => _ ← MPropose.add_members rnd clock storage signer key_packages; mret tt
  | CallAddMembers key_packages false => _ ← MPropose.add_members_without_update rnd clock storage signer key_packages; mret tt
  | CallSwapMembers members key_packages => _ ← MPropose.swap_members rnd clock storage signer members key_packages; mret tt
  | CallRemoveMembers members => _ ← MPropose.remove_members rnd clock storage signer members; mret tt
  | CallSelfUpdate parameters None => _ ← MPropose.self_update rnd clock storage signer parameters; mret tt
  | CallSelfUpdate parameters (Some new_signer) =>
      _ ← MPropose.self_update_with_new_signer rnd clock storage signer new_signer parameters; mret tt
  | CallUpdateExtensions extensions => _ ← MPropose.update_group_context_extensions rnd clock storage signer extensions; mret tt
  | CallCommitToPending => _ ← MPropose.commit_to_pending_proposals rnd clock storage signer; mret tt
  end.

(** The commit is pending; the group is still in its epoch, with all that is queued. *)
Record staged self self' : Prop := {
  staged_pending : exists commit, group_state self' = PendingCommit (PendingMember commit);
  staged_group : public_group self' = public_group self;
  staged_secrets : group_epoch_secrets self' = group_epoch_secrets self;
  staged_own : own_leaf_index self' = own_leaf_index self;
  staged_leaves : own_leaf_nodes self' = own_leaf_nodes self;
  staged_psks : resumption_psk_store self' = resumption_psk_store self;
  staged_past : past_epoch_trees (message_secrets_store self') = past_epoch_trees (message_secrets_store self);
  staged_aad : aad self' = [];
}.

(** A failure after the commit was staged is a library error, or a panic. *)
Definition late {A} (r : result CommitCallError A) : Prop :=
  match r with Err (CallLibraryError _ | CallStage _) | Panic => True | _ => False end.

(** The outcome of a step of such a call, from the group [self0] that it started with. *)
Definition stages {A} self0 (m : stateful MlsGroup CommitCallError A) : Prop :=
  forall r self', m self0 = (r, self') ->
    (self' = self0 /\ forall a, r <> Ok a) \/ (staged self0 self' /\ ((exists a, r = Ok a) \/ late r)).

(** Steps that change nothing but the authenticated data, and fail only with library errors. *)
Definition quiet {A} (m : stateful MlsGroup CommitCallError A) : Prop :=
  forall self r self', m self = (r, self') ->
    (self' = self \/ self' = MGroup.set_aad self []) /\ ((exists a, r = Ok a) \/ late r).

Lemma staged_set_aad self0 self : staged self0 self -> staged self0 (MGroup.set_aad self []).
Proof. by intros []; split. Qed.

Lemma stages_bind {A B} self0 (m : stateful MlsGroup CommitCallError A) (k : A -> stateful MlsGroup CommitCallError B) :
  stages self0 m -> (forall a, quiet (k a)) -> stages self0 (m ≫= k).
Proof.
  intros Hm Hk r self'. unfold mbind, stateful_bind. destruct (m self0) as [[a|e|] s] eqn:Em.
  - intros Ek. destruct (Hm _ _ Em) as [[_ Hn]|[Hs _]]; [by destruct (Hn a)|]. right.
    destruct (Hk a _ _ _ Ek) as [[->| ->] Hr]; (split; [|done]); [done|by apply staged_set_aad].
  - intros [= <- <-]. destruct (Hm _ _ Em) as [[-> _]|[Hs [[? [=]]|Hl]]]; [by left|by right; split; [|right]].
  - intros [= <- <-]. destruct (Hm _ _ Em) as [[-> _]|[Hs _]]; [by left|by right; split; [|right]].
Qed.

Lemma quiet_ret {A} (a : A) : quiet (mret a).
Proof. intros self r self' [= <- <-]. split; [by left|left; by eexists]. Qed.
Lemma quiet_ok_or {A} (o : option A) e : quiet (lifting (ok_or o (CallLibraryError e))).
Proof. intros self r self' [= <- <-]. split; [by left|]. destruct o; [left; by eexists|by right]. Qed.
Lemma quiet_reset : quiet MPropose.reset_aad.
Proof. intros self r self' [= <- <-]. split; [by right|left; by eexists]. Qed.
Lemma quiet_bind {A B} (m : stateful MlsGroup CommitCallError A) (k : A -> stateful MlsGroup CommitCallError B) :
  quiet m -> (forall a, quiet (k a)) -> quiet (m ≫= k).
Proof.
  intros Hm Hk self r self'. unfold mbind, stateful_bind. destruct (m self) as [[a|e|] s] eqn:Em; [intros Ek|intros [= <- <-]..].
  - destruct (Hm _ _ _ Em) as [[->| ->] _], (Hk a _ _ _ Ek) as [[->| ->] ?]; auto.
  - destruct (Hm _ _ _ Em) as [? [[? [=]]|?]]; auto.
  - destruct (Hm _ _ _ Em) as [? [[? [=]]|?]]; auto.
Qed.

Lemma stages_refused {A} self0 e : stages (A := A) self0 (lifting (Err e)).
Proof. intros r self' [= <- <-]. by left. Qed.

(** The builder's own [stage_commit] stages its commit in any group. *)
Lemma builder_stages complete guard self r self' :
  CBuilder.stage_commit complete guard self = (r, self') ->
  staged self self' /\ group_state self' = PendingCommit (PendingMember (ccr_staged_commit (co_result complete))).
Proof.
  unfold CBuilder.stage_commit, modifying, reading, mret, stateful_ret, mbind, stateful_bind. cbv beta zeta iota.
  destruct (MGroup.content_to_mls_message _ _ _) as [rm s] eqn:Em. apply content_to_message_frame in Em as (ms & Hs). intros E.
  assert (self' = s) as -> by (by destruct rm; injection E). destruct Hs as [->| ->]; (split; [|done]); split; try done; by eexists.
Qed.

Lemma build_and_stage_stages rnd clock storage signer new_signer builder self :
  stages self (MPropose.build_and_stage rnd clock storage signer new_signer builder).
Proof.
  intros r self'. unfold MPropose.build_and_stage, reading. unfold mbind, stateful_bind.
  destruct (map_err _ (CBuilder.load_psks _ _ _)) as [loaded|e|]; [|by intros [= <- <-]; left..].
  destruct (map_err _ _) as [complete|e|]; [|by intros [= <- <-]; left..].
  unfold Kem.with_err. destruct (CBuilder.stage_commit complete _ self) as [rs s] eqn:Es. apply builder_stages in Es as [Hs _].
  intros [= <- <-]. right. split; [done|]. destruct rs as [x|e|]; [left; by eexists|by right..].
Qed.

(** A call either has no effect and does not succeed, or stages a commit, in an operational group. *)
Definition commits_once {A} (m : stateful MlsGroup CommitCallError A) : Prop :=
  forall self r self', m self = (r, self') ->
    (self' = self /\ forall a, r <> Ok a) \/ (group_state self = Operational /\ staged self self' /\ ((exists a, r = Ok a) \/ late r)).

Lemma operational_then {A} (state : MlsGroupStateError -> CommitCallError) (m : stateful MlsGroup CommitCallError A) :
  (forall self, stages self m) -> commits_once (_ ← MPropose.check_operational state; m).
Proof.
  intros H self r self'. unfold MPropose.check_operational, MGroup.is_operational, reading. unfold mbind, stateful_bind.
  destruct (group_state self); cbn [map_err]; [intros [= <- <-]; by left|intros Em; destruct (H _ _ _ Em); auto|intros [= <- <-]; by left].
Qed.

Lemma commits_discard {A} (m : stateful MlsGroup CommitCallError A) : commits_once m -> commits_once (_ ← m; mret tt).
Proof.
  intros H self r self'. unfold mbind, stateful_bind. destruct (m self) as [[a|e|] s] eqn:Em; intros [= <- <-].
  - destruct (H _ _ _ Em) as [[_ Hn]|(Ho & Hs & _)]; [by destruct (Hn a)|right]. split_and!; [done..|left; by eexists].
  - destruct (H _ _ _ Em) as [[-> _]|(Ho & Hs & [[? [=]]|Hl])]; [by left|right]. split_and!; [done..|by right].
  - destruct (H _ _ _ Em) as [[-> _]|(Ho & Hs & _)]; [by left|right]. split_and!; [done..|by right].
Qed.

Lemma run_call_commits rnd clock storage signer call : commits_once (run_call rnd clock storage signer call).
Proof.
  destruct call as [kps [|]|ms kps|ms|ps [ns|]|exts|]; apply commits_discard, operational_then; intros self;
    repeat case_bool_decide; cbn [negb]; try apply stages_refused; try apply build_and_stage_stages;
    (apply stages_bind; [apply build_and_stage_stages|]); intros bundle;
    repeat first [apply quiet_ret|apply quiet_ok_or|apply quiet_reset|apply quiet_bind; [|intros ?]].
Qed.
End Commits.

(** ** Properties *)
Section Properties.
Context {OC : OpenMlsCrypto} {TC : TlsCodec} {VC : TlsVecCodec}.
Context {LK : LawfulKdf} {LA : LawfulAead} {LC : LawfulCodec} {LV : LawfulVecCodec}.
#[local] Existing Instance content_decoder.

Lemma proposal_decodable p : wire_proposal p -> proposal_received p = p -> decodable (BodyProposal p).
Proof. intros Hp Hr e rest E. rewrite (body_read (BodyProposal p) e rest Hp E). cbn [body_received]. by rewrite Hr. Qed.

(** C18. A call of the group that commits (to add, swap or remove members, to update the own leaf,
    with a new signer or not, to change the extensions, or to cover the pending proposals)
    succeeds only in an operational group, and then leaves it in its epoch with the commit
    pending: public group, queued proposals, epoch secrets and own leaf nodes are those from
    before. A call that fails leaves the group exactly as it was, unless it fails with a library
    error (or panics) after the commit was staged, when the message could not be framed or the
    Welcome is missing: then, too, the group was operational and the commit is pending. So no
    call replaces a pending commit. The commit builder's own [stage_commit] does: it makes its
    commit the pending one in any group, and changes nothing else of this. *)
Theorem commit_calls_stage_once rnd clock storage signer call self :
  (let '(r, self') := run_call rnd clock storage signer call self in
   match r with
   | Ok _ => group_state self = Operational /\ staged self self'
   | _ => self' = self \/ (group_state self = Operational /\ staged self self' /\ late r)
   end) /\
  (forall complete guard, let '(_, self') := CBuilder.stage_commit complete guard self in
     staged self self' /\ group_state self' = PendingCommit (PendingMember (ccr_staged_commit (co_result complete)))).
Proof.
  split.
  - destruct (run_call _ _ _ _ _ _) as [r self'] eqn:E. destruct (run_call_commits _ _ _ _ _ _ _ _ E) as [[-> H]|(Ho & Hs & Hr)].
    + destruct r as [[]| |]; [by destruct (H tt)|auto..].
    + destruct r as [[]| |]; [done|destruct Hr as [[? [=]]|Hr]; auto..].
  - intros complete guard. destruct (CBuilder.stage_commit _ _ _) as [r self'] eqn:E. by eapply builder_stages.
Qed.

(** C7. A proposal that a member makes is queued under the reference that is returned, as the
    proposal that was asked for, and the authenticated data is reset. Another member of the
    epoch for which the proposal is valid processes the message, framed in plain or encrypted,
    to the same proposal under the same reference: both queue the same, and they stay in
    step. The proposal's values fit their encodings. *)
Theorem proposal_delivered d es ga gb keys guard leaf_random signer propose ref_or_value message reference ga' keys' leaf storage clock :
  in_step d es ga gb -> hears ga gb leaf signer -> Z.of_nat (length guard) = REUSE_GUARD_BYTES ->
  MPropose.propose_dispatch (Some guard) leaf_random signer propose ref_or_value (ga, keys)
    = (Ok (message, reference), (ga', keys')) ->
  exists p, proposes ga propose p /\ aad ga' = [] /\
    MGroup.proposal_store ga' = Store.add (MGroup.proposal_store ga)
      (mkQueuedProposal p reference (Sender.Member (own_leaf_index ga)) (queued_as propose ref_or_value)) /\
    (wire_proposal p -> proposal_received p = p ->
     proposal_validate p clock (MGroup.ciphersuite gb) (Some (ContextMember (MGroup.group_id gb) (own_leaf_index ga)))
       (MGroup.version gb) Verify = Ok p ->
     exists gb', MProcess.process_message storage clock message gb
         = (Ok (received_proposal gb (own_leaf_index ga) (aad ga) leaf p reference), gb') /\
       in_step d es ga' gb' /\
       MGroup.proposal_store (MCommit.store_pending_proposal gb' (mkQueuedProposal p reference (Sender.Member (own_leaf_index ga)) ByReference))
         = Store.add (MGroup.proposal_store gb) (mkQueuedProposal p reference (Sender.Member (own_leaf_index ga)) ByReference)).
Proof.
  intros Hstep Hh Hguard E.
  destruct (dispatch_delivered d es ga gb _ _ _ _ _ _ _ _ _ _ leaf storage clock Hstep Hh Hguard E) as (p & Hp & Ha & Hs & Hd).
  exists p. split_and!; [done..|]. intros Hw Hr. by apply Hd, proposal_decodable.
Qed.
End Properties.
