(* ===== verification/MemberProcessingFacts.v ===== *)
(** * Groups of a member: processing messages

    What [process_message] does to the group for every message, genuine or not: only secret
    trees change, no key material is given up unless the message is accepted, and a message
    that was accepted is never accepted again. *)
From S2P Require Import Prelude TreeMath TreeMathFacts BinaryTree Crypto CryptoFacts SenderRatchet SenderRatchetFacts SecretTree SecretTreeFacts SecretTreeProgress PastSecrets Extensions TreeSync LeafNode TreeKem Proposals KeySchedule Framing PrivateMessages ProposalStore PublicGroup StagedCommit MessageValidation MemberGroup MemberCommit MemberProcessing PrivateMessagesFacts MemberMessagesFacts.

(** ** What can change *)

(** Trees of past epochs, paired with what they became. *)
Definition past_framed (R : SecretTree -> SecretTree -> Prop) (p p' : EpochTree GroupMember) : Prop :=
  exists t, p' = mkEpochTree (PastSecrets.epoch p) (set_secret_tree (epoch_message_secrets p) t) (leaves p) /\
    R (secret_tree (epoch_message_secrets p)) t.

(** Only the secret trees changed, each as [R] says. *)
Definition framed (R : SecretTree -> SecretTree -> Prop) (self self' : MlsGroup) : Prop :=
  exists t past, R (secret_tree_of self) t /\
    Forall2 (past_framed R) (past_epoch_trees (message_secrets_store self)) past /\
    self' = MGroup.set_secrets_store self (mkStore (max_epochs (message_secrets_store self)) past
              (set_secret_tree (MGroup.current_secrets self) t)).

Lemma set_secret_tree_id ms : set_secret_tree ms (secret_tree ms) = ms.
Proof. by destruct ms. Qed.

Lemma past_framed_refl R `{!Reflexive R} p : past_framed R p p.
Proof. exists (secret_tree (epoch_message_secrets p)). rewrite set_secret_tree_id. by destruct p. Qed.

#[export] Instance framed_preorder R `{!PreOrder R} : PreOrder (framed R).
Proof.
  split.
  - intros self. exists (secret_tree_of self), (past_epoch_trees (message_secrets_store self)). split_and!; [reflexivity| |].
    + apply Forall_Forall2_diag, Forall_forall. intros p _. apply past_framed_refl, _.
    + unfold secret_tree_of. rewrite set_secret_tree_id. by destruct self as [? ? ? ? [] ? ? ? ?].
  - intros x y z (t1 & p1 & H1 & P1 & ->) (t2 & p2 & H2 & P2 & ->). cbn in *. exists t2, p2. split_and!; [by etransitivity| |done].
    clear H1 H2. revert p2 P2. induction P1 as [|p p' l l' (ta & -> & Ha) _ IH]; intros p2 P2; inversion P2 as [|? p'' ? l'' (tb & -> & Hb)];
      subst; [constructor|]. constructor; [|by apply IH]. exists tb. split; [done|]. by etransitivity.
Qed.

Lemma framed_mono (R R' : SecretTree -> SecretTree -> Prop) self self' :
  (forall t t', R t t' -> R' t t') -> framed R self self' -> framed R' self self'.
Proof.
  intros HR (t & past & Ht & Hp & ->). exists t, past. split_and!; [auto| |done]. eapply Forall2_impl; [exact Hp|].
  intros p p' (x & -> & Hx). exists x. auto.
Qed.

(** ** Secrets of an epoch *)
Definition put_secrets (self : MlsGroup) (e : Z) (ms : MessageSecrets) : MlsGroup :=
  if e <? MGroup.epoch self then MGroup.set_past_secrets self e ms else MGroup.set_current_secrets self ms.

Section Epochs.
Implicit Types self : MlsGroup.

Lemma epoch_found self e ms :
  MGroup.message_secrets_for_epoch self e = Ok ms ->
  if e <? MGroup.epoch self then
    exists i p, list_find (fun t => PastSecrets.epoch t = e) (past_epoch_trees (message_secrets_store self)) = Some (i, p) /\
      ms = epoch_message_secrets p
  else ms = MGroup.current_secrets self.
Proof.
  unfold MGroup.message_secrets_for_epoch. destruct (e <? MGroup.epoch self); [|by intros [= <-]].
  intros H%ok_or_Ok. unfold secrets_for_epoch, find_epoch in H. destruct (list_find _ _) as [[i p]|]; [|done].
  injection H as <-. eauto.
Qed.

Lemma put_framed R `{!Reflexive R} self e ms t :
  MGroup.message_secrets_for_epoch self e = Ok ms -> R (secret_tree ms) t -> framed R self (put_secrets self e (set_secret_tree ms t)).
Proof.
  intros H Ht. apply epoch_found in H. unfold put_secrets. destruct (e <? MGroup.epoch self).
  - destruct H as (i & p & Hf & ->). unfold MGroup.set_past_secrets. rewrite Hf. apply list_find_Some in Hf as (Hi & _ & _).
    exists (secret_tree_of self). eexists. split_and!; [reflexivity| |unfold secret_tree_of; by rewrite set_secret_tree_id].
    rewrite <- (list_insert_id _ _ _ Hi) at 1. apply Forall2_insert; [|by exists t].
    apply Forall_Forall2_diag, Forall_forall. intros q _. apply past_framed_refl, _.
  - subst ms. exists t, (past_epoch_trees (message_secrets_store self)). split_and!; [done| |done].
    apply Forall_Forall2_diag, Forall_forall. intros q _. apply past_framed_refl, _.
Qed.

Lemma set_past_found self e ms i p :
  list_find (fun t => PastSecrets.epoch t = e) (past_epoch_trees (message_secrets_store self)) = Some (i, p) ->
  let past := <[i := mkEpochTree (PastSecrets.epoch p) ms (leaves p)]> (past_epoch_trees (message_secrets_store self)) in
  MGroup.set_past_secrets self e ms = MGroup.set_secrets_store self (set_trees (message_secrets_store self) past) /\
  list_find (fun t => PastSecrets.epoch t = e) past = Some (i, mkEpochTree (PastSecrets.epoch p) ms (leaves p)).
Proof.
  intros Hf. unfold MGroup.set_past_secrets. rewrite Hf. split; [done|]. apply list_find_Some in Hf as (Hi & Hp & Hlt).
  apply list_find_Some. split_and!; [apply list_lookup_insert_eq; by eapply lookup_lt_Some|done|]. intros j q Hj Hl.
  rewrite list_lookup_insert_ne in Hj by lia. by apply (Hlt j q).
Qed.

Lemma for_epoch_mut_found {E A} (f : SecretTreeError -> E) e (m : stateful MessageSecrets E A) self ms :
  MGroup.message_secrets_for_epoch self e = Ok ms ->
  MGroup.message_secrets_for_epoch_mut f e m self = (let '(r, ms') := m ms in (r, put_secrets self e ms')).
Proof. intros H. unfold MGroup.message_secrets_for_epoch_mut. by rewrite H. Qed.

Lemma put_get self e ms ms' :
  MGroup.message_secrets_for_epoch self e = Ok ms -> MGroup.message_secrets_for_epoch (put_secrets self e ms') e = Ok ms'.
Proof.
  intros H. apply epoch_found in H. unfold MGroup.message_secrets_for_epoch, put_secrets.
  destruct (e <? MGroup.epoch self) eqn:He; [|by change (MGroup.epoch (MGroup.set_current_secrets self ms')) with (MGroup.epoch self); rewrite He].
  destruct H as (i & p & Hf & ->). destruct (set_past_found self e ms' i p Hf) as [-> Hf'].
  change (MGroup.epoch (MGroup.set_secrets_store self _)) with (MGroup.epoch self). rewrite He.
  unfold secrets_for_epoch, find_epoch. cbn. by rewrite Hf'.
Qed.

Lemma put_put self e ms ms1 ms2 :
  MGroup.message_secrets_for_epoch self e = Ok ms -> put_secrets (put_secrets self e ms1) e ms2 = put_secrets self e ms2.
Proof.
  intros H. apply epoch_found in H. unfold put_secrets. destruct (e <? MGroup.epoch self) eqn:He.
  2: { change (MGroup.epoch (MGroup.set_current_secrets self ms1)) with (MGroup.epoch self). by rewrite He. }
  destruct H as (i & p & Hf & ->). destruct (set_past_found self e ms1 i p Hf) as [-> Hf1].
  destruct (set_past_found self e ms2 i p Hf) as [-> _].
  change (MGroup.epoch (MGroup.set_secrets_store self _)) with (MGroup.epoch self). rewrite He.
  match goal with |- MGroup.set_past_secrets ?x _ _ = _ => destruct (set_past_found x e ms2 i _ Hf1) as [-> _] end.
  cbn. by rewrite list_insert_insert_eq.
Qed.
End Epochs.

(** ** Effect of processing *)
Section Processing.
Context {OC : OpenMlsCrypto} {TC : TlsCodec} {CD : ContentDecoder}.
Implicit Types self : MlsGroup.

(** Ratchets were at most initialised. *)
Definition unused (cs : Ciphersuite) (cfg : SenderRatchetConfiguration) (t t' : SecretTree) : Prop :=
  forall d es own, 0 <= d <= 29 -> wf_config cfg -> tree_inv cs cfg d es own t -> keeps cs cfg d es own t t'.

(** Ratchets moved forward only. *)
Definition advances (cs : Ciphersuite) (cfg : SenderRatchetConfiguration) (t t' : SecretTree) : Prop :=
  forall d es own, 0 <= d <= 29 -> wf_config cfg -> tree_inv cs cfg d es own t -> tree_inv cs cfg d es own t' /\ progress t t'.

#[export] Instance unused_preorder cs cfg : PreOrder (unused cs cfg).
Proof.
  split.
  - intros t d es own _ _ Ht. by apply keeps_refl.
  - intros x y z H1 H2 d es own Hd Hc Hx. destruct (H1 d es own Hd Hc Hx) as [Hy [E1 N1]].
    destruct (H2 d es own Hd Hc Hy) as [Hz [E2 N2]]. split; [done|]. split; [eauto|].
    intros ty i r Hr. destruct (N2 _ _ _ Hr) as [Hr'|]; [|by right]. by apply N1.
Qed.

#[export] Instance advances_preorder cs cfg : PreOrder (advances cs cfg).
Proof.
  split.
  - intros t d es own _ _ Ht. by apply (keeps_progress cs cfg d es own), keeps_refl.
  - intros x y z H1 H2 d es own Hd Hc Hx. destruct (H1 d es own Hd Hc Hx) as [Hy P1].
    destruct (H2 d es own Hd Hc Hy) as [Hz P2]. split; [done|by eapply progress_trans].
Qed.

Lemma unused_advances cs cfg t t' : unused cs cfg t t' -> advances cs cfg t t'.
Proof. intros H d es own Hd Hc Ht. by apply keeps_progress, H. Qed.

Abbreviation config_of self := (sender_ratchet_configuration (mls_group_config self)).

(** Key material for a private message of another member was prepared, from the message secrets
    [ms] of its epoch and the sender data [sd] of the message. *)
Record prepared self (c : PrivateMessage) (ou : option PendingRatchetUpdate) (self' : MlsGroup) : Prop := {
  prepared_by : exists ms sd t' k, MGroup.message_secrets_for_epoch self (pvm_epoch c) = Ok ms /\
    sender_data c ms (MGroup.ciphersuite self) = Ok sd /\ sd_leaf_index sd <> MSecrets.own_index ms /\
    self' = put_secrets self (pvm_epoch c) (set_secret_tree ms t') /\
    STree.prepare_decryption (MGroup.ciphersuite self) (sd_leaf_index sd) (SecretType_from (pvm_content_type c)) (sd_generation sd)
      (config_of self) (secret_tree ms) = (Ok (Available k, ou), t');
}.

(** The member sent the message itself. *)
Definition own_message self (c : PrivateMessage) : Prop :=
  exists ms sd, MGroup.message_secrets_for_epoch self (pvm_epoch c) = Ok ms /\
    sender_data c ms (MGroup.ciphersuite self) = Ok sd /\ sd_leaf_index sd = MSecrets.own_index ms.

Lemma sender_data_range c ms cs sd : sender_data c ms cs = Ok sd -> 0 <= sd_leaf_index sd /\ u32.is_u32 (sd_generation sd).
Proof.
  unfold sender_data. intros E. do 4 (apply bind_Ok in E as (? & _ & E)). apply ok_or_Ok in E. unfold tls_read_sender_data in E.
  apply bind_Some in E as ([i b1] & E1%read_be_range & E). apply bind_Some in E as ([g b2] & E2%read_be_range & E).
  apply bind_Some in E as ([rg b3] & _ & [= <-]). cbn. change (2 ^ (8 * Z.of_nat 4)) with (2 ^ 32) in *. unfold u32.is_u32, u32.modulus. lia.
Qed.

Context {LK : LawfulKdf}.

Lemma prepare_unused cs cfg i ty g t r t' :
  0 <= i -> STree.prepare_decryption cs i ty g cfg t = (r, t') -> unused cs cfg t t'.
Proof. intros Hi E d es own Hd Hc Ht. by eapply (prepare_extends cs cfg d es own Hd Hc). Qed.

Lemma inbound_effect c self r self' :
  MProcess.from_inbound_ciphertext c (config_of self) self = (r, self') ->
  framed (unused (MGroup.ciphersuite self) (config_of self)) self self' /\
  (forall v ou, r = Ok (Decrypted v ou) -> prepared self c ou self') /\ (forall e data, r = Ok (OwnPrivate e data) -> own_message self c).
Proof.
  unfold MProcess.from_inbound_ciphertext, reading, lifting. unfold mbind at 1 2 3, stateful_bind at 1 2 3.
  set (R := unused (MGroup.ciphersuite self) (config_of self)). intros E.
  destruct (map_err _ (MGroup.message_secrets_and_leaves self (pvm_epoch c))) as [[ms ls]|e|] eqn:Es; [|by injection E as <- <-..].
  assert (MGroup.message_secrets_for_epoch self (pvm_epoch c) = Ok ms) as Hms.
  { apply map_err_Ok in Es. unfold MGroup.message_secrets_and_leaves, MGroup.message_secrets_for_epoch in *.
    destruct (_ <? _); [|by injection Es as <- _]. apply ok_or_Ok in Es. unfold secrets_and_leaves_for_epoch, secrets_for_epoch in *.
    destruct (find_epoch _ _); [|done]. by injection Es as <- _. }
  destruct (map_err UnableToDecrypt (sender_data c ms (MGroup.ciphersuite self))) as [sd|e|] eqn:Esd; [|by injection E as <- <-..].
  apply map_err_Ok in Esd. destruct (sender_data_range _ _ _ _ Esd) as [Hi Hg].
  destruct (Z.eqb_spec (sd_leaf_index sd) (MSecrets.own_index ms)) as [Ho|Hne].
  { injection E as <- <-. split_and!; [reflexivity|done|]. intros e data _. by exists ms, sd. }
  unfold mbind at 1, stateful_bind at 1 in E. rewrite (for_epoch_mut_found _ _ _ _ _ Hms) in E. unfold secret_tree_mut in E.
  destruct (STree.prepare_decryption _ _ _ _ _ _) as [rp t'] eqn:Ep.
  pose proof (put_framed R self (pvm_epoch c) ms t' Hms (prepare_unused _ _ _ _ _ _ _ _ Hi Ep)) as Hf.
  destruct rp as [[[ks] ou]|e|]; cbn [map_err] in E; [|by injection E as <- <-..].
  unfold mbind, stateful_bind in E.
  destruct (map_err (fun _ => UnableToDecrypt AeadError) (MGroup.message_secrets_for_epoch (put_secrets _ _ _) _)) as [ms'|e|];
    [|by injection E as <- <-..].
  destruct (map_err UnableToDecrypt (to_verifiable_content _ _ _ _)) as [v|e|]; [|by injection E as <- <-..].
  destruct (from_verifiable_content v) as [v'|e|]; [|by injection E as <- <-..].
  injection E as <- <-. split_and!; [done| |done]. intros v'' ou' [= <- <-]. split. by exists ms, sd, t', ks.
Qed.

(** What was prepared for the message, if it is a private one. *)
Definition prepared_for self (message : ProtocolMessage) (ou : option PendingRatchetUpdate) (self' : MlsGroup) : Prop :=
  match message with PrivateProtocolMessage c => prepared self c ou self' | PublicProtocolMessage _ => ou = None end.

Definition own_for self (message : ProtocolMessage) : Prop :=
  match message with PrivateProtocolMessage c => own_message self c | PublicProtocolMessage _ => False end.

Lemma decrypt_effect message self r self' :
  MProcess.decrypt_message message (config_of self) self = (r, self') ->
  framed (unused (MGroup.ciphersuite self) (config_of self)) self self' /\
  (forall v ou, r = Ok (Decrypted v ou) -> prepared_for self message ou self') /\
  (forall e data, r = Ok (OwnPrivate e data) -> own_for self message).
Proof.
  unfold MProcess.decrypt_message. unfold mbind at 1, stateful_bind at 1, reading at 1. intros E.
  destruct (validate_framing _ _) as [[]|e|]; [|by injection E as <- <-..]. destruct message as [c|c]; [by apply inbound_effect in E|].
  unfold reading in E. injection E as <- <-. split_and!; [reflexivity|..]; intros ? ? E;
    apply bind_Ok in E as (ms & _ & E); by apply bind_Ok in E as (x & _ & [= _ <-]).
Qed.

Lemma unprotect_effect message self r self' :
  MProcess.unprotect_message message self = (r, self') ->
  framed (unused (MGroup.ciphersuite self) (config_of self)) self self' /\
  (forall um oe, r = Ok (Unverified um oe) ->
     exists ou, oe = mkEpochRatchetUpdate (PMsg.epoch message) <$> ou /\ prepared_for self message ou self') /\
  (forall e data, r = Ok (UnprotectedOwnPrivate e data) -> own_for self message).
Proof.
  unfold MProcess.unprotect_message, reading, lifting. unfold mbind at 1 2, stateful_bind at 1 2. intros E.
  destruct (negb (MGroup.is_active self)); [by injection E as <- <-|]. destruct (_ && _); [by injection E as <- <-|].
  unfold Kem.with_err in E. unfold mbind at 1, stateful_bind at 1 in E.
  destruct (MProcess.decrypt_message message (config_of self) self) as [rd self1] eqn:Ed. apply decrypt_effect in Ed as (Hf & Hp & Ho).
  destruct rd as [[v ou|e data]|e|]; cbn [map_err] in E; [| |by injection E as <- <-..].
  - unfold mbind, stateful_bind in E. destruct (map_err ProcessValidation _) as [um|e|]; [|by injection E as <- <-..].
    injection E as <- <-. split_and!; [done| |done]. intros um' oe [= _ <-]. exists ou. split; [done|by eapply Hp].
  - injection E as <- <-. split_and!; [done..|]. intros e' data' _. by eapply Ho.
Qed.

Lemma apply_fails_unchanged u cfg t r t' : STree.apply_decryption_update u cfg t = (r, t') -> r <> Ok tt -> t' = t.
Proof.
  unfold STree.apply_decryption_update, reading, lifting. unfold mbind, stateful_bind. intros E Hr.
  destruct (STree.ratchet_mut _ _ _) as [[h|dr]|e|]; [by injection E as <- <-| |by injection E as <- <-..].
  destruct (update_peeked u). destruct (consume _ _ _) as [dr'|e|]; [|by injection E as <- <-..].
  eapply updating_fails; [exact E|]. by intros [].
Qed.

Lemma config_put self e ms : config_of (put_secrets self e ms) = config_of self.
Proof. unfold put_secrets, MGroup.set_past_secrets. by repeat case_match. Qed.

Lemma apply_effect self c u self1 r self2 :
  prepared self c (Some u) self1 -> MProcess.apply_ratchet_update (mkEpochRatchetUpdate (pvm_epoch c) u) self1 = (r, self2) ->
  framed (advances (MGroup.ciphersuite self) (config_of self)) self self2 /\ (r <> Ok tt -> self2 = self1).
Proof.
  intros [(ms & sd & t1 & k & Hms & Hsd & _ & -> & Ep)] E. destruct (sender_data_range _ _ _ _ Hsd) as [Hi Hg].
  unfold MProcess.apply_ratchet_update, reading in E. unfold mbind, stateful_bind in E. cbn [eru_epoch eru_update] in E.
  rewrite (for_epoch_mut_found _ _ _ _ _ (put_get _ _ _ _ Hms)), config_put in E. unfold secret_tree_mut in E.
  change (secret_tree (set_secret_tree ms t1)) with t1 in E.
  destruct (STree.apply_decryption_update u (config_of self) t1) as [ra t2] eqn:Ea.
  rewrite (put_put _ _ _ _ _ Hms) in E. injection E as <- <-. split.
  - apply (put_framed (advances (MGroup.ciphersuite self) (config_of self)) self (pvm_epoch c) ms t2 Hms). intros d es own Hd Hc Ht.
    pose proof (prepare_spec _ _ d es own Hd _ _ (SecretType_from (pvm_content_type c)) _ Hc Ht Hi Hg) as Hp. rewrite Ep in Hp.
    destruct Hp as (Ht1 & Hp1 & u' & [= <-] & _ & _ & _ & _ & Hpend).
    pose proof (apply_spec _ _ d es own Hd _ _ _ Hc Ht1 Hpend) as Ha. rewrite Ea in Ha. destruct ra as [[]|e'|]; [|by subst t2|done].
    destruct Ha as (Ht2 & Hp2 & _). split; [done|by eapply progress_trans].
  - intros Hr. rewrite (apply_fails_unchanged _ _ _ _ _ Ea); [done|]. by intros ->.
Qed.

(** What is left of a message that passed [process_message]. *)
Record processed_to self (message : ProtocolMessage) (pm : ProcessedMessage) self' : Prop := {
  processed_by :
    (own_for self message /\ processed_content pm = OwnPrivateMessage) \/
    exists ou self1, prepared_for self message ou self1 /\
      match ou with
      | Some u => MProcess.apply_ratchet_update (mkEpochRatchetUpdate (PMsg.epoch message) u) self1 = (Ok tt, self')
      | None => self' = self1
      end;
}.

Lemma process_effect storage clock message policy self r self' :
  MProcess.process_message_with_lifetime_policy storage clock message policy self = (r, self') ->
  framed (advances (MGroup.ciphersuite self) (config_of self)) self self' /\
  ((forall p, r <> Ok p) -> framed (unused (MGroup.ciphersuite self) (config_of self)) self self') /\
  (forall pm, r = Ok pm -> processed_to self message pm self').
Proof.
  unfold MProcess.process_message_with_lifetime_policy. unfold mbind at 1, stateful_bind at 1. intros E.
  destruct (MProcess.unprotect_message message self) as [ru self1] eqn:Eu. apply unprotect_effect in Eu as (Hf & Hp & Ho).
  pose proof (framed_mono _ _ _ _ (unused_advances (MGroup.ciphersuite self) (config_of self)) Hf) as Hf'.
  destruct ru as [[um oe|e data]|e|]; [| |by injection E as <- <-..].
  2: { unfold mbind, stateful_bind, reading in E. destruct (map_err _ _) as [cr|e'|]; injection E as <- <-; split_and!; try done.
       intros pm [= <-]. split. left. split; [by eapply Ho|done]. }
  destruct (Hp um oe eq_refl) as (ou & -> & Hprep). unfold MProcess.process_unverified_message, reading in E. unfold mbind, stateful_bind in E.
  destruct (map_err ProcessValidation _) as [verified|e|]; [|by injection E as <- <-..].
  destruct (MProcess.process_verified_message _ _ _ _ _) as [pm|e|]; [|by injection E as <- <-..].
  destruct ou as [u|]; cbn [fmap option_fmap option_map] in E.
  2: { injection E as <- <-. split_and!; [done|by intros H; destruct (H pm)|]. intros pm' _. split. right. by exists None, self1. }
  destruct message as [c|c]; [|done]. destruct (MProcess.apply_ratchet_update _ self1) as [ra self2] eqn:Ea.
  destruct (apply_effect _ _ _ _ _ _ Hprep Ea) as [Hg Hu].
  destruct ra as [[]|e'|]; injection E as <- <-; split_and!; try done.
  - intros Hr. by destruct (Hr pm).
  - intros pm' _. split. right. by exists (Some u), self1.
  - intros _. by rewrite Hu.
  - intros _. by rewrite Hu.
Qed.

(** ** Replays *)

(** The group after it has processed messages, each with the storage, the time and the policy of
    its call. *)
Definition process_all (messages : list (Storage * Z * LeafNodeLifetimePolicy * ProtocolMessage)) self : MlsGroup :=
  foldl (fun self '(storage, clock, policy, message) =>
    (MProcess.process_message_with_lifetime_policy storage clock message policy self).2) self messages.

Lemma framed_fields R gb gb' :
  framed R gb gb' -> own_leaf_index gb' = own_leaf_index gb /\ MGroup.is_active gb' = MGroup.is_active gb /\
    MGroup.ciphersuite gb' = MGroup.ciphersuite gb /\ config_of gb' = config_of gb.
Proof. by intros (t & past & _ & _ & ->). Qed.

Lemma process_all_framed messages self :
  framed (advances (MGroup.ciphersuite self) (config_of self)) self (process_all messages self).
Proof.
  revert self. induction messages as [|[[[storage clock] policy] message] messages IH]; intros self; [cbn; reflexivity|].
  cbn [process_all foldl]. destruct (MProcess.process_message_with_lifetime_policy storage clock message policy self) as [r self1] eqn:E. cbn [snd].
  apply process_effect in E as [E _]. destruct (framed_fields _ _ _ E) as (_ & _ & Hcs & Hcf). etransitivity; [exact E|].
  rewrite <- Hcs, <- Hcf. apply IH.
Qed.

Lemma past_framed_find R e l l' i p :
  Forall2 (past_framed R) l l' -> list_find (fun t => PastSecrets.epoch t = e) l = Some (i, p) ->
  exists p', list_find (fun t => PastSecrets.epoch t = e) l' = Some (i, p') /\ past_framed R p p'.
Proof.
  intros HF. revert i. induction HF as [|x x' l l' (t & -> & Ht) _ IH]; intros i; [done|]. cbn [list_find].
  change (PastSecrets.epoch (mkEpochTree (PastSecrets.epoch x) (set_secret_tree (epoch_message_secrets x) t) (leaves x))) with (PastSecrets.epoch x).
  case_decide as He.
  - intros [= <- <-]. eexists. split; [done|]. by exists t.
  - intros ([j y] & Hj & [= -> ->])%fmap_Some. destruct (IH j Hj) as (p' & -> & Hp). by exists p'.
Qed.

(** The message secrets of an epoch after a framed change: only the tree differs. *)
Lemma framed_secrets R self self' e ms :
  framed R self self' -> MGroup.message_secrets_for_epoch self e = Ok ms ->
  exists t, MGroup.message_secrets_for_epoch self' e = Ok (set_secret_tree ms t) /\ R (secret_tree ms) t.
Proof.
  intros (t & past & Ht & Hp & ->) H. unfold MGroup.message_secrets_for_epoch in *.
  change (MGroup.epoch (MGroup.set_secrets_store self _)) with (MGroup.epoch self). destruct (e <? MGroup.epoch self).
  - apply ok_or_Ok in H. unfold secrets_for_epoch, find_epoch in *. cbn [past_epoch_trees message_secrets_store MGroup.set_secrets_store].
    destruct (list_find _ (past_epoch_trees (message_secrets_store self))) as [[i p]|] eqn:Ef; [|done]. injection H as <-.
    destruct (past_framed_find _ _ _ _ _ _ Hp Ef) as (p' & -> & t' & -> & Ht'). by exists t'.
  - injection H as <-. by exists t.
Qed.

Context (d : Z) (es : Secret) (own : LeafNodeIndex.t) (Hd : 0 <= d <= 29).

(** A message of another member that passed has used its generation, which was unused before. *)
Lemma accepted_uses storage clock policy c self ms pm self' :
  wf_config (config_of self) -> MGroup.message_secrets_for_epoch self (pvm_epoch c) = Ok ms ->
  tree_inv (MGroup.ciphersuite self) (config_of self) d es own (secret_tree ms) ->
  MProcess.process_message_with_lifetime_policy storage clock (PrivateProtocolMessage c) policy self = (Ok pm, self') ->
  exists sd, sender_data c ms (MGroup.ciphersuite self) = Ok sd /\
    let ty := SecretType_from (pvm_content_type c) in
    ((sd_leaf_index sd = MSecrets.own_index ms /\ processed_content pm = OwnPrivateMessage) \/
     (sd_leaf_index sd <> MSecrets.own_index ms /\ ~ used (secret_tree ms) (sd_leaf_index sd) ty (sd_generation sd) /\
      exists t, MGroup.message_secrets_for_epoch self' (pvm_epoch c) = Ok (set_secret_tree ms t) /\
        tree_inv (MGroup.ciphersuite self) (config_of self) d es own t /\ used t (sd_leaf_index sd) ty (sd_generation sd))).
Proof.
  intros Hc Hms Ht E. apply process_effect in E as (_ & _ & Hpt). destruct (Hpt pm eq_refl) as [[[(ms' & sd & Hms' & Hsd & Ho) Hpm]|(ou & self1 & Hprep & Ha)]].
  { rewrite Hms in Hms'. injection Hms' as <-. exists sd. split; [done|]. by left. }
  destruct Hprep as [(ms' & sd & t1 & k & Hms' & Hsd & Hne & -> & Ep)]. rewrite Hms in Hms'. injection Hms' as <-.
  exists sd. split; [done|]. right. split; [done|]. destruct (sender_data_range _ _ _ _ Hsd) as [Hi Hg].
  pose proof (prepare_spec _ _ d es own Hd _ _ (SecretType_from (pvm_content_type c)) _ Hc Ht Hi Hg) as Hp. rewrite Ep in Hp.
  destruct Hp as (Ht1 & Hp1 & u & -> & Hui & Hut & Hug & _ & Hpend).
  unfold MProcess.apply_ratchet_update, reading in Ha. unfold mbind, stateful_bind in Ha. cbn [eru_epoch eru_update PMsg.epoch] in Ha.
  rewrite (for_epoch_mut_found _ _ _ _ _ (put_get _ _ _ _ Hms)), config_put in Ha. unfold secret_tree_mut in Ha.
  change (secret_tree (set_secret_tree ms t1)) with t1 in Ha.
  pose proof (apply_spec _ _ d es own Hd _ _ _ Hc Ht1 Hpend) as Hap.
  destruct (STree.apply_decryption_update u (config_of self) t1) as [[[]|e|] t2]; [|done..]. rewrite (put_put _ _ _ _ _ Hms) in Ha.
  injection Ha as <-. rewrite Hui, Hut, Hug in Hap. destruct Hap as (Ht2 & _ & Hn & Hy & _). split.
  - intros Hx. by apply Hn, (used_progress _ _ _ _ _ Hp1).
  - exists t2. split_and!; [by eapply put_get|done|done].
Qed.

Lemma accepted_once storage clock policy c self ms pm self' messages storage' clock' policy' pm' self'' :
  wf_config (config_of self) -> MGroup.message_secrets_for_epoch self (pvm_epoch c) = Ok ms ->
  tree_inv (MGroup.ciphersuite self) (config_of self) d es own (secret_tree ms) ->
  MProcess.process_message_with_lifetime_policy storage clock (PrivateProtocolMessage c) policy self = (Ok pm, self') ->
  processed_content pm <> OwnPrivateMessage ->
  MProcess.process_message_with_lifetime_policy storage' clock' (PrivateProtocolMessage c) policy' (process_all messages self') <> (Ok pm', self'').
Proof.
  intros Hc Hms Ht E Hpm Er. destruct (accepted_uses _ _ _ _ _ _ _ _ Hc Hms Ht E) as (sd & Hsd & [[_ Ho]|(Hne & _ & t & Hms' & Ht' & Hu)]); [done|].
  apply process_effect in E as [Hf _]. destruct (framed_fields _ _ _ Hf) as (_ & _ & Hcs & Hcf).
  pose proof (process_all_framed messages self') as Hf2. destruct (framed_fields _ _ _ Hf2) as (_ & _ & Hcs2 & Hcf2).
  destruct (framed_secrets _ _ _ _ _ Hf2 Hms') as (t2 & Hms2 & Ha). rewrite Hcs, Hcf in Ha. destruct (Ha d es own Hd Hc Ht') as [Ht2 Hp2].
  cbn [set_secret_tree secret_tree] in Hp2. rewrite Hcs in Hcs2. rewrite Hcf in Hcf2.
  destruct (accepted_uses storage' clock' policy' c (process_all messages self') (set_secret_tree (set_secret_tree ms t) t2) pm' self'')
    as (sd' & Hsd' & Hcase);
    [by rewrite Hcf2|exact Hms2|by rewrite Hcs2, Hcf2|done|].
  change (sender_data c (set_secret_tree (set_secret_tree ms t) t2)) with (sender_data c ms) in Hsd'. rewrite Hcs2, Hsd in Hsd'. injection Hsd' as <-.
  destruct Hcase as [[Ho _]|(_ & Hn & _)].
  - apply Hne. rewrite Ho. unfold MSecrets.own_index. cbn. by rewrite (shape_own _ _ _ (inv_shape _ _ _ _ _ _ Ht2)), (shape_own _ _ _ (inv_shape _ _ _ _ _ _ Ht)).
  - by apply Hn, (used_progress _ _ _ _ _ Hp2).
Qed.
End Processing.
