(* ===== verification/ReceptionFacts.v ===== *)
(** * Reception windows

    Exactly which generations of a sender a member accepts, in terms of those it has accepted
    before, and that a member can send as long as its ratchet has generations left. *)
From S2P Require Import Prelude TreeMath TreeMathFacts BinaryTree Crypto CryptoFacts SenderRatchet SenderRatchetFacts SecretTree SecretTreeFacts SecretTreeProgress PastSecrets Extensions TreeSync LeafNode TreeKem Proposals KeySchedule Framing PrivateMessages ProposalStore PublicGroup StagedCommit MessageValidation MemberGroup MemberCommit MemberProcessing PrivateMessagesFacts MemberMessagesFacts.

(** ** Windows *)

(** The generation after the highest one in [seen]. *)
Fixpoint head_of (seen : list Z) : Z :=
  match seen with [] => 0 | g :: seen => Z.max (g + 1) (head_of seen) end.

(** Why a generation is refused after those in [seen] were accepted; [None] if it is accepted. *)
Definition window (cfg : SenderRatchetConfiguration) (seen : list Z) (g : Z) : option SecretTreeError :=
  let n := head_of seen in
  if n + maximum_forward_distance cfg <? g then Some TooDistantInTheFuture
  else if n <=? g then None
  else if g <? n - out_of_order_tolerance cfg then Some TooDistantInThePast
  else if bool_decide (g ∈ seen) then Some SecretReuseError
  else None.

(** A ratchet that has served the generations in [seen]. *)
Record tracks_ratchet (cfg : SenderRatchetConfiguration) (dr : DecryptionRatchet) (seen : list Z) : Prop := {
  tr_head : generation (ratchet_head dr) = head_of seen;
  tr_length : Z.of_nat (length (past_secrets dr)) = Z.min (out_of_order_tolerance cfg) (head_of seen);
  tr_available x : available dr x <-> 0 <= x < head_of seen /\ x ∉ seen /\ head_of seen - x <= out_of_order_tolerance cfg;
}.

(** The ratchet of the tree for [(i, ty)]; it is initialised with its first use. *)
Definition tracks (cfg : SenderRatchetConfiguration) (t : SecretTree) (i : LeafNodeIndex.t) (ty : SecretType) (seen : list Z) : Prop :=
  match get_at (STree.sender_ratchets t ty) i with
  | Some (Some (DecryptionRatchetOf dr)) => tracks_ratchet cfg dr seen
  | Some (Some (EncryptionRatchet _)) => False
  | _ => seen = []
  end.

Lemma head_of_nonneg seen : 0 <= head_of seen.
Proof. induction seen; cbn; lia. Qed.

Lemma head_of_bound seen g : g ∈ seen -> g < head_of seen.
Proof. induction 1; cbn; lia. Qed.

Section Windows.
Context {OC : OpenMlsCrypto} {TC : TlsCodec} {LK : LawfulKdf} (cs : Ciphersuite) (cfg : SenderRatchetConfiguration).
Context (d : Z) (es : Secret) (own : LeafNodeIndex.t) (Hd : 0 <= d <= 29) (Hc : wf_config cfg).
Implicit Types t : SecretTree.

Lemma tracks_start dr : generation (ratchet_head dr) = 0 -> past_secrets dr = [] -> tracks_ratchet cfg dr [].
Proof.
  intros Hg Hp. destruct Hc as [[Ht _] _]. split; [done|rewrite Hp; cbn; lia|]. intros x. unfold available. rewrite Hg. cbn. lia.
Qed.

Lemma tracks_extends t t' i ty seen :
  tree_inv cs cfg d es own t' -> extends t t' -> i <> own -> tracks cfg t i ty seen -> tracks cfg t' i ty seen.
Proof.
  intros Hinv [H1 H2] Hne. unfold tracks. destruct (get_at (STree.sender_ratchets t ty) i) as [[r|]|] eqn:E.
  { by rewrite (H1 _ _ _ E). }
  all: destruct (get_at (STree.sender_ratchets t' ty) i) as [[r|]|] eqn:E'; try done; intros ->;
    destruct (H2 _ _ _ E') as [H3|H3]; try congruence; destruct (inv_ratchets _ _ _ _ _ _ Hinv _ _ _ E') as (s & _ & Hr);
    destruct r as [h|dr]; [by destruct Hr|destruct H3; by apply tracks_start].
Qed.

(** The answer of the tree is that of the window. *)
Lemma prepare_window t i ty g seen :
  tree_inv cs cfg d es own t -> 0 <= i < 2 ^ d -> i <> own -> 0 <= g < u32.MAX -> tracks cfg t i ty seen ->
  match window cfg seen g with
  | None => exists k u t', STree.prepare_decryption cs i ty g cfg t = (Ok (Available k, Some u), t')
  | Some e => exists t', STree.prepare_decryption cs i ty g cfg t = (Err e, t')
  end.
Proof.
  intros Hinv Hi Hne Hg Ht. assert (u32.is_u32 g) as Hu by (unfold u32.is_u32, u32.MAX in *; lia).
  pose proof (prepare_meets_spec cs cfg d es own Hd Hc t i ty g Hinv ltac:(lia) Hu) as H.
  unfold prepare_spec_total in H. destruct (Z.leb_spec (2 ^ d) i); [lia|]. destruct (Z.eqb_spec i own); [done|].
  destruct H as (t' & dr & s & _ & Hr & Hp & Hs). pose proof (prepare_extends cs cfg d es own Hd Hc t i ty g _ t' Hinv ltac:(lia) Hp) as [Hinv' He].
  apply (tracks_extends t t' i ty seen Hinv' He Hne) in Ht. unfold tracks in Ht. rewrite Hr in Ht. destruct Ht as [Hh Hl Ha].
  unfold peek_spec in Hs. rewrite Hh in Hs. unfold window. rewrite Hp.
  destruct (_ + _ <? g); [exists t'; by rewrite Hs|]. destruct (Z.leb_spec (head_of seen) g) as [Hle|Hlt].
  { destruct (Z.eqb_spec g u32.MAX); [lia|]. destruct Hs as (k & h' & sk & -> & _). cbn. eauto. }
  destruct (Z.ltb_spec g (head_of seen - out_of_order_tolerance cfg)) as [|Htol]; [exists t'; by rewrite Hs|].
  specialize (Ha g). unfold available in Ha. rewrite Hh in Ha.
  destruct (lookup_lt_is_Some_2 (past_secrets dr) (Z.to_nat (head_of seen - g - 1))) as [o Ho]; [lia|]. rewrite Ho in Hs, Ha.
  case_bool_decide as Hin.
  - destruct o as [k|]; [|exists t'; by rewrite Hs]. exfalso. destruct (proj1 Ha) as (_ & Hn & _); [|done]. split; [lia|by exists k].
  - destruct o as [k|]; [destruct Hs as [-> _]; cbn; eauto|]. exfalso. destruct (proj2 Ha) as (_ & k & [=]). split_and!; [lia..|done|lia].
Qed.

Lemma consumed_length s0 dr g k p dr' :
  ratchet_inv cs cfg s0 dr -> generation s0 = 0 -> u32.is_u32 g -> peek cs dr g cfg = Ok (k, p) -> consume dr p cfg = Ok dr' ->
  Z.of_nat (length (past_secrets dr)) = Z.min (out_of_order_tolerance cfg) (generation (ratchet_head dr)) ->
  Z.of_nat (length (past_secrets dr')) = Z.min (out_of_order_tolerance cfg) (generation (ratchet_head dr')).
Proof.
  intros Hi H0 Hg Hp Hcs Hl. destruct Hc as [[Ht _] _]. destruct (Z.le_gt_cases (generation (ratchet_head dr)) g) as [Hle|Hlt].
  - destruct (peek_forward cs _ _ _ _ _ _ Hc H0 Hi Hg Hle Hp) as (h' & ks & -> & Hks & _ & Hgen & _). rewrite consume_forward in Hcs.
    injection Hcs as <-. cbn [past_secrets ratchet_head]. rewrite length_take. cbn [length]. rewrite length_app, length_fmap, Hgen. lia.
  - destruct (peek_past cs _ _ _ _ _ _ Hi Hg Hlt Hp) as (-> & Hav & _). destruct (consume_past cfg dr g Hav) as (r & E & ->).
    rewrite E in Hcs. injection Hcs as <-. cbn [past_secrets ratchet_head]. by rewrite length_insert.
Qed.

Lemma consumed_tracks s0 dr g k p dr' seen :
  ratchet_inv cs cfg s0 dr -> generation s0 = 0 -> u32.is_u32 g -> peek cs dr g cfg = Ok (k, p) -> consume dr p cfg = Ok dr' ->
  tracks_ratchet cfg dr seen -> tracks_ratchet cfg dr' (g :: seen).
Proof.
  intros Hi H0 Hg Hp Hcs [Hh Hl Ha]. pose proof (peek_valid cs _ _ _ _ _ _ Hc H0 Hi Hg Hp) as Hv.
  destruct (consume_step cs _ _ _ _ _ _ _ Hc Hi Hv Hcs) as (_ & _ & Hw & Hgen). rewrite Hh in Hgen.
  assert (generation (ratchet_head dr') = head_of (g :: seen)) as Hh' by (cbn; lia).
  split; [done|rewrite <- Hh'; eapply consumed_length; try done; by rewrite Hh|].
  intros x. rewrite (Hw x), (Ha x), Hh', Hh, not_elem_of_cons. cbn [head_of]. pose proof (head_of_nonneg seen). destruct Hg as [Hg _]. split.
  - intros (Hne & [(Hx & Hn & Ht)|Hx] & Ht'); split_and!; try done; try lia. intros Hin%head_of_bound. lia.
  - intros (Hx & [Hne Hn] & Ht). split_and!; [done| |lia]. destruct (Z.lt_ge_cases x (head_of seen)); [left|right]; [|lia]. split_and!; [lia..|done|lia].
Qed.

(** Accepting a generation adds it to those of its ratchet. *)
Lemma apply_tracks t i ty g k u t' :
  tree_inv cs cfg d es own t -> 0 <= i < 2 ^ d -> i <> own -> u32.is_u32 g ->
  STree.prepare_decryption cs i ty g cfg t = (Ok (Available k, Some u), t') ->
  exists t'', STree.apply_decryption_update u cfg t' = (Ok tt, t'') /\ tree_inv cs cfg d es own t'' /\
    (forall seen, tracks cfg t i ty seen -> tracks cfg t'' i ty (g :: seen)) /\
    (forall j ty' seen, j <> own -> (j, ty') <> (i, ty) -> tracks cfg t j ty' seen -> tracks cfg t'' j ty' seen) /\
    (forall ty', next_generation t'' own ty' = next_generation t own ty').
Proof.
  intros Hinv Hi Hne Hg E. pose proof (prepare_meets_spec cs cfg d es own Hd Hc t i ty g Hinv ltac:(lia) Hg) as H.
  pose proof (prepare_extends cs cfg d es own Hd Hc t i ty g _ t' Hinv ltac:(lia) E) as [Hinv' He].
  pose proof (prepare_spec cs cfg d es own Hd t i ty g Hc Hinv ltac:(lia) Hg) as Hps. rewrite E in Hps.
  destruct Hps as (_ & _ & u' & [= <-] & _ & _ & _ & _ & Hpend). pose proof (apply_spec cs cfg d es own Hd t' u k Hc Hinv' Hpend) as Hap.
  rewrite E in H. unfold prepare_spec_total in H. destruct (Z.leb_spec (2 ^ d) i); [lia|]. destruct (Z.eqb_spec i own); [done|].
  destruct H as (t1 & dr & s & _ & Hr & H & _). injection H as Hp <-. destruct (peek cs dr g cfg) as [[k' p]| |] eqn:Ep; [|done..]. injection Hp as <- ->.
  destruct (peek_consumable cs cfg dr g k p Ep) as [dr' Ec]. destruct (inv_ratchets _ _ _ _ _ _ Hinv' _ _ _ Hr) as (s' & _ & _ & Hri).
  destruct (set_ratchet_spec d own Hd t' i ty (DecryptionRatchetOf dr') (inv_shape _ _ _ _ _ _ Hinv') Hi) as (t'' & Et & _ & _ & Hget).
  assert (STree.apply_decryption_update (mkUpdate i ty (Decryption p)) cfg t' = (Ok tt, t'')) as Ea.
  { unfold STree.apply_decryption_update, reading, mbind, stateful_bind, STree.ratchet_mut, lifting.
    cbn [update_index update_secret_type update_peeked]. rewrite Hr. cbn [mbind option_bind id ok_or]. by rewrite Ec, Et. }
  exists t''. rewrite Ea in Hap. split_and!; [done|by destruct Hap| | |].
  - intros seen Ht%(tracks_extends t t' i ty seen Hinv' He Hne). unfold tracks in *. rewrite Hget, bool_decide_true by done. rewrite Hr in Ht.
    by eapply (consumed_tracks (initial_ratchet_secret s')).
  - intros j ty' seen Hj Hji Ht%(tracks_extends t t' j ty' seen Hinv' He Hj). unfold tracks in *.
    rewrite Hget, bool_decide_false; [done|]. intros [-> ->]. done.
  - intros ty'. rewrite <- (extends_next t t' own ty' He). unfold next_generation. by rewrite Hget, bool_decide_false by naive_solver.
Qed.

(** The keys of an encryption have the sizes of the suite. *)
Lemma forward_sizes h g k h' :
  ratchet_forward cs h = Ok ((g, k), h') ->
  aead_mode k.1 = Suite.aead_algorithm cs /\ Z.of_nat (length (aead_key_value k.1)) = Suite.aead_key_length cs /\
  Z.of_nat (length k.2) = Suite.aead_nonce_length cs.
Proof.
  unfold ratchet_forward. destruct (_ =? _); [done|].
  destruct (derive_tree_secret_total cs (secret h) "nonce" (generation h) (Suite.aead_nonce_length cs))
    as (nonce & -> & Hn); [done|by destruct cs|].
  destruct (derive_tree_secret_total cs (secret h) "key" (generation h) (Suite.aead_key_length cs))
    as (key & -> & Hk); [done|by destruct cs|].
  destruct (derive_tree_secret_total cs (secret h) "secret" (generation h) (Suite.hash_length cs))
    as (sec & -> & _); [done|by destruct cs|].
  cbn. unfold AeadNonce_from_secret. destruct (_ =? _); [|done]. cbn. by intros [= _ <- _].
Qed.

Lemma encryption_total t ty :
  tree_inv cs cfg d es own t -> 0 <= own < 2 ^ d -> next_generation t own ty < u32.MAX ->
  exists k t', STree.secret_for_encryption cs own ty t = (Ok (next_generation t own ty, k), t') /\
    (aead_mode k.1 = Suite.aead_algorithm cs /\ Z.of_nat (length (aead_key_value k.1)) = Suite.aead_key_length cs /\
     Z.of_nat (length k.2) = Suite.aead_nonce_length cs) /\
    (forall j ty' seen, j <> own -> tracks cfg t j ty' seen -> tracks cfg t' j ty' seen).
Proof.
  intros Hinv Ho Hg. unfold STree.secret_for_encryption. unfold mbind at 1, stateful_bind at 1.
  pose proof (ensure_hoare cs cfg d es own Hd t own ty Hc Ho t (keeps_refl _ _ _ _ _ _ Hinv)) as He.
  destruct (STree.ensure_ratchets cs own ty t) as [[[]|e|] t1]; [|by destruct He as [_ []]..|by destruct He].
  destruct He as [[Hinv1 Hext] Hf]. destruct (ratchet_mut_frontier d t1 own ty Hf) as (r & Hr & Hget).
  unfold reading, mbind, stateful_bind. rewrite Hr. pose proof (extends_next t t1 own ty Hext) as Hn. unfold next_generation at 1 in Hn. rewrite Hget in Hn.
  destruct (inv_ratchets _ _ _ _ _ _ Hinv1 _ _ _ Hget) as (s & _ & Hok). destruct r as [h|dr]; [|by destruct Hok].
  cbn in Hn. unfold lifting. destruct (forward_total cs h) as (k & h' & Hfw); [lia|]. rewrite Hfw.
  destruct (set_ratchet_spec d own Hd t1 own ty (EncryptionRatchet h') (inv_shape _ _ _ _ _ _ Hinv1) Ho) as (t2 & Et & _ & _ & Hget').
  rewrite Et, Hn. exists k, t2. split_and!; [done|by eapply forward_sizes|..]. 1, 2: by eapply forward_sizes.
  intros j ty' seen Hj Ht%(tracks_extends t t1 j ty' seen Hinv1 Hext Hj). unfold tracks in *. by rewrite Hget', bool_decide_false by naive_solver.
Qed.

(** A ratchet at its last generation gives no key. *)
Lemma encryption_exhausted t ty :
  tree_inv cs cfg d es own t -> 0 <= own < 2 ^ d -> next_generation t own ty = u32.MAX ->
  exists t', STree.secret_for_encryption cs own ty t = (Err RatchetTooLong, t') /\ tree_inv cs cfg d es own t' /\
    next_generation t' own ty = u32.MAX /\
    (forall j ty' seen, j <> own -> tracks cfg t j ty' seen -> tracks cfg t' j ty' seen).
Proof.
  intros Hinv Ho Hg. unfold STree.secret_for_encryption. unfold mbind at 1, stateful_bind at 1.
  pose proof (ensure_hoare cs cfg d es own Hd t own ty Hc Ho t (keeps_refl _ _ _ _ _ _ Hinv)) as He.
  destruct (STree.ensure_ratchets cs own ty t) as [[[]|e|] t1]; [|by destruct He as [_ []]..|by destruct He].
  destruct He as [[Hinv1 Hext] Hf]. destruct (ratchet_mut_frontier d t1 own ty Hf) as (r & Hr & Hget).
  unfold reading, mbind, stateful_bind. rewrite Hr. pose proof (extends_next t t1 own ty Hext) as Hn. rewrite Hg in Hn.
  exists t1. split_and!; [|done|done|].
  - unfold next_generation in Hn. rewrite Hget in Hn. destruct (inv_ratchets _ _ _ _ _ _ Hinv1 _ _ _ Hget) as (s & _ & Hok).
    destruct r as [h|dr]; [|by destruct Hok]. cbn in Hn. unfold lifting, ratchet_forward. by rewrite Hn, Z.eqb_refl.
  - intros j ty' seen Hj. by apply (tracks_extends t t1).
Qed.
End Windows.

(** ** Sending *)

(** An encoding of at most [n] bytes. *)
Definition bounded (n : nat) (o : option bytes) : Prop := exists b, o = Some b /\ (length b <= n)%nat.

Section Sending.
Context {OC : OpenMlsCrypto} {TC : TlsCodec} {LK : LawfulKdf} {TA : TotalAead}.

Lemma bounded_some n b : (length b <= n)%nat -> bounded n (Some b).
Proof. by exists b. Qed.

Lemma bounded_nil : bounded 0 (tls_struct []).
Proof. by exists []. Qed.

Lemma bounded_cons n m o os : bounded n o -> bounded m (tls_struct os) -> bounded (n + m) (tls_struct (o :: os)).
Proof.
  intros (a & -> & Ha) (b & E & Hb). exists (a ++ b). rewrite tls_struct_cons, E. cbn. rewrite length_app. split; [done|lia].
Qed.

Lemma bounded_vlbytes b : Z.of_nat (length b) < 2 ^ 30 -> bounded (length b + 8) (tls_vlbytes b).
Proof. intros [e E]%tls_vlbytes_total. exists e. split; [done|by apply tls_vlbytes_length]. Qed.

(** A message with its authenticated data, in a group with this id and this encoded context,
    that fits the encodings. *)
Definition fits (group_id context data message : bytes) : Prop :=
  Z.of_nat (length group_id + length context + length data + length message) + 100 < 2 ^ 30.

(** A signer that always signs. *)
Definition signs_all (signer : bytes -> option bytes) : Prop :=
  forall msg, exists signature, signer msg = Some signature /\ Z.of_nat (length signature) < 2 ^ 16.

Lemma signed context serialized own data message signer :
  tls_group_context context = Some serialized -> fits (gc_group_id context) serialized data message -> signs_all signer ->
  exists signature, Z.of_nat (length signature) < 2 ^ 16 /\
    new_application own data message context signer = Ok (mkAuthenticatedContent WirePrivateMessage
      (mkFramedContent (gc_group_id context) (gc_epoch context) (Sender.Member own) data (BodyApplication message))
      (mkFramedContentAuthData signature None)).
Proof.
  intros Hctx Hfit Hsign. unfold fits in Hfit. unfold new_application, new_and_sign. cbn [signs_context fp_aad fp_wire_format].
  rewrite Hctx. cbn [ok_or mbind result_bind]. set (content := mkFramedContent _ _ _ _ _).
  assert (bounded (length (gc_group_id context) + 8 + (8 + (5 + (length data + 8 + (length message + 9 + 0))))) (tls_framed_content content)) as Hb.
  { apply bounded_cons; [apply bounded_vlbytes; cbn; lia|]. apply bounded_cons; [apply bounded_some; by rewrite be_bytes_length|].
    apply bounded_cons; [by apply bounded_some|]. apply bounded_cons; [apply bounded_vlbytes; cbn; lia|]. apply bounded_cons; [|apply bounded_nil].
    destruct (bounded_vlbytes message) as (e & Ee & He); [lia|]. cbn. rewrite Ee. apply bounded_some. cbn. lia. }
  assert (bounded (2 + (2 + (length (gc_group_id context) + 8 + (8 + (5 + (length data + 8 + (length message + 9 + 0)))) + (length serialized + 0))))
    (tls_framed_content_tbs (mkFramedContentTbs ProtocolVersion.Mls10 WirePrivateMessage content (Some serialized)))) as (tbs & Et & Ht).
  { apply bounded_cons; [by apply bounded_some|]. apply bounded_cons; [by apply bounded_some|]. apply bounded_cons; [done|].
    apply bounded_cons; [by apply bounded_some|apply bounded_nil]. }
  unfold Signable.sign. rewrite Et. cbn [ok_or mbind result_bind]. unfold Signable.sign_content.
  destruct (bounded_vlbytes (bytes_of_string ("MLS 1.0 " ++ FRAMED_CONTENT_LABEL))) as (l & El & Hl); [by vm_compute|].
  destruct (bounded_vlbytes tbs) as (e & Ee & He); [lia|]. rewrite !tls_struct_cons, tls_struct_nil. rewrite El, Ee. cbn [mbind option_bind ok_or result_bind].
  destruct (Hsign (l ++ e ++ [])) as (signature & -> & Hlen). exists signature. split; [done|reflexivity].
Qed.

Lemma seal_total k msg aad nonce cs :
  aead_mode k = Suite.aead_algorithm cs -> Z.of_nat (length (aead_key_value k)) = Suite.aead_key_length cs ->
  Z.of_nat (length nonce) = Suite.aead_nonce_length cs -> Z.of_nat (length msg) <= 2 ^ 36 - 31 -> Z.of_nat (length aad) < 2 ^ 61 ->
  exists ct, aead_seal k msg aad nonce = Ok ct.
Proof.
  intros Hm Hk Hn Hl Ha. unfold aead_seal. rewrite Hm. destruct (aead_encrypt_total (Suite.aead_algorithm cs) (aead_key_value k) msg nonce aad)
    as [ct ->]; [done..|]. by exists ct.
Qed.

Lemma sender_data_keys s cs ct :
  exists k n, sender_data_key s cs ct = Ok k /\ sender_data_nonce s cs ct = Ok n /\
    aead_mode k = Suite.aead_algorithm cs /\ Z.of_nat (length (aead_key_value k)) = Suite.aead_key_length cs /\
    Z.of_nat (length n) = Suite.aead_nonce_length cs.
Proof.
  assert (Z.of_nat (length (ciphertext_sample cs ct)) < 2 ^ 20) as Hs.
  { unfold ciphertext_sample. assert (Suite.hash_length cs <= 64) by (by destruct cs). repeat case_match; rewrite ?length_take; lia. }
  unfold sender_data_key, sender_data_nonce.
  destruct (kdf_expand_label_total cs s "key" _ (Suite.aead_key_length cs) ltac:(done) Hs) as (key & -> & Hk); [by destruct cs|].
  destruct (kdf_expand_label_total cs s "nonce" _ (Suite.aead_nonce_length cs) ltac:(done) Hs) as (nonce & -> & Hn); [by destruct cs|].
  cbn. unfold AeadNonce_from_secret. replace (Z.of_nat (length nonce) =? NONCE_BYTES) with true by (rewrite Hn; by destruct cs).
  by exists (AeadKey_from_secret key cs), nonce.
Qed.

Lemma xor_length n g : length (xor_with_reuse_guard n g) = length n.
Proof. apply length_imap. Qed.

Lemma content_aad_bound group_id epoch data :
  Z.of_nat (length group_id + length data) < 2 ^ 30 ->
  bounded (length group_id + 8 + (8 + (1 + (length data + 8 + 0)))) (private_content_aad group_id epoch ContentApplication data).
Proof.
  intros H. apply bounded_cons; [apply bounded_vlbytes; lia|]. apply bounded_cons; [apply bounded_some; by rewrite be_bytes_length|].
  apply bounded_cons; [by apply bounded_some|]. apply bounded_cons; [apply bounded_vlbytes; lia|apply bounded_nil].
Qed.

Section Encrypting.
Context (cs : Ciphersuite) (cfg : SenderRatchetConfiguration) (d : Z) (es : Secret) (own : LeafNodeIndex.t).
Context (Hd : 0 <= d <= 29) (Hc : wf_config cfg) (Ho : 0 <= own < 2 ^ d).

Lemma encrypt_total group_id context epoch data message signature guard pad ms :
  tree_inv cs cfg d es own (secret_tree ms) -> next_generation (secret_tree ms) own ApplicationSecret < u32.MAX ->
  fits group_id context data message -> Z.of_nat (length signature) < 2 ^ 16 -> pad < 2 ^ 30 -> Z.of_nat (length guard) = REUSE_GUARD_BYTES ->
  exists m ms', encrypt_content (Some guard) (mkAuthenticatedContent WirePrivateMessage
      (mkFramedContent group_id epoch (Sender.Member own) data (BodyApplication message)) (mkFramedContentAuthData signature None)) cs pad ms
    = (Ok (next_generation (secret_tree ms) own ApplicationSecret, m), ms') /\
    forall j ty seen, j <> own -> tracks cfg (secret_tree ms) j ty seen -> tracks cfg (secret_tree ms') j ty seen.
Proof.
  intros Ht Hg Hfit Hsig Hpad Hgd. unfold fits in Hfit. set (ac := mkAuthenticatedContent _ _ _).
  destruct (content_aad_bound group_id epoch data) as (aad & Ea & Ha); [lia|].
  assert (bounded (length group_id + 8 + (8 + (1 + 0))) (sender_data_aad group_id epoch ContentApplication)) as (sda & Esda & Hsda).
  { apply bounded_cons; [apply bounded_vlbytes; lia|]. apply bounded_cons; [apply bounded_some; by rewrite be_bytes_length|].
    apply bounded_cons; [by apply bounded_some|apply bounded_nil]. }
  assert (exists padded, encode_padded_ciphertext_content_detached ac pad (Suite.mac_length cs) = Some padded /\
    Z.of_nat (length padded) <= 2 ^ 36 - 31) as (padded & Ep & Hp).
  { unfold encode_padded_ciphertext_content_detached.
    assert (bounded (length message + 8 + (length signature + 8 + (0 + 0) + 0)) (tls_struct [serialize_without_type (fc_body (ac_content ac));
      tls_auth_data (ac_auth ac)])) as (plain & -> & Hpl).
    { apply bounded_cons; [apply bounded_vlbytes; lia|]. apply bounded_cons; [|apply bounded_nil].
      apply bounded_cons; [apply bounded_vlbytes; cbn; lia|]. apply bounded_cons; [by apply bounded_some|apply bounded_nil]. }
    cbn [mbind option_bind]. eexists. split; [done|]. rewrite length_app, length_replicate.
    assert (padding_length pad (Z.of_nat (length plain)) (Suite.mac_length cs) < 2 ^ 30); [|lia].
    destruct (Z.lt_ge_cases 0 pad); [pose proof (padding_length_block pad (Z.of_nat (length plain)) (Suite.mac_length cs)); lia|].
    unfold padding_length. destruct (Z.gtb_spec pad 0); lia. }
  destruct (encryption_total cs cfg d es own Hd Hc (secret_tree ms) ApplicationSecret Ht Ho Hg) as ([k n] & t' & Et & (Hm & Hk & Hn) & Htr).
  destruct (seal_total k padded aad (xor_with_reuse_guard n guard) cs) as [ct Ect]; [done|done|by rewrite xor_length|done|lia|].
  destruct (sender_data_keys (sender_data_secret ms) cs ct) as (sk & sn & Esk & Esn & Hsm & Hsk & Hsn).
  destruct (seal_total sk (be_bytes 4 own ++ be_bytes 4 (next_generation (secret_tree ms) own ApplicationSecret) ++ guard ++ []) sda sn cs)
    as [esd Eesd]; [done..|rewrite !length_app, !be_bytes_length; cbn; unfold REUSE_GUARD_BYTES in Hgd; lia|lia|].
  eexists _, (set_secret_tree ms t'). split; [|exact Htr].
  unfold encrypt_content. cbv zeta. cbn [ac ac_content fc_sender fc_body content_type fc_group_id fc_epoch fc_authenticated_data Sender.as_member].
  unfold mbind at 1 2, stateful_bind at 1 2, lifting at 1 2. cbn [ok_or]. rewrite Ea. cbn [ok_or].
  unfold mbind at 1, stateful_bind at 1, secret_tree_mut at 1. cbn [SecretType_from]. rewrite Et. cbn [map_err].
  unfold mbind, stateful_bind, lifting, reading, mret, stateful_ret. cbn [ok_or]. fold ac. rewrite Ep. cbn [ok_or]. rewrite Ect. cbn [map_err].
  change (sender_data_secret (set_secret_tree ms t')) with (sender_data_secret ms). rewrite Esk. cbn [map_err]. rewrite Esn. cbn [map_err].
  rewrite Esda. cbn [ok_or]. unfold tls_sender_data. rewrite !tls_struct_cons, tls_struct_nil. cbn [mbind option_bind ok_or sd_leaf_index sd_generation sd_reuse_guard].
  rewrite Eesd. reflexivity.
Qed.

Lemma encrypt_exhausted group_id context epoch data message auth guard pad ms :
  tree_inv cs cfg d es own (secret_tree ms) -> next_generation (secret_tree ms) own ApplicationSecret = u32.MAX ->
  fits group_id context data message ->
  exists t', encrypt_content guard (mkAuthenticatedContent WirePrivateMessage
      (mkFramedContent group_id epoch (Sender.Member own) data (BodyApplication message)) auth) cs pad ms
    = (Err (EncryptionSecretTreeError RatchetTooLong), set_secret_tree ms t') /\ tree_inv cs cfg d es own t' /\
    next_generation t' own ApplicationSecret = u32.MAX /\
    forall j ty seen, j <> own -> tracks cfg (secret_tree ms) j ty seen -> tracks cfg t' j ty seen.
Proof.
  intros Ht Hg Hfit. unfold fits in Hfit. destruct (content_aad_bound group_id epoch data) as (aad & Ea & _); [lia|].
  destruct (encryption_exhausted cs cfg d es own Hd Hc (secret_tree ms) ApplicationSecret Ht Ho Hg) as (t' & Et & H1 & H2 & H3).
  exists t'. split_and!; [|done..]. unfold encrypt_content. cbv zeta.
  cbn [ac_content fc_sender fc_body content_type fc_group_id fc_epoch fc_authenticated_data Sender.as_member].
  unfold mbind at 1 2, stateful_bind at 1 2, lifting at 1 2. cbn [ok_or]. rewrite Ea. cbn [ok_or].
  unfold mbind at 1, stateful_bind at 1, secret_tree_mut at 1. cbn [SecretType_from]. by rewrite Et.
Qed.
End Encrypting.
End Sending.
