(* ===== verification/ConversationFacts.v ===== *)
(** * Conversations

    The members of an epoch send each other application messages, which are delivered in any
    order, late, repeatedly or not at all. An abstract conversation, which knows only who posted
    what and who has read what, predicts the outcome of every step. *)
From S2P Require Import Prelude TreeMath TreeMathFacts BinaryTree Crypto CryptoFacts SenderRatchet SenderRatchetFacts SecretTree SecretTreeFacts SecretTreeProgress PastSecrets Extensions TreeSync LeafNode TreeKem Proposals KeySchedule Framing PrivateMessages ProposalStore PublicGroup StagedCommit MessageValidation MemberGroup MemberCommit MemberProcessing PrivateMessagesFacts MemberMessagesFacts ReceptionFacts.

(** ** The members and what they do *)

(** A member: its group at the start, its signing key and its leaf. *)
Record Peer : Type := mkPeer {
  peer_group : MlsGroup;
  peer_signer : bytes -> option bytes;
  peer_leaf : LeafNode;
}.

Definition peer_index (p : Peer) : LeafNodeIndex.t := own_leaf_index (peer_group p).

(** Member [i] sends a message with authenticated data; member [j] processes the [k]-th message
    sent. *)
Inductive action : Type :=
  | Send (i : nat) (data guard message : bytes)
  | Deliver (storage : Storage) (clock : Z) (j k : nat).

Inductive outcome : Type :=
  | Posted (r : result CreateMessageError unit)
  | Processed (r : result ProcessMessageError ProcessedMessage)
  | Skipped.

Section Conversation.
Context {OC : OpenMlsCrypto} {TC : TlsCodec} {CD : ContentDecoder} (peers : list Peer).

(** ** The members' groups, and the messages sent so far *)
Definition act (a : action) (st : list MlsGroup * list PrivateMessage) : outcome * (list MlsGroup * list PrivateMessage) :=
  let '(groups, log) := st in
  match a with
  | Send i data guard message =>
      match peers !! i, groups !! i with
      | Some p, Some self =>
          match MGroup.create_message (Some guard) (peer_signer p) message (MGroup.set_aad self data) with
          | (Ok m, self') => (Posted (Ok tt), (<[i := self']> groups, log ++ [m]))
          | (Err e, self') => (Posted (Err e), (<[i := self']> groups, log))
          | (Panic, self') => (Posted Panic, (<[i := self']> groups, log))
          end
      | _, _ => (Skipped, st)
      end
  | Deliver storage clock j k =>
      match groups !! j, log !! k with
      | Some self, Some m =>
          let '(r, self') := MProcess.process_message storage clock (PrivateProtocolMessage m) self in
          (Processed r, (<[j := self']> groups, log))
      | _, _ => (Skipped, st)
      end
  end.

(** ** The abstract conversation *)

(** A message posted: its sender, its number among the sender's messages, and its content. *)
Record Post : Type := mkPost {
  post_sender : nat;
  post_number : Z;
  post_data : bytes;
  post_message : bytes;
}.

Definition posts_of (posts : list Post) (i : nat) : Z := Z.of_nat (length (filter (fun q => post_sender q = i) posts)).

(** The numbers of the messages of member [i] that member [j] has read; [reads] holds pairs of a
    reader and an index in [posts]. *)
Definition read_of (posts : list Post) (reads : list (nat * nat)) (j i : nat) : list Z :=
  omap (fun read => q ← posts !! read.2; if bool_decide (read.1 = j /\ post_sender q = i) then Some (post_number q) else None) reads.

Definition echoed (self : MlsGroup) (data : bytes) (leaf : LeafNode) : ProcessedMessage :=
  mkProcessedMessage (gc_group_id (MGroup.context self)) (gc_epoch (MGroup.context self)) (Sender.Member (own_leaf_index self)) data
    OwnPrivateMessage (payload_credential (payload leaf)).

(** Every message is posted, up to [u32::MAX] for each member. The sender of a message is told
    that it is its own; another member reads it if the window of its sender ratchet admits the
    number of the message. *)
Definition spec_act (a : action) (st : list Post * list (nat * nat)) : outcome * (list Post * list (nat * nat)) :=
  let '(posts, reads) := st in
  match a with
  | Send i data _ message =>
      match peers !! i with
      | Some _ =>
          if posts_of posts i <? u32.MAX
          then (Posted (Ok tt), (posts ++ [mkPost i (posts_of posts i) data message], reads))
          else (Posted (Err (CreateMessageLibrary (CustomError "Malformed plaintext"))), st)
      | None => (Skipped, st)
      end
  | Deliver _ _ j k =>
      match peers !! j, posts !! k with
      | Some p, Some q =>
          match peers !! post_sender q with
          | Some a =>
              if bool_decide (post_sender q = j) then (Processed (Ok (echoed (peer_group p) (post_data q) (peer_leaf p))), st)
              else match window (sender_ratchet_configuration (mls_group_config (peer_group p)))
                           (read_of posts reads j (post_sender q)) (post_number q) with
                   | None => (Processed (Ok (received (peer_group p) (peer_index a) (post_data q) (peer_leaf a) (post_message q))),
                              (posts, (j, k) :: reads))
                   | Some e => (Processed (Err (ProcessValidation (UnableToDecrypt (DecryptionSecretTreeError e)))), st)
                   end
          | None => (Skipped, st)
          end
      | _, _ => (Skipped, st)
      end
  end.

(** The outcomes of a run. *)
Fixpoint outcomes {S} (step : action -> S -> outcome * S) (actions : list action) (st : S) : list outcome :=
  match actions with
  | [] => []
  | a :: actions => let '(o, st) := step a st in o :: outcomes step actions st
  end.

(** ** Members of one epoch *)

(** All members are in the same epoch, hold each other's leaves, can sign, and none has sent or
    received an application message in the epoch yet. *)
Record meeting (d : Z) (es : Secret) : Prop := {
  meet_ok p : p ∈ peers -> member_ok d es (peer_group p);
  meet_active p : p ∈ peers -> MGroup.is_active (peer_group p) = true;
  meet_proposals p : p ∈ peers -> Store.is_empty (MGroup.proposal_store (peer_group p)) = true;
  meet_padding p : p ∈ peers -> padding_size (mls_group_config (peer_group p)) < 2 ^ 30;
  meet_signs p : p ∈ peers -> signs_all (peer_signer p);
  meet_sent p : p ∈ peers -> next_of (peer_group p) (peer_index p) = 0;
  meet_read p i : p ∈ peers -> i <> peer_index p ->
    tracks (sender_ratchet_configuration (mls_group_config (peer_group p))) (secret_tree_of (peer_group p)) i ApplicationSecret [];
  meet_context p q : p ∈ peers -> q ∈ peers -> MGroup.context (peer_group p) = MGroup.context (peer_group q);
  meet_sender_data p q : p ∈ peers -> q ∈ peers ->
    sender_data_secret (MGroup.current_secrets (peer_group p)) = sender_data_secret (MGroup.current_secrets (peer_group q));
  meet_knows p q : p ∈ peers -> q ∈ peers -> knows (peer_group p) (peer_index q) (peer_leaf q) (peer_signer q);
  meet_distinct i j p q : peers !! i = Some p -> peers !! j = Some q -> peer_index p = peer_index q -> i = j;
}.

(** A reuse guard has its length and what is sent fits the encodings. *)
Definition sendable (a : action) : Prop :=
  match a with
  | Send i data guard message =>
      Z.of_nat (length guard) = REUSE_GUARD_BYTES /\
      forall p, peers !! i = Some p ->
        fits (gc_group_id (MGroup.context (peer_group p))) (serialized_context (MGroup.current_secrets (peer_group p))) data message
  | Deliver _ _ _ _ => True
  end.
End Conversation.

(** ** Sending *)
Section Sending.
Context {OC : OpenMlsCrypto} {TC : TlsCodec} {CD : ContentDecoder}.
Context {LK : LawfulKdf} {LA : LawfulAead} {LC : LawfulCodec} {TA : TotalAead}.
Context (d : Z) (es : Secret) (self : MlsGroup) (guard message : bytes) (signer : bytes -> option bytes).
Context (Hok : member_ok d es self) (Hactive : MGroup.is_active self = true).
Context (Hempty : Store.is_empty (MGroup.proposal_store self) = true) (Hsigns : signs_all signer).
Context (Hfits : fits (gc_group_id (MGroup.context self)) (serialized_context (MGroup.current_secrets self)) (aad self) message).

Let cfg := sender_ratchet_configuration (mls_group_config self).
Let own := own_leaf_index self.
Let keeps_reads (self' : MlsGroup) : Prop := forall j seen, j <> own ->
  tracks cfg (secret_tree_of self) j ApplicationSecret seen -> tracks cfg (secret_tree_of self') j ApplicationSecret seen.

Lemma create_signed signature :
  new_application own (aad self) message (MGroup.context self) signer = Ok (mkAuthenticatedContent WirePrivateMessage
    (mkFramedContent (gc_group_id (MGroup.context self)) (gc_epoch (MGroup.context self)) (Sender.Member own) (aad self)
       (BodyApplication message)) (mkFramedContentAuthData signature None)) ->
  MGroup.create_message (Some guard) signer message self =
  match encrypt_content (Some guard) (mkAuthenticatedContent WirePrivateMessage
          (mkFramedContent (gc_group_id (MGroup.context self)) (gc_epoch (MGroup.context self)) (Sender.Member own) (aad self)
             (BodyApplication message)) (mkFramedContentAuthData signature None)) (MGroup.ciphersuite self)
          (padding_size (mls_group_config self)) (MGroup.current_secrets self) with
  | (Ok (_, m), ms) => (Ok m, MGroup.set_aad (MGroup.set_current_secrets self ms) [])
  | (Err _, ms) => (Err (CreateMessageLibrary (CustomError "Malformed plaintext")), MGroup.set_current_secrets self ms)
  | (Panic, ms) => (Panic, MGroup.set_current_secrets self ms)
  end.
Proof.
  intros Es. unfold MGroup.create_message, MGroup.create_message_internal, MGroup.outgoing_authenticated_data, mbind, stateful_bind, reading, lifting,
    modifying, mret, stateful_ret, Kem.with_err, MGroup.encrypt, try_from_authenticated_content. cbv beta zeta iota.
  rewrite Hactive. cbv beta zeta iota delta [negb]. rewrite Hempty. cbv beta zeta iota delta [negb map_err]. fold own. rewrite Es. cbv beta zeta iota.
  cbn [ac_wire_format]. rewrite bool_decide_true by done. cbv beta zeta iota.
  by destruct (encrypt_content _ _ _ _ _) as [[[g m]|e|] ms].
Qed.

(** While generations are left a message is sent, with the next one. *)
Lemma create_sends :
  padding_size (mls_group_config self) < 2 ^ 30 -> Z.of_nat (length guard) = REUSE_GUARD_BYTES -> next_of self own < u32.MAX ->
  exists m self' ac t', MGroup.create_message (Some guard) signer message self = (Ok m, self') /\
    sent self (BodyApplication message) signer m (next_of self own) ac guard /\ 0 <= next_of self own /\
    member_ok d es self' /\ self' = MGroup.set_aad (with_tree self t') [] /\ next_of self' own = next_of self own + 1 /\ keeps_reads self'.
Proof.
  intros Hpad Hguard Hnext. destruct (signed _ _ own _ _ _ (ok_context _ _ _ Hok) Hfits Hsigns) as (signature & Hlen & Es).
  pose proof (create_signed signature Es) as Ec.
  destruct (encrypt_total (MGroup.ciphersuite self) cfg d es own (ok_depth _ _ _ Hok) (ok_config _ _ _ Hok) (ok_own _ _ _ Hok)
    _ _ (gc_epoch (MGroup.context self)) _ _ signature guard _ _ (ok_tree _ _ _ Hok) Hnext Hfits Hlen Hpad Hguard) as (m & ms' & Ee & Htr).
  rewrite Ee in Ec. destruct (created d es self guard signer message m _ Hok Ec) as (ac & t' & H1 & [H2 _] & H3 & H4 & H5).
  exists m, (MGroup.set_aad (MGroup.set_current_secrets self ms') []), ac, t'. split_and!; try done. intros j seen. apply Htr.
Qed.

(** Then no message is sent. *)
Lemma create_exhausted :
  next_of self own = u32.MAX ->
  exists t', MGroup.create_message (Some guard) signer message self =
      (Err (CreateMessageLibrary (CustomError "Malformed plaintext")), with_tree self t') /\
    member_ok d es (with_tree self t') /\ next_of (with_tree self t') own = u32.MAX /\ keeps_reads (with_tree self t').
Proof.
  intros Hnext. destruct (signed _ _ own _ _ _ (ok_context _ _ _ Hok) Hfits Hsigns) as (signature & Hlen & Es).
  pose proof (create_signed signature Es) as Ec.
  destruct (encrypt_exhausted (MGroup.ciphersuite self) cfg d es own (ok_depth _ _ _ Hok) (ok_config _ _ _ Hok) (ok_own _ _ _ Hok)
    _ _ (gc_epoch (MGroup.context self)) _ _ (mkFramedContentAuthData signature None) (Some guard) (padding_size (mls_group_config self))
    (MGroup.current_secrets self) (ok_tree _ _ _ Hok) Hnext Hfits) as (t' & Ee & Ht & Hn & Htr).
  rewrite Ee in Ec. exists t'. split_and!; [done|by apply member_ok_with_tree|done|]. intros j seen. apply Htr.
Qed.
End Sending.

(** ** Processing *)
Section Processing.
Context {OC : OpenMlsCrypto} {TC : TlsCodec} {CD : ContentDecoder}.
Context {LK : LawfulKdf} {LA : LawfulAead} {LC : LawfulCodec}.
Context (d : Z) (es : Secret) (ga gb : MlsGroup) (message : bytes) (signer : bytes -> option bytes) (m : PrivateMessage) (g : Z).
Context (ac : AuthenticatedContent) (guard : bytes) (leaf : LeafNode) (storage : Storage) (clock : Z).
Context (Hstep : in_step d es ga gb) (Hguard : Z.of_nat (length guard) = REUSE_GUARD_BYTES).
Context (Hsent : sent ga (BodyApplication message) signer m g ac guard) (Hknows : knows gb (own_leaf_index ga) leaf signer).
Context (Hactive : MGroup.is_active gb = true).

Let cfg := sender_ratchet_configuration (mls_group_config gb).

Lemma sent_data : pvm_authenticated_data m = aad ga.
Proof.
  destruct Hsent as [Hc [ms' He]]. destruct (sent_shape d es ga gb _ signer m g ac guard Hstep Hsent) as (signature & Hac & _).
  pose proof (encrypt_content_Ok _ _ _ _ _ _ _ _ He) as [(a & _ & guard' & k & n & aad' & padded & ct & sdk & sdn & sda & sd & esd
    & t1 & _ & _ & _ & _ & _ & _ & _ & _ & _ & _ & _ & ->)]. by rewrite Hac.
Qed.

(** A member that gets its own message back. *)
Lemma process_own :
  own_leaf_index ga = own_leaf_index gb ->
  MProcess.process_message storage clock (PrivateProtocolMessage m) gb = (Ok (echoed gb (aad ga) leaf), gb).
Proof.
  intros Heq. destruct (sent_header d es ga gb _ signer m g ac guard Hstep Hsent) as [_ He].
  destruct (sent_opens d es ga gb _ signer m g ac guard Hstep Hguard Hsent (application_decodable message) I
    (mkAeadKey Aes128Gcm [], []) None (secret_tree_of gb)) as (Esd & _ & Hty & _).
  assert (MProcess.from_inbound_ciphertext m cfg gb = (Ok (OwnPrivate (MGroup.epoch gb) (aad ga)), gb)) as Hin.
  { assert ((pvm_epoch m <? MGroup.epoch gb) = false) as Hep by (rewrite He; apply Z.ltb_irrefl).
    unfold MProcess.from_inbound_ciphertext, reading, lifting, mbind, stateful_bind, MGroup.message_secrets_and_leaves. rewrite Hep. cbn [map_err].
    rewrite Esd. cbn [map_err sd_leaf_index]. rewrite (sent_not_own d es ga gb Hstep), Heq, Z.eqb_refl, sent_data, He. done. }
  unfold MProcess.process_message, MProcess.process_message_with_lifetime_policy, MProcess.unprotect_message, reading.
  unfold mbind, stateful_bind, mret, stateful_ret. rewrite Hactive. cbn [negb].
  assert (PMsg.is_handshake_message (PrivateProtocolMessage m) = false) as ->.
  { unfold PMsg.is_handshake_message, PMsg.content_type. by rewrite Hty. }
  rewrite andb_false_r. cbn [andb]. unfold Kem.with_err. unfold cfg in Hin.
  rewrite (decrypt_received d es ga gb _ signer m g ac guard Hstep Hguard Hsent (application_decodable message) I), Hin.
  cbn [map_err]. unfold MGroup.credential. rewrite Hactive, <- Heq, (knows_leaf _ _ _ _ Hknows).
  unfold echoed. by rewrite Heq.
Qed.

(** Another member. *)
Lemma process_other seen :
  own_leaf_index ga <> own_leaf_index gb -> 0 <= g < u32.MAX ->
  tracks cfg (secret_tree_of gb) (own_leaf_index ga) ApplicationSecret seen ->
  exists t', MProcess.process_message storage clock (PrivateProtocolMessage m) gb =
      (match window cfg seen g with
       | None => Ok (received gb (own_leaf_index ga) (aad ga) leaf message)
       | Some e => Err (ProcessValidation (UnableToDecrypt (DecryptionSecretTreeError e)))
       end, with_tree gb t') /\
    member_ok d es (with_tree gb t') /\ next_of (with_tree gb t') (own_leaf_index gb) = next_of gb (own_leaf_index gb) /\
    (forall j seen', j <> own_leaf_index gb -> tracks cfg (secret_tree_of gb) j ApplicationSecret seen' ->
       tracks cfg t' j ApplicationSecret
         (if bool_decide (window cfg seen g = None /\ j = own_leaf_index ga) then g :: seen' else seen')).
Proof.
  intros Hne Hg Htr. destruct Hstep as [Ha Hb _ _]. pose proof (ok_depth _ _ _ Hb) as Hd. pose proof (ok_config _ _ _ Hb) as Hc.
  pose proof (ok_own _ _ _ Ha) as Hi. pose proof (ok_tree _ _ _ Hb) as Ht.
  assert (u32.is_u32 g) as Hu by (unfold u32.is_u32, u32.MAX in *; lia).
  rewrite (process_received d es ga gb message signer m g ac guard leaf storage clock Hstep Hne Hguard Hsent Hknows Hactive).
  pose proof (prepare_window _ cfg d es _ Hd Hc _ _ ApplicationSecret g seen Ht Hi Hne Hg Htr) as Hw.
  destruct (window cfg seen g) as [e|].
  - destruct Hw as [t' Ep]. destruct (prepare_extends _ cfg d es _ Hd Hc _ _ _ _ _ t' Ht (proj1 Hi) Ep) as [Ht' He].
    fold cfg. rewrite Ep. exists t'. split_and!; [done|by apply member_ok_with_tree|by apply extends_next|].
    intros j seen' Hj. rewrite bool_decide_false by naive_solver. by apply (tracks_extends _ cfg d es _ Hc _ t' j _ seen' Ht' He).
  - destruct Hw as (k & u & t1 & Ep). destruct (apply_tracks _ cfg d es _ Hd Hc _ _ _ _ _ _ _ Ht Hi Hne Hu Ep) as (t2 & Ea & Ht2 & H1 & H2 & H3).
    fold cfg. rewrite Ep. exists t2. unfold mbind, stateful_bind. rewrite apply_ratchet_update_current. fold cfg. rewrite Ea.
    split_and!; [done|by apply member_ok_with_tree|apply H3|]. intros j seen' Hj Hs. destruct (decide (j = own_leaf_index ga)) as [->|].
    + rewrite bool_decide_true by done. by apply H1.
    + rewrite bool_decide_false by naive_solver. apply H2; [done|naive_solver|done].
Qed.
End Processing.

(** ** Counting *)
Lemma posts_of_app posts q i : posts_of (posts ++ [q]) i = posts_of posts i + (if bool_decide (post_sender q = i) then 1 else 0).
Proof. unfold posts_of. rewrite filter_app, length_app, filter_cons, filter_nil. case_decide; case_bool_decide; cbn; (lia || done). Qed.

Lemma read_of_app posts reads q j i :
  Forall (fun read => (read.2 < length posts)%nat) reads -> read_of (posts ++ [q]) reads j i = read_of posts reads j i.
Proof.
  induction 1 as [|[r k] reads Hk _ IH]; [done|]. unfold read_of in *. cbn [omap list_omap] in *. cbn in Hk. cbn [snd]. rewrite lookup_app_l by done.
  by rewrite IH.
Qed.

Lemma read_of_cons posts reads k q j j' i :
  posts !! k = Some q ->
  read_of posts ((j, k) :: reads) j' i =
  if bool_decide (j = j' /\ post_sender q = i) then post_number q :: read_of posts reads j' i else read_of posts reads j' i.
Proof. intros E. unfold read_of. cbn [omap list_omap fst snd]. rewrite E. cbn [mbind option_bind]. by case_bool_decide. Qed.

(** ** The members' groups follow the conversation *)
Section Simulation.
Context {OC : OpenMlsCrypto} {TC : TlsCodec} {CD : ContentDecoder}.
Context {LK : LawfulKdf} {LA : LawfulAead} {LC : LawfulCodec} {TA : TotalAead}.
Context (peers : list Peer) (d : Z) (es : Secret) (Hmeet : meeting peers d es).

Definition config_of_peer (p : Peer) : SenderRatchetConfiguration := sender_ratchet_configuration (mls_group_config (peer_group p)).

(** The group of [p] after some messages. *)
Definition stems (p : Peer) (self : MlsGroup) : Prop :=
  member_ok d es self /\ exists t data, self = MGroup.set_aad (with_tree (peer_group p) t) data.

(** The message on the wire carries the post. *)
Definition carries (m : PrivateMessage) (q : Post) : Prop :=
  exists p self ac guard, peers !! post_sender q = Some p /\ stems p self /\ aad self = post_data q /\
    Z.of_nat (length guard) = REUSE_GUARD_BYTES /\ 0 <= post_number q < u32.MAX /\
    sent self (BodyApplication (post_message q)) (peer_signer p) m (post_number q) ac guard.

(** The ratchets of member [j] are those of the conversation. *)
Record holds (posts : list Post) (reads : list (nat * nat)) (j : nat) (p : Peer) (self : MlsGroup) : Prop := {
  holds_stems : stems p self;
  holds_next : next_of self (peer_index p) = posts_of posts j;
  holds_reads i q : peers !! i = Some q -> i <> j ->
    tracks (config_of_peer p) (secret_tree_of self) (peer_index q) ApplicationSecret (read_of posts reads j i);
}.

Record agrees (st : list MlsGroup * list PrivateMessage) (sp : list Post * list (nat * nat)) : Prop := {
  agrees_length : length st.1 = length peers;
  agrees_groups j p : peers !! j = Some p -> exists self, st.1 !! j = Some self /\ holds sp.1 sp.2 j p self;
  agrees_log : Forall2 carries st.2 sp.1;
  agrees_reads : Forall (fun read => (read.2 < length sp.1)%nat) sp.2;
  agrees_posts i : posts_of sp.1 i <= u32.MAX;
}.

Lemma stems_in_step p q ga gb : p ∈ peers -> q ∈ peers -> stems p ga -> stems q gb -> in_step d es ga gb.
Proof.
  intros Hp Hq (Ha & ta & da & ->) (Hb & tb & db & ->).
  split; [done|done|exact (meet_context _ _ _ Hmeet p q Hp Hq)|exact (meet_sender_data _ _ _ Hmeet p q Hp Hq)].
Qed.

Lemma stems_knows p self i leaf signer : stems p self -> knows (peer_group p) i leaf signer -> knows self i leaf signer.
Proof. by intros (_ & t & data & ->) []. Qed.

Lemma stems_again p self t data : stems p self -> member_ok d es (MGroup.set_aad (with_tree self t) data) -> stems p (MGroup.set_aad (with_tree self t) data).
Proof. intros (_ & t0 & data0 & ->) H. split; [done|]. by exists t, data. Qed.

(** One group changes, and what the others hold stays true. *)
Lemma agrees_step groups log posts reads log' posts' reads' j p self :
  agrees (groups, log) (posts, reads) -> peers !! j = Some p -> holds posts' reads' j p self ->
  (forall j' p' self', j' <> j -> holds posts reads j' p' self' -> holds posts' reads' j' p' self') ->
  Forall2 carries log' posts' -> Forall (fun read => (read.2 < length posts')%nat) reads' -> (forall i, posts_of posts' i <= u32.MAX) ->
  agrees (<[j := self]> groups, log') (posts', reads').
Proof.
  intros [Hl Hg _ _ _] Hj Hh Hother H1 H2 H3. split; cbn [fst snd] in *; [by rewrite length_insert| |done..].
  intros j' p' Hj'. destruct (decide (j' = j)) as [->|Hne].
  - simplify_eq. exists self. split; [|done]. apply list_lookup_insert_eq. rewrite Hl. by eapply lookup_lt_Some.
  - destruct (Hg _ _ Hj') as (self' & E & H). exists self'. rewrite list_lookup_insert_ne by done. auto.
Qed.

Lemma agrees_start : agrees (peer_group <$> peers, []) ([], []).
Proof.
  split; cbn [fst snd]; [by rewrite length_fmap| |constructor..|done].
  intros j p Hj. assert (p ∈ peers) as Hp by (by eapply list_elem_of_lookup_2). exists (peer_group p). rewrite list_lookup_fmap, Hj. split; [done|]. split.
  - split; [by apply (meet_ok _ _ _ Hmeet)|]. exists (secret_tree_of (peer_group p)), (aad (peer_group p)).
    by destruct (peer_group p) as [? ? ? ? [? ? []] ? ? ? ?].
  - by apply (meet_sent _ _ _ Hmeet).
  - intros i q Hi Hne. apply (meet_read _ _ _ Hmeet); [done|]. intros Heq. by apply Hne, (meet_distinct _ _ _ Hmeet i j q p).
Qed.

Lemma stems_set_aad p self data : stems p self -> stems p (MGroup.set_aad self data).
Proof. intros ([] & t & data0 & ->). split; [by split|]. by exists t, data. Qed.

(** What a member needs to send. *)
Lemma stems_sends i p self guard message :
  peers !! i = Some p -> stems p self -> sendable peers (Send i (aad self) guard message) ->
  p ∈ peers /\ own_leaf_index self = peer_index p /\ mls_group_config self = mls_group_config (peer_group p) /\
  MGroup.is_active self = true /\ Store.is_empty (MGroup.proposal_store self) = true /\
  padding_size (mls_group_config self) < 2 ^ 30 /\
  fits (gc_group_id (MGroup.context self)) (serialized_context (MGroup.current_secrets self)) (aad self) message.
Proof.
  intros Hi (_ & t & data & ->) [_ Hs]. specialize (Hs p Hi). assert (p ∈ peers) as Hp by (by eapply list_elem_of_lookup_2).
  destruct Hmeet as [_ Ha He Hpad _ _ _ _ _ _ _]. split_and!; [done..|by apply Ha|by apply He|by apply Hpad|done].
Qed.

(** Posting leaves what the other members hold. *)
Lemma holds_post posts reads q j p self :
  Forall (fun read => (read.2 < length posts)%nat) reads -> post_sender q <> j -> holds posts reads j p self ->
  holds (posts ++ [q]) reads j p self.
Proof.
  intros Hr Hne [H1 H2 H3]. split; [done|rewrite posts_of_app, bool_decide_false by done; lia|].
  intros i r Hi Hij. rewrite read_of_app by done. by apply H3.
Qed.

Lemma send_agrees st sp i data guard message :
  let a := Send i data guard message in
  agrees st sp -> sendable peers a -> (act peers a st).1 = (spec_act peers a sp).1 /\ agrees (act peers a st).2 (spec_act peers a sp).2.
Proof.
  destruct st as [groups log], sp as [posts reads]. intros a Hag Hs. pose proof Hag as [_ Hg Hlog Hreads Hposts]. cbn [fst snd] in *.
  unfold act, spec_act, a. destruct (peers !! i) as [p|] eqn:Hi; [|done]. destruct (Hg i p Hi) as (self0 & E & [Hst0 Hn0 Hr0]). rewrite E.
  pose proof (stems_set_aad p self0 data Hst0) as Hst. set (self := MGroup.set_aad self0 data) in *. change data with (aad self) in Hs.
  destruct (stems_sends i p self guard message Hi Hst Hs) as (Hp & Ho & Hcf & H1 & H2 & H3 & H4). destruct Hs as [Hguard _].
  pose proof (meet_signs _ _ _ Hmeet p Hp) as Hsig. change (next_of self0) with (next_of self) in Hn0. rewrite <- Ho in Hn0.
  assert (forall k q, peers !! k = Some q -> k <> i -> peer_index q <> own_leaf_index self) as Hdist.
  { intros k q Hk Hki Heq. apply Hki, (meet_distinct _ _ _ Hmeet k i q p); [done..|]. by rewrite Heq. }
  destruct (Z.ltb_spec (posts_of posts i) u32.MAX) as [Hlt|Hge].
  - destruct (create_sends d es self guard message (peer_signer p) (proj1 Hst) H1 H2 Hsig H4 H3 Hguard) as (m & self' & ac & t' & Ec & Hsent & Hnn & Hok & -> & Hnx & Hk);
      [lia|]. rewrite Ec. cbn [fst snd]. rewrite Hn0 in *. split; [done|]. eapply agrees_step; [done..| | | | |].
    + split; [by apply stems_again|rewrite posts_of_app, bool_decide_true, <- Ho by done; lia|].
      intros k q Hkq Hki. rewrite read_of_app by done. unfold config_of_peer. rewrite <- Hcf. apply Hk; [by apply (Hdist k)|].
      rewrite Hcf. by apply Hr0.
    + intros j' p' self' Hne. by apply holds_post.
    + apply Forall2_app; [done|]. constructor; [|constructor]. exists p, self, ac, guard. by split_and!.
    + eapply Forall_impl; [exact Hreads|]. intros read. rewrite length_app. lia.
    + intros k. rewrite posts_of_app. specialize (Hposts k). cbn. case_bool_decide as Heq; [subst k|]; lia.
  - destruct (create_exhausted d es self guard message (peer_signer p) (proj1 Hst) H1 H2 Hsig H4) as (t' & Ec & Hok & Hnx & Hk); [specialize (Hposts i); lia|].
    rewrite Ec. cbn [fst snd]. split; [done|]. eapply agrees_step; [done..| |auto|done|done|done].
    split; [by apply (stems_again p self t' (aad self))|rewrite <- Ho, Hnx; specialize (Hposts i); lia|].
    intros k q Hkq Hki. unfold config_of_peer. rewrite <- Hcf. apply Hk; [by apply (Hdist k)|]. rewrite Hcf. by apply Hr0.
Qed.

Lemma deliver_agrees st sp storage clock j k :
  let a := Deliver storage clock j k in
  agrees st sp -> (act peers a st).1 = (spec_act peers a sp).1 /\ agrees (act peers a st).2 (spec_act peers a sp).2.
Proof.
  destruct st as [groups log], sp as [posts reads]. intros a Hag. pose proof Hag as [Hl Hg Hlog Hreads Hposts]. cbn [fst snd] in *.
  unfold act, spec_act, a. destruct (peers !! j) as [p|] eqn:Hj.
  2: { apply lookup_ge_None in Hj. rewrite (proj2 (lookup_ge_None groups j)) by lia. done. }
  destruct (Hg j p Hj) as (self & E & [Hst Hn Hr]). rewrite E. destruct (posts !! k) as [q|] eqn:Hk.
  2: { apply lookup_ge_None in Hk. rewrite <- (Forall2_length _ _ _ Hlog) in Hk. by rewrite (proj2 (lookup_ge_None log k) Hk). }
  destruct (Forall2_lookup_r _ _ _ _ _ Hlog Hk) as (m & Hm & (p' & ga & ac & guard & Hp' & Hst' & Haad & Hguard & Hnum & Hsent)). rewrite Hm, Hp'.
  assert (p ∈ peers /\ p' ∈ peers) as [Hin Hin'] by (split; by eapply list_elem_of_lookup_2).
  pose proof (stems_in_step p' p ga self Hin' Hin Hst' Hst) as Hstep.
  assert (own_leaf_index ga = peer_index p') as Ho' by (by destruct Hst' as (_ & ? & ? & ->)).
  assert (own_leaf_index self = peer_index p /\ MGroup.context self = MGroup.context (peer_group p) /\
    sender_ratchet_configuration (mls_group_config self) = config_of_peer p /\ MGroup.is_active self = true) as (Ho & Hcx & Hcf & Hact).
  { pose proof (meet_active _ _ _ Hmeet p Hin). by destruct Hst as (_ & ? & ? & ->). }
  assert (knows self (own_leaf_index ga) (peer_leaf p') (peer_signer p')) as Hknows.
  { rewrite Ho'. apply (stems_knows p); [done|]. by apply (meet_knows _ _ _ Hmeet). }
  case_bool_decide as Hself.
  - rewrite Hself, Hj in Hp'. injection Hp' as <-.
    rewrite (process_own d es ga self (post_message q) (peer_signer p) m (post_number q) ac guard (peer_leaf p) storage clock Hstep Hguard Hsent
      Hknows Hact ltac:(by rewrite Ho, Ho')).
    rewrite list_insert_id by done. split; [|done]. cbn [fst]. unfold echoed. by rewrite Hcx, Ho, Haad.
  - specialize (Hr (post_sender q) p' Hp' Hself) as Hseen. fold (config_of_peer p). rewrite <- Hcf, <- Ho' in Hseen.
    destruct (process_other d es ga self (post_message q) (peer_signer p') m (post_number q) ac guard (peer_leaf p') storage clock Hstep Hguard Hsent Hknows Hact
      _ ltac:(rewrite Ho, Ho'; intros Heq; by apply Hself, (meet_distinct _ _ _ Hmeet _ _ p' p)) Hnum Hseen) as (t' & Ep & Hok & Hnx & Hk').
    rewrite Ep, Hcf in *. unfold received in *. rewrite Hcx, Haad, Ho' in *.
    assert (stems p (with_tree self t')) as Hst2 by (by apply (stems_again p self t' (aad self))).
    assert (forall i r, peers !! i = Some r -> i <> j -> peer_index r <> own_leaf_index self) as Hdist.
    { intros i r Hi Hij Heq. apply Hij, (meet_distinct _ _ _ Hmeet i j r p); [done..|]. by rewrite Heq. }
    destruct (window _ _ _) as [e|] eqn:Ew; (split; [done|]); cbn [snd]; (eapply agrees_step; [exact Hag|exact Hj|split; [done|by rewrite <- Ho, Hnx, Ho|]|..]);
      try done.
    + intros i r Hi Hij. pose proof (Hk' _ _ (Hdist _ _ Hi Hij) (Hr _ _ Hi Hij)) as Ht. by rewrite bool_decide_false in Ht by naive_solver.
    + intros i r Hi Hij. pose proof (Hk' _ _ (Hdist _ _ Hi Hij) (Hr _ _ Hi Hij)) as Ht. rewrite (read_of_cons _ _ _ q) by done.
      rewrite (bool_decide_ext _ (j = j /\ post_sender q = i)) in Ht; [done|]. split; [|naive_solver]. intros [_ Heq]. split; [done|].
      symmetry. by apply (meet_distinct _ _ _ Hmeet _ _ r p').
    + intros j' p2 self2 Hne [G1 G2 G3]. split; [done..|]. intros i r Hi Hij. rewrite (read_of_cons _ _ _ q), bool_decide_false by naive_solver. by apply G3.
    + constructor; [|done]. by eapply lookup_lt_Some.
Qed.

Lemma outcomes_agree actions : forall st sp,
  agrees st sp -> Forall (sendable peers) actions -> outcomes (act peers) actions st = outcomes (spec_act peers) actions sp.
Proof.
  induction actions as [|a actions IH]; intros st sp Hag Hs; [done|]. inversion_clear Hs as [|? ? Ha Hs'].
  assert ((act peers a st).1 = (spec_act peers a sp).1 /\ agrees (act peers a st).2 (spec_act peers a sp).2) as [Ho Hag'].
  { destruct a; [by apply send_agrees|by apply deliver_agrees]. }
  cbn [outcomes]. destruct (act peers a st) as [o st'], (spec_act peers a sp) as [o' sp']. cbn in Ho, Hag'. rewrite Ho. f_equal. by apply IH.
Qed.
End Simulation.

(** ** Properties *)

(** C5. A conversation: the members of an epoch, any number of them, send each other
    application messages with authenticated data, and process them in any order, late,
    repeatedly or not at all. Every outcome is that of the abstract conversation. Every message
    is created, until its sender has used up the [u32::MAX] generations of its ratchet. A
    member that processes the message of another one gets exactly its content, its
    authenticated data, the sender and the credential of the sender's leaf, if the window of the
    sender ratchet admits it: it is not among the messages already read, not more than the
    tolerance behind the latest one read and not more than the maximum forward distance ahead.
    Otherwise the error names which of these fails. The sender is told that the message is
    its own. *)
Theorem conversation_delivered {OC : OpenMlsCrypto} {TC : TlsCodec} {CD : ContentDecoder}
    {LK : LawfulKdf} {LA : LawfulAead} {LC : LawfulCodec} {TA : TotalAead} peers d es actions :
  meeting peers d es -> Forall (sendable peers) actions ->
  outcomes (act peers) actions (peer_group <$> peers, []) = outcomes (spec_act peers) actions ([], []).
Proof. intros Hmeet Hs. apply (outcomes_agree peers d es Hmeet); [by apply agrees_start|done]. Qed.
