(* ===== verification/ProposalStoreFacts.v ===== *)
(** * Facts about the proposal queue

    What a queue holds, and what a commit's proposals resolve to. *)
From S2P Require Import Prelude TreeMath BinaryTree Crypto Extensions TreeSync LeafNode TreeKem Proposals ProposalStore.

(** ** Well-formed queues *)
Record wf_queue (q : ProposalQueue) : Prop := {
  wq_NoDup : NoDup (proposal_references q);
  wq_dom r : r ∈ proposal_references q <-> is_Some (queued_proposals_map q !! r);
  wq_key r p : queued_proposals_map q !! r = Some p -> qp_reference p = r;
}.

(** The proposals whose reference is not in [seen] and did not occur before. *)
Fixpoint first_refs (seen : gset bytes) (l : list QueuedProposal) : list QueuedProposal :=
  match l with
  | [] => []
  | p :: l' => if decide (qp_reference p ∈ seen) then first_refs seen l'
               else p :: first_refs ({[qp_reference p]} ∪ seen) l'
  end.

Lemma wf_default : wf_queue Queue.default_queue.
Proof.
  split; cbn; [constructor| |by intros r p ?%lookup_empty_Some].
  intros r. rewrite lookup_empty. split; [by intros ?%not_elem_of_nil|by intros []].
Qed.

Lemma wf_add q p : wf_queue q -> wf_queue (Queue.add q p).
Proof.
  intros Hq. unfold Queue.add. destruct (queued_proposals_map q !! qp_reference p) as [p'|] eqn:E; [done|].
  destruct Hq as [Hn Hd Hk]. split; cbn.
  - apply NoDup_app. split; [done|]. split; [|apply NoDup_singleton].
    intros r Hr ->%list_elem_of_singleton. apply Hd in Hr. rewrite E in Hr. by destruct Hr.
  - intros r. rewrite elem_of_app, list_elem_of_singleton, Hd, lookup_insert_is_Some'. naive_solver.
  - intros r p'. rewrite lookup_insert_Some. intros [[<- <-]|[_ H]]; [done|]. by apply Hk.
Qed.

Lemma queued_proposals_add q p :
  wf_queue q -> Queue.queued_proposals (Queue.add q p) =
    Queue.queued_proposals q ++ first_refs (list_to_set (proposal_references q)) [p].
Proof.
  intros [Hn Hd Hk]. unfold Queue.queued_proposals, Queue.add. cbn [first_refs].
  destruct (queued_proposals_map q !! qp_reference p) as [p'|] eqn:E.
  - rewrite decide_True by (apply elem_of_list_to_set, Hd; rewrite E; eauto). by rewrite app_nil_r.
  - rewrite decide_False by (rewrite elem_of_list_to_set, Hd, E; by intros []). cbn [proposal_references].
    rewrite omap_app. f_equal.
    + apply list_omap_ext, Forall2_same_length_lookup. split; [done|]. intros i r r' Hr Hr'. simplify_eq.
      unfold Queue.get. cbn. rewrite lookup_insert_ne; [done|]. intros <-.
      apply list_elem_of_lookup_2, Hd in Hr. rewrite E in Hr. by destruct Hr.
    + cbn. unfold Queue.get. cbn. by rewrite lookup_insert_eq.
Qed.

Lemma references_add q p :
  wf_queue q -> (list_to_set (proposal_references (Queue.add q p)) : gset bytes)
    = {[qp_reference p]} ∪ list_to_set (proposal_references q).
Proof.
  intros [Hn Hd Hk]. apply set_eq. intros r. unfold Queue.add.
  destruct (queued_proposals_map q !! qp_reference p) as [p'|] eqn:E; cbn.
  - rewrite elem_of_union, elem_of_singleton, !elem_of_list_to_set. split; [by right|]. intros [->|]; [|done].
    apply Hd. rewrite E. eauto.
  - rewrite elem_of_union, elem_of_singleton, !elem_of_list_to_set, elem_of_app, list_elem_of_singleton. tauto.
Qed.

Lemma extend_spec l q :
  wf_queue q -> wf_queue (Queue.extend q l) /\
  Queue.queued_proposals (Queue.extend q l)
    = Queue.queued_proposals q ++ first_refs (list_to_set (proposal_references q)) l.
Proof.
  unfold Queue.extend. revert q. induction l as [|p l IH]; intros q Hq; [by rewrite app_nil_r|]. cbn [foldl].
  destruct (IH (Queue.add q p) (wf_add q p Hq)) as [Hw E]. split; [done|].
  rewrite E, queued_proposals_add, <- (assoc_L (++)), references_add by done. f_equal. cbn [first_refs].
  case_decide as Hin; [|done]. cbn. f_equal. apply set_eq. set_solver.
Qed.

Lemma from_iter_spec l :
  wf_queue (Queue.from_iter l) /\ Queue.queued_proposals (Queue.from_iter l) = first_refs ∅ l.
Proof. apply (extend_spec l), wf_default. Qed.

Lemma first_refs_elem seen l p : p ∈ first_refs seen l -> p ∈ l.
Proof.
  revert seen. induction l as [|q l IH]; intros seen; cbn [first_refs]; [done|].
  case_decide; rewrite ?elem_of_cons; naive_solver.
Qed.

Lemma omap_get_filter q (f : QueuedProposal -> bool) refs :
  omap (Queue.get q) (List.filter (fun r => match queued_proposals_map q !! r with
                                            | Some p => f p
                                            | None => false
                                            end) refs)
  = filter (fun p => f p = true) (omap (Queue.get q) refs).
Proof.
  unfold Queue.get. induction refs as [|r refs IH]; [done|]. cbn [List.filter omap list_omap].
  destruct (queued_proposals_map q !! r) as [p|] eqn:E; [|done].
  rewrite filter_cons. destruct (f p) eqn:Ef.
  - rewrite decide_True by done. cbn [omap list_omap]. rewrite E. by f_equal.
  - by rewrite decide_False by done.
Qed.

Lemma filtered_by_type_spec q t :
  Queue.filtered_by_type q t = filter (fun p => Proposal.is_type (qp_proposal p) t = true) (Queue.queued_proposals q).
Proof. apply (omap_get_filter q (fun p => Proposal.is_type (qp_proposal p) t)). Qed.

Lemma filtered_elem q t p :
  p ∈ Queue.filtered_by_type q t <-> p ∈ Queue.queued_proposals q /\ Proposal.proposal_type (qp_proposal p) = t.
Proof.
  rewrite filtered_by_type_spec, list_elem_of_filter. unfold Proposal.is_type. rewrite bool_decide_eq_true. tauto.
Qed.

(** ** Committed proposals *)
Section Committed.
Context {OC : OpenMlsCrypto} {TC : TlsCodec}.

(** What a proposal of a commit stands for. *)
Definition resolves (cs : Ciphersuite) (store : ProposalStore) (sender : Sender.t) (c : ProposalOrRef)
    (p : QueuedProposal) : Prop :=
  match c with
  | InlineProposal proposal => from_proposal_and_sender cs proposal sender = Ok p
  | Reference r => Queue.proposals_by_reference store !! r = Some p
  end.

(** The PSK ids of a list of proposals. *)
Definition psk_ids (l : list QueuedProposal) : list PreSharedKeyId :=
  omap (fun p => match qp_proposal p with Proposal.PreSharedKey id => Some id | _ => None end) l.

Lemma psk_check_Ok seen p seen' :
  psk_check seen (qp_proposal p) = Ok seen' <->
  seen' = psk_ids [p] ++ seen /\ forall id, id ∈ psk_ids [p] -> id ∉ seen.
Proof.
  unfold psk_check, psk_ids. cbn. destruct (qp_proposal p) as [| | |id| | | | |]; cbn;
    try (split; [intros [= <-]; split; [done|by intros ? ?%not_elem_of_nil]|by intros [-> _]]).
  case_bool_decide as Hin.
  - split; [done|]. intros [_ H]. exfalso. apply (H id); [by apply list_elem_of_singleton|done].
  - split; [intros [= <-]; split; [done|by intros id' ->%list_elem_of_singleton]|by intros [-> _]].
Qed.

Lemma inline_proposal cs proposal sender p :
  from_proposal_and_sender cs proposal sender = Ok p -> qp_proposal p = proposal /\ qp_sender p = sender /\ qp_type p = ByValue.
Proof. unfold from_proposal_and_sender. intros E. inv_ok. done. Qed.

Lemma psk_check_bind {B} seen p (k : list PreSharedKeyId -> result FromCommittedProposalsError B) b :
  (psk_check seen (qp_proposal p) ≫= k) = Ok b <->
  (forall id, id ∈ psk_ids [p] -> id ∉ seen) /\ k (psk_ids [p] ++ seen) = Ok b.
Proof.
  split.
  - intros E. inv_ok. by apply psk_check_Ok in Ha as [-> H].
  - intros [H E]. assert (psk_check seen (qp_proposal p) = Ok (psk_ids [p] ++ seen)) as -> by (by apply psk_check_Ok). done.
Qed.

Arguments psk_ids : simpl never.

Lemma commit_proposal_Ok cs store sender q seen c q' seen' :
  Queue.commit_proposal cs (Queue.proposals_by_reference store) sender (q, seen) c = Ok (q', seen') <->
  exists p, resolves cs store sender c p /\ Queue.removes_sender sender (qp_proposal p) = false /\
    (forall id, id ∈ psk_ids [p] -> id ∉ seen) /\ q' = Queue.add q p /\ seen' = psk_ids [p] ++ seen.
Proof.
  unfold Queue.commit_proposal, resolves. split.
  - intros E. apply bind_Ok in E as ([p seen1] & E & [= <- <-]). exists p. destruct c as [proposal|r].
    + destruct (Queue.removes_sender sender proposal) eqn:Er; [done|].
      apply bind_Ok in E as (seen2 & Hc & E). apply bind_Ok in E as (p' & Hp & [= -> ->]).
      destruct (from_proposal_and_sender cs proposal sender) as [p1| |] eqn:Ep; [|done..]. injection Hp as ->.
      pose proof (inline_proposal _ _ _ _ Ep) as (<- & _ & _). by apply psk_check_Ok in Hc as [-> Hc].
    + destruct (Queue.proposals_by_reference store !! r) as [p1|]; [|done].
      destruct (Queue.removes_sender sender (qp_proposal p1)) eqn:Er; [done|].
      apply psk_check_bind in E as [Hc [= -> <-]]. done.
  - intros (p & Hp & Er & Hc & -> & ->). destruct c as [proposal|r].
    + pose proof (inline_proposal _ _ _ _ Hp) as (<- & _ & _). rewrite Er, Hp. cbn [map_err].
      assert (psk_check seen (qp_proposal p) = Ok (psk_ids [p] ++ seen)) as -> by (by apply psk_check_Ok). done.
    + rewrite Hp, Er.
      assert (psk_check seen (qp_proposal p) = Ok (psk_ids [p] ++ seen)) as -> by (by apply psk_check_Ok). done.
Qed.

Lemma psk_ids_cons p l : psk_ids (p :: l) = psk_ids [p] ++ psk_ids l.
Proof. apply (omap_app _ [p] l). Qed.

Lemma committed_fold_Ok cs store sender committed q seen q' seen' :
  try_fold (Queue.commit_proposal cs (Queue.proposals_by_reference store) sender) committed (q, seen) = Ok (q', seen') ->
  NoDup seen -> exists l, Forall2 (resolves cs store sender) committed l /\
    Forall (fun p => Queue.removes_sender sender (qp_proposal p) = false) l /\
    q' = Queue.extend q l /\ seen' ≡ₚ psk_ids l ++ seen /\ NoDup seen'.
Proof.
  revert q seen. induction committed as [|c committed IH]; intros q seen E Hn; cbn [try_fold] in E.
  - injection E as <- <-. exists []. by repeat constructor.
  - apply bind_Ok in E as ([q1 seen1] & E1 & E). apply commit_proposal_Ok in E1 as (p & Hp & Hr & Hc & -> & ->).
    apply IH in E as (l & Hl & Hrs & -> & Hperm & Hnd).
    + exists (p :: l). split; [by constructor|]. split; [by constructor|]. split; [done|]. split; [|done].
      rewrite Hperm, (psk_ids_cons p l), <- (assoc_L (++)). apply Permutation_app_swap_app.
    + apply NoDup_app. split; [|done]. unfold psk_ids. cbn. destruct (qp_proposal p); cbn; (apply NoDup_singleton || constructor).
Qed.

Lemma committed_fold_intro cs store sender committed q seen l :
  Forall2 (resolves cs store sender) committed l ->
  Forall (fun p => Queue.removes_sender sender (qp_proposal p) = false) l -> NoDup (psk_ids l ++ seen) ->
  exists seen', try_fold (Queue.commit_proposal cs (Queue.proposals_by_reference store) sender) committed (q, seen)
    = Ok (Queue.extend q l, seen').
Proof.
  intros Hl. revert q seen. induction Hl as [|c p committed l Hp Hl IH]; intros q seen Hr Hn; cbn [try_fold]; [eauto|].
  apply Forall_cons in Hr as [Hr Hrs]. rewrite psk_ids_cons, <- (assoc_L (++)) in Hn.
  assert (Queue.commit_proposal cs (Queue.proposals_by_reference store) sender (q, seen) c
    = Ok (Queue.add q p, psk_ids [p] ++ seen)) as ->.
  { apply commit_proposal_Ok. exists p. repeat (split; [done|]). split; [|done]. intros id Hid Hs.
    apply NoDup_app in Hn as (_ & Hn & _). apply (Hn id Hid). apply elem_of_app. by right. }
  cbn [mbind result_bind]. apply IH; [done|].
  eapply NoDup_Permutation_proper; [|exact Hn]. apply Permutation_app_swap_app.
Qed.

(** C22. A queue is built from the proposals of a commit exactly when every reference
    is in the store, every inline proposal has a reference, no proposal removes the
    committer and no PSK id occurs twice; it then lists the proposals in the order of
    the commit, each reference once. *)
Theorem committed_queue_correct cs store sender committed q :
  Queue.from_committed_proposals cs committed store sender = Ok q <->
  exists l, Forall2 (resolves cs store sender) committed l /\
    Forall (fun p => Queue.removes_sender sender (qp_proposal p) = false) l /\ NoDup (psk_ids l) /\
    q = Queue.from_iter l /\ wf_queue q /\ Queue.queued_proposals q = first_refs ∅ l.
Proof.
  unfold Queue.from_committed_proposals. split.
  - intros E. destruct (try_fold _ _ _) as [[q' seen']| |] eqn:Ef; [|done..]. injection E as ->.
    apply committed_fold_Ok in Ef as (l & Hl & Hr & -> & Hperm & Hn); [|constructor].
    rewrite app_nil_r in Hperm. rewrite Hperm in Hn. exists l. repeat (split; [done|]). apply from_iter_spec.
  - intros (l & Hl & Hr & Hn & -> & _).
    destruct (committed_fold_intro cs store sender committed Queue.default_queue [] l Hl Hr) as [seen' E].
    { by rewrite app_nil_r. }
    by rewrite E.
Qed.
End Committed.
