(* ===== verification/TreeSyncFacts.v ===== *)
(** * The ratchet tree: invariants and correctness

    A reference resolution and tree hash by recursion on the height, the
    invariant on unmerged leaves and populated subtrees that every operation of
    a diff preserves, and the behaviour of each operation. *)
From S2P Require Import Prelude TreeMath TreeMathFacts BinaryTree BinaryTreeFacts Crypto CryptoFacts TreeSync.

(** ** Reference resolution *)
Section Reference.
Context {OC : OpenMlsCrypto} {TC : TlsCodec} {LeafNode : Type} {LO : LeafNodeOps LeafNode}.
Implicit Types (lf : Z -> option LeafNode) (pr : Z -> option ParentNode) (excl : gset Z).

Definition leaf_entry lf excl (l : Z) : option (TreeNodeIndex * NodeReference LeafNode) :=
  if bool_decide (l ∈ excl) then None else (fun leaf => (Leaf l, RefLeaf leaf)) <$> lf l.

(** The resolution of the node at height [n] and position [j]. *)
Fixpoint res lf pr excl (n : nat) (j : Z) : list (TreeNodeIndex * NodeReference LeafNode) :=
  match n with
  | O => option_list (leaf_entry lf excl j)
  | S n' =>
      let index := parent_at (Z.of_nat n) j in
      match pr index with
      | Some parent => (Parent index, RefParent parent) :: omap (leaf_entry lf excl) (unmerged_leaves parent)
      | None => res lf pr excl n' (2 * j) ++ res lf pr excl n' (2 * j + 1)
      end
  end.

Lemma resolution_upto_res (d : TreeSyncDiff LeafNode) excl n fuel j :
  (n <= fuel)%nat -> coord (Z.of_nat n) j ->
  TSDiff.resolution_upto fuel d (node_at (Z.of_nat n) j) excl = Some (res (Diff.leaf d) (Diff.parent d) excl n j).
Proof.
  revert fuel j. induction n as [|n IH]; intros fuel j Hf Hc.
  - change (node_at (Z.of_nat 0) j) with (Leaf j). cbn [res]. unfold leaf_entry.
    destruct fuel; cbn [TSDiff.resolution_upto]; (case_bool_decide; [done|by destruct (Diff.leaf d j)]).
  - destruct fuel as [|fuel]; [lia|]. rewrite <- node_at_parent by lia. cbn -[Z.of_nat].
    destruct (Diff.parent d _) as [p|]; [done|].
    unfold Diff.left_child, Diff.right_child. rewrite left_coord, right_coord by (done || lia).
    replace (Z.of_nat (S n) - 1) with (Z.of_nat n) by lia.
    pose proof (coord_down _ _ 0 Hc ltac:(lia) ltac:(lia)) as H0.
    pose proof (coord_down _ _ 1 Hc ltac:(lia) ltac:(lia)) as H1.
    replace (Z.of_nat (S n) - 1) with (Z.of_nat n) in * by lia. rewrite Z.add_0_r in H0.
    by rewrite (IH fuel (2 * j)), (IH fuel (2 * j + 1)) by (done || lia).
Qed.

Lemma resolution_res (d : TreeSyncDiff LeafNode) excl k j :
  coord k j ->
  TSDiff.resolution d (node_at k j) excl = Some (res (Diff.leaf d) (Diff.parent d) excl (Z.to_nat k) j).
Proof.
  intros Hc. pose proof Hc as [Hk _]. unfold TSDiff.resolution. rewrite <- (Z2Nat.id k) at 1 by lia.
  apply resolution_upto_res; [lia|]. by rewrite Z2Nat.id by lia.
Qed.

Lemma leaf_entry_included lf excl l :
  filter (fun entry => TSDiff.included excl entry.1 = true) (option_list (leaf_entry lf ∅ l))
  = option_list (leaf_entry lf excl l).
Proof.
  unfold leaf_entry. rewrite bool_decide_false by set_solver. destruct (lf l) as [x|]; cbn; [|by case_bool_decide].
  case_bool_decide; cbn; by case_decide.
Qed.

(** Excluding leaves while resolving is filtering the resolution. *)
Lemma res_filter lf pr excl n j :
  res lf pr excl n j = filter (fun entry => TSDiff.included excl entry.1 = true) (res lf pr ∅ n j).
Proof.
  revert j. induction n as [|n IH]; intros j; cbn [res]; [by rewrite leaf_entry_included|].
  destruct (pr _) as [p|].
  - rewrite filter_cons_True by done. f_equal.
    induction (unmerged_leaves p) as [|l ls IHl]; [done|].
    rewrite !omap_cons. pose proof (leaf_entry_included lf excl l) as E.
    destruct (leaf_entry lf ∅ l) as [e|].
    + change (option_list (Some e)) with [e] in E. destruct (TSDiff.included excl e.1) eqn:Hi.
      * rewrite filter_cons_True in E |- * by done. destruct (leaf_entry lf excl l); simplify_eq/=; by f_equal.
      * rewrite filter_cons_False in E |- * by congruence. by destruct (leaf_entry lf excl l); simplify_eq/=.
    + by destruct (leaf_entry lf excl l).
  - by rewrite filter_app, <- !IH.
Qed.

(** ** The tree invariant *)

(** What holds of a non-blank node [p] at [(k, j)]: its unmerged leaves are
    sorted, non-blank and below it, every non-blank node between an unmerged
    leaf and [p] has that leaf as unmerged too, and both subtrees have a
    non-blank leaf. *)
Record node_inv lf pr (k j : Z) (p : ParentNode) : Prop := {
  ni_sorted : StronglySorted Z.lt (unmerged_leaves p);
  ni_unmerged l : l ∈ unmerged_leaves p -> l / 2 ^ k = j /\ is_Some (lf l);
  ni_chain l k' q :
    l ∈ unmerged_leaves p -> 1 <= k' < k -> pr (parent_at k' (l / 2 ^ k')) = Some q -> l ∈ unmerged_leaves q;
  ni_populated b : 0 <= b <= 1 -> exists l, l / 2 ^ (k - 1) = 2 * j + b /\ is_Some (lf l);
}.

Definition nodes_inv (h : Z) lf pr : Prop :=
  forall k j p, 1 <= k -> in_tree h k j -> pr (parent_at k j) = Some p -> node_inv lf pr k j p.

(** The member at leaf [l] holds the private key of the entry. *)
Definition covers (entry : TreeNodeIndex * NodeReference LeafNode) (l : Z) : Prop :=
  match entry with
  | (Leaf i, _) => i = l
  | (Parent i, RefParent p) => below (Parent i) l /\ l ∉ unmerged_leaves p
  | (Parent _, RefLeaf _) => False
  end.

Lemma leaf_entry_covers lf excl i l e : leaf_entry lf excl i = Some e -> covers e l <-> i = l.
Proof. unfold leaf_entry. case_bool_decide; [done|]. intros (x & _ & ->)%fmap_Some. done. Qed.

(** The entries of a resolution only cover leaves below the node. *)
Lemma res_below h lf pr excl n j e l :
  h <= 30 -> nodes_inv h lf pr -> in_tree h (Z.of_nat n) j ->
  e ∈ res lf pr excl n j -> covers e l -> l / 2 ^ Z.of_nat n = j.
Proof.
  intros Hh Hi. revert j. induction n as [|n IH]; intros j Ht He Hc; cbn [res] in He.
  - destruct (leaf_entry lf excl j) as [e'|] eqn:E; [|by apply elem_of_nil in He].
    apply list_elem_of_singleton in He as ->. apply (leaf_entry_covers _ _ _ _ _ E) in Hc. subst. cbn. apply Z.div_1_r.
  - destruct (pr _) as [p|] eqn:Ep.
    + apply elem_of_cons in He as [->|He].
      * destruct Hc as [Hb _]. rewrite node_at_parent in Hb by lia.
        by apply below_node_at in Hb; [|by apply (in_tree_coord h)].
      * apply list_elem_of_omap in He as (i & Hu & Ei). apply (leaf_entry_covers _ _ _ _ _ Ei) in Hc as <-.
        by apply (ni_unmerged _ _ _ _ _ (Hi (Z.of_nat (S n)) j p ltac:(lia) Ht Ep)).
    + apply (child_half l (Z.of_nat (S n)) j ltac:(lia)). replace (Z.of_nat (S n) - 1) with (Z.of_nat n) by lia.
      assert (forall b, 0 <= b <= 1 -> in_tree h (Z.of_nat n) (2 * j + b)) as Hch.
      { intros b Hb. replace (Z.of_nat n) with (Z.of_nat (S n) - 1) by lia. apply in_tree_child; (done || lia). }
      apply elem_of_app in He as [He|He].
      * exists 0. split; [lia|]. rewrite Z.add_0_r. apply IH; [|done..]. rewrite <- (Z.add_0_r (2 * j)). by apply Hch.
      * exists 1. split; [lia|]. apply IH; [|done..]. by apply Hch.
Qed.

Definition covered_once (r : list (TreeNodeIndex * NodeReference LeafNode)) (l : Z) : Prop :=
  exists r1 e r2, r = r1 ++ e :: r2 /\ covers e l /\ forall e', e' ∈ r1 ++ r2 -> ~ covers e' l.

Lemma covered_once_app r r' l :
  (covered_once r l /\ forall e, e ∈ r' -> ~ covers e l) \/ (covered_once r' l /\ forall e, e ∈ r -> ~ covers e l) ->
  covered_once (r ++ r') l.
Proof.
  intros [[(r1 & e & r2 & -> & Hc & Hn) Hr]|[(r1 & e & r2 & -> & Hc & Hn) Hr]].
  - exists r1, e, (r2 ++ r'). rewrite <- app_assoc. split; [done|]. split; [done|].
    intros e'. rewrite app_assoc. intros [?|?]%elem_of_app; auto.
  - exists (r ++ r1), e, r2. rewrite <- app_assoc. split; [done|]. split; [done|].
    intros e'. rewrite <- app_assoc. intros [?|?]%elem_of_app; auto.
Qed.

Lemma sorted_NoDup (u : list Z) : StronglySorted Z.lt u -> NoDup u.
Proof.
  induction 1 as [|x u _ IH Hx]; constructor; [|done]. intros Hin.
  rewrite Forall_forall in Hx. specialize (Hx x Hin). lia.
Qed.

Lemma parent_covered_once lf pr excl k j p l :
  coord k j -> 1 <= k -> node_inv lf pr k j p -> l / 2 ^ k = j -> is_Some (lf l) -> l ∉ excl ->
  covered_once ((Parent (parent_at k j), RefParent p) :: omap (leaf_entry lf excl) (unmerged_leaves p)) l.
Proof.
  intros Hc Hk Hn Hl [x Hx] He.
  assert (forall u : list Z, l ∉ u -> forall e, e ∈ omap (leaf_entry lf excl) u -> ~ covers e l) as Hrest.
  { intros u Hu e (i & Hi & Ei)%list_elem_of_omap. rewrite (leaf_entry_covers _ _ _ _ _ Ei). by intros ->. }
  destruct (decide (l ∈ unmerged_leaves p)) as [Hin|Hin].
  - pose proof (sorted_NoDup _ (ni_sorted _ _ _ _ _ Hn)) as Hd.
    apply list_elem_of_split in Hin as (u1 & u2 & Hu). rewrite Hu in Hd |- *.
    apply NoDup_app in Hd as (_ & H1 & [H2 _]%NoDup_cons). rewrite omap_app, omap_cons.
    assert (leaf_entry lf excl l = Some (Leaf l, RefLeaf x)) as El.
    { unfold leaf_entry. by rewrite bool_decide_false, Hx. }
    rewrite El. eexists (_ :: _), _, _. split; [done|]. split; [done|].
    intros e [->|[Hr|Hr]%elem_of_app]%elem_of_cons.
    + intros [_ Hnot]. apply Hnot. rewrite Hu. set_solver.
    + apply (Hrest u1); [|done]. intros Hl1. apply (H1 l Hl1). set_solver.
    + by apply (Hrest u2).
  - eexists [], _, _. split; [done|]. split.
    + split; [|done]. rewrite node_at_parent by done. by apply below_node_at.
    + by apply Hrest.
Qed.

(** Every non-blank leaf below a node is covered by exactly one entry. *)
Lemma res_covers h lf pr excl n j l :
  h <= 30 -> nodes_inv h lf pr -> in_tree h (Z.of_nat n) j -> l / 2 ^ Z.of_nat n = j ->
  is_Some (lf l) -> l ∉ excl -> covered_once (res lf pr excl n j) l.
Proof.
  intros Hh Hi. revert j. induction n as [|n IH]; intros j Ht Hl Hs He; cbn [res].
  - change (2 ^ Z.of_nat 0) with 1 in Hl. rewrite Z.div_1_r in Hl. subst j. destruct Hs as [x Hx].
    unfold leaf_entry. rewrite bool_decide_false, Hx by done. eexists [], _, []. split; [done|]. split; [done|].
    cbn. intros e He'. by apply elem_of_nil in He'.
  - destruct (pr _) as [p|] eqn:Ep.
    + apply (parent_covered_once _ pr); [by apply (in_tree_coord h)|lia|by apply Hi; [lia| |]|done..].
    + assert (forall b, 0 <= b <= 1 -> in_tree h (Z.of_nat n) (2 * j + b)) as Hch.
      { intros b Hb. replace (Z.of_nat n) with (Z.of_nat (S n) - 1) by lia. apply in_tree_child; (done || lia). }
      pose proof (Hch 0 ltac:(lia)) as Ht0. pose proof (Hch 1 ltac:(lia)) as Ht1. rewrite Z.add_0_r in Ht0.
      apply (child_half l (Z.of_nat (S n)) j) in Hl as (b & Hb & Hl); [|lia].
      replace (Z.of_nat (S n) - 1) with (Z.of_nat n) in Hl by lia.
      apply covered_once_app. assert (b = 0 \/ b = 1) as [-> | ->] by lia.
      * rewrite Z.add_0_r in Hl. left. split; [by apply IH|]. intros e He' Hc.
        apply (res_below h _ _ _ _ _ _ _ Hh Hi Ht1 He') in Hc. lia.
      * right. split; [by apply IH|]. intros e He' Hc.
        apply (res_below h _ _ _ _ _ _ _ Hh Hi Ht0 He') in Hc. lia.
Qed.

(** A non-empty resolution has a non-blank leaf below its node. *)
Lemma res_populated h lf pr excl n j :
  nodes_inv h lf pr -> in_tree h (Z.of_nat n) j -> res lf pr excl n j <> [] ->
  exists l, l / 2 ^ Z.of_nat n = j /\ is_Some (lf l).
Proof.
  intros Hi. revert j. induction n as [|n IH]; intros j Ht Hne; cbn [res] in Hne.
  - exists j. split; [cbn; apply Z.div_1_r|]. unfold leaf_entry in Hne.
    destruct (lf j); [done|]. by case_bool_decide.
  - assert (exists b l, 0 <= b <= 1 /\ l / 2 ^ Z.of_nat n = 2 * j + b /\ is_Some (lf l)) as (b & l & Hb & Hl & Hs).
    { assert (forall b, 0 <= b <= 1 -> in_tree h (Z.of_nat n) (2 * j + b)) as Hch.
      { intros b Hb. replace (Z.of_nat n) with (Z.of_nat (S n) - 1) by lia. apply in_tree_child; (done || lia). }
      destruct (pr _) as [p|] eqn:Ep.
      - destruct (ni_populated _ _ _ _ _ (Hi (Z.of_nat (S n)) j p ltac:(lia) Ht Ep) 0 ltac:(lia)) as (l & Hl & Hs).
        exists 0, l. replace (Z.of_nat (S n) - 1) with (Z.of_nat n) in Hl by lia. split; [lia|done].
      - destruct (res lf pr excl n (2 * j)) as [|e r] eqn:E0.
        + destruct (IH (2 * j + 1)) as (l & Hl & Hs); [apply Hch; lia|done|]. exists 1, l. split; [lia|done].
        + destruct (IH (2 * j + 0)) as (l & Hl & Hs); [apply Hch; lia| |exists 0, l; split; [lia|done]].
          by rewrite Z.add_0_r, E0. }
    exists l. split; [|done]. apply (child_half l (Z.of_nat (S n)) j); [lia|]. exists b. split; [lia|].
    by replace (Z.of_nat (S n) - 1) with (Z.of_nat n) by lia.
Qed.

Lemma res_nonempty h lf pr excl n j l :
  h <= 30 -> nodes_inv h lf pr -> in_tree h (Z.of_nat n) j -> l / 2 ^ Z.of_nat n = j ->
  is_Some (lf l) -> l ∉ excl -> res lf pr excl n j <> [].
Proof.
  intros Hh Hi Ht Hl Hs He. destruct (res_covers h lf pr excl n j l) as (r1 & e & r2 & -> & _); [done..|].
  by destruct r1.
Qed.

(** *** Preservation *)

Lemma half_below l l' k k' : 0 <= k' <= k -> l / 2 ^ k <> l' / 2 ^ k -> l / 2 ^ k' <> l' / 2 ^ k'.
Proof. intros Hk Hne E. apply Hne. by apply (div_pow2_le _ _ k'). Qed.

(** A leaf changes and its path is blanked or set to fresh nodes. *)
Lemma nodes_inv_path h lf pr lf' pr' l :
  nodes_inv h lf pr -> (forall i, i <> l -> lf' i = lf i) ->
  (forall k j, 1 <= k -> in_tree h k j -> l / 2 ^ k <> j -> pr' (parent_at k j) = pr (parent_at k j)) ->
  (forall k p, 1 <= k -> in_tree h k (l / 2 ^ k) -> pr' (parent_at k (l / 2 ^ k)) = Some p ->
     unmerged_leaves p = [] /\
     forall b, 0 <= b <= 1 -> exists i, i / 2 ^ (k - 1) = 2 * (l / 2 ^ k) + b /\ is_Some (lf' i)) ->
  nodes_inv h lf' pr'.
Proof.
  intros Hi Hlf Hoff Hon k j p Hk Ht Hp. destruct (decide (l / 2 ^ k = j)) as [<-|Hne].
  - destruct (Hon k p Hk Ht Hp) as [Hu Hpop]. split; [rewrite Hu; constructor| | |done];
      intros i; rewrite Hu; intros; set_solver.
  - rewrite Hoff in Hp by done. destruct (Hi k j p Hk Ht Hp) as [H1 H2 H3 H4].
    assert (forall i, i / 2 ^ k = j -> lf' i = lf i) as Hsame by (intros i Ei; apply Hlf; congruence).
    split; [done| | |].
    + intros i Hin. destruct (H2 i Hin) as [E Hs]. by rewrite Hsame.
    + intros i k' q Hin Hk' Hq. destruct (H2 i Hin) as [E _]. apply (H3 i k'); [done..|].
      assert (in_tree h k' (i / 2 ^ k')) as Ht'.
      { destruct Ht as [Ht ?]. apply in_tree_anc; [lia|]. by apply (in_tree_leaf h k j). }
      rewrite <- Hoff; [done|lia|done|]. apply (half_below _ _ k); [lia|congruence].
    + intros b Hb. destruct (H4 b Hb) as (i & Ei & Hs). exists i. split; [done|].
      rewrite Hsame; [done|]. apply child_half; [done|]. eauto.
Qed.

Lemma search_position_split u l :
  StronglySorted Z.lt u -> l ∉ u ->
  Forall (fun x => x < l) (take (UnmergedLeaves.search_position u l) u) /\
  Forall (fun x => l < x) (drop (UnmergedLeaves.search_position u l) u).
Proof.
  intros Hs Hl. induction Hs as [|x u Hs IH Hx]; [by split; constructor|].
  apply not_elem_of_cons in Hl as [Hne Hl]. cbn. destruct (Z.ltb_spec x l); cbn.
  - destruct (IH Hl). split; [by constructor|done].
  - split; [constructor|]. constructor; [lia|]. eapply Forall_impl; [done|]. cbn. lia.
Qed.

Lemma add_elem u l x : x ∈ UnmergedLeaves.add u l <-> x = l \/ x ∈ u.
Proof.
  unfold UnmergedLeaves.add. set (n := UnmergedLeaves.search_position u l).
  rewrite <- (take_drop n u) at 3. rewrite !elem_of_app, elem_of_cons. tauto.
Qed.

(** Adding a fresh leaf keeps the list sorted. *)
Lemma add_sorted u l : StronglySorted Z.lt u -> l ∉ u -> StronglySorted Z.lt (UnmergedLeaves.add u l).
Proof.
  intros Hs Hl. destruct (search_position_split u l Hs Hl) as [H1 H2]. unfold UnmergedLeaves.add.
  revert H1 H2. generalize (UnmergedLeaves.search_position u l). intros n H1 H2.
  rewrite <- (take_drop n u) in Hs. revert Hs H1 H2. generalize (take n u) (drop n u). clear.
  intros u v Hs Hu Hv. induction u as [|x u IH]; cbn in *.
  - constructor; done.
  - apply StronglySorted_inv in Hs as [Hs Hx]. apply Forall_cons in Hu as [Hxl Hu].
    constructor; [by apply IH|]. apply Forall_app in Hx as [Hx1 Hx2]. apply Forall_app. split; [done|].
    constructor; done.
Qed.

(** A blank leaf is filled and recorded as unmerged on its path. *)
Lemma nodes_inv_add h lf pr lf' pr' l :
  nodes_inv h lf pr -> lf l = None -> is_Some (lf' l) -> (forall i, i <> l -> lf' i = lf i) ->
  (forall k j, 1 <= k -> in_tree h k j -> l / 2 ^ k <> j -> pr' (parent_at k j) = pr (parent_at k j)) ->
  (forall k, 1 <= k -> in_tree h k (l / 2 ^ k) ->
     pr' (parent_at k (l / 2 ^ k)) = add_unmerged_leaf l <$> pr (parent_at k (l / 2 ^ k))) ->
  nodes_inv h lf' pr'.
Proof.
  intros Hi Hn Hs Hlf Hoff Hon k j p' Hk Ht Hp'.
  assert (forall i, is_Some (lf i) -> is_Some (lf' i)) as Hmono.
  { intros i [x Hx]. destruct (decide (i = l)); [congruence|]. rewrite Hlf by done. eauto. }
  assert (exists p, pr (parent_at k j) = Some p /\
    (forall i, i ∈ unmerged_leaves p' <-> i ∈ unmerged_leaves p \/ (i = l /\ l / 2 ^ k = j)) /\
    StronglySorted Z.lt (unmerged_leaves p')) as (p & Hp & Hu & Hsort).
  { destruct (decide (l / 2 ^ k = j)) as [E|E].
    - subst j. rewrite Hon in Hp' by done. apply fmap_Some in Hp' as (p & Hp & ->). exists p.
      pose proof (Hi k _ p Hk Ht Hp) as [H1 H2 _ _]. split; [done|]. cbn. split.
      + intros i. rewrite add_elem. tauto.
      + apply add_sorted; [done|]. intros Hin. destruct (H2 l Hin) as [_ [x Hx]]. congruence.
    - rewrite Hoff in Hp' by done. exists p'. pose proof (Hi k j p' Hk Ht Hp') as [H1 _ _ _].
      split; [done|]. split; [|done]. intros i. tauto. }
  destruct (Hi k j p Hk Ht Hp) as [H1 H2 H3 H4]. split; [done| | |].
  - intros i [Hin|[-> E]]%Hu; [|done]. destruct (H2 i Hin). auto.
  - intros i k' q Hin Hk' Hq.
    assert (0 <= i < 2 ^ h) as Hir.
    { apply (in_tree_leaf h k j); [done|]. apply Hu in Hin as [Hin|[-> E]]; [by apply H2|done]. }
    assert (in_tree h k' (i / 2 ^ k')) as Ht' by (destruct Ht; apply in_tree_anc; [lia|done]).
    destruct (decide (l / 2 ^ k' = i / 2 ^ k')) as [E'|E'].
    + rewrite <- E' in *. rewrite Hon in Hq by (done || lia). apply fmap_Some in Hq as (q0 & Hq0 & ->).
      cbn. apply add_elem. apply Hu in Hin as [Hin|[-> _]]; [|by left]. right.
      apply (H3 i k'); [done..|]. by rewrite <- E'.
    + rewrite Hoff in Hq by (done || lia). apply Hu in Hin as [Hin|[-> _]]; [|done]. by apply (H3 i k').
  - intros b Hb. destruct (H4 b Hb) as (i & Ei & His). eauto.
Qed.
End Reference.
