(* ===== verification/TreeSyncDiffFacts.v ===== *)
(** * Operations on a ratchet-tree diff

    [add_leaf], [update_leaf], [blank_leaf], [trim_tree] and the writes of an
    update path: they terminate, keep the tree invariant, and change exactly the
    nodes they should. *)
From S2P Require Import Prelude TreeMath TreeMathFacts BinaryTree BinaryTreeFacts Crypto CryptoFacts TreeSync TreeSyncFacts.

(** ** Writing several parents *)
Section Writes.
Context {L P : Type} `{Default L} `{Default P}.
Implicit Types d : AbDiff L P.

(** [d'] differs from [d] only in the parents, and these are given by [f]. *)
Definition parents_set d d' (f : Z -> P) : Prop :=
  wf_diff d' /\ size d' = size d /\ original_tree d' = original_tree d /\ leaf_diff d' = leaf_diff d /\
  (forall i, Diff.leaf d' i = Diff.leaf d i) /\ forall p, Diff.parent d' p = f p.

Lemma parent_mut_fold (f : Z -> P -> P) path d :
  wf_diff d -> NoDup path -> (forall p, p ∈ path -> 0 <= p < Diff.parent_count d) ->
  parents_set d (foldl (fun d i => Diff.parent_mut d i (f i)) d path)
    (fun p => if bool_decide (p ∈ path) then f p (Diff.parent d p) else Diff.parent d p).
Proof.
  revert d. induction path as [|q path IH]; intros d Hw Hn Hr; cbn [foldl].
  - do 5 (split; [done|]). intros p. by rewrite bool_decide_false by apply not_elem_of_nil.
  - apply NoDup_cons in Hn as [Hq Hn]. rewrite parent_mut_replace.
    destruct (IH (Diff.replace_parent d q (f q (Diff.parent d q)))) as (Hw' & Hs & Ho & Hl & Hlf & Hp).
    + apply replace_parent_sim; [done|]. apply Hr. constructor.
    + done.
    + intros p Hp. apply Hr. by constructor.
    + split; [done|]. do 3 (split; [done|]). split; [intros i; by rewrite Hlf|]. intros p.
      rewrite Hp, parent_replace_parent, (bool_decide_ext _ _ (elem_of_cons path p q)).
      destruct (decide (q = p)) as [->|Hne].
      * by rewrite (bool_decide_false (p ∈ path)), bool_decide_true by auto.
      * rewrite (bool_decide_ext (p = q \/ p ∈ path) (p ∈ path)); [done|intuition congruence].
Qed.

Lemma parent_write_fold (path : list (Z * P)) d :
  wf_diff d -> NoDup path.*1 -> (forall p, p ∈ path.*1 -> 0 <= p < Diff.parent_count d) ->
  parents_set d (foldl (fun d '(i, x) => Diff.parent_mut d i (fun _ => x)) d path)
    (fun p => default (Diff.parent d p) ((list_to_map path : gmap Z P) !! p)).
Proof.
  revert d. induction path as [|[q x] path IH]; intros d Hw Hn Hr; cbn [foldl].
  - do 5 (split; [done|]). done.
  - cbn in Hn, Hr. apply NoDup_cons in Hn as [Hq Hn]. rewrite parent_mut_replace.
    destruct (IH (Diff.replace_parent d q x)) as (Hw' & Hs & Ho & Hl & Hlf & Hp).
    + apply replace_parent_sim; [done|]. apply Hr. constructor.
    + done.
    + intros p Hp. apply Hr. by constructor.
    + split; [done|]. do 3 (split; [done|]). split; [intros i; by rewrite Hlf|]. intros p.
      rewrite Hp, parent_replace_parent. cbn. rewrite lookup_insert.
      destruct (decide (q = p)) as [->|Hne]; [|done].
      by rewrite (not_elem_of_list_to_map_1 path p Hq).
Qed.
End Writes.

Lemma ancestors_NoDup h l : 0 <= h <= 30 -> 0 <= l < 2 ^ h -> NoDup (ancestors h l).
Proof.
  intros Hh Hl. apply NoDup_fmap_2_strong; [|apply NoDup_seqZ].
  intros k k' Hk%elem_of_seqZ Hk'%elem_of_seqZ E.
  apply (parent_at_inj k (l / 2 ^ k) k' (l / 2 ^ k')) in E; [tauto|lia..| |]; apply (coord_anc h); lia.
Qed.

Lemma ancestors_coord h k j l :
  0 <= h <= 30 -> 0 <= l < 2 ^ h -> 1 <= k -> in_tree h k j -> parent_at k j ∈ ancestors h l <-> l / 2 ^ k = j.
Proof.
  intros Hh Hl Hk Ht. rewrite ancestors_elem by done.
  rewrite node_at_parent, below_node_at by (done || by apply (in_tree_coord h); [lia|]).
  split; [by intros [_ ?]|]. intros E. split; [|done].
  assert (parent_at k j ∈ ancestors h l) as Hin.
  { apply list_elem_of_fmap. exists k. split; [by rewrite E|]. destruct Ht. apply elem_of_seqZ. lia. }
  apply ancestors_elem in Hin; [tauto|done..].
Qed.

(** ** The leaves of a diff *)
Section Leaves.
Context {OC : OpenMlsCrypto} {TC : TlsCodec} {LeafNode : Type} {LO : LeafNodeOps LeafNode}.
Implicit Types (d : TreeSyncDiff LeafNode).

(** The leaves that [AbDiff::leaves] visits. *)
Definition listed d (i : Z) : Prop :=
  i < Z.of_nat (length (leaf_nodes (original_tree d))) \/ is_Some (leaf_diff d !! i).

(** They are a prefix of the leaves of the tree. *)
Definition contiguous d : Prop :=
  exists m, 0 <= m <= Diff.leaf_count d /\ forall i, 0 <= i < Diff.leaf_count d -> listed d i <-> i < m.

(** The diff also lists the parent that sits left of each leaf it replaces. *)
Definition parents_listed d : Prop :=
  forall i, 0 <= i -> is_Some (leaf_diff d !! (i + 1)) ->
    i < Z.of_nat (length (parent_nodes (original_tree d))) \/ is_Some (parent_diff d !! i).

Lemma leaf_unlisted d i : wf_diff d -> ~ (0 <= i < Diff.leaf_count d /\ listed d i) -> Diff.leaf d i = None.
Proof.
  intros Hw Hn. unfold Diff.leaf. destruct (leaf_diff d !! i) as [x|] eqn:E.
  - exfalso. apply Hn. split; [by apply (wf_leaf_keys _ Hw _ _ E)|]. right. eauto.
  - rewrite Z.geb_leb. destruct (Z.leb_spec (Diff.leaf_count d) i) as [|Hlt]; [apply (wf_ddl _ Hw)|].
    unfold Tree.leaf_by_index, get_at. rewrite (wf_dl _ (wf_orig _ Hw)).
    destruct (Z.leb_spec 0 i); [|done]. rewrite lookup_ge_None_2; [done|].
    destruct (decide (Z.to_nat i < length (leaf_nodes (original_tree d)))%nat); [|lia].
    exfalso. apply Hn. split; [lia|]. left. lia.
Qed.

Lemma sorted_pairs_unique {A} (l l' : list (Z * A)) :
  sorted fst l -> sorted fst l' -> (forall x, x ∈ l <-> x ∈ l') -> l = l'.
Proof.
  unfold sorted. revert l'. induction l as [|x l IH]; intros [|y l'] Hl Hl' Hin.
  - done.
  - exfalso. eapply not_elem_of_nil, Hin. constructor.
  - exfalso. eapply not_elem_of_nil, Hin. constructor.
  - apply sorted_cons in Hl as [Hl Hx], Hl' as [Hl' Hy].
    assert (x = y) as ->.
    { pose proof (proj1 (Hin x) ltac:(constructor)) as [?|Hxy]%elem_of_cons; [done|].
      pose proof (proj2 (Hin y) ltac:(constructor)) as [?|Hyx]%elem_of_cons; [done|].
      specialize (Hx y Hyx). specialize (Hy x Hxy). lia. }
    f_equal. apply IH; [done..|]. intros z. split; intros Hz.
    + pose proof (proj1 (Hin z) ltac:(by constructor)) as [->|?]%elem_of_cons; [|done]. specialize (Hx y Hz). lia.
    + pose proof (proj2 (Hin z) ltac:(by constructor)) as [->|?]%elem_of_cons; [|done]. specialize (Hy y Hz). lia.
Qed.

Lemma indexed_sorted {A} (f : Z -> A) a m : sorted fst ((fun i => (i, f i)) <$> seqZ a m).
Proof.
  unfold sorted. rewrite <- list_fmap_compose. cbn.
  replace (compose fst (fun i => (i, f i))) with (fun i : Z => i) by done. rewrite list_fmap_id.
  destruct (Z.le_gt_cases 0 m) as [Hm|Hm]; [|rewrite seqZ_nil by lia; constructor].
  revert a. pattern m. apply natlike_ind; [intros a; constructor| |done].
  intros n Hn IH a. rewrite seqZ_cons by lia. replace (Z.pred (Z.succ n)) with n by lia.
  constructor; [apply IH|]. apply Forall_forall. intros i Hi%elem_of_seqZ. lia.
Qed.

(** The leaves with their indices, from [a] on. *)
Definition leaf_list d (a m : Z) : list (Z * option LeafNode) := (fun i => (i, Diff.leaf d i)) <$> seqZ a m.

Lemma leaves_contiguous d :
  wf_diff d -> contiguous d ->
  exists m, 0 <= m <= Diff.leaf_count d /\ Diff.leaves d = Some (leaf_list d 0 m) /\
  (forall i, m <= i -> Diff.leaf d i = None).
Proof.
  intros Hw (m & Hm & Hc). exists m. split; [done|].
  destruct (diff_leaves_spec d Hw) as (l & -> & Hs & Hin). split.
  - f_equal. apply sorted_pairs_unique; [done|apply indexed_sorted|]. intros [i x]. rewrite Hin.
    unfold leaf_list. rewrite list_elem_of_fmap. split.
    + intros (Hi & -> & Hl). exists i. split; [done|]. apply elem_of_seqZ. apply Hc in Hl; lia.
    + intros (i' & [= -> ->] & Hi%elem_of_seqZ). split; [lia|]. split; [done|]. apply Hc; lia.
  - intros i Hi. apply leaf_unlisted; [done|]. intros [Hr Hl]. apply Hc in Hl; lia.
Qed.

Lemma first_blank_spec d a n :
  0 <= a -> 0 <= n -> a + n < 2 ^ 32 ->
  exists i, TSDiff.first_blank (leaf_list d a n) a = i /\ a <= i <= a + n /\
  (i < a + n -> Diff.leaf d i = None) /\ (forall i', a <= i' < i -> is_Some (Diff.leaf d i')).
Proof.
  intros Ha Hn. revert a Ha. pattern n. apply natlike_ind; [| |done].
  - intros a Ha Hb. exists a. cbn. split; [done|]. split; [lia|]. split; lia.
  - clear n Hn. intros n Hn IH a Ha Hb. unfold leaf_list. rewrite seqZ_cons by lia.
    replace (Z.pred (Z.succ n)) with n by lia. cbn [fmap list_fmap TSDiff.first_blank].
    destruct (Diff.leaf d a) as [x|] eqn:E.
    + replace ((a + 1)%u32) with (a + 1) by (unfold u32.add; rewrite u32.wrap_small; [done|unfold u32.is_u32, u32.modulus; lia]).
      destruct (IH (Z.succ a) ltac:(lia) ltac:(lia)) as (i & Ei & Hi & Hnone & Hsome).
      exists i. split; [exact Ei|]. split; [lia|]. split; [intros; apply Hnone; lia|].
      intros i' Hi'. destruct (decide (i' = a)) as [->|]; [by eexists|]. apply Hsome. lia.
    + exists a. split; [done|]. split; [lia|]. split; [done|]. lia.
Qed.

(** [free_leaf_index] is the leftmost blank leaf, or the leaf count. *)
Lemma free_leaf_index_spec d :
  wf_diff d -> contiguous d ->
  exists i, TSDiff.free_leaf_index d = Some i /\ 0 <= i <= Diff.leaf_count d /\ Diff.leaf d i = None /\
  (forall i', 0 <= i' < i -> is_Some (Diff.leaf d i')) /\ (forall i', 0 <= i' < i -> listed d i').
Proof.
  intros Hw Hc. destruct (leaves_contiguous d Hw Hc) as (m & Hm & E & Hout).
  assert (Diff.leaf_count d < 2 ^ 32) as Hb.
  { destruct (wf_size d Hw) as (h & Hh & Es). unfold Diff.leaf_count. rewrite Es, perfect_leaf_count by lia.
    apply pow2_lt; lia. }
  destruct (first_blank_spec d 0 m ltac:(lia) ltac:(lia) ltac:(lia)) as (i & Ei & Hi & Hnone & Hsome).
  exists i. unfold TSDiff.free_leaf_index. rewrite E. cbn [mbind option_bind]. split; [by rewrite Ei|].
  split; [lia|]. split.
  - destruct (decide (i < m)); [apply Hnone; lia|]. apply Hout. lia.
  - split; [done|]. intros i' Hi'. destruct (Hsome i' Hi') as [x Hx].
    destruct (decide (listed d i')) as [|Hn]; [done|]. exfalso.
    rewrite leaf_unlisted in Hx; [done|done|]. by intros [_ ?].
Qed.

(** *** The rightmost full leaf *)
Lemma last_full_spec d m :
  0 <= m -> exists r, TSDiff.last_full (leaf_list d 0 m) = r /\ (r = 0 \/ r < m) /\ 0 <= r /\
  (forall i, 0 <= i < m -> is_Some (Diff.leaf d i) -> i <= r) /\ (r = 0 \/ is_Some (Diff.leaf d r)).
Proof.
  intros Hm. pattern m. apply natlike_ind; [| |done].
  - exists 0. cbn. split; [done|]. split; [by left|]. split; [done|]. split; [lia|]. by left.
  - clear m Hm. intros m Hm (r & Er & Hr & Hr0 & Hmax & Hex). unfold leaf_list.
    replace (Z.succ m) with (m + 1) by lia. rewrite seqZ_app, fmap_app by lia.
    replace (seqZ (0 + m) 1) with [m] by (rewrite seqZ_cons, seqZ_nil by lia; f_equal; lia).
    unfold TSDiff.last_full in *. rewrite foldl_app. cbn [fmap list_fmap foldl].
    unfold leaf_list in Er. rewrite Er. destruct (Diff.leaf d m) as [x|] eqn:E.
    + exists m. split; [done|]. split; [lia|]. split; [done|]. split; [lia|]. right. by rewrite E.
    + exists r. split; [done|]. split; [lia|]. split; [done|]. split; [|done].
      intros i Hi [y Hy]. apply Hmax; [|by rewrite Hy]. destruct (decide (i = m)); [congruence|lia].
Qed.

Lemma rightmost_full_leaf_spec d :
  wf_diff d -> contiguous d ->
  exists r, TSDiff.rightmost_full_leaf d = Some r /\ 0 <= r < Diff.leaf_count d /\
  (forall i, is_Some (Diff.leaf d i) -> i <= r) /\ (r = 0 \/ is_Some (Diff.leaf d r)).
Proof.
  intros Hw Hc. destruct (leaves_contiguous d Hw Hc) as (m & Hm & E & Hout).
  destruct (last_full_spec d m ltac:(lia)) as (r & Er & Hr & Hr0 & Hmax & Hex).
  exists r. unfold TSDiff.rightmost_full_leaf. rewrite E. cbn [mbind option_bind]. split; [by rewrite Er|].
  assert (forall i, is_Some (Diff.leaf d i) -> 0 <= i < m) as Hin.
  { intros i [x Hx]. destruct (decide (0 <= i < m)); [done|]. exfalso.
    destruct (decide (m <= i)); [by rewrite Hout in Hx|]. rewrite leaf_unlisted in Hx; [done|done|lia]. }
  assert (0 < Diff.leaf_count d).
  { destruct (wf_size d Hw) as (h & Hh & Es). unfold Diff.leaf_count. rewrite Es, perfect_leaf_count by lia.
    apply pow2_pos. lia. }
  split; [lia|]. split; [intros i Hi; apply Hmax; [by apply Hin|done]|done].
Qed.
End Leaves.

(** ** Resizing *)
Lemma in_tree_smaller h h' k j : 0 <= h -> 1 <= k -> in_tree h' k j -> parent_at k j < 2 ^ h - 1 -> in_tree h k j.
Proof.
  intros Hh Hk [Hkh Hj]. unfold parent_at. pose proof (pow2_pos (k - 1)). pose proof (pow2_pred k Hk). intros Hlt.
  assert (k <= h) as Hk'.
  { destruct (Z.le_gt_cases k h); [done|]. pose proof (pow2_le h (k - 1)). nia. }
  split; [lia|]. split; [lia|]. pose proof (pow2_pos (h - k)).
  assert (2 ^ h = 2 ^ (h - k) * 2 ^ k) by (rewrite <- Z.pow_add_r by lia; f_equal; lia). nia.
Qed.

Section Resize.
Context {LeafNode : Type}.
Implicit Types (lf : Z -> option LeafNode) (pr : Z -> option ParentNode).

(** The invariant depends on the non-blank nodes and the leaves below them. *)
Lemma nodes_inv_transfer h h' lf pr lf' pr' :
  nodes_inv h lf pr ->
  (forall i, 0 <= i < 2 ^ h -> 0 <= i < 2 ^ h' -> lf' i = lf i) ->
  (forall k j p, 1 <= k -> in_tree h' k j -> pr' (parent_at k j) = Some p ->
     in_tree h k j /\ pr (parent_at k j) = Some p) ->
  nodes_inv h' lf' pr'.
Proof.
  intros Hi Hlf Hpr k j p Hk Ht Hp. destruct (Hpr k j p Hk Ht Hp) as [Ht0 Hp0].
  destruct (Hi k j p Hk Ht0 Hp0) as [H1 H2 H3 H4].
  assert (forall i, i / 2 ^ k = j -> lf' i = lf i) as Hsame.
  { intros i Ei. apply Hlf; by apply (in_tree_leaf _ k j). }
  split; [done| | |].
  - intros i Hin. destruct (H2 i Hin). by rewrite Hsame.
  - intros i k' q Hin Hk' Hq. destruct (H2 i Hin) as [E _]. apply (H3 i k'); [done..|].
    apply Hpr; [lia| |done]. destruct Ht as [Ht ?]. apply in_tree_anc; [lia|]. by apply (in_tree_leaf h' k j).
  - intros b Hb. destruct (H4 b Hb) as (i & Ei & Hs). exists i. split; [done|].
    rewrite Hsame; [done|]. apply child_half; eauto.
Qed.
End Resize.

(** ** The invariant of a diff *)
Section Operations.
Context {OC : OpenMlsCrypto} {TC : TlsCodec} {LeafNode : Type} {LO : LeafNodeOps LeafNode}.
Implicit Types (d : TreeSyncDiff LeafNode).

Record ts_inv d (h : Z) : Prop := {
  ti_wf : wf_diff d;
  ti_h : 0 <= h <= 29;
  ti_size : size d = perfect h;
  ti_nodes : nodes_inv h (Diff.leaf d) (Diff.parent d);
  ti_contiguous : contiguous d;
  ti_parents : parents_listed d;
}.

Lemma ti_leaf_count d h : ts_inv d h -> Diff.leaf_count d = 2 ^ h.
Proof. intros [_ Hh Es _ _]. unfold Diff.leaf_count. rewrite Es. apply perfect_leaf_count. lia. Qed.

Lemma ti_parent_count d h : ts_inv d h -> Diff.parent_count d = 2 ^ h - 1.
Proof. intros [_ Hh Es _ _]. unfold Diff.parent_count. rewrite Es. apply perfect_parent_count. lia. Qed.

Lemma full_in_range d h l : ts_inv d h -> is_Some (Diff.leaf d l) -> 0 <= l < 2 ^ h /\ listed d l.
Proof.
  intros Hi [x Hx]. rewrite <- (ti_leaf_count d h Hi).
  destruct (decide (0 <= l < Diff.leaf_count d /\ listed d l)) as [|Hn]; [done|].
  by rewrite leaf_unlisted in Hx; [|apply (ti_wf d h Hi)|].
Qed.

Lemma listed_prefix d h l :
  ts_inv d h -> 0 <= l < 2 ^ h -> listed d l -> forall i, 0 <= i < l -> listed d i.
Proof.
  intros Hi Hl Hd i Hr. rewrite <- (ti_leaf_count d h Hi) in Hl.
  destruct (ti_contiguous d h Hi) as (m & Hm & Hc). apply Hc; [lia|]. apply Hc in Hd; lia.
Qed.

Lemma leaf_replace_leaf d l x i : Diff.leaf (Diff.replace_leaf d l x) i = if decide (i = l) then x else Diff.leaf d i.
Proof. unfold Diff.leaf. cbn. rewrite lookup_insert. by repeat case_decide. Qed.

Lemma contiguous_insert d d' l x :
  contiguous d -> original_tree d' = original_tree d -> leaf_diff d' = <[l := x]> (leaf_diff d) ->
  size d' = size d -> 0 <= l < Diff.leaf_count d -> (forall i, 0 <= i < l -> listed d i) -> contiguous d'.
Proof.
  intros (m & Hm & Hc) Ho Hd Hs Hl Hp. unfold contiguous, listed, Diff.leaf_count in *. rewrite Ho, Hd, Hs.
  assert (l <= m) as Hlm.
  { destruct (Z.le_gt_cases l m); [done|]. pose proof (proj1 (Hc m ltac:(lia)) (Hp m ltac:(lia))). lia. }
  exists (Z.max m (l + 1)). split; [lia|]. intros i Hi. specialize (Hc i Hi).
  rewrite lookup_insert. case_decide as E; [|rewrite Hc; lia].
  subst. split; [lia|]. intros _. right. eauto.
Qed.

Lemma contiguous_parents d d' f : contiguous d -> parents_set d d' f -> contiguous d'.
Proof.
  intros Hc (_ & Hs & Ho & Hd & _). unfold contiguous, listed, Diff.leaf_count in *. by rewrite Hs, Ho, Hd.
Qed.

(** Rewriting parents lists them. *)
Lemma parent_mut_keys (f : Z -> option ParentNode -> option ParentNode) path d i :
  is_Some (parent_diff (foldl (fun d i => Diff.parent_mut d i (f i)) d path) !! i) <-> i ∈ path \/ is_Some (parent_diff d !! i).
Proof.
  revert d. induction path as [|q path IH]; intros d; cbn [foldl]; [set_solver|].
  rewrite IH, parent_mut_replace, elem_of_cons. cbn. rewrite lookup_insert_is_Some'. intuition congruence.
Qed.

(** The parent left of a leaf is above it. *)
Lemma left_parent_above h i : 0 <= h <= 29 -> 0 <= i -> i + 1 < 2 ^ h -> i ∈ ancestors h (i + 1).
Proof.
  intros Hh Hi Hlt. destruct (node_cover (2 * i + 1) ltac:(lia)) as (k & j & Hk & Hj & E).
  destruct (decide (k = 0)) as [->|Hk0]; [unfold node in E; lia|].
  assert (i = parent_at k j) as Ei by (pose proof (parent_at_index k j ltac:(lia)); lia).
  pose proof (pow2_pos (k - 1) ltac:(lia)) as Hp. pose proof (pow2_pred k ltac:(lia)) as Hpk.
  assert (i + 1 = (2 * j + 1) * 2 ^ (k - 1)) as El.
  { unfold node in E. rewrite Z.pow_add_r, Hpk in E by lia. lia. }
  assert ((i + 1) / 2 ^ k = j) as Ej.
  { symmetry. apply Z.div_unique with (2 ^ (k - 1)); [left; lia|]. rewrite El, Hpk. lia. }
  assert (k <= h) as Hkh.
  { destruct (Z.le_gt_cases k h); [done|]. pose proof (pow2_le h (k - 1) ltac:(lia)). nia. }
  rewrite Ei at 1. apply ancestors_coord; [lia..| |done]. rewrite <- Ej. apply in_tree_anc; lia.
Qed.

(** Adding the leaf [l], or replacing it, and rewriting the parents above it. *)
Lemma parents_listed_path d h l x (f : Z -> option ParentNode -> option ParentNode) d' :
  0 <= h <= 29 -> 0 <= l < 2 ^ h -> parents_listed d ->
  d' = foldl (fun d i => Diff.parent_mut d i (f i)) (Diff.replace_leaf d l x) (ancestors h l) ->
  original_tree d' = original_tree d -> leaf_diff d' = <[l := x]> (leaf_diff d) -> parents_listed d'.
Proof.
  intros Hh Hl Hp -> Ho Hd i Hi. rewrite Ho, Hd, parent_mut_keys, lookup_insert_is_Some'. cbn [parent_diff Diff.replace_leaf].
  intros [->|Hs]; [right; left; apply left_parent_above; lia|]. destruct (Hp i Hi Hs); auto.
Qed.

Lemma direct_path_ti d h l :
  0 <= h <= 29 -> size d = perfect h -> 0 <= l < 2 ^ h -> Diff.direct_path d l = Some (ancestors h l).
Proof. intros Hh Es Hl. unfold Diff.direct_path. rewrite Es. by apply direct_path_coord; [lia|]. Qed.

Lemma foldl_ext_eq {A B} (f g : A -> B -> A) l a : (forall a b, f a b = g a b) -> foldl f a l = foldl g a l.
Proof. intros H. revert a. induction l as [|b l IH]; intros a; cbn; [done|]. by rewrite H. Qed.

(** Rewriting the parents above a leaf. *)
Lemma path_mut_spec d h l (f : Z -> option ParentNode -> option ParentNode) :
  wf_diff d -> 0 <= h <= 29 -> size d = perfect h -> 0 <= l < 2 ^ h ->
  parents_set d (foldl (fun d i => Diff.parent_mut d i (f i)) d (ancestors h l))
    (fun p => if bool_decide (p ∈ ancestors h l) then f p (Diff.parent d p) else Diff.parent d p).
Proof.
  intros Hw Hh Es Hl. apply parent_mut_fold; [done|by apply ancestors_NoDup; [lia|]|].
  intros p Hp%ancestors_elem; [|lia|done]. unfold Diff.parent_count. rewrite Es, perfect_parent_count; lia.
Qed.

(** [update_leaf] and [blank_leaf]: the leaf is [x], its path is blank. *)
Lemma leaf_path_spec d h l x :
  ts_inv d h -> 0 <= l < 2 ^ h -> (forall i, 0 <= i < l -> listed d i) ->
  exists d', Diff.set_direct_path_to_node (Diff.replace_leaf d l x) l None = Some d' /\ ts_inv d' h /\
  (forall i, Diff.leaf d' i = if decide (i = l) then x else Diff.leaf d i) /\
  (forall p, Diff.parent d' p = if bool_decide (p ∈ ancestors h l) then None else Diff.parent d p) /\
  (forall i, listed d i -> listed d' i).
Proof.
  intros Hi Hl Hp. pose proof Hi as [Hw Hh Es Hn Hc]. pose proof (ti_leaf_count d h Hi) as Ec.
  set (d1 := Diff.replace_leaf d l x).
  assert (wf_diff d1) as Hw1 by (apply replace_leaf_sim; [done|lia]).
  destruct (path_mut_spec d1 h l (fun _ _ => None) Hw1 Hh Es Hl) as (Hw' & Hs' & Ho' & Hd' & Hlf & Hpr).
  unfold Diff.set_direct_path_to_node. rewrite (direct_path_ti d1 h l) by done. cbn [mbind option_bind].
  eexists. split; [done|].
  erewrite (foldl_ext_eq _ (fun d i => Diff.parent_mut d i (fun _ => None)));
    [|intros; by rewrite parent_mut_replace].
  set (d' := foldl _ _ _) in *.
  assert (forall i, Diff.leaf d' i = if decide (i = l) then x else Diff.leaf d i) as Hleaf.
  { intros i. rewrite Hlf. apply leaf_replace_leaf. }
  assert (forall i, listed d i -> listed d' i) as Hlist.
  { intros i. unfold listed. rewrite Ho', Hd'. cbn. intros [?|?]; [by left|right]. by apply lookup_insert_is_Some'; right. }
  split; [|done]. split; [done|done|by rewrite Hs'| | |].
  - apply (nodes_inv_path h (Diff.leaf d) (Diff.parent d) _ _ l); [done| | |].
    + intros i Hne. rewrite Hleaf. by case_decide.
    + intros k j Hk Ht Hne. rewrite Hpr, bool_decide_false; [done|]. by rewrite ancestors_coord by (lia || done).
    + intros k p Hk Ht. rewrite Hpr, bool_decide_true; [done|]. by apply ancestors_coord; [lia|..].
  - apply (contiguous_insert d d' l x); try done. lia.
  - apply (parents_listed_path d h l x (fun _ _ => None)); done || apply Hi.
Qed.

(** *** Trimming *)
Lemma shrink_spec d h :
  ts_inv d h -> 1 <= h ->
  exists d', Diff.shrink_tree d = Ok d' /\ ts_inv d' (h - 1) /\
  (forall i, 0 <= i < 2 ^ (h - 1) -> Diff.leaf d' i = Diff.leaf d i) /\
  (forall p, 0 <= p < 2 ^ (h - 1) - 1 -> Diff.parent d' p = Diff.parent d p).
Proof.
  intros Hi Hh1. pose proof Hi as [Hw Hh Es Hn (m & Hm & Hc)]. pose proof (ti_leaf_count d h Hi) as Ec.
  assert (exists d', Diff.shrink_tree d = Ok d') as [d' E].
  { unfold Diff.shrink_tree. destruct (Z.leb_spec (size d) MIN_TREE_SIZE) as [Hle|]; [|eauto].
    rewrite Es in Hle. unfold perfect, MIN_TREE_SIZE in Hle. pose proof (pow2_le 2 (h + 1)). lia. }
  exists d'. split; [done|].
  destruct (shrink_tree_sim d d' Hw E) as [Hw' (Hsz & Hlf & Hpr)]. cbn in Hsz, Hlf, Hpr.
  rewrite Es, perfect_dec in Hsz by lia. rewrite Hsz in Hlf, Hpr.
  rewrite perfect_leaf_count in Hlf by lia. rewrite perfect_parent_count in Hpr by lia.
  split; [|done]. split; [done|lia|done| | |].
  - apply (nodes_inv_transfer h _ (Diff.leaf d) (Diff.parent d)); [done|auto|].
    intros k j p Hk Ht Hp. rewrite Hpr in Hp by (by apply parent_at_range). split; [|done].
    destruct Ht as [Ht1 Ht2]. split; [lia|]. pose proof (pow2_le (h - 1 - k) (h - k)). lia.
  - unfold Diff.shrink_tree in E. destruct (size d <=? MIN_TREE_SIZE); [done|]. injection E as <-.
    unfold contiguous, listed, Diff.leaf_count in *. cbn in *. rewrite Hsz, Es, !perfect_leaf_count in * by lia.
    exists (Z.min m (2 ^ (h - 1))). pose proof (pow2_pos (h - 1)). pose proof (pow2_le (h - 1) h). split; [lia|].
    intros i Hir. rewrite lookup_retain_keys. destruct (Z.ltb_spec i (2 ^ (h - 1))); [|lia].
    rewrite Hc by lia. lia.
  - unfold Diff.shrink_tree in E. destruct (size d <=? MIN_TREE_SIZE); [done|]. injection E as <-.
    intros i Hi0. cbn in *. rewrite !lookup_retain_keys, Hsz, perfect_leaf_count, perfect_parent_count by lia.
    destruct (Z.ltb_spec (i + 1) (2 ^ (h - 1))); [|by intros []]. destruct (Z.ltb_spec i (2 ^ (h - 1) - 1)); [|lia]. by apply (ti_parents d h Hi).
Qed.

(** The last full leaf is in the right half, unless the tree is a single leaf. *)
Lemma shrink_while_spec fuel d h r :
  ts_inv d h -> 0 <= r < 2 ^ h -> h <= Z.of_nat fuel ->
  exists d' h', TSDiff.shrink_while fuel r d = Some d' /\ ts_inv d' h' /\ h' <= h /\
  r < 2 ^ h' /\ (h' = 0 \/ 2 ^ (h' - 1) <= r) /\
  (forall i, 0 <= i < 2 ^ h' -> Diff.leaf d' i = Diff.leaf d i) /\
  (forall p, 0 <= p < 2 ^ h' - 1 -> Diff.parent d' p = Diff.parent d p).
Proof.
  revert d h. induction fuel as [|fuel IH]; intros d h Hi Hr Hf; cbn [TSDiff.shrink_while];
    pose proof (ti_h d h Hi) as Hh; unfold TreeSize.leaf_is_left; rewrite (ti_size d h Hi), perfect_leaf_count by lia.
  - assert (h = 0) as -> by lia. change (2 ^ 0 / 2) with 0. destruct (Z.ltb_spec r 0); [lia|].
    exists d, 0. do 4 (split; [done || lia|]). split; [by left|]. done.
  - destruct (Z.ltb_spec r (2 ^ h / 2)) as [Hlt|Hge].
    + destruct (Z.eq_dec h 0) as [->|]; [change (2 ^ 0 / 2) with 0 in Hlt; lia|].
      assert (2 ^ h / 2 = 2 ^ (h - 1)) as E2.
      { rewrite (pow2_pred h) by lia. rewrite Z.mul_comm. apply Z.div_mul. lia. }
      destruct (shrink_spec d h Hi ltac:(lia)) as (d1 & -> & Hi1 & Hl1 & Hp1).
      destruct (IH d1 (h - 1) Hi1 ltac:(lia) ltac:(lia)) as (d' & h' & -> & Hi' & Hh' & Hr' & Hmin & Hl & Hp).
      exists d', h'. pose proof (pow2_le h' (h - 1)). do 2 (split; [done|]). split; [lia|]. do 2 (split; [done|]). split.
      * intros i Hir. rewrite Hl by lia. apply Hl1. lia.
      * intros p Hpr. rewrite Hp by lia. apply Hp1. lia.
    + exists d, h. do 2 (split; [done|]). split; [lia|]. split; [lia|]. split; [|done].
      destruct (Z.eq_dec h 0); [by left|]. right. rewrite (pow2_pred h), Z.mul_comm, Z.div_mul in Hge; lia.
Qed.

Lemma trim_tree_spec d h :
  ts_inv d h ->
  exists d' h', TSDiff.trim_tree d = Some d' /\ ts_inv d' h' /\ h' <= h /\
  (forall i, is_Some (Diff.leaf d i) -> i < 2 ^ h') /\
  (h' = 0 \/ exists i, 2 ^ (h' - 1) <= i /\ is_Some (Diff.leaf d i)) /\
  (forall i, 0 <= i < 2 ^ h' -> Diff.leaf d' i = Diff.leaf d i) /\
  (forall p, 0 <= p < 2 ^ h' - 1 -> Diff.parent d' p = Diff.parent d p).
Proof.
  intros Hi. pose proof (ti_h d h Hi) as Hh. unfold TSDiff.trim_tree, TSDiff.leaf_count.
  rewrite (ti_leaf_count d h Hi). unfold MIN_TREE_SIZE. destruct (Z.eqb_spec (2 ^ h) 1) as [E|E].
  - assert (h = 0) as ->. { destruct (Z.eq_dec h 0); [done|]. pose proof (pow2_le 1 h). lia. }
    exists d, 0. do 3 (split; [done|]). split; [intros i Hs; by apply (full_in_range d 0 i Hi)|]. split; [by left|]. done.
  - destruct (rightmost_full_leaf_spec d (ti_wf d h Hi) (ti_contiguous d h Hi)) as (r & -> & Hr & Hmax & Hex).
    cbn [mbind option_bind]. rewrite (ti_leaf_count d h Hi) in Hr.
    destruct (shrink_while_spec 32 d h r Hi Hr ltac:(lia)) as (d' & h' & -> & Hi' & Hle & Hr' & Hmin & Hl & Hp).
    exists d', h'. do 3 (split; [done|]). split; [intros i Hs; specialize (Hmax i Hs); lia|]. split; [|done].
    destruct Hmin as [->|Hmin]; [by left|]. destruct Hex as [->|Hex]; [|right; eauto].
    left. destruct (Z.eq_dec h' 0); [done|]. pose proof (ti_h d' h' Hi'). pose proof (pow2_pos (h' - 1)). lia.
Qed.

(** *** Growing and adding *)
Lemma grow_contiguous d d' h :
  ts_inv d h -> h <= 28 -> Diff.grow_tree d = Ok d' -> (forall i, 0 <= i < 2 ^ h -> listed d i) ->
  contiguous d' /\ parents_listed d' /\ forall i, 0 <= i < 2 ^ h -> listed d' i.
Proof.
  intros [Hw Hh Es _ _ Hpl] Hh28 E Hall. unfold Diff.grow_tree in E. destruct (size d >? MAX_TREE_SIZE / 2); [done|].
  injection E as <-. pose proof (wf_leaf_keys d Hw) as Hk.
  unfold contiguous, listed, Diff.leaf_count in *. cbn in *. pose proof (pow2_pos h). pose proof (pow2_succ h).
  rewrite Es, perfect_inc, !perfect_leaf_count in * by lia.
  rewrite (wf_tree_leaf_count _ (wf_orig d Hw)). set (n := Z.of_nat (length (leaf_nodes (original_tree d)))) in *.
  assert (forall i, 0 <= i < 2 ^ h -> i < n \/ is_Some (Diff.insert_range (2 ^ h) (2 ^ (h + 1) `min` n) None (leaf_diff d) !! i)) as Hold.
  { intros i Hi. destruct (Hall i Hi) as [|Hs]; [by left|]. right. rewrite lookup_insert_range. by rewrite bool_decide_false by lia. }
  split; [|split; [|done]].
  2:{ intros i Hi. cbn. rewrite !lookup_insert_range. pose proof (wf_counts _ (wf_orig d Hw)) as Hcn. case_bool_decide as Hr.
      - intros _. left. lia.
      - intros Hs. destruct (Hpl i Hi Hs); [by left|right]. by case_bool_decide. }
  exists (Z.max (2 ^ h) (Z.min (2 ^ (h + 1)) n)). split; [lia|]. intros i Hi.
  destruct (Z.lt_ge_cases i (2 ^ h)) as [Hlt|Hge].
  - split; [lia|]. intros _. apply Hold. lia.
  - rewrite lookup_insert_range. split.
    + intros [Hn|Hs]; [lia|]. case_bool_decide; [lia|]. destruct Hs as [x Hx]. apply Hk in Hx. lia.
    + intros Hlt. left. lia.
Qed.

Lemma grow_spec d h :
  ts_inv d h -> (forall i, 0 <= i < 2 ^ h -> listed d i) ->
  (h = 29 /\ Diff.grow_tree d = Err TreeTooLarge) \/
  (h <= 28 /\ exists d', Diff.grow_tree d = Ok d' /\ ts_inv d' (h + 1) /\
     (forall i, 0 <= i < 2 ^ h -> listed d' i) /\ (forall i, Diff.leaf d' i = Diff.leaf d i) /\
     (forall p, 0 <= p < 2 ^ h - 1 -> Diff.parent d' p = Diff.parent d p) /\
     (forall p, 2 ^ h - 1 <= p < 2 ^ (h + 1) - 1 -> Diff.parent d' p = None)).
Proof.
  intros Hi Hall. pose proof Hi as [Hw Hh Es Hn _].
  destruct (Z.eq_dec h 29) as [->|Hne].
  { left. split; [done|]. unfold Diff.grow_tree. rewrite Es. done. }
  right. split; [lia|].
  assert (exists d', Diff.grow_tree d = Ok d') as [d' E].
  { unfold Diff.grow_tree. rewrite Es, Z.gtb_ltb. change (MAX_TREE_SIZE / 2) with (2 ^ 29 - 1).
    unfold perfect. pose proof (pow2_le (h + 1) 29). destruct (Z.ltb_spec (2 ^ 29 - 1) (2 ^ (h + 1) - 1)); [lia|eauto]. }
  exists d'. split; [done|]. destruct (grow_contiguous d d' h Hi ltac:(lia) E Hall) as (Hc' & Hpl' & Hl').
  destruct (grow_tree_sim d d' Hw E) as [Hw' (Hsz & Hlf & Hpr)]. cbn in Hsz, Hlf, Hpr.
  pose proof (pow2_pos h). pose proof (pow2_succ h).
  rewrite Es, perfect_inc in Hsz by lia. rewrite Hsz, Es, !perfect_leaf_count in Hlf by lia.
  rewrite Hsz, Es, !perfect_parent_count in Hpr by lia.
  assert (forall i, Diff.leaf d' i = Diff.leaf d i) as Hleaf.
  { intros i. destruct (decide (0 <= i < 2 ^ (h + 1))) as [Hr|Hr].
    - rewrite Hlf by done. destruct (Z.ltb_spec i (2 ^ h)); [done|]. symmetry. apply leaf_unlisted; [done|].
      rewrite (ti_leaf_count d h Hi). lia.
    - rewrite !leaf_unlisted; [done|done| |done|]; rewrite ?(ti_leaf_count d h Hi); [lia|].
      unfold Diff.leaf_count. rewrite Hsz, perfect_leaf_count; lia. }
  split; [|split; [done|]; split; [done|]; split].
  - split; [done|lia|done| |done..].
    apply (nodes_inv_transfer h _ (Diff.leaf d) (Diff.parent d)); [done|auto|].
    intros k j p Hk Ht Hp. pose proof (parent_at_range _ _ _ Hk Ht) as Hrange. rewrite Hpr in Hp by lia.
    destruct (Z.ltb_spec (parent_at k j) (2 ^ h - 1)); [|done]. split; [|done].
    by apply (in_tree_smaller h (h + 1)); [lia| | |].
  - intros p Hp. rewrite Hpr by lia. destruct (Z.ltb_spec p (2 ^ h - 1)); [done|lia].
  - intros p Hp. rewrite Hpr by lia. destruct (Z.ltb_spec p (2 ^ h - 1)); [lia|done].
Qed.

(** The leaf and its unmerged entries, once the tree is large enough. *)
Lemma mark_unmerged_spec d h l x :
  ts_inv d h -> 0 <= l < 2 ^ h -> Diff.leaf d l = None -> (forall i, 0 <= i < l -> listed d i) ->
  let d' := TSDiff.mark_unmerged l (ancestors h l) (Diff.replace_leaf d l (Some x)) in
  ts_inv d' h /\
  (forall i, Diff.leaf d' i = if decide (i = l) then Some x else Diff.leaf d i) /\
  (forall p, Diff.parent d' p =
     if bool_decide (p ∈ ancestors h l) then add_unmerged_leaf l <$> Diff.parent d p else Diff.parent d p).
Proof.
  intros Hi Hl Hblank Hp d'. pose proof Hi as [Hw Hh Es Hn Hc]. pose proof (ti_leaf_count d h Hi) as Ec.
  set (d1 := Diff.replace_leaf d l (Some x)) in *.
  assert (wf_diff d1) as Hw1 by (apply replace_leaf_sim; [done|lia]).
  destruct (path_mut_spec d1 h l (fun _ => fmap (add_unmerged_leaf l)) Hw1 Hh Es Hl) as (Hw' & Hs' & Ho' & Hd' & Hlf & Hpr).
  change (foldl _ _ _) with d' in *.
  assert (forall i, Diff.leaf d' i = if decide (i = l) then Some x else Diff.leaf d i) as Hleaf.
  { intros i. rewrite Hlf. apply leaf_replace_leaf. }
  split; [|done]. split; [done|done|by rewrite Hs'| | |].
  - apply (nodes_inv_add h (Diff.leaf d) (Diff.parent d) _ _ l); [done|done| | | |].
    + rewrite Hleaf. by rewrite decide_True.
    + intros i Hne. rewrite Hleaf. by case_decide.
    + intros k j Hk Ht Hne. rewrite Hpr, bool_decide_false; [done|]. by rewrite ancestors_coord by (lia || done).
    + intros k Hk Ht. rewrite Hpr, bool_decide_true; [done|]. by apply ancestors_coord; [lia|..].
  - apply (contiguous_insert d d' l (Some x)); try done. lia.
  - apply (parents_listed_path d h l (Some x) (fun _ => fmap (add_unmerged_leaf l))); done || apply Hi.
Qed.

Lemma grow_until_small d h l fuel :
  ts_inv d h -> l < 2 ^ h -> TSDiff.grow_until fuel l d = (Ok tt, d).
Proof.
  intros Hi Hl. pose proof (ti_leaf_count d h Hi) as Ec. unfold Diff.leaf_count in Ec.
  destruct fuel; cbn [TSDiff.grow_until]; rewrite Ec, Z.geb_leb; destruct (Z.leb_spec (2 ^ h) l); (done || lia).
Qed.

Lemma grow_until_full d h fuel :
  ts_inv d h -> TSDiff.grow_until (S fuel) (2 ^ h) d =
    match Diff.grow_tree d with
    | Ok d' => TSDiff.grow_until fuel (2 ^ h) d' | Err _ => (Err AddLeafTreeFull, d) | Panic => (Panic, d) end.
Proof.
  intros Hi. pose proof (ti_leaf_count d h Hi) as Ec. unfold Diff.leaf_count in Ec.
  cbn [TSDiff.grow_until]. rewrite Ec, Z.geb_leb. by rewrite Z.leb_refl.
Qed.

Lemma add_leaf_spec d h leaf_node :
  ts_inv d h ->
  exists l, 0 <= l <= 2 ^ h /\ Diff.leaf d l = None /\ (forall i, 0 <= i < l -> is_Some (Diff.leaf d i)) /\
  ((l = 2 ^ h /\ h = 29 /\ TSDiff.add_leaf leaf_node d = (Err AddLeafTreeFull, d)) \/
   exists d' h', TSDiff.add_leaf leaf_node d = (Ok l, d') /\ h' = (if l <? 2 ^ h then h else h + 1) /\
   ts_inv d' h' /\ l < 2 ^ h' /\
   (forall i, Diff.leaf d' i = if decide (i = l) then Some leaf_node else Diff.leaf d i) /\
   (forall p, 0 <= p < 2 ^ h - 1 -> Diff.parent d' p =
      if bool_decide (p ∈ ancestors h' l) then add_unmerged_leaf l <$> Diff.parent d p else Diff.parent d p) /\
   (forall p, 2 ^ h - 1 <= p < 2 ^ h' - 1 -> Diff.parent d' p = None)).
Proof.
  intros Hi. pose proof Hi as [Hw Hh Es _ Hc]. pose proof (pow2_pos h). pose proof (pow2_succ h).
  destruct (free_leaf_index_spec d Hw Hc) as (l & Ef & Hl & Hblank & Hfull & Hlisted).
  rewrite (ti_leaf_count d h Hi) in Hl. exists l. do 3 (split; [done|]).
  unfold TSDiff.add_leaf, mbind, stateful_bind, reading, modifying. rewrite Ef. cbn [returns].
  destruct (Z.ltb_spec l (2 ^ h)) as [Hlt|Hge].
  - right. rewrite (grow_until_small d h l) by done.
    rewrite (direct_path_ti (Diff.replace_leaf d l (Some leaf_node)) h l) by (done || lia). cbn [returns].
    destruct (mark_unmerged_spec d h l leaf_node Hi ltac:(lia) Hblank Hlisted) as (Hi' & Hlf & Hpr).
    eexists _, h. split; [done|]. do 4 (split; [done|]). split; [by intros|]. intros p Hp. lia.
  - assert (l = 2 ^ h) as -> by lia. rewrite (grow_until_full d h) by done.
    destruct (grow_spec d h Hi Hlisted) as [(-> & ->)|(Hh28 & d1 & -> & Hi1 & Hlist1 & Hlf1 & Hpr1 & Hnew)];
      [by left|]. right.
    rewrite (grow_until_small d1 (h + 1)) by (done || lia).
    rewrite (direct_path_ti (Diff.replace_leaf d1 _ _) (h + 1)) by (lia || apply (ti_size d1 _ Hi1)). cbn [returns].
    destruct (mark_unmerged_spec d1 (h + 1) (2 ^ h) leaf_node Hi1 ltac:(lia)) as (Hi' & Hlf & Hpr);
      [by rewrite Hlf1|done|].
    eexists _, (h + 1). split; [done|]. do 2 (split; [done|]). split; [lia|]. split; [|split].
    + intros i. by rewrite Hlf, Hlf1.
    + intros p Hp. by rewrite Hpr, Hpr1 by done.
    + intros p Hp. rewrite Hpr, Hnew by done. by case_bool_decide.
Qed.
End Operations.
