(* ===== verification/TreeKemFacts.v ===== *)
(** * TreeKEM: correctness

    The filtered path in coordinates, the application of an update path to the
    tree, and the agreement of sender and receivers on the secrets of a path. *)
From S2P Require Import Prelude TreeMath TreeMathFacts BinaryTree BinaryTreeFacts Crypto CryptoFacts.
From S2P Require Import TreeSync TreeKem TreeSyncFacts TreeSyncDiffFacts.

Section FilteredPath.
Context {OC : OpenMlsCrypto} {TC : TlsCodec} {LeafNode : Type} {LO : LeafNodeOps LeafNode}.
Implicit Types (d : TreeSyncDiff LeafNode).

(** The resolution of the copath node of [l] at level [k]. *)
Definition copath_res d excl (l k : Z) : list (TreeNodeIndex * NodeReference LeafNode) :=
  res (Diff.leaf d) (Diff.parent d) excl (Z.to_nat k) (flip (l / 2 ^ k)).

(** The levels of the copath of [l] whose resolution is not empty. *)
Definition filtered_levels d (h l : Z) : list Z :=
  filter (fun k => copath_res d ∅ l k <> []) (seqZ 0 h).

Definition path_node (l k : Z) : ParentNodeIndex.t := parent_at (k + 1) (l / 2 ^ (k + 1)).

Lemma filtered_levels_elem d h l k :
  k ∈ filtered_levels d h l <-> 0 <= k < h /\ copath_res d ∅ l k <> [].
Proof. unfold filtered_levels. rewrite list_elem_of_filter, elem_of_seqZ, Z.add_0_l. tauto. Qed.

Lemma ancestors_path_node h l : ancestors h l = path_node l <$> seqZ 0 h.
Proof.
  unfold ancestors. rewrite <- (Z.add_0_r 1) at 1. rewrite <- (fmap_add_seqZ 1 0 h), <- list_fmap_compose.
  apply list_fmap_ext. intros i k _. unfold path_node. cbn. by rewrite (Z.add_comm 1 k).
Qed.

Lemma copath_node_in_tree h l k : 0 <= k < h -> 0 <= l < 2 ^ h -> in_tree h k (flip (l / 2 ^ k)).
Proof.
  intros Hk Hl. pose proof (in_tree_anc h (k + 1) l ltac:(lia) Hl) as Ht.
  apply in_tree_child with (b := flip (l / 2 ^ k) mod 2) in Ht;
    [|lia|pose proof (Z.mod_pos_bound (flip (l / 2 ^ k)) 2); lia].
  replace (k + 1 - 1) with k in Ht by lia.
  rewrite <- (anc_step l k), <- flip_half, <- Z.div_mod in Ht by lia. done.
Qed.

Lemma copath_resolution_at d excl h l k :
  h <= 30 -> 0 <= k < h -> 0 <= l < 2 ^ h ->
  TSDiff.resolution d (node_at k (flip (l / 2 ^ k))) excl = Some (copath_res d excl l k).
Proof.
  intros Hh Hk Hl. apply resolution_res. apply (in_tree_coord h); [done|]. by apply copath_node_in_tree.
Qed.

Lemma filter_nonempty_fmap {A} (f : Z -> A) (g : Z -> list (TreeNodeIndex * NodeReference LeafNode)) ks :
  TSDiff.filter_nonempty (f <$> ks) (g <$> ks) = f <$> filter (fun k => g k <> []) ks.
Proof.
  unfold TSDiff.filter_nonempty. induction ks as [|k ks IH]; [done|]. cbn -[filter].
  rewrite !filter_cons. cbn [snd]. destruct (decide (g k <> [])) as [H|H]; cbn -[filter]; by rewrite IH.
Qed.

Lemma copath_resolutions_levels d h l :
  size d = perfect h -> 1 <= h <= 29 -> 0 <= l < 2 ^ h ->
  TSDiff.copath_resolutions d l = Some (copath_res d ∅ l <$> seqZ 0 h).
Proof.
  intros Es Hh Hl. unfold TSDiff.copath_resolutions, TSDiff.leaf_count, Diff.leaf_count, Diff.copath.
  rewrite Es, perfect_leaf_count, copath_coord by lia. pose proof (pow2_le 1 h).
  destruct (Z.eqb_spec (2 ^ h) MIN_TREE_SIZE) as [E|_]; [unfold MIN_TREE_SIZE in E; lia|].
  cbn [mbind option_bind]. apply mapM_fmap_Some. intros k Hk%elem_of_seqZ.
  apply (copath_resolution_at d ∅ h); lia.
Qed.

Lemma filtered_direct_path_levels d h l :
  size d = perfect h -> 0 <= h <= 29 -> 0 <= l < 2 ^ h ->
  TSDiff.filtered_direct_path d l = Some (path_node l <$> filtered_levels d h l).
Proof.
  intros Es Hh Hl. unfold TSDiff.filtered_direct_path. rewrite (direct_path_ti d h l) by done. cbn [mbind option_bind].
  destruct (Z.eq_dec h 0) as [->|].
  - unfold TSDiff.copath_resolutions, TSDiff.leaf_count, Diff.leaf_count. rewrite Es.
    change (TreeSize.leaf_count (perfect 0) =? MIN_TREE_SIZE) with true. reflexivity.
  - rewrite (copath_resolutions_levels d h l) by (done || lia). cbn [mbind option_bind].
    by rewrite ancestors_path_node, filter_nonempty_fmap.
Qed.

Lemma filtered_copath_levels d h l :
  size d = perfect h -> 1 <= h <= 29 -> 0 <= l < 2 ^ h ->
  TSDiff.filtered_copath d l = Some ((fun k => node_at k (flip (l / 2 ^ k))) <$> filtered_levels d h l).
Proof.
  intros Es Hh Hl. unfold TSDiff.filtered_copath, Diff.copath. rewrite Es, copath_coord by lia. cbn [mbind option_bind].
  rewrite (copath_resolutions_levels d h l) by (done || lia). cbn [mbind option_bind].
  by rewrite filter_nonempty_fmap.
Qed.

Lemma filtered_copath_resolutions_levels d h l excl :
  size d = perfect h -> 0 <= h <= 29 -> 0 <= l < 2 ^ h ->
  TSDiff.filtered_copath_resolutions d l excl = Some (copath_res d excl l <$> filtered_levels d h l).
Proof.
  intros Es Hh Hl. unfold TSDiff.filtered_copath_resolutions, TSDiff.leaf_count, Diff.leaf_count, Diff.copath.
  rewrite Es, perfect_leaf_count by lia. destruct (Z.eqb_spec (2 ^ h) 1) as [E|E].
  - assert (h = 0) as ->. { destruct (Z.eq_dec h 0); [done|]. pose proof (pow2_le 1 h). lia. } reflexivity.
  - assert (h <> 0) by (intros ->; done). rewrite copath_coord by lia. cbn [mbind option_bind].
    erewrite (mapM_fmap_Some _ _ (copath_res d ∅ l)).
    2:{ intros k Hk%elem_of_seqZ. apply (copath_resolution_at d ∅ h); lia. }
    cbn [mbind option_bind]. rewrite filter_fmap, <- list_fmap_compose. f_equal. apply list_fmap_ext.
    intros i k _. cbn. unfold copath_res. by rewrite (res_filter _ _ excl).
Qed.
End FilteredPath.

(** ** Applying an update path *)
Section ApplyPath.
Context {OC : OpenMlsCrypto} {TC : TlsCodec} {LeafNode : Type} {LO : LeafNodeOps LeafNode}.
Implicit Types (d : TreeSyncDiff LeafNode).

Lemma chain_parent_hashes_cons d cs i n path c copath prev :
  TSDiff.chain_parent_hashes d cs ((i, n) :: path) (c :: copath) prev =
  let n' := set_parent_hash n prev in
  tree_hash ← map_err UpdatePathLibraryError (TSDiff.compute_tree_hash d cs c ∅);
  hash ← map_err UpdatePathLibraryError (compute_parent_hash n' cs tree_hash);
  '(nodes, last) ← TSDiff.chain_parent_hashes d cs path copath hash;
  Ok ((i, n') :: nodes, last).
Proof. reflexivity. Qed.

(** Setting parent hashes touches nothing else of the nodes. *)
Definition same_nodes (nodes path : list (ParentNodeIndex.t * ParentNode)) : Prop :=
  nodes.*1 = path.*1 /\ unmerged_leaves <$> nodes.*2 = unmerged_leaves <$> path.*2 /\
  encryption_key <$> nodes.*2 = encryption_key <$> path.*2.

Lemma chain_parent_hashes_nodes d cs path copath prev nodes last :
  TSDiff.chain_parent_hashes d cs path copath prev = Ok (nodes, last) -> same_nodes nodes path.
Proof.
  revert copath prev nodes last. induction path as [|[i n] path IH]; intros copath prev nodes last E.
  - cbn in E. by simplify_eq.
  - destruct copath as [|c copath]; [cbn in E; by simplify_eq|]. rewrite chain_parent_hashes_cons in E.
    cbv zeta in E. inv_ok. destruct a1 as [nodes' last']. inv_ok. apply IH in Ha1 as (E1 & E2 & E3).
    unfold same_nodes. rewrite !fmap_cons, E1, E2, E3. done.
Qed.

Lemma set_parent_hashes_nodes d cs path l nodes hash :
  TSDiff.set_parent_hashes d cs path l = Ok (nodes, hash) -> same_nodes nodes path.
Proof.
  unfold TSDiff.set_parent_hashes. destruct path as [|x path]; intros E; [by simplify_eq|].
  inv_ok. case_match; [done|]. inv_ok. destruct a0 as [nodes' last']. inv_ok.
  apply chain_parent_hashes_nodes in Ha0 as (E1 & E2 & E3). unfold same_nodes.
  by rewrite !fmap_reverse, E1, E2, E3, !fmap_reverse, !reverse_involutive.
Qed.

Lemma nodes_inv_full h (lf lf' : Z -> option LeafNode) pr :
  nodes_inv h lf pr -> (forall i, is_Some (lf i) -> is_Some (lf' i)) -> nodes_inv h lf' pr.
Proof.
  intros Hi Hs k j p Hk Ht Hp. destruct (Hi k j p Hk Ht Hp) as [H1 H2 H3 H4]. split; [done| |done|].
  - intros i Hin. destruct (H2 i Hin). auto.
  - intros b Hb. destruct (H4 b Hb) as (i & ? & ?). eauto.
Qed.

Lemma replace_full_leaf d h l x :
  ts_inv d h -> is_Some (Diff.leaf d l) -> ts_inv (Diff.replace_leaf d l (Some x)) h.
Proof.
  intros Hi Hs. destruct (full_in_range d h l Hi Hs) as [Hl Hlist]. pose proof Hi as [Hw Hh Es Hn Hc Hpl].
  pose proof (ti_leaf_count d h Hi) as Ec. split; [|done|done| | |].
  - apply replace_leaf_sim; [done|lia].
  - apply (nodes_inv_full h (Diff.leaf d)); [done|]. intros i Hsi. rewrite leaf_replace_leaf. case_decide; eauto.
  - apply (contiguous_insert d _ l (Some x)); try done; [lia|]. by apply (listed_prefix d h).
  - intros i Hi0. cbn. rewrite lookup_insert_is_Some'. intros [->|Hls]; [|by apply Hpl].
    destruct Hlist as [Hlist|Hlist]; [left; pose proof (wf_counts _ (wf_orig d Hw)); lia|by apply Hpl].
Qed.

Lemma path_node_child l k b : 0 <= k -> 0 <= b <= 1 ->
  2 * (l / 2 ^ (k + 1)) + b = l / 2 ^ k \/ 2 * (l / 2 ^ (k + 1)) + b = flip (l / 2 ^ k).
Proof.
  intros Hk Hb. rewrite <- (anc_step l k) by done. unfold flip.
  pose proof (Z.div_mod (l / 2 ^ k) 2). pose proof (Z.mod_pos_bound (l / 2 ^ k) 2).
  destruct (Z.eqb_spec (l / 2 ^ k mod 2) 0); lia.
Qed.

Lemma path_node_inj h l k k' :
  h <= 30 -> 0 <= l < 2 ^ h -> 0 <= k < h -> 0 <= k' < h -> path_node l k = path_node l k' -> k = k'.
Proof.
  intros Hh Hl Hk Hk' E. apply parent_at_inj in E; [lia|lia|lia| |]; apply (coord_anc h); lia.
Qed.

Lemma filtered_path_NoDup d h l :
  h <= 30 -> 0 <= l < 2 ^ h -> NoDup (path_node l <$> filtered_levels d h l).
Proof.
  intros Hh Hl. apply NoDup_fmap_2_strong; [|apply NoDup_filter, NoDup_seqZ].
  intros k k' [Hk _]%filtered_levels_elem [Hk' _]%filtered_levels_elem. by apply (path_node_inj h).
Qed.

Lemma list_to_map_Some {A} (nodes : list (Z * A)) p :
  (list_to_map (prod_map id Some <$> nodes) : gmap Z (option A)) !! p = Some <$> (list_to_map nodes : gmap Z A) !! p.
Proof.
  induction nodes as [|[i x] nodes IH]; [done|]. rewrite fmap_cons. cbn. rewrite !lookup_insert.
  by case_decide.
Qed.

(** Writing the nodes of a filtered path over the blanked direct path. *)
Lemma write_path_spec d h l nodes :
  ts_inv d h -> 0 <= l < 2 ^ h -> nodes.*1 = path_node l <$> filtered_levels d h l ->
  parents_set d (TSDiff.set_nodes nodes (TSDiff.blank_nodes (ancestors h l) d))
    (fun p => if bool_decide (p ∈ ancestors h l) then (list_to_map nodes : gmap Z ParentNode) !! p
              else Diff.parent d p).
Proof.
  intros [Hw Hh Es Hn Hc] Hl E1.
  destruct (path_mut_spec d h l (fun _ _ => None) Hw Hh Es Hl) as (Hw1 & Hs1 & Ho1 & Hd1 & Hlf1 & Hpr1).
  set (d1 := TSDiff.blank_nodes (ancestors h l) d) in *. change (foldl _ _ _) with d1 in *.
  assert (forall p, p ∈ nodes.*1 -> p ∈ ancestors h l) as Hsub.
  { intros p. rewrite E1, ancestors_path_node. intros (k & -> & [Hk _]%filtered_levels_elem)%list_elem_of_fmap.
    apply list_elem_of_fmap. exists k. split; [done|]. apply elem_of_seqZ. lia. }
  assert ((prod_map id Some <$> nodes).*1 = nodes.*1) as Efst.
  { rewrite <- list_fmap_compose. by apply list_fmap_ext. }
  destruct (parent_write_fold (prod_map id Some <$> nodes) d1) as (Hw2 & Hs2 & Ho2 & Hd2 & Hlf2 & Hpr2).
  { done. }
  { rewrite Efst, E1. by apply filtered_path_NoDup; [lia|]. }
  { intros p. rewrite Efst. intros Hp%Hsub.
    apply ancestors_elem in Hp; [|lia|done]. unfold Diff.parent_count. rewrite Hs1, Es, perfect_parent_count; lia. }
  assert (foldl (fun d '(i, x) => Diff.parent_mut d i (fun _ => x)) d1 (prod_map id Some <$> nodes)
    = TSDiff.set_nodes nodes d1) as Ed'.
  { unfold TSDiff.set_nodes. rewrite foldl_fmap. apply foldl_ext_eq. by intros a [i x]. }
  rewrite Ed' in *. split; [done|]. do 3 (split; [congruence|]). split; [intros i; by rewrite Hlf2|].
  intros p. rewrite Hpr2, list_to_map_Some, Hpr1. case_bool_decide as Hp; [by destruct (_ !! p)|].
  by rewrite not_elem_of_list_to_map_1 by auto.
Qed.

Lemma set_nodes_keys (nodes : list (ParentNodeIndex.t * ParentNode)) d i :
  is_Some (parent_diff d !! i) -> is_Some (parent_diff (TSDiff.set_nodes nodes d) !! i).
Proof.
  unfold TSDiff.set_nodes. revert d. induction nodes as [|[j n] nodes IH]; intros d Hs; cbn; [done|].
  apply IH. rewrite parent_mut_replace. cbn. apply lookup_insert_is_Some'. by right.
Qed.

Lemma set_path_parents d h l nodes f :
  parents_listed d -> parents_set d (TSDiff.set_nodes nodes (TSDiff.blank_nodes (ancestors h l) d)) f ->
  parents_listed (TSDiff.set_nodes nodes (TSDiff.blank_nodes (ancestors h l) d)).
Proof.
  intros Hp (_ & _ & Ho & Hd & _) i Hi. rewrite Ho, Hd. intros Hs. destruct (Hp i Hi Hs) as [|Hk]; [by left|right].
  apply set_nodes_keys. apply (parent_mut_keys (fun _ _ => None)). by right.
Qed.

Lemma set_path_spec d h l nodes :
  ts_inv d h -> is_Some (Diff.leaf d l) ->
  nodes.*1 = path_node l <$> filtered_levels d h l -> Forall (fun n => unmerged_leaves n = []) nodes.*2 ->
  ts_inv (TSDiff.set_nodes nodes (TSDiff.blank_nodes (ancestors h l) d)) h.
Proof.
  intros Hi Hs E1 E2. destruct (full_in_range d h l Hi Hs) as [Hl _]. pose proof Hi as [Hw Hh Es Hn Hc Hpl].
  pose proof (write_path_spec d h l nodes Hi Hl E1) as Hset. set (d' := TSDiff.set_nodes _ _) in *.
  pose proof (contiguous_parents d d' _ Hc Hset) as Hc'. pose proof (set_path_parents d h l nodes _ Hpl Hset) as Hpl'.
  destruct Hset as (Hw' & Hs' & _ & _ & Hleaf & Hpr).
  split; [done|done|by rewrite Hs'| |done..].
  apply (nodes_inv_path h (Diff.leaf d) (Diff.parent d) _ _ l); [done|intros; by rewrite Hleaf| |].
  - intros k j Hk Ht Hne. rewrite Hpr, bool_decide_false; [done|]. by rewrite ancestors_coord by (lia || done).
  - intros k p Hk Ht. rewrite Hpr, bool_decide_true by (by apply ancestors_coord; [lia|..]).
    intros Hp%elem_of_list_to_map_2. split.
    + rewrite Forall_fmap, Forall_forall in E2. by apply (E2 _ Hp).
    + intros b Hb. apply (list_elem_of_fmap_2 fst) in Hp. rewrite E1 in Hp.
      apply list_elem_of_fmap in Hp as (k' & Ek & [Hk' Hne]%filtered_levels_elem). cbn in Ek.
      assert (k = k' + 1) as ->.
      { apply (parent_at_inj k (l / 2 ^ k)) in Ek; [lia|lia|lia| |]; apply (coord_anc h); destruct Ht; lia. }
      replace (k' + 1 - 1) with k' by lia.
      destruct (path_node_child l k' b ltac:(lia) Hb) as [-> | ->]; [exists l; by rewrite Hleaf|].
      apply (res_populated h) in Hne as (i & Ei & Hsi); [|done|rewrite Z2Nat.id by lia; apply copath_node_in_tree; lia].
      rewrite Z2Nat.id in Ei by lia. exists i. by rewrite Hleaf.
Qed.

(** A fresh node: the key it has, and nothing unmerged. *)
Definition fresh_node (pr : Z -> option ParentNode) (p : Z) (pk : bytes) : Prop :=
  exists node, pr p = Some node /\ encryption_key node = pk /\ unmerged_leaves node = [].

Lemma written_nodes (nodes : list (ParentNodeIndex.t * ParentNode)) (pr : Z -> option ParentNode) :
  NoDup nodes.*1 -> Forall (fun n => unmerged_leaves n = []) nodes.*2 ->
  (forall p node, (list_to_map nodes : gmap Z ParentNode) !! p = Some node -> pr p = Some node) ->
  Forall2 (fresh_node pr) nodes.*1 (encryption_key <$> nodes.*2).
Proof.
  intros Hn Hu Hp. assert (forall p node, (p, node) ∈ nodes -> pr p = Some node) as Hin.
  { intros p node H. by apply Hp, elem_of_list_to_map_1. }
  clear Hn Hp. induction nodes as [|[p node] nodes IH]; [constructor|]. rewrite !fmap_cons in *.
  apply Forall_cons in Hu as [Hu1 Hu]. constructor.
  - exists node. split; [|done]. apply Hin. constructor.
  - apply IH; [done|]. intros q n Hq. apply Hin. by constructor.
Qed.

(** [process_update_path] on the nodes of a fresh filtered path. *)
Lemma process_update_path_spec d h l cs path hash d' :
  ts_inv d h -> is_Some (Diff.leaf d l) ->
  path.*1 = path_node l <$> filtered_levels d h l -> Forall (fun n => unmerged_leaves n = []) path.*2 ->
  TSDiff.process_update_path cs l path d = (Ok hash, d') ->
  ts_inv d' h /\ (forall i, Diff.leaf d' i = Diff.leaf d i) /\
  (forall p, p ∉ ancestors h l -> Diff.parent d' p = Diff.parent d p) /\
  (forall p, p ∈ ancestors h l -> p ∉ path.*1 -> Diff.parent d' p = None) /\
  Forall2 (fresh_node (Diff.parent d')) path.*1 (encryption_key <$> path.*2).
Proof.
  intros Hi Hs E1 E2 E. destruct (full_in_range d h l Hi Hs) as [Hl _].
  apply stateful_bind_Ok in E as ([nodes hash'] & d0 & E0 & E). unfold reading in E0. injection E0 as E0 <-.
  apply stateful_bind_Ok in E as (anc & d0 & Ea & E). unfold reading in Ea.
  rewrite (direct_path_ti d h l) in Ea by (done || apply Hi). injection Ea as <- <-.
  cbn in E. injection E as _ <-. apply set_parent_hashes_nodes in E0 as (F1 & F2 & F3).
  assert (Forall (fun n => unmerged_leaves n = []) nodes.*2) as HF.
  { assert (Forall (fun u => u = []) (unmerged_leaves <$> nodes.*2)) as HF by (rewrite F2; by apply Forall_fmap).
    by apply Forall_fmap in HF. }
  rewrite <- F1 in E1 |- *. split; [by apply set_path_spec|].
  destruct (write_path_spec d h l nodes Hi Hl E1) as (_ & _ & _ & _ & Hlf & Hpr).
  split; [done|]. split; [intros p Hp; by rewrite Hpr, bool_decide_false|]. split.
  - intros p Hp Hnp. rewrite Hpr, bool_decide_true by done. by apply not_elem_of_list_to_map_1.
  - rewrite <- F3.
    apply written_nodes; [rewrite E1; apply filtered_path_NoDup; [apply Z.le_trans with 29; [apply Hi|lia]|done]|done|].
    intros p node Hp. rewrite Hpr, bool_decide_true; [done|].
    apply elem_of_list_to_map_2, (list_elem_of_fmap_2 fst) in Hp. rewrite E1 in Hp.
    apply list_elem_of_fmap in Hp as (k & Ek & [Hk _]%filtered_levels_elem). cbn in Ek. subst p. rewrite ancestors_path_node.
    apply list_elem_of_fmap. exists k. split; [done|]. apply elem_of_seqZ. lia.
Qed.
End ApplyPath.

(** ** Sequences of operations *)
Section Steps.
Context {OC : OpenMlsCrypto} {TC : TlsCodec} {LeafNode : Type} {LO : LeafNodeOps LeafNode}.
Implicit Types (d : TreeSyncDiff LeafNode).

(** What happens to a ratchet tree: the operations of a diff, each in the
    situation its callers establish, and merging the diff into a new tree. *)
Inductive ts_step : TreeSyncDiff LeafNode -> TreeSyncDiff LeafNode -> Prop :=
  | ts_add d leaf_node l d' : TSDiff.add_leaf leaf_node d = (Ok l, d') -> ts_step d d'
  | ts_update d leaf_node l d' :
      is_Some (Diff.leaf d l) -> TSDiff.update_leaf d leaf_node l = Some d' -> ts_step d d'
  | ts_blank d l d' : is_Some (Diff.leaf d l) -> TSDiff.blank_leaf d l = Some d' -> ts_step d d'
  | ts_trim d d' : TSDiff.trim_tree d = Some d' -> ts_step d d'
  | ts_received d cs sender update_path d' :
      Kem.apply_received_update_path cs sender update_path d = (Ok tt, d') -> ts_step d d'
  | ts_own d random cs commit_type l placeholder new_leaf secret r d' :
      match commit_type with
      | Member => is_Some (Diff.leaf d l)
      | External => TSDiff.free_leaf_index d = Some l
      end ->
      Kem.apply_own_update_path random cs commit_type l placeholder new_leaf secret d = (Ok r, d') -> ts_step d d'
  | ts_merge d : ts_step d (Tree.empty_diff (Tree.merge_diff (original_tree d) (Diff.into_staged d))).

Lemma empty_diff_contiguous (t : ABinaryTree (option LeafNode) (option ParentNode)) :
  wf_tree t -> contiguous (Tree.empty_diff t).
Proof.
  intros Ht. destruct (wf_tree_size t Ht) as (h & Hh & Es & Hle). unfold contiguous, listed, Diff.leaf_count. cbn.
  rewrite Es, perfect_leaf_count by lia. exists (Z.of_nat (length (leaf_nodes t))). split.
  - pose proof (wf_counts t Ht). unfold perfect in Hle. rewrite pow2_succ in Hle by lia. lia.
  - intros i Hi. rewrite lookup_empty. split; [|tauto]. by intros [?|[? ?]].
Qed.

Lemma merge_inv d h :
  ts_inv d h -> ts_inv (Tree.empty_diff (Tree.merge_diff (original_tree d) (Diff.into_staged d))) h.
Proof.
  intros [Hw Hh Es Hn Hc]. destruct (merge_diff_view d Hw) as [Hwt Hv].
  set (t := Tree.merge_diff _ _) in *. pose proof (empty_diff_view t Hwt) as Hv'. rewrite Hv in Hv'.
  destruct Hv' as (Esz & Hlf & Hpr). cbn in Esz, Hlf, Hpr.
  rewrite Esz, Es, perfect_leaf_count in Hlf by lia. rewrite Esz, Es, perfect_parent_count in Hpr by lia.
  split; [by apply empty_diff_wf|done|cbn; by rewrite Esz| |by apply empty_diff_contiguous|by intros i Hi0 []].
  apply (nodes_inv_transfer h _ (Diff.leaf d) (Diff.parent d)); [done|auto|].
  intros k j p Hk Ht Hp. split; [done|]. rewrite <- Hpr; [done|]. by apply parent_at_range.
Qed.

(** Both the sender and the receivers end with a full leaf below a fresh path. *)
Lemma path_then_leaf_inv d h l cs path hash d' x :
  ts_inv d h -> is_Some (Diff.leaf d l) -> path.*1 = path_node l <$> filtered_levels d h l ->
  Forall (fun n => unmerged_leaves n = []) path.*2 ->
  TSDiff.process_update_path cs l path d = (Ok hash, d') -> ts_inv (Diff.replace_leaf d' l (Some x)) h.
Proof.
  intros Hi Hs E1 E2 E. destruct (process_update_path_spec d h l cs path hash d' Hi Hs E1 E2 E) as (Hi' & Hlf & _).
  apply replace_full_leaf; [done|]. by rewrite Hlf.
Qed.

Lemma add_leaf_Ok d h leaf_node l d' :
  ts_inv d h -> TSDiff.add_leaf leaf_node d = (Ok l, d') ->
  exists h', ts_inv d' h' /\ Diff.leaf d' l = Some leaf_node /\ TSDiff.free_leaf_index d = Some l.
Proof.
  intros Hi E. destruct (add_leaf_spec d h leaf_node Hi) as (i & Hr & Hb & Hf & [(_ & _ & E')|(d1 & h' & E' & _ & Hi' & _ & Hlf & _)]);
    rewrite E in E'; [done|]. injection E' as <- <-. exists h'. split; [done|].
  split; [rewrite Hlf; by rewrite decide_True|].
  apply stateful_bind_Ok in E as (i & d0 & E & E'). unfold reading in E. injection E as E <-.
  destruct (TSDiff.free_leaf_index d) as [i'|]; [|done]. injection E as ->. f_equal.
  repeat (apply stateful_bind_Ok in E' as (? & ? & _ & E')). cbn in E'. by injection E'.
Qed.

(** *** Deriving a path *)
Lemma derive_chain_length cs n s secrets last :
  PathSecret.derive_chain cs n s = Ok (secrets, last) -> length secrets = n.
Proof.
  revert s secrets. induction n as [|n IH]; intros s secrets E; cbn [PathSecret.derive_chain] in E; inv_ok; [done|].
  destruct a0 as [secrets' last']. inv_ok. cbn. f_equal. by apply (IH a).
Qed.

Lemma derive_path_Ok cs s indices path plain keypairs commit_secret :
  PathSecret.derive_path cs s indices = Ok (path, plain, keypairs, commit_secret) ->
  exists secrets, PathSecret.derive_chain cs (length indices) s = Ok (secrets, commit_secret) /\
  length secrets = length indices /\
  Forall2 (fun s kp => PathSecret.derive_key_pair s cs = Ok kp) secrets keypairs /\
  path = zip indices (ParentNode_from <$> keypairs.*1) /\
  plain = zip_with mkPlainUpdatePathNode keypairs.*1 secrets.
Proof.
  unfold PathSecret.derive_path. intros E. inv_ok. destruct a as [secrets last]. inv_ok.
  unfold PathSecret.unzip_nodes in E. injection E as <- <- <- <-. exists secrets. split; [done|]. pose proof (derive_chain_length _ _ _ _ _ Ha) as Hlen. split; [done|].
  clear Ha. apply try_map_Forall2 in Ha0. revert indices a Hlen Ha0.
  induction secrets as [|s' secrets IH]; intros [|i indices] a Hlen Ha0; try done.
  - apply Forall2_nil_inv_l in Ha0 as ->. split; [constructor|done].
  - cbn in Ha0. apply Forall2_cons_inv_l in Ha0 as (x & xs & Hx & Hxs & ->).
    destruct (IH indices xs) as (H1 & H2 & H3); [by injection Hlen|done|]. cbn in Hx. inv_ok.
    split; [by constructor|]. cbn in H2, H3 |- *. rewrite H2, H3. done.
Qed.

Lemma fresh_path_unmerged (indices : list Z) (keys : list bytes) :
  Forall (fun n => unmerged_leaves n = []) (zip indices (ParentNode_from <$> keys)).*2.
Proof.
  apply Forall_forall. intros n (x & -> & Hx)%list_elem_of_fmap. destruct x as [i n].
  apply elem_of_zip_r in Hx. apply list_elem_of_fmap in Hx as (pk & -> & _). done.
Qed.

(** The nodes that a received path stands for. *)
Definition received_path d (h sender : Z) (update_path : UpdatePath LeafNode) : list (ParentNodeIndex.t * ParentNode) :=
  zip (path_node sender <$> filtered_levels d h sender) (ParentNode_from <$> (public_key <$> update_nodes update_path)).

(** The parts of a successful [apply_received_update_path]. *)
Lemma received_path_Ok d h cs sender update_path d' :
  ts_inv d h -> Kem.apply_received_update_path cs sender update_path d = (Ok tt, d') ->
  exists d1 h1 hash d2,
    ts_inv d1 h1 /\ is_Some (Diff.leaf d1 sender) /\
    (d1 = d \/ TSDiff.add_leaf (update_leaf_node update_path) d = (Ok sender, d1)) /\
    (received_path d1 h1 sender update_path).*1 = path_node sender <$> filtered_levels d1 h1 sender /\
    TSDiff.process_update_path cs sender (received_path d1 h1 sender update_path) d1 = (Ok hash, d2) /\
    leaf_parent_hash (update_leaf_node update_path) = Some hash /\
    d' = Diff.replace_leaf d2 sender (Some (update_leaf_node update_path)).
Proof.
  intros Hi E. unfold Kem.apply_received_update_path in E. cbv zeta in E.
  apply stateful_bind_Ok in E as (is_new & d0 & E0 & E). unfold reading in E0. injection E0 as E0 <-.
  apply stateful_bind_Ok in E as (u & d1 & E1 & E).
  assert (exists h1, ts_inv d1 h1 /\ is_Some (Diff.leaf d1 sender) /\
    (d1 = d \/ TSDiff.add_leaf (update_leaf_node update_path) d = (Ok sender, d1))) as (h1 & Hi1 & Hs1 & Hd1).
  { destruct is_new.
    - apply stateful_bind_Ok in E1 as (i & d2 & Ea & E1). unfold Kem.with_err in Ea.
      destruct (TSDiff.add_leaf _ d) as [[i'| |] d3] eqn:Eadd; try done. cbn in Ea. injection Ea as <- <-.
      unfold lifting in E1. destruct (Z.eqb_spec sender i') as [->|]; [|done]. injection E1 as _ <-.
      destruct (add_leaf_Ok d h _ _ _ Hi Eadd) as (h1 & Hi1 & Hl & _). exists h1. rewrite Hl. eauto.
    - injection E1 as _ <-. exists h. split; [done|]. split; [|by left].
      apply orb_false_iff in E0 as [E0 _]. apply bool_decide_eq_false in E0. by apply not_eq_None_Some. }
  destruct (full_in_range d1 h1 sender Hi1 Hs1) as [Hr _].
  apply stateful_bind_Ok in E as (fdp & d2 & E2 & E). unfold reading in E2.
  rewrite (filtered_direct_path_levels d1 h1 sender) in E2 by (done || apply Hi1). injection E2 as <- <-.
  apply stateful_bind_Ok in E as (u2 & d2 & E2 & E). unfold lifting in E2.
  destruct (Nat.eqb_spec (length (path_node sender <$> filtered_levels d1 h1 sender)) (length (update_nodes update_path))) as [Hlen|]; [|done].
  injection E2 as _ <-.
  apply stateful_bind_Ok in E as (hash & d2 & E2 & E).
  apply stateful_bind_Ok in E as (lph & d3 & E3 & E). unfold lifting in E3. injection E3 as E3 <-. apply ok_or_Ok in E3.
  apply stateful_bind_Ok in E as (u3 & d3 & E4 & E). unfold lifting in E4. injection E4 as E4 <-.
  case_bool_decide as Hph; [subst lph|done]. injection E as <-. rewrite (list_fmap_compose public_key ParentNode_from) in E2.
  exists d1, h1, hash, d2. unfold received_path. do 3 (split; [done|]). split; [|done].
  rewrite fst_zip; [done|]. by rewrite !length_fmap, <- Hlen, length_fmap.
Qed.

Lemma received_inv d h cs sender update_path d' :
  ts_inv d h -> Kem.apply_received_update_path cs sender update_path d = (Ok tt, d') -> exists h', ts_inv d' h'.
Proof.
  intros Hi E. destruct (received_path_Ok d h cs sender update_path d' Hi E)
    as (d1 & h1 & hash & d2 & Hi1 & Hs1 & _ & Hp & Ep & _ & ->).
  exists h1. by eapply path_then_leaf_inv; [..|apply fresh_path_unmerged|].
Qed.

(** The parts of a successful [apply_own_update_path]. *)
Lemma own_path_Ok d h random cs commit_type l placeholder new_leaf override plain keypairs commit_secret d' :
  ts_inv d h ->
  match commit_type with
  | Member => is_Some (Diff.leaf d l)
  | External => TSDiff.free_leaf_index d = Some l
  end ->
  Kem.apply_own_update_path random cs commit_type l placeholder new_leaf override d
    = (Ok (plain, keypairs, commit_secret), d') ->
  exists d1 h1 path parent_keypairs hash d2 leaf_node keypair,
    ts_inv d1 h1 /\ is_Some (Diff.leaf d1 l) /\
    (commit_type = Member -> d1 = d) /\
    Kem.derive_path d1 random cs l override = Ok (path, plain, parent_keypairs, commit_secret) /\
    TSDiff.process_update_path cs l path d1 = (Ok hash, d2) /\ new_leaf hash = Ok (leaf_node, keypair) /\
    keypairs = keypair :: parent_keypairs /\ d' = Diff.replace_leaf d2 l (Some leaf_node).
Proof.
  intros Hi Hc E. unfold Kem.apply_own_update_path in E.
  apply stateful_bind_Ok in E as (u & d1 & E1 & E).
  assert (exists h1, ts_inv d1 h1 /\ is_Some (Diff.leaf d1 l) /\ (commit_type = Member -> d1 = d)) as (h1 & Hi1 & Hs1 & Hm).
  { destruct commit_type.
    - injection E1 as _ <-. eauto.
    - unfold Kem.with_err in E1. destruct ((_ ← TSDiff.add_leaf placeholder; mret tt) d) as [[u'| |] d3] eqn:Ea; try done.
      cbn in E1. injection E1 as _ <-. apply stateful_bind_Ok in Ea as (i & d4 & Ea & E1). injection E1 as _ <-.
      destruct (add_leaf_Ok d h _ _ _ Hi Ea) as (h1 & Hi1 & Hl & Hf). rewrite Hc in Hf. injection Hf as <-.
      exists h1. by rewrite Hl. }
  apply stateful_bind_Ok in E as ([[[path plain'] pkp] cs'] & d2 & E2 & E). unfold reading in E2. injection E2 as E2 <-.
  destruct (Kem.derive_path d1 random cs l override) as [x| |] eqn:Ed; [injection E2 as ->|done..].
  apply stateful_bind_Ok in E as (hash & d2 & E3 & E). unfold Kem.with_err in E3.
  destruct (TSDiff.process_update_path cs l path d1) as [[hash'| |] d3] eqn:Ep; try done.
  cbn in E3. injection E3 as -> ->.
  apply stateful_bind_Ok in E as ([leaf_node keypair] & d3 & E3 & E). unfold lifting in E3. injection E3 as E3 <-.
  destruct (new_leaf hash) as [y| |] eqn:En; [injection E3 as ->|done..].
  cbn in E. injection E as <- <- <- <-.
  exists d1, h1, path, pkp, hash, d2, leaf_node, keypair. done.
Qed.

Lemma own_inv d h random cs commit_type l placeholder new_leaf override r d' :
  ts_inv d h ->
  match commit_type with
  | Member => is_Some (Diff.leaf d l)
  | External => TSDiff.free_leaf_index d = Some l
  end ->
  Kem.apply_own_update_path random cs commit_type l placeholder new_leaf override d = (Ok r, d') ->
  exists h', ts_inv d' h'.
Proof.
  intros Hi Hc E. destruct r as [[plain keypairs] commit_secret].
  destruct (own_path_Ok _ _ _ _ _ _ _ _ _ _ _ _ _ Hi Hc E) as
    (d1 & h1 & path & pkp & hash & d2 & leaf_node & keypair & Hi1 & Hs1 & _ & Ed & Ep & _ & _ & ->).
  exists h1. unfold Kem.derive_path in Ed. inv_ok.
  destruct (full_in_range d1 h1 l Hi1 Hs1) as [Hl _].
  rewrite (filtered_direct_path_levels d1 h1 l) in Ha0 by (done || apply Hi1). injection Ha0 as <-.
  apply derive_path_Ok in Ed as (secrets & _ & Hlen & HF & -> & _).
  apply Forall2_length in HF. rewrite length_fmap in Hlen.
  eapply path_then_leaf_inv; [done..| |apply fresh_path_unmerged|done].
  rewrite fst_zip; [done|]. rewrite !length_fmap. lia.
Qed.

Lemma ts_step_inv d h d' : ts_inv d h -> ts_step d d' -> exists h', ts_inv d' h'.
Proof.
  intros Hi Hstep. destruct Hstep as [d x l d' E|d x l d' Hs E|d l d' Hs E|d d' E|d cs s up d' E| |d].
  - destruct (add_leaf_Ok d h x l d' Hi E) as (h' & Hi' & _). eauto.
  - destruct (full_in_range d h l Hi Hs) as [Hl Hlist].
    destruct (leaf_path_spec d h l (Some x) Hi Hl) as (d1 & E' & Hi' & _); [by apply (listed_prefix d h)|].
    unfold TSDiff.update_leaf in E. simplify_eq. eauto.
  - destruct (full_in_range d h l Hi Hs) as [Hl Hlist].
    destruct (leaf_path_spec d h l None Hi Hl) as (d1 & E' & Hi' & _); [by apply (listed_prefix d h)|].
    unfold TSDiff.blank_leaf in E. simplify_eq. eauto.
  - destruct (trim_tree_spec d h Hi) as (d1 & h' & E' & Hi' & _). simplify_eq. eauto.
  - by apply (received_inv d h cs s up).
  - by eapply own_inv.
  - exists h. by apply merge_inv.
Qed.

(** *** Reachable trees *)
Lemma ts_steps_inv d h d' : ts_inv d h -> rtc ts_step d d' -> exists h', ts_inv d' h'.
Proof.
  intros Hi Hs. revert h Hi. induction Hs as [|d d1 d' Hstep _ IH]; intros h Hi; [eauto|].
  destruct (ts_step_inv d h d1 Hi Hstep) as (h1 & Hi1). by apply (IH h1).
Qed.

(** The tree of one leaf. *)
Definition founder_tree (leaf : LeafNode) : ABinaryTree (option LeafNode) (option ParentNode) := mkTree [Some leaf] [] None None.

Lemma founder_inv leaf : ts_inv (Tree.empty_diff (founder_tree leaf)) 0.
Proof.
  assert (wf_tree (founder_tree leaf)) as Hw by (split; done).
  split; [by apply empty_diff_wf|lia|done| |by apply empty_diff_contiguous|by intros i Hi0 []].
  intros k j p Hk [Ht _]. lia.
Qed.

(** A new tree is the founder's, merged with the empty diff, with its hash. *)
Lemma new_tree_founder random cs leaf ts secret :
  Kem.new random cs leaf = Ok (ts, secret) ->
  ts_tree ts = Tree.merge_diff (founder_tree leaf) (Diff.into_staged (Tree.empty_diff (founder_tree leaf))) /\
  TSDiff.compute_tree_hashes (Tree.empty_diff (founder_tree leaf)) cs = Ok (ts_tree_hash ts).
Proof.
  unfold Kem.new. intros E. inv_ok. injection Ha1 as <-. unfold TSync.populate_parent_hashes, TSync.into_staged_diff in Ha2.
  by inv_ok.
Qed.

Lemma new_tree_inv random cs leaf ts secret :
  Kem.new random cs leaf = Ok (ts, secret) -> ts_inv (TSync.empty_diff ts) 0.
Proof.
  intros (Et & _)%new_tree_founder. unfold TSync.empty_diff. rewrite Et.
  apply (merge_inv (Tree.empty_diff (founder_tree leaf)) 0), founder_inv.
Qed.

(** The trees that a group reaches from a freshly created one by adding,
    updating, removing, committing, trimming and merging. *)
Definition reachable d : Prop :=
  exists random cs leaf ts secret,
    Kem.new random cs leaf = Ok (ts, secret) /\ rtc ts_step (TSync.empty_diff ts) d.

Lemma reachable_inv d : reachable d -> exists h, ts_inv d h.
Proof.
  intros (random & cs & leaf & ts & secret & Hnew & Hs).
  by apply (ts_steps_inv _ _ _ (new_tree_inv _ _ _ _ _ Hnew)).
Qed.

(** The tree of [d] has the node [c]. *)
Definition has_node d (c : TreeNodeIndex) : Prop :=
  match c with
  | Leaf l => 0 <= l < Diff.leaf_count d
  | Parent p => 0 <= p < Diff.parent_count d
  end.

Lemma has_parent_coord d h p :
  ts_inv d h -> has_node d (Parent p) -> exists k j, 1 <= k /\ in_tree h k j /\ p = parent_at k j.
Proof.
  intros Hi Hp. cbn in Hp. rewrite (ti_parent_count d h Hi) in Hp. pose proof (ti_h d h Hi).
  destruct (parent_cover p (h + 1)) as (k & j & Hk & _ & Hkj & ->); [lia|lia|rewrite pow2_succ; lia|].
  exists k, j. split; [lia|]. split; [|done]. split; [lia|].
  pose proof (parent_at_index k j ltac:(lia)) as Ei. unfold node in Ei.
  pose proof (pow2_pos k ltac:(lia)). pose proof (pow2_pos (h - k) ltac:(lia)).
  assert (2 ^ h = 2 ^ (h - k) * 2 ^ k) by (rewrite <- Z.pow_add_r by lia; f_equal; lia).
  rewrite !pow2_succ in * by lia. nia.
Qed.

Lemma has_node_coord d h c : ts_inv d h -> has_node d c -> exists k j, in_tree h k j /\ c = node_at k j.
Proof.
  intros Hi Hc. destruct c as [l|p].
  - exists 0, l. cbn in Hc. rewrite (ti_leaf_count d h Hi) in Hc. pose proof (ti_h d h Hi).
    split; [|done]. split; [lia|]. by rewrite Z.sub_0_r.
  - destruct (has_parent_coord d h p Hi Hc) as (k & j & Hk & Ht & ->). exists k, j. split; [done|]. by rewrite node_at_parent.
Qed.

(** C16. Encrypting to the resolution of a node reaches every member below it, and
    nobody else: in every tree that a group can reach, the resolution of any node is
    computed, each non-blank leaf below the node that is not excluded holds the key
    of exactly one entry of it, and the key of an entry is held only by leaves below
    the node. *)
Theorem resolution_exact d c excl :
  reachable d -> has_node d c ->
  exists r, TSDiff.resolution d c excl = Some r /\
  (forall l, below c l -> is_Some (Diff.leaf d l) -> l ∉ excl -> covered_once r l) /\
  (forall e l, e ∈ r -> covers e l -> below c l).
Proof.
  intros (h & Hi)%reachable_inv Hc.
  destruct (has_node_coord d h c Hi Hc) as (k & j & Ht & ->). pose proof Hi as [_ Hh _ Hn _].
  pose proof (in_tree_coord h k j ltac:(lia) Ht) as Hco.
  eexists. split; [by apply resolution_res|].
  assert (Z.of_nat (Z.to_nat k) = k) as Ek by (destruct Ht; lia).
  split.
  - intros l Hb Hsl He. apply below_node_at in Hb; [|done]. unfold leaf_below in Hb.
    apply (res_covers h); rewrite ?Ek; done || lia.
  - intros e l He Hcov. apply below_node_at; [done|]. unfold leaf_below. rewrite <- Ek at 1.
    eapply (res_below h); [lia|done|by rewrite Ek|done..].
Qed.

(** A subtree inside another one is not higher. *)
Lemma subtree_level k j k' j' :
  1 <= k -> coord k j -> coord k' j' ->
  (forall m, below (node_at k' j') m -> below (node_at k j) m) -> k' <= k.
Proof.
  intros Hk Hc Hc' Hsub. destruct (Z.le_gt_cases k' k) as [|Hlt]; [done|]. exfalso.
  pose proof (pow2_pos k). pose proof (pow2_pos k'). pose proof (pow2_lt k k').
  assert (forall x, 0 <= x < 2 ^ k' -> (j' * 2 ^ k' + x) / 2 ^ k = j) as Hx.
  { intros x Hx. apply below_node_at; [done|]. apply Hsub. apply below_node_at; [done|]. unfold leaf_below.
    rewrite Z.div_add_l, Z.div_small by lia. lia. }
  pose proof (Hx 0 ltac:(lia)) as E0. pose proof (Hx (1 * 2 ^ k) ltac:(lia)) as E1.
  rewrite Z.div_add in E1 by lia. rewrite Z.add_0_r in E0. lia.
Qed.

(** C23. The unmerged leaves of a reachable tree are always what the protocol requires:
    the list of a parent node is strictly increasing, its entries are non-blank
    leaves below the node, every non-blank node between an entry and the parent
    lists it too, and both subtrees of a non-blank parent have a member. *)
Theorem unmerged_leaves_valid d p node :
  reachable d -> has_node d (Parent p) -> Diff.parent d p = Some node ->
  StronglySorted Z.lt (unmerged_leaves node) /\
  (forall l, l ∈ unmerged_leaves node -> below (Parent p) l /\ is_Some (Diff.leaf d l)) /\
  (forall l q node', l ∈ unmerged_leaves node -> has_node d (Parent q) -> below (Parent q) l ->
     (forall m, below (Parent q) m -> below (Parent p) m) -> Diff.parent d q = Some node' ->
     l ∈ unmerged_leaves node') /\
  (exists l, below (left p) l /\ is_Some (Diff.leaf d l)) /\
  (exists l, below (right p) l /\ is_Some (Diff.leaf d l)).
Proof.
  intros (h & Hi)%reachable_inv Hp Hnode.
  destruct (has_parent_coord d h p Hi Hp) as (k & j & Hk & Ht & ->). pose proof Hi as [_ Hh _ Hn _].
  pose proof (in_tree_coord h k j ltac:(lia) Ht) as Hco.
  destruct (Hn k j node Hk Ht Hnode) as [H1 H2 H3 H4]. split; [done|]. split; [|split; [|split]].
  - intros l Hl. rewrite node_at_parent, below_node_at by done. by apply H2.
  - intros l q node' Hl Hq Hbq Hsub Hq'. destruct (has_parent_coord d h q Hi Hq) as (k' & j' & Hk' & Ht' & ->).
    pose proof (in_tree_coord h k' j' ltac:(lia) Ht') as Hco'.
    rewrite node_at_parent, below_node_at in Hbq by done. unfold leaf_below in Hbq. subst j'.
    destruct (H2 l Hl) as [El _]. pose proof (subtree_level k j k' (l / 2 ^ k') ltac:(lia) Hco Hco') as Hle.
    destruct (decide (k' = k)) as [->|]; [congruence|]. apply (H3 l k'); [done| |done].
    rewrite !node_at_parent in Hsub by done. specialize (Hle Hsub). lia.
  - destruct (H4 0 ltac:(lia)) as (l & El & Hsl). exists l. split; [|done].
    rewrite left_coord, below_node_at by (done || rewrite <- (Z.add_0_r (2 * j)); by apply coord_down).
    unfold leaf_below. lia.
  - destruct (H4 1 ltac:(lia)) as (l & El & Hsl). exists l. split; [|done].
    rewrite right_coord, below_node_at by (done || by apply coord_down). done.
Qed.
End Steps.
