(* ===== verification/TreeStateFacts.v ===== *)
(** * Diffs and the trees they are merged into

    The operations of a diff leave its original tree alone; a merged tree has the
    leaves and the tree hash of the diff; what receiving an update path does to the
    leaves. *)
From S2P Require Import Prelude TreeMath TreeMathFacts BinaryTree BinaryTreeFacts Crypto TreeSync TreeKem.
From S2P Require Import TreeSyncFacts TreeSyncDiffFacts TreeKemFacts.

Section State.
Context {OC : OpenMlsCrypto} {TC : TlsCodec} {LeafNode : Type} {LO : LeafNodeOps LeafNode}.
Implicit Types (d : TreeSyncDiff LeafNode) (ts : TreeSync LeafNode).

(** ** The original tree *)
Lemma original_fold {A} (f : TreeSyncDiff LeafNode -> A -> TreeSyncDiff LeafNode) l d :
  (forall d a, original_tree (f d a) = original_tree d) -> original_tree (foldl f d l) = original_tree d.
Proof. intros Hf. revert d. induction l as [|a l IH]; intros d; cbn; [done|]. by rewrite IH. Qed.

Lemma original_parent_mut d p f : original_tree (Diff.parent_mut d p f) = original_tree d.
Proof. unfold Diff.parent_mut. by destruct (parent_diff d !! p). Qed.

Lemma original_leaf_path d l x d' :
  Diff.set_direct_path_to_node (Diff.replace_leaf d l x) l None = Some d' -> original_tree d' = original_tree d.
Proof.
  unfold Diff.set_direct_path_to_node. intros (path & _ & [= <-])%bind_Some. by rewrite original_fold.
Qed.

Lemma original_shrink fuel r d d' : TSDiff.shrink_while fuel r d = Some d' -> original_tree d' = original_tree d.
Proof.
  revert d. induction fuel as [|fuel IH]; intros d; cbn [TSDiff.shrink_while];
    (destruct (TreeSize.leaf_is_left (size d) r); [|by intros [= <-]]); [done|].
  destruct (Diff.shrink_tree d) as [d1| |] eqn:E; [|done..]. intros Hd. rewrite (IH _ Hd).
  unfold Diff.shrink_tree in E. destruct (_ <=? _); [done|]. by injection E as <-.
Qed.

Lemma original_trim d d' : TSDiff.trim_tree d = Some d' -> original_tree d' = original_tree d.
Proof.
  unfold TSDiff.trim_tree. destruct (_ =? _); [by intros [= <-]|].
  intros (r & _ & E)%bind_Some. by apply original_shrink in E.
Qed.

Lemma original_grow fuel l d r d' : TSDiff.grow_until fuel l d = (r, d') -> original_tree d' = original_tree d.
Proof.
  revert d. induction fuel as [|fuel IH]; intros d; cbn [TSDiff.grow_until];
    (destruct (_ >=? _); [|by intros [= _ <-]]); [by intros [= _ <-]|].
  destruct (Diff.grow_tree d) as [d1| |] eqn:E; [|by intros [= _ <-]..]. intros Hd. rewrite (IH _ Hd).
  unfold Diff.grow_tree in E. destruct (_ >? _); [done|]. by injection E as <-.
Qed.

Lemma original_add d x l d' : TSDiff.add_leaf x d = (Ok l, d') -> original_tree d' = original_tree d.
Proof.
  intros E. apply stateful_bind_Ok in E as (i & d0 & E0 & E). injection E0 as _ <-.
  apply stateful_bind_Ok in E as ([] & d1 & E1 & E). apply original_grow in E1. rewrite <- E1. clear E1.
  apply stateful_bind_Ok in E as ([] & d2 & [= <-] & E).
  apply stateful_bind_Ok in E as (path & d2 & E2 & E). injection E2 as _ <-.
  apply stateful_bind_Ok in E as ([] & d2 & [= <-] & [= _ <-]).
  unfold TSDiff.mark_unmerged. by rewrite original_fold by (intros; apply original_parent_mut).
Qed.

Lemma original_process d cs l path hash d' :
  TSDiff.process_update_path cs l path d = (Ok hash, d') -> original_tree d' = original_tree d.
Proof.
  intros E. apply stateful_bind_Ok in E as ([nodes h] & d0 & E0 & E). injection E0 as _ <-.
  apply stateful_bind_Ok in E as (anc & d0 & E0 & E). injection E0 as _ <-.
  cbn in E. injection E as _ <-. unfold TSDiff.set_nodes, TSDiff.blank_nodes.
  rewrite original_fold by (intros ? [? ?]; apply original_parent_mut). by rewrite original_fold by (intros; apply original_parent_mut).
Qed.

(** ** Receiving an update path *)

(** [received_inv] with the effect on the leaves. *)
Lemma received_spec d h cs sender update_path d' :
  ts_inv d h -> Kem.apply_received_update_path cs sender update_path d = (Ok tt, d') ->
  (exists h', ts_inv d' h') /\ original_tree d' = original_tree d /\
  (forall i, Diff.leaf d' i = if decide (i = sender) then Some (update_leaf_node update_path) else Diff.leaf d i).
Proof.
  intros Hi E. split; [by eapply received_inv|].
  destruct (received_path_Ok d h cs sender update_path d' Hi E) as (d1 & h1 & hash & d2 & Hi1 & Hs1 & Hd1 & Hp & Ep & _ & ->).
  assert (original_tree d1 = original_tree d /\ forall i, i <> sender -> Diff.leaf d1 i = Diff.leaf d i) as [Ho Hl].
  { destruct Hd1 as [->|Ea]; [done|]. split; [by eapply original_add|].
    destruct (add_leaf_spec d h (update_leaf_node update_path) Hi)
      as (l & _ & _ & _ & [(_ & _ & E')|(d4 & h' & E' & _ & Hi' & _ & Hlf & _)]); rewrite Ea in E'; [done|].
    injection E' as <- <-. intros i Hne. by rewrite Hlf, decide_False. }
  cbn [original_tree Diff.replace_leaf]. split; [rewrite <- Ho; by eapply original_process|].
  apply (process_update_path_spec d1 h1 sender) in Ep as (_ & Hlf & _); [|done|done|done|apply fresh_path_unmerged].
  intros i. rewrite leaf_replace_leaf, Hlf. case_decide; [done|]. by apply Hl.
Qed.

(** ** Merged trees *)
Lemma tree_hash_ext d d' h cs excl n fuel j :
  h <= 30 -> in_tree h (Z.of_nat n) j -> (n <= fuel)%nat ->
  (forall i, 0 <= i < 2 ^ h -> Diff.leaf d' i = Diff.leaf d i) ->
  (forall p, 0 <= p < 2 ^ h - 1 -> Diff.parent d' p = Diff.parent d p) ->
  TSDiff.compute_tree_hash_upto fuel d' cs (node_at (Z.of_nat n) j) excl
  = TSDiff.compute_tree_hash_upto fuel d cs (node_at (Z.of_nat n) j) excl.
Proof.
  intros Hh Ht Hf Hlf Hpr. revert fuel j Ht Hf. induction n as [|n IH]; intros fuel j Ht Hf.
  - change (node_at (Z.of_nat 0) j) with (Leaf j). assert (0 <= j < 2 ^ h) as Hj by (destruct Ht; by rewrite Z.sub_0_r in *).
    destruct fuel; cbn [TSDiff.compute_tree_hash_upto]; by rewrite Hlf.
  - destruct fuel as [|fuel]; [lia|]. pose proof (in_tree_coord h _ _ Hh Ht) as Hc.
    rewrite <- node_at_parent by lia. cbn [TSDiff.compute_tree_hash_upto]. unfold Diff.left_child, Diff.right_child.
    rewrite left_coord, right_coord by (done || lia).
    pose proof (in_tree_child h (Z.of_nat (S n)) j 0 ltac:(lia) Ht ltac:(lia)) as H0.
    pose proof (in_tree_child h (Z.of_nat (S n)) j 1 ltac:(lia) Ht ltac:(lia)) as H1. rewrite Z.add_0_r in H0.
    replace (Z.of_nat (S n) - 1) with (Z.of_nat n) in * by lia.
    rewrite (IH fuel (2 * j)), (IH fuel (2 * j + 1)), Hpr; [done| |done|lia|done|lia].
    apply parent_at_range; [lia|done].
Qed.

(** The tree a diff is merged into. *)
Definition merged d : TreeSyncDiff LeafNode := Tree.empty_diff (Tree.merge_diff (original_tree d) (Diff.into_staged d)).

Lemma merged_spec d h :
  ts_inv d h -> ts_inv (merged d) h /\ (forall i, Diff.leaf (merged d) i = Diff.leaf d i) /\
  forall p, 0 <= p < 2 ^ h - 1 -> Diff.parent (merged d) p = Diff.parent d p.
Proof.
  intros Hi. pose proof (merge_inv d h Hi) as Hm. fold (merged d) in Hm. split; [done|].
  destruct (merge_diff_view d (ti_wf d h Hi)) as [Hwt Hv].
  pose proof (empty_diff_view (Tree.merge_diff (original_tree d) (Diff.into_staged d)) Hwt) as Hv'. rewrite Hv in Hv'. fold (merged d) in Hv'.
  destruct Hv' as (Es & Hlf & Hpr). cbn in Es, Hlf, Hpr. pose proof (ti_h d h Hi) as Hh.
  rewrite Es, (ti_size d h Hi), perfect_leaf_count in Hlf by lia.
  rewrite Es, (ti_size d h Hi), perfect_parent_count in Hpr by lia. split; [|done].
  - intros i. destruct (decide (0 <= i < 2 ^ h)) as [Hr|Hr]; [by apply Hlf|].
    rewrite !leaf_unlisted; [done|apply (ti_wf d h Hi)| |apply (ti_wf _ h Hm)|]; rewrite (ti_leaf_count _ h) by done; tauto.
Qed.

Lemma merged_tree_hash d h cs :
  ts_inv d h -> TSDiff.compute_tree_hashes (merged d) cs = TSDiff.compute_tree_hashes d cs.
Proof.
  intros Hi. destruct (merged_spec d h Hi) as (Hm & Hlf & Hpr). pose proof (ti_h d h Hi) as Hh.
  unfold TSDiff.compute_tree_hashes, TSDiff.compute_tree_hash, Diff.root.
  rewrite (ti_size d h Hi), (ti_size _ h Hm), root_perfect by lia. rewrite <- (Z2Nat.id h) by lia.
  apply (tree_hash_ext d (merged d) h); [lia|rewrite Z2Nat.id by lia; split; [lia|rewrite Z.sub_diag; lia]|lia|auto|done].
Qed.

Lemma empty_diff_leaf (t : ABinaryTree (option LeafNode) (option ParentNode)) i :
  wf_tree t -> Diff.leaf (Tree.empty_diff t) i = default None (get_at (leaf_nodes t) i).
Proof.
  intros Ht. destruct (wf_tree_size t Ht) as (h & Hh & Es & Hle). unfold Diff.leaf, Diff.leaf_count. cbn.
  rewrite lookup_empty, Es, perfect_leaf_count, Z.geb_leb by lia. destruct (Z.leb_spec (2 ^ h) i).
  - rewrite get_at_None; [done|]. pose proof (wf_counts t Ht). unfold perfect in Hle. rewrite pow2_succ in Hle by lia. lia.
  - unfold Tree.leaf_by_index. by rewrite (wf_dl t Ht).
Qed.

Lemma full_leaves_elem ts i x :
  wf_tree (ts_tree ts) -> (i, x) ∈ TSync.full_leaves ts <-> Diff.leaf (TSync.empty_diff ts) i = Some x.
Proof.
  intros Ht. unfold TSync.empty_diff. rewrite empty_diff_leaf by done.
  pose proof (wf_max _ Ht) as Hm. unfold MAX_TREE_SIZE in Hm.
  unfold TSync.full_leaves, Tree.leaves, enumerate. rewrite list_elem_of_omap. split.
  - intros ([i' y] & He & Hy). apply list_elem_of_fmap in He as ([i0 y0] & [= -> ->] & He).
    apply elem_of_lookup_imap in He as (k & z & [= -> <-] & Hk). destruct y0 as [y|]; [|done]. injection Hy as <- ->.
    pose proof (lookup_lt_Some _ _ _ Hk) as Hlt.
    rewrite u32.wrap_small by (unfold u32.is_u32, u32.modulus; lia).
    unfold get_at. rewrite (proj2 (Z.leb_le _ _)) by lia. by rewrite Nat2Z.id, Hk.
  - unfold get_at. destruct (Z.leb_spec 0 i) as [Hi|]; [|done].
    destruct (leaf_nodes (ts_tree ts) !! Z.to_nat i) as [y|] eqn:Hk; [|done]. intros [= ->].
    exists (i, Some x). split; [|done]. apply list_elem_of_fmap. exists (i, Some x).
    pose proof (lookup_lt_Some _ _ _ Hk) as Hlt.
    rewrite u32.wrap_small by (unfold u32.is_u32, u32.modulus; lia). split; [done|].
    apply elem_of_lookup_imap. exists (Z.to_nat i), (Some x). by rewrite Z2Nat.id.
Qed.

End State.
