(* ===== verification/TreeKemAgreement.v ===== *)
(** * TreeKEM: sender and receivers agree

    A member that commits and a member that receives the commit end with the same
    tree, the same path keys above their common ancestor and the same commit
    secret. *)
From S2P Require Import Prelude TreeMath TreeMathFacts BinaryTree BinaryTreeFacts Crypto CryptoFacts.
From S2P Require Import TreeSync TreeKem TreeSyncFacts TreeSyncDiffFacts TreeKemFacts.

Section Resolutions.
Context {OC : OpenMlsCrypto} {TC : TlsCodec} {LeafNode : Type} {LO : LeafNodeOps LeafNode}.
Implicit Types (d : TreeSyncDiff LeafNode) (lf : Z -> option LeafNode) (pr : Z -> option ParentNode).

(** A resolution depends only on the subtree of its node. *)
Lemma res_ext h lf pr lf' pr' excl n j :
  nodes_inv h lf pr -> in_tree h (Z.of_nat n) j ->
  (forall l, l / 2 ^ Z.of_nat n = j -> lf' l = lf l) ->
  (forall k i, 1 <= k <= Z.of_nat n -> in_tree h k i -> i / 2 ^ (Z.of_nat n - k) = j ->
     pr' (parent_at k i) = pr (parent_at k i)) ->
  res lf' pr' excl n j = res lf pr excl n j.
Proof.
  intros Hi. revert j. induction n as [|n IH]; intros j Ht Hlf Hpr; cbn [res].
  - unfold leaf_entry. rewrite Hlf; [done|]. cbn. apply Z.div_1_r.
  - rewrite Hpr; [|lia|done|rewrite Z.sub_diag; cbn; apply Z.div_1_r].
    destruct (pr _) as [p|] eqn:Ep.
    + f_equal. apply list_omap_ext. apply Forall_Forall2_diag, Forall_forall. intros l Hl.
      unfold leaf_entry. by rewrite Hlf by (by apply (ni_unmerged _ _ _ _ _ (Hi (Z.of_nat (S n)) j p ltac:(lia) Ht Ep))).
    + assert (forall b, 0 <= b <= 1 -> res lf' pr' excl n (2 * j + b) = res lf pr excl n (2 * j + b)) as Hb.
      { intros b Hb. apply IH.
        - replace (Z.of_nat n) with (Z.of_nat (S n) - 1) by lia. apply in_tree_child; (done || lia).
        - intros l El. apply Hlf. apply child_half; [lia|]. exists b.
          by replace (Z.of_nat (S n) - 1) with (Z.of_nat n) by lia.
        - intros k i Hk Hti Ei. apply Hpr; [lia|done|].
          replace (Z.of_nat (S n) - k) with (Z.of_nat n - k + 1) by lia. rewrite <- anc_step, Ei by lia.
          rewrite Z.mul_comm, Z.div_add_l, Z.div_small; lia. }
      f_equal; [|by apply Hb]. pose proof (Hb 0 ltac:(lia)) as H0. by rewrite Z.add_0_r in H0.
Qed.

(** The entries of a resolution are nodes of the tree. *)
Definition entry_of lf pr h (entry : TreeNodeIndex * NodeReference LeafNode) : Prop :=
  match entry with
  | (Leaf i, RefLeaf leaf) => lf i = Some leaf
  | (Parent i, RefParent p) => exists k j, 1 <= k /\ in_tree h k j /\ i = parent_at k j /\ pr i = Some p
  | _ => False
  end.

Lemma leaf_entry_of lf pr h excl l e : leaf_entry lf excl l = Some e -> entry_of lf pr h e.
Proof. unfold leaf_entry. case_bool_decide; [done|]. by intros (x & Hx & ->)%fmap_Some. Qed.

Lemma res_entries h lf pr excl n j e : in_tree h (Z.of_nat n) j -> e ∈ res lf pr excl n j -> entry_of lf pr h e.
Proof.
  revert j. induction n as [|n IH]; intros j Ht He; cbn [res] in He.
  - destruct (leaf_entry lf excl j) eqn:E; [|by apply elem_of_nil in He].
    apply list_elem_of_singleton in He as ->. by apply (leaf_entry_of _ _ _ _ _ _ E).
  - destruct (pr _) as [p|] eqn:Ep.
    + apply elem_of_cons in He as [->|(l & _ & El)%list_elem_of_omap]; [|by apply (leaf_entry_of _ _ _ _ _ _ El)].
      exists (Z.of_nat (S n)), j. split; [lia|done].
    + assert (forall b, 0 <= b <= 1 -> in_tree h (Z.of_nat n) (2 * j + b)) as Hch.
      { intros b Hb. replace (Z.of_nat n) with (Z.of_nat (S n) - 1) by lia. apply in_tree_child; (done || lia). }
      apply elem_of_app in He as [He|He].
      * apply (IH (2 * j)); [|done]. rewrite <- (Z.add_0_r (2 * j)). apply Hch. lia.
      * apply (IH (2 * j + 1)); [|done]. apply Hch. lia.
Qed.

(** The key of an entry that covers a leaf is one its owner is expected to have. *)
Lemma covered_key d h l e :
  ts_inv d h -> is_Some (Diff.leaf d l) -> entry_of (Diff.leaf d) (Diff.parent d) h e -> covers e l ->
  exists keys, TSDiff.encryption_keys d l = Some keys /\ TSDiff.node_encryption_key e.2 ∈ keys.
Proof.
  intros Hi Hs He Hc. destruct (full_in_range d h l Hi Hs) as [Hl _]. pose proof Hi as [_ Hh Es Hn _].
  unfold TSDiff.encryption_keys. rewrite (filtered_direct_path_levels d h l) by done. cbn [mbind option_bind].
  eexists. split; [done|]. destruct e as [[i|i] [leaf|p]]; cbn in He, Hc; try done.
  - subst. rewrite He. cbn. constructor.
  - destruct He as (k & j & Hk & Ht & -> & Hp). destruct Hc as [Hb Hu].
    rewrite node_at_parent, below_node_at in Hb by (done || by apply (in_tree_coord h); [lia|]).
    unfold leaf_below in Hb. apply elem_of_app. right. apply list_elem_of_omap.
    assert (parent_at k j = path_node l (k - 1)) as Epn.
    { unfold path_node. replace (k - 1 + 1) with k by lia. by rewrite Hb. }
    exists (parent_at k j). rewrite Hp, bool_decide_false by done. split; [|done].
    rewrite Epn. apply list_elem_of_fmap. exists (k - 1). split; [done|]. apply filtered_levels_elem. destruct Ht as [Ht1 Ht2].
    split; [lia|].
    destruct (ni_populated _ _ _ _ _ (Hn k j p Hk ltac:(done) Hp) ((flip (l / 2 ^ (k - 1))) mod 2)) as (x & Ex & Hx).
    { pose proof (Z.mod_pos_bound (flip (l / 2 ^ (k - 1))) 2). lia. }
    assert (2 * j + (flip (l / 2 ^ (k - 1))) mod 2 = flip (l / 2 ^ (k - 1))) as Ef.
    { rewrite <- Hb. replace k with (k - 1 + 1) at 1 by lia. rewrite <- anc_step, <- flip_half, <- Z.div_mod by lia. done. }
    rewrite Ef in Ex. apply (res_nonempty h _ _ _ _ _ x); rewrite ?Z2Nat.id by lia; try done; [lia|].
    apply copath_node_in_tree; lia.
Qed.
End Resolutions.

(** ** Common paths *)
Section CommonPath.
Context {OC : OpenMlsCrypto} {TC : TlsCodec} {LeafNode : Type} {LO : LeafNodeOps LeafNode}.
Implicit Types (d : TreeSyncDiff LeafNode).

(** Changing the path of a leaf does not change its copath. *)
Lemma copath_res_off_path d d' h s excl k :
  ts_inv d h -> 0 <= s < 2 ^ h -> (forall i, i <> s -> Diff.leaf d' i = Diff.leaf d i) ->
  (forall p, p ∉ ancestors h s -> Diff.parent d' p = Diff.parent d p) -> 0 <= k < h ->
  copath_res d' excl s k = copath_res d excl s k.
Proof.
  intros Hi Hs Hlf Hpr Hk. pose proof Hi as [_ Hh _ Hn _]. unfold copath_res.
  pose proof (flip_neq (s / 2 ^ k)) as Hflip.
  apply (res_ext h); rewrite ?Z2Nat.id by lia; [done|by apply copath_node_in_tree| |].
  - intros l El. apply Hlf. intros ->. congruence.
  - intros k' i Hk' Ht Ei. apply Hpr. rewrite ancestors_coord by (lia || done). intros <-. apply Hflip.
    rewrite <- Ei, Z.div_div by (pose proof (pow2_pos k'); pose proof (pow2_pos (k - k')); lia).
    rewrite <- Z.pow_add_r by lia. do 2 f_equal. lia.
Qed.

Lemma filtered_levels_off_path d d' h s :
  ts_inv d h -> 0 <= s < 2 ^ h -> (forall i, i <> s -> Diff.leaf d' i = Diff.leaf d i) ->
  (forall p, p ∉ ancestors h s -> Diff.parent d' p = Diff.parent d p) ->
  filtered_levels d' h s = filtered_levels d h s.
Proof.
  intros Hi Hs Hlf Hpr. unfold filtered_levels. apply filter_ext_elem.
  intros k Hk%elem_of_seqZ. by rewrite (copath_res_off_path d d' h) by (done || lia).
Qed.

(** The levels of a filtered path below and above where it meets another one. *)
Definition levels_below d (x m : Z) : list Z := filter (fun k => copath_res d ∅ x k <> []) (seqZ 0 (m - 1)).
Definition levels_above d (h x m : Z) : list Z := filter (fun k => copath_res d ∅ x k <> []) (seqZ m (h - m)).

Lemma copath_res_meet d h x y m :
  ts_inv d h -> 0 <= x < 2 ^ h -> is_Some (Diff.leaf d y) -> x <> y -> meet x y m ->
  copath_res d ∅ x (m - 1) <> [].
Proof.
  intros Hi Hx Hy Hne Hm. destruct (full_in_range d h y Hi Hy) as [Hyr _]. pose proof Hi as [_ Hh _ Hn _].
  pose proof (meet_bounds h x y m Hx Hyr ltac:(lia) Hne Hm) as Hmb.
  apply (res_nonempty h _ _ _ _ _ y); rewrite ?Z2Nat.id by lia; [lia|done| | |done|set_solver].
  - apply copath_node_in_tree; lia.
  - by apply meet_flip; [|lia].
Qed.

Lemma filtered_levels_split d h x y m :
  ts_inv d h -> 0 <= x < 2 ^ h -> is_Some (Diff.leaf d y) -> x <> y -> meet x y m ->
  filtered_levels d h x = levels_below d x m ++ (m - 1) :: levels_above d h x m.
Proof.
  intros Hi Hx Hy Hne Hm. pose proof (copath_res_meet d h x y m Hi Hx Hy Hne Hm) as Hres.
  destruct (full_in_range d h y Hi Hy) as [Hyr _]. pose proof (ti_h d h Hi).
  pose proof (meet_bounds h x y m Hx Hyr ltac:(lia) Hne Hm) as Hmb.
  unfold filtered_levels, levels_below, levels_above.
  replace h with ((m - 1) + (1 + (h - m))) at 1 by lia. rewrite seqZ_app by lia. rewrite (seqZ_app _ 1) by lia.
  rewrite !filter_app. f_equal. rewrite (seqZ_cons (0 + (m - 1)) 1), seqZ_nil by lia.
  rewrite filter_cons_True, filter_nil by (by replace (0 + (m - 1)) with (m - 1) by lia).
  cbn [app]. replace (0 + (m - 1) + 1) with m by lia. by replace (0 + (m - 1)) with (m - 1) by lia.
Qed.

Lemma levels_above_common d h x y m :
  meet x y m -> path_node x <$> (m - 1) :: levels_above d h x m = path_node y <$> (m - 1) :: levels_above d h y m.
Proof.
  intros (Hm & E & _). assert (forall k, m <= k -> x / 2 ^ k = y / 2 ^ k) as Hsame.
  { intros k Hk. apply (div_pow2_le x y m); [lia|done]. }
  assert (levels_above d h x m = levels_above d h y m) as El.
  { unfold levels_above. apply filter_ext_elem. intros k Hk%elem_of_seqZ.
    unfold copath_res. by rewrite Hsame by lia. }
  rewrite El, !fmap_cons. f_equal.
  - unfold path_node. replace (m - 1 + 1) with m by lia. by rewrite E.
  - apply list_fmap_ext. intros i k Hk%list_elem_of_lookup_2. unfold levels_above in Hk.
    apply list_elem_of_filter in Hk as [_ Hk%elem_of_seqZ]. unfold path_node. by rewrite Hsame by lia.
Qed.

Lemma levels_below_elem d x m k : k ∈ levels_below d x m -> 0 <= k < m - 1.
Proof. unfold levels_below. intros [_ Hk%elem_of_seqZ]%list_elem_of_filter. lia. Qed.

Lemma meet_sym x y m : meet x y m -> meet y x m.
Proof. intros (H1 & H2 & H3). split; [done|]. split; [done|]. intros i Hi E. by apply (H3 i). Qed.

Lemma subtree_root_position_eq d h s r m :
  ts_inv d h -> 0 <= s < 2 ^ h -> is_Some (Diff.leaf d r) -> s <> r -> meet s r m ->
  TSDiff.subtree_root_position d s r = Ok (length (levels_below d s m)).
Proof.
  intros Hi Hs Hr Hne Hm. destruct (full_in_range d h r Hi Hr) as [Hrr _]. pose proof Hi as [_ Hh Es _ _].
  pose proof (meet_bounds h s r m Hs Hrr ltac:(lia) Hne Hm) as Hmb.
  unfold TSDiff.subtree_root_position, Diff.lowest_common_ancestor.
  rewrite (lca_coord h s r m), (filtered_direct_path_levels d h s) by (done || lia).
  rewrite (filtered_levels_split d h s r m) by done. rewrite fmap_app, fmap_cons. cbn [mbind result_bind returns].
  rewrite list_find_first; [by rewrite length_fmap| |unfold path_node; by replace (m - 1 + 1) with m by lia].
  intros p (k & -> & Hk%levels_below_elem)%list_elem_of_fmap E.
  replace m with (m - 1 + 1) in E by lia. apply (path_node_inj h s k (m - 1)) in E; lia.
Qed.

Lemma common_path_eq d h s r m :
  ts_inv d h -> is_Some (Diff.leaf d s) -> is_Some (Diff.leaf d r) -> s <> r -> meet s r m ->
  TSDiff.filtered_common_direct_path d r s = Some (path_node s <$> (m - 1) :: levels_above d h s m).
Proof.
  intros Hi Hs Hr Hne Hm. destruct (full_in_range d h r Hi Hr) as [Hrr _].
  destruct (full_in_range d h s Hi Hs) as [Hsr _]. pose proof Hi as [_ Hh Es _ _].
  pose proof (meet_bounds h s r m Hsr Hrr ltac:(lia) Hne Hm) as Hmb.
  unfold TSDiff.filtered_common_direct_path. rewrite !(filtered_direct_path_levels d h) by done. cbn [mbind option_bind].
  rewrite (filtered_levels_split d h s r m), (filtered_levels_split d h r s m) by (done || by apply meet_sym).
  rewrite (fmap_app _ (levels_below d s m)), (fmap_app _ (levels_below d r m)).
  rewrite (levels_above_common d h r s m) by (by apply meet_sym). f_equal. apply common_suffix_split.
  rewrite !fmap_last. destruct (last (levels_below d r m)) as [k|] eqn:Ek; [|by left].
  destruct (last (levels_below d s m)) as [k'|] eqn:Ek'; [|by right; left]. right; right.
  apply last_Some_elem_of, levels_below_elem in Ek. apply last_Some_elem_of, levels_below_elem in Ek'.
  cbn. intros [= E]. apply parent_at_inj in E as [E1 E2]; [|lia|lia|apply (coord_anc h); lia..].
  replace k' with k in E2 by lia. destruct Hm as (_ & _ & Hmin). by apply (Hmin (k + 1)); [lia|].
Qed.

Lemma find_owned_Some keys owned pos pk sk0 :
  pk ∈ keys -> (pk, sk0) ∈ owned ->
  exists sk i pk', TSDiff.find_owned keys owned pos = Some (sk, (pos + i)%nat) /\ keys !! i = Some pk' /\ (pk', sk) ∈ owned.
Proof.
  revert pos. induction keys as [|k keys IH]; intros pos Hk Ho; [by apply elem_of_nil in Hk|].
  cbn [TSDiff.find_owned]. destruct (list_find _ owned) as [[n [pk' sk]]|] eqn:Ef.
  - apply list_find_Some in Ef as (Hn & E & _). cbn in E. subst.
    exists sk, 0%nat, k. split; [by rewrite Nat.add_0_r|]. split; [done|]. by apply list_elem_of_lookup_2 in Hn.
  - apply list_find_None in Ef. rewrite Forall_forall in Ef.
    apply elem_of_cons in Hk as [->|Hk]; [exfalso; by apply (Ef _ Ho)|].
    destruct (IH (S pos) Hk Ho) as (sk & i & pk' & -> & Hi & Ho'). exists sk, (S i), pk'. split; [|done].
    do 2 f_equal. lia.
Qed.

Lemma decryption_key_eq d h s r m excl owned :
  0 <= h <= 29 -> 0 <= s < 2 ^ h -> 0 <= r < 2 ^ h -> s <> r -> meet s r m ->
  TSDiff.decryption_key d s excl owned r =
    ok_or (TSDiff.find_owned (TSDiff.resolution_keys (copath_res d excl s (m - 1))) owned 0) NoPrivateKeyFound.
Proof.
  intros Hh Hs Hr Hne Hm. pose proof (meet_bounds h s r m Hs Hr ltac:(lia) Hne Hm) as Hmb.
  unfold TSDiff.decryption_key. rewrite (subtree_root_copath_coord d h s r m) by (done || lia).
  rewrite returns_bind, (meet_flip s r m) by (done || lia).
  rewrite (copath_resolution_at d excl h), returns_bind by lia. reflexivity.
Qed.

(** The receiver finds a private key for an entry of the sender's copath. *)
Lemma decryption_key_found d h s r m excl owned :
  ts_inv d h -> 0 <= s < 2 ^ h -> is_Some (Diff.leaf d r) -> s <> r -> meet s r m -> r ∉ excl ->
  (forall e, e ∈ copath_res d excl s (m - 1) -> covers e r ->
     exists sk, (TSDiff.node_encryption_key e.2, sk) ∈ owned) ->
  exists sk i pk, TSDiff.decryption_key d s excl owned r = Ok (sk, i) /\
    TSDiff.resolution_keys (copath_res d excl s (m - 1)) !! i = Some pk /\ (pk, sk) ∈ owned.
Proof.
  intros Hi Hs Hr Hne Hm Hex Hown. destruct (full_in_range d h r Hi Hr) as [Hrr _]. pose proof Hi as [_ Hh Es Hn _].
  pose proof (meet_bounds h s r m Hs Hrr ltac:(lia) Hne Hm) as Hmb.
  rewrite (decryption_key_eq d h s r m) by done.
  destruct (res_covers h (Diff.leaf d) (Diff.parent d) excl (Z.to_nat (m - 1)) (flip (s / 2 ^ (m - 1))) r) as (r1 & e & r2 & Er & Hc & _);
    rewrite ?Z2Nat.id by lia; try done; [lia|apply copath_node_in_tree; lia|by apply meet_flip; [|lia]|].
  assert (e ∈ copath_res d excl s (m - 1)) as He.
  { unfold copath_res. rewrite Er. apply elem_of_app. right. constructor. }
  destruct (Hown e He Hc) as (sk0 & Ho).
  destruct (find_owned_Some (TSDiff.resolution_keys (copath_res d excl s (m - 1))) owned 0
    (TSDiff.node_encryption_key e.2) sk0) as (sk & i & pk & E & Hk & Hpk); [|done|].
  { apply list_elem_of_fmap. eauto. }
  exists sk, i, pk. split; [by rewrite E|done].
Qed.
End CommonPath.

(** ** Deriving and encrypting a path *)
Section Derivation.
Context {OC : OpenMlsCrypto} {TC : TlsCodec} (cs : Ciphersuite).

Lemma derive_chain_drop n s secrets last i sec :
  PathSecret.derive_chain cs n s = Ok (secrets, last) -> secrets !! i = Some sec ->
  PathSecret.derive_chain cs (n - i) sec = Ok (drop i secrets, last).
Proof.
  revert s secrets i. induction n as [|n IH]; intros s secrets i E Hi.
  - cbn in E. by simplify_eq.
  - pose proof E as E0. cbn [PathSecret.derive_chain] in E. inv_ok. destruct a0 as [secrets' last']. simplify_eq.
    destruct i as [|i]; cbn in Hi; [injection Hi as <-; exact E0|].
    rewrite Nat.sub_succ. by apply (IH a secrets').
Qed.

Lemma derive_path_intro s indices secrets last keypairs :
  PathSecret.derive_chain cs (length indices) s = Ok (secrets, last) ->
  Forall2 (fun s kp => PathSecret.derive_key_pair s cs = Ok kp) secrets keypairs ->
  PathSecret.derive_path cs s indices =
    Ok (zip indices (ParentNode_from <$> keypairs.*1), zip_with mkPlainUpdatePathNode keypairs.*1 secrets, keypairs, last).
Proof.
  intros E HF. pose proof (derive_chain_length _ _ _ _ _ E) as Hlen.
  unfold PathSecret.derive_path. rewrite E, ok_bind.
  set (out := zip_with (fun (kp : bytes * bytes) x => ((x.2, ParentNode_from kp.1), kp, mkPlainUpdatePathNode kp.1 x.1))
                keypairs (zip secrets indices)).
  assert (try_map (PathSecret.derive_node cs) (zip secrets indices) = Ok out) as ->.
  { apply try_map_Forall2. clear E. unfold out. clear out. revert indices Hlen.
    induction HF as [|x kp secrets keypairs Hk HF IH]; intros [|i indices] Hlen; try done.
    constructor; [|apply IH; by injection Hlen]. cbn. by rewrite Hk. }
  rewrite ok_bind. unfold PathSecret.unzip_nodes. do 4 f_equal; clear E; unfold out; clear out; revert indices Hlen;
    induction HF as [|x kp secrets keypairs Hk HF IH]; intros [|i indices] Hlen; try done; cbn; f_equal; apply IH; by injection Hlen.
Qed.

Lemma derive_path_drop s indices path plain keypairs last i node :
  PathSecret.derive_path cs s indices = Ok (path, plain, keypairs, last) -> plain !! i = Some node ->
  PathSecret.derive_path cs (plain_path_secret node) (drop i indices) =
    Ok (drop i path, drop i plain, drop i keypairs, last).
Proof.
  intros (secrets & E & Hlen & HF & -> & ->)%derive_path_Ok Hi.
  apply lookup_zip_with_Some in Hi as (pk & sec & -> & _ & Hsec).
  cbn [plain_path_secret]. rewrite (derive_path_intro sec (drop i indices) (drop i secrets) last (drop i keypairs)).
  - by rewrite !zip_with_drop, !fmap_drop.
  - rewrite length_drop. by apply (derive_chain_drop _ s).
  - by apply Forall2_drop.
Qed.
End Derivation.

(** ** The sender's commit *)
Section Agreement.
Context {OC : OpenMlsCrypto} {TC : TlsCodec} {LeafNode : Type} {LO : LeafNodeOps LeafNode}.
Implicit Types (d : TreeSyncDiff LeafNode).

(** What the sender's own path application did to the tree. *)
Record own_applied d d' (h s : Z) (cs : Ciphersuite) (leaf : LeafNode) (hash : bytes) (sec : Secret)
    (path : list (ParentNodeIndex.t * ParentNode)) (plain : list PlainUpdatePathNode)
    (keypairs : list (bytes * bytes)) (commit_secret : Secret) : Prop := {
  oa_path : PathSecret.derive_path cs sec (path_node s <$> filtered_levels d h s) = Ok (path, plain, keypairs, commit_secret);
  oa_process : exists d2, TSDiff.process_update_path cs s path d = (Ok hash, d2) /\ d' = Diff.replace_leaf d2 s (Some leaf);
  oa_inv : ts_inv d' h;
  oa_leaf : Diff.leaf d' s = Some leaf;
  oa_leaves : forall i, i <> s -> Diff.leaf d' i = Diff.leaf d i;
  oa_parents : forall p, p ∉ ancestors h s -> Diff.parent d' p = Diff.parent d p;
  oa_blank : forall p, p ∈ ancestors h s -> p ∉ path_node s <$> filtered_levels d h s -> Diff.parent d' p = None;
  oa_nodes : Forall2 (fresh_node (Diff.parent d')) (path_node s <$> filtered_levels d h s) keypairs.*1;
}.

Lemma own_update_applied d h random cs s placeholder new_leaf override plain keypairs commit_secret d' :
  ts_inv d h -> is_Some (Diff.leaf d s) ->
  Kem.apply_own_update_path random cs Member s placeholder new_leaf override d
    = (Ok (plain, keypairs, commit_secret), d') ->
  exists leaf hash kp sec path parent_keypairs, new_leaf hash = Ok (leaf, kp) /\ keypairs = kp :: parent_keypairs /\
    own_applied d d' h s cs leaf hash sec path plain parent_keypairs commit_secret.
Proof.
  intros Hi Hs E. destruct (full_in_range d h s Hi Hs) as [Hl _].
  destruct (own_path_Ok _ _ _ _ Member _ _ _ _ _ _ _ _ Hi Hs E) as
    (d1 & h1 & path & pkp & hash & d2 & leaf & kp & _ & _ & Ed1 & Ed & Ep & Hnl & -> & ->).
  rewrite (Ed1 eq_refl) in *. clear d1 Ed1 E. unfold Kem.derive_path in Ed. inv_ok.
  rewrite (filtered_direct_path_levels d h s) in Ha0 by (done || apply Hi). injection Ha0 as <-.
  exists leaf, hash, kp, a, path, pkp. split; [done|]. split; [done|].
  pose proof Ed as (secrets & _ & Hlen & HF & Epath & _)%derive_path_Ok. apply Forall2_length in HF.
  assert (path.*1 = path_node s <$> filtered_levels d h s) as E1.
  { rewrite Epath, fst_zip; [done|]. rewrite !length_fmap in *. lia. }
  assert (Forall (fun n => unmerged_leaves n = []) path.*2) as E2 by (rewrite Epath; apply fresh_path_unmerged).
  destruct (process_update_path_spec d h s cs path hash d2 Hi Hs E1 E2 Ep) as (Hi2 & Hlf & Hpr & Hblank & Hnodes).
  rewrite E1 in Hblank. split; [done|eauto| | | |done|done|].
  - by apply (path_then_leaf_inv d h s cs path hash).
  - rewrite leaf_replace_leaf. by case_decide.
  - intros i Hne. rewrite leaf_replace_leaf, decide_False by done. apply Hlf.
  - rewrite E1, Epath, snd_zip in Hnodes by (rewrite !length_fmap in *; lia).
    rewrite <- list_fmap_compose in Hnodes. rewrite <- (list_fmap_id pkp.*1). exact Hnodes.
Qed.

(** What a receiver finds in an encrypted path. *)
Lemma encrypt_path_Ok d h cs plain ctx excl s nodes :
  ts_inv d h -> 0 <= s < 2 ^ h -> length plain = length (filtered_levels d h s) ->
  Kem.encrypt_path d cs plain ctx excl s = Ok nodes ->
  public_key <$> nodes = plain_public_key <$> plain /\
  (forall i k p, filtered_levels d h s !! i = Some k -> plain !! i = Some p ->
     exists node, nodes !! i = Some node /\
     Forall2 (fun pk ct => PathSecret.encrypt (plain_path_secret p) cs pk ctx = Ok ct)
       (TSDiff.resolution_keys (copath_res d excl s k)) (encrypted_path_secrets node)).
Proof.
  intros Hi Hs Hlen E. unfold Kem.encrypt_path in E.
  rewrite (filtered_copath_resolutions_levels d h) in E by (done || apply Hi). rewrite returns_bind in E.
  rewrite <- list_fmap_compose in E. apply try_map_Forall2 in E.
  assert (Forall2 (fun x node => public_key node = plain_public_key x.1 /\
    Forall2 (fun pk ct => PathSecret.encrypt (plain_path_secret x.1) cs pk ctx = Ok ct) x.2 (encrypted_path_secrets node))
    (zip plain ((TSDiff.resolution_keys ∘ copath_res d excl s) <$> filtered_levels d h s)) nodes) as HF.
  { eapply Forall2_impl; [exact E|]. intros [p keys] node En. cbn in *. unfold PathSecret.encrypt_node in En.
    inv_ok. split; [done|]. by apply try_map_Forall2 in Ha. }
  clear E. split.
  - transitivity ((plain_public_key ∘ fst) <$> zip plain ((TSDiff.resolution_keys ∘ copath_res d excl s) <$> filtered_levels d h s)).
    + symmetry. apply Forall2_fmap_eq. eapply Forall2_impl; [exact HF|]. intros [??] ? [E _]. by rewrite E.
    + rewrite list_fmap_compose, fst_zip; [done|]. rewrite length_fmap. lia.
  - intros i k p Hk Hp. 
    destruct (Forall2_lookup_l _ _ _ i (p, TSDiff.resolution_keys (copath_res d excl s k)) HF) as (node & Hn & _ & Hc).
    { apply lookup_zip_with_Some. do 2 eexists. split; [done|]. split; [done|]. rewrite list_lookup_fmap, Hk. done. }
    eauto.
Qed.

Lemma plain_public_keys cs sec indices path plain keypairs last :
  PathSecret.derive_path cs sec indices = Ok (path, plain, keypairs, last) ->
  plain_public_key <$> plain = keypairs.*1 /\ length plain = length indices /\
  path = zip indices (ParentNode_from <$> keypairs.*1).
Proof.
  intros (secrets & _ & Hlen & HF & -> & ->)%derive_path_Ok. apply Forall2_length in HF.
  assert (length keypairs.*1 = length secrets) as Hl by (by rewrite length_fmap).
  split; [|split; [rewrite length_zip_with; lia|done]].
  clear HF Hlen. revert secrets Hl. induction keypairs.*1 as [|k ks IH]; intros [|x secrets] Hl; try done.
  cbn. f_equal. apply IH. by injection Hl.
Qed.

(** A receiver that applies the sender's path to the same tree gets the sender's tree. *)
Lemma received_applies d d' h s cs leaf hash sec path plain keypairs commit_secret nodes :
  ts_inv d h -> is_Some (Diff.leaf d s) ->
  own_applied d d' h s cs leaf hash sec path plain keypairs commit_secret ->
  public_key <$> nodes = plain_public_key <$> plain -> leaf_parent_hash leaf = Some hash ->
  Kem.apply_received_update_path cs s (mkUpdatePath leaf nodes) d = (Ok tt, d').
Proof.
  intros Hi Hs Ho Hk Hph. destruct (full_in_range d h s Hi Hs) as [Hl _]. destruct (oa_process _ _ _ _ _ _ _ _ _ _ _ _ Ho) as (d2 & Ep & ->).
  destruct (plain_public_keys _ _ _ _ _ _ _ (oa_path _ _ _ _ _ _ _ _ _ _ _ _ Ho)) as (Epk & Elen & Epath).
  unfold Kem.apply_received_update_path. cbn [update_nodes update_leaf_node].
  unfold mbind, stateful_bind, reading, lifting, modifying.
  rewrite bool_decide_false by (intros E; rewrite E in Hs; by destruct Hs).
  destruct (Z.geb_spec s (TSDiff.leaf_count d)) as [Hge|_].
  { unfold TSDiff.leaf_count in Hge. rewrite (ti_leaf_count d h Hi) in Hge. lia. }
  cbn [orb mret stateful_ret]. rewrite (filtered_direct_path_levels d h s) by (done || apply Hi). cbn [returns].
  assert (length nodes = length plain) as Hln by (by rewrite <- (length_fmap public_key), Hk, length_fmap).
  rewrite Hln, Elen, Nat.eqb_refl. cbn [negb].
  rewrite (list_fmap_compose public_key ParentNode_from), Hk, Epk, <- Epath, Ep, Hph. cbn [ok_or].
  rewrite bool_decide_true by done. done.
Qed.

Lemma decrypt_encrypt `{!LawfulHpke} sec cs pk sk ikm ctx ct :
  derive_hpke_keypair_op (Suite.hpke_config cs) ikm = Ok (pk, sk) ->
  PathSecret.encrypt sec cs pk ctx = Ok ct -> PathSecret.decrypt cs ct sk ctx = Ok sec.
Proof.
  intros Hkp E. unfold PathSecret.encrypt, PathSecret.decrypt, PathSecret.EncryptionKey_encrypt, PathSecret.EncryptionPrivateKey_decrypt in *.
  apply map_err_Ok in E. by rewrite (decrypt_with_label_Ok _ _ _ _ _ _ _ _ Hkp E).
Qed.

Lemma keys_match_own (nodes : list UpdatePathNode) (indices : list ParentNodeIndex.t) (keys : list bytes) :
  public_key <$> nodes = keys -> length indices = length keys ->
  Kem.keys_match nodes (zip indices (ParentNode_from <$> keys)) = true.
Proof.
  intros <-. unfold Kem.keys_match. rewrite length_fmap. revert indices.
  induction nodes as [|n nodes IH]; intros [|i indices] Hl; try done. cbn. rewrite bool_decide_true by done.
  apply IH. by injection Hl.
Qed.

(** The receiver's private keys: one for each key that the tree expects of it,
    each from a derived pair. *)
Definition owns_path_keys d (cs : Ciphersuite) (r : LeafNodeIndex.t) (owned : list (bytes * bytes)) : Prop :=
  (forall keys pk, TSDiff.encryption_keys d r = Some keys -> pk ∈ keys -> exists sk, (pk, sk) ∈ owned) /\
  (forall pk sk, (pk, sk) ∈ owned -> exists ikm, derive_hpke_keypair_op (Suite.hpke_config cs) ikm = Ok (pk, sk)).

Lemma own_copath_key d d' h s r m cs leaf hash sec path plain keypairs commit_secret excl owned e :
  ts_inv d h -> 0 <= s < 2 ^ h -> is_Some (Diff.leaf d r) -> 1 <= m <= h ->
  own_applied d d' h s cs leaf hash sec path plain keypairs commit_secret -> owns_path_keys d cs r owned ->
  e ∈ copath_res d' excl s (m - 1) -> covers e r -> exists sk, (TSDiff.node_encryption_key e.2, sk) ∈ owned.
Proof.
  intros Hi Hs Hr Hm Ho [Hown _] He Hc.
  rewrite (copath_res_off_path d d' h) in He by (done || lia || apply Ho).
  apply (res_entries h) in He; [|rewrite Z2Nat.id by lia; apply copath_node_in_tree; lia].
  destruct (covered_key d h r e Hi Hr He Hc) as (keys & Ek & Hk). by apply (Hown keys).
Qed.

Lemma decrypt_own_path `{!LawfulHpke} d d' h s r cs leaf hash sec path plain keypairs commit_secret excl ctx nodes owned m :
  ts_inv d h -> is_Some (Diff.leaf d s) -> is_Some (Diff.leaf d r) -> s <> r -> r ∉ excl -> meet s r m ->
  own_applied d d' h s cs leaf hash sec path plain keypairs commit_secret -> owns_path_keys d cs r owned ->
  Kem.encrypt_path d' cs plain ctx excl s = Ok nodes ->
  Kem.decrypt_path d' cs (Kem.mkDecryptPathParams nodes s excl ctx) owned r
    = Ok (drop (length (levels_below d' s m)) keypairs, commit_secret).
Proof.
  intros Hi Hs Hr Hne Hex Hm Ho Hown Henc. pose proof Ho as [Hpath _ Hi' Hleaf Hlf Hpr _ _].
  destruct (full_in_range d h s Hi Hs) as [Hsr _]. destruct (full_in_range d h r Hi Hr) as [Hrr _].
  pose proof (ti_h d h Hi) as Hh. pose proof (meet_bounds h s r m Hsr Hrr ltac:(lia) Hne Hm) as Hmb.
  assert (is_Some (Diff.leaf d' r)) as Hr' by (by rewrite Hlf by done).
  rewrite <- (filtered_levels_off_path d d' h s) in Hpath by done.
  destruct (plain_public_keys _ _ _ _ _ _ _ Hpath) as (Epk & Elen & Epath). rewrite length_fmap in Elen.
  destruct (encrypt_path_Ok d' h cs plain ctx excl s nodes Hi' Hsr Elen Henc) as [Hpub Hct].
  pose proof (filtered_levels_split d' h s r m Hi' Hsr Hr' Hne Hm) as Hsplit.
  set (i := length (levels_below d' s m)) in *.
  assert (filtered_levels d' h s !! i = Some (m - 1)) as Hlev by (rewrite Hsplit; by apply list_lookup_middle).
  destruct (lookup_lt_is_Some_2 plain i) as (p & Hp); [rewrite Elen; by apply lookup_lt_Some in Hlev|].
  destruct (Hct i (m - 1) p Hlev Hp) as (node & Hnode & Hcts). clear Hct.
  destruct (decryption_key_found d' h s r m excl owned) as (sk & pos & pk & Ekey & Hpk & Hin); try done.
  { intros e He Hc. by apply (own_copath_key d d' h s r m cs leaf hash sec path plain keypairs commit_secret excl). }
  destruct (Forall2_lookup_l _ _ _ _ _ Hcts Hpk) as (ct & Hctpos & Henc1).
  destruct Hown as [_ Hder]. destruct (Hder pk sk Hin) as (ikm & Hikm).
  unfold Kem.decrypt_path. cbv zeta. cbn [Kem.params_sender_leaf_index Kem.params_update_path Kem.params_exclusion_list Kem.params_group_context].
  rewrite (subtree_root_position_eq d' h s r m) by done. fold i. cbn [map_err]. rewrite ok_bind, Hnode. cbn [ok_or].
  rewrite ok_bind, Ekey. cbn [map_err]. rewrite ok_bind, Hctpos. cbn [ok_or].
  rewrite ok_bind, (decrypt_encrypt _ _ _ _ _ _ _ Hikm Henc1). cbn [map_err].
  rewrite ok_bind, (common_path_eq d' h s r m) by done. rewrite returns_bind.
  assert (path_node s <$> m - 1 :: levels_above d' h s m = drop i (path_node s <$> filtered_levels d' h s)) as ->.
  { rewrite Hsplit, <- fmap_drop. unfold i. by rewrite drop_app_length. }
  rewrite (derive_path_drop cs sec _ path plain keypairs commit_secret i p Hpath Hp). cbn [map_err].
  rewrite ok_bind, Epath. rewrite zip_with_drop, <- (fmap_drop ParentNode_from), keys_match_own; [done| |].
  - by rewrite fmap_drop, Hpub, Epk.
  - rewrite !length_drop, <- Epk, !length_fmap, Elen. done.
Qed.

(** Whoever applies the path of [s] to the tree reaches the tree of [s]. *)
Lemma received_agrees d d' h cs s random placeholder new_leaf override plain keypairs commit_secret ctx excl nodes :
  ts_inv d h -> is_Some (Diff.leaf d s) ->
  (forall hash leaf kp, new_leaf hash = Ok (leaf, kp) -> leaf_parent_hash leaf = Some hash) ->
  Kem.apply_own_update_path random cs Member s placeholder new_leaf override d
    = (Ok (plain, keypairs, commit_secret), d') ->
  Kem.encrypt_path d' cs plain ctx excl s = Ok nodes ->
  exists leaf, Diff.leaf d' s = Some leaf /\ Kem.apply_received_update_path cs s (mkUpdatePath leaf nodes) d = (Ok tt, d').
Proof.
  intros Hi Hs Hph Happ Henc.
  destruct (own_update_applied _ _ _ _ _ _ _ _ _ _ _ _ Hi Hs Happ) as (leaf & hash & kp & sec & path & pkp & Hnl & -> & Ho).
  destruct (full_in_range d h s Hi Hs) as [Hsr _]. pose proof Ho as [Hpath _ Hi' Hleaf Hlf Hpr _ _].
  rewrite <- (filtered_levels_off_path d d' h s) in Hpath by done.
  destruct (plain_public_keys _ _ _ _ _ _ _ Hpath) as (Epk & Elen & _). rewrite length_fmap in Elen.
  destruct (encrypt_path_Ok d' h cs plain ctx excl s nodes Hi' Hsr Elen Henc) as [Hpub _].
  exists leaf. split; [done|]. by eapply received_applies; [..|by apply (Hph hash leaf kp)].
Qed.

(** [update_path_agreement] for any tree that satisfies the invariant. *)
Lemma path_agreement `{!LawfulHpke} d d' h cs s r random placeholder new_leaf override
    plain keypairs commit_secret ctx excl nodes owned :
  ts_inv d h -> is_Some (Diff.leaf d s) -> is_Some (Diff.leaf d r) -> s <> r -> r ∉ excl ->
  (forall hash leaf kp, new_leaf hash = Ok (leaf, kp) -> leaf_parent_hash leaf = Some hash) ->
  owns_path_keys d cs r owned ->
  Kem.apply_own_update_path random cs Member s placeholder new_leaf override d
    = (Ok (plain, keypairs, commit_secret), d') ->
  Kem.encrypt_path d' cs plain ctx excl s = Ok nodes ->
  exists leaf common keypairs_r,
    Diff.leaf d' s = Some leaf /\
    Kem.apply_received_update_path cs s (mkUpdatePath leaf nodes) d = (Ok tt, d') /\
    Kem.decrypt_path d' cs (Kem.mkDecryptPathParams nodes s excl ctx) owned r = Ok (keypairs_r, commit_secret) /\
    TSDiff.filtered_common_direct_path d' r s = Some common /\
    suffix keypairs_r keypairs /\
    Forall2 (fun p kp => exists node, Diff.parent d' p = Some node /\ encryption_key node = kp.1) common keypairs_r.
Proof.
  intros Hi Hs Hr Hne Hex Hph Hown Happ Henc.
  destruct (own_update_applied _ _ _ _ _ _ _ _ _ _ _ _ Hi Hs Happ)
    as (leaf & hash & kp & sec & path & pkp & Hnl & -> & Ho).
  destruct (full_in_range d h s Hi Hs) as [Hsr _]. destruct (full_in_range d h r Hi Hr) as [Hrr _].
  destruct (meet_exists h s r) as [m Hm]; [pose proof (ti_h d h Hi); lia|done..|].
  pose proof Ho as [Hpath _ Hi' Hleaf Hlf Hpr _ Hnodes].
  assert (is_Some (Diff.leaf d' r)) as Hr' by (by rewrite Hlf by done).
  rewrite <- (filtered_levels_off_path d d' h s) in Hpath, Hnodes by done.
  destruct (plain_public_keys _ _ _ _ _ _ _ Hpath) as (Epk & Elen & _). rewrite length_fmap in Elen.
  destruct (encrypt_path_Ok d' h cs plain ctx excl s nodes Hi' Hsr Elen Henc) as [Hpub _].
  eexists leaf, _, _. split; [done|]. split; [by eapply received_applies; [..|by apply (Hph hash leaf kp)]|].
  split; [by apply (decrypt_own_path d d' h s r cs leaf hash sec path plain pkp commit_secret excl ctx nodes owned m)|]. split; [by apply (common_path_eq d' h)|]. split.
  - exists (kp :: take (length (levels_below d' s m)) pkp). cbn. by rewrite take_drop.
  - rewrite (filtered_levels_split d' h s r m), fmap_app in Hnodes by done.
    apply (Forall2_drop _ _ _ (length (path_node s <$> levels_below d' s m))) in Hnodes.
    rewrite drop_app_length, length_fmap, <- fmap_drop in Hnodes. apply (Forall2_fmap_r fst) in Hnodes.
    eapply Forall2_impl; [exact Hnodes|]. intros p kp' (node & Hp & Hk & _). eauto.
Qed.

(** C15. A commit brings the sender and every other member to the same state. In any
    tree a group can reach, take a member [s] that applies its own update path and
    encrypts it, and another member [r] that is not excluded (not just added) and
    holds the private keys that the tree expects of it. Then [r] accepts the path,
    ends with the tree of [s], finds its ciphertext and decrypts it, derives the
    commit secret of [s], and gets exactly the key pairs of the nodes that are on
    both filtered paths. *)
Theorem update_path_agreement `{!LawfulHpke} d d' cs s r random placeholder new_leaf override
    plain keypairs commit_secret ctx excl nodes owned :
  reachable d -> is_Some (Diff.leaf d s) -> is_Some (Diff.leaf d r) -> s <> r -> r ∉ excl ->
  (forall hash leaf kp, new_leaf hash = Ok (leaf, kp) -> leaf_parent_hash leaf = Some hash) ->
  owns_path_keys d cs r owned ->
  Kem.apply_own_update_path random cs Member s placeholder new_leaf override d
    = (Ok (plain, keypairs, commit_secret), d') ->
  Kem.encrypt_path d' cs plain ctx excl s = Ok nodes ->
  exists leaf common keypairs_r,
    Diff.leaf d' s = Some leaf /\
    Kem.apply_received_update_path cs s (mkUpdatePath leaf nodes) d = (Ok tt, d') /\
    Kem.decrypt_path d' cs (Kem.mkDecryptPathParams nodes s excl ctx) owned r = Ok (keypairs_r, commit_secret) /\
    TSDiff.filtered_common_direct_path d' r s = Some common /\
    suffix keypairs_r keypairs /\
    Forall2 (fun p kp => exists node, Diff.parent d' p = Some node /\ encryption_key node = kp.1) common keypairs_r.
Proof. intros (h & Hi)%reachable_inv. by apply (path_agreement d d' h). Qed.
End Agreement.
