(* ===== verification/LeafNodeFacts.v ===== *)
(** * Leaf nodes: building, signing and accepting

    A leaf built for a group is one that the group's members accept, and its signature
    verifies at its place in the tree. *)
From S2P Require Import Prelude TreeMath BinaryTree Crypto CryptoFacts Extensions TreeSync LeafNode TreeKem Proposals ProposalStore PublicGroup.

Lemma existsb_false {A} (f : A -> bool) l : existsb f l = false <-> forall x, x ∈ l -> f x = false.
Proof.
  rewrite <- not_true_iff_false, existsb_exists. split.
  - intros H x Hx. apply not_true_iff_false. intros E. apply H. exists x. by rewrite <- list_elem_of_In.
  - intros H (x & Hx & E). apply list_elem_of_In in Hx. by rewrite H in E.
Qed.

(** ** Building *)

(** What [enforce_capabilities] guarantees of its result [p'], for the payload [p]. *)
Record enforced (p p' : LeafNodePayload) (cs : Ciphersuite) (version : ProtocolVersion.t) (constraints : LeafNodeConstraints) :
    Prop := {
  en_key : payload_encryption_key p' = payload_encryption_key p;
  en_signature_key : payload_signature_key p' = payload_signature_key p;
  en_credential : payload_credential p' = payload_credential p;
  en_source : payload_source p' = payload_source p;
  en_extensions : payload_extensions p' = payload_extensions p;
  en_valid : LNode.validate_locally p' = Ok tt;
  en_ciphersuite : Caps.contains_ciphersuite (payload_capabilities p') (Suite.to_u16 cs) = true;
  en_version : Caps.contains_version (payload_capabilities p') version = true;
  en_constraints : Constraints.check constraints (payload_capabilities p') (credential_type (payload_credential p')) = Ok tt;
}.

Lemma ensure_version_contains c v : Caps.contains_version (Caps.ensure_version c v) v = true.
Proof.
  unfold Caps.ensure_version. destruct (Caps.contains_version c v) eqn:E; [done|].
  apply bool_decide_eq_true. cbn. apply elem_of_app. right. by constructor.
Qed.

Lemma enforce_capabilities_Ok p p' cs version constraints policy :
  enforce_capabilities p cs version constraints policy = Ok p' -> enforced p p' cs version constraints.
Proof.
  unfold enforce_capabilities. intros E. apply bind_Ok in E as ([] & Hv & E).
  destruct (Caps.contains_ciphersuite _ _) eqn:Ec; [|done]. cbn [negb] in E. apply bind_Ok in E as ([] & Hc & [= <-]).
  destruct policy; split; try done; apply ensure_version_contains.
Qed.

Section Leaves.
Context {OC : OpenMlsCrypto} {TC : TlsCodec}.

Lemma new_with_parent_hash_enforced random cs hash params group_id leaf_index signer leaf keypair :
  new_with_parent_hash random cs hash params group_id leaf_index signer = Ok (leaf, keypair) ->
  exists p0 p signature, leaf = mkLeafNode p signature /\ payload_source p0 = SourceCommit hash /\
    payload_encryption_key p0 = keypair.1 /\ enforced p0 p cs ProtocolVersion.default (up_constraints params).
Proof.
  unfold new_with_parent_hash. intros E. apply bind_Ok in E as (kp & _ & E). apply bind_Ok in E as (tbs & Ht & E).
  apply bind_Ok in E as (leaf' & Hs & [= -> ->]). apply map_err_Ok in Ht, Hs.
  apply bind_Ok in Ht as (p' & Hp%enforce_capabilities_Ok & [= <-]). apply bind_Ok in Hs as (sg & _ & [= <-]).
  eexists _, p', sg. split; [done|]. split; [|split; [|exact Hp]]; done.
Qed.

Lemma new_with_parent_hash_Ok random cs hash params group_id leaf_index signer leaf keypair :
  new_with_parent_hash random cs hash params group_id leaf_index signer = Ok (leaf, keypair) ->
  LNode.parent_hash leaf = Some hash /\ payload_encryption_key (payload leaf) = keypair.1.
Proof.
  intros (p0 & p & sg & -> & Hs & Hk & He)%new_with_parent_hash_enforced.
  unfold LNode.parent_hash. cbn. by rewrite (en_source _ _ _ _ _ He), (en_key _ _ _ _ _ He), Hs.
Qed.

(** *** Accepted by the members *)
Implicit Types (g : PublicGroup).

Lemma add_member_fold members acc in_use all :
  foldl Constraints.add_member (in_use, acc) members = all ->
  (forall m, m ∈ members -> credential_type (payload_credential (payload m)) ∈ all.1) /\ in_use ⊆ all.1 /\
  (forall s c, all.2 = Some s -> c ∈ s -> (forall s0, acc = Some s0 -> c ∈ s0) /\
     forall m, m ∈ members -> c ∈ cap_credentials (payload_capabilities (payload m))) /\
  (acc <> None \/ members <> [] -> all.2 <> None).
Proof.
  revert in_use acc. induction members as [|m members IH]; intros in_use acc; cbn [foldl].
  - intros <-. cbn. split; [by intros m ?%not_elem_of_nil|]. split; [done|]. split; [|naive_solver].
    intros s c -> Hc. split; [by intros s0 [= <-]|by intros m ?%not_elem_of_nil].
  - intros E. apply IH in E as (H1 & H2 & H3 & H4). split; [|split; [|split]].
    + intros m' [->|Hm]%elem_of_cons; [|by apply H1]. apply H2. set_solver.
    + set_solver.
    + intros s c Es Hc. destruct (H3 s c Es Hc) as [Ha Hm]. specialize (Ha _ eq_refl).
      apply elem_of_filter in Ha as [Hsup Hall]. split.
      * intros s0 ->. done.
      * intros m' [->|Hm']%elem_of_cons; [done|by apply Hm].
    + intros _. apply H4. by left.
Qed.

(** A payload whose capabilities were enforced under the constraints of a group passes the
    validation of the group. *)
Lemma enforced_accepted g p0 p signature :
  PGroup.version g = ProtocolVersion.Mls10 ->
  PGroup.leaves g = [] \/ lc_credentials_supported_by_all (PGroup.leaf_node_constraints g) <> ∅ ->
  enforced p0 p (PGroup.ciphersuite g) ProtocolVersion.default (PGroup.leaf_node_constraints g) ->
  PGroup.validate_leaf_node_capabilities g (mkLeafNode p signature) = Ok tt /\
  PGroup.supports_group_context_extensions g (mkLeafNode p signature) = true.
Proof.
  intros Hver Hsup [_ _ _ _ _ Hv Hc Hver' Hck]. unfold PGroup.leaf_node_constraints, Constraints.new in Hck, Hsup.
  destruct (foldl Constraints.add_member (∅, None) (PGroup.leaves g)) as [in_use all] eqn:Ef.
  destruct (add_member_fold _ _ _ _ Ef) as (Huse & _ & Hall & Hnone). cbn [fst snd] in *.
  unfold Constraints.check in Hck. apply bind_Ok in Hck as ([] & Hreq & Hck). cbn in Hreq, Hck, Hsup.
  destruct (existsb _ _) eqn:Hext in Hck; [done|]. rewrite existsb_false in Hext.
  destruct (negb _ && negb _) eqn:Hcred in Hck; [done|]. destruct (existsb _ _) eqn:Hin in Hck; [done|]. rewrite existsb_false in Hin.
  split.
  - unfold PGroup.validate_leaf_node_capabilities. cbn [payload]. rewrite Hv, ok_bind, Hver, Hc.
    change ProtocolVersion.default with ProtocolVersion.Mls10 in Hver'. rewrite Hver'. cbn [negb orb].
    assert (match Exts.required_capabilities (gc_extensions (pg_group_context g)) with
            | Some rc => Caps.supports_required_capabilities (payload_capabilities p) rc
            | None => Ok tt
            end = Ok tt) as ->.
    { destruct (Exts.required_capabilities _) as [rc|]; [|done]. cbn in Hreq. by apply bind_Ok in Hreq as ([] & -> & _). }
    rewrite ok_bind. rewrite (proj2 (forallb_forall _ _)); [cbn [negb]; rewrite (proj2 (forallb_forall _ _)); [done|]|].
    + intros m Hm%list_elem_of_In. apply negb_false_iff. apply (Hin (credential_type (payload_credential (payload m)))).
      by apply elem_of_elements, Huse.
    + intros m Hm%list_elem_of_In. apply bool_decide_eq_true.
      destruct all as [all|]; [|destruct Hnone; [right; by intros ?; rewrite H in Hm; apply not_elem_of_nil in Hm|done]].
      cbn in Hcred, Hsup. destruct Hsup as [H|Hne]; [rewrite H in Hm; by apply not_elem_of_nil in Hm|].
      rewrite (bool_decide_false (all = ∅)) in Hcred by done. cbn in Hcred. apply negb_false_iff, bool_decide_eq_true in Hcred.
      by apply (Hall all _ eq_refl Hcred).
  - apply forallb_forall. intros e He%list_elem_of_In. unfold LNode.supports_extension. cbn [payload].
    assert (Extension.extension_type e ∈ elements (∅ ∪ list_to_set (Extension.extension_type <$> gc_extensions (pg_group_context g)) : gset _)) as Hel.
    { apply elem_of_elements, elem_of_union. right. apply elem_of_list_to_set, list_elem_of_fmap. eauto. }
    specialize (Hext _ Hel). destruct (ExtensionType.is_default _); [done|]. cbn in Hext |- *. by apply negb_false_iff in Hext.
Qed.

(** C24. A leaf that is built under the constraints of a group passes the group's own
    validation: the members accept the capabilities, the credential and the extensions of
    every leaf that this library builds for the group, if some credential type is supported
    by all members (or there are no members). *)
Theorem built_leaf_accepted g cs key cwk capabilities source extensions tree_info policy tbs signature :
  cs = PGroup.ciphersuite g -> PGroup.version g = ProtocolVersion.Mls10 ->
  PGroup.leaves g = [] \/ lc_credentials_supported_by_all (PGroup.leaf_node_constraints g) <> ∅ ->
  LeafTbs.new cs key cwk capabilities source extensions tree_info (PGroup.leaf_node_constraints g) policy = Ok tbs ->
  PGroup.validate_leaf_node_capabilities g (mkLeafNode (tbs_payload tbs) signature) = Ok tt /\
  PGroup.supports_group_context_extensions g (mkLeafNode (tbs_payload tbs) signature) = true.
Proof.
  intros -> Hver Hsup E. unfold LeafTbs.new in E. apply bind_Ok in E as (p & Hp%enforce_capabilities_Ok & [= <-]).
  by eapply enforced_accepted.
Qed.
End Leaves.
