(* ===== verification/ValidationFacts.v ===== *)
(** * Validation of the proposals of a commit

    What the checks of a public group accept, and where the proposals of an accepted
    commit come from. *)
From S2P Require Import Prelude TreeMath TreeMathFacts BinaryTree BinaryTreeFacts Crypto Extensions TreeSync LeafNode TreeKem.
From S2P Require Import Proposals ProposalStore ProposalStoreFacts PublicGroup StagedCommit.
From S2P Require Import TreeSyncFacts TreeSyncDiffFacts TreeKemFacts TreeStateFacts.

Lemma try_fold_ext {E A S} (f g : S -> A -> result E S) l s :
  (forall s a, f s a = g s a) -> try_fold f l s = try_fold g l s.
Proof. intros H. revert s. induction l as [|a l IH]; intros s; cbn; [done|]. rewrite H. destruct (g s a); cbn; auto. Qed.

(** A loop of checks passes when every check does. *)
Lemma try_fold_Forall {E A} (f : A -> result E unit) l :
  try_fold (fun _ a => f a) l tt = Ok tt <-> Forall (fun a => f a = Ok tt) l.
Proof.
  induction l as [|a l IH]; cbn; [split; [constructor|done]|]. rewrite Forall_cons. split.
  - intros E1. inv_ok. destruct a0. by rewrite IH in E1.
  - intros [-> H]. by apply IH.
Qed.

(** Inserting keys that must be new. *)
Lemma insert_new_fold {E} (e : E) (ks : list bytes) (s s' : gset bytes) :
  try_fold (insert_new e) ks s = Ok s' <-> NoDup ks /\ (forall k, k ∈ ks -> k ∉ s) /\ s' = list_to_set ks ∪ s.
Proof.
  revert s. induction ks as [|k ks IH]; intros s; cbn [try_fold].
  - rewrite list_to_set_nil, (left_id_L ∅ (∪)). split; [|by intros (_ & _ & ->)].
    intros [= <-]. split; [constructor|]. split; [|done]. intros k Hk. by apply not_elem_of_nil in Hk.
  - rewrite NoDup_cons, list_to_set_cons. unfold insert_new at 2. case_bool_decide as Hk; cbn [mbind result_bind].
    + split; [done|]. intros (_ & H & _). destruct (H k); [by constructor|done].
    + rewrite IH. split.
      * intros (Hn & Hd & ->). split; [split; [intros Hin; specialize (Hd k Hin); set_solver|done]|].
        split; [|set_solver]. intros k' [->|Hk']%elem_of_cons; [done|]. specialize (Hd k' Hk'). set_solver.
      * intros ([Hnk Hn] & Hd & ->). split; [done|]. split; [|set_solver]. intros k' Hk'.
        specialize (Hd k' ltac:(by constructor)). assert (k' <> k) by (by intros ->). set_solver.
Qed.

(** The same with a set of keys that must not occur at all. *)
Lemma guarded_insert_fold {E} (e0 e : E) (taken : gset bytes) (ks : list bytes) (s s' : gset bytes) :
  try_fold (fun s k => if bool_decide (k ∈ taken) then Err e0 else insert_new e s k) ks s = Ok s' <->
  (forall k, k ∈ ks -> k ∉ taken) /\ try_fold (insert_new e) ks s = Ok s'.
Proof.
  revert s. induction ks as [|k ks IH]; intros s; cbn [try_fold].
  - split; [intros E1; split; [by intros k ?%not_elem_of_nil|done]|by intros [_ ?]].
  - case_bool_decide as Hk; cbn [mbind result_bind].
    + split; [done|]. intros [H _]. destruct (H k); [by constructor|done].
    + split.
      * intros E1. apply bind_Ok in E1 as (s1 & E1 & E2). apply IH in E2 as [Hd E2]. split.
        { intros k' [->|Hk']%elem_of_cons; [done|by apply Hd]. }
        by rewrite E1.
      * intros [Hd E1]. apply bind_Ok in E1 as (s1 & E1 & E2). rewrite E1. cbn. apply IH. split; [|done].
        intros k' Hk'. apply Hd. by constructor.
Qed.

Section Keys.
Context {OC : OpenMlsCrypto} {TC : TlsCodec}.
Implicit Types (g : PublicGroup) (q : ProposalQueue).

(** The members that the commit does not remove. *)
Definition kept_members g q : list GroupMember :=
  filter (fun m => member_index m ∉ PGroup.removed_members q) (full_leaf_members (pg_treesync g)).

Definition added_leaves q : list LeafNode := key_package_leaf <$> (Queue.add_proposals q).*1.

Definition leaf_key (leaf : LeafNode) : bytes := payload_encryption_key (payload leaf).
Definition leaf_signature_key (leaf : LeafNode) : bytes := payload_signature_key (payload leaf).

(** The encryption keys a commit brings: of added and updated leaves and of the path. *)
Definition path_keys (commit : option Commit) : list bytes :=
  match commit ≫= commit_path with
  | Some p => leaf_key (update_leaf_node p) :: (public_key <$> update_nodes p)
  | None => []
  end.

Definition fresh_keys q (commit : option Commit) : list bytes :=
  (leaf_key <$> added_leaves q) ++ (leaf_key <$> (Queue.update_proposals q).*1) ++ path_keys commit.

Definition fresh_signature_keys q (path_key : option bytes) : list bytes :=
  (leaf_signature_key <$> added_leaves q) ++ option_list path_key.

(** Key uniqueness is checked exactly: a commit passes if and only if the signature
    keys of the added leaves and of the path leaf are distinct and not those of a member
    that stays (the committer's replaced leaf aside), the encryption keys of the added
    leaves, the updated leaves and the path are distinct and not those of a member that
    stays, and the init keys are distinct and different from all those encryption keys. *)
Lemma key_uniqueness_Ok g q commit sender path_key :
  PGroup.validate_key_uniqueness g q commit sender path_key = Ok tt <->
  (NoDup (fresh_signature_keys q path_key) /\
   forall m, m ∈ kept_members g q -> (path_key ≫= fun _ => Sender.as_member sender) <> Some (member_index m) ->
     member_signature_key m ∉ fresh_signature_keys q path_key) /\
  (NoDup (fresh_keys q commit) /\ forall m, m ∈ kept_members g q -> member_encryption_key m ∉ fresh_keys q commit) /\
  NoDup ((fun kp => kp_init_key (kp_payload kp)) <$> (Queue.add_proposals q).*1) /\
  forall kp, kp ∈ (Queue.add_proposals q).*1 ->
    kp_init_key (kp_payload kp) ∉ fresh_keys q commit /\
    forall m, m ∈ kept_members g q -> member_encryption_key m <> kp_init_key (kp_payload kp).
Proof.
  unfold PGroup.validate_key_uniqueness. cbv zeta. fold (kept_members g q).
  set (sigs := list_to_set (member_signature_key <$> _) : gset bytes).
  set (encs := list_to_set (member_encryption_key <$> _) : gset bytes).
  assert (forall k, k ∈ encs <-> exists m, m ∈ kept_members g q /\ member_encryption_key m = k) as Hencs.
  { intros k. unfold encs. rewrite elem_of_list_to_set, list_elem_of_fmap. naive_solver. }
  assert (forall k, k ∈ sigs <-> exists m, m ∈ kept_members g q /\
    (path_key ≫= fun _ => Sender.as_member sender) <> Some (member_index m) /\ member_signature_key m = k) as Hsigs.
  { intros k. unfold sigs. rewrite elem_of_list_to_set, list_elem_of_fmap. split.
    - intros (m & -> & Hm). apply list_elem_of_filter in Hm as [Hne Hm]. by exists m.
    - intros (m & Hm & Hne & <-). exists m. split; [done|]. by apply list_elem_of_filter. }
  set (kps := (fun '(key_package, _) => key_package) <$> Queue.add_proposals q).
  change (Queue.add_proposals q).*1 with kps.
  assert (((fun kp => payload_signature_key (payload (key_package_leaf kp))) <$> kps) ++ option_list path_key
    = fresh_signature_keys q path_key) as ->.
  { unfold fresh_signature_keys, added_leaves. by rewrite <- list_fmap_compose. }
  match goal with |- context [try_fold _ ?l encs] => assert (l = fresh_keys q commit) as -> end.
  { unfold fresh_keys, added_leaves, path_keys. unfold kps. rewrite <- !list_fmap_compose.
    do 2 f_equal; [apply list_fmap_ext; by intros _ [? ?] _|by destruct (commit ≫= commit_path)]. }
  rewrite (try_fold_ext _ (insert_new DuplicateEncryptionKey) _ encs)
    by (intros s k; by rewrite bool_decide_false by (apply not_elem_of_empty)).
  split.
  - intros E. apply bind_Ok in E as (s1 & E1 & E). apply bind_Ok in E as (s2 & E2 & E). apply bind_Ok in E as (s3 & E3 & _).
    apply insert_new_fold in E1 as (Hn1 & Hd1 & _).
    apply insert_new_fold in E2 as (Hn2 & Hd2 & ->). apply guarded_insert_fold in E3 as [Hd3 E3].
    apply insert_new_fold in E3 as (Hn3 & _ & _). split; [|split; [|split]]; try done.
    + split; [done|]. intros m Hm Hne Hin. apply (Hd1 _ Hin), Hsigs. eauto.
    + split; [done|]. intros m Hm Hin. apply (Hd2 _ Hin), Hencs. eauto.
    + intros kp Hkp. pose proof (Hd3 _ (list_elem_of_fmap_2 _ _ _ Hkp)) as Hd. rewrite elem_of_union, elem_of_list_to_set in Hd.
      split; [tauto|]. intros m Hm Ek. apply Hd. right. apply Hencs. eauto.
  - intros ((Hn1 & Hd1) & (Hn2 & Hd2) & Hn3 & Hd3).
    assert (forall k, k ∈ fresh_signature_keys q path_key -> k ∉ sigs) as Hs1 by (intros k Hk (m & Hm & Hne & <-)%Hsigs; by apply (Hd1 m)).
    assert (forall k, k ∈ fresh_keys q commit -> k ∉ encs) as Hs2 by (intros k Hk (m & Hm & <-)%Hencs; by apply (Hd2 m)).
    rewrite (proj2 (insert_new_fold DuplicateSignatureKey _ sigs _)) by done. rewrite ok_bind.
    rewrite (proj2 (insert_new_fold DuplicateEncryptionKey _ encs _)) by done. rewrite ok_bind.
    rewrite (proj2 (guarded_insert_fold InitEncryptionKeyCollision DuplicateInitKey _ _ ∅
      (list_to_set ((fun kp => kp_init_key (kp_payload kp)) <$> kps) ∪ ∅))); [done|].
    split; [|by apply insert_new_fold; split; [done|split; [set_solver|done]]].
    intros k (kp & -> & Hkp)%list_elem_of_fmap. destruct (Hd3 kp Hkp) as [H1 H2]. rewrite elem_of_union, elem_of_list_to_set.
    intros [Hk|(m & Hm & Ek)%Hencs]; [done|]. by apply (H2 m).
Qed.
End Keys.
