(* ===== verification/ApplyProposalsFacts.v ===== *)
(** * Applying the proposals of a commit

    The four phases of [apply_proposals] (updates, removes, adds, trimming) and the tree
    they leave behind. *)
From S2P Require Import Prelude TreeMath TreeMathFacts BinaryTree BinaryTreeFacts Crypto Extensions TreeSync LeafNode TreeKem.
From S2P Require Import Proposals ProposalStore ProposalStoreFacts PublicGroup StagedCommit.
From S2P Require Import TreeSyncFacts TreeSyncDiffFacts TreeKemFacts TreeStateFacts.

(** What a proposal does to the tree. *)
Definition update_of (p : QueuedProposal) : option (LeafNodeIndex.t * LeafNode) :=
  match qp_proposal p, qp_sender p with
  | Proposal.Update leaf, Sender.Member i => Some (i, leaf)
  | _, _ => None
  end.

Definition removal_of (p : QueuedProposal) : option LeafNodeIndex.t :=
  match qp_proposal p, qp_sender p with
  | Proposal.Remove i, _ => Some i
  | Proposal.SelfRemove, Sender.Member i => Some i
  | _, _ => None
  end.

Definition addition_of (p : QueuedProposal) : option KeyPackage :=
  match qp_proposal p with Proposal.Add kp => Some kp | _ => None end.

(** The last update of a leaf. *)
Definition updated (ps : list QueuedProposal) (i : LeafNodeIndex.t) : option LeafNode :=
  last (filter (fun u => u.1 = i) (omap update_of ps)).*2.

Definition removed (ps : list QueuedProposal) : list LeafNodeIndex.t := omap removal_of ps.

Lemma omap_filter_all {A B} (f : A -> option B) (P : A -> Prop) `{forall x, Decision (P x)} (l : list A) :
  (forall x y, f x = Some y -> P x) -> omap f (filter P l) = omap f l.
Proof.
  intros Hf. induction l as [|x l IH]; [done|]. rewrite filter_cons, omap_cons. case_decide as Hx.
  - by rewrite omap_cons, IH.
  - destruct (f x) as [y|] eqn:E; [|done]. by apply Hf in E.
Qed.

Section Phases.
Context {OC : OpenMlsCrypto} {TC : TlsCodec}.
Implicit Types (d : TreeSyncDiff LeafNode) (s : PublicGroupDiff).

(** A leaf that [update_leaf] and [blank_leaf] may write: in the tree, with no gap of
    never written leaves before it. *)
Definition addressable d (h l : Z) : Prop := 0 <= l < 2 ^ h /\ forall i, 0 <= i < l -> listed d i.

Lemma addressable_full d h l : ts_inv d h -> is_Some (Diff.leaf d l) -> addressable d h l.
Proof. intros Hi Hs. destruct (full_in_range d h l Hi Hs) as [Hr Hl]. split; [done|]. by apply (listed_prefix d h). Qed.

(** [d'] results from writing leaves of [d] and blanking paths. *)
Record rewritten d d' (h : Z) (lf : Z -> option LeafNode) : Prop := {
  rw_inv : ts_inv d' h;
  rw_original : original_tree d' = original_tree d;
  rw_leaf : forall i, Diff.leaf d' i = lf i;
  rw_listed : forall i, listed d i -> listed d' i;
}.

Lemma rewritten_addressable d d' h lf l : rewritten d d' h lf -> addressable d h l -> addressable d' h l.
Proof. intros Hr [Hl H]. split; [done|]. intros i Hi. by apply (rw_listed _ _ _ _ Hr), H. Qed.

Lemma write_leaf d h l x :
  ts_inv d h -> addressable d h l ->
  exists d', Diff.set_direct_path_to_node (Diff.replace_leaf d l x) l None = Some d' /\
    rewritten d d' h (fun i => if decide (i = l) then x else Diff.leaf d i).
Proof.
  intros Hi [Hl Hp]. destruct (leaf_path_spec d h l x Hi Hl Hp) as (d' & E & Hi' & Hlf & _ & Hlist).
  exists d'. split; [done|]. split; [done|by eapply original_leaf_path|done|done].
Qed.

Lemma diff_update_Some {E} f s d' : f (pgd_diff s) = Some d' ->
  PGDiff.diff_update (E := E) f s = (Ok tt, PGDiff.set_diff s d').
Proof. intros Hf. unfold PGDiff.diff_update, PGDiff.on_diff, updating. rewrite Hf. done. Qed.

Lemma set_diff_twice s d d' : PGDiff.set_diff (PGDiff.set_diff s d) d' = PGDiff.set_diff s d'.
Proof. done. Qed.

Lemma updated_cons p ps i :
  updated (p :: ps) i = match updated ps i with
                        | Some x => Some x
                        | None => match update_of p with Some (j, x) => if decide (i = j) then Some x else None | None => None end
                        end.
Proof.
  unfold updated. rewrite omap_cons. destruct (update_of p) as [[j x]|]; [|by destruct (last _)].
  rewrite filter_cons. destruct (decide ((j, x).1 = i)) as [Ej|Ej]; cbn in Ej.
  - rewrite fmap_cons, last_cons. rewrite decide_True by done. by destruct (last _).
  - rewrite decide_False by congruence. by destruct (last _).
Qed.

(** Updates, each from a member. *)
Lemma updates_phase us s h :
  ts_inv (pgd_diff s) h ->
  Forall (fun p => exists l leaf, update_of p = Some (l, leaf) /\ addressable (pgd_diff s) h l) us ->
  exists d', for_each PGDiff.apply_update us s = (Ok tt, PGDiff.set_diff s d') /\
    rewritten (pgd_diff s) d' h (fun i => match updated us i with Some x => Some x | None => Diff.leaf (pgd_diff s) i end).
Proof.
  revert s. induction us as [|p us IH]; intros s Hi HF.
  - exists (pgd_diff s). split; [by destruct s|]. by split.
  - apply Forall_cons in HF as [(l & leaf & Hu & Hl) HF]. destruct (write_leaf _ h l (Some leaf) Hi Hl) as (d1 & E1 & H1).
    destruct (IH (PGDiff.set_diff s d1)) as (d' & E' & H').
    { apply H1. }
    { eapply Forall_impl; [exact HF|]. intros p' (l' & leaf' & Hu' & Hl'). exists l', leaf'. split; [done|]. by eapply rewritten_addressable. }
    exists d'. split.
    + cbn [for_each]. unfold mbind, stateful_bind. unfold update_of in Hu. unfold PGDiff.apply_update at 1.
      destruct (qp_proposal p); try done. destruct (qp_sender p); try done. injection Hu as -> ->.
      by rewrite (diff_update_Some _ _ d1 E1), E'.
    + destruct H1 as [_ Ho1 Hl1 Hli1], H' as [Hi' Ho' Hl' Hli']. cbn [pgd_diff PGDiff.set_diff] in *. split; [done|congruence| |auto].
      intros i. rewrite Hl', updated_cons, Hu. destruct (updated us i); [done|]. rewrite Hl1. by case_decide.
Qed.

Lemma removed_cons p rs l : removal_of p = Some l -> removed (p :: rs) = l :: removed rs.
Proof. intros Hp. unfold removed. by rewrite omap_cons, Hp. Qed.

(** The own leaf is among the removed ones. *)
Definition own_removed (own : option LeafNodeIndex.t) (rs : list QueuedProposal) : bool :=
  match own with Some l => bool_decide (l ∈ removed rs) | None => false end.

Lemma own_removed_cons own p rs l : removal_of p = Some l ->
  own_removed own (p :: rs) = bool_decide (own = Some l) || own_removed own rs.
Proof.
  intros Hp. unfold own_removed. rewrite (removed_cons p rs l Hp). destruct own as [o|]; [|by rewrite bool_decide_false].
  rewrite <- bool_decide_or. apply bool_decide_ext. rewrite elem_of_cons. naive_solver.
Qed.

(** Removes, each of a leaf of the tree. *)
Lemma removes_phase own rs s h b :
  ts_inv (pgd_diff s) h ->
  Forall (fun p => exists l, removal_of p = Some l /\ addressable (pgd_diff s) h l) rs ->
  exists d', PGDiff.apply_removes own b rs s = (Ok (b || own_removed own rs), PGDiff.set_diff s d') /\
    rewritten (pgd_diff s) d' h (fun i => if decide (i ∈ removed rs) then None else Diff.leaf (pgd_diff s) i).
Proof.
  revert s b. induction rs as [|p rs IH]; intros s b Hi HF.
  - exists (pgd_diff s). split; [by destruct s, own; cbn; rewrite orb_false_r|].
    split; [done|done| |done]. intros i. by rewrite decide_False by (apply not_elem_of_nil).
  - apply Forall_cons in HF as [(l & Hp & Hl) HF]. destruct (write_leaf _ h l None Hi Hl) as (d1 & E1 & H1).
    destruct (IH (PGDiff.set_diff s d1) (b || bool_decide (own = Some l))) as (d' & E' & H').
    { apply H1. }
    { eapply Forall_impl; [exact HF|]. intros p' (l' & Hp' & Hl'). exists l'. split; [done|]. by eapply rewritten_addressable. }
    exists d'. split.
    + cbn [PGDiff.apply_removes]. unfold mbind, stateful_bind. unfold lifting.
      assert (PGDiff.removed_leaf p = Ok (Some l)) as ->.
      { unfold removal_of in Hp. unfold PGDiff.removed_leaf. destruct (qp_proposal p), (qp_sender p); congruence. }
      rewrite (diff_update_Some _ _ d1 E1), E', (own_removed_cons own p rs l Hp). by rewrite orb_assoc.
    + destruct H1 as [_ Ho1 Hl1 Hli1], H' as [Hi' Ho' Hl' Hli']. cbn [pgd_diff PGDiff.set_diff] in *. split; [done|congruence| |auto].
      intros i. rewrite Hl', (removed_cons p rs l Hp).
      destruct (decide (i ∈ removed rs)) as [Hin|Hin]; [by rewrite decide_True by (by constructor)|]. rewrite Hl1.
      destruct (decide (i = l)) as [->|Hne]; [by rewrite decide_True by constructor|].
      rewrite decide_False; [done|]. by intros [?|?]%elem_of_cons.
Qed.

(** Adds, in order, each at the leftmost blank leaf. *)
Lemma adds_phase kps s h :
  ts_inv (pgd_diff s) h ->
  match PGDiff.apply_adds kps s with
  | (Ok inv, s') => exists d' h', s' = PGDiff.set_diff s d' /\ ts_inv d' h' /\ original_tree d' = original_tree (pgd_diff s) /\
      inv.*2 = kps /\ NoDup inv.*1 /\
      (forall l, l ∈ inv.*1 -> 0 <= l /\ Diff.leaf (pgd_diff s) l = None /\ forall i, 0 <= i < l -> is_Some (Diff.leaf d' i)) /\
      (forall i, Diff.leaf d' i = match (list_to_map inv : gmap Z KeyPackage) !! i with
                                  | Some kp => Some (key_package_leaf kp)
                                  | None => Diff.leaf (pgd_diff s) i
                                  end)
  | (Err e, _) => e = CustomError "Tree full: cannot add more members"
  | (Panic, _) => False
  end.
Proof.
  revert s h. induction kps as [|kp kps IH]; intros s h Hi.
  - cbn. exists (pgd_diff s), h. split; [by destruct s|]. do 3 (split; [done|]). split; [constructor|].
    split; [by intros l ?%not_elem_of_nil|]. intros i. by rewrite lookup_empty.
  - cbn [PGDiff.apply_adds]. unfold mbind at 1, stateful_bind at 1. unfold PGDiff.on_diff, Kem.with_err.
    destruct (add_leaf_spec (pgd_diff s) h (key_package_leaf kp) Hi) as (l & Hl & Hb & Hf & [(_ & _ & ->)|(d1 & h1 & E1 & _ & Hi1 & _ & Hlf & _)]); [done|].
    rewrite E1. cbn [map_err]. specialize (IH (PGDiff.set_diff s d1) h1 Hi1). unfold mbind, stateful_bind.
    destruct (PGDiff.apply_adds kps (PGDiff.set_diff s d1)) as [[inv|e|] s']; [|done..].
    destruct IH as (d' & h' & -> & Hi' & Ho & Ekps & Hn & Hinv & Hlf'). cbn in Ho, Hinv, Hlf'.
    cbn [mret stateful_ret]. exists d', h'. split; [done|]. split; [done|].
    assert (l ∉ inv.*1) as Hnl. { intros Hin. apply Hinv in Hin as (_ & Hin & _). by rewrite Hlf, decide_True in Hin. }
    split; [rewrite Ho; by eapply original_add|]. split; [cbn; by f_equal|]. split; [by apply NoDup_cons|].
    assert (forall i, is_Some (Diff.leaf d1 i) -> is_Some (Diff.leaf d' i)) as Hmono.
    { intros i Hs. rewrite Hlf'. destruct (_ !! i); [eauto|done]. }
    split.
    + intros l' [El|Hin]%elem_of_cons; [cbn in El; subst l'|].
      * split; [lia|]. split; [done|]. intros i Hr. apply Hmono. rewrite Hlf. case_decide; [eauto|by apply Hf].
      * destruct (Hinv l' Hin) as (Hpos & Hbl & Hfull). split; [done|]. split; [|done]. rewrite Hlf in Hbl. by case_decide.
    + intros i. rewrite Hlf', list_to_map_cons, lookup_insert. cbn [fst snd]. destruct (decide (l = i)) as [->|Hne].
      * rewrite (not_elem_of_list_to_map_1 inv i Hnl). by rewrite Hlf, decide_True.
      * destruct (_ !! i); [done|]. by rewrite Hlf, decide_False by congruence.
Qed.

(** ** The whole operation *)

(** Updates and SelfRemoves come from members, Removes name members. *)
Definition member_proposal (lf : Z -> option LeafNode) (p : QueuedProposal) : Prop :=
  match qp_proposal p with
  | Proposal.Update _ | Proposal.SelfRemove => exists i, qp_sender p = Sender.Member i /\ is_Some (lf i)
  | Proposal.Remove i => is_Some (lf i)
  | _ => True
  end.

(** The leaves after the updates and the removes. *)
Definition survivors (ps : list QueuedProposal) (lf : Z -> option LeafNode) (i : Z) : option LeafNode :=
  if decide (i ∈ removed ps) then None else match updated ps i with Some x => Some x | None => lf i end.

(** The tree after the proposals [ps], with the new members of [inv]. *)
Record applied d d' (h' : Z) (ps : list QueuedProposal) (inv : list (LeafNodeIndex.t * KeyPackage)) : Prop := {
  ap_inv : ts_inv d' h';
  ap_original : original_tree d' = original_tree d;
  ap_added : inv.*2 = omap addition_of ps;
  ap_NoDup : NoDup inv.*1;
  ap_leaf : forall i, Diff.leaf d' i = match (list_to_map inv : gmap Z KeyPackage) !! i with
                                       | Some kp => Some (key_package_leaf kp)
                                       | None => survivors ps (Diff.leaf d) i
                                       end;
  ap_leftmost : forall l, l ∈ inv.*1 -> survivors ps (Diff.leaf d) l = None /\
                  forall i, 0 <= i < l -> is_Some (Diff.leaf d' i);
  ap_trimmed : h' = 0 \/ exists i, 2 ^ (h' - 1) <= i /\ is_Some (Diff.leaf d' i);
}.

Lemma filtered_omap {B} (f : QueuedProposal -> option B) q t :
  (forall p y, f p = Some y -> Proposal.proposal_type (qp_proposal p) = t) ->
  omap f (Queue.filtered_by_type q t) = omap f (Queue.queued_proposals q).
Proof.
  intros Hf. rewrite filtered_by_type_spec. apply omap_filter_all. intros p y Hp.
  apply bool_decide_eq_true. by eapply Hf.
Qed.

Lemma removed_filtered q i :
  i ∈ removed (Queue.queued_proposals q) <->
  i ∈ removed (Queue.filtered_by_type q ProposalType.Remove) \/ i ∈ removed (Queue.filtered_by_type q ProposalType.SelfRemove).
Proof.
  unfold removed. rewrite !list_elem_of_omap. setoid_rewrite filtered_elem. split; [|naive_solver].
  intros (p & Hp & Er). unfold removal_of in Er. destruct (qp_proposal p) eqn:Ep; try done; [left|right]; exists p;
    (split; [split; [done|by rewrite Ep]|unfold removal_of; by rewrite Ep]).
Qed.

Lemma update_targets d h q :
  ts_inv d h -> Forall (member_proposal (Diff.leaf d)) (Queue.queued_proposals q) ->
  Forall (fun p => exists l leaf, update_of p = Some (l, leaf) /\ addressable d h l) (Queue.filtered_by_type q ProposalType.Update).
Proof.
  intros Hi HF. apply Forall_forall. intros p [Hp Ht]%filtered_elem. rewrite Forall_forall in HF. specialize (HF p Hp).
  unfold member_proposal in HF. unfold update_of. destruct (qp_proposal p) as [|leaf| | | | | | |]; try done.
  destruct HF as (i & -> & Hs). exists i, leaf. split; [done|]. by apply addressable_full.
Qed.

Lemma removal_targets d h q t :
  t = ProposalType.Remove \/ t = ProposalType.SelfRemove ->
  ts_inv d h -> Forall (member_proposal (Diff.leaf d)) (Queue.queued_proposals q) ->
  Forall (fun p => exists l, removal_of p = Some l /\ addressable d h l) (Queue.filtered_by_type q t).
Proof.
  intros Et Hi HF. apply Forall_forall. intros p [Hp Ht]%filtered_elem. rewrite Forall_forall in HF. specialize (HF p Hp).
  unfold member_proposal in HF. unfold removal_of.
  destruct (qp_proposal p) as [| |i| | | | | |]; destruct Et as [->| ->]; try done.
  - exists i. split; [done|]. by apply addressable_full.
  - destruct HF as (i & -> & Hs). exists i. split; [done|]. by apply addressable_full.
Qed.

Lemma updated_filtered q i :
  updated (Queue.filtered_by_type q ProposalType.Update) i = updated (Queue.queued_proposals q) i.
Proof.
  unfold updated. rewrite (filtered_omap update_of); [done|]. intros p y. unfold update_of. by destruct (qp_proposal p).
Qed.

Lemma trim_applied d0 d h ps inv :
  ts_inv d h -> original_tree d = original_tree d0 -> inv.*2 = omap addition_of ps -> NoDup inv.*1 ->
  (forall i, Diff.leaf d i = match (list_to_map inv : gmap Z KeyPackage) !! i with
                             | Some kp => Some (key_package_leaf kp)
                             | None => survivors ps (Diff.leaf d0) i
                             end) ->
  (forall l, l ∈ inv.*1 -> survivors ps (Diff.leaf d0) l = None /\ forall i, 0 <= i < l -> is_Some (Diff.leaf d i)) ->
  exists d' h', TSDiff.trim_tree d = Some d' /\ applied d0 d' h' ps inv.
Proof.
  intros Hi Ho Ha Hn Hlf Hleft. destruct (trim_tree_spec d h Hi) as (d' & h' & E & Hi' & Hle & Hfull & Hmin & Hl & _).
  assert (forall i, Diff.leaf d' i = Diff.leaf d i) as Hsame.
  { intros i. destruct (decide (0 <= i < 2 ^ h')) as [|Hr]; [by apply Hl|].
    rewrite leaf_unlisted; [|apply (ti_wf d' h' Hi')|rewrite (ti_leaf_count d' h' Hi'); tauto].
    destruct (Diff.leaf d i) as [x|] eqn:Ex; [|done]. exfalso.
    assert (is_Some (Diff.leaf d i)) as Hs by (rewrite Ex; eauto). pose proof (Hfull i Hs).
    destruct (full_in_range d h i Hi Hs). lia. }
  exists d', h'. split; [done|]. split; [done|rewrite <- Ho; by eapply original_trim|done|done| | |].
  - intros i. by rewrite Hsame.
  - intros l Hin. destruct (Hleft l Hin) as [Hb Hf]. split; [done|]. intros i Hr. rewrite Hsame. by apply Hf.
  - destruct Hmin as [->|(i & Hr & Hs)]; [by left|]. right. exists i. by rewrite Hsame.
Qed.

(** The values that the caller gets next to the list of new members. *)
Definition values_of (q : ProposalQueue) (own : option LeafNodeIndex.t) (inv : list (LeafNodeIndex.t * KeyPackage)) :
    ApplyProposalsValues :=
  let ps := Queue.queued_proposals q in
  mkApplyProposalsValues
    (existsb (fun p => Proposal.is_path_required (qp_proposal p)) ps || Queue.is_empty q)
    (own_removed own ps) inv (psk_ids ps)
    (head (omap (fun p => match qp_proposal p with Proposal.ExternalInit kem_output => Some kem_output | _ => None end) ps))
    (head (omap (fun p => match qp_proposal p with Proposal.GroupContextExtensions e => Some e | _ => None end) ps)).

Lemma head_omap {A B} (f : A -> option B) l :
  (forall x, x ∈ l -> is_Some (f x)) -> head l ≫= f = head (omap f l).
Proof.
  intros Hf. destruct l as [|x l]; [done|]. cbn [head mbind option_bind]. rewrite omap_cons.
  destruct (Hf x) as [y ->]; [by constructor|done].
Qed.

Lemma own_removed_filtered own q :
  own_removed own (Queue.filtered_by_type q ProposalType.Remove) || own_removed own (Queue.filtered_by_type q ProposalType.SelfRemove)
  = own_removed own (Queue.queued_proposals q).
Proof.
  destruct own as [l|]; [|done]. cbn. rewrite <- bool_decide_or. apply bool_decide_ext. symmetry. apply removed_filtered.
Qed.

(** The loops over the updates, the Removes and the SelfRemoves. *)
Lemma leaving_phases q own s h :
  ts_inv (pgd_diff s) h -> Forall (member_proposal (Diff.leaf (pgd_diff s))) (Queue.queued_proposals q) ->
  exists d1 d2 d3 b,
    for_each PGDiff.apply_update (Queue.filtered_by_type q ProposalType.Update) s = (Ok tt, PGDiff.set_diff s d1) /\
    PGDiff.apply_removes own false (Queue.filtered_by_type q ProposalType.Remove) (PGDiff.set_diff s d1) = (Ok b, PGDiff.set_diff s d2) /\
    PGDiff.apply_removes own b (Queue.filtered_by_type q ProposalType.SelfRemove) (PGDiff.set_diff s d2)
      = (Ok (own_removed own (Queue.queued_proposals q)), PGDiff.set_diff s d3) /\
    rewritten (pgd_diff s) d3 h (survivors (Queue.queued_proposals q) (Diff.leaf (pgd_diff s))).
Proof.
  intros Hi HF. destruct (updates_phase _ s h Hi (update_targets _ h q Hi HF)) as (d1 & E1 & H1).
  destruct (removes_phase own (Queue.filtered_by_type q ProposalType.Remove) (PGDiff.set_diff s d1) h false) as (d2 & E2 & H2).
  { apply H1. }
  { eapply Forall_impl; [apply (removal_targets (pgd_diff s) h); [by left|done|done]|].
    intros p (l & Hp & Hl). exists l. split; [done|]. by apply (rewritten_addressable _ _ _ _ _ H1). }
  destruct (removes_phase own (Queue.filtered_by_type q ProposalType.SelfRemove) (PGDiff.set_diff s d2) h
    (false || own_removed own (Queue.filtered_by_type q ProposalType.Remove))) as (d3 & E3 & H3).
  { apply H2. }
  { eapply Forall_impl; [apply (removal_targets (pgd_diff s) h); [by right|done|done]|].
    intros p (l & Hp & Hl). exists l. split; [done|].
    by apply (rewritten_addressable _ _ _ _ _ H2), (rewritten_addressable _ _ _ _ _ H1). }
  exists d1, d2, d3. eexists. split; [exact E1|]. split; [exact E2|]. split; [rewrite E3, orb_false_l, own_removed_filtered; done|].
  destruct H1 as [_ Ho1 Hl1 Hli1], H2 as [_ Ho2 Hl2 Hli2], H3 as [Hi3 Ho3 Hl3 Hli3].
  cbn [pgd_diff PGDiff.set_diff] in *. split; [done|congruence| |auto].
  intros i. rewrite Hl3, Hl2, Hl1, updated_filtered. unfold survivors. pose proof (removed_filtered q i) as Hr.
  repeat case_decide; tauto || done.
Qed.

Lemma apply_proposals_spec q own s h :
  ts_inv (pgd_diff s) h -> Forall (member_proposal (Diff.leaf (pgd_diff s))) (Queue.queued_proposals q) ->
  match PGDiff.apply_proposals q own s with
  | (Ok v, s') => exists d' h' inv, s' = PGDiff.set_diff s d' /\ v = values_of q own inv /\
                    applied (pgd_diff s) d' h' (Queue.queued_proposals q) inv
  | (Err e, _) => e = CustomError "Tree full: cannot add more members"
  | (Panic, _) => False
  end.
Proof.
  intros Hi HF. unfold PGDiff.apply_proposals. cbv zeta.
  destruct (leaving_phases q own s h Hi HF) as (d1 & d2 & d3 & b & E1 & E2 & E3 & H3).
  unfold mbind at 1, stateful_bind at 1. rewrite E1. unfold mbind at 1, stateful_bind at 1. rewrite E2.
  unfold mbind at 1, stateful_bind at 1. rewrite E3. clear E1 E2 E3.
  set (ps := Queue.queued_proposals q) in *.
  assert (omap addition_of (Queue.filtered_by_type q ProposalType.Add) = omap addition_of ps) as Ea.
  { apply filtered_omap. intros p y. unfold addition_of. by destruct (qp_proposal p). }
  unfold addition_of in Ea at 1. rewrite Ea. clear Ea.
  pose proof (adds_phase (omap addition_of ps) (PGDiff.set_diff s d3) h (rw_inv _ _ _ _ H3)) as H4.
  unfold mbind at 1, stateful_bind at 1. destruct (PGDiff.apply_adds _ _) as [[inv|e|] s']; [|done..].
  destruct H4 as (d4 & h4 & -> & Hi4 & Ho4 & Ha & Hn & Hleft & Hlf4). rewrite set_diff_twice. cbn [pgd_diff PGDiff.set_diff] in *.
  destruct (trim_applied (pgd_diff s) d4 h4 ps inv Hi4) as (d' & h' & Et & Hap); [|done|done| | |].
  { rewrite Ho4. apply H3. }
  { intros i. rewrite Hlf4. by rewrite (rw_leaf _ _ _ _ H3). }
  { intros l Hl. destruct (Hleft l Hl) as (_ & Hb & Hf). by rewrite (rw_leaf _ _ _ _ H3) in Hb. }
  unfold mbind at 1, stateful_bind at 1. rewrite (diff_update_Some _ _ d') by done. rewrite set_diff_twice.
  cbn [mret stateful_ret]. exists d', h', inv. split; [done|]. split; [|done]. unfold values_of. fold ps.
  rewrite head_omap by (intros p [_ Hp]%filtered_elem; by destruct (qp_proposal p)).
  f_equal; [|f_equal..]; apply filtered_omap; intros p y; by destruct (qp_proposal p).
Qed.
End Phases.
