(* ===== verification/CommitFacts.v ===== *)
(** * Commits on a public group

    What an accepted commit is, what staging and merging it does, and the invariant of a
    public group that every accepted commit preserves. *)
From S2P Require Import Prelude TreeMath TreeMathFacts BinaryTree BinaryTreeFacts Crypto Extensions TreeSync LeafNode TreeKem.
From S2P Require Import Proposals ProposalStore ProposalStoreFacts PublicGroup StagedCommit.
From S2P Require Import TreeSyncFacts TreeSyncDiffFacts TreeKemFacts TreeStateFacts ValidationFacts ApplyProposalsFacts.

Section Commits.
Context {OC : OpenMlsCrypto} {TC : TlsCodec}.
Implicit Types (g : PublicGroup) (q : ProposalQueue).

(** ** Where proposals come from *)
Lemma by_reference_elem store r p : Queue.proposals_by_reference store !! r = Some p -> p ∈ store.
Proof.
  unfold Queue.proposals_by_reference.
  assert (forall m : gmap bytes QueuedProposal, foldl (fun m p => <[qp_reference p := p]> m) m store !! r = Some p ->
    m !! r = Some p \/ p ∈ store) as H.
  { induction store as [|p' store IH]; intros m; cbn; [by left|].
    intros [Hm|Hp]%IH; [|right; by constructor]. apply lookup_insert_Some in Hm as [[_ ->]|[_ Hm]]; [right; by constructor|by left]. }
  intros [He|Hp]%H; [by rewrite lookup_empty in He|done].
Qed.

Lemma committed_origin cs committed store sender q p :
  Queue.from_committed_proposals cs committed store sender = Ok q -> p ∈ Queue.queued_proposals q ->
  (qp_sender p = sender /\ qp_type p = ByValue) \/ p ∈ store.
Proof.
  unfold Queue.from_committed_proposals. destruct (try_fold _ _ _) as [[q' seen]| |] eqn:Ef; [|done..]. intros [= ->] Hp.
  apply committed_fold_Ok in Ef as (l & Hl & _ & -> & _); [|constructor].
  change (Queue.extend Queue.default_queue l) with (Queue.from_iter l) in Hp.
  rewrite (proj2 (from_iter_spec l)) in Hp. apply first_refs_elem in Hp.
  apply list_elem_of_lookup in Hp as (i & Hi). destruct (Forall2_lookup_r _ _ _ _ _ Hl Hi) as ([proposal|r] & _ & Hr).
  - left. by apply inline_proposal in Hr as (_ & ? & ?).
  - right. by eapply by_reference_elem.
Qed.

(** ** Accepted commits *)
Record accepted g (content : AuthenticatedContent) (commit : Commit) q (sender_index : LeafNodeIndex.t) : Prop := {
  ac_epoch : fc_epoch (ac_content content) = gc_epoch (pg_group_context g);
  ac_commit : PStage.commit_of content = Ok commit;
  ac_queue : Queue.from_committed_proposals (PGroup.ciphersuite g) (commit_proposals commit) (pg_proposal_store g)
               (fc_sender (ac_content content)) = Ok q;
  ac_keys : PGroup.validate_key_uniqueness g q (Some commit) (fc_sender (ac_content content))
              ((fun path => payload_signature_key (payload (update_leaf_node path))) <$> commit_path commit) = Ok tt;
  ac_removes : PGroup.validate_remove_proposals g q = Ok tt;
  ac_sender : match fc_sender (ac_content content) with
              | Sender.Member s => sender_index = s /\ exists clock, PGroup.validate_update_proposals g clock q s = Ok tt
              | Sender.NewMemberCommit => PGroup.validate_external_commit g q = Ok tt /\
                  PGroup.leftmost_free_index g (Queue.queued_proposals q) = Ok sender_index
              | _ => False
              end;
}.

Lemma validate_commit_accepted g clock content policy commit q sender_index :
  PStage.validate_commit g clock content policy = Ok (commit, q, sender_index) ->
  accepted g content commit q sender_index.
Proof.
  unfold PStage.validate_commit. destruct (Z.eqb_spec (fc_epoch (ac_content content)) (gc_epoch (pg_group_context g))) as [He|]; [|done].
  cbn [negb]. intros E. inv_ok.
  repeat match goal with H : map_err _ _ = Ok _ |- _ => apply map_err_Ok in H end.
  repeat match goal with a : unit |- _ => destruct a end.
  split; try done. destruct (fc_sender (ac_content content)) as [s| | |]; try done; inv_ok.
  - apply map_err_Ok in Ha11. destruct a. eauto.
  - by apply map_err_Ok in Ha10, Ha11.
Qed.

(** ** The invariant of a public group *)
Definition group_diff g : TreeSyncDiff LeafNode := TSync.empty_diff (pg_treesync g).
Definition group_leaf g : LeafNodeIndex.t -> option LeafNode := Diff.leaf (group_diff g).

(** A stored Update or SelfRemove comes from a member. *)
Definition stored_by_member g (p : QueuedProposal) : Prop :=
  match qp_proposal p with
  | Proposal.Update _ | Proposal.SelfRemove => exists i, qp_sender p = Sender.Member i /\ is_Some (group_leaf g i)
  | _ => True
  end.

Record group_inv g : Prop := {
  gi_tree : exists h, ts_inv (group_diff g) h;
  gi_hash : TSDiff.compute_tree_hashes (group_diff g) (PGroup.ciphersuite g) = Ok (gc_tree_hash (pg_group_context g));
  gi_cached : ts_tree_hash (pg_treesync g) = gc_tree_hash (pg_group_context g);
  gi_keys : forall i j x y, group_leaf g i = Some x -> group_leaf g j = Some y -> leaf_key x = leaf_key y -> i = j;
  gi_store : Forall (stored_by_member g) (pg_proposal_store g);
}.

Lemma group_wf_tree g : group_inv g -> wf_tree (ts_tree (pg_treesync g)).
Proof. intros Hg. destruct (gi_tree g Hg) as [h Hi]. apply (wf_orig _ (ti_wf _ h Hi)). Qed.

Lemma group_leaf_tree g i : group_inv g -> TSync.leaf (pg_treesync g) i = group_leaf g i.
Proof.
  intros Hg. unfold group_leaf, group_diff, TSync.empty_diff. rewrite empty_diff_leaf by (by apply group_wf_tree).
  unfold TSync.leaf, Tree.leaf. by rewrite (wf_dl _ (group_wf_tree g Hg)).
Qed.

Lemma group_members_elem g m :
  group_inv g -> m ∈ full_leaf_members (pg_treesync g) <->
  exists x, group_leaf g (member_index m) = Some x /\
    m = mkGroupMember (member_index m) (leaf_key x) (leaf_signature_key x) (payload_credential (payload x)).
Proof.
  intros Hg. unfold full_leaf_members. rewrite list_elem_of_fmap. split.
  - intros ([i x] & -> & Hin). exists x. cbn. split; [|done]. by apply full_leaves_elem in Hin; [|apply group_wf_tree].
  - intros (x & Hx & Em). exists (member_index m, x). split; [done|]. by apply full_leaves_elem; [apply group_wf_tree|].
Qed.

(** ** The proposals of an accepted commit *)
Lemma check_removes_Ok g us l s s' :
  try_fold (PGroup.check_remove g us) l s = Ok s' -> forall i sender, (i, sender) ∈ l -> is_Some (TSync.leaf (pg_treesync g) i).
Proof.
  revert s. induction l as [|[j sj] l IH]; intros s E i sender Hin; cbn [try_fold] in E; [by apply not_elem_of_nil in Hin|].
  apply bind_Ok in E as (s1 & E1 & E). apply elem_of_cons in Hin as [[= -> ->]|Hin]; [|by apply (IH s1 E i sender)].
  unfold PGroup.check_remove in E1. cbn [fst] in E1. repeat (case_match; [done|]).
  destruct (TSync.leaf _ j); [eauto|done].
Qed.

(** What an external commit may contain inline. *)
Definition external_allowed (proposal : Proposal.t) : bool :=
  match proposal with
  | Proposal.ExternalInit _ | Proposal.Remove _ | Proposal.PreSharedKey _ | Proposal.Custom _ => true
  | _ => false
  end.

Lemma external_inline g q p :
  PGroup.validate_external_commit g q = Ok tt -> p ∈ Queue.queued_proposals q -> qp_type p = ByValue ->
  external_allowed (qp_proposal p) = true.
Proof.
  unfold PGroup.validate_external_commit. intros E Hp Et. do 2 (case_bool_decide; [done|]).
  destruct (existsb _ _) eqn:Ex; [done|]. apply not_true_iff_false in Ex. destruct (external_allowed (qp_proposal p)) eqn:Ea; [done|].
  destruct Ex. apply existsb_exists. exists p. split; [by apply list_elem_of_In|]. rewrite bool_decide_true by done.
  fold (external_allowed (qp_proposal p)). by rewrite Ea.
Qed.

Lemma no_inline_update g content commit q sender_index p leaf :
  accepted g content commit q sender_index -> p ∈ Queue.queued_proposals q -> qp_proposal p = Proposal.Update leaf ->
  qp_sender p = fc_sender (ac_content content) -> qp_type p = ByValue -> False.
Proof.
  intros Ha Hp Ep Es Et. pose proof (ac_sender _ _ _ _ _ Ha) as Hc.
  destruct (fc_sender (ac_content content)) as [s| | |] eqn:Ec; try done.
  - destruct Hc as (_ & clock & Hu). unfold PGroup.validate_update_proposals in Hu.
    apply try_fold_Forall in Hu. rewrite Forall_forall in Hu. specialize (Hu (leaf, Sender.Member s)).
    cbn beta iota in Hu. rewrite Z.eqb_refl in Hu. cbn [mbind result_bind] in Hu. enough (Err CommitterIncludedOwnUpdate = Ok tt) by done.
    apply Hu. apply list_elem_of_omap. exists p. by rewrite Ep, Es.
  - destruct Hc as [Hc _]. pose proof (external_inline g q p Hc Hp Et) as H. by rewrite Ep in H.
Qed.

Lemma accepted_members g content commit q sender_index :
  group_inv g -> accepted g content commit q sender_index ->
  (forall s, fc_sender (ac_content content) = Sender.Member s -> is_Some (group_leaf g s)) ->
  Forall (member_proposal (group_leaf g)) (Queue.queued_proposals q).
Proof.
  intros Hg Ha Hs. apply Forall_forall. intros p Hp.
  unfold member_proposal. destruct (qp_proposal p) as [|leaf|i| | | | | |] eqn:Ep; try done.
  - destruct (committed_origin _ _ _ _ _ p (ac_queue _ _ _ _ _ Ha) Hp) as [[Es Et]|Hin].
    + exfalso. by apply (no_inline_update g content commit q sender_index p leaf Ha Hp).
    + pose proof (proj1 (Forall_forall _ _) (gi_store g Hg) p Hin) as Hm. unfold stored_by_member in Hm. by rewrite Ep in Hm.
  - rewrite <- group_leaf_tree by done. pose proof (ac_removes _ _ _ _ _ Ha) as Hr. unfold PGroup.validate_remove_proposals in Hr.
    apply bind_Ok in Hr as (us & _ & Hr). apply bind_Ok in Hr as (s' & Hr & _).
    apply (check_removes_Ok _ _ _ _ _ Hr i (qp_sender p)). apply list_elem_of_omap. exists p. by rewrite Ep.
  - destruct (committed_origin _ _ _ _ _ p (ac_queue _ _ _ _ _ Ha) Hp) as [[Es Et]|Hin].
    + destruct (fc_sender (ac_content content)) as [s| | |] eqn:Ec; [eauto|..];
        pose proof (ac_sender _ _ _ _ _ Ha) as Hc; rewrite Ec in Hc; try done. destruct Hc as [Hc _].
      pose proof (external_inline g q p Hc Hp Et) as H. by rewrite Ep in H.
    + pose proof (proj1 (Forall_forall _ _) (gi_store g Hg) p Hin) as Hm. unfold stored_by_member in Hm. by rewrite Ep in Hm.
Qed.

(** ** Staging *)

(** The context of the next epoch. *)
Definition next_context (ctx : GroupContext) (tree_hash confirmed : bytes) (extensions : option Extensions) : GroupContext :=
  mkGroupContext (gc_protocol_version ctx) (gc_ciphersuite ctx) (gc_group_id ctx) (GContext.epoch_increment (gc_epoch ctx))
    tree_hash confirmed (default (gc_extensions ctx) extensions).

(** What the update path of a commit, if any, does to the tree. *)
Definition path_applied (cs : Ciphersuite) (sender_index : LeafNodeIndex.t) (commit : Commit) (path_required : bool)
    (d d' : TreeSyncDiff LeafNode) : Prop :=
  match commit_path commit with
  | Some path => Kem.apply_received_update_path cs sender_index path d = (Ok tt, d')
  | None => path_required = false /\ d' = d
  end.

(** The effect of a staged diff, from the diff after the proposals. *)
Record staged_from g (content : AuthenticatedContent) (commit : Commit) (values : ApplyProposalsValues)
    (sender_index : LeafNodeIndex.t) (d : TreeSyncDiff LeafNode) (staged : StagedPublicGroupDiff) (d' : TreeSyncDiff LeafNode)
    (hash confirmed tag : bytes) : Prop := {
  sf_path : path_applied (PGroup.ciphersuite g) sender_index commit (apv_path_required values) d d';
  sf_hash : TSDiff.compute_tree_hashes d' (PGroup.ciphersuite g) = Ok hash;
  sf_staged : spg_staged_diff staged = mkStagedTreeSync (Diff.into_staged d') hash;
  sf_context : spg_group_context staged = next_context (pg_group_context g) hash confirmed (apv_extensions values);
  sf_confirmed : calculate_confirmed_transcript_hash (PGroup.ciphersuite g) (pg_interim_transcript_hash g) content = Ok confirmed;
  sf_tag : auth_confirmation_tag (ac_auth content) = Some tag;
  sf_new_tag : spg_confirmation_tag staged = tag;
  sf_interim : calculate_interim_transcript_hash (PGroup.ciphersuite g) confirmed tag = Ok (spg_interim_transcript_hash staged);
}.

Lemma update_group_context_Ok extensions s s' :
  PGDiff.update_group_context extensions s = (Ok tt, s') <->
  exists hash, TSDiff.compute_tree_hashes (pgd_diff s) (gc_ciphersuite (pgd_group_context s)) = Ok hash /\
    s' = PGDiff.set_group_context s
           (next_context (pgd_group_context s) hash (gc_confirmed_transcript_hash (pgd_group_context s)) extensions).
Proof.
  unfold PGDiff.update_group_context, updating.
  destruct (TSDiff.compute_tree_hashes _ _) as [hash| |] eqn:E; cbn [mbind result_bind]; [|naive_solver..].
  split.
  - intros [= <-]. exists hash. split; [done|]. by destruct extensions.
  - intros (hash' & [= <-] & ->). by destruct extensions.
Qed.

Lemma stage_diff_internal_Ok g content values sender_index s staged s' :
  pgd_group_context s = pg_group_context g -> pgd_interim_transcript_hash s = pg_interim_transcript_hash g ->
  PStage.stage_diff_internal g content values sender_index s = (Ok staged, s') ->
  exists commit d' hash confirmed tag, PStage.commit_of content = Ok commit /\
    staged_from g content commit values sender_index (pgd_diff s) staged d' hash confirmed tag.
Proof.
  intros Hctx Hith E. unfold PStage.stage_diff_internal in E.
  apply stateful_bind_Ok in E as (commit & s0 & E0 & E). injection E0 as Hc <-.
  apply stateful_bind_Ok in E as (u & s1 & E1 & E). exists commit, (pgd_diff s1).
  assert (path_applied (PGroup.ciphersuite g) sender_index commit (apv_path_required values) (pgd_diff s) (pgd_diff s1) /\
    s1 = PGDiff.set_diff s (pgd_diff s1)) as [Hp Es1].
  { unfold path_applied. destruct (commit_path commit) as [path|].
    - destruct u. apply with_err_Ok in E1. unfold PGDiff.apply_received_update_path, PGDiff.on_diff in E1.
      destruct (Kem.apply_received_update_path _ _ _ _) as [r d1] eqn:Er. by injection E1 as -> <-.
    - destruct (apv_path_required values); [done|]. injection E1 as _ <-. by destruct s. }
  apply stateful_bind_Ok in E as ([] & s2 & E2%with_err_Ok & E). apply update_group_context_Ok in E2 as (hash & Hh & Es2).
  assert (pgd_group_context s1 = pg_group_context g) as Ec1 by (by rewrite Es1).
  apply stateful_bind_Ok in E as (u3 & s3 & E3%with_err_Ok & E).
  unfold PGDiff.update_confirmed_transcript_hash, updating in E3.
  destruct (Proposals.update_confirmed_transcript_hash _ _ _) as [ctx3| |] eqn:Eu; cbn [mbind result_bind] in E3; [|done..].
  injection E3 as _ <-. unfold Proposals.update_confirmed_transcript_hash in Eu.
  apply bind_Ok in Eu as (confirmed & Hconf & [= <-]).
  apply stateful_bind_Ok in E as (tag & s4 & E4 & E). injection E4 as Ht%ok_or_Ok <-.
  apply stateful_bind_Ok in E as (u5 & s5 & E5%with_err_Ok & E).
  unfold PGDiff.update_interim_transcript_hash, updating in E5.
  destruct (calculate_interim_transcript_hash _ _ _) as [interim| |] eqn:Ei; cbn [mbind result_bind] in E5; [|done..].
  injection E5 as _ <-. injection E as E _. apply map_err_Ok in E. unfold PGDiff.into_staged_diff, TSync.into_staged_diff in E.
  apply bind_Ok in E as (st & E & [= <-]). apply bind_Ok in E as (hash' & Hh' & [= <-]).
  exists hash, confirmed, tag. split; [done|]. subst s2. cbn in *. rewrite Ec1 in *. rewrite Es1 in Hconf, Hh. cbn in Hconf, Hh. rewrite Hith in Hconf.
  unfold PGroup.ciphersuite in *. rewrite Es1 in Hh'. cbn in Hh'.
  split; cbn; try done; rewrite Es1; cbn; congruence || done.
Qed.

Lemma stage_diff_Ok g content q sender_index staged h :
  ts_inv (group_diff g) h -> Forall (member_proposal (group_leaf g)) (Queue.queued_proposals q) ->
  PStage.stage_diff g content q sender_index = Ok staged ->
  exists commit d h1 inv d' hash confirmed tag, PStage.commit_of content = Ok commit /\
    applied (group_diff g) d h1 (Queue.queued_proposals q) inv /\
    staged_from g content commit (values_of q None inv) sender_index d staged d' hash confirmed tag.
Proof.
  intros Hi HF. unfold PStage.stage_diff. intros E.
  match type of E with fst ?x = _ => destruct x as [r s2] eqn:E' end. cbn in E. subst r.
  apply stateful_bind_Ok in E' as (v & s1 & E1%with_err_Ok & E2).
  pose proof (apply_proposals_spec q None (PGroup.empty_diff g) h Hi HF) as Hap. rewrite E1 in Hap.
  destruct Hap as (d & h1 & inv & -> & -> & Hap).
  apply stage_diff_internal_Ok in E2 as (commit & d' & hash & confirmed & tag & Hc & Hst); [|done..].
  exists commit, d, h1, inv, d', hash, confirmed, tag. done.
Qed.

(** ** Staging and merging *)

(** The leaves after a commit. *)
Definition committed_leaf g q (inv : list (LeafNodeIndex.t * KeyPackage)) (path : option (UpdatePath LeafNode))
    (sender_index : LeafNodeIndex.t) (i : LeafNodeIndex.t) : option LeafNode :=
  match path with
  | Some p => if decide (i = sender_index) then Some (update_leaf_node p) else
      match (list_to_map inv : gmap Z KeyPackage) !! i with
      | Some kp => Some (key_package_leaf kp)
      | None => survivors (Queue.queued_proposals q) (group_leaf g) i
      end
  | None =>
      match (list_to_map inv : gmap Z KeyPackage) !! i with
      | Some kp => Some (key_package_leaf kp)
      | None => survivors (Queue.queued_proposals q) (group_leaf g) i
      end
  end.

(** Everything that merging an accepted commit changes. *)
Record merged_commit g (content : AuthenticatedContent) (commit : Commit) q (sender_index : LeafNodeIndex.t)
    (inv : list (LeafNodeIndex.t * KeyPackage)) (g' : PublicGroup) : Prop := {
  mc_accepted : accepted g content commit q sender_index;
  mc_inv : inv.*2 = omap addition_of (Queue.queued_proposals q) /\ NoDup inv.*1;
  mc_leftmost : forall l, l ∈ inv.*1 -> survivors (Queue.queued_proposals q) (group_leaf g) l = None /\
                  forall i, 0 <= i < l -> is_Some (group_leaf g' i);
  mc_leaf : forall i, group_leaf g' i = committed_leaf g q inv (commit_path commit) sender_index i;
  mc_tree : exists h, ts_inv (group_diff g') h;
  mc_hash : TSDiff.compute_tree_hashes (group_diff g') (PGroup.ciphersuite g) = Ok (gc_tree_hash (pg_group_context g'));
  mc_cached : ts_tree_hash (pg_treesync g') = gc_tree_hash (pg_group_context g');
  mc_context : pg_group_context g' = next_context (pg_group_context g) (gc_tree_hash (pg_group_context g'))
                 (gc_confirmed_transcript_hash (pg_group_context g')) (apv_extensions (values_of q None inv));
  mc_confirmed : calculate_confirmed_transcript_hash (PGroup.ciphersuite g) (pg_interim_transcript_hash g) content
                   = Ok (gc_confirmed_transcript_hash (pg_group_context g'));
  mc_interim : auth_confirmation_tag (ac_auth content) = Some (pg_confirmation_tag g') /\
    calculate_interim_transcript_hash (PGroup.ciphersuite g) (gc_confirmed_transcript_hash (pg_group_context g'))
      (pg_confirmation_tag g') = Ok (pg_interim_transcript_hash g');
  mc_store : pg_proposal_store g' = [];
}.

Lemma path_applied_spec cs sender_index commit b d h d' :
  ts_inv d h -> path_applied cs sender_index commit b d d' ->
  (exists h', ts_inv d' h') /\ original_tree d' = original_tree d /\
  forall i, Diff.leaf d' i = match commit_path commit with
                             | Some p => if decide (i = sender_index) then Some (update_leaf_node p) else Diff.leaf d i
                             | None => Diff.leaf d i
                             end.
Proof.
  intros Hi Hp. unfold path_applied in Hp. destruct (commit_path commit) as [path|].
  - by apply (received_spec d h cs sender_index path d').
  - destruct Hp as [_ ->]. eauto.
Qed.

Lemma stage_merge_queue {M} g clock content policy (staged : StagedCommit M) :
  group_inv g -> (forall s, fc_sender (ac_content content) = Sender.Member s -> is_Some (group_leaf g s)) ->
  PStage.stage_commit g clock content policy = Ok staged ->
  exists commit sender_index inv,
    merged_commit g content commit (staged_proposal_queue staged) sender_index inv (PStage.merge_commit g staged).
Proof.
  intros Hg Hs E. unfold PStage.stage_commit in E. apply bind_Ok in E as ([[commit q] idx] & Hv & E).
  apply bind_Ok in E as (st & Hst & [= <-]). apply validate_commit_accepted in Hv.
  destruct (gi_tree g Hg) as [h Hi]. pose proof (accepted_members g content commit q idx Hg Hv Hs) as HF.
  destruct (stage_diff_Ok g content q idx st h Hi HF Hst) as (commit' & d & h1 & inv & d' & hash & confirmed & tag & Hc & Hap & Hsf).
  rewrite (ac_commit _ _ _ _ _ Hv) in Hc. injection Hc as <-.
  exists commit, idx, inv. destruct Hsf as [Hp Hh Hd Hctx Hconf Htag Hnt Hint].
  destruct (path_applied_spec _ _ _ _ _ _ _ (ap_inv _ _ _ _ _ Hap) Hp) as ((h' & Hi') & Ho & Hlf).
  set (g' := PStage.merge_commit (MemberState := M) g _). assert (group_diff g' = merged d') as Egd.
  { unfold group_diff, PStage.merge_commit, TSync.empty_diff, merged. cbn. rewrite Hd. cbn.
    by rewrite Ho, (ap_original _ _ _ _ _ Hap). }
  destruct (merged_spec d' h' Hi') as (Hm & Hml & _).
  split.
  - done.
  - split; apply Hap.
  - intros l Hl. destruct (ap_leftmost _ _ _ _ _ Hap l Hl) as [Hn Hx]. split; [exact Hn|]. intros i Hr.
    unfold group_leaf. rewrite Egd, Hml, Hlf. destruct (commit_path commit); [case_decide; [done|]|]; by apply Hx.
  - intros i. unfold group_leaf at 1. rewrite Egd, Hml, Hlf. unfold committed_leaf.
    destruct (commit_path commit); [case_decide; [done|]|]; apply (ap_leaf _ _ _ _ _ Hap).
  - rewrite Egd. eauto.
  - rewrite Egd, (merged_tree_hash d' h') by done. cbn. by rewrite Hctx.
  - cbn. by rewrite Hd, Hctx.
  - cbn. by rewrite Hctx.
  - cbn. by rewrite Hctx.
  - cbn. rewrite Hctx. cbn. split; congruence.
  - done.
Qed.

Lemma stage_merge {M} g clock content policy (staged : StagedCommit M) :
  group_inv g -> (forall s, fc_sender (ac_content content) = Sender.Member s -> is_Some (group_leaf g s)) ->
  PStage.stage_commit g clock content policy = Ok staged ->
  exists commit q sender_index inv, merged_commit g content commit q sender_index inv (PStage.merge_commit g staged).
Proof. intros Hg Hs E. destruct (stage_merge_queue g clock content policy staged Hg Hs E) as (commit & idx & inv & Hm). eauto. Qed.

(** The leaf of a member that is not removed and does not commit with a path. *)
Lemma merged_survivor g content commit q sender_index inv g' i x :
  merged_commit g content commit q sender_index inv g' -> survivors (Queue.queued_proposals q) (group_leaf g) i = Some x ->
  i <> sender_index -> group_leaf g' i = Some x.
Proof.
  intros Hm Hx Hne. rewrite (mc_leaf _ _ _ _ _ _ _ Hm). unfold committed_leaf.
  assert ((list_to_map inv : gmap Z KeyPackage) !! i = None) as ->.
  { apply not_elem_of_list_to_map_1. intros [Hn _]%(mc_leftmost _ _ _ _ _ _ _ Hm). congruence. }
  destruct (commit_path commit); [by rewrite decide_False|done].
Qed.

(** A committer's own Update is refused. *)
Lemma updated_not_committer g content commit q sender_index s i leaf :
  accepted g content commit q sender_index -> fc_sender (ac_content content) = Sender.Member s ->
  updated (Queue.queued_proposals q) i = Some leaf -> sender_index = s /\ i <> s.
Proof.
  intros Ha Es Hu%last_Some_elem_of. pose proof (ac_sender _ _ _ _ _ Ha) as Hc. rewrite Es in Hc. destruct Hc as (-> & clock & Hv).
  split; [done|]. intros ->. apply list_elem_of_fmap in Hu as ([j y] & -> & [Ej Hu]%list_elem_of_filter). cbn in Ej. subst j.
  apply list_elem_of_omap in Hu as (p & Hp & Eu). unfold PGroup.validate_update_proposals in Hv.
  apply try_fold_Forall in Hv. rewrite Forall_forall in Hv. specialize (Hv (y, Sender.Member s)).
  cbn beta iota in Hv. rewrite Z.eqb_refl in Hv. cbn [mbind result_bind] in Hv. enough (Err CommitterIncludedOwnUpdate = Ok tt) by done.
  apply Hv. apply list_elem_of_omap. exists p. split; [done|]. unfold update_of in Eu. destruct (qp_proposal p), (qp_sender p); congruence.
Qed.

(** ** Preserving the invariant *)
Lemma removed_members_elem q i : i ∈ PGroup.removed_members q <-> i ∈ removed (Queue.queued_proposals q).
Proof.
  unfold PGroup.removed_members. rewrite elem_of_list_to_set, elem_of_app, removed_filtered. split; intros [H|H].
  - left. apply list_elem_of_fmap in H as ([j s] & -> & H). apply list_elem_of_omap in H as (p & Hp & E).
    apply list_elem_of_omap. exists p. rewrite filtered_elem. unfold removal_of.
    destruct (qp_proposal p) eqn:Ep; try done. by injection E as -> _.
  - right. apply list_elem_of_omap in H as (p & Hp & E). apply list_elem_of_omap. exists p. split; [done|].
    apply filtered_elem in Hp as [_ Ht]. unfold removal_of. by destruct (qp_proposal p).
  - left. apply list_elem_of_omap in H as (p & [Hp Ht]%filtered_elem & E). unfold removal_of in E.
    destruct (qp_proposal p) eqn:Ep; try done. injection E as ->. apply list_elem_of_fmap. exists (i, qp_sender p).
    split; [done|]. apply list_elem_of_omap. exists p. by rewrite Ep.
  - right. apply list_elem_of_omap in H as (p & Hp & E). apply list_elem_of_omap. exists p. split; [done|].
    apply filtered_elem in Hp as [_ Ht]. unfold removal_of in E. by destruct (qp_proposal p).
Qed.

Lemma add_proposals_additions q : (Queue.add_proposals q).*1 = omap addition_of (Queue.queued_proposals q).
Proof.
  unfold Queue.add_proposals. induction (Queue.queued_proposals q) as [|p ps IH]; [done|]. rewrite !omap_cons.
  unfold addition_of at 1. destruct (qp_proposal p); [|done..]. by rewrite fmap_cons, IH.
Qed.

Lemma updated_elem q i x :
  updated (Queue.queued_proposals q) i = Some x -> (x, Sender.Member i) ∈ Queue.update_proposals q.
Proof.
  unfold updated. intros Hx%last_Some_elem_of. apply list_elem_of_fmap in Hx as ([j y] & -> & Hx).
  apply list_elem_of_filter in Hx as [Ej Hx]. cbn in Ej |- *. subst j. apply list_elem_of_omap in Hx as (p & Hp & Eu).
  apply list_elem_of_omap. exists p. split; [done|]. unfold update_of in Eu. destruct (qp_proposal p), (qp_sender p); congruence.
Qed.

(** The fresh encryption keys with the leaf that gets them. *)
Definition key_owners q (inv : list (LeafNodeIndex.t * KeyPackage)) (path : option (UpdatePath LeafNode))
    (sender_index : LeafNodeIndex.t) : list (option LeafNodeIndex.t * bytes) :=
  ((fun ikp => (Some ikp.1, leaf_key (key_package_leaf ikp.2))) <$> inv)
  ++ ((fun u => (Sender.as_member u.2, leaf_key u.1)) <$> Queue.update_proposals q)
  ++ option_list ((fun p => (Some sender_index, leaf_key (update_leaf_node p))) <$> path).

Lemma key_owners_NoDup g q commit sender path_key inv sender_index :
  PGroup.validate_key_uniqueness g q (Some commit) sender path_key = Ok tt ->
  inv.*2 = omap addition_of (Queue.queued_proposals q) ->
  NoDup (key_owners q inv (commit_path commit) sender_index).*2 /\
  forall m, m ∈ kept_members g q -> member_encryption_key m ∉ (key_owners q inv (commit_path commit) sender_index).*2.
Proof.
  intros Hv Hinv. apply key_uniqueness_Ok in Hv as (_ & (Hn & Hd) & _).
  assert ((key_owners q inv (commit_path commit) sender_index).*2 `sublist_of` fresh_keys q (Some commit)) as Hsub.
  { unfold key_owners, fresh_keys, added_leaves, path_keys. cbn [mbind option_bind].
    rewrite add_proposals_additions, <- Hinv, !fmap_app, <- !list_fmap_compose.
    apply sublist_app; [done|]. apply sublist_app; [done|]. destruct (commit_path commit); cbn; [|done].
    apply sublist_skip, sublist_nil_l. }
  split; [by eapply sublist_NoDup|]. intros m Hm Hin. apply (Hd m Hm). by eapply elem_of_submseteq; [|apply sublist_submseteq].
Qed.

Lemma NoDup_snd_inj {A B} (l : list (A * B)) a a' b : NoDup l.*2 -> (a, b) ∈ l -> (a', b) ∈ l -> a = a'.
Proof.
  induction l as [|[x y] l IH]; cbn; [by intros _ ?%not_elem_of_nil|]. rewrite NoDup_cons. intros [Hy Hn].
  intros [[= -> ->]|H1]%elem_of_cons [[= ->]|H2]%elem_of_cons; [done| |subst|auto].
  - destruct Hy. by apply (list_elem_of_fmap_2 snd) in H2.
  - destruct Hy. by apply (list_elem_of_fmap_2 snd) in H1.
Qed.

(** Where a leaf of the new tree comes from. *)
Lemma committed_leaf_cases g q inv path sender_index i x :
  committed_leaf g q inv path sender_index i = Some x ->
  (exists p, path = Some p /\ i = sender_index /\ x = update_leaf_node p) \/
  (is_Some path -> i <> sender_index) /\
  ((exists kp, (i, kp) ∈ inv /\ x = key_package_leaf kp) \/
   i ∉ removed (Queue.queued_proposals q) /\ (updated (Queue.queued_proposals q) i = Some x \/ group_leaf g i = Some x)).
Proof.
  intros Hx.
  assert ((exists p, path = Some p /\ i = sender_index /\ x = update_leaf_node p) \/
          (is_Some path -> i <> sender_index) /\
          match (list_to_map inv : gmap Z KeyPackage) !! i with
          | Some kp => Some (key_package_leaf kp)
          | None => survivors (Queue.queued_proposals q) (group_leaf g) i
          end = Some x) as [H|[Hne H]].
  { unfold committed_leaf in Hx. destruct path as [p|]; [|right; split; [by intros []|done]].
    case_decide; [left; exists p; by injection Hx as ->|by right]. }
  - by left.
  - right. split; [done|]. destruct (_ !! i) as [kp|] eqn:Ek.
    + left. exists kp. apply elem_of_list_to_map_2 in Ek. by injection H as <-.
    + right. unfold survivors in H. case_decide as Hr; [done|]. split; [done|].
      destruct (updated _ i) as [y|]; [left|right]; congruence.
Qed.

(** A leaf of the new tree stays or has a fresh key. *)
Lemma committed_leaf_owner g q inv path sender_index i x :
  committed_leaf g q inv path sender_index i = Some x ->
  (Some i, leaf_key x) ∈ key_owners q inv path sender_index \/
  group_leaf g i = Some x /\ i ∉ removed (Queue.queued_proposals q).
Proof.
  intros [(p & -> & -> & ->)|(_ & [(kp & Hkp & ->)|(Hr & [Hu|Hx])])]%committed_leaf_cases; [left..|by right];
    unfold key_owners; rewrite !elem_of_app.
  - right. right. cbn. by constructor.
  - left. apply list_elem_of_fmap. by exists (i, kp).
  - right. left. apply updated_elem in Hu. apply list_elem_of_fmap. by exists (x, Sender.Member i).
Qed.

Lemma kept_member_elem g q i x :
  group_inv g -> group_leaf g i = Some x -> i ∉ removed (Queue.queued_proposals q) ->
  mkGroupMember i (leaf_key x) (leaf_signature_key x) (payload_credential (payload x)) ∈ kept_members g q.
Proof.
  intros Hg Hx Hr. apply list_elem_of_filter. split; [by rewrite removed_members_elem|].
  apply group_members_elem; [done|]. by exists x.
Qed.

Lemma merged_commit_inv g content commit q sender_index inv g' :
  group_inv g -> merged_commit g content commit q sender_index inv g' -> group_inv g'.
Proof.
  intros Hg Hm. pose proof Hm as [Ha [Hinv Hn] _ Hlf Ht Hh Hc Hctx _ _ Hs].
  destruct (key_owners_NoDup _ _ _ _ _ inv sender_index (ac_keys _ _ _ _ _ Ha) Hinv) as [Hnd Hdis].
  split; [exact Ht| |exact Hc| |rewrite Hs; constructor].
  - assert (PGroup.ciphersuite g' = PGroup.ciphersuite g) as -> by (unfold PGroup.ciphersuite; by rewrite Hctx). exact Hh.
  - intros i j x y Hi Hj Ek. rewrite Hlf in Hi, Hj.
    apply committed_leaf_owner in Hi as [Hi|[Hi Hri]], Hj as [Hj|[Hj Hrj]].
    + rewrite Ek in Hi. pose proof (NoDup_snd_inj _ _ _ _ Hnd Hi Hj). congruence.
    + exfalso. apply (Hdis _ (kept_member_elem g q j y Hg Hj Hrj)). cbn. rewrite <- Ek. by apply (list_elem_of_fmap_2 snd) in Hi.
    + exfalso. apply (Hdis _ (kept_member_elem g q i x Hg Hi Hri)). cbn. rewrite Ek. by apply (list_elem_of_fmap_2 snd) in Hj.
    + by apply (gi_keys g Hg i j x y).
Qed.
End Commits.
