(* ===== verification/PublicGroupFacts.v ===== *)
(** * Public groups over time

    The groups that creation, stored proposals and accepted commits lead to, and what
    holds in all of them. *)
From S2P Require Import Prelude TreeMath TreeMathFacts BinaryTree BinaryTreeFacts Crypto Extensions TreeSync LeafNode TreeKem.
From S2P Require Import Proposals ProposalStore ProposalStoreFacts PublicGroup StagedCommit.
From S2P Require Import TreeSyncFacts TreeSyncDiffFacts TreeKemFacts TreeStateFacts ValidationFacts ApplyProposalsFacts CommitFacts.

Section Groups.
Context {OC : OpenMlsCrypto} {TC : TlsCodec}.
Implicit Types (g : PublicGroup).

Definition set_store g (store : ProposalStore) : PublicGroup :=
  mkPublicGroup (pg_treesync g) store (pg_group_context g) (pg_interim_transcript_hash g) (pg_confirmation_tag g).

(** What happens to a group within an epoch, and what ends it. A proposal or a commit of
    a member comes with the index of one of the members. *)
Inductive within_epoch g : PublicGroup -> Prop :=
  | we_add p : stored_by_member g p -> within_epoch g (set_store g (Store.add (pg_proposal_store g) p))
  | we_remove r : within_epoch g (set_store g (Store.remove r (pg_proposal_store g)).2).

Inductive commits g : PublicGroup -> Prop :=
  | commits_intro clock content policy (staged : StagedCommit unit) :
      (forall s, fc_sender (ac_content content) = Sender.Member s -> is_Some (group_leaf g s)) ->
      PStage.stage_commit g clock content policy = Ok staged -> commits g (PStage.merge_commit g staged).

(** The groups built by [b], after [n] commits. *)
Inductive group_after (b : TempBuilderPG1) : nat -> PublicGroup -> Prop :=
  | ga_new clock leaf_random random signer treesync group_context secret keypair tag g :
      PBuilder.get_secrets b clock leaf_random random signer = Ok (treesync, group_context, secret, keypair) ->
      PBuilder.build treesync group_context tag = Ok g -> group_after b 0 g
  | ga_within n g g' : group_after b n g -> within_epoch g g' -> group_after b n g'
  | ga_commit n g g' : group_after b n g -> commits g g' -> group_after b (S n) g'.

Lemma new_tree_hash random cs leaf ts secret :
  Kem.new random cs leaf = Ok (ts, secret) -> TSDiff.compute_tree_hashes (TSync.empty_diff ts) cs = Ok (ts_tree_hash ts).
Proof.
  intros (Et & Eh)%new_tree_founder. rewrite <- Eh. unfold TSync.empty_diff. rewrite Et.
  apply (merged_tree_hash (Tree.empty_diff (founder_tree leaf)) 0), founder_inv.
Qed.

Lemma built_group_inv b clock leaf_random random signer treesync group_context secret keypair tag g :
  PBuilder.get_secrets b clock leaf_random random signer = Ok (treesync, group_context, secret, keypair) ->
  PBuilder.build treesync group_context tag = Ok g ->
  group_inv g /\ gc_epoch (pg_group_context g) = 0 /\ gc_group_id (pg_group_context g) = pb_group_id b /\
  gc_ciphersuite (pg_group_context g) = pb_ciphersuite b.
Proof.
  unfold PBuilder.get_secrets, PBuilder.treesync_new, PBuilder.build, PGroup.new. intros E Eb.
  destruct (resolve_capabilities _ _) as [capabilities policy]. apply bind_Ok in E as (lifetime & _ & E).
  apply bind_Ok in E as ([[ts cs] kp] & E & [= <- <- <- <-]). apply bind_Ok in E as ([leaf kp'] & _ & E).
  apply bind_Ok in E as ([ts' cs'] & E%map_err_Ok & [= -> -> ->]). cbn [np_ciphersuite] in E.
  apply bind_Ok in Eb as (interim & _ & [= <-]). split; [|done].
  pose proof (new_tree_inv _ _ _ _ _ E) as Hi. split; [by exists 0|exact (new_tree_hash _ _ _ _ _ E)|done| |constructor].
  intros i j x y Hx Hy _.
  destruct (full_in_range _ 0 i Hi) as [Hri _]; [by exists x|]. destruct (full_in_range _ 0 j Hi) as [Hrj _]; [by exists y|]. lia.
Qed.

Lemma store_remove_sub r (store : ProposalStore) p : p ∈ (Store.remove r store).2 -> p ∈ store.
Proof.
  unfold Store.remove. destruct (list_find _ store) as [[i p']|]; [|done]. cbn. intros Hp.
  eapply elem_of_submseteq; [done|]. apply sublist_submseteq, sublist_delete.
Qed.

Lemma within_epoch_inv g g' :
  group_inv g -> within_epoch g g' -> group_inv g' /\ pg_group_context g' = pg_group_context g.
Proof.
  intros [Ht Hh Hc Hk Hs] Hw. destruct Hw as [p Hp|r]; (split; [split; try done|done]); cbn.
  - apply Forall_app. split; [done|]. by apply Forall_singleton.
  - apply Forall_forall. intros p Hp%store_remove_sub. by eapply Forall_forall in Hs.
Qed.

Lemma group_after_inv b n g :
  group_after b n g ->
  group_inv g /\ gc_group_id (pg_group_context g) = pb_group_id b /\
  gc_ciphersuite (pg_group_context g) = pb_ciphersuite b /\ gc_epoch (pg_group_context g) = Z.of_nat n mod 2 ^ 64.
Proof.
  induction 1 as [clock lr r signer ts ctx secret keypair tag g Hg Hb|n g g' _ (Hg & IH) Hw|n g g' _ (Hg & Hid & Hcs & He) Hc].
  - destruct (built_group_inv _ _ _ _ _ _ _ _ _ _ _ Hg Hb) as (Hi & -> & Hid & Hcs). done.
  - destruct (within_epoch_inv g g' Hg Hw) as [Hi ->]. done.
  - destruct Hc as [clock content policy staged Hs E].
    destruct (stage_merge g clock content policy staged Hg Hs E) as (commit & q & idx & inv & Hm).
    split; [by eapply merged_commit_inv|]. rewrite (mc_context _ _ _ _ _ _ _ Hm). cbn. split; [done|]. split; [done|].
    unfold GContext.epoch_increment. rewrite He, Nat2Z.inj_succ, Zplus_mod_idemp_l. f_equal.
Qed.

(** C8. Every group that creation, stored proposals and accepted commits can lead to is in a
    consistent state: its ratchet tree satisfies the tree invariant, the tree hash in the
    context (and the cached one) is the hash of that tree, no two leaves share an encryption
    key, and every stored Update or SelfRemove is of a member. Its group id and ciphersuite
    are those it was created with, and its epoch counts the commits modulo 2^64. *)
Theorem public_group_invariant b n g :
  group_after b n g ->
  group_inv g /\ gc_group_id (pg_group_context g) = pb_group_id b /\
  gc_ciphersuite (pg_group_context g) = pb_ciphersuite b /\ gc_epoch (pg_group_context g) = Z.of_nat n mod 2 ^ 64.
Proof. apply group_after_inv. Qed.

(** C10. What an accepted commit does to a group: the new tree has the path leaf at the
    committer, the added key packages at the leftmost blank leaves, the updated leaves and
    the remaining ones, and nothing else; its hash is in the context, the epoch is
    incremented, the extensions are replaced only by a GroupContextExtensions proposal, both
    transcript hashes are extended by the commit and its tag, and the store is empty. *)
Theorem commit_effect {M} b n g clock content policy (staged : StagedCommit M) :
  group_after b n g -> (forall s, fc_sender (ac_content content) = Sender.Member s -> is_Some (group_leaf g s)) ->
  PStage.stage_commit g clock content policy = Ok staged ->
  exists commit q sender_index inv, merged_commit g content commit q sender_index inv (PStage.merge_commit g staged).
Proof. intros Hg Hs E. apply group_after_inv in Hg as [Hg _]. by eapply stage_merge. Qed.

(** C21. Applying the proposals of members to a group always ends, without a panic and without
    any lookup failing: updates, removals and additions all take effect and the tree is
    trimmed to the smallest one that holds the remaining leaves, or the tree has no room for
    an added leaf. *)
Theorem apply_proposals_total b n g q own :
  group_after b n g -> Forall (member_proposal (group_leaf g)) (Queue.queued_proposals q) ->
  match PGDiff.apply_proposals q own (PGroup.empty_diff g) with
  | (Ok v, diff) => exists d h inv, diff = PGDiff.set_diff (PGroup.empty_diff g) d /\ v = values_of q own inv /\
                      applied (group_diff g) d h (Queue.queued_proposals q) inv
  | (Err e, _) => e = CustomError "Tree full: cannot add more members"
  | (Panic, _) => False
  end.
Proof. intros (Hg & _)%group_after_inv HF. destruct (gi_tree g Hg) as [h Hi]. exact (apply_proposals_spec q own (PGroup.empty_diff g) h Hi HF). Qed.

(** ** Signature keys *)
Definition distinct_signature_keys g : Prop :=
  forall i j x y, group_leaf g i = Some x -> group_leaf g j = Some y -> leaf_signature_key x = leaf_signature_key y -> i = j.

(** An Update that leaves the signature key of its sender as it is. *)
Definition keeps_signature_key g (p : QueuedProposal) : Prop :=
  forall i leaf x, update_of p = Some (i, leaf) -> group_leaf g i = Some x -> leaf_signature_key leaf = leaf_signature_key x.

(** The fresh signature keys with the leaf that gets them. *)
Definition signature_key_owners (inv : list (LeafNodeIndex.t * KeyPackage)) (path : option (UpdatePath LeafNode))
    (sender_index : LeafNodeIndex.t) : list (LeafNodeIndex.t * bytes) :=
  ((fun ikp => (ikp.1, leaf_signature_key (key_package_leaf ikp.2))) <$> inv)
  ++ option_list ((fun p => (sender_index, leaf_signature_key (update_leaf_node p))) <$> path).

Lemma signature_key_owners_fresh q inv (commit : Commit) sender_index :
  inv.*2 = omap addition_of (Queue.queued_proposals q) ->
  (signature_key_owners inv (commit_path commit) sender_index).*2
    = fresh_signature_keys q ((fun path => payload_signature_key (payload (update_leaf_node path))) <$> commit_path commit).
Proof.
  intros Hinv. unfold signature_key_owners, fresh_signature_keys, added_leaves.
  rewrite add_proposals_additions, <- Hinv, fmap_app, <- !list_fmap_compose. f_equal. by destruct (commit_path commit).
Qed.

Lemma committed_leaf_signature g q inv path sender_index i x :
  Forall (member_proposal (group_leaf g)) (Queue.queued_proposals q) ->
  Forall (keeps_signature_key g) (Queue.queued_proposals q) ->
  committed_leaf g q inv path sender_index i = Some x ->
  (i, leaf_signature_key x) ∈ signature_key_owners inv path sender_index \/
  exists y, group_leaf g i = Some y /\ leaf_signature_key y = leaf_signature_key x /\
    i ∉ removed (Queue.queued_proposals q) /\ (is_Some path -> i <> sender_index).
Proof.
  intros Hm Hk [(p & -> & -> & ->)|(Hne & [(kp & Hkp & ->)|(Hr & [Hu|Hx])])]%committed_leaf_cases; [left..|right|right; by exists x].
  - apply elem_of_app. right. by constructor.
  - apply elem_of_app. left. apply list_elem_of_fmap. by exists (i, kp).
  - apply updated_elem, list_elem_of_omap in Hu as (p & Hp & Eu). rewrite Forall_forall in Hm, Hk.
    specialize (Hm p Hp). specialize (Hk p Hp). unfold member_proposal in Hm. unfold keeps_signature_key, update_of in Hk.
    destruct (qp_proposal p) as [|leaf| | | | | | |]; try done. injection Eu as -> Es. destruct Hm as (j & Ej & y & Hy).
    rewrite Es in Ej, Hk. injection Ej as <-. exists y. split; [done|]. split; [|done]. symmetry. by apply (Hk i x y).
Qed.

Lemma committed_keeps g content commit q sender_index :
  accepted g content commit q sender_index -> Forall (keeps_signature_key g) (pg_proposal_store g) ->
  Forall (keeps_signature_key g) (Queue.queued_proposals q).
Proof.
  intros Ha Hk. apply Forall_forall. intros p Hp i leaf x Hu Hx.
  destruct (committed_origin _ _ _ _ _ p (ac_queue _ _ _ _ _ Ha) Hp) as [[Es Et]|Hin].
  - exfalso. unfold update_of in Hu. destruct (qp_proposal p) as [|leaf'| | | | | | |] eqn:Ep; try done.
    by apply (no_inline_update g content commit q sender_index p leaf' Ha Hp).
  - rewrite Forall_forall in Hk. by apply (Hk p Hin i leaf x).
Qed.

(** C19. An accepted commit keeps the signature keys of the members distinct, if the stored
    Updates leave the signature keys of their senders as they are. *)
Theorem signature_keys_distinct {M} b n g clock content policy (staged : StagedCommit M) :
  group_after b n g -> (forall s, fc_sender (ac_content content) = Sender.Member s -> is_Some (group_leaf g s)) ->
  Forall (keeps_signature_key g) (pg_proposal_store g) -> distinct_signature_keys g ->
  PStage.stage_commit g clock content policy = Ok staged -> distinct_signature_keys (PStage.merge_commit g staged).
Proof.
  intros (Hg & _)%group_after_inv Hs Hk Hd E. destruct (stage_merge g clock content policy staged Hg Hs E) as (commit & q & idx & inv & Hm).
  pose proof (mc_accepted _ _ _ _ _ _ _ Hm) as Ha. destruct (mc_inv _ _ _ _ _ _ _ Hm) as [Hinv _].
  pose proof (accepted_members g content commit q idx Hg Ha Hs) as HF. pose proof (committed_keeps _ _ _ _ _ Ha Hk) as HK.
  pose proof (ac_keys _ _ _ _ _ Ha) as ((Hn & Hdis) & _)%key_uniqueness_Ok.
  rewrite <- (signature_key_owners_fresh q inv commit idx Hinv) in Hn.
  assert (forall i k y, (i, k) ∈ signature_key_owners inv (commit_path commit) idx -> group_leaf g y.1 = Some y.2 ->
    y.1 ∉ removed (Queue.queued_proposals q) -> (is_Some (commit_path commit) -> y.1 <> idx) ->
    leaf_signature_key y.2 <> k) as Hnew.
  { intros i k [j y] Hin Hy Hr Hne Ek. cbn in *. apply (list_elem_of_fmap_2 snd) in Hin. cbn in Hin.
    rewrite (signature_key_owners_fresh q inv commit idx Hinv), <- Ek in Hin.
    refine (Hdis _ (kept_member_elem g q j y Hg Hy Hr) _ Hin). cbn. destruct (commit_path commit) as [path|]; [|done]. cbn.
    pose proof (ac_sender _ _ _ _ _ Ha) as Hse. destruct (fc_sender (ac_content content)) as [s| | |]; try done. destruct Hse as [-> _].
    intros [= <-]. by apply Hne; [eexists|]. }
  intros i j x y Hi Hj Ek. rewrite (mc_leaf _ _ _ _ _ _ _ Hm) in Hi, Hj.
  apply committed_leaf_signature in Hi as [Hi|(x' & Hx & Ex & Hri & Hni)]; [| |done..];
    apply committed_leaf_signature in Hj as [Hj|(y' & Hy & Ey & Hrj & Hnj)]; try done.
  - rewrite Ek in Hi. by apply (NoDup_snd_inj _ _ _ _ Hn Hi Hj).
  - destruct (Hnew i _ (j, y') Hi Hy Hrj Hnj). cbn. congruence.
  - destruct (Hnew j _ (i, x') Hj Hx Hri Hni). cbn. congruence.
  - apply (Hd i j x' y'); congruence.
Qed.

(** C38. Updates are not checked for signature keys. Whenever a commit of a member is accepted that
    covers an Update whose leaf has the signature key of another member, and the commit
    neither removes nor updates that other member, who is not the committer, nor removes the
    one who updates, then both are members after the commit, with these leaves: two members
    share a signature key. *)
Theorem update_duplicates_signature_key {M} b n g clock content policy (staged : StagedCommit M) s i leaf j other :
  group_after b n g -> fc_sender (ac_content content) = Sender.Member s -> is_Some (group_leaf g s) ->
  PStage.stage_commit g clock content policy = Ok staged ->
  let ps := Queue.queued_proposals (staged_proposal_queue staged) in
  updated ps i = Some leaf -> i ∉ removed ps ->
  group_leaf g j = Some other -> j <> i -> j <> s -> j ∉ removed ps -> updated ps j = None ->
  leaf_signature_key leaf = leaf_signature_key other ->
  group_leaf (PStage.merge_commit g staged) i = Some leaf /\ group_leaf (PStage.merge_commit g staged) j = Some other /\
  ~ distinct_signature_keys (PStage.merge_commit g staged).
Proof.
  intros (Hg & _)%group_after_inv Es Hs E ps Hu Hri Hj Hji Hjs Hrj Huj Hk.
  destruct (stage_merge_queue g clock content policy staged Hg) as (commit & idx & inv & Hm); [by intros s' [= <-]%(eq_trans (eq_sym Es))|done|].
  destruct (updated_not_committer _ _ _ _ _ _ _ _ (mc_accepted _ _ _ _ _ _ _ Hm) Es Hu) as [-> His].
  assert (group_leaf (PStage.merge_commit g staged) i = Some leaf) as Hi'.
  { apply (merged_survivor _ _ _ _ _ _ _ _ _ Hm); [|done]. unfold survivors. rewrite decide_False by done. unfold ps in Hu. by rewrite Hu. }
  assert (group_leaf (PStage.merge_commit g staged) j = Some other) as Hj'.
  { apply (merged_survivor _ _ _ _ _ _ _ _ _ Hm); [|done]. unfold survivors. rewrite decide_False by done. unfold ps in Huj. by rewrite Huj. }
  split; [done|]. split; [done|]. intros Hd. by apply Hji, (Hd j i other leaf).
Qed.
End Groups.
