(* ===== verification/CommitQueueFacts.v ===== *)
(** * The proposals of a built commit

    What the committer's selection of proposals leaves in the queue, and that a receiver with
    the same proposal store reads the same queue out of the commit. *)
From S2P Require Import Prelude TreeMath BinaryTree Crypto CryptoFacts Extensions TreeSync LeafNode TreeKem Proposals ProposalStore.
From S2P Require Import PublicGroup StagedCommit ProposalStoreFacts ApplyProposalsFacts CommitFacts.

(** ** Queues as lists *)
Lemma references_of_queue q : wf_queue q -> proposal_references q = qp_reference <$> Queue.queued_proposals q.
Proof.
  intros [_ Hd Hk]. unfold Queue.queued_proposals.
  assert (forall r, r ∈ proposal_references q -> is_Some (Queue.get q r)) as Hall by (intros r; apply Hd). clear Hd.
  induction (proposal_references q) as [|r l IH]; [done|]. rewrite omap_cons.
  destruct (Hall r) as [p Hp]; [by left|]. rewrite Hp, fmap_cons, (Hk r p Hp). f_equal. apply IH.
  intros r' Hr'. apply Hall. by right.
Qed.

Lemma queue_lookup q r p :
  wf_queue q -> queued_proposals_map q !! r = Some p <-> p ∈ Queue.queued_proposals q /\ qp_reference p = r.
Proof.
  intros [_ Hd Hk]. unfold Queue.queued_proposals. rewrite list_elem_of_omap. unfold Queue.get. split.
  - intros E. split; [exists r; split; [by apply Hd; eauto|done]|by apply Hk].
  - intros ((r' & _ & E) & <-). by rewrite (Hk _ _ E).
Qed.

Lemma queue_ext q1 q2 : wf_queue q1 -> wf_queue q2 -> Queue.queued_proposals q1 = Queue.queued_proposals q2 -> q1 = q2.
Proof.
  intros H1 H2 E. pose proof (references_of_queue q1 H1) as R1. pose proof (references_of_queue q2 H2) as R2.
  assert (queued_proposals_map q1 = queued_proposals_map q2) as Em.
  { apply map_eq. intros r. apply option_eq. intros p. by rewrite !queue_lookup, E by done. }
  destruct q1, q2. cbn in *. by rewrite R1, R2, E, Em.
Qed.

Lemma first_refs_NoDup (seen : gset bytes) l :
  NoDup (qp_reference <$> l) -> (forall p, p ∈ l -> qp_reference p ∉ seen) -> first_refs seen l = l.
Proof.
  revert seen. induction l as [|p l IH]; intros seen Hn Hs; [done|]. cbn [first_refs].
  rewrite fmap_cons in Hn. apply NoDup_cons in Hn as [Hp Hn].
  rewrite decide_False by (apply Hs; by left). rewrite IH; [done..|]. intros p' Hp'.
  rewrite elem_of_union, elem_of_singleton. intros [E|Hin].
  - apply Hp. rewrite <- E. by apply list_elem_of_fmap_2.
  - revert Hin. apply Hs. by right.
Qed.

Lemma from_iter_queue q : wf_queue q -> Queue.from_iter (Queue.queued_proposals q) = q.
Proof.
  intros Hq. destruct (from_iter_spec (Queue.queued_proposals q)) as [Hw E]. apply queue_ext; [done..|]. rewrite E.
  apply first_refs_NoDup; [rewrite <- references_of_queue by done; apply Hq|]. intros p _. apply not_elem_of_empty.
Qed.

Lemma commit_list_eq q :
  Queue.commit_list q = (fun qp => match qp_type qp with
                                   | ByValue => InlineProposal (qp_proposal qp)
                                   | ByReference => Reference (qp_reference qp)
                                   end) <$> Queue.queued_proposals q.
Proof. done. Qed.

(** ** The selection of the committer *)
Definition pool_of (iter : list QueuedProposal) (pool : gmap bytes QueuedProposal) : Prop :=
  forall r p, pool !! r = Some p -> p ∈ iter /\ qp_reference p = r.

Lemma filter_step_pool own s p s' :
  Queue.filter_step own s p = Ok s' -> Queue.fs_proposal_pool s' = <[qp_reference p := p]> (Queue.fs_proposal_pool s).
Proof.
  unfold Queue.filter_step. destruct s as [adds valid pool o e r m]. cbn [Queue.fs_proposal_pool]. intros E.
  destruct (qp_proposal p); destruct (qp_sender p); repeat (case_match; try discriminate); inv_ok; done.
Qed.

Lemma filter_pool own iter l s s' :
  try_fold (Queue.filter_step own) l s = Ok s' -> (forall p, p ∈ l -> p ∈ iter) ->
  pool_of iter (Queue.fs_proposal_pool s) -> pool_of iter (Queue.fs_proposal_pool s').
Proof.
  revert s. induction l as [|p l IH]; intros s E Hl Hs; cbn [try_fold] in E; [by inv_ok|].
  apply bind_Ok in E as (s1 & E1 & E). apply (IH s1); [done|intros; apply Hl; by right|].
  rewrite (filter_step_pool _ _ _ _ E1). intros r p'. rewrite lookup_insert_Some. intros [[<- <-]|[_ H]]; [|by apply Hs].
  split; [apply Hl; by left|done].
Qed.

Lemma queue_from_pool iter pool refs q q' :
  try_fold (fun queue r => p ← ok_or (pool !! r) QueueProposalNotFound; Ok (Queue.add queue p)) refs q = Ok q' ->
  pool_of iter pool -> wf_queue q -> (forall p, p ∈ Queue.queued_proposals q -> p ∈ iter) ->
  wf_queue q' /\ forall p, p ∈ Queue.queued_proposals q' -> p ∈ iter.
Proof.
  revert q. induction refs as [|r refs IH]; intros q E Hp Hq Hin; cbn [try_fold] in E; [by inv_ok|].
  apply bind_Ok in E as (q1 & E1 & E). inv_ok. apply (IH (Queue.add q a)); [done|done|by apply wf_add|].
  intros p. rewrite queued_proposals_add, elem_of_app by done. intros [H|H%first_refs_elem]; [by apply Hin|].
  apply list_elem_of_singleton in H as ->. by apply (Hp r).
Qed.

Lemma filter_proposals_spec values iter own q b :
  Queue.filter_proposals values iter own = Ok (q, b) -> wf_queue q /\ forall p, p ∈ Queue.queued_proposals q -> p ∈ iter.
Proof.
  unfold Queue.filter_proposals. intros E. apply bind_Ok in E as (s & Es & E). apply bind_Ok in E as (q' & Eq & [= -> _]).
  eapply queue_from_pool; [exact Eq| |exact wf_default|cbn; by intros ? ?%not_elem_of_nil].
  eapply filter_pool; [exact Es|done|]. cbn. intros r p ?%lookup_empty_Some. done.
Qed.

(** ** The receiver's queue *)
Section Received.
Context {OC : OpenMlsCrypto} {TC : TlsCodec}.

(** A store of received proposals, each of which can be referred to. *)
Definition received_store (store : ProposalStore) : Prop :=
  NoDup (qp_reference <$> store) /\ Forall (fun p => qp_type p = ByReference) store.

Lemma by_reference_lookup (store : ProposalStore) p :
  NoDup (qp_reference <$> store) -> p ∈ store -> Queue.proposals_by_reference store !! qp_reference p = Some p.
Proof.
  unfold Queue.proposals_by_reference. generalize (∅ : gmap bytes QueuedProposal). induction store as [|x l IH] using rev_ind; intros m Hn.
  { by intros ?%not_elem_of_nil. }
  rewrite fmap_app in Hn. apply NoDup_app in Hn as (Hn & Hx & _). rewrite foldl_app, elem_of_app, list_elem_of_singleton. cbn [foldl].
  intros [Hp| ->]; [|by rewrite lookup_insert_eq]. rewrite lookup_insert_ne; [by apply IH|].
  intros E. apply (Hx (qp_reference p)); [by apply list_elem_of_fmap_2|]. rewrite <- E. by left.
Qed.

(** A proposal of a commit of [sender]: pending in the store, or its own. *)
Definition committed_by (cs : Ciphersuite) (store : ProposalStore) (sender : Sender.t) (p : QueuedProposal) : Prop :=
  p ∈ store \/ from_proposal_and_sender cs (qp_proposal p) sender = Ok p.

Lemma commit_list_resolves cs store sender l :
  received_store store -> Forall (committed_by cs store sender) l ->
  Forall2 (resolves cs store sender)
    ((fun qp => match qp_type qp with ByValue => InlineProposal (qp_proposal qp) | ByReference => Reference (qp_reference qp) end) <$> l) l.
Proof.
  intros [Hn Ht] HF. induction HF as [|p l Hp HF IH]; [constructor|]. rewrite fmap_cons. constructor; [|done].
  destruct Hp as [Hp|Hp].
  - rewrite (proj1 (Forall_forall _ _) Ht p Hp). cbn. by apply by_reference_lookup.
  - pose proof Hp as (_ & _ & Et)%inline_proposal. by rewrite Et.
Qed.

(** The receiver of the queue's commit list gets the queue back. *)
Lemma received_queue cs store sender q :
  wf_queue q -> received_store store -> Forall (committed_by cs store sender) (Queue.queued_proposals q) ->
  Forall (fun p => Queue.removes_sender sender (qp_proposal p) = false) (Queue.queued_proposals q) ->
  NoDup (psk_ids (Queue.queued_proposals q)) ->
  Queue.from_committed_proposals cs (Queue.commit_list q) store sender = Ok q.
Proof.
  intros Hq Hs Hc Hr Hn. unfold Queue.from_committed_proposals. rewrite commit_list_eq.
  destruct (committed_fold_intro cs store sender _ Queue.default_queue [] _ (commit_list_resolves cs store sender _ Hs Hc) Hr) as [seen E].
  { by rewrite app_nil_r. }
  rewrite E. cbn. f_equal. by apply from_iter_queue.
Qed.

(** ** What the committer has checked *)
Lemma psk_proposals_ids q : (Queue.psk_proposals q).*1 = psk_ids (Queue.queued_proposals q).
Proof.
  unfold Queue.psk_proposals, psk_ids. induction (Queue.queued_proposals q) as [|p l IH]; [done|].
  rewrite !omap_cons. destruct (qp_proposal p); cbn; rewrite ?IH; done.
Qed.

Lemma validated_psks_NoDup g q : PGroup.validate_pre_shared_key_proposals g q = Ok tt -> NoDup (psk_ids (Queue.queued_proposals q)).
Proof.
  unfold PGroup.validate_pre_shared_key_proposals. intros E. apply bind_Ok in E as (seen & E & _).
  rewrite <- psk_proposals_ids. rewrite <- reverse_Permutation, <- (app_nil_r (reverse _)).
  assert (NoDup ([] : list PreSharedKeyId)) as Hn by constructor.
  set (visited := [] : list PreSharedKeyId) in *. clearbody visited. revert visited E Hn.
  induction (Queue.psk_proposals q) as [|[id s] l IH]; intros visited E Hn; cbn [try_fold] in E; [done|].
  apply bind_Ok in E as (v & Ev & E). apply bind_Ok in Ev as ([] & _ & Ev). apply bind_Ok in Ev as ([] & _ & Ev).
  case_bool_decide as Hin; [done|]. injection Ev as <-. rewrite fmap_cons, reverse_cons, <- (assoc_L (++)). apply (IH _ E).
  by apply NoDup_cons.
Qed.

Lemma not_removed_removes_none s ps :
  s ∉ removed ps -> Forall (fun p => Queue.removes_sender (Sender.Member s) (qp_proposal p) = false) ps.
Proof.
  intros Hs. apply Forall_forall. intros p Hp. unfold Queue.removes_sender. apply bool_decide_eq_false. intros [l E].
  apply Hs, list_elem_of_omap. exists p. split; [done|]. unfold removal_of.
  destruct (qp_proposal p); cbn in E |- *; try discriminate.
  match type of E with context [?i =? s] => destruct (Z.eqb_spec i s) as [Ei|]; [by rewrite Ei|discriminate] end.
Qed.
End Received.
