(* ===== verification/CommitAgreement.v ===== *)
(** * Committer and receivers agree

    The committer's preparation of a commit with a path and a receiver's processing of it,
    from the same group and the same proposals, end in the same state and secret. *)
From S2P Require Import Prelude TreeMath TreeMathFacts BinaryTree BinaryTreeFacts Crypto CryptoFacts Extensions TreeSync LeafNode TreeKem.
From S2P Require Import Proposals ProposalStore ProposalStoreFacts PublicGroup StagedCommit LeafNodeFacts.
From S2P Require Import TreeSyncFacts TreeSyncDiffFacts TreeKemFacts TreeStateFacts TreeKemAgreement.
From S2P Require Import ValidationFacts ApplyProposalsFacts CommitFacts PublicGroupFacts.

Section Agreement.
Context {OC : OpenMlsCrypto} {TC : TlsCodec}.
Implicit Types (g : PublicGroup) (s : PublicGroupDiff).

(** The parts of a successful [compute_path] of a member. *)
Lemma compute_path_Ok random leaf_random l excl params signer extensions constraints s result s' :
  PGDiff.compute_path random leaf_random l excl TreeKem.Member params signer extensions constraints s = (Ok result, s') ->
  exists params' d' plain keypairs secret nodes leaf context,
    let cs := gc_ciphersuite (pgd_group_context s) in
    up_constraints params' = constraints /\
    Kem.apply_own_update_path random cs TreeKem.Member l new_placeholder
      (fun hash => new_with_parent_hash leaf_random cs hash params' (gc_group_id (pgd_group_context s)) l signer) None (pgd_diff s)
      = (Ok (plain, keypairs, secret), d') /\
    PGDiff.update_group_context extensions (PGDiff.set_diff s d') = (Ok tt, s') /\
    tls_group_context (pgd_group_context s') = Some context /\
    Kem.encrypt_path d' cs plain context excl l = Ok nodes /\ Diff.leaf d' l = Some leaf /\
    result = mkPathComputationResult (Some secret) (Some (mkUpdatePath leaf nodes)) (Some plain) keypairs.
Proof.
  intros E. unfold PGDiff.compute_path in E.
  apply stateful_bind_Ok in E as (cs & s0 & [= <- <-] & E). apply stateful_bind_Ok in E as (gid & s0 & [= <- <-] & E).
  apply stateful_bind_Ok in E as (params' & s0 & Ep & E).
  assert (up_constraints params' = constraints /\ s0 = s) as [Hup ->].
  { apply stateful_bind_Ok in Ep as (leaf & s1 & E1 & Ep). injection E1 as _ <-.
    destruct (resolve_capabilities_for_existing_leaf _ _ _). by injection Ep as <- <-. }
  clear Ep. apply stateful_bind_Ok in E as ([[plain keypairs] secret] & s1 & E1 & E).
  unfold PGDiff.on_diff in E1.
  destruct (Kem.with_err _ _ (pgd_diff s)) as [r1 d'] eqn:Eo in E1. injection E1 as -> <-. apply with_err_Ok in Eo.
  apply stateful_bind_Ok in E as ([] & s2 & E2%with_err_Ok & E).
  apply stateful_bind_Ok in E as (context & s3 & E3 & E). injection E3 as E3%ok_or_Ok <-.
  apply stateful_bind_Ok in E as (nodes & s3 & E4 & E). injection E4 as E4%map_err_Ok <-.
  apply stateful_bind_Ok in E as (leaf & s3 & E5 & E). injection E5 as E5%ok_or_Ok <-.
  injection E as <- <-. apply update_group_context_Ok in E2 as E2'. destruct E2' as (hash & _ & ->).
  exists params', d', plain, keypairs, secret, nodes, leaf, context. cbn in *. done.
Qed.

(** A member that the proposals leave in the group. *)
Lemma survivor d d' h ps inv i :
  applied d d' h ps inv -> is_Some (Diff.leaf d i) -> i ∉ removed ps -> is_Some (Diff.leaf d' i) /\ i ∉ inv.*1.
Proof.
  intros Ha Hs Hr. assert (is_Some (survivors ps (Diff.leaf d) i)) as Hsv.
  { unfold survivors. rewrite decide_False by done. by destruct (updated ps i). }
  split.
  - rewrite (ap_leaf _ _ _ _ _ Ha). by destruct (_ !! i).
  - intros Hin. destruct (ap_leftmost _ _ _ _ _ Ha i Hin) as [E _]. rewrite E in Hsv. by destruct Hsv.
Qed.

(** The tree does not depend on whose copy of the group it is. *)
Lemma apply_removes_own own own' b b' rs s v s' :
  PGDiff.apply_removes own b rs s = (Ok v, s') -> exists v', PGDiff.apply_removes own' b' rs s = (Ok v', s').
Proof.
  revert b b' s. induction rs as [|p rs IH]; intros b b' s; cbn [PGDiff.apply_removes]; [intros [= _ <-]; eauto|].
  intros E. apply stateful_bind_Ok in E as (l & s1 & E1 & E). injection E1 as E1 <-.
  unfold mbind, stateful_bind, lifting. rewrite E1. destruct l as [l|]; [|by eapply IH].
  apply stateful_bind_Ok in E as ([] & s1 & -> & E). by eapply IH.
Qed.

Lemma apply_proposals_own q own own' s v s' :
  PGDiff.apply_proposals q own s = (Ok v, s') ->
  exists b, PGDiff.apply_proposals q own' s
    = (Ok (mkApplyProposalsValues (apv_path_required v) b (apv_invitation_list v) (apv_presharedkeys v)
             (apv_external_init_proposal_option v) (apv_extensions v)), s').
Proof.
  unfold PGDiff.apply_proposals. cbv zeta. intros E. apply stateful_bind_Ok in E as ([] & s1 & E1 & E).
  apply stateful_bind_Ok in E as (b2 & s2 & E2 & E). apply stateful_bind_Ok in E as (b3 & s3 & E3 & E).
  apply (apply_removes_own _ own' _ false) in E2 as [b2' E2]. apply (apply_removes_own _ own' _ b2') in E3 as [b3' E3].
  apply stateful_bind_Ok in E as (inv & s4 & E4 & E). apply stateful_bind_Ok in E as ([] & s5 & E5 & [= <- <-]).
  exists b3'. unfold mbind, stateful_bind. by rewrite E1, E2, E3, E4, E5.
Qed.

(** An observer that applies the proposals and the path of a commit reaches the state of the
    committer. *)
Lemma observer_follows g q (s : LeafNodeIndex.t) own v diff diff' random leaf_random params signer constraints result :
  group_inv g -> Forall (member_proposal (group_leaf g)) (Queue.queued_proposals q) ->
  is_Some (group_leaf g s) -> s ∉ removed (Queue.queued_proposals q) ->
  PGDiff.apply_proposals q own (PGroup.empty_diff g) = (Ok v, diff) ->
  PGDiff.compute_path random leaf_random s (exclusion_list v) TreeKem.Member params signer (apv_extensions v) constraints diff
    = (Ok result, diff') ->
  exists path diff1, pcr_encrypted_path result = Some path /\
    PGDiff.apply_received_update_path (PGroup.ciphersuite g) s path diff = (Ok tt, diff1) /\
    PGDiff.update_group_context (apv_extensions v) diff1 = (Ok tt, diff').
Proof.
  intros Hg HF Hs Hsr Hap Hcp. destruct (gi_tree g Hg) as [h Hi].
  pose proof (apply_proposals_spec q own (PGroup.empty_diff g) h Hi HF) as Hsp. rewrite Hap in Hsp.
  destruct Hsp as (d & h1 & inv & -> & -> & Ha). destruct (survivor _ _ _ _ _ s Ha Hs Hsr) as [Hs' _].
  destruct (compute_path_Ok _ _ _ _ _ _ _ _ _ _ _ Hcp)
    as (params' & d' & plain & keypairs & secret & nodes & leaf & context & _ & Happ & Hctx & Htls & Henc & Hleaf & ->).
  cbn in Happ, Henc |- *.
  destruct (received_agrees d d' h1 (PGroup.ciphersuite g) s random new_placeholder
    (fun hash => new_with_parent_hash leaf_random (PGroup.ciphersuite g) hash params' (PGroup.group_id g) s signer) None plain keypairs secret context
    (exclusion_list (values_of q own inv)) nodes (ap_inv _ _ _ _ _ Ha) Hs') as (leaf' & Hl & Hrec); [|exact Happ|exact Henc|].
  { intros hash lf kp E. by apply new_with_parent_hash_Ok in E as [? _]. }
  rewrite Hleaf in Hl. injection Hl as <-.
  eexists _, (PGDiff.set_diff (PGroup.empty_diff g) d'). split; [done|].
  unfold PGDiff.apply_received_update_path, PGDiff.on_diff. cbn [pgd_diff PGDiff.set_diff]. split; [by rewrite Hrec|exact Hctx].
Qed.

(** A receiver that applies the proposals and the path of a commit reaches the state of the
    committer and its commit secret. *)
Lemma receiver_follows `{!LawfulHpke} g q (s r : LeafNodeIndex.t) v diff diff' random leaf_random params signer
    constraints result owned :
  group_inv g -> Forall (member_proposal (group_leaf g)) (Queue.queued_proposals q) ->
  is_Some (group_leaf g s) -> s ∉ removed (Queue.queued_proposals q) ->
  is_Some (group_leaf g r) -> r ∉ removed (Queue.queued_proposals q) -> s <> r ->
  PGDiff.apply_proposals q (Some s) (PGroup.empty_diff g) = (Ok v, diff) ->
  PGDiff.compute_path random leaf_random s (exclusion_list v) TreeKem.Member params signer (apv_extensions v) constraints diff
    = (Ok result, diff') ->
  owns_path_keys (pgd_diff diff) (PGroup.ciphersuite g) r owned ->
  exists v' path secret diff1 keypairs,
    PGDiff.apply_proposals q (Some r) (PGroup.empty_diff g) = (Ok v', diff) /\ apv_self_removed v' = false /\
    pcr_encrypted_path result = Some path /\ pcr_commit_secret result = Some secret /\
    PGDiff.apply_received_update_path (PGroup.ciphersuite g) s path diff = (Ok tt, diff1) /\
    PGDiff.update_group_context (apv_extensions v') diff1 = (Ok tt, diff') /\
    PGDiff.decrypt_path diff' owned r s (update_nodes path) (exclusion_list v') = Ok (keypairs, secret).
Proof.
  intros Hg HF Hs Hsr Hr Hrr Hne Hap Hcp Hown.
  destruct (gi_tree g Hg) as [h Hi].
  destruct (apply_proposals_own q (Some s) (Some r) _ _ _ Hap) as [b' Hap'].
  pose proof (apply_proposals_spec q (Some s) (PGroup.empty_diff g) h Hi HF) as Hsp. rewrite Hap in Hsp.
  destruct Hsp as (d & h1 & inv & -> & -> & Ha).
  pose proof (apply_proposals_spec q (Some r) (PGroup.empty_diff g) h Hi HF) as Hsp. rewrite Hap' in Hsp.
  destruct Hsp as (_ & _ & inv' & _ & Ev & _). injection Ev as Eb Ei. subst b' inv'.
  assert (own_removed (Some r) (Queue.queued_proposals q) = false) as Er by (by apply bool_decide_eq_false).
  destruct (survivor _ _ _ _ _ s Ha Hs Hsr) as [Hs' _]. destruct (survivor _ _ _ _ _ r Ha Hr Hrr) as [Hr' Hex].
  destruct (compute_path_Ok _ _ _ _ _ _ _ _ _ _ _ Hcp)
    as (params' & d' & plain & keypairs & secret & nodes & leaf & context & _ & Happ & Hctx & Htls & Henc & Hleaf & ->).
  cbn in Happ, Henc, Hown |- *.
  destruct (path_agreement d d' h1 (PGroup.ciphersuite g) s r random new_placeholder
    (fun hash => new_with_parent_hash leaf_random (PGroup.ciphersuite g) hash params' (PGroup.group_id g) s signer) None plain keypairs secret context
    (exclusion_list (values_of q (Some s) inv)) nodes owned (ap_inv _ _ _ _ _ Ha) Hs' Hr' Hne) as (leaf' & common & kps & Hl & Hrec & Hdec & _);
    [| |exact Hown|exact Happ|exact Henc|].
  { unfold exclusion_list. cbn. by rewrite elem_of_list_to_set. }
  { intros hash lf kp E. by apply new_with_parent_hash_Ok in E as [? _]. }
  rewrite Hleaf in Hl. injection Hl as <-.
  eexists _, _, _, (PGDiff.set_diff (PGroup.empty_diff g) d'), kps. split; [exact Hap'|]. cbn. split; [exact Er|].
  split; [done|]. split; [done|]. unfold PGDiff.apply_received_update_path, PGDiff.on_diff. cbn [pgd_diff PGDiff.set_diff].
  split; [by rewrite Hrec|]. split; [exact Hctx|].
  apply update_group_context_Ok in Hctx as (hash & _ & ->). cbn in Htls. unfold PGDiff.decrypt_path. cbn. rewrite Htls.
  cbn [ok_or]. rewrite ok_bind. exact Hdec.
Qed.

(** C3. Committer and receivers agree. Take any group that can be reached, a queue of
    proposals of its members, and two members [s] and [r] that the proposals do not remove.
    If [s] applies the proposals and computes a path for its commit, then [r], applying the
    same proposals and the received path, reaches exactly the group state of [s] (tree,
    context with tree hash, epoch and extensions), and, holding the private keys the tree
    expects of it, decrypts the commit secret of [s]. *)
Theorem commit_agreement `{!LawfulHpke} b n g q (s r : LeafNodeIndex.t) v diff diff' random leaf_random params signer
    constraints result owned :
  group_after b n g -> Forall (member_proposal (group_leaf g)) (Queue.queued_proposals q) ->
  is_Some (group_leaf g s) -> s ∉ removed (Queue.queued_proposals q) ->
  is_Some (group_leaf g r) -> r ∉ removed (Queue.queued_proposals q) -> s <> r ->
  PGDiff.apply_proposals q (Some s) (PGroup.empty_diff g) = (Ok v, diff) ->
  PGDiff.compute_path random leaf_random s (exclusion_list v) TreeKem.Member params signer (apv_extensions v) constraints diff
    = (Ok result, diff') ->
  owns_path_keys (pgd_diff diff) (PGroup.ciphersuite g) r owned ->
  exists v' path secret diff1 keypairs,
    PGDiff.apply_proposals q (Some r) (PGroup.empty_diff g) = (Ok v', diff) /\ apv_self_removed v' = false /\
    pcr_encrypted_path result = Some path /\ pcr_commit_secret result = Some secret /\
    PGDiff.apply_received_update_path (PGroup.ciphersuite g) s path diff = (Ok tt, diff1) /\
    PGDiff.update_group_context (apv_extensions v') diff1 = (Ok tt, diff') /\
    PGDiff.decrypt_path diff' owned r s (update_nodes path) (exclusion_list v') = Ok (keypairs, secret).
Proof. intros (Hg & _)%group_after_inv. by apply receiver_follows. Qed.
End Agreement.
