(* ===== verification/EpochAgreement.v ===== *)
(** * Members agree on the next epoch

    The commit that one member builds, and another member's staging of it: both reach the
    same group state and the same secrets of the next epoch. *)
From S2P Require Import Prelude TreeMath TreeMathFacts BinaryTree BinaryTreeFacts Crypto CryptoFacts SecretTree PastSecrets Extensions.
From S2P Require Import TreeSync LeafNode TreeKem Proposals KeySchedule Framing PrivateMessages Welcome ProposalStore PublicGroup StagedCommit.
From S2P Require Import MessageValidation MemberGroup MemberCommit CommitBuilder ProposalStoreFacts TreeSyncFacts TreeSyncDiffFacts TreeKemFacts.
From S2P Require Import TreeStateFacts TreeKemAgreement LeafNodeFacts ValidationFacts ApplyProposalsFacts CommitFacts PublicGroupFacts.
From S2P Require Import CommitAgreement CommitQueueFacts.

Section Epochs.
Context {OC : OpenMlsCrypto} {TC : TlsCodec}.
Implicit Types (g : PublicGroup) (ga gb : MlsGroup) (s : PublicGroupDiff).

(** ** Building a commit, step by step *)

(** The state of a member after a commit. *)
Definition member_state (es : EpochSecrets) (context : bytes) (n : TreeSize.t) (own : LeafNodeIndex.t)
    (staged : StagedPublicGroupDiff) (keypairs : list (bytes * bytes)) (leaf_keypair : option (bytes * bytes))
    (leaf : option LeafNode) : MemberStagedCommitState :=
  let '(group_secrets, message_secrets) := EpSecrets.split_secrets es context n own in
  mkMemberStagedCommitState group_secrets message_secrets staged keypairs leaf_keypair leaf.

(** The signer of group infos: the new one, if the commit replaces it. *)
Definition effective_signer (old_signer : bytes -> option bytes) (new_signer : option NewSignerBundle) : bytes -> option bytes :=
  match new_signer with Some bundle => ns_signer bundle | None => old_signer end.

(** What the commit of [result], with proposals [q] and path [path], went through. *)
Record built_commit (loaded : LoadedPsks) ga (old_signer : bytes -> option bytes) (new_signer : option NewSignerBundle)
    (result : CreateCommitResult) (q : ProposalQueue) (v : ApplyProposalsValues) (path : PathComputationResult)
    (diff1 diff2 diff3 : PublicGroupDiff) (content : AuthenticatedContent) (context : bytes) (es : EpochSecrets) (tag : bytes)
    (staged : StagedPublicGroupDiff) : Prop := {
  bc_content : exists aad wire_format, new_commit (mkFramingParameters aad wire_format) (Sender.Member (own_leaf_index ga))
                 (mkCommit (Queue.commit_list q) (pcr_encrypted_path path)) (MGroup.context ga) old_signer = Ok content;
  bc_confirmed : PGDiff.update_confirmed_transcript_hash content diff1 = (Ok tt, diff2);
  bc_context : tls_group_context (pgd_group_context diff2) = Some context;
  bc_secrets : exists joiner welcome,
    CBuilder.commit_epoch_secrets ga (lo_psks loaded) (pcr_commit_secret path) context = Ok (joiner, welcome, es) /\
    CBuilder.welcome_and_group_info loaded ga diff3 tag (effective_signer old_signer new_signer) joiner welcome es v (pcr_plain_path path)
      = Ok (ccr_welcome_option result, ccr_group_info result);
  bc_tag : confirmation_tag_new (es_confirmation_key es) (MGroup.ciphersuite ga)
             (gc_confirmed_transcript_hash (pgd_group_context diff2)) = Ok tag;
  bc_interim : PGDiff.update_interim_transcript_hash (MGroup.ciphersuite ga) tag diff2 = (Ok tt, diff3);
  bc_staged : PGDiff.into_staged_diff diff3 (MGroup.ciphersuite ga) = Ok staged;
  bc_commit : ccr_commit result = set_confirmation_tag content tag;
  bc_state : ccr_staged_commit result = mkStagedCommit q (GroupMemberState
    (member_state es context (size (pgd_diff diff3)) (own_leaf_index ga) staged (pcr_new_keypairs path) None
       (update_leaf_node <$> pcr_encrypted_path path)));
}.

Lemma build_on_diff_Ok loaded ga random leaf_random params old_signer new_signer q own_updates s result s' :
  CBuilder.is_external_commit loaded = false ->
  CBuilder.build_on_diff loaded ga random leaf_random params old_signer new_signer q own_updates s = (Ok result, s') ->
  exists v diff path diff1 diff2 diff3 content context es tag staged,
    PGDiff.apply_proposals q (Some (own_leaf_index ga)) s = (Ok v, diff) /\ apv_self_removed v = false /\
    CBuilder.commit_path_result loaded ga random leaf_random params old_signer new_signer own_updates v diff = (Ok path, diff1) /\
    built_commit loaded ga old_signer new_signer result q v path diff1 diff2 diff3 content context es tag staged.
Proof.
  intros Hext E. unfold CBuilder.build_on_diff, CBuilder.commit_sender in E. unfold CBuilder.is_external_commit in *.
  rewrite Hext in E. apply bool_decide_eq_false in Hext. cbv zeta in E.
  destruct (lo_external_commit_info loaded) as [info|]; [destruct Hext; eauto|].
  apply stateful_bind_Ok in E as (v & diff & Ev%with_err_Ok & E). destruct (apv_self_removed v) eqn:Er; [done|]. cbn [andb negb] in E.
  apply stateful_bind_Ok in E as (path & diff1 & Ep & E).
  apply stateful_bind_Ok in E as (outgoing & d & [_ ->]%lifting_Ok & E).
  apply stateful_bind_Ok in E as (content & d & [Ec%map_err_Ok ->]%lifting_Ok & E).
  apply stateful_bind_Ok in E as ([] & diff2 & Eh%with_err_Ok & E).
  apply stateful_bind_Ok in E as (context & d & [= Ectx%ok_or_Ok <-] & E).
  apply stateful_bind_Ok in E as ([[joiner welcome] es] & d & [Es ->]%lifting_Ok & E).
  apply stateful_bind_Ok in E as (tag & d & [= Et%map_err_Ok <-] & E).
  apply stateful_bind_Ok in E as ([] & diff3 & Ei%with_err_Ok & E).
  apply stateful_bind_Ok in E as ([wel gi] & d & [= Ew <-] & E).
  apply stateful_bind_Ok in E as ([gs ms] & d & [= Egs Ems <-] & E).
  apply stateful_bind_Ok in E as (staged & d & [= Est%map_err_Ok <-] & E). injection E as <- <-.
  exists v, diff, path, diff1, diff2, diff3, content, context, es, tag, staged.
  repeat (split; [done|]). split; [eauto 8..|done|]. cbn. unfold member_state. by rewrite <- Egs, <- Ems.
Qed.
(** ** The key schedule of both sides *)

(** Two members of the same epoch, as far as the group and its secrets go. *)
Record same_group ga gb : Prop := {
  sg_group : public_group ga = public_group gb;
  sg_secrets : group_epoch_secrets ga = group_epoch_secrets gb;
}.

Lemma epoch_secrets_agree ga gb storage v psks commit_secret context joiner welcome es :
  same_group ga gb -> apv_external_init_proposal_option v = None ->
  load_psks (stored_psk storage) (resumption_psk_store gb) (Some (MGroup.group_id gb)) None (apv_presharedkeys v) = Ok psks ->
  CBuilder.commit_epoch_secrets ga psks commit_secret context = Ok (joiner, welcome, es) ->
  MCommit.derive_epoch_secrets gb storage v (group_epoch_secrets gb)
    (default (commit_secret_zero (MGroup.ciphersuite gb)) commit_secret) context = Ok es.
Proof.
  intros [Hg Hs] Hext Hpsk. unfold CBuilder.commit_epoch_secrets, MCommit.derive_epoch_secrets. cbv zeta.
  unfold MGroup.ciphersuite, MGroup.group_id in *. rewrite Hs, Hg, Hext, Hpsk. intros E.
  apply bind_Ok in E as (js & Ej%map_err_Ok & E). apply bind_Ok in E as (psk & Ep%map_err_Ok & E).
  apply bind_Ok in E as (ks & Ek%map_err_Ok & E). apply bind_Ok in E as (w & _ & E).
  destruct (KSched.add_context context ks) as [r ks'] eqn:Ea. apply bind_Ok in E as ([] & Er%map_err_Ok & E).
  apply bind_Ok in E as (es' & Ee%map_err_Ok & [= _ _ <-]). subst r.
  rewrite ok_bind. assert (joiner_secret_new (PGroup.ciphersuite (public_group gb))
    (Some (default (commit_secret_zero (PGroup.ciphersuite (public_group gb))) commit_secret))
    (ges_init_secret (group_epoch_secrets gb)) context = Ok js) as -> by (by destruct commit_secret).
  cbn [map_err]. rewrite !ok_bind, Ep. cbn [map_err]. rewrite ok_bind, Ek. cbn [map_err]. rewrite ok_bind, Ea.
  cbn [map_err]. by rewrite ok_bind, Ee.
Qed.

(** ** The leaf of the path *)
Lemma check_add_extensions constraints extensions caps ct :
  Constraints.check (Constraints.add_group_context_extensions constraints extensions) caps ct = Ok tt ->
  Constraints.check constraints caps ct = Ok tt.
Proof.
  unfold Constraints.check. cbn. intros E. apply bind_Ok in E as ([] & Er & E).
  assert (Constraints.check_required caps (lc_required_capabilities constraints) = Ok tt) as ->.
  { destruct (Exts.required_capabilities extensions); [|done]. revert Er. clear.
    induction (lc_required_capabilities constraints) as [|rc l IH]; cbn; [done|]. intros E.
    apply bind_Ok in E as ([] & -> & E). rewrite ok_bind. by apply IH. }
  rewrite ok_bind. destruct (existsb _ (elements (_ ∪ _))) eqn:He; [done|]. rewrite existsb_false in He.
  rewrite (proj2 (existsb_false _ _)); [done|]. intros t Ht. apply He, elem_of_elements, elem_of_union. left.
  by apply elem_of_elements.
Qed.
(** The new leaf of an own path is the one that was built. *)
Lemma own_update_leaf random cs l placeholder new_leaf override d x d' :
  Kem.apply_own_update_path random cs TreeKem.Member l placeholder new_leaf override d = (Ok x, d') ->
  exists hash leaf kp, new_leaf hash = Ok (leaf, kp) /\ Diff.leaf d' l = Some (leaf : LeafNode).
Proof.
  unfold Kem.apply_own_update_path. intros E. apply stateful_bind_Ok in E as ([] & d0 & _ & E).
  apply stateful_bind_Ok in E as ([[[path nodes] kps] secret] & d1 & _ & E).
  apply stateful_bind_Ok in E as (hash & d2 & _ & E).
  apply stateful_bind_Ok in E as ([leaf kp] & d3 & [El%map_err_Ok ->]%lifting_Ok & E).
  apply stateful_bind_Ok in E as ([] & d4 & [= <-] & [= <- <-]). exists hash, leaf, kp. split; [done|].
  rewrite leaf_replace_leaf. by case_decide.
Qed.

(** The members have a credential type that all of them support. *)
Definition common_credential g : Prop := lc_credentials_supported_by_all (PGroup.leaf_node_constraints g) <> ∅.

Lemma contains_supported g leaf :
  PGroup.supports_group_context_extensions g leaf = true ->
  Caps.contains_extensions (payload_capabilities (payload leaf)) (gc_extensions (pg_group_context g)) = true.
Proof.
  unfold PGroup.supports_group_context_extensions, Caps.contains_extensions. rewrite !forallb_forall. intros H t Ht.
  apply list_elem_of_In, list_elem_of_filter in Ht as [Hd (e & -> & He)%list_elem_of_fmap].
  specialize (H e (proj1 (list_elem_of_In _ _) He)). unfold LNode.supports_extension in H. by rewrite Hd in H.
Qed.

Lemma path_leaf_accepted g clock random leaf_random l excl params signer extensions new_extensions s result s' refs :
  PGroup.version g = ProtocolVersion.Mls10 -> common_credential g ->
  gc_ciphersuite (pgd_group_context s) = PGroup.ciphersuite g ->
  PGDiff.compute_path random leaf_random l excl TreeKem.Member params signer extensions
    (match new_extensions with
     | Some e => Constraints.add_group_context_extensions (PGroup.leaf_node_constraints g) e
     | None => PGroup.leaf_node_constraints g
     end) s = (Ok result, s') ->
  PStage.check_path_leaf g clock (mkCommit refs (pcr_encrypted_path result)) = Ok tt.
Proof.
  intros Hver Hcred Hcs E.
  destruct (compute_path_Ok _ _ _ _ _ _ _ _ _ _ _ E)
    as (params' & d' & plain & kps & secret & nodes & leaf & ctx & Hup & Happ & _ & _ & _ & Hleaf & ->).
  destruct (own_update_leaf _ _ _ _ _ _ _ _ _ Happ) as (hash & leaf' & kp & Hnew & Hl). rewrite Hleaf in Hl. injection Hl as <-.
  apply new_with_parent_hash_enforced in Hnew as (p0 & p & sg & -> & Hsrc & _ & Hen). rewrite Hcs in Hen.
  assert (enforced p0 p (PGroup.ciphersuite g) ProtocolVersion.default (PGroup.leaf_node_constraints g)) as Hen'.
  { destruct Hen as [H1 H2 H3 H4 H5 H6 H7 H8 H9]. split; try done. rewrite Hup in H9.
    destruct new_extensions; [by apply check_add_extensions in H9|done]. }
  destruct (enforced_accepted g p0 p sg Hver (or_intror Hcred) Hen') as [Hc Hx].
  unfold PStage.check_path_leaf, PGroup.validate_leaf_node, LNode.life_time. cbn [commit_path pcr_encrypted_path update_leaf_node payload].
  rewrite (en_source _ _ _ _ _ Hen), Hsrc. cbn [payload] in *. rewrite Hc, ok_bind. cbn [map_err]. rewrite ok_bind.
  apply contains_supported in Hx. cbn [payload] in Hx. by rewrite Hx.
Qed.
(** ** Validation by the receiver *)
Lemma removed_leaf_Ok p o : PGDiff.removed_leaf p = Ok o -> o = removal_of p.
Proof. unfold PGDiff.removed_leaf, removal_of. destruct (qp_proposal p), (qp_sender p); intros E; inv_ok; done. Qed.

Lemma apply_removes_value own b rs s v s' : PGDiff.apply_removes own b rs s = (Ok v, s') -> v = b || own_removed own rs.
Proof.
  revert b s. induction rs as [|p rs IH]; intros b s; cbn [PGDiff.apply_removes].
  { intros [= <- _]. destruct own; by rewrite orb_comm. }
  intros E. apply stateful_bind_Ok in E as (o & s1 & [Eo%removed_leaf_Ok ->]%lifting_Ok & E). destruct o as [l|].
  - apply stateful_bind_Ok in E as ([] & s2 & _ & E). rewrite (IH _ _ E), (own_removed_cons own p rs l) by done.
    by rewrite orb_assoc.
  - rewrite (IH _ _ E). f_equal. unfold own_removed, removed. by rewrite omap_cons, <- Eo.
Qed.

Lemma self_removed_value q own s v s' :
  PGDiff.apply_proposals q own s = (Ok v, s') -> apv_self_removed v = own_removed own (Queue.queued_proposals q).
Proof.
  unfold PGDiff.apply_proposals. cbv zeta. intros E. apply stateful_bind_Ok in E as ([] & s1 & _ & E).
  apply stateful_bind_Ok in E as (b2 & s2 & E2%apply_removes_value & E). apply stateful_bind_Ok in E as (b3 & s3 & E3%apply_removes_value & E).
  apply stateful_bind_Ok in E as (inv & s4 & _ & E). apply stateful_bind_Ok in E as ([] & s5 & _ & [= <- _]).
  cbn. rewrite E3, E2. apply own_removed_filtered.
Qed.

(** The queue of a built commit holds pending proposals and own ones. *)
Lemma commit_queue_Ok loaded ga values f q own_updates :
  CBuilder.commit_queue loaded ga values f = Ok (q, own_updates) ->
  wf_queue q /\ Forall (committed_by (MGroup.ciphersuite ga) (MGroup.proposal_store ga) (CBuilder.commit_sender loaded ga))
                  (Queue.queued_proposals q).
Proof.
  unfold CBuilder.commit_queue. intros E. apply bind_Ok in E as (own & Eo%map_err_Ok & E).
  apply map_err_Ok, filter_proposals_spec in E as [Hw Hin]. split; [done|]. apply Forall_forall. intros p Hp.
  apply Hin, list_elem_of_filter in Hp as [_ [Hp|Hp]%elem_of_app].
  - left. destruct (lo_consume_proposal_store loaded); [done|by apply not_elem_of_nil in Hp].
  - right. apply try_map_Forall2 in Eo. apply list_elem_of_lookup in Hp as (i & Hi).
    destruct (Forall2_lookup_r _ _ _ _ _ Eo Hi) as (proposal & _ & Ep). by pose proof Ep as (-> & _)%inline_proposal.
Qed.

(** No ExternalInit is among the proposals. *)
Definition no_external_init (q : ProposalQueue) : Prop :=
  Forall (fun p => Proposal.proposal_type (qp_proposal p) <> ProposalType.ExternalInit) (Queue.queued_proposals q).

Lemma commit_validated loaded ga clock params values f q own_updates content commit :
  lo_external_commit_info loaded = None -> CBuilder.commit_queue loaded ga values f = Ok (q, own_updates) ->
  CBuilder.validate_queue loaded ga clock params q = Ok tt -> received_store (MGroup.proposal_store ga) ->
  own_leaf_index ga ∉ removed (Queue.queued_proposals q) -> no_external_init q ->
  fc_epoch (ac_content content) = MGroup.epoch ga -> fc_sender (ac_content content) = Sender.Member (own_leaf_index ga) ->
  fc_body (ac_content content) = BodyCommit commit -> commit_proposals commit = Queue.commit_list q ->
  PStage.check_path_leaf (public_group ga) clock commit = Ok tt ->
  PGroup.validate_key_uniqueness (public_group ga) q (Some commit) (Sender.Member (own_leaf_index ga))
    ((fun path => payload_signature_key (payload (update_leaf_node path))) <$> commit_path commit) = Ok tt ->
  PStage.validate_commit (public_group ga) clock content (lo_lifetime_policy loaded) = Ok (commit, q, own_leaf_index ga).
Proof.
  intros Hext Hq Hv Hst Hr Hni He Hs Hb Hc Hl Hk. apply commit_queue_Ok in Hq as [Hw Hby].
  unfold CBuilder.commit_sender in Hby. rewrite Hext in Hby.
  unfold CBuilder.validate_queue in Hv. cbv zeta in Hv. inv_ok.
  repeat match goal with H : map_err _ _ = Ok _ |- _ => apply map_err_Ok in H end.
  repeat match goal with a : unit |- _ => destruct a end.
  unfold PStage.validate_commit, PStage.commit_of. rewrite He, Hs, Hb. unfold MGroup.epoch, MGroup.context. rewrite Z.eqb_refl.
  cbn [negb]. rewrite ok_bind, Hc. rewrite bool_decide_false by done. rewrite ok_bind.
  rewrite (received_queue (PGroup.ciphersuite (public_group ga)) (pg_proposal_store (public_group ga)) (Sender.Member (own_leaf_index ga)) q Hw Hst Hby
    (not_removed_removes_none _ _ Hr)) by (by eapply validated_psks_NoDup).
  cbn [map_err]. rewrite ok_bind, Hl, ok_bind, Hk. cbn [map_err]. rewrite ok_bind.
  assert (PGroup.validate_no_external_init_proposals (public_group ga) q = Ok tt) as Hn.
  { unfold PGroup.validate_no_external_init_proposals. rewrite (proj2 (existsb_false _ _)); [done|]. intros p Hp.
    apply bool_decide_eq_false. by apply (proj1 (Forall_forall _ _) Hni). }
  repeat match goal with H : _ = Ok tt |- _ => rewrite H; clear H; cbn [map_err]; rewrite ok_bind end. done.
Qed.
(** ** Staging by the receiver *)

(** The commit secret and leaf that a path gives. *)
Definition gives (cs : Ciphersuite) (path : PathComputationResult) (ps : MCommit.PathSecrets) : Prop :=
  MCommit.ps_commit_secret ps = default (commit_secret_zero cs) (pcr_commit_secret path) /\
  MCommit.ps_update_path_leaf_node ps = update_leaf_node <$> pcr_encrypted_path path.

Lemma receiver_path `{!LawfulHpke} loaded ga gb random leaf_random params old_signer new_signer own_updates q v diff path diff1
    ek lk refs :
  public_group ga = public_group gb -> group_inv (public_group gb) ->
  Forall (member_proposal (group_leaf (public_group gb))) (Queue.queued_proposals q) ->
  is_Some (group_leaf (public_group gb) (own_leaf_index ga)) -> own_leaf_index ga ∉ removed (Queue.queued_proposals q) ->
  is_Some (group_leaf (public_group gb) (own_leaf_index gb)) -> own_leaf_index gb ∉ removed (Queue.queued_proposals q) ->
  own_leaf_index ga <> own_leaf_index gb -> lo_external_commit_info loaded = None ->
  PGDiff.apply_proposals q (Some (own_leaf_index ga)) (PGroup.empty_diff (public_group gb)) = (Ok v, diff) ->
  CBuilder.commit_path_result loaded ga random leaf_random params old_signer new_signer own_updates v diff = (Ok path, diff1) ->
  owns_path_keys (pgd_diff diff) (PGroup.ciphersuite (public_group gb)) (own_leaf_index gb) (ek ++ lk) ->
  exists v' ps, PGDiff.apply_proposals q (Some (own_leaf_index gb)) (PGroup.empty_diff (public_group gb)) = (Ok v', diff) /\
    apv_presharedkeys v' = apv_presharedkeys v /\ apv_external_init_proposal_option v' = apv_external_init_proposal_option v /\
    MCommit.process_path gb v' (mkCommit refs (pcr_encrypted_path path)) (own_leaf_index ga) ek lk diff = (Ok (inr ps), diff1) /\
    gives (MGroup.ciphersuite gb) path ps.
Proof.
  intros Hg Hinv HF Ha Har Hb Hbr Hne Hext Hap Hcp Hown.
  destruct (apply_proposals_own q _ (Some (own_leaf_index gb)) _ _ _ Hap) as [b' Hap'].
  pose proof (self_removed_value _ _ _ _ _ Hap') as Hsr. cbn in Hsr. unfold own_removed in Hsr.
  rewrite bool_decide_false in Hsr by done. subst b'.
  eexists _. unfold CBuilder.commit_path_result, CBuilder.is_external_commit in Hcp. rewrite Hext in Hcp.
  destruct (_ || bool_decide (is_Some new_signer)) eqn:Hreq in Hcp.
  - cbv zeta in Hcp. rewrite bool_decide_false in Hcp by (by intros []).
    destruct (receiver_follows _ _ _ _ _ _ _ _ _ _ _ _ _ _ Hinv HF Ha Har Hb Hbr Hne Hap Hcp Hown)
      as (v2 & p & secret & diff0 & kps & Hv2 & Hr & Hp & Hsec & Hrec & Hctx & Hdec).
    rewrite Hap' in Hv2. injection Hv2 as <-. cbn in Hr, Hctx.
    eexists. split; [exact Hap'|]. split; [done|]. split; [done|]. unfold MCommit.process_path. cbn [commit_path]. rewrite Hp.
    cbv zeta. unfold mbind at 1, stateful_bind at 1, Kem.with_err at 1. unfold MGroup.ciphersuite. rewrite Hrec. cbn [map_err].
    unfold mbind at 1, stateful_bind at 1, Kem.with_err at 1. cbn [apv_extensions]. rewrite Hctx. cbn [map_err apv_self_removed].
    unfold mbind at 1, stateful_bind at 1, reading at 1. cbn [apv_extensions]. rewrite Hdec. cbn [map_err].
    split; [reflexivity|]. unfold gives. cbn. by rewrite Hsec, Hp.
  - apply stateful_bind_Ok in Hcp as ([] & d & Hctx%with_err_Ok & [= <- <-]). rewrite !orb_false_iff in Hreq.
    destruct Hreq as [[[[Hpr _] _] _] _].
    eexists. split; [exact Hap'|]. split; [done|]. split; [done|]. unfold MCommit.process_path. cbn [commit_path pcr_encrypted_path apv_path_required].
    rewrite Hpr. cbv zeta. unfold mbind at 1, stateful_bind at 1, Kem.with_err at 1. cbn [apv_extensions]. rewrite Hctx. cbn [map_err].
    split; [reflexivity|]. done.
Qed.
Lemma interim_diff cs tag s s' :
  PGDiff.update_interim_transcript_hash cs tag s = (Ok tt, s') ->
  pgd_diff s' = pgd_diff s /\ pgd_group_context s' = pgd_group_context s /\ pgd_confirmation_tag s' = tag.
Proof.
  unfold PGDiff.update_interim_transcript_hash, updating. intros E.
  destruct (_ ≫= _) as [[u d]| |] eqn:Eb in E; [|done..]. injection E as -> <-. by apply bind_Ok in Eb as (h & _ & [= <-]).
Qed.

Lemma receiver_stages loaded ga gb old_signer new_signer result q v0 path diff diff1 diff2 diff3 content context es tag staged storage v commit ek lk ps :
  same_group ga gb -> built_commit loaded ga old_signer new_signer result q v0 path diff1 diff2 diff3 content context es tag staged ->
  MCommit.process_path gb v commit (own_leaf_index ga) ek lk diff = (Ok (inr ps), diff1) -> gives (MGroup.ciphersuite gb) path ps ->
  apv_external_init_proposal_option v = None ->
  load_psks (stored_psk storage) (resumption_psk_store gb) (Some (MGroup.group_id gb)) None (apv_presharedkeys v) = Ok (lo_psks loaded) ->
  MCommit.stage_applied_proposal_values gb storage v commit q (own_leaf_index ga) (set_confirmation_tag content tag) ek lk diff
    = (Ok (mkStagedCommit q (GroupMemberState
        (member_state es context (size (pgd_diff diff3)) (own_leaf_index gb) staged (MCommit.ps_new_keypairs ps)
           (MCommit.ps_new_leaf_keypair_option ps) (update_leaf_node <$> pcr_encrypted_path path)))), diff3).
Proof.
  intros Hsg [_ Hconf Hctx (joiner & welcome & Hsec & _) Htag Hint Hst _ _] Hpath [Hcs Hleaf] Hext Hpsk.
  pose proof (epoch_secrets_agree ga gb storage v _ _ _ _ _ _ Hsg Hext Hpsk Hsec) as Hder.
  assert (MGroup.ciphersuite ga = MGroup.ciphersuite gb) as Ecs by (unfold MGroup.ciphersuite; by rewrite (sg_group _ _ Hsg)).
  rewrite Ecs in *. destruct (interim_diff _ _ _ _ Hint) as (Ed & _ & _).
  unfold MCommit.stage_applied_proposal_values. cbv zeta. unfold mbind at 1, stateful_bind at 1. rewrite Hpath. cbn iota beta.
  unfold mbind at 1, stateful_bind at 1, Kem.with_err at 1.
  change (PGDiff.update_confirmed_transcript_hash (set_confirmation_tag content tag) diff1)
    with (PGDiff.update_confirmed_transcript_hash content diff1).
  rewrite Hconf. cbn [map_err]. unfold mbind at 1, stateful_bind at 1, lifting at 1.
  cbn [set_confirmation_tag ac_auth auth_confirmation_tag ok_or]. unfold mbind at 1, stateful_bind at 1, reading at 1. rewrite Hctx.
  cbn [ok_or]. unfold mbind at 1, stateful_bind at 1, lifting at 1. rewrite Hcs, Hder.
  unfold mbind at 1, stateful_bind at 1, reading at 1. unfold mbind at 1, stateful_bind at 1, reading at 1.
  cbn [EpSecrets.split_secrets MSecrets.new confirmation_key]. rewrite Htag. cbn [map_err].
  rewrite bool_decide_true by done. cbn [negb]. unfold mbind at 1, stateful_bind at 1, Kem.with_err at 1. rewrite Hint. cbn [map_err].
  unfold mbind at 1, stateful_bind at 1, reading at 1. rewrite Hst. cbn [map_err]. unfold member_state. cbn. by rewrite Ed, Hleaf.
Qed.
(** ** A member and its commit *)

(** [ga] is a member of a group that it can commit to. *)
Record committer ga : Prop := {
  cm_inv : group_inv (public_group ga);
  cm_version : PGroup.version (public_group ga) = ProtocolVersion.Mls10;
  cm_credential : common_credential (public_group ga);
  cm_store : received_store (MGroup.proposal_store ga);
  cm_own : is_Some (group_leaf (public_group ga) (own_leaf_index ga));
}.

Definition commit_queue_of (result : CreateCommitResult) : ProposalQueue := staged_proposal_queue (ccr_staged_commit result).

(** The keys that the commit of [ga] introduces are new, and it has no ExternalInit. *)
Record acceptable ga (result : CreateCommitResult) : Prop := {
  ac_keys commit : PStage.commit_of (ccr_commit result) = Ok commit ->
    PGroup.validate_key_uniqueness (public_group ga) (commit_queue_of result) (Some commit) (Sender.Member (own_leaf_index ga))
      ((fun path => payload_signature_key (payload (update_leaf_node path))) <$> commit_path commit) = Ok tt;
  ac_no_external_init : no_external_init (commit_queue_of result);
}.

(** [gb] is another member of the group of [ga], in the same epoch. *)
Record peers ga gb : Prop := {
  pe_same : same_group ga gb;
  pe_committer : committer ga;
  pe_b : is_Some (group_leaf (public_group gb) (own_leaf_index gb));
  pe_distinct : own_leaf_index ga <> own_leaf_index gb;
}.

(** What makes a commit of [ga] one that [gb] can follow: it is acceptable and does not remove
    [gb], [gb] loads the PSKs that [ga] loaded, and the key pairs of [gb] are those that the
    tree, after the proposals, expects of it. *)
Record can_follow ga gb (loaded : LoadedPsks) (result : CreateCommitResult) (storage : Storage)
    (ek lk : list (bytes * bytes)) : Prop := {
  cf_acceptable : acceptable ga result;
  cf_stays : own_leaf_index gb ∉ removed (Queue.queued_proposals (commit_queue_of result));
  cf_psks : load_psks (stored_psk storage) (resumption_psk_store gb) (Some (MGroup.group_id gb)) None
              (psk_ids (Queue.queued_proposals (commit_queue_of result))) = Ok (lo_psks loaded);
  cf_owned v diff : PGDiff.apply_proposals (commit_queue_of result) (Some (own_leaf_index gb)) (PGroup.empty_diff (public_group gb)) = (Ok v, diff) ->
    owns_path_keys (pgd_diff diff) (PGroup.ciphersuite (public_group gb)) (own_leaf_index gb) (ek ++ lk);
}.

(** The states of both members after the commit: the same group, and the secrets of one epoch. *)
Definition agreed (a b : LeafNodeIndex.t) (sa sb : MemberStagedCommitState) : Prop :=
  exists es context staged ka kb lb leaf, let n := staged_size (ts_diff (spg_staged_diff staged)) in
    sa = member_state es context n a staged ka None leaf /\ sb = member_state es context n b staged kb lb leaf /\
    tls_group_context (spg_group_context staged) = Some context.

Lemma new_commit_Ok params sender commit context signer content :
  new_commit params sender commit context signer = Ok content ->
  fc_epoch (ac_content content) = gc_epoch context /\ fc_sender (ac_content content) = sender /\
  fc_body (ac_content content) = BodyCommit commit.
Proof.
  unfold new_commit, new_and_sign. intros E. apply bind_Ok in E as (o & _ & E).
  by apply bind_Ok in E as (sig & _ & [= <-]).
Qed.

Lemma commit_accepted loaded ga clock params values f q own_updates content commit :
  lo_external_commit_info loaded = None -> CBuilder.commit_queue loaded ga values f = Ok (q, own_updates) ->
  CBuilder.validate_queue loaded ga clock params q = Ok tt -> received_store (MGroup.proposal_store ga) ->
  own_leaf_index ga ∉ removed (Queue.queued_proposals q) ->
  fc_epoch (ac_content content) = MGroup.epoch ga -> fc_sender (ac_content content) = Sender.Member (own_leaf_index ga) ->
  fc_body (ac_content content) = BodyCommit commit -> commit_proposals commit = Queue.commit_list q ->
  PGroup.validate_key_uniqueness (public_group ga) q (Some commit) (Sender.Member (own_leaf_index ga))
    ((fun path => payload_signature_key (payload (update_leaf_node path))) <$> commit_path commit) = Ok tt ->
  accepted (public_group ga) content commit q (own_leaf_index ga).
Proof.
  intros Hext [Hw Hby]%commit_queue_Ok Hv Hst Hr He Hs Hb Hc Hk.
  unfold CBuilder.commit_sender in Hby. rewrite Hext in Hby.
  unfold CBuilder.validate_queue in Hv. cbv zeta in Hv. inv_ok.
  repeat match goal with H : map_err _ _ = Ok _ |- _ => apply map_err_Ok in H end.
  repeat match goal with a : unit |- _ => destruct a end.
  split; rewrite ?Hs; [done|unfold PStage.commit_of; by rewrite Hb| |done|done|eauto].
  rewrite Hc. apply received_queue; try done; [by apply not_removed_removes_none|by eapply validated_psks_NoDup].
Qed.

Lemma apply_proposals_context q own g h v s :
  ts_inv (group_diff g) h -> Forall (member_proposal (group_leaf g)) (Queue.queued_proposals q) ->
  PGDiff.apply_proposals q own (PGroup.empty_diff g) = (Ok v, s) ->
  pgd_group_context s = pg_group_context g /\ (exists h', ts_inv (pgd_diff s) h') /\
  apv_external_init_proposal_option v
    = head (omap (fun p => match qp_proposal p with Proposal.ExternalInit kem_output => Some kem_output | _ => None end)
              (Queue.queued_proposals q)) /\
  apv_presharedkeys v = psk_ids (Queue.queued_proposals q).
Proof.
  intros Hi HF E. pose proof (apply_proposals_spec q own (PGroup.empty_diff g) h Hi HF) as H. rewrite E in H.
  destruct H as (d' & h' & inv & -> & -> & Ha). split; [done|]. split; [exists h'; apply Ha|done].
Qed.

Lemma no_external_init_head q : no_external_init q ->
  head (omap (fun p => match qp_proposal p with Proposal.ExternalInit kem_output => Some kem_output | _ => None end)
          (Queue.queued_proposals q)) = None.
Proof.
  unfold no_external_init. induction 1 as [|p l Hp _ IH]; [done|]. rewrite omap_cons. by destruct (qp_proposal p).
Qed.
Lemma commit_path_leaf loaded ga clock random leaf_random params old_signer new_signer own_updates v s path s' refs :
  PGroup.version (public_group ga) = ProtocolVersion.Mls10 -> common_credential (public_group ga) ->
  lo_external_commit_info loaded = None -> gc_ciphersuite (pgd_group_context s) = MGroup.ciphersuite ga ->
  CBuilder.commit_path_result loaded ga random leaf_random params old_signer new_signer own_updates v s = (Ok path, s') ->
  PStage.check_path_leaf (public_group ga) clock (mkCommit refs (pcr_encrypted_path path)) = Ok tt.
Proof.
  intros Hver Hcred Hext Hcs. unfold CBuilder.commit_path_result, CBuilder.is_external_commit. rewrite Hext.
  destruct (_ || _); cbv zeta.
  - rewrite bool_decide_false by (by intros []). by apply path_leaf_accepted.
  - intros E. apply stateful_bind_Ok in E as ([] & d & _ & [= <- _]). done.
Qed.

Lemma built_staged loaded ga old_signer new_signer result q v path diff1 diff2 diff3 content context es tag staged :
  built_commit loaded ga old_signer new_signer result q v path diff1 diff2 diff3 content context es tag staged ->
  size (pgd_diff diff3) = staged_size (ts_diff (spg_staged_diff staged)) /\
  tls_group_context (spg_group_context staged) = Some context.
Proof.
  intros [_ _ Hctx _ _ Hint Hst _ _]. apply interim_diff in Hint as (_ & Hc & _). unfold PGDiff.into_staged_diff, TSync.into_staged_diff in Hst.
  apply bind_Ok in Hst as (sd & E & [= <-]). apply bind_Ok in E as (hash & _ & [= <-]). cbn. by rewrite Hc.
Qed.

(** A run of [build_internal]: what it computes, and that the commit passes validation. *)
Record build_run loaded ga clock random leaf_random old_signer new_signer result params own_updates q v diff path diff1 diff2 diff3
    content context es tag staged : Prop := {
  br_queue : commit_queue_of result = q;
  br_apply : PGDiff.apply_proposals q (Some (own_leaf_index ga)) (PGroup.empty_diff (public_group ga)) = (Ok v, diff);
  br_path : CBuilder.commit_path_result loaded ga random leaf_random params old_signer new_signer own_updates v diff = (Ok path, diff1);
  br_built : built_commit loaded ga old_signer new_signer result q v path diff1 diff2 diff3 content context es tag staged;
  br_stays : own_leaf_index ga ∉ removed (Queue.queued_proposals q);
  br_sender : fc_sender (ac_content (ccr_commit result)) = Sender.Member (own_leaf_index ga);
  br_members : Forall (member_proposal (group_leaf (public_group ga))) (Queue.queued_proposals q);
  br_valid : PStage.validate_commit (public_group ga) clock (ccr_commit result) (lo_lifetime_policy loaded)
    = Ok (mkCommit (Queue.commit_list q) (pcr_encrypted_path path), q, own_leaf_index ga);
  br_external : apv_external_init_proposal_option v = None;
  br_psks : apv_presharedkeys v = psk_ids (Queue.queued_proposals q);
}.

Lemma build_internal_run ga loaded clock random leaf_random values old_signer new_signer f complete :
  committer ga -> lo_external_commit_info loaded = None ->
  CBuilder.build_internal loaded ga clock random leaf_random values old_signer new_signer f = Ok complete ->
  acceptable ga (co_result complete) ->
  exists params own_updates q v diff path diff1 diff2 diff3 content context es tag staged,
    build_run loaded ga clock random leaf_random old_signer new_signer (co_result complete) params own_updates q v diff path diff1 diff2 diff3
      content context es tag staged.
Proof.
  intros [Hinv Hver Hcred Hst Ha] Hext E [Hk Hni].
  unfold CBuilder.build_internal in E. apply bind_Ok in E as (params & _ & E). apply bind_Ok in E as ([q own_updates] & Eq & E).
  apply bind_Ok in E as ([] & Ev & E). apply bind_Ok in E as (result & Er & [= <-]). cbn [co_result] in *.
  destruct (CBuilder.build_on_diff _ _ _ _ _ _ _ _ _ _) as [r s'] eqn:Ebd in Er. cbn [fst] in Er. subst r.
  apply build_on_diff_Ok in Ebd as (v & diff & path & diff1 & diff2 & diff3 & content & context & es & tag & staged
    & Hap & Hsr & Hcp & Hbc); [|unfold CBuilder.is_external_commit; by rewrite Hext].
  pose proof (bc_commit _ _ _ _ _ _ _ _ _ _ _ _ _ _ _ _ Hbc) as Hct. pose proof (bc_state _ _ _ _ _ _ _ _ _ _ _ _ _ _ _ _ Hbc) as Hsc.
  assert (commit_queue_of result = q) as Hq by (unfold commit_queue_of; by rewrite Hsc). rewrite Hq in *.
  pose proof (self_removed_value _ _ _ _ _ Hap) as Har. rewrite Hsr in Har. symmetry in Har. apply bool_decide_eq_false in Har.
  destruct (bc_content _ _ _ _ _ _ _ _ _ _ _ _ _ _ _ _ Hbc) as (data & wf & Hnew). apply new_commit_Ok in Hnew as (He & Hs & Hbody).
  specialize (Hk (mkCommit (Queue.commit_list q) (pcr_encrypted_path path))).
  rewrite Hct in Hk. unfold PStage.commit_of in Hk. cbn [ac_content set_confirmation_tag] in Hk. rewrite Hbody in Hk. specialize (Hk eq_refl).
  pose proof (commit_accepted _ _ _ _ _ _ _ _ (set_confirmation_tag content tag) (mkCommit (Queue.commit_list q) (pcr_encrypted_path path))
    Hext Eq Ev Hst Har He Hs Hbody eq_refl Hk) as Hacc.
  assert (Forall (member_proposal (group_leaf (public_group ga))) (Queue.queued_proposals q)) as HF.
  { apply (accepted_members _ _ _ _ _ Hinv Hacc). cbn. rewrite Hs. by intros i [= <-]. }
  destruct (gi_tree _ Hinv) as [h Hi]. destruct (apply_proposals_context _ _ _ _ _ _ Hi HF Hap) as (Hctx & _ & Hvi & Hvp).
  assert (PStage.check_path_leaf (public_group ga) clock (mkCommit (Queue.commit_list q) (pcr_encrypted_path path)) = Ok tt) as Hleaf.
  { eapply commit_path_leaf; [done..| |exact Hcp]. by rewrite Hctx. }
  exists params, own_updates, q, v, diff, path, diff1, diff2, diff3, content, context, es, tag, staged. split; try done; rewrite ?Hct; try done.
  - by eapply commit_validated.
  - by rewrite Hvi, no_external_init_head.
Qed.

(** A commit that [ga] builds is staged by [gb], with the same result. *)
Lemma commit_staged `{!LawfulHpke} ga gb loaded clock random leaf_random values old_signer new_signer f complete storage ek lk :
  peers ga gb -> lo_external_commit_info loaded = None ->
  CBuilder.build_internal loaded ga clock random leaf_random values old_signer new_signer f = Ok complete ->
  can_follow ga gb loaded (co_result complete) storage ek lk ->
  exists sa sb, ccr_staged_commit (co_result complete) = mkStagedCommit (commit_queue_of (co_result complete)) (GroupMemberState sa) /\
    MCommit.stage_commit gb storage clock (ccr_commit (co_result complete)) ek lk (lo_lifetime_policy loaded)
      = Ok (mkStagedCommit (commit_queue_of (co_result complete)) (GroupMemberState sb)) /\
    agreed (own_leaf_index ga) (own_leaf_index gb) sa sb /\
    fc_sender (ac_content (ccr_commit (co_result complete))) = Sender.Member (own_leaf_index ga) /\
    own_leaf_index ga ∉ removed (Queue.queued_proposals (commit_queue_of (co_result complete))).
Proof.
  intros [Hsg Hcm Hb Hne] Hext E [Hacc Hbr Hpsk Hown]. pose proof (sg_group _ _ Hsg) as Hg.
  destruct (build_internal_run _ _ _ _ _ _ _ _ _ _ Hcm Hext E Hacc) as (params & own_updates & q & v & diff & path & diff1 & diff2 & diff3
    & content & context & es & tag & staged & [Hq Hap Hcp Hbc Har Hs HF Hval Hvi Hvp]).
  rewrite Hq in *. pose proof Hcm as [Hinv _ _ _ Ha].
  destruct (apply_proposals_own q _ (Some (own_leaf_index gb)) _ _ _ Hap) as [b' Hap']. rewrite Hg in Hap'. specialize (Hown _ _ Hap').
  clear b' Hap'. rewrite Hg in HF, Ha, Hinv, Hap.
  destruct (receiver_path loaded ga gb random leaf_random params old_signer new_signer own_updates q v diff path diff1 ek lk
    (Queue.commit_list q) Hg Hinv HF Ha Har Hb Hbr Hne Hext Hap Hcp Hown) as (v' & ps & Hap' & Hp' & Hi' & Hpath & Hgives).
  rewrite Hvi in Hi'. rewrite Hvp in Hp'. rewrite <- Hp' in Hpsk.
  pose proof (receiver_stages _ _ _ _ _ _ _ _ _ _ _ _ _ _ _ _ _ _ storage _ _ _ _ _ Hsg Hbc Hpath Hgives Hi' Hpsk) as Hstage.
  destruct (built_staged _ _ _ _ _ _ _ _ _ _ _ _ _ _ _ _ Hbc) as [Hsize Htls].
  rewrite (bc_state _ _ _ _ _ _ _ _ _ _ _ _ _ _ _ _ Hbc). rewrite Hsize in Hstage |- *.
  eexists _, _. split; [done|]. split; [|split; [do 7 eexists; split; [reflexivity|]; split; [reflexivity|exact Htls]|by split]].
  unfold MCommit.stage_commit. rewrite <- Hg, Hval, ok_bind. rewrite Hg. unfold mbind at 1, stateful_bind at 1, Kem.with_err at 1.
  rewrite Hap'. cbn [map_err]. rewrite (bc_commit _ _ _ _ _ _ _ _ _ _ _ _ _ _ _ _ Hbc). by rewrite Hstage.
Qed.
End Epochs.
