(* ===== verification/MemberEpochs.v ===== *)
(** * From one epoch to the next

    A member that stages and merges a commit keeps the public group that a [PublicGroup] would
    compute, and two members that merge the same commit are in step in the new epoch. *)
From S2P Require Import Prelude TreeMath TreeMathFacts BinaryTree BinaryTreeFacts Crypto CryptoFacts SenderRatchet SenderRatchetFacts SecretTree SecretTreeFacts PastSecrets Extensions.
From S2P Require Import TreeSync LeafNode TreeKem Proposals KeySchedule Framing PrivateMessages Welcome ProposalStore PublicGroup StagedCommit.
From S2P Require Import MessageValidation MemberGroup MemberCommit MemberProcessing CommitBuilder MemberMessagesFacts ProposalStoreFacts TreeSyncFacts TreeSyncDiffFacts TreeKemFacts.
From S2P Require Import TreeStateFacts TreeKemAgreement LeafNodeFacts ValidationFacts ApplyProposalsFacts CommitFacts PublicGroupFacts.
From S2P Require Import CommitAgreement CommitQueueFacts EpochAgreement.

Section Refinement.
Context {OC : OpenMlsCrypto} {TC : TlsCodec}.
Implicit Types (g : PublicGroup) (self : MlsGroup) (s : PublicGroupDiff).

(** ** The public part of a member's group *)

(** The path of a commit has the same effect on the diff of a member and on that of a public group. *)
Lemma process_path_public self v v' commit sender ek lk s ps s' :
  apv_path_required v' = apv_path_required v -> apv_extensions v' = apv_extensions v ->
  MCommit.process_path self v commit sender ek lk s = (Ok (inr ps), s') ->
  exists s1, match commit_path commit with
      | Some update_path =>
          Kem.with_err StageUpdatePathError (PGDiff.apply_received_update_path (MGroup.ciphersuite self) sender update_path)
      | None => if apv_path_required v' then lifting (Err RequiredPathNotFound) else mret tt
      end s = (Ok tt, s1) /\
    PGDiff.update_group_context (apv_extensions v') s1 = (Ok tt, s') /\
    MCommit.ps_update_path_leaf_node ps = update_leaf_node <$> commit_path commit.
Proof.
  intros Hr Hx. unfold MCommit.process_path. rewrite Hr, Hx. destruct (commit_path commit) as [path|]; cbv zeta; intros E.
  - apply stateful_bind_Ok in E as ([] & s1 & E1 & E). apply stateful_bind_Ok in E as ([] & s2 & E2%with_err_Ok & E).
    exists s1. split; [exact E1|]. destruct (apv_self_removed v).
    + by apply stateful_bind_Ok in E as (st & s3 & _ & [= ? _]).
    + apply stateful_bind_Ok in E as ([kps sec] & s3 & E3 & E). injection E3 as _ <-.
      apply stateful_bind_Ok in E as (lf & s3 & E3 & E). injection E3 as _ <-. injection E as <- <-. done.
  - destruct (apv_path_required v); [done|]. apply stateful_bind_Ok in E as ([] & s1 & E1%with_err_Ok & [= <- <-]).
    by exists s.
Qed.

Lemma stage_values_public self storage v v' commit q sender content ek lk s q' st s' :
  apv_path_required v' = apv_path_required v -> apv_extensions v' = apv_extensions v -> PStage.commit_of content = Ok commit ->
  MCommit.stage_applied_proposal_values self storage v commit q sender content ek lk s = (Ok (mkStagedCommit q' (GroupMemberState st)), s') ->
  q' = q /\ ms_update_path_leaf_node st = update_leaf_node <$> commit_path commit /\
  PStage.stage_diff_internal (public_group self) content v' sender s = (Ok (ms_staged_diff st), s').
Proof.
  intros Hr Hx Hc E. unfold MCommit.stage_applied_proposal_values in E. cbv zeta in E.
  apply stateful_bind_Ok in E as ([sd|ps] & s1 & Ep & E); [done|].
  destruct (process_path_public _ _ _ _ _ _ _ _ _ _ Hr Hx Ep) as (s0 & Ha & Hb & Hl).
  apply stateful_bind_Ok in E as ([] & s2 & E2%with_err_Ok & E).
  apply stateful_bind_Ok in E as (tag & s3 & [E3%ok_or_Ok ->]%lifting_Ok & E).
  apply stateful_bind_Ok in E as (ctx & s3 & E4 & E). injection E4 as _ <-.
  apply stateful_bind_Ok in E as (es & s3 & [_ ->]%lifting_Ok & E).
  apply stateful_bind_Ok in E as ([gs ms] & s3 & E4 & E). injection E4 as _ _ <-.
  apply stateful_bind_Ok in E as (own & s3 & E4 & E). injection E4 as _ <-. case_bool_decide as Ht; [|done]. subst own.
  cbn [negb] in E. apply stateful_bind_Ok in E as ([] & s3 & E5%with_err_Ok & E).
  apply stateful_bind_Ok in E as (staged & s4 & E6 & E). injection E6 as E6%map_err_Ok <-. injection E as <- <- <-.
  split; [done|]. split; [exact Hl|]. unfold PStage.stage_diff_internal. cbv zeta.
  unfold mbind at 1, stateful_bind at 1, lifting at 1. rewrite Hc. unfold mbind at 1, stateful_bind at 1. unfold MGroup.ciphersuite in Ha.
  rewrite Ha. unfold mbind at 1, stateful_bind at 1, Kem.with_err at 1. rewrite Hb. cbn [map_err].
  unfold mbind at 1, stateful_bind at 1, Kem.with_err at 1. rewrite E2. cbn [map_err].
  unfold mbind at 1, stateful_bind at 1, lifting at 1. rewrite E3. cbn [ok_or].
  unfold mbind at 1, stateful_bind at 1, Kem.with_err at 1. unfold MGroup.ciphersuite in E5, E6. rewrite E5. cbn [map_err].
  unfold reading. by rewrite E6.
Qed.

(** What a public group stages for the same commit. *)
Definition public_staged (q : ProposalQueue) (st : MemberStagedCommitState) : MStagedCommit :=
  mkStagedCommit q (PublicState (mkPublicStagedCommitState (ms_staged_diff st) (ms_update_path_leaf_node st))).

Lemma stage_commit_public self storage clock content ek lk policy q st :
  MCommit.stage_commit self storage clock content ek lk policy = Ok (mkStagedCommit q (GroupMemberState st)) ->
  PStage.stage_commit (public_group self) clock content policy = Ok (public_staged q st).
Proof.
  unfold MCommit.stage_commit, PStage.stage_commit. intros E. apply bind_Ok in E as ([[commit q1] sender] & Hv & E).
  rewrite Hv, ok_bind. apply validate_commit_accepted in Hv. pose proof (ac_commit _ _ _ _ _ Hv) as Hc.
  match type of E with fst ?x = _ => destruct x as [r s'] eqn:Eb end. cbn [fst] in E. subst r.
  apply stateful_bind_Ok in Eb as (v & s & Hap%with_err_Ok & Eb).
  destruct (apply_proposals_own _ _ None _ _ _ Hap) as [b Hap'].
  destruct (stage_values_public self storage v (mkApplyProposalsValues (apv_path_required v) b (apv_invitation_list v) (apv_presharedkeys v)
    (apv_external_init_proposal_option v) (apv_extensions v)) commit q1 sender content ek lk s q st s' eq_refl eq_refl Hc Eb) as (-> & Hl & Hst).
  assert (PStage.stage_diff (public_group self) content q1 sender = Ok (ms_staged_diff st)) as Hd.
  { unfold PStage.stage_diff. unfold mbind at 1, stateful_bind at 1, Kem.with_err at 1. rewrite Hap'. cbn [map_err]. by rewrite Hst. }
  rewrite Hd, ok_bind. unfold public_staged. by rewrite Hl.
Qed.

(** ** A member that is removed *)

(** A method that only changes the tree of the diff. *)
Definition tree_only {E A} (m : stateful PublicGroupDiff E A) : Prop :=
  forall s r s', m s = (r, s') -> s' = PGDiff.set_diff s (pgd_diff s').

Lemma tree_only_on_diff {E A} (m : stateful (TreeSyncDiff LeafNode) E A) : tree_only (PGDiff.on_diff m).
Proof. intros s r s'. unfold PGDiff.on_diff. destruct (m (pgd_diff s)) as [r' d]. by intros [= _ <-]. Qed.

Lemma tree_only_ret {E A} (a : A) : tree_only (E := E) (mret a).
Proof. intros s r s' [= _ <-]. by destruct s. Qed.

Lemma tree_only_lifting {E A} (x : result E A) : tree_only (lifting x).
Proof. intros s r s' [= _ <-]. by destruct s. Qed.

Lemma tree_only_bind {E A B} (m : stateful PublicGroupDiff E A) (f : A -> stateful PublicGroupDiff E B) :
  tree_only m -> (forall a, tree_only (f a)) -> tree_only (m ≫= f).
Proof.
  intros Hm Hf s r s'. unfold mbind, stateful_bind. destruct (m s) as [x s1] eqn:E1. apply Hm in E1.
  destruct x as [a|e|]; [|by intros [= _ <-]..]. intros ->%Hf. rewrite E1. done.
Qed.

Lemma tree_only_apply q own : tree_only (PGDiff.apply_proposals q own).
Proof.
  assert (forall f, tree_only (E := LibraryError) (PGDiff.diff_update f)) as Hd by (intros f; apply tree_only_on_diff).
  assert (forall l b, tree_only (PGDiff.apply_removes own b l)) as Hr.
  { intros l. induction l as [|p l IH]; intros b; [apply tree_only_ret|]. apply tree_only_bind; [apply tree_only_lifting|].
    intros [i|]; [|apply IH]. apply tree_only_bind; [apply Hd|]. intros _. apply IH. }
  unfold PGDiff.apply_proposals. cbv zeta. apply tree_only_bind.
  { induction (Queue.filtered_by_type q ProposalType.Update) as [|p l IH]; [apply tree_only_ret|].
    apply tree_only_bind; [|intros _; exact IH]. unfold PGDiff.apply_update.
    destruct (qp_proposal p), (qp_sender p); try apply tree_only_ret; try apply tree_only_lifting; apply Hd. }
  intros _. apply tree_only_bind; [apply Hr|]. intros b. apply tree_only_bind; [apply Hr|]. intros b'. apply tree_only_bind.
  { induction (omap _ _) as [|kp l IH]; [apply tree_only_ret|]. apply tree_only_bind; [apply tree_only_on_diff|]. intros i.
    apply tree_only_bind; [exact IH|]. intros inv. apply tree_only_ret. }
  intros inv. apply tree_only_bind; [apply Hd|]. intros _. apply tree_only_ret.
Qed.

(** The public group of a member that a commit removed, next to the one that a [PublicGroup] has
    after the commit: the tree and the context are the same, except that the transcript hashes
    and the confirmation tag are still those from before. The queue is kept. *)
Record left_behind g0 g g' : Prop := {
  lb_tree : pg_treesync g = pg_treesync g';
  lb_context : pg_group_context g
    = GContext.set_confirmed_transcript_hash (pg_group_context g') (gc_confirmed_transcript_hash (pg_group_context g0));
  lb_interim : pg_interim_transcript_hash g = pg_interim_transcript_hash g0;
  lb_tag : pg_confirmation_tag g = pg_confirmation_tag g0;
  lb_store : pg_proposal_store g = pg_proposal_store g0;
}.

Lemma update_context_keeps ext s s' :
  PGDiff.update_group_context ext s = (Ok tt, s') ->
  gc_confirmed_transcript_hash (pgd_group_context s') = gc_confirmed_transcript_hash (pgd_group_context s) /\
  pgd_interim_transcript_hash s' = pgd_interim_transcript_hash s /\ pgd_confirmation_tag s' = pgd_confirmation_tag s.
Proof.
  unfold PGDiff.update_group_context, updating. destruct (TSDiff.compute_tree_hashes _ _) as [h|e|]; [|done..].
  cbn. intros [= <-]. by destruct ext.
Qed.

(** Both stage the diff after the path and the new context; only the public group adds the hashes. *)
Lemma staged_removed self q commit sender content v v' s sd s' sd' s'' storage ek lk :
  apv_extensions v' = apv_extensions v -> PStage.commit_of content = Ok commit ->
  MCommit.stage_applied_proposal_values self storage v commit q sender content ek lk s
    = (Ok (mkStagedCommit q (PublicState sd)), s') ->
  PStage.stage_diff_internal (public_group self) content v' sender s = (Ok sd', s'') ->
  spg_staged_diff (psc_staged_diff sd) = spg_staged_diff sd' /\
  spg_group_context (psc_staged_diff sd)
    = GContext.set_confirmed_transcript_hash (spg_group_context sd') (gc_confirmed_transcript_hash (pgd_group_context s)) /\
  spg_interim_transcript_hash (psc_staged_diff sd) = pgd_interim_transcript_hash s /\
  spg_confirmation_tag (psc_staged_diff sd) = pgd_confirmation_tag s.
Proof.
  intros Hx Hc E E'. unfold MCommit.stage_applied_proposal_values in E. cbv zeta in E.
  apply stateful_bind_Ok in E as ([st|ps] & s1 & Ep & E); last first.
  { repeat (apply stateful_bind_Ok in E as (? & ? & _ & E); repeat case_match; try done). }
  injection E as <- <-. cbn [psc_staged_diff]. unfold MCommit.process_path in Ep. unfold PStage.stage_diff_internal in E'. cbv zeta in E'.
  apply stateful_bind_Ok in E' as (commit' & t & [Ec ->]%lifting_Ok & E'). rewrite Hc in Ec. injection Ec as <-.
  destruct (commit_path commit) as [path|]; cbv zeta in Ep; last first.
  { destruct (apv_path_required v); [done|]. by apply stateful_bind_Ok in Ep as (? & ? & _ & [=]). }
  apply stateful_bind_Ok in Ep as ([] & s2 & E1 & Ep). apply stateful_bind_Ok in E' as ([] & t2 & E1' & E').
  unfold MGroup.ciphersuite in E1. rewrite E1 in E1'. injection E1' as <-. apply with_err_Ok, tree_only_on_diff in E1.
  apply stateful_bind_Ok in Ep as ([] & s3 & E2%with_err_Ok & Ep). apply stateful_bind_Ok in E' as ([] & t3 & E2'%with_err_Ok & E').
  rewrite Hx, E2 in E2'. injection E2' as <-. destruct (update_context_keeps _ _ _ E2) as (K1 & K2 & K3). rewrite E1 in K1, K2, K3. cbn in K1, K2, K3.
  destruct (apv_self_removed v); last first.
  { apply stateful_bind_Ok in Ep as ([] & ? & _ & Ep). by apply stateful_bind_Ok in Ep as (? & ? & _ & [=]). }
  apply stateful_bind_Ok in Ep as (x & s4 & E3 & [= <- <-]). unfold reading in E3. injection E3 as E3%map_err_Ok <-.
  apply stateful_bind_Ok in E' as ([] & t4 & E4%with_err_Ok & E'). apply stateful_bind_Ok in E' as (tag & t5 & [_ ->]%lifting_Ok & E').
  apply stateful_bind_Ok in E' as ([] & t6 & E6%with_err_Ok & E'). unfold reading in E'. injection E' as E7%map_err_Ok <-.
  unfold PGDiff.update_confirmed_transcript_hash, Proposals.update_confirmed_transcript_hash, updating in E4.
  destruct (calculate_confirmed_transcript_hash _ _ _) as [ch|e|]; [|done..]. cbn in E4. injection E4 as <-.
  unfold PGDiff.update_interim_transcript_hash, updating in E6. destruct (calculate_interim_transcript_hash _ _ _) as [ih|e|]; [|done..].
  cbn in E6. injection E6 as <-. unfold PGDiff.into_staged_diff in E3, E7. cbn in E7. unfold MGroup.ciphersuite in E3.
  apply bind_Ok in E3 as (d & E3 & [= <-]). rewrite E3 in E7. injection E7 as <-. cbn. split_and!; [done| |done|done].
  rewrite <- K1. by destruct (pgd_group_context s3).
Qed.

(** A public group stages every acceptable commit that a member builds, with the committer's result. *)
Lemma built_observed ga loaded clock random leaf_random old_signer new_signer result params own_updates q v diff path diff1 diff2 diff3
    content context es tag staged :
  committer ga -> lo_external_commit_info loaded = None ->
  build_run loaded ga clock random leaf_random old_signer new_signer result params own_updates q v diff path diff1 diff2 diff3
    content context es tag staged ->
  let st := member_state es context (staged_size (ts_diff (spg_staged_diff staged))) (own_leaf_index ga) staged (pcr_new_keypairs path) None
              (update_leaf_node <$> pcr_encrypted_path path) in
  ccr_staged_commit result = mkStagedCommit q (GroupMemberState st) /\ tls_group_context (spg_group_context staged) = Some context /\
  PStage.stage_commit (public_group ga) clock (ccr_commit result) (lo_lifetime_policy loaded) = Ok (public_staged q st).
Proof.
  intros Hcm Hext [Hq Hap Hcp Hbc Har Hs HF Hval Hvi Hvp]. cbv zeta. destruct (built_staged _ _ _ _ _ _ _ _ _ _ _ _ _ _ _ _ Hbc) as [Hsize Htls].
  destruct Hbc as [_ Hconf _ _ _ Hint Hst Hct Hsc]. rewrite Hsize in Hsc. split; [exact Hsc|]. split; [exact Htls|].
  assert (PStage.commit_of (ccr_commit result) = Ok (mkCommit (Queue.commit_list q) (pcr_encrypted_path path))) as Hc.
  { by apply validate_commit_accepted, ac_commit in Hval. }
  assert (exists d1, match pcr_encrypted_path path with
      | Some update_path =>
          Kem.with_err StageUpdatePathError (PGDiff.apply_received_update_path (MGroup.ciphersuite ga) (own_leaf_index ga) update_path)
      | None => if apv_path_required v then lifting (Err RequiredPathNotFound) else mret tt
      end diff = (Ok tt, d1) /\ PGDiff.update_group_context (apv_extensions v) d1 = (Ok tt, diff1)) as (d1 & Hp1 & Hp2).
  { unfold CBuilder.commit_path_result, CBuilder.is_external_commit in Hcp. rewrite Hext in Hcp.
    destruct (_ || bool_decide (is_Some new_signer)) eqn:Hreq in Hcp; cbv zeta in Hcp.
    - rewrite bool_decide_false in Hcp by (by intros []).
      destruct (observer_follows _ _ _ _ _ _ _ _ _ _ _ _ _ (cm_inv _ Hcm) HF (cm_own _ Hcm) Har Hap Hcp) as (p & d1 & -> & Hrec & Hup).
      exists d1. unfold Kem.with_err, MGroup.ciphersuite. by rewrite Hrec.
    - apply stateful_bind_Ok in Hcp as ([] & d & Hup%with_err_Ok & [= <- <-]). rewrite !orb_false_iff in Hreq.
      destruct Hreq as [[[[-> _] _] _] _]. by exists diff. }
  destruct (apply_proposals_own _ _ None _ _ _ Hap) as [b Hap'].
  unfold PStage.stage_commit. rewrite Hval, ok_bind. unfold PStage.stage_diff.
  unfold mbind at 2, stateful_bind at 1, Kem.with_err at 1. rewrite Hap'. cbn [map_err]. unfold PStage.stage_diff_internal. cbv zeta.
  unfold mbind at 2, stateful_bind at 1, lifting at 1. rewrite Hc. cbn [commit_path apv_path_required apv_extensions].
  unfold mbind at 2, stateful_bind at 1. unfold MGroup.ciphersuite in Hp1, Hint, Hst. rewrite Hp1.
  unfold mbind at 2, stateful_bind at 1, Kem.with_err at 1. rewrite Hp2. cbn [map_err].
  unfold mbind at 2, stateful_bind at 1, Kem.with_err at 1. rewrite Hct.
  change (PGDiff.update_confirmed_transcript_hash (set_confirmation_tag content tag) diff1)
    with (PGDiff.update_confirmed_transcript_hash content diff1). rewrite Hconf. cbn [map_err].
  unfold mbind at 2, stateful_bind at 1, lifting at 1. cbn [set_confirmation_tag ac_auth auth_confirmation_tag ok_or].
  unfold mbind at 2, stateful_bind at 1, Kem.with_err at 1. rewrite Hint. cbn [map_err]. unfold reading. rewrite Hst. done.
Qed.
End Refinement.

(** ** Merging *)
Section Merging.
Context {OC : OpenMlsCrypto} {TC : TlsCodec}.
Implicit Types (c : MCommit.Client) (st : MemberStagedCommitState).

(** The member of [c] has moved to the state [st] and is the member of [c']. *)
Record merged_to (now : Z) c st c' : Prop := {
  mt_group q : public_group (MCommit.cl_group c') = PStage.merge_commit (public_group (MCommit.cl_group c)) (public_staged q st);
  mt_secrets : group_epoch_secrets (MCommit.cl_group c') = ms_group_epoch_secrets st;
  mt_own : own_leaf_index (MCommit.cl_group c') = own_leaf_index (MCommit.cl_group c);
  mt_config : mls_group_config (MCommit.cl_group c') = mls_group_config (MCommit.cl_group c);
  mt_current : MGroup.current_secrets (MCommit.cl_group c') = MSecrets.with_timestamp (ms_message_secrets st) (Some now);
}.

Lemma add_past_epoch_tree_current {M} (store store' : MessageSecretsStore M) e ms ls :
  add_past_epoch_tree store e ms ls = Some store' -> message_secrets store' = message_secrets store.
Proof.
  unfold add_past_epoch_tree. destruct (max_epochs store =? 0); [by intros [= <-]|].
  intros E. apply bind_Some in E as (trees & _ & [= <-]). done.
Qed.

Lemma merge_commit_Ok now q st c c' :
  MCommit.merge_commit now (mkStagedCommit q (GroupMemberState st)) c = (Ok tt, c') -> merged_to now c st c'.
Proof.
  unfold MCommit.merge_commit. cbn [staged_state]. cbv zeta. destruct (replace_current_message_secrets _ _ _) as [old store] eqn:Er.
  injection Er as <- <-. destruct (add_past_epoch_tree _ _ _ _) as [store'|] eqn:Ea; [|done].
  apply add_past_epoch_tree_current in Ea. cbn in Ea.
  destruct (TSync.owned_encryption_keys _ _) as [keys|]; [|done]. destruct (negb _); [done|]. intros [= <-].
  split; cbn; [done..|]. unfold MGroup.current_secrets. cbn. exact Ea.
Qed.

Lemma merged_to_ext now c0 c st c' :
  merged_to now c0 st c' -> public_group (MCommit.cl_group c0) = public_group (MCommit.cl_group c) ->
  own_leaf_index (MCommit.cl_group c0) = own_leaf_index (MCommit.cl_group c) ->
  mls_group_config (MCommit.cl_group c0) = mls_group_config (MCommit.cl_group c) -> merged_to now c st c'.
Proof. intros [H1 H2 H3 H4 H5] Eg Eo Ec. rewrite Eg in H1. rewrite Eo in H3. rewrite Ec in H4. by split. Qed.

Lemma on_group_modifying {E} (f : MlsGroup -> MlsGroup) c x c' :
  MCommit.on_group (E := E) (modifying f) c = (Ok x, c') -> c' = MCommit.mkClient (f (MCommit.cl_group c)) (MCommit.cl_storage c).
Proof. by intros [= _ <-]. Qed.

Lemma merge_staged_Ok now q st c c' :
  MCommit.merge_staged_commit now (mkStagedCommit q (GroupMemberState st)) c = (Ok tt, c') -> merged_to now c st c'.
Proof.
  unfold MCommit.merge_staged_commit. cbv zeta. intros E.
  apply stateful_bind_Ok in E as ([] & c1 & ->%on_group_modifying & E).
  apply stateful_bind_Ok in E as ([] & c2 & E2%merge_commit_Ok & E).
  apply stateful_bind_Ok in E as ([] & c3 & ->%on_group_modifying & ->%on_group_modifying).
  apply (merged_to_ext now _ c) in E2; [|by cbn..]. destruct E2 as [H1 H2 H3 H4 H5].
  unfold MCommit.clear_pending_commit, MGroup.current_secrets in *. split; intros; cbn; repeat case_match; cbn; done.
Qed.

Lemma merge_pending_Ok now q st c c' :
  group_state (MCommit.cl_group c) = PendingCommit (PendingMember (mkStagedCommit q (GroupMemberState st))) ->
  MCommit.merge_pending_commit now c = (Ok tt, c') -> merged_to now c st c'.
Proof.
  intros Hs. unfold MCommit.merge_pending_commit. intros E. apply stateful_bind_Ok in E as (state & c1 & E1 & E).
  injection E1 as <- <-. rewrite Hs in E. apply stateful_bind_Ok in E as ([] & c2 & ->%on_group_modifying & E%with_err_Ok).
  apply merge_staged_Ok in E. by apply (merged_to_ext now _ c) in E.
Qed.
End Merging.

(** ** Two members after a commit *)
Section Rounds.
Context {OC : OpenMlsCrypto} {TC : TlsCodec}.
Implicit Types (ga gb : MlsGroup) (c ca cb : MCommit.Client) (st : MemberStagedCommitState).

(** The size of the tree after the commit is the one of the staged diff. *)
Lemma stage_size g clock content policy q st :
  group_inv g -> (forall s, fc_sender (ac_content content) = Sender.Member s -> is_Some (group_leaf g s)) ->
  PStage.stage_commit g clock content policy = Ok (public_staged q st) ->
  exists h, staged_size (ts_diff (spg_staged_diff (ms_staged_diff st))) = perfect h /\
    ts_inv (group_diff (PStage.merge_commit g (public_staged q st))) h.
Proof.
  intros Hg Hs E. unfold PStage.stage_commit in E. apply bind_Ok in E as ([[commit q'] idx] & Hv & E).
  apply bind_Ok in E as (sd & Hst & [= -> -> _]). apply validate_commit_accepted in Hv.
  destruct (gi_tree g Hg) as [h Hi]. pose proof (accepted_members g content commit q idx Hg Hv Hs) as HF.
  destruct (stage_diff_Ok g content q idx _ h Hi HF Hst) as (commit' & d & h1 & inv & d' & hash & confirmed & tag & Hc & Hap & Hsf).
  destruct Hsf as [Hp _ Hd _ _ _ _ _].
  destruct (path_applied_spec _ _ _ _ _ _ _ (ap_inv _ _ _ _ _ Hap) Hp) as ((h' & Hi') & Ho & _).
  exists h'. rewrite Hd. cbn. split; [apply Hi'|]. destruct (merged_spec d' h' Hi') as (Hm & _).
  unfold group_diff, PStage.merge_commit, TSync.empty_diff, merged in *. cbn. rewrite Hd. cbn.
  by rewrite Ho, (ap_original _ _ _ _ _ Hap) in Hm.
Qed.

(** A member stays in the group if the commit does not remove it. *)
Lemma committed_leaf_stays g q inv path sender i :
  is_Some (group_leaf g i) -> i ∉ removed (Queue.queued_proposals q) -> is_Some (committed_leaf g q inv path sender i).
Proof.
  intros Hs Hr. assert (is_Some (survivors (Queue.queued_proposals q) (group_leaf g) i)) as Hsv.
  { unfold survivors. rewrite decide_False by done. by destruct (updated _ i). }
  unfold committed_leaf. destruct path; [case_decide; [eauto|]|]; destruct (_ !! i); eauto.
Qed.

(** A member after a commit, in a group that has staged it. *)
Record epoch_member (es : EpochSecrets) (h : Z) (c' : MCommit.Client) : Prop := {
  em_inv : group_inv (public_group (MCommit.cl_group c'));
  em_tree : ts_inv (group_diff (public_group (MCommit.cl_group c'))) h;
  em_store : MGroup.proposal_store (MCommit.cl_group c') = [];
  em_own : is_Some (group_leaf (public_group (MCommit.cl_group c')) (own_leaf_index (MCommit.cl_group c')));
  em_ok : member_ok h (es_encryption_secret es) (MCommit.cl_group c');
}.

Lemma merged_member now c st c' es context staged kps lk leaf clock content policy q s :
  group_inv (public_group (MCommit.cl_group c)) -> fc_sender (ac_content content) = Sender.Member s ->
  is_Some (group_leaf (public_group (MCommit.cl_group c)) s) ->
  PStage.stage_commit (public_group (MCommit.cl_group c)) clock content policy = Ok (public_staged q st) ->
  st = member_state es context (staged_size (ts_diff (spg_staged_diff staged))) (own_leaf_index (MCommit.cl_group c)) staged kps lk leaf ->
  tls_group_context (spg_group_context staged) = Some context ->
  is_Some (group_leaf (public_group (MCommit.cl_group c)) (own_leaf_index (MCommit.cl_group c))) ->
  own_leaf_index (MCommit.cl_group c) ∉ removed (Queue.queued_proposals q) ->
  wf_config (sender_ratchet_configuration (mls_group_config (MCommit.cl_group c))) ->
  merged_to now c st c' ->
  exists h, staged_size (ts_diff (spg_staged_diff staged)) = perfect h /\ epoch_member es h c'.
Proof.
  intros Hinv Hs Hsend Hst Ehst Htls Hown Hr Hwf Hm.
  assert (forall s', fc_sender (ac_content content) = Sender.Member s' -> is_Some (group_leaf (public_group (MCommit.cl_group c)) s')) as Hsend'.
  { rewrite Hs. by intros s' [= <-]. }
  destruct (stage_size _ _ _ _ _ _ Hinv Hsend' Hst) as (h & Hsz & Hi).
  destruct (stage_merge _ _ _ _ _ Hinv Hsend' Hst) as (commit & q' & idx & inv & Hmc).
  rewrite <- (mt_group _ _ _ _ Hm q) in Hi, Hmc.
  assert (q' = q) as ->.
  { unfold PStage.stage_commit in Hst. apply bind_Ok in Hst as ([[c1 q1] i1] & Hv & E). apply bind_Ok in E as (sd & _ & [= -> _ _]).
    apply validate_commit_accepted in Hv. pose proof (mc_accepted _ _ _ _ _ _ _ Hmc) as Hv'.
    pose proof (ac_commit _ _ _ _ _ Hv) as E1. rewrite (ac_commit _ _ _ _ _ Hv') in E1. injection E1 as <-.
    pose proof (ac_queue _ _ _ _ _ Hv) as E2. rewrite (ac_queue _ _ _ _ _ Hv') in E2. by injection E2. }
  pose proof (mt_own _ _ _ _ Hm) as Eo. pose proof (mt_current _ _ _ _ Hm) as Ec.
  assert (is_Some (group_leaf (public_group (MCommit.cl_group c')) (own_leaf_index (MCommit.cl_group c)))) as Hown'.
  { rewrite (mc_leaf _ _ _ _ _ _ _ Hmc). by apply committed_leaf_stays. }
  assert (ms_staged_diff st = staged) as Est by (by rewrite Ehst). rewrite Est in Hsz. rewrite Hsz in Ehst.
  exists h. split; [done|]. split; rewrite ?Eo; try done.
  - by eapply merged_commit_inv.
  - apply (mc_store _ _ _ _ _ _ _ Hmc).
  - destruct (full_in_range _ h _ Hi Hown') as [Hr' _]. pose proof (ti_h _ _ Hi) as Hh.
    split; [done|by rewrite (mt_config _ _ _ _ Hm)|by rewrite Eo| |].
    + rewrite Ec. unfold MGroup.context. rewrite (mt_group _ _ _ _ Hm q), Ehst. exact Htls.
    + unfold secret_tree_of. rewrite Ec, Eo, (mt_config _ _ _ _ Hm), Ehst.
      cbn [MSecrets.with_timestamp secret_tree member_state EpSecrets.split_secrets MSecrets.new ms_message_secrets]. by apply new_inv.
Qed.

(** What two members share in a new epoch. *)
Record next_peers ga gb : Prop := {
  np_same : same_group ga gb;
  np_inv : group_inv (public_group gb);
  np_store : MGroup.proposal_store gb = [];
  np_a : is_Some (group_leaf (public_group gb) (own_leaf_index ga));
  np_b : is_Some (group_leaf (public_group gb) (own_leaf_index gb));
  np_step : exists d es, in_step d es ga gb;
}.

Lemma merged_peers now now' ca cb ca' cb' sa sb storage clock content ek lk policy q :
  peers (MCommit.cl_group ca) (MCommit.cl_group cb) ->
  wf_config (sender_ratchet_configuration (mls_group_config (MCommit.cl_group ca))) ->
  wf_config (sender_ratchet_configuration (mls_group_config (MCommit.cl_group cb))) ->
  fc_sender (ac_content content) = Sender.Member (own_leaf_index (MCommit.cl_group ca)) ->
  MCommit.stage_commit (MCommit.cl_group cb) storage clock content ek lk policy = Ok (mkStagedCommit q (GroupMemberState sb)) ->
  agreed (own_leaf_index (MCommit.cl_group ca)) (own_leaf_index (MCommit.cl_group cb)) sa sb ->
  own_leaf_index (MCommit.cl_group ca) ∉ removed (Queue.queued_proposals q) ->
  own_leaf_index (MCommit.cl_group cb) ∉ removed (Queue.queued_proposals q) ->
  merged_to now ca sa ca' -> merged_to now' cb sb cb' -> next_peers (MCommit.cl_group ca') (MCommit.cl_group cb').
Proof.
  intros [[Hg _] [Hinv _ _ _ Ha] Hb _] Hwa Hwb Hs Hst (es & context & staged & ka & kb & lb & leaf & Hsa & Hsb & Htls) Har Hbr Hma Hmb.
  cbv zeta in Hsa, Hsb. apply stage_commit_public in Hst.
  assert (public_staged q sa = public_staged q sb) as Eq by (unfold public_staged; by rewrite Hsa, Hsb).
  assert (public_group (MCommit.cl_group ca') = public_group (MCommit.cl_group cb')) as Eg.
  { by rewrite (mt_group _ _ _ _ Hma q), (mt_group _ _ _ _ Hmb q), Hg, Eq. }
  destruct (merged_member now ca sa ca' es context staged ka None leaf clock content policy q _ Hinv Hs Ha) as (h & Eh & [_ Hi _ Hoa Hok]);
    [by rewrite Eq, Hg|done..|].
  rewrite Hg in Hinv, Ha.
  destruct (merged_member now' cb sb cb' es context staged kb lb leaf clock content policy q _ Hinv Hs Ha Hst Hsb Htls Hb Hbr Hwb Hmb)
    as (h' & Eh' & [Hinv' Hi' Hstore Hob Hok']).
  assert (h' = h) as -> by (apply perfect_inj; [apply Hi'|apply Hi|congruence]). rewrite Eg in Hoa.
  split; try done.
  - split; [done|]. by rewrite (mt_secrets _ _ _ _ Hma), (mt_secrets _ _ _ _ Hmb), Hsa, Hsb.
  - exists h, (es_encryption_secret es). split; [done|done| |].
    + unfold MGroup.context. by rewrite Eg.
    + rewrite (mt_current _ _ _ _ Hma), (mt_current _ _ _ _ Hmb), Hsa, Hsb. done.
Qed.

(** The committer's group while the commit is pending. *)
Record pending_of ga (result : CreateCommitResult) ga1 : Prop := {
  po_state : group_state ga1 = PendingCommit (PendingMember (ccr_staged_commit result));
  po_group : public_group ga1 = public_group ga;
  po_secrets : group_epoch_secrets ga1 = group_epoch_secrets ga;
  po_own : own_leaf_index ga1 = own_leaf_index ga;
  po_config : mls_group_config ga1 = mls_group_config ga;
}.

Lemma stage_commit_pending complete guard ga bundle ga1 :
  CBuilder.stage_commit complete guard ga = (Ok bundle, ga1) -> pending_of ga (co_result complete) ga1.
Proof.
  unfold CBuilder.stage_commit. cbv zeta. intros E. apply stateful_bind_Ok in E as ([] & g1 & E1 & E). injection E1 as <-.
  apply stateful_bind_Ok in E as ([] & g2 & E2 & E). injection E2 as <-. apply stateful_bind_Ok in E as (m & g3 & E3 & E).
  apply stateful_bind_Ok in E as (v & g4 & E4 & E). injection E4 as _ <-. injection E as _ <-.
  apply content_to_message_frame in E3 as (ms & [-> | ->]); by split.
Qed.

(** ** The theorems *)

(** C1. The next epoch. Let [ga] and [gb] be two members of a group in the same epoch. When [ga]
    builds a commit and keeps it as its pending commit, and the commit is one that [gb] can follow,
    then [gb] stages it successfully, and as soon as [ga] has merged its pending commit and [gb]
    the staged one, both are members of the same group again: same public group (which satisfies
    the group invariant), same secrets of the new epoch, and message keys in step. *)
Theorem next_epoch_agreed {LH : LawfulHpke} ga gb loaded clock random leaf_random values old_signer new_signer f complete
    guard bundle ga1 storage ek lk :
  peers ga gb ->
  wf_config (sender_ratchet_configuration (mls_group_config ga)) -> wf_config (sender_ratchet_configuration (mls_group_config gb)) ->
  lo_external_commit_info loaded = None ->
  CBuilder.build_internal loaded ga clock random leaf_random values old_signer new_signer f = Ok complete ->
  CBuilder.stage_commit complete guard ga = (Ok bundle, ga1) ->
  can_follow ga gb loaded (co_result complete) storage ek lk ->
  exists staged, MCommit.stage_commit gb storage clock (ccr_commit (co_result complete)) ek lk (lo_lifetime_policy loaded) = Ok staged /\
    forall now now' storage_a storage_b ca' cb',
      MCommit.merge_pending_commit now (MCommit.mkClient ga1 storage_a) = (Ok tt, ca') ->
      MCommit.merge_staged_commit now' staged (MCommit.mkClient gb storage_b) = (Ok tt, cb') ->
      next_peers (MCommit.cl_group ca') (MCommit.cl_group cb').
Proof.
  intros Hp Hwa Hwb Hext Hb Hpend%stage_commit_pending Hcf.
  destruct (commit_staged _ _ _ _ _ _ _ _ _ _ _ _ _ _ Hp Hext Hb Hcf) as (sa & sb & Hsa & Hst & Hag & Hsend & Har).
  eexists. split; [exact Hst|]. intros now now' sta stb ca' cb' Ha Hb'. destruct Hpend as [Hs Hg Hsec Ho Hc].
  rewrite Hsa in Hs. apply (merge_pending_Ok now (commit_queue_of (co_result complete)) sa) in Ha; [|exact Hs]. apply merge_staged_Ok in Hb'.
  apply (merged_to_ext _ _ (MCommit.mkClient ga sta)) in Ha; [|done..].
  eapply (merged_peers now now' (MCommit.mkClient ga sta) (MCommit.mkClient gb stb) ca' cb' sa sb); try done. apply Hcf.
Qed.

Lemma stage_commit_removed self storage clock content ek lk policy q sd (staged : MStagedCommit) :
  MCommit.stage_commit self storage clock content ek lk policy = Ok (mkStagedCommit q (PublicState sd)) ->
  PStage.stage_commit (public_group self) clock content policy = Ok staged ->
  left_behind (public_group self) (PGroup.merge_diff (public_group self) (psc_staged_diff sd)) (PStage.merge_commit (public_group self) staged).
Proof.
  unfold MCommit.stage_commit, PStage.stage_commit. intros E E'. apply bind_Ok in E as ([[commit q1] sender] & Hv & E).
  rewrite Hv, ok_bind in E'. apply bind_Ok in E' as (sd' & Hd & [= <-]). apply validate_commit_accepted in Hv. pose proof (ac_commit _ _ _ _ _ Hv) as Hc.
  match type of E with fst ?x = _ => destruct x as [r s'] eqn:Eb end. cbn [fst] in E. subst r.
  apply stateful_bind_Ok in Eb as (v & s & Hap%with_err_Ok & Eb). destruct (apply_proposals_own _ _ None _ _ _ Hap) as [b Hap'].
  assert (q = q1) as ->.
  { unfold MCommit.stage_applied_proposal_values in Eb. cbv zeta in Eb. apply stateful_bind_Ok in Eb as ([st|ps] & s1 & _ & E); [by injection E|].
    repeat (apply stateful_bind_Ok in E as (? & ? & _ & E); repeat case_match; try done). }
  unfold PStage.stage_diff in Hd. unfold mbind at 1, stateful_bind at 1, Kem.with_err at 1 in Hd. rewrite Hap' in Hd. cbn [map_err] in Hd.
  destruct (PStage.stage_diff_internal _ _ _ _ s) as [r s''] eqn:Es. cbn [fst] in Hd. subst r.
  apply tree_only_apply in Hap. destruct (staged_removed self q1 commit sender content v _ s sd s' sd' s'' storage ek lk eq_refl Hc Eb Es) as (H1 & H2 & H3 & H4).
  rewrite Hap in H2, H3, H4. by split; cbn; rewrite ?H1, ?H2, ?H3, ?H4.
Qed.

Lemma merge_staged_removed now q sd c c' :
  MCommit.merge_staged_commit now (mkStagedCommit q (PublicState sd)) c = (Ok tt, c') ->
  group_state (MCommit.cl_group c') = Inactive /\
  public_group (MCommit.cl_group c') = PGroup.merge_diff (public_group (MCommit.cl_group c)) (psc_staged_diff sd).
Proof.
  unfold MCommit.merge_staged_commit. cbv zeta. intros E.
  apply stateful_bind_Ok in E as ([] & c1 & ->%on_group_modifying & E). apply stateful_bind_Ok in E as ([] & c2 & [= <-] & E).
  apply stateful_bind_Ok in E as ([] & c3 & ->%on_group_modifying & ->%on_group_modifying). cbn. by repeat case_match.
Qed.

(** C9. A member follows the public group. When a member stages a commit that does not remove it,
    and merges it, then a public group in the same state stages the commit too, and merging it
    there gives exactly the public part of the member's group: the member accepts no such
    commit that a public group would refuse. When the commit removes the member, merging makes
    its group inactive; if a public group accepts the commit, the member is left with the new
    tree and context of the public group, but with the transcript hashes and the confirmation
    tag from before the commit, and with its queue. *)
Theorem member_follows_public_group self storage clock content ek lk policy (staged : MStagedCommit) now storage' c' :
  MCommit.stage_commit self storage clock content ek lk policy = Ok staged ->
  MCommit.merge_staged_commit now staged (MCommit.mkClient self storage') = (Ok tt, c') ->
  match staged_state staged with
  | GroupMemberState _ =>
      exists public, PStage.stage_commit (MemberState := MemberStagedCommitState) (public_group self) clock content policy = Ok public /\
        public_group (MCommit.cl_group c') = PStage.merge_commit (public_group self) public
  | PublicState _ =>
      group_state (MCommit.cl_group c') = Inactive /\
      forall public : MStagedCommit, PStage.stage_commit (public_group self) clock content policy = Ok public ->
        left_behind (public_group self) (public_group (MCommit.cl_group c')) (PStage.merge_commit (public_group self) public)
  end.
Proof.
  destruct staged as [q [sd|st]]; cbn [staged_state]; intros Hst Hm.
  - destruct (merge_staged_removed _ _ _ _ _ Hm) as [Hg ->]. split; [done|]. intros public Hp. by eapply stage_commit_removed.
  - apply merge_staged_Ok in Hm. exists (public_staged q st). split; [by eapply stage_commit_public|]. apply (mt_group _ _ _ _ Hm).
Qed.
End Rounds.
