(* ===== verification/ImportFacts.v ===== *)
(** * Importing a public group: theorems

    Importing an exported tree gives the tree back, and what [PublicGroup::from_ratchet_tree]
    has checked of a group that it returns. *)
From S2P Require Import Prelude TreeMath TreeMathFacts BinaryTree BinaryTreeFacts Crypto CryptoFacts Extensions TreeSync LeafNode TreeKem Proposals.
From S2P Require Import KeySchedule Framing Welcome ProposalStore PublicGroup StagedCommit MessageValidation MemberGroup Joining ProposalStoreFacts.
From S2P Require Import TreeSyncFacts TreeSyncDiffFacts TreeKemFacts TreeStateFacts ValidationFacts.

(** ** Exported trees *)
Section TreeExport.
Context {OC : OpenMlsCrypto} {TC : TlsCodec} {LeafNode : Type} {LO : LeafNodeOps LeafNode}.
Implicit Types (t : TreeSync LeafNode) (ls : list (option LeafNode)) (ps : list (option ParentNode)).

(** The nodes of a tree in array order. *)
Definition node_list (leaf : option LeafNode) ls ps : list (option (Node LeafNode)) :=
  (LeafNodeN <$> leaf) :: RTree.interleave_nodes ls ps.

Lemma split_node_list leaf ls ps i :
  length ls = length ps -> i mod 2 = 0 -> RTree.split_ratchet_tree i (node_list leaf ls ps) = Ok (leaf :: ls, ps).
Proof.
  revert leaf ps i. induction ls as [|l ls IH]; intros leaf [|p ps] i Hl Hi; try done; unfold node_list;
    cbn [RTree.split_ratchet_tree RTree.interleave_nodes]; rewrite Hi; cbn [Z.eqb].
  - by destruct leaf.
  - assert ((i + 1) mod 2 = 1) as Ho by (rewrite Z.add_mod, Hi by done; done). rewrite Ho. cbn [Z.eqb].
    injection Hl as Hl. specialize (IH l ps (i + 1 + 1) Hl). unfold node_list in IH.
    cbn [RTree.split_ratchet_tree] in IH. rewrite IH by (rewrite Z.add_mod, Ho by done; done). by destruct leaf, p.
Qed.

Lemma last_node_list leaf ls ps :
  length ls = length ps -> last (node_list leaf ls ps) = (fun l : option LeafNode => LeafNodeN <$> l) <$> last (leaf :: ls).
Proof.
  revert leaf ps. induction ls as [|l ls IH]; intros leaf [|p ps] Hl; try done.
  injection Hl as Hl. specialize (IH l ps Hl). unfold node_list in *. cbn [RTree.interleave_nodes].
  rewrite last_cons_cons, last_cons_cons, IH. by rewrite last_cons_cons.
Qed.

Lemma trimmed_full (nodes : list (option (Node LeafNode))) x : last nodes = Some (Some x) -> RTree.trimmed nodes = nodes.
Proof.
  intros Hl. unfold RTree.trimmed. destruct (rfind_index _ nodes) as [n|] eqn:E.
  - apply rfind_index_Some in E as [(y & Hn & _) Hmax]. rewrite last_lookup in Hl. apply lookup_lt_Some in Hn.
    destruct (decide (n = Nat.pred (length nodes))) as [->|Hne]; [by apply take_ge; lia|].
    by specialize (Hmax (Nat.pred (length nodes)) (Some x) ltac:(lia) Hl).
  - rewrite last_lookup in Hl. apply (rfind_index_None _ _ E) in Hl. done.
Qed.

Lemma enumerate_values {A} (l : list A) : (enumerate l).*2 = l.
Proof.
  unfold enumerate. rewrite fmap_imap. apply list_eq. intros i. rewrite list_lookup_imap. by destruct (l !! i).
Qed.

Lemma enumerate_leaves t :
  wf_tree (ts_tree t) -> enumerate (leaf_nodes (ts_tree t)) = leaf_list (TSync.empty_diff t) 0 (Z.of_nat (length (leaf_nodes (ts_tree t)))).
Proof.
  intros Ht. apply list_eq. intros i. unfold enumerate, leaf_list. rewrite list_lookup_imap, list_lookup_fmap.
  destruct (leaf_nodes (ts_tree t) !! i) as [x|] eqn:E; cbn.
  - pose proof (lookup_lt_Some _ _ _ E). rewrite lookup_seqZ_lt by lia. cbn. unfold TSync.empty_diff. rewrite empty_diff_leaf by done.
    unfold get_at. rewrite (proj2 (Z.leb_le _ _)) by lia. by rewrite Z.add_0_l, Nat2Z.id, E.
  - apply lookup_ge_None in E. by rewrite lookup_seqZ_ge by lia.
Qed.

(** A tree of height [h] that could not be smaller, with all its nodes. *)
Record tight t (h : Z) : Prop := {
  tg_inv : ts_inv (TSync.empty_diff t) h;
  tg_leaves : length (leaf_nodes (ts_tree t)) = Z.to_nat (2 ^ h);
  tg_full : exists i, (h = 0 \/ 2 ^ (h - 1) <= i) /\ is_Some (Diff.leaf (TSync.empty_diff t) i);
}.

Lemma export_tight t h :
  tight t h -> exists r l0 ls0 x, leaf_nodes (ts_tree t) = l0 :: ls0 /\ (h = 0 \/ 2 ^ (h - 1) <= Z.of_nat r) /\ (r < Z.to_nat (2 ^ h))%nat /\
    leaf_nodes (ts_tree t) !! r = Some (Some x) /\ (forall i, is_Some (Diff.leaf (TSync.empty_diff t) i) -> i <= Z.of_nat r) /\
    TSync.export_ratchet_tree t = node_list l0 (take r ls0) (take r (parent_nodes (ts_tree t))) /\
    last (TSync.export_ratchet_tree t) = Some (Some (LeafNodeN x)).
Proof.
  intros [Hi Hlen (i & Hh & Hfull)]. pose proof (wf_orig _ (ti_wf _ h Hi)) as Ht. cbn in Ht. pose proof (wf_counts _ Ht) as Hc.
  pose proof (ti_h _ _ Hi) as Hh29. pose proof (pow2_pos h ltac:(lia)) as Hpos.
  destruct (last_full_spec (TSync.empty_diff t) (Z.of_nat (length (leaf_nodes (ts_tree t)))) ltac:(lia)) as (r & Er & Hr & Hr0 & Hmax & Hex).
  rewrite <- enumerate_leaves in Er by done.
  assert (forall j, is_Some (Diff.leaf (TSync.empty_diff t) j) -> 0 <= j < 2 ^ h) as Hrange.
  { intros j Hj. exact (proj1 (full_in_range _ h j Hi Hj)). }
  assert (forall j, is_Some (Diff.leaf (TSync.empty_diff t) j) -> j <= r) as Hmax'.
  { intros j Hj. apply Hmax; [|done]. specialize (Hrange j Hj). lia. }
  assert (is_Some (Diff.leaf (TSync.empty_diff t) r)) as [x Hx].
  { destruct Hex as [->|]; [|done]. specialize (Hmax' i Hfull). specialize (Hrange i Hfull). by replace 0 with i by lia. }
  assert (leaf_nodes (ts_tree t) !! Z.to_nat r = Some (Some x)) as Hlk.
  { unfold TSync.empty_diff in Hx. rewrite empty_diff_leaf in Hx by done. unfold get_at in Hx. rewrite (proj2 (Z.leb_le _ _)) in Hx by lia.
    destruct (_ !! _); cbn in Hx; congruence. }
  destruct (leaf_nodes (ts_tree t)) as [|l0 ls0] eqn:El; [done|].
  exists (Z.to_nat r), l0, ls0, x. rewrite Z2Nat.id by done. specialize (Hmax' i Hfull) as Hir. pose proof (lookup_lt_Some _ _ _ Hlk) as Hlt.
  assert (last (node_list l0 (take (Z.to_nat r) ls0) (take (Z.to_nat r) (parent_nodes (ts_tree t)))) = Some (Some (LeafNodeN x))) as Hlast.
  { cbn [length] in Hc, Hlt. rewrite last_node_list by (rewrite !length_take; lia). rewrite last_lookup. cbn [length pred]. rewrite length_take.
    replace (Nat.min (Z.to_nat r) (length ls0)) with (Z.to_nat r) by lia.
    change (l0 :: take (Z.to_nat r) ls0) with (take (S (Z.to_nat r)) (l0 :: ls0)). rewrite lookup_take_lt by lia. by rewrite Hlk. }
  assert (TSync.export_ratchet_tree t = node_list l0 (take (Z.to_nat r) ls0) (take (Z.to_nat r) (parent_nodes (ts_tree t)))) as ->.
  2:{ split; [done|]. split; [lia|]. split; [lia|]. by repeat split. }
  unfold TSync.export_ratchet_tree, TSync.rightmost_full_leaf, RTree.export_ratchet_tree. rewrite tree_parents_enumerate, tree_leaves_enumerate, El, Er by done.
  rewrite !enumerate_values. rewrite Nat.add_1_r. cbn [take]. unfold enumerate at 1 2. rewrite !length_imap.
  replace (length (l0 :: ls0) - 1 - length (parent_nodes (ts_tree t)))%nat with 0%nat by lia. rewrite app_nil_r. by apply (trimmed_full _ (LeafNodeN x)).
Qed.

(** A full parent of the tree, at its place. *)
Lemma parent_node_at t h i p :
  ts_inv (TSync.empty_diff t) h -> parent_nodes (ts_tree t) !! i = Some (Some p) -> (i < Z.to_nat (2 ^ h - 1))%nat ->
  exists k j, 1 <= k /\ Z.of_nat i = parent_at k j /\ node_inv (Diff.leaf (TSync.empty_diff t)) (Diff.parent (TSync.empty_diff t)) k j p.
Proof.
  intros Hi Hp Hlt. pose proof (ti_h _ _ Hi) as Hh. pose proof (pow2_pos h ltac:(lia)).
  destruct (node_cover (2 * Z.of_nat i + 1) ltac:(lia)) as (k & j & Hk & Hj & E).
  destruct (decide (k = 0)) as [->|Hk0]; [unfold node in E; lia|].
  assert (Z.of_nat i = parent_at k j) as Ei by (pose proof (parent_at_index k j ltac:(lia)); lia).
  assert (in_tree h k j) as Ht.
  { apply (in_tree_smaller h (h + k + j)); [lia|lia| |lia]. split; [lia|]. split; [lia|].
    apply Z.lt_le_trans with (2 ^ j); [apply Z.pow_gt_lin_r; lia|apply pow2_le; lia]. }
  exists k, j. split; [lia|]. split; [done|]. apply (ti_nodes _ _ Hi); [lia|done|].
  rewrite <- Ei. unfold Diff.parent, TSync.empty_diff. cbn. rewrite lookup_empty. unfold Tree.parent_by_index, get_at.
  rewrite (proj2 (Z.leb_le _ _)) by lia. by rewrite Nat2Z.id, Hp.
Qed.

(** It has a full leaf to its right. *)
Lemma parents_below_rightmost t h i p :
  ts_inv (TSync.empty_diff t) h -> parent_nodes (ts_tree t) !! i = Some (Some p) -> (i < Z.to_nat (2 ^ h - 1))%nat ->
  exists l, Z.of_nat i < l /\ is_Some (Diff.leaf (TSync.empty_diff t) l).
Proof.
  intros Hi Hp Hlt. destruct (parent_node_at t h i p Hi Hp Hlt) as (k & j & Hk & Ei & Hn).
  destruct (ni_populated _ _ _ _ _ Hn 1 ltac:(lia)) as (l & El & Hl).
  exists l. split; [|done]. rewrite Ei. unfold parent_at. pose proof (pow2_pos (k - 1) ltac:(lia)).
  pose proof (Z.mul_div_le l (2 ^ (k - 1)) ltac:(lia)). rewrite El in *. rewrite (pow2_pred k) by lia. nia.
Qed.

(** The parents of a diff up to a leaf that it lists. *)
Lemma diff_parents_prefix (d : TreeSyncDiff LeafNode) h r :
  ts_inv d h -> 0 <= r < 2 ^ h -> listed d r ->
  exists pl, Diff.parents d = Some pl /\ take (Z.to_nat r) pl = (fun i => (i, Diff.parent d i)) <$> seqZ 0 r.
Proof.
  intros Hi Hr Hl. pose proof (ti_wf d h Hi) as Hw. pose proof (ti_parent_count d h Hi) as Hpc.
  destruct (merged_nodes (parent_nodes (original_tree d)) (parent_diff d) (Diff.parent_count d) ltac:(lia) (wf_parent_keys d Hw)) as (pl & E & Hs & Hin).
  exists pl. unfold Diff.parents, Diff.raw_parents. rewrite tree_parents_enumerate by apply Hw. split; [done|].
  assert (forall j, 0 <= j < r -> (j, Diff.parent d j) ∈ pl) as Hall.
  { intros j Hj. apply Hin. split; [lia|]. unfold Diff.parent. destruct (parent_diff d !! j) as [y|] eqn:Ej; [done|].
    assert (j < Z.of_nat (length (parent_nodes (original_tree d)))) as Hlt.
    { assert (listed d (j + 1)) as [Ho|Hd].
      { destruct (decide (j + 1 = r)) as [->|]; [done|]. apply (listed_prefix d h r Hi Hr Hl). lia. }
      - pose proof (wf_counts _ (wf_orig d Hw)). lia.
      - destruct (ti_parents d h Hi j ltac:(lia) Hd) as [|[? ?]]; [done|congruence]. }
    destruct (get_at_Some (parent_nodes (original_tree d)) j ltac:(lia)) as [y Ey]. unfold Tree.parent_by_index. by rewrite Ey. }
  apply sorted_pairs_unique; [by apply sorted_take|apply indexed_sorted|]. intros [i x].
  replace (Z.to_nat r) with (Z.to_nat (r - 0)) by lia. rewrite (take_dense fst pl 0 r); [|done|lia| |].
  - rewrite list_elem_of_fmap. cbn. split.
    + intros [Hx Hlt]. exists i. pose proof Hx as [Hi0 Hv]%Hin. split; [|apply elem_of_seqZ; lia]. f_equal.
      pose proof (Hall i ltac:(lia)) as [_ Hv']%Hin. destruct (parent_diff d !! i); congruence.
    + intros (i' & [= -> ->] & Hi'%elem_of_seqZ). split; [apply Hall; lia|lia].
  - intros [j y] [Hj _]%Hin. cbn. lia.
  - intros j Hj. exists (j, Diff.parent d j). split; [by apply Hall|done].
Qed.

Lemma interleave_prefix (ls : list (option LeafNode)) ps qs : (length ls <= length ps)%nat ->
  RTree.interleave_nodes ls (ps ++ qs) = RTree.interleave_nodes ls ps.
Proof. revert ps. induction ls as [|l ls IH]; intros [|p ps] Hl; cbn in *; [done..|lia|]. by rewrite IH by lia. Qed.

(** A diff exports the tree that it leads to. *)
Lemma diff_export_merged (d : TreeSyncDiff LeafNode) h t :
  ts_inv d h -> tight t h -> (forall i, Diff.leaf (TSync.empty_diff t) i = Diff.leaf d i) ->
  (forall p, 0 <= p < 2 ^ h - 1 -> Diff.parent (TSync.empty_diff t) p = Diff.parent d p) ->
  TSync.diff_export_ratchet_tree d = Some (TSync.export_ratchet_tree t).
Proof.
  intros Hi Ht Hl Hp. destruct (export_tight t h Ht) as (r & l0 & ls0 & x & El & Hrh & Hr & Hx & Hmax & Ee & Hlast).
  pose proof (wf_orig _ (ti_wf _ h (tg_inv t h Ht))) as Hw. cbn in Hw. pose proof (wf_counts _ Hw) as Hc.
  pose proof (tg_leaves t h Ht) as Hlen. pose proof (ti_h d h Hi) as Hh. pose proof (pow2_pos h ltac:(lia)).
  destruct (leaves_contiguous d (ti_wf d h Hi) (ti_contiguous d h Hi)) as (m & Hm & Elv & Hout). rewrite (ti_leaf_count d h Hi) in Hm.
  assert (forall i y, leaf_nodes (ts_tree t) !! i = Some y -> Diff.leaf d (Z.of_nat i) = y) as Hlf.
  { intros i y Hy. rewrite <- Hl. unfold TSync.empty_diff. rewrite empty_diff_leaf by done. unfold get_at.
    rewrite (proj2 (Z.leb_le _ _)) by lia. by rewrite Nat2Z.id, Hy. }
  assert (is_Some (Diff.leaf d (Z.of_nat r))) as Hfull by (rewrite (Hlf _ _ Hx); eauto).
  assert (Z.of_nat r < m) as Hrm by (destruct (Z.le_gt_cases m (Z.of_nat r)) as [Hle|]; [rewrite Hout in Hfull by done; by destruct Hfull|done]).
  destruct (full_in_range d h _ Hi Hfull) as [Hrange Hlist].
  destruct (diff_parents_prefix d h (Z.of_nat r) Hi Hrange Hlist) as (pl & Eps & Htk). rewrite Nat2Z.id in Htk.
  assert (TSDiff.last_full (leaf_list d 0 m) = Z.of_nat r) as Elf.
  { destruct (last_full_spec d m ltac:(lia)) as (r' & -> & Hr' & Hr0 & Hmax' & Hex). pose proof (Hmax' (Z.of_nat r) ltac:(lia) Hfull).
    destruct Hex as [->|Hex]; [lia|]. rewrite <- Hl in Hex. specialize (Hmax r' Hex). lia. }
  unfold TSync.diff_export_ratchet_tree. rewrite Elv, Eps. cbn [mbind option_bind]. rewrite Elf. f_equal.
  unfold RTree.export_ratchet_tree. rewrite Nat2Z.id, Nat.add_1_r.
  assert (take (S r) (leaf_list d 0 m).*2 = take (S r) (l0 :: ls0)) as ->.
  { rewrite <- El. apply list_eq. intros i. destruct (Nat.lt_ge_cases i (S r)) as [Hir|Hir]; [|by rewrite !lookup_take_ge].
    rewrite !lookup_take_lt by done. unfold leaf_list. rewrite list_lookup_fmap, list_lookup_fmap, lookup_seqZ_lt by lia. cbn.
    destruct (lookup_lt_is_Some_2 (leaf_nodes (ts_tree t)) i ltac:(lia)) as [y Hy]. by rewrite Hy, Z.add_0_l, (Hlf _ _ Hy). }
  cbn [take]. assert (take r pl.*2 = take r (parent_nodes (ts_tree t))) as ->.
  { rewrite <- fmap_take, Htk. apply list_eq. intros i. rewrite list_lookup_fmap, list_lookup_fmap.
    destruct (Nat.lt_ge_cases i r) as [Hir|Hir]; [|by rewrite lookup_take_ge, lookup_seqZ_ge by lia].
    rewrite lookup_take_lt, lookup_seqZ_lt by lia. cbn. rewrite <- Hp by lia.
    destruct (lookup_lt_is_Some_2 (parent_nodes (ts_tree t)) i ltac:(lia)) as [y Hy]. rewrite Hy. f_equal.
    unfold Diff.parent, TSync.empty_diff. cbn. rewrite lookup_empty. unfold Tree.parent_by_index, get_at.
    rewrite (proj2 (Z.leb_le _ _)) by lia. by rewrite Z.add_0_l, Nat2Z.id, Hy. }
  rewrite El in Hlen, Hc. cbn [length] in Hlen, Hc. rewrite interleave_prefix by (rewrite !length_take; lia).
  change ((LeafNodeN <$> l0) :: RTree.interleave_nodes (take r ls0) (take r (parent_nodes (ts_tree t))))
    with (node_list l0 (take r ls0) (take r (parent_nodes (ts_tree t)))). rewrite <- Ee. by apply (trimmed_full _ (LeafNodeN x)).
Qed.

(** Importing an exported tree gives the tree back. *)
Lemma import_export cs t h t' :
  tight t h -> TSync.from_ratchet_tree cs (TSync.export_ratchet_tree t) = Ok t' -> ts_tree t' = ts_tree t.
Proof.
  intros Ht E. destruct (export_tight t h Ht) as (r & l0 & ls0 & x & El & Hrh & Hr & Hx & Hmax & Ee & _). rewrite Ee in E. destruct Ht as [Hi Hlen _].
  pose proof (wf_orig _ (ti_wf _ h Hi)) as Hw. cbn in Hw. pose proof (wf_counts _ Hw) as Hc. pose proof (ti_h _ _ Hi) as Hh.
  pose proof (pow2_pos h ltac:(lia)) as Hpos. pose proof (pow2_le h 29) as H29.
  unfold TSync.from_ratchet_tree in E. rewrite El in Hlen, Hc, Hx. cbn [length] in Hlen, Hc.
  rewrite split_node_list in E by (done || rewrite !length_take; lia). cbn [map_err] in E. rewrite ok_bind in E.
  destruct (negb _); [done|]. unfold Tree.from_components in E. destruct (_ >? _); [done|]. destruct (negb _); [done|].
  cbn [map_err] in E. rewrite ok_bind in E. apply bind_Ok in E as ([] & _ & E%map_err_Ok).
  unfold TSync.populate_parent_hashes in E. apply bind_Ok in E as (sd & Es & [= <-]). apply bind_Ok in Es as (hash & _ & [= <-]).
  unfold TSync.merge_diff, Tree.merge_diff. cbn [ts_tree ts_diff Diff.into_staged staged_size staged_leaf_diff staged_parent_diff TSync.empty_diff
    Tree.empty_diff size leaf_diff parent_diff leaf_nodes parent_nodes default_leaf default_parent].
  rewrite !btree_iter_empty. cbn [foldl].
  assert (Tree.tree_size (mkTree (l0 :: take r ls0) (take r (parent_nodes (ts_tree t))) default_value default_value) = perfect h) as Esz.
  { unfold Tree.tree_size. cbn [leaf_nodes parent_nodes length]. rewrite !length_take, !Nat.min_l by lia.
    rewrite u32.wrap_small by (unfold u32.is_u32, u32.modulus; lia). rewrite tree_size_new_perfect by lia. f_equal.
    apply Z.log2_unique; [lia|]. destruct Hrh as [->|Hrh]; [cbn in *; lia|].
    destruct (decide (h = 0)) as [->|]; [cbn in *; lia|]. rewrite (pow2_pred h), (pow2_pred (Z.succ h)) in * by lia.
    replace (Z.succ h - 1) with h in * by lia. rewrite (pow2_pred h) in * by lia. lia. }
  rewrite Esz, perfect_leaf_count, perfect_parent_count by lia. destruct (ts_tree t) as [ls ps dl dp] eqn:Et. cbn [leaf_nodes parent_nodes] in *.
  subst ls. change (l0 :: take r ls0) with (take (S r) (l0 :: ls0)). f_equal; [..|by rewrite <- (wf_dl _ Hw)|by rewrite <- (wf_dp _ Hw)].
  - apply resize_take; [done|lia|]. intros i Hri Hin. destruct (lookup_lt_is_Some_2 (l0 :: ls0) i Hin) as [[y|] Hy]; [|done].
    assert (Z.of_nat i <= Z.of_nat r); [|lia]. apply Hmax. unfold TSync.empty_diff. rewrite Et, empty_diff_leaf by done.
    unfold get_at. rewrite (proj2 (Z.leb_le _ _)) by lia. cbn [leaf_nodes]. rewrite Nat2Z.id, Hy. by eexists.
  - apply resize_take; [lia|lia|]. intros i Hri Hin. destruct (lookup_lt_is_Some_2 ps i Hin) as [[p|] Hy]; [|done].
    destruct (parents_below_rightmost t h i p Hi) as (l & Hl & Hs); [by rewrite Et|lia|]. specialize (Hmax l Hs). lia.
Qed.
End TreeExport.

(** ** What an import checks *)
Section TreeImport.
Context {OC : OpenMlsCrypto} {TC : TlsCodec}.
Implicit Types (ts : TreeSync LeafNode) (nodes : list (option (Node LeafNode))).

Lemma split_leaf (leaves : list (option LeafNode)) parents nodes k x :
  (forall i, i mod 2 = 0 -> RTree.split_ratchet_tree i nodes = Ok (leaves, parents) -> leaves !! k = Some (Some x) ->
     nodes !! (2 * k)%nat = Some (Some (LeafNodeN x))) /\
  (forall i, i mod 2 = 1 -> RTree.split_ratchet_tree i nodes = Ok (leaves, parents) -> leaves !! k = Some (Some x) ->
     nodes !! (2 * k + 1)%nat = Some (Some (LeafNodeN x))).
Proof.
  revert leaves parents k. induction nodes as [|node nodes IH]; intros leaves parents k.
  { split; intros i _ [= <- <-]; done. }
  split; intros i Hi E Hk; cbn [RTree.split_ratchet_tree] in E; rewrite Hi in E; cbn [Z.eqb] in E.
  - assert ((i + 1) mod 2 = 1) as Ho by (rewrite Z.add_mod, Hi by done; done).
    destruct node as [[leaf|]|]; [|done|]; apply bind_Ok in E as ([ls ps] & E & [= <- <-]); 
      (destruct k as [|k]; cbn in Hk; [cbn; congruence|]); replace (2 * S k)%nat with (S (2 * k + 1)) by lia;
      by apply (proj2 (IH ls ps k) _ Ho E) in Hk.
  - assert ((i + 1) mod 2 = 0) as Ho by (rewrite Z.add_mod, Hi by done; done). rewrite Nat.add_1_r. cbn [lookup list_lookup].
    destruct node as [[|parent]|]; [done| |]; apply bind_Ok in E as ([ls ps] & E & [= <- <-]); by apply (proj1 (IH ls ps k) _ Ho E).
Qed.

(** The tree that is built from nodes. *)
Lemma from_nodes_tree cs nodes ts :
  TSync.from_ratchet_tree cs nodes = Ok ts ->
  wf_tree (ts_tree ts) /\ exists leaves parents n, RTree.split_ratchet_tree 0 nodes = Ok (leaves, parents) /\
    leaf_nodes (ts_tree ts) = resize n None leaves.
Proof.
  unfold TSync.from_ratchet_tree. intros E. apply bind_Ok in E as ([leaves parents] & Es%map_err_Ok & E). destruct (negb _); [done|].
  apply bind_Ok in E as (tree & Et%map_err_Ok & E). apply bind_Ok in E as ([] & _ & E%map_err_Ok). unfold Tree.from_components in Et.
  destruct (Z.gtb_spec (Z.of_nat (length leaves + length parents)) MAX_TREE_SIZE) as [|Hm]; [done|].
  destruct (Z.eqb_spec (Z.of_nat (length leaves)) (Z.of_nat (length parents) + 1)) as [Hc|]; [|done]. injection Et as <-.
  assert (wf_tree (mkTree leaves parents default_value default_value)) as Hw by (split; cbn; (lia || done)).
  unfold TSync.populate_parent_hashes in E. apply bind_Ok in E as (sd & Ed & [= <-]). apply bind_Ok in Ed as (hash & _ & [= <-]).
  destruct (merge_diff_view _ (empty_diff_wf _ Hw)) as [Hw' Hv]. cbn [original_tree Tree.empty_diff] in Hw', Hv. split; [exact Hw'|].
  eexists leaves, parents, _. split; [done|]. unfold TSync.merge_diff, Tree.merge_diff. cbn. by rewrite btree_iter_empty.
Qed.

Lemma from_nodes_leaf cs nodes ts i x :
  TSync.from_ratchet_tree cs nodes = Ok ts -> (i, x) ∈ TSync.full_leaves ts ->
  0 <= i /\ nodes !! Z.to_nat (2 * i) = Some (Some (LeafNodeN x)).
Proof.
  intros E Hin. destruct (from_nodes_tree _ _ _ E) as (Hw & leaves & parents & n & Es & El).
  apply (full_leaves_elem _ _ _ Hw) in Hin. unfold TSync.empty_diff in Hin. rewrite empty_diff_leaf, El in Hin by done.
  assert (0 <= i < Z.of_nat n) as Hi.
  { unfold get_at in Hin. destruct (Z.leb_spec 0 i); [|done]. destruct (_ !! _) eqn:Ek in Hin; [|done].
    apply lookup_lt_Some in Ek. rewrite length_resize in Ek. lia. }
  rewrite get_at_resize in Hin by done. split; [lia|]. replace (Z.to_nat (2 * i)) with (2 * Z.to_nat i)%nat by lia.
  apply (proj1 (split_leaf leaves parents nodes (Z.to_nat i) x) 0); [done..|].
  unfold get_at in Hin. rewrite (proj2 (Z.leb_le _ _)) in Hin by lia. destruct (leaves !! Z.to_nat i); cbn in Hin; congruence.
Qed.

(** A leaf whose signature is valid at its place in the group. *)
Definition signed_leaf (cs : Ciphersuite) (group_id : bytes) (i : LeafNodeIndex.t) (leaf : LeafNode) : Prop :=
  Signable.verify_no_out (Suite.signature_algorithm cs) (payload_signature_key (payload leaf)) LEAF_NODE_SIGNATURE_LABEL
    (unsigned_payload (add_tree_position (into_verifiable_leaf_node leaf) (mkTreePosition group_id i))) (signature leaf) = Ok tt.

Lemma verify_leaf_Ok leaf leaf' pos scheme pk :
  verify_leaf (add_tree_position (into_verifiable_leaf_node leaf) pos) scheme pk = Ok leaf' ->
  leaf' = leaf /\ Signable.verify_no_out scheme pk LEAF_NODE_SIGNATURE_LABEL
    (unsigned_payload (add_tree_position (into_verifiable_leaf_node leaf) pos)) (signature leaf) = Ok tt.
Proof.
  unfold verify_leaf. assert (verifiable_parts (add_tree_position (into_verifiable_leaf_node leaf) pos) = (payload leaf, signature leaf)) as ->.
  { unfold into_verifiable_leaf_node. by destruct (payload_source _). }
  intros E. apply bind_Ok in E as ([] & E & [= <-]). split; [by destruct leaf|done].
Qed.

Lemma verify_nodes_Ok cs gid i nodes nodes' :
  0 <= i -> verify_nodes cs gid i nodes = Ok nodes' -> nodes' = nodes /\
  forall k x, nodes !! k = Some (Some (LeafNodeN x)) -> signed_leaf cs gid (u32.wrap ((i + Z.of_nat k) / 2)) x.
Proof.
  revert i nodes'. induction nodes as [|node nodes IH]; intros i nodes' Hi E; cbn [verify_nodes] in E; [by injection E as <-|].
  apply bind_Ok in E as (node' & En & E). apply bind_Ok in E as (rest & Er & [= <-]). apply IH in Er as [-> Hs]; [|lia].
  assert (node' = node /\ forall x, node = Some (LeafNodeN x) -> signed_leaf cs gid (u32.wrap (i / 2)) x) as [-> Hn].
  { destruct node as [[leaf|p]|]; [|by destruct (_ =? 1); [|done]; injection En as <-|by injection En as <-].
    destruct (_ =? 0) in En; [|done]. apply bind_Ok in En as (leaf' & Ev%map_err_Ok & [= <-]).
    apply verify_leaf_Ok in Ev as [-> Ev]. split; [done|]. by intros x [= <-]. }
  split; [done|]. intros [|k] x Hk; [injection Hk as Hk; rewrite Z.add_0_r; auto|].
  replace (i + Z.of_nat (S k)) with (i + 1 + Z.of_nat k) by lia. by apply Hs.
Qed.

Lemma try_from_nodes_Ok cs gid nodes nodes' :
  try_from_nodes cs gid nodes = Ok nodes' -> nodes' = nodes /\
  forall k x, nodes !! k = Some (Some (LeafNodeN x)) -> signed_leaf cs gid (u32.wrap (Z.of_nat k / 2)) x.
Proof.
  unfold try_from_nodes. destruct (last nodes) as [[x|]|] eqn:El; [|done..]. intros E.
  apply bind_Ok in E as (nodes1 & (-> & Hs)%verify_nodes_Ok & [= <-]); [|done]. split; [by apply (trimmed_full _ x)|done].
Qed.

Lemma check_leaves_Ok (leaves : list LeafNode) s1 s2 s1' s2' :
  try_fold PImport.check_leaf leaves (s1, s2) = Ok (s1', s2') ->
  try_fold (insert_new ExternalDuplicateSignatureKey) ((fun l => payload_signature_key (payload l)) <$> leaves) s1 = Ok s1' /\
  try_fold (insert_new ExternalDuplicateEncryptionKey) ((fun l => payload_encryption_key (payload l)) <$> leaves) s2 = Ok s2'.
Proof.
  revert s1 s2. induction leaves as [|l leaves IH]; intros s1 s2 E; cbn [try_fold fmap list_fmap] in *; [by injection E as <- <-|].
  apply bind_Ok in E as ([t1 t2] & E1 & E). apply bind_Ok in E1 as ([] & _ & E1). apply bind_Ok in E1 as (u1 & H1 & E1).
  apply bind_Ok in E1 as (u2 & H2 & [= <- <-]). rewrite H1, H2, !ok_bind. by apply IH.
Qed.

(** The unmerged leaf [l] of the parent [i] is below it, and is unmerged at the nodes in between. *)
Definition unmerged_below ts (i : ParentNodeIndex.t) (l : LeafNodeIndex.t) : Prop :=
  exists path n, direct_path l (Tree.tree_size (ts_tree ts)) = Some path /\ path !! n = Some i /\
    forall j q, j ∈ take n path -> TSync.parent ts j = Some q -> l ∈ unmerged_leaves q.

Lemma check_unmerged_leaf_Ok ts i l : PImport.check_unmerged_leaf ts i l = Ok tt -> unmerged_below ts i l.
Proof.
  unfold PImport.check_unmerged_leaf. intros E. apply bind_Ok in E as (path & Ep & E). apply bind_Ok in E as ([n i'] & Ef & E).
  apply ok_or_Ok, list_find_Some in Ef as (Hn & -> & _). apply try_fold_Forall in E. exists path, n.
  split; [unfold returns in Ep; by destruct (direct_path _ _); [injection Ep as ->|]|]. split; [done|]. intros j q Hj Hq.
  rewrite Forall_forall in E. specialize (E j Hj). cbn in E. rewrite Hq in E. by case_bool_decide.
Qed.

Lemma check_parents_Ok ts (parents : list (ParentNodeIndex.t * ParentNode)) s s' :
  try_fold (PImport.check_parent ts) parents s = Ok s' ->
  try_fold (insert_new ExternalDuplicateEncryptionKey) ((fun p => encryption_key p.2) <$> parents) s = Ok s' /\
  forall i p l, (i, p) ∈ parents -> l ∈ unmerged_leaves p -> unmerged_below ts i l.
Proof.
  revert s. induction parents as [|[i p] parents IH]; intros s E; cbn [try_fold fmap list_fmap] in *.
  { injection E as <-. split; [done|]. intros i p l Hin. by apply not_elem_of_nil in Hin. }
  apply bind_Ok in E as (t & E1 & E). apply bind_Ok in E1 as (u & H1 & E1). apply bind_Ok in E1 as ([] & H2 & [= <-]).
  apply IH in E as [E Hp]. cbn [snd]. rewrite H1, ok_bind. split; [done|]. intros i' p' l [[= -> ->]|Hin]%elem_of_cons Hl; [|by eapply Hp].
  apply try_fold_Forall in H2. rewrite Forall_forall in H2. by apply check_unmerged_leaf_Ok, H2.
Qed.

(** What holds of a group that was imported. *)
Record imported (clock : Z) (policy : LeafNodeLifetimePolicy) (tree : RatchetTree) (info : GroupInfoTBS) (g : PublicGroup) : Prop := {
  im_context : pg_group_context g = gi_group_context info;
  im_version : PGroup.version g = ProtocolVersion.Mls10;
  im_tree : TSync.from_ratchet_tree (PGroup.ciphersuite g) tree = Ok (pg_treesync g);
  im_hash : ts_tree_hash (pg_treesync g) = gc_tree_hash (pg_group_context g);
  im_tag : pg_confirmation_tag g = gi_confirmation_tag info;
  im_interim : calculate_interim_transcript_hash (PGroup.ciphersuite g) (gc_confirmed_transcript_hash (pg_group_context g))
                 (pg_confirmation_tag g) = Ok (pg_interim_transcript_hash g);
  im_signed i leaf : (i, leaf) ∈ TSync.full_leaves (pg_treesync g) ->
    signed_leaf (PGroup.ciphersuite g) (gc_group_id (pg_group_context g)) i leaf;
  im_valid leaf : leaf ∈ PGroup.leaves g -> PGroup.validate_leaf_node g clock leaf policy = Ok tt;
  im_signature_keys : NoDup ((fun l => payload_signature_key (payload l)) <$> PGroup.leaves g);
  im_encryption_keys : NoDup (((fun l => payload_encryption_key (payload l)) <$> PGroup.leaves g) ++
                              ((fun p => encryption_key p.2) <$> TSync.full_parents (pg_treesync g)));
  im_unmerged i p l : (i, p) ∈ TSync.full_parents (pg_treesync g) -> l ∈ unmerged_leaves p -> unmerged_below (pg_treesync g) i l;
}.

Lemma import_Ok clock tree vgi store policy g info :
  PImport.from_ratchet_tree clock tree vgi store policy = Ok (g, info) ->
  info = mkGroupInfo (vgi_payload vgi) (vgi_signature vgi) None /\ pg_proposal_store g = store /\
  imported clock policy tree (vgi_payload vgi) g /\
  exists signer, TSync.leaf (pg_treesync g) (gi_signer (vgi_payload vgi)) = Some signer /\
    Signable.verify_no_out (Suite.signature_algorithm (PGroup.ciphersuite g)) (payload_signature_key (payload signer))
      SIGNATURE_GROUP_INFO_LABEL (tls_group_info_tbs (vgi_payload vgi)) (vgi_signature vgi) = Ok tt.
Proof.
  unfold PImport.from_ratchet_tree. cbv zeta. intros E. apply bind_Ok in E as ([] & _ & E).
  apply bind_Ok in E as (nodes & (-> & Hsig)%map_err_Ok%try_from_nodes_Ok & E). apply bind_Ok in E as (ts & Ht%map_err_Ok & E).
  apply bind_Ok in E as ([s1 s2] & [(Hn1 & _ & _)%insert_new_fold (Hn2 & _ & ->)%insert_new_fold]%check_leaves_Ok & E).
  apply bind_Ok in E as (s3 & [(Hn3 & Hd & _)%insert_new_fold Hun]%check_parents_Ok & E).
  apply bind_Ok in E as (signer & Hs%ok_or_Ok & E). apply bind_Ok in E as (gi & Hv%map_err_Ok & E).
  unfold group_info_verify in Hv. apply bind_Ok in Hv as ([] & Hv & [= <-]).
  destruct (bool_decide_reflect (ts_tree_hash ts = gc_tree_hash (gi_group_context (vgi_payload vgi)))) as [Hh|]; [|done].
  destruct (bool_decide_reflect (gc_protocol_version (gi_group_context (vgi_payload vgi)) = ProtocolVersion.Mls10)) as [Hver|]; [|done].
  cbn [negb gi_payload] in E. apply bind_Ok in E as (interim & Hi%map_err_Ok & E). apply bind_Ok in E as ([] & Hl & [= <- <-]).
  split; [done|]. split; [done|]. split; [|by exists signer]. split; try done; cbn.
  - intros i leaf Hin. destruct (from_nodes_leaf _ _ _ _ _ Ht Hin) as [Hi0 Hlk].
    apply Hsig in Hlk. rewrite Z2Nat.id, Z.mul_comm, Z.div_mul in Hlk by lia. rewrite u32.wrap_small in Hlk; [done|].
    destruct (from_nodes_tree _ _ _ Ht) as (Hw & _). apply (full_leaves_elem _ _ _ Hw) in Hin.
    pose proof (wf_max _ Hw) as Hm. change MAX_TREE_SIZE with (2 ^ 30 - 1) in Hm. unfold TSync.empty_diff in Hin.
    rewrite empty_diff_leaf in Hin by done. unfold get_at in Hin. destruct (Z.leb_spec 0 i); [|done].
    destruct (_ !! _) eqn:Ek in Hin; [|done]. apply lookup_lt_Some in Ek. unfold u32.is_u32, u32.modulus. lia.
  - intros leaf Hin. apply try_fold_Forall in Hl. rewrite Forall_forall in Hl. by apply Hl in Hin as Hin%map_err_Ok.
  - apply NoDup_app. split; [done|]. split; [|done]. intros k Hk Hk'. apply (Hd k Hk'). apply elem_of_union_l, elem_of_list_to_set.
    exact Hk.
Qed.

(** C12. Import of a ratchet tree. A public group that is built from a ratchet tree and a group info
    is one that the signer of the group info vouches for and that passed every check of a
    tree from outside: the signer is a member whose key verifies the group info; context,
    confirmation tag and tree hash agree; the leaves are signed for this group and their
    positions and valid in it; signature keys and encryption keys, of leaves and parents, are
    distinct; and every unmerged leaf is listed below its parent all the way down. *)
Theorem import_valid clock tree vgi store policy g info :
  PImport.from_ratchet_tree clock tree vgi store policy = Ok (g, info) ->
  gi_payload info = vgi_payload vgi /\ imported clock policy tree (vgi_payload vgi) g /\
  exists signer, TSync.leaf (pg_treesync g) (gi_signer (vgi_payload vgi)) = Some signer /\
    Signable.verify_no_out (Suite.signature_algorithm (PGroup.ciphersuite g)) (payload_signature_key (payload signer))
      SIGNATURE_GROUP_INFO_LABEL (tls_group_info_tbs (vgi_payload vgi)) (vgi_signature vgi) = Ok tt.
Proof. intros (-> & _ & Him & Hs)%import_Ok. by split. Qed.
End TreeImport.
