(* ===== verification/JoiningFacts.v ===== *)
(** * Joining a group by a Welcome: theorems

    A member who joins by a Welcome is in step with the member who sent it. *)
From S2P Require Import Prelude TreeMath TreeMathFacts BinaryTree BinaryTreeFacts Crypto CryptoFacts SenderRatchet SenderRatchetFacts SecretTree SecretTreeFacts PastSecrets Extensions ExtensionsFacts.
From S2P Require Import TreeSync LeafNode TreeKem Proposals KeySchedule Framing PrivateMessages Welcome ProposalStore PublicGroup StagedCommit.
From S2P Require Import MessageValidation KeyPackages MemberGroup Exporting MemberCommit Joining MemberProcessing CommitBuilder PrivateMessagesFacts MemberMessagesFacts ProposalStoreFacts TreeSyncFacts TreeSyncDiffFacts TreeKemFacts.
From S2P Require Import TreeStateFacts TreeKemAgreement LeafNodeFacts ValidationFacts ApplyProposalsFacts CommitFacts PublicGroupFacts.
From S2P Require Import CommitAgreement CommitQueueFacts EpochAgreement MemberEpochs DecodingFacts Decoding ImportFacts.

(** ** The tree of a commit *)
Section CommitTree.
Context {OC : OpenMlsCrypto} {TC : TlsCodec}.
Implicit Types (ga : MlsGroup) (t : TreeSync LeafNode).

Lemma confirmed_diff content s s' :
  PGDiff.update_confirmed_transcript_hash content s = (Ok tt, s') -> pgd_diff s' = pgd_diff s.
Proof.
  unfold PGDiff.update_confirmed_transcript_hash, updating. intros E.
  destruct (_ ≫= _) as [[u d]| |] eqn:Eb in E; [|done..]. injection E as -> <-. by apply bind_Ok in Eb as (h & _ & [= <-]).
Qed.

(** Merging a diff whose tree is tight gives a tight tree. *)
Lemma merged_tight t (d : TreeSyncDiff LeafNode) hash h i :
  ts_inv d h -> original_tree d = ts_tree t -> (h = 0 \/ 2 ^ (h - 1) <= i) -> is_Some (Diff.leaf d i) ->
  tight (TSync.merge_diff t (mkStagedTreeSync (Diff.into_staged d) hash)) h.
Proof.
  intros Hi Ho Hh Hf. destruct (merged_spec d h Hi) as (Hm & Hl & _). unfold merged in *. rewrite Ho in *.
  split; [exact Hm| |exists i; split; [done|]; by rewrite Hl].
  change (length (write_all (list.resize (Z.to_nat (TreeSize.leaf_count (size d))) default_value (leaf_nodes (ts_tree t)))
    (btree_iter (leaf_diff d))) = Z.to_nat (2 ^ h)).
  rewrite length_write_all, length_resize, (ti_size d h Hi), perfect_leaf_count; [done|apply Hi].
Qed.

Lemma built_tight ga loaded clock random leaf_random old_signer new_signer result params own_updates q v diff path diff1 diff2 diff3
    content context es tag staged :
  committer ga -> lo_external_commit_info loaded = None ->
  build_run loaded ga clock random leaf_random old_signer new_signer result params own_updates q v diff path diff1 diff2 diff3
    content context es tag staged ->
  exists h, tight (TSync.merge_diff (pg_treesync (public_group ga)) (spg_staged_diff staged)) h /\
    TSync.diff_export_ratchet_tree (pgd_diff diff3)
      = Some (TSync.export_ratchet_tree (TSync.merge_diff (pg_treesync (public_group ga)) (spg_staged_diff staged))).
Proof.
  intros Hcm Hext [Hq Hap Hcp Hbc Har _ HF _ _ _]. destruct (gi_tree _ (cm_inv _ Hcm)) as [h0 Hi0].
  pose proof (apply_proposals_spec q (Some (own_leaf_index ga)) (PGroup.empty_diff (public_group ga)) h0 Hi0 HF) as Hsp. rewrite Hap in Hsp.
  destruct Hsp as (d & h & inv & -> & -> & Ha). destruct (survivor _ _ _ _ _ _ Ha (cm_own _ Hcm) Har) as [Hown _].
  assert (ts_inv (pgd_diff diff1) h /\ original_tree (pgd_diff diff1) = ts_tree (pg_treesync (public_group ga)) /\
    forall i, is_Some (Diff.leaf d i) -> is_Some (Diff.leaf (pgd_diff diff1) i)) as (Hi & Ho & Hl).
  { unfold CBuilder.commit_path_result, CBuilder.is_external_commit in Hcp. rewrite Hext in Hcp.
    pose proof (ap_original _ _ _ _ _ Ha) as Hor. destruct (_ || bool_decide (is_Some new_signer)) in Hcp; cbv zeta in Hcp.
    - rewrite bool_decide_false in Hcp by (by intros []).
      destruct (compute_path_Ok _ _ _ _ _ _ _ _ _ _ _ Hcp)
        as (params' & d' & plain & keypairs & secret & nodes & leaf & ctx & _ & Happ & (hash & _ & ->)%update_group_context_Ok & _).
      destruct (own_update_applied _ _ _ _ _ _ _ _ _ _ _ _ (ap_inv _ _ _ _ _ Ha) Hown Happ)
        as (leaf' & hash' & kp & sec & pth & pkp & _ & _ & [_ (d2 & Hpr & ->) Hi' Hlf Hls _ _ _]).
      cbn. split; [done|]. split; [apply original_process in Hpr; cbn; by rewrite Hpr, Hor|].
      intros i Hs. destruct (decide (i = own_leaf_index ga)) as [->|]; [by rewrite Hlf|by rewrite Hls].
    - apply stateful_bind_Ok in Hcp as ([] & s & (hash & _ & ->)%with_err_Ok%update_group_context_Ok & [= _ <-]).
      cbn. by split; [apply Ha|]. }
  destruct Hbc as [_ Hconf _ _ _ Hint Hst _ _]. apply confirmed_diff in Hconf. apply interim_diff in Hint as (Hd & _ & _).
  rewrite Hconf in Hd. unfold PGDiff.into_staged_diff, TSync.into_staged_diff in Hst.
  apply bind_Ok in Hst as (sd & E & [= <-]). apply bind_Ok in E as (hash & _ & [= <-]). cbn [spg_staged_diff]. rewrite Hd. exists h.
  assert (tight (TSync.merge_diff (pg_treesync (public_group ga)) (mkStagedTreeSync (Diff.into_staged (pgd_diff diff1)) hash)) h) as Ht.
  { destruct (ap_trimmed _ _ _ _ _ Ha) as [H0|(i & Hii & Hfi)].
    - apply (merged_tight _ _ _ _ (own_leaf_index ga)); auto.
    - apply (merged_tight _ _ _ _ i); auto. }
  split; [exact Ht|]. destruct (merged_spec _ h Hi) as (_ & Hml & Hmp). unfold merged in *. rewrite Ho in *.
  by apply (diff_export_merged _ h).
Qed.
End CommitTree.

(** ** The tree on the wire *)
Section WireTree.
Context {OC : OpenMlsCrypto} {TC : TlsCodec} {VC : TlsVecCodec}.

Lemma node_list_elem n (leaf : option LeafNode) ls ps :
  Some n ∈ node_list leaf ls ps -> (exists x, n = LeafNodeN x /\ Some x ∈ leaf :: ls) \/ (exists p, n = ParentNodeN p /\ Some p ∈ ps).
Proof.
  revert leaf ps. induction ls as [|l ls IH]; intros leaf ps Hn; unfold node_list in *; apply elem_of_cons in Hn as [Hn|Hn].
  - left. destruct leaf as [x|]; [|done]. injection Hn as ->. exists x. split; [done|constructor].
  - by apply elem_of_nil in Hn.
  - left. destruct leaf as [x|]; [|done]. injection Hn as ->. exists x. split; [done|constructor].
  - destruct ps as [|p ps]; [by apply elem_of_nil in Hn|]. cbn [RTree.interleave_nodes] in Hn. apply elem_of_cons in Hn as [Hn|Hn].
    + right. destruct p as [p|]; [|done]. injection Hn as ->. exists p. split; [done|constructor].
    + destruct (IH l ps Hn) as [(x & -> & Hx)|(p' & -> & Hp)]; [left|right]; eexists; (split; [done|by constructor]).
Qed.

Lemma sorted_increasing (l : list Z) : StronglySorted Z.lt l -> UnmergedLeaves.increasing l = true.
Proof.
  induction 1 as [|x l Hs IH Hx]; [done|]. destruct l as [|y l]; [done|]. cbn [UnmergedLeaves.increasing]. apply Forall_cons in Hx as [Hxy _].
  rewrite (proj2 (Z.ltb_lt _ _)) by done. done.
Qed.

Lemma export_wire (t : TreeSync LeafNode) h :
  tight t h -> (forall i x, (i, x) ∈ TSync.full_leaves t -> wire_leaf x) -> wire_tree (TSync.export_ratchet_tree t).
Proof.
  intros Ht Hw. destruct (export_tight t h Ht) as (r & l0 & ls0 & x0 & El & _ & Hr & _ & _ & -> & _). pose proof (tg_inv t h Ht) as Hi.
  pose proof (wf_orig _ (ti_wf _ h Hi)) as Hwf. cbn in Hwf. pose proof (ti_h _ _ Hi) as Hh. pose proof (pow2_le h 29).
  apply Forall_forall. intros o Ho n ->. apply node_list_elem in Ho as [(x & -> & Hx)|(p & -> & Hp)].
  - assert (Some x ∈ leaf_nodes (ts_tree t)) as Hin.
    { rewrite El. apply elem_of_cons in Hx as [->|Hx]; [constructor|]. constructor. by eapply elem_of_take in Hx as (i & Hi' & _); eapply list_elem_of_lookup_2. }
    apply list_elem_of_lookup in Hin as [i Hin]. apply (Hw (Z.of_nat i)). apply full_leaves_elem; [done|].
    unfold TSync.empty_diff. rewrite empty_diff_leaf by done. unfold get_at. rewrite (proj2 (Z.leb_le _ _)) by lia. by rewrite Nat2Z.id, Hin.
  - apply elem_of_take in Hp as (i & Hp & Hir). destruct (parent_node_at t h i p Hi Hp) as (k & j & Hk & _ & Hn); [lia|]. split.
    + apply Forall_forall. intros l Hl. destruct (ni_unmerged _ _ _ _ _ Hn l Hl) as [_ Hs].
      destruct (full_in_range _ h l Hi Hs) as [Hrange _]. split; [lia|]. change (2 ^ (8 * Z.of_nat 4)) with (2 ^ 32). lia.
    + apply sorted_increasing, (ni_sorted _ _ _ _ _ Hn).
Qed.
End WireTree.

(** ** The Welcome of a commit *)
Section Welcomes.
Context {OC : OpenMlsCrypto} {TC : TlsCodec} {VC : TlsVecCodec}.
Context {LH : LawfulHpke} {LA : LawfulAead} {LC : LawfulCodec} {LV : LawfulVecCodec}.
Implicit Types (ga : MlsGroup) (w : Welcome).

(** The secrets that [w] carries for one of the invited members. *)
Record sealed_secrets (joiner : Secret) (psks : list PreSharedKeyId) w (kp : KeyPackage) (egs : EncryptedGroupSecrets) : Prop := {
  ss_secrets : exists path b, new_encoded joiner path psks = Some b /\
    Hpke.encrypt_with_label (kp_init_key (kp_payload kp)) "Welcome" (welcome_encrypted_group_info w) b
      (kp_ciphersuite (kp_payload kp)) = Ok (egs_encrypted_group_secrets egs);
  ss_ref : key_package_hash_ref kp = Ok (egs_new_member egs);
}.

Record sealed_welcome ga diff exts tag (joiner welcome : Secret) (v : ApplyProposalsValues) w : Prop := {
  sw_suite : welcome_ciphersuite w = MGroup.ciphersuite ga;
  sw_info : exists info key nonce b,
    gi_payload info = mkGroupInfoTBS (pgd_group_context diff) exts tag (own_leaf_index ga) /\ own_payload info /\
    derive_welcome_key_nonce welcome (MGroup.ciphersuite ga) = Ok (key, nonce) /\ tls_group_info info = Some b /\
    aead_seal key b [] nonce = Ok (welcome_encrypted_group_info w);
  sw_secrets : Forall2 (fun m => sealed_secrets joiner (apv_presharedkeys v) w m.2) (apv_invitation_list v) (welcome_secrets w);
}.

Lemma commit_welcome_Ok ga diff exts tag signer joiner welcome v path w :
  CBuilder.commit_welcome ga diff exts tag signer joiner welcome v path = Ok w ->
  sealed_welcome ga diff exts tag joiner welcome v w.
Proof.
  unfold CBuilder.commit_welcome, group_info_tbs_new, group_info_sign. cbv zeta. intros E.
  apply bind_Ok in E as (tbs & Et%map_err_Ok & E). apply bind_Ok in Et as ([] & _ & [= <-]).
  apply bind_Ok in E as (info & Ei%map_err_Ok & E). apply bind_Ok in Ei as (sig & _ & [= <-]).
  apply bind_Ok in E as ([key nonce] & Ek%map_err_Ok & E). apply bind_Ok in E as (b & Eb%ok_or_Ok & E).
  apply bind_Ok in E as (ct & Ect%map_err_Ok & E). apply bind_Ok in E as (secrets & Es%map_err_Ok & [= <-]).
  split; [done| |].
  - eexists _, key, nonce, b. split; [|split; [|by split]]; [done|]. intros b' Eb'. exact Eb'.
  - unfold encrypt_group_secrets in Es. apply try_map_Forall2 in Es. eapply Forall2_impl; [exact Es|].
    intros [i kp] egs Eg. unfold encrypt_member_secrets in Eg. apply bind_Ok in Eg as (pos & _ & Eg).
    apply bind_Ok in Eg as (psec & _ & Eg). apply bind_Ok in Eg as (sb & Esb%ok_or_Ok & Eg).
    apply bind_Ok in Eg as (c & Ec%map_err_Ok & Eg). apply bind_Ok in Eg as (ref & Er & [= <-]). split; [|exact Er]. by exists psec, sb.
Qed.

(** The joiner gets [tree] with the Welcome, or by other means. *)
Definition given_tree (config : GroupInfoConfig) (given : option RatchetTree) (tree : RatchetTree) : Prop :=
  gic_use_ratchet_tree_extension config = true \/ Exts.ratchet_tree (gic_other_extensions config) = None /\ given = Some tree.

#[local] Existing Instance welcome_decoder.

(** The extensions of the group info fit the wire if the tree and the given extensions do, and
    the tree is read from them. *)
Lemma info_extensions_wire (config : GroupInfoConfig) d tree te exts :
  wire_tree tree -> TSync.diff_export_ratchet_tree d = Some tree ->
  Forall (wire_extension read_ratchet_tree) (gic_other_extensions config) ->
  (if gic_use_ratchet_tree_extension config then
     nodes ← returns (TSync.diff_export_ratchet_tree d);
     ratchet_tree ← ok_or (tls_ratchet_tree nodes) (CreateSignatureError SignatureSigningError);
     Ok [Extension.RatchetTree ratchet_tree]
   else Ok []) = Ok te ->
  Exts.from_vec InGroupInfo (te ++ gic_other_extensions config) = Ok exts ->
  wire_extensions read_ratchet_tree InGroupInfo exts /\
  forall given info, given_tree config given tree -> gi_extensions (vgi_payload info) = exts ->
    Join.welcome_ratchet_tree info given = Ok tree.
Proof.
  intros Ht Ed Ho Ete E.
  assert (exts = te ++ gic_other_extensions config) as ->.
  { unfold Exts.from_vec, Exts.try_from in E. by apply bind_Ok in E as ([] & _ & [= <-]). }
  apply try_from_spec in E. unfold given_tree. destruct (gic_use_ratchet_tree_extension config).
  - rewrite Ed in Ete. cbn [returns] in Ete. rewrite ok_bind in Ete. apply bind_Ok in Ete as (b & Eb%ok_or_Ok & [= <-]).
    pose proof (tls_exact_app tls_ratchet_tree read_ratchet_tree tree b (reads_ratchet_tree tree Ht) Eb) as Hx. split.
    + split; [by apply E|]. apply Forall_app. split; [|done]. apply Forall_singleton. split; [done|]. by exists tree.
    + intros given info _ Hi. unfold Join.welcome_ratchet_tree. rewrite Hi. change (Exts.ratchet_tree _) with (Some b).
      cbn [tls_read_ratchet_tree welcome_decoder]. rewrite <- (app_nil_r b), (reads_ratchet_tree tree Ht b [] Eb). cbn [ok_or]. by rewrite ok_bind.
  - injection Ete as <-. split; [by split|]. intros given info [|[Hn ->]] Hi; [done|]. unfold Join.welcome_ratchet_tree. rewrite Hi.
    change ([] ++ gic_other_extensions config) with (gic_other_extensions config). by rewrite Hn.
Qed.

(** A client that the commit of [ga] adds by one of the key packages [adds]: it has the private
    keys of the key package with reference [r], and loads the PSKs [psks] of the commit. *)
Record invited ga (adds : list KeyPackage) (psks : list PreSharedKeyId) (loaded : list (PreSharedKeyId * Secret)) w
    (config : MlsGroupJoinConfig) (storage : Storage) (store : KeyPackageStore) (bundle : KeyPackageBundle) (r : bytes) : Prop := {
  iv_found : Join.find_key_package w store = Some bundle;
  iv_ref : key_package_hash_ref (key_package bundle) = Ok r;
  iv_added : exists kp, kp ∈ adds /\ key_package_hash_ref kp = Ok r;
  iv_keys kp : kp ∈ adds -> key_package_hash_ref kp = Ok r -> kp_ciphersuite (kp_payload kp) = MGroup.ciphersuite ga /\
    exists ikm, derive_hpke_keypair_op (Suite.hpke_config (MGroup.ciphersuite ga)) ikm = Ok (kp_init_key (kp_payload kp), private_init_key bundle);
  iv_suite : kp_ciphersuite (kp_payload (key_package bundle)) = MGroup.ciphersuite ga;
  iv_supported : supports_op (MGroup.ciphersuite ga) = Ok tt;
  iv_psks : load_psks (stored_psk storage) (RStore.new (number_of_resumption_psks config)) None None psks = Ok loaded;
  iv_valid : validate_in_welcome psks (MGroup.ciphersuite ga) = Ok tt;
}.

(** What the client knows when it has processed the Welcome. *)
Record processed (pw : ProcessedWelcome) ga (config : MlsGroupJoinConfig) (bundle : KeyPackageBundle) (es : EpochSecrets) (tbs : GroupInfoTBS) : Prop := {
  pr_config : pw_config pw = config;
  pr_suite : pw_ciphersuite pw = MGroup.ciphersuite ga;
  pr_secrets : pw_epoch_secrets pw = es;
  pr_info : vgi_payload (pw_verifiable_group_info pw) = tbs;
  pr_bundle : pw_key_package_bundle pw = bundle;
}.

Lemma find_sealed joiner psks w (inv : list (LeafNodeIndex.t * KeyPackage)) r :
  Forall2 (fun m => sealed_secrets joiner psks w m.2) inv (welcome_secrets w) ->
  (exists kp, kp ∈ inv.*2 /\ key_package_hash_ref kp = Ok r) ->
  exists egs kp, find_encrypted_group_secret w r = Some egs /\ kp ∈ inv.*2 /\ key_package_hash_ref kp = Ok r /\ sealed_secrets joiner psks w kp egs.
Proof.
  intros HF (kp0 & Hin & Hr). unfold find_encrypted_group_secret.
  destruct (list_find (fun egs => r = egs_new_member egs) (welcome_secrets w)) as [[n egs]|] eqn:El.
  - apply list_find_Some in El as (Hn & Er & _). destruct (Forall2_lookup_r _ _ _ _ _ HF Hn) as ([i kp] & Hk & Hs). cbn in Hs.
    exists egs, kp. split; [done|]. split; [apply list_elem_of_fmap; exists (i, kp); split; [done|by eapply list_elem_of_lookup_2]|].
    split; [|done]. rewrite Er. apply (ss_ref _ _ _ _ _ Hs).
  - exfalso. apply list_elem_of_fmap in Hin as ([i kp] & -> & Hin). apply list_elem_of_lookup in Hin as [n Hn].
    destruct (Forall2_lookup_l _ _ _ _ _ HF Hn) as (egs & He & Hs). apply list_find_None in El. rewrite Forall_forall in El.
    apply (El egs); [by eapply list_elem_of_lookup_2|]. cbn in Hs, Hr. rewrite (ss_ref _ _ _ _ _ Hs) in Hr. by injection Hr.
Qed.

Lemma no_required_capabilities exts : wire_extensions read_ratchet_tree InGroupInfo exts -> Exts.required_capabilities exts = None.
Proof.
  intros [[_ Hv] _]. unfold Exts.required_capabilities, Exts.find_by_type. destruct (list_find _ exts) as [[n e]|] eqn:El; [|done].
  apply list_find_Some in El as (Hn & Et & _). rewrite Forall_forall in Hv. apply list_elem_of_lookup_2, Hv in Hn. by rewrite Et in Hn.
Qed.

(** The joiner runs the key schedule of the committer. *)
Lemma finish_agrees ga w config storage rs bundle gs loaded commit_secret context welcome es key nonce info :
  CBuilder.commit_epoch_secrets ga loaded commit_secret context = Ok (gs_joiner_secret gs, welcome, es) ->
  welcome_ciphersuite w = MGroup.ciphersuite ga -> kp_ciphersuite (kp_payload (key_package bundle)) = MGroup.ciphersuite ga ->
  load_psks (stored_psk storage) rs None None (gs_psks gs) = Ok loaded ->
  derive_welcome_key_nonce welcome (MGroup.ciphersuite ga) = Ok (key, nonce) ->
  group_info_try_from_ciphertext key nonce (welcome_encrypted_group_info w) [] = Ok info ->
  tls_group_context (gi_group_context (vgi_payload info)) = Some context ->
  gc_ciphersuite (gi_group_context (vgi_payload info)) = MGroup.ciphersuite ga ->
  Exts.required_capabilities (gi_extensions (vgi_payload info)) = None ->
  Join.finish_processed_welcome config storage rs bundle gs w None
    = Ok (mkProcessedWelcome config (MGroup.ciphersuite ga) gs es info rs bundle).
Proof.
  intros Hes Hs Hbs Hld Hkn Hgi Hctx Hcs Hrc. unfold CBuilder.commit_epoch_secrets in Hes. cbv zeta in Hes.
  apply bind_Ok in Hes as (js & Ejs%map_err_Ok & E). apply bind_Ok in E as (psk & Epsk%map_err_Ok & E).
  apply bind_Ok in E as (ks & Eks%map_err_Ok & E). apply bind_Ok in E as (ws & Ews%map_err_Ok & E).
  destruct (KSched.add_context context ks) as [ra ks'] eqn:Eadd. apply bind_Ok in E as ([] & ->%map_err_Ok & E).
  apply bind_Ok in E as (es' & Ees%map_err_Ok & [= -> -> ->]).
  unfold Join.finish_processed_welcome. cbv zeta. cbn [Join.foreign_psk]. rewrite ok_bind, Hld, Hs. cbn [map_err].
  rewrite ok_bind, Epsk. cbn [map_err]. rewrite ok_bind, Eks. cbn [map_err]. rewrite ok_bind, Ews. cbn [map_err].
  rewrite ok_bind, Hkn. cbn [map_err]. rewrite ok_bind, Hgi. cbn [map_err]. rewrite ok_bind, Hctx. cbn [ok_or]. rewrite ok_bind, Eadd.
  cbn [map_err]. rewrite ok_bind, Ees. cbn [map_err]. rewrite ok_bind, Hrc, ok_bind, Hcs, Hbs. by rewrite bool_decide_true.
Qed.

Lemma welcome_processed ga diff exts tag joiner welcome v w loaded config storage store bundle r commit_secret context es :
  sealed_welcome ga diff exts tag joiner welcome v w ->
  CBuilder.commit_epoch_secrets ga loaded commit_secret context = Ok (joiner, welcome, es) ->
  tls_group_context (pgd_group_context diff) = Some context -> gc_ciphersuite (pgd_group_context diff) = MGroup.ciphersuite ga ->
  wire_group_info (mkGroupInfoTBS (pgd_group_context diff) exts tag (own_leaf_index ga)) ->
  Forall (fun i => wire_psk (psk i)) (apv_presharedkeys v) ->
  invited ga (apv_invitation_list v).*2 (apv_presharedkeys v) loaded w config storage store bundle r ->
  exists pw store', Join.new_from_welcome config storage w store = (Ok pw, store') /\
    processed pw ga config bundle es (mkGroupInfoTBS (pgd_group_context diff) exts tag (own_leaf_index ga)).
Proof.
  intros [Hs (info & key & nonce & b & Hp & Ho & Hkn & Hb & Hseal) HF] Hes Hctx Hcs Hwi Hwp [Hf Hr Ha Hk Hbs Hsup Hld Hval].
  destruct (find_sealed _ _ _ _ _ HF Ha) as (egs & kp & Hegs & Hin & Hkr & [(path & sb & Henc & Hct) _]).
  destruct (Hk kp Hin Hkr) as [Ekc (ikm & Hkp)]. rewrite Ekc in Hct. pose proof (decrypt_with_label_Ok _ _ _ _ _ _ _ _ Hkp Hct) as Hdec.
  assert (group_secrets_try_from_ciphertext (private_init_key bundle) (egs_encrypted_group_secrets egs) (welcome_encrypted_group_info w)
    (MGroup.ciphersuite ga) = Ok (mkGroupSecrets joiner path (apv_presharedkeys v))) as Hgs.
  { unfold group_secrets_try_from_ciphertext. rewrite Hdec. cbn [map_err]. rewrite ok_bind. cbn [tls_read_group_secrets welcome_decoder].
    rewrite <- (app_nil_r sb), (group_secrets_read _ _ _ _ _ Hwp Henc). done. }
  assert (group_info_try_from_ciphertext key nonce (welcome_encrypted_group_info w) [] = Ok (group_info_received info)) as Hgi.
  { unfold group_info_try_from_ciphertext. rewrite (aead_open_seal _ _ _ _ _ Hseal). cbn [map_err]. rewrite ok_bind.
    cbn [tls_read_group_info welcome_decoder]. rewrite <- (app_nil_r b), (group_info_read info b []); [done|by rewrite Hp|done|done]. }
  assert (exists store', Join.decrypt_group_secrets config w store
    = (Ok (RStore.new (number_of_resumption_psks config), bundle, mkGroupSecrets joiner path (apv_presharedkeys v)), store')) as [store' Hd].
  { unfold Join.decrypt_group_secrets, Join.keys_for_welcome. cbv zeta. rewrite Hs.
    unfold mbind at 1, stateful_bind at 1, lifting at 1. rewrite Hsup. cbn [map_err]. unfold mbind at 1, stateful_bind at 1.
    unfold mbind at 1, stateful_bind at 1, reading at 1. rewrite Hf. cbn [ok_or].
    assert (forall k : unit -> stateful KeyPackageStore WelcomeError (ResumptionPskStore * KeyPackageBundle), exists s',
      (_ ← (if last_resort (key_package bundle) then mret tt
       else
         hash_ref ← lifting (map_err WelcomeLibraryError (key_package_hash_ref (key_package bundle)));
         modifying (delete hash_ref)); k tt) store = k tt s') as Hdel.
    { intros k. destruct (last_resort (key_package bundle)); [by exists store|]. rewrite Hr. by eexists. }
    destruct (Hdel (fun _ => mret (RStore.new (number_of_resumption_psks config), bundle))) as [s' ->]. exists s'.
    unfold mret at 1, stateful_ret at 1. unfold mbind at 1, stateful_bind at 1, lifting at 1. rewrite Hr. cbn [map_err].
    unfold mbind at 1, stateful_bind at 1, lifting at 1. rewrite Hegs. cbn [ok_or]. rewrite Hbs, bool_decide_true by done. cbn [negb].
    unfold mbind at 1, stateful_bind at 1, lifting at 1. rewrite Hgs. cbn [map_err].
    unfold mbind at 1, stateful_bind at 1, lifting at 1. cbn [gs_psks]. by rewrite Hval. }
  eexists _, store'. unfold Join.new_from_welcome, Join.new_from_welcome_inner. unfold mbind at 1, stateful_bind at 1. rewrite Hd. unfold lifting.
  rewrite (finish_agrees ga w _ _ _ _ _ loaded commit_secret context welcome es key nonce (group_info_received info)); try done.
  all: unfold group_info_received; cbn [vgi_payload]; rewrite Hp; try done. by apply no_required_capabilities, Hwi.
Qed.
End Welcomes.

(** ** The joined group *)
Section Joined.
Context {OC : OpenMlsCrypto} {TC : TlsCodec} {WD : WelcomeDecoder}.

(** The group that [pw] leads to with the tree [nodes]. *)
Record joined (pw : ProcessedWelcome) (clock now : Z) (nodes : RatchetTree) (g : MlsGroup) : Prop := {
  jd_import : imported clock Verify nodes (vgi_payload (pw_verifiable_group_info pw)) (public_group g);
  jd_store : MGroup.proposal_store g = [];
  jd_config : mls_group_config g = pw_config pw;
  jd_own : exists leaf, (own_leaf_index g, leaf) ∈ TSync.full_leaves (pg_treesync (public_group g));
  jd_secrets : exists context, tls_group_context (MGroup.context g) = Some context /\
    let '(secrets, messages) := EpSecrets.split_secrets (pw_epoch_secrets pw) context
                                  (Tree.tree_size (ts_tree (pg_treesync (public_group g)))) (own_leaf_index g) in
    group_epoch_secrets g = secrets /\ MGroup.current_secrets g = MSecrets.with_timestamp messages (Some now);
}.

Lemma join_Ok pw clock now groups tree nodes sw s g s' :
  Join.welcome_ratchet_tree (pw_verifiable_group_info pw) tree = Ok nodes ->
  Join.into_staged_welcome pw clock now groups tree = Ok sw -> Join.into_group sw s = (Ok g, s') -> joined pw clock now nodes g.
Proof.
  intros Ht E Eg. unfold Join.into_staged_welcome, Join.into_staged_welcome_inner in E. cbv zeta in E. destruct (_ && _); [done|].
  rewrite Ht, ok_bind in E. apply bind_Ok in E as ([pg info] & Ei%map_err_Ok & E). apply import_Ok in Ei as (_ & Hst & Him & _).
  apply bind_Ok in E as (own & Eo & E). apply bind_Ok in E as (ctx & Ectx%ok_or_Ok & E).
  destruct (EpSecrets.split_secrets _ _ _ _) as [ges ms] eqn:Esp in E. apply bind_Ok in E as (tag & _ & E). destruct (negb _); [done|].
  apply bind_Ok in E as (kps & _ & [= <-]). injection Eg as <- _. split; cbn; try done.
  - unfold Join.find_own_leaf in Eo. destruct (negb _); [done|]. apply bind_Ok in Eo as ([n m] & Em%ok_or_Ok & [= <-]).
    apply list_find_Some in Em as (Hm & _ & _). unfold full_leaf_members in Hm. rewrite list_lookup_fmap in Hm.
    apply fmap_Some in Hm as ([i leaf] & Hl & ->). exists leaf. by eapply list_elem_of_lookup_2.
  - exists ctx. split; [done|]. by injection Esp as <- <-.
Qed.
End Joined.

(** ** The joiner and the committer *)
Section Agreement.
Context {OC : OpenMlsCrypto} {TC : TlsCodec} {VC : TlsVecCodec}.
Context {LH : LawfulHpke} {LA : LawfulAead} {LC : LawfulCodec} {LV : LawfulVecCodec}.
Implicit Types (ga : MlsGroup) (w : Welcome).
#[local] Existing Instance welcome_decoder.

(** The public group of [ga] after the commit. *)
Definition committed ga (result : CreateCommitResult) : PublicGroup :=
  match staged_state (ccr_staged_commit result) with
  | GroupMemberState st => PStage.merge_commit (public_group ga) (public_staged (commit_queue_of result) st)
  | PublicState _ => public_group ga
  end.

Lemma built_group ga loaded clock random leaf_random old_signer new_signer result params own_updates q v diff path diff1 diff2 diff3
    content context es tag staged :
  committer ga -> lo_external_commit_info loaded = None ->
  build_run loaded ga clock random leaf_random old_signer new_signer result params own_updates q v diff path diff1 diff2 diff3
    content context es tag staged ->
  let g := committed ga result in
  (exists h, tight (pg_treesync g) h) /\ TSync.diff_export_ratchet_tree (pgd_diff diff3) = Some (TSync.export_ratchet_tree (pg_treesync g)) /\
  pgd_group_context diff3 = pg_group_context g /\ tag = pg_confirmation_tag g /\ tls_group_context (pg_group_context g) = Some context /\
  exists commit q i inv, merged_commit (public_group ga) (ccr_commit result) commit q i inv g.
Proof.
  intros Hcm Hext Hr. destruct (built_tight _ _ _ _ _ _ _ _ _ _ _ _ _ _ _ _ _ _ _ _ _ _ Hcm Hext Hr) as (h & Ht & Hexp).
  destruct (built_observed _ _ _ _ _ _ _ _ _ _ _ _ _ _ _ _ _ _ _ _ _ _ Hcm Hext Hr) as (Hsc & Htls & Hobs).
  destruct Hr as [Hq _ _ Hbc _ Hs _ _ _ _]. unfold committed. rewrite Hsc. cbn [staged_state]. cbv zeta. rewrite Hq.
  split; [by exists h|]. split; [done|]. destruct Hbc as [_ _ _ _ _ Hint Hst _ _]. apply interim_diff in Hint as (_ & _ & Htag).
  unfold PGDiff.into_staged_diff in Hst. apply bind_Ok in Hst as (sd & E & [= <-]). split; [done|]. split; [done|]. split; [done|].
  apply (stage_merge _ _ _ _ _ (cm_inv _ Hcm)) in Hobs; [done|]. rewrite Hs. intros s [= <-]. apply Hcm.
Qed.

(** The joiner has the public group of the committer. *)
Lemma joined_group pw clock now g gj h exts signer cs :
  joined pw clock now (TSync.export_ratchet_tree (pg_treesync g)) gj -> tight (pg_treesync g) h ->
  vgi_payload (pw_verifiable_group_info pw) = mkGroupInfoTBS (pg_group_context g) exts (pg_confirmation_tag g) signer ->
  ts_tree_hash (pg_treesync g) = gc_tree_hash (pg_group_context g) -> pg_proposal_store g = [] -> PGroup.ciphersuite g = cs ->
  calculate_interim_transcript_hash cs (gc_confirmed_transcript_hash (pg_group_context g)) (pg_confirmation_tag g) = Ok (pg_interim_transcript_hash g) ->
  public_group gj = g.
Proof.
  intros [[Hctx _ Ht Hh Htag Hint _ _ _ _ _] Hst _ _ _] Htt Hp Hh' Hst' <- Hint'. rewrite Hp in *. cbn [gi_group_context gi_confirmation_tag] in *.
  unfold MGroup.proposal_store in Hst. destruct (public_group gj) as [[tree hash] store ctx interim tag].
  destruct g as [[tree' hash'] store' ctx' interim' tag']. cbn in *. subst.
  apply (import_export _ _ h) in Ht; [|done]. cbn in Ht. subst. unfold PGroup.ciphersuite in *. cbn in *. rewrite Hint in Hint'. by injection Hint' as <-.
Qed.

(** The new group fits the wire format. *)
Record on_wire ga (loaded : LoadedPsks) (result : CreateCommitResult) : Prop := {
  ow_context : wire_context (pg_group_context (committed ga result));
  ow_leaves i x : (i, x) ∈ TSync.full_leaves (pg_treesync (committed ga result)) -> wire_leaf x;
  ow_extensions : Forall (wire_extension read_ratchet_tree) (gic_other_extensions (lo_group_info_config loaded));
  ow_psks : Forall (fun i => wire_psk (psk i)) (psk_ids (Queue.queued_proposals (commit_queue_of result)));
}.

(** The client [bundle] that the commit adds. *)
Definition welcomed ga (loaded : LoadedPsks) (result : CreateCommitResult) w config storage store bundle r : Prop :=
  invited ga (omap addition_of (Queue.queued_proposals (commit_queue_of result)))
    (psk_ids (Queue.queued_proposals (commit_queue_of result))) (lo_psks loaded) w config storage store bundle r.

Lemma commit_invitations ga loaded clock random leaf_random old_signer new_signer result params own_updates q v diff path diff1 diff2 diff3
    content context es tag staged :
  committer ga ->
  build_run loaded ga clock random leaf_random old_signer new_signer result params own_updates q v diff path diff1 diff2 diff3
    content context es tag staged ->
  (apv_invitation_list v).*2 = omap addition_of (Queue.queued_proposals q).
Proof.
  intros Hcm [_ Hap _ _ _ _ HF _ _ _]. destruct (gi_tree _ (cm_inv _ Hcm)) as [h0 Hi0].
  pose proof (apply_proposals_spec q (Some (own_leaf_index ga)) (PGroup.empty_diff (public_group ga)) h0 Hi0 HF) as Hsp. rewrite Hap in Hsp.
  destruct Hsp as (d & h & inv & _ & -> & Ha). apply (ap_added _ _ _ _ _ Ha).
Qed.

(** The invited client processes the Welcome, and knows the new group. *)
Lemma commit_processed ga loaded clock random leaf_random old_signer new_signer result params own_updates q v diff path diff1 diff2 diff3
    content context es tag staged w config storage store bundle r :
  committer ga -> lo_external_commit_info loaded = None ->
  build_run loaded ga clock random leaf_random old_signer new_signer result params own_updates q v diff path diff1 diff2 diff3
    content context es tag staged ->
  on_wire ga loaded result -> ccr_welcome_option result = Some w -> welcomed ga loaded result w config storage store bundle r ->
  exists pw store' exts, Join.new_from_welcome config storage w store = (Ok pw, store') /\
    processed pw ga config bundle es (mkGroupInfoTBS (pg_group_context (committed ga result)) exts
      (pg_confirmation_tag (committed ga result)) (own_leaf_index ga)) /\
    forall given, given_tree (lo_group_info_config loaded) given (TSync.export_ratchet_tree (pg_treesync (committed ga result))) ->
      Join.welcome_ratchet_tree (pw_verifiable_group_info pw) given = Ok (TSync.export_ratchet_tree (pg_treesync (committed ga result))).
Proof.
  intros Hcm Hext Hr [Hwc Hwl Hwe Hwp] Hw Hinv. pose proof (commit_invitations _ _ _ _ _ _ _ _ _ _ _ _ _ _ _ _ _ _ _ _ _ _ Hcm Hr) as Hadds.
  destruct (built_group _ _ _ _ _ _ _ _ _ _ _ _ _ _ _ _ _ _ _ _ _ _ Hcm Hext Hr) as ((h & Ht) & Hexp & Ectx & Etag & Htls & commit & q' & idx & inv & Hm).
  destruct Hr as [Hq _ _ Hbc _ _ _ _ _ Hvp]. destruct (bc_secrets _ _ _ _ _ _ _ _ _ _ _ _ _ _ _ _ Hbc) as (joiner & welcome & Hes & E).
  unfold CBuilder.welcome_and_group_info in E. cbv zeta in E. rewrite Hw in E. destruct (negb _); [done|].
  apply bind_Ok in E as (te & Ete & E). apply bind_Ok in E as (exts & Eexts%map_err_Ok & E).
  destruct (info_extensions_wire _ _ _ _ _ (export_wire _ h Ht Hwl) Hexp Hwe Ete Eexts) as [Hwx Hread].
  apply bind_Ok in E as (wo & Ewo & E). apply bind_Ok in E as (gio & _ & [= -> _]). destruct (negb _); [|done].
  apply bind_Ok in Ewo as (w' & Ew%commit_welcome_Ok & [= ->]). unfold welcomed in Hinv. rewrite Hq in Hinv, Hwp. rewrite <- Hadds, <- Hvp in Hinv.
  rewrite <- Hvp in Hwp.
  assert (gc_ciphersuite (pgd_group_context diff3) = MGroup.ciphersuite ga) as Hcs by (by rewrite Ectx, (mc_context _ _ _ _ _ _ _ Hm)).
  rewrite <- Ectx in Htls, Hwc |- *. rewrite <- Etag.
  destruct (gi_tree _ (cm_inv _ Hcm)) as [h0 Hi0]. destruct (full_in_range _ h0 _ Hi0 (cm_own _ Hcm)) as [Hrange _].
  pose proof (pow2_le h0 29 ltac:(pose proof (ti_h _ _ Hi0); lia)).
  destruct (welcome_processed _ _ _ _ _ _ _ _ _ config storage store bundle r _ _ _ Ew Hes Htls Hcs) as (pw & store' & Hpw & Hp); [|exact Hwp|exact Hinv|].
  { split; [done|done|]. unfold fits. cbn [gi_signer]. change (2 ^ (8 * Z.of_nat 4)) with (2 ^ 32). lia. }
  exists pw, store', exts. split; [done|]. split; [done|]. intros given Hg. apply Hread; [done|]. by rewrite (pr_info _ _ _ _ _ _ Hp).
Qed.

Lemma joined_peers now now' c st c' es context n staged kps leaf h pw clock nodes gj :
  st = member_state es context n (own_leaf_index (MCommit.cl_group c)) staged kps None leaf -> merged_to now c st c' ->
  epoch_member es h c' -> pw_epoch_secrets pw = es -> wf_config (sender_ratchet_configuration (pw_config pw)) ->
  joined pw clock now' nodes gj -> public_group gj = public_group (MCommit.cl_group c') -> next_peers (MCommit.cl_group c') gj.
Proof.
  intros Est Hm [Hinv Hi Hstore Hoa Hok] Ees Hwf [_ Hst Hc (leaf' & Hown) (ctx & Hctx & Hsec)] Eg. rewrite Ees in Hsec.
  assert (is_Some (group_leaf (public_group gj) (own_leaf_index gj))) as Hoj.
  { exists leaf'. apply full_leaves_elem; [|done]. rewrite Eg. by apply group_wf_tree. }
  rewrite <- Eg in Hinv, Hi, Hoa. destruct (full_in_range _ h _ Hi Hoj) as [Hr _]. pose proof (ti_h _ _ Hi) as Hh.
  pose proof (ti_size _ _ Hi) as Hsz. change (size (group_diff (public_group gj))) with (Tree.tree_size (ts_tree (pg_treesync (public_group gj)))) in Hsz.
  cbn [EpSecrets.split_secrets] in Hsec. destruct Hsec as [Hges Hcur].
  split; try done.
  - split; [done|]. by rewrite Hges, (mt_secrets _ _ _ _ Hm), Est.
  - exists h, (es_encryption_secret es). split; [done| | |].
    + split; [done|by rewrite Hc|done|by rewrite Hcur|]. unfold secret_tree_of. rewrite Hcur, Hc, Hsz. by apply new_inv.
    + unfold MGroup.context. by rewrite Eg.
    + by rewrite (mt_current _ _ _ _ Hm), Hcur, Est.
Qed.

(** C2. Joining by a Welcome. Let [ga] be a member that adds a new client in a commit, with the
    Welcome [w] for it, and keeps the commit as its pending commit. The new client, who has the
    private keys of its key package, processes the Welcome successfully. When it has the ratchet
    tree, from the Welcome or by other means, stages the Welcome and turns it into a group, and
    [ga] has merged its pending commit, then both are members of the same group: same public
    group, same secrets of the epoch, and message keys in step. *)
Theorem welcome_joins ga loaded clock random leaf_random values old_signer new_signer f complete guard commit ga1
    w config storage store bundle r :
  committer ga -> wf_config (sender_ratchet_configuration (mls_group_config ga)) -> wf_config (sender_ratchet_configuration config) ->
  lo_external_commit_info loaded = None ->
  CBuilder.build_internal loaded ga clock random leaf_random values old_signer new_signer f = Ok complete ->
  CBuilder.stage_commit complete guard ga = (Ok commit, ga1) ->
  acceptable ga (co_result complete) -> on_wire ga loaded (co_result complete) ->
  ccr_welcome_option (co_result complete) = Some w -> welcomed ga loaded (co_result complete) w config storage store bundle r ->
  exists pw store', Join.new_from_welcome config storage w store = (Ok pw, store') /\
    forall now now' clock' groups given staged storage_a ca' s gj s',
      MCommit.merge_pending_commit now (MCommit.mkClient ga1 storage_a) = (Ok tt, ca') ->
      given_tree (lo_group_info_config loaded) given (TSync.export_ratchet_tree (pg_treesync (public_group (MCommit.cl_group ca')))) ->
      Join.into_staged_welcome pw clock' now' groups given = Ok staged -> Join.into_group staged s = (Ok gj, s') ->
      next_peers (MCommit.cl_group ca') gj.
Proof.
  intros Hcm Hwa Hwb Hext Hb Hpend%stage_commit_pending Hacc How Hw Hinv.
  destruct (build_internal_run _ _ _ _ _ _ _ _ _ _ Hcm Hext Hb Hacc) as (params & own_updates & q & v & diff & path & diff1 & diff2 & diff3
    & content & context & es & tag & sd & Hr).
  destruct (commit_processed _ _ _ _ _ _ _ _ _ _ _ _ _ _ _ _ _ _ _ _ _ _ _ _ _ _ _ _ Hcm Hext Hr How Hw Hinv) as (pw & store' & exts & Hpw & Hp & Hread).
  exists pw, store'. split; [exact Hpw|]. intros now now' clock' groups given staged sta ca' s gj s' Hma Hg Hsw Hgj.
  destruct (built_group _ _ _ _ _ _ _ _ _ _ _ _ _ _ _ _ _ _ _ _ _ _ Hcm Hext Hr) as ((h & Ht) & _ & _ & _ & _ & cm & q' & idx & inv & Hm).
  destruct (built_observed _ _ _ _ _ _ _ _ _ _ _ _ _ _ _ _ _ _ _ _ _ _ Hcm Hext Hr) as (Hsc & Htls & Hobs).
  destruct Hpend as [Hs Hpg _ Ho Hc]. rewrite Hsc in Hs. eapply merge_pending_Ok in Hma; [|exact Hs].
  apply (merged_to_ext _ _ (MCommit.mkClient ga sta)) in Hma; [|done..].
  assert (public_group (MCommit.cl_group ca') = committed ga (co_result complete)) as Eg.
  { rewrite (mt_group _ _ _ _ Hma q). unfold committed. by rewrite Hsc, (br_queue _ _ _ _ _ _ _ _ _ _ _ _ _ _ _ _ _ _ _ _ _ _ Hr). }
  rewrite Eg in Hg. pose proof (join_Ok _ _ _ _ _ _ _ _ _ _ (Hread _ Hg) Hsw Hgj) as Hj.
  assert (public_group gj = committed ga (co_result complete)) as Egj.
  { apply (joined_group _ _ _ _ _ h _ _ (MGroup.ciphersuite ga) Hj Ht (pr_info _ _ _ _ _ _ Hp)); [apply Hm..| |apply Hm].
    unfold PGroup.ciphersuite. by rewrite (mc_context _ _ _ _ _ _ _ Hm). }
  destruct (merged_member _ (MCommit.mkClient ga sta) _ _ _ _ _ _ _ _ _ _ _ _ _ (cm_inv _ Hcm) (br_sender _ _ _ _ _ _ _ _ _ _ _ _ _ _ _ _ _ _ _ _ _ _ Hr) (cm_own _ Hcm)
    Hobs eq_refl Htls (cm_own _ Hcm) (br_stays _ _ _ _ _ _ _ _ _ _ _ _ _ _ _ _ _ _ _ _ _ _ Hr) Hwa Hma) as (h' & _ & Hem).
  eapply joined_peers; [reflexivity|exact Hma|exact Hem|apply Hp|by rewrite (pr_config _ _ _ _ _ _ Hp)|exact Hj|by rewrite Eg].
Qed.
End Agreement.
