(* ===== verification/ExternalCommitsFacts.v ===== *)
(** * Joining a group by an external commit: theorems

    The group on which a client builds an external commit is the group of the member that
    exported the group info, and the client's init secret is the one that the members get from
    its ExternalInit proposal. *)
From S2P Require Import Prelude TreeMath TreeMathFacts BinaryTree BinaryTreeFacts Crypto CryptoFacts SenderRatchet SenderRatchetFacts SecretTree SecretTreeFacts PastSecrets Extensions ExtensionsFacts.
From S2P Require Import TreeSync LeafNode TreeKem Proposals KeySchedule Framing PrivateMessages Welcome ProposalStore PublicGroup StagedCommit.
From S2P Require Import MessageValidation KeyPackages MemberGroup Exporting MemberCommit Joining MemberProcessing CommitBuilder ExternalCommits PrivateMessagesFacts MemberMessagesFacts ProposalStoreFacts TreeSyncFacts TreeSyncDiffFacts TreeKemFacts.
From S2P Require Import TreeStateFacts TreeKemAgreement LeafNodeFacts ValidationFacts ApplyProposalsFacts CommitFacts PublicGroupFacts.
From S2P Require Import CommitAgreement CommitQueueFacts EpochAgreement MemberEpochs DecodingFacts Decoding ImportFacts JoiningFacts.

(** ** The proposals of the client *)
Section Queue.
Context {OC : OpenMlsCrypto} {TC : TlsCodec}.
Implicit Types (g : PublicGroup).

Lemma is_type_self_remove p : Proposal.is_type p ProposalType.SelfRemove = true -> p = Proposal.SelfRemove.
Proof. unfold Proposal.is_type. destruct p; cbn; try (by case_bool_decide). Qed.

Lemma authenticate_Ok g clock context cs messages l l' :
  Forall (fun qp => qp_proposal qp = Proposal.SelfRemove /\ qp_type qp = ByReference) l ->
  try_fold (EBuilder.authenticate_proposal g clock context cs) messages l = Ok l' ->
  Forall (fun qp => qp_proposal qp = Proposal.SelfRemove /\ qp_type qp = ByReference) l'.
Proof.
  revert l. induction messages as [|m messages IH]; intros l Hl E; cbn [try_fold] in E; [by injection E as <-|].
  apply bind_Ok in E as (l1 & E1 & E). eapply IH; [|exact E]. unfold EBuilder.authenticate_proposal in E1.
  destruct (negb _); [by injection E1 as <-|]. apply bind_Ok in E1 as (dm & _ & E1). apply bind_Ok in E1 as (um & _ & E1).
  apply bind_Ok in E1 as ([content x] & _ & E1). apply bind_Ok in E1 as (qp & Eq%map_err_Ok & E1).
  destruct (Proposal.is_type _ _) eqn:Et; injection E1 as <-; [|done]. apply Forall_app. split; [done|]. apply Forall_singleton.
  split; [by apply is_type_self_remove|]. unfold from_authenticated_content in Eq. apply bind_Ok in Eq as (r & _ & Eq).
  destruct (fc_body _); [done| |done]. by injection Eq as <-.
Qed.
End Queue.

(** ** The exported group info *)
Section Exported.
Context {OC : OpenMlsCrypto} {TC : TlsCodec} {VC : TlsVecCodec} {LC : LawfulCodec} {LV : LawfulVecCodec}.
#[local] Existing Instance welcome_decoder.

Lemma find_by_type_app l1 l2 ty :
  Forall (fun e => Extension.extension_type e <> ty) l1 -> Exts.find_by_type (l1 ++ l2) ty = Exts.find_by_type l2 ty.
Proof.
  intros H. unfold Exts.find_by_type. induction H as [|e l He _ IH]; [done|]. cbn [app list_find]. rewrite decide_False by done.
  rewrite <- IH. by destruct (list_find _ (l ++ l2)) as [[]|].
Qed.

Lemma find_by_type_none l ty : Forall (fun e => Extension.extension_type e <> ty) l -> Exts.find_by_type l ty = None.
Proof. intros H. rewrite <- (app_nil_r l). by rewrite find_by_type_app. Qed.

Lemma additional_plain l l' :
  try_map Exports.additional_extension l = Ok l' ->
  l' = l /\ Forall (fun e => Extension.extension_type e <> ExtensionType.RatchetTree) l.
Proof.
  revert l'. induction l as [|e l IH]; intros l' E; cbn [try_map] in E; [by injection E as <-|].
  apply bind_Ok in E as (e' & Ee & E). apply bind_Ok in E as (l1 & El & [= <-]). destruct (IH _ El) as [-> Hl].
  assert (e' = e /\ Extension.extension_type e <> ExtensionType.RatchetTree) as [-> He]; [|split; [done|by constructor]].
  destruct e; cbn in Ee; try done; injection Ee as <-; (split; [done|]); try done.
  cbn. by destruct (is_grease_value _).
Qed.

(** What the public parts of the exporting member satisfy: the tree is as small as its members
    allow, hashes and confirmation tag are those of the epoch, and leaves fit their encoding. *)
Record exporter (gm : MlsGroup) (h : Z) : Prop := {
  ex_tree : tight (pg_treesync (public_group gm)) h;
  ex_hash : ts_tree_hash (pg_treesync (public_group gm)) = gc_tree_hash (MGroup.context gm);
  ex_tag : confirmation_tag_new (confirmation_key (MGroup.current_secrets gm)) (MGroup.ciphersuite gm)
             (gc_confirmed_transcript_hash (MGroup.context gm)) = Ok (pg_confirmation_tag (public_group gm));
  ex_interim : calculate_interim_transcript_hash (MGroup.ciphersuite gm) (gc_confirmed_transcript_hash (MGroup.context gm))
                 (pg_confirmation_tag (public_group gm)) = Ok (pg_interim_transcript_hash (public_group gm));
  ex_leaves i x : (i, x) ∈ TSync.full_leaves (pg_treesync (public_group gm)) -> wire_leaf x;
}.

(** The group info that [gm] exports. *)
Lemma export_Ok gm h signer with_tree additional info :
  exporter gm h -> Exports.export_group_info_with_additional_extensions gm signer with_tree additional = Ok info ->
  exists pub priv tree, derive_external_keypair (ges_external_secret (group_epoch_secrets gm)) (MGroup.ciphersuite gm) = Ok (pub, priv) /\
    (with_tree = true -> tls_ratchet_tree (TSync.export_ratchet_tree (pg_treesync (public_group gm))) = Some tree) /\
    gi_payload info = mkGroupInfoTBS (MGroup.context gm)
      ((if with_tree then [Extension.RatchetTree tree] else []) ++ [Extension.ExternalPub pub] ++ additional)
      (pg_confirmation_tag (public_group gm)) (own_leaf_index gm) /\
    Forall (fun e => Extension.extension_type e <> ExtensionType.RatchetTree) additional.
Proof.
  intros Hx E. unfold Exports.export_group_info_with_additional_extensions in E. cbv zeta in E.
  apply bind_Ok in E as ([pub priv] & Ek%map_err_Ok & E). apply bind_Ok in E as (add & [-> Hadd]%map_err_Ok%additional_plain & E).
  apply bind_Ok in E as (exts & Ee%map_err_Ok & E). apply bind_Ok in E as (tag & Et%map_err_Ok & E).
  rewrite (ex_tag _ _ Hx) in Et. injection Et as <-. apply bind_Ok in E as (tbs & Etbs%map_err_Ok & E).
  unfold group_info_tbs_new in Etbs. apply bind_Ok in Etbs as (? & _ & [= <-]). apply bind_Ok in E as ([] & Hw%map_err_Ok & E).
  apply map_err_Ok, map_err_Ok in E. unfold group_info_sign in E. apply bind_Ok in E as (sg & _ & [= <-]).
  unfold Exts.from_vec, Exts.try_from in Ee. apply bind_Ok in Ee as (? & _ & [= <-]).
  exists pub, priv, (default [] (tls_ratchet_tree (TSync.export_ratchet_tree (pg_treesync (public_group gm))))).
  split_and!; [done| |by destruct with_tree|done]. intros ->. cbn [andb] in Hw. case_bool_decide as Hn; [done|].
  by destruct (tls_ratchet_tree _).
Qed.

(** The tree that the client uses is the exported one. *)
Lemma exported_tree gm h with_tree additional tree pub builder vgi nodes :
  exporter gm h -> Forall (fun e => Extension.extension_type e <> ExtensionType.RatchetTree) additional ->
  (with_tree = true -> tls_ratchet_tree (TSync.export_ratchet_tree (pg_treesync (public_group gm))) = Some tree) ->
  gi_extensions (vgi_payload vgi) = (if with_tree then [Extension.RatchetTree tree] else []) ++ [Extension.ExternalPub pub] ++ additional ->
  (with_tree = false -> eb_ratchet_tree builder = Some (TSync.export_ratchet_tree (pg_treesync (public_group gm)))) ->
  EBuilder.find_ratchet_tree builder vgi = Ok nodes -> nodes = TSync.export_ratchet_tree (pg_treesync (public_group gm)).
Proof.
  intros Hx Hadd Ht He Hb E. unfold EBuilder.find_ratchet_tree in E. rewrite He in E. destruct with_tree.
  - change (Exts.ratchet_tree _) with (Some tree) in E. apply bind_Ok in E as ([n rest] & E & [= <-]).
    pose proof (export_wire _ h (ex_tree _ _ Hx) (ex_leaves _ _ Hx)) as Hw. cbn [tls_read_ratchet_tree welcome_decoder] in E.
    rewrite <- (app_nil_r tree), (reads_ratchet_tree _ Hw tree [] (Ht eq_refl)) in E. by injection E as <-.
  - unfold Exts.ratchet_tree in E. rewrite find_by_type_none in E; [|by constructor].
    cbn [mbind option_bind] in E. rewrite (Hb eq_refl) in E. by injection E as <-.
Qed.
End Exported.

(** ** Properties *)
Section Properties.
Context {OC : OpenMlsCrypto} {TC : TlsCodec} {VC : TlsVecCodec} {LH : LawfulHpke} {LC : LawfulCodec} {LV : LawfulVecCodec}.
#[local] Existing Instance welcome_decoder.

(** The group of the client before its commit: the public group of [gm], the proposals that
    the commit covers, and the init secret that [kem_output] carries to the members. *)
Record prepared (gm gj : MlsGroup) (credential : CredentialWithKey) (kem_output external_priv : bytes) : Prop := {
  pr_tree : pg_treesync (public_group gj) = pg_treesync (public_group gm);
  pr_context : MGroup.context gj = MGroup.context gm;
  pr_interim : pg_interim_transcript_hash (public_group gj) = pg_interim_transcript_hash (public_group gm);
  pr_tag : pg_confirmation_tag (public_group gj) = pg_confirmation_tag (public_group gm);
  pr_init : init_secret_from_kem_output (MGroup.ciphersuite gm) (MGroup.version gm) external_priv kem_output
              = Ok (ges_init_secret (group_epoch_secrets gj));
  pr_proposals : exists self_removes, Forall (fun qp => qp_proposal qp = Proposal.SelfRemove /\ qp_type qp = ByReference) self_removes /\
    qp_proposal <$> MGroup.proposal_store gj = (qp_proposal <$> self_removes) ++
      Proposal.ExternalInit kem_output :: option_list (EBuilder.own_removal (public_group gm) credential);
  pr_own : PGroup.leftmost_free_index (public_group gm) (MGroup.proposal_store gj) = Ok (own_leaf_index gj);
}.

(** Importing what [gm] exported gives the public state of [gm]. *)
Lemma imported_same gm h clock policy exts signer g :
  exporter gm h ->
  imported clock policy (TSync.export_ratchet_tree (pg_treesync (public_group gm)))
    (mkGroupInfoTBS (MGroup.context gm) exts (pg_confirmation_tag (public_group gm)) signer) g ->
  pg_treesync g = pg_treesync (public_group gm) /\ pg_group_context g = MGroup.context gm /\
  pg_interim_transcript_hash g = pg_interim_transcript_hash (public_group gm) /\ pg_confirmation_tag g = pg_confirmation_tag (public_group gm).
Proof.
  intros Hx [Hctx _ Ht Hh Htag Hint _ _ _ _ _]. cbn [gi_group_context gi_confirmation_tag] in *.
  apply (import_export _ _ h _ (ex_tree _ _ Hx)) in Ht. rewrite Hctx, <- (ex_hash _ _ Hx) in Hh.
  unfold PGroup.ciphersuite in Hint. rewrite Hctx, Htag in Hint. pose proof (eq_trans (eq_sym Hint) (ex_interim _ _ Hx)) as Hi. injection Hi as Hi. split_and!; [|done..]. destruct (pg_treesync g), (pg_treesync (public_group gm)). cbn in *. by subst.
Qed.

Lemma inline_proposals cs l qps :
  try_map (fun p => map_err EcbLibraryError (from_proposal_and_sender cs p Sender.NewMemberCommit)) l = Ok qps -> qp_proposal <$> qps = l.
Proof.
  revert qps. induction l as [|p l IH]; intros qps E; cbn [try_map] in E; [by injection E as <-|].
  apply bind_Ok in E as (q & Eq%map_err_Ok & E). apply bind_Ok in E as (qs & Es & [= <-]). rewrite <- (IH _ Es). cbn. f_equal.
  unfold from_proposal_and_sender in Eq. by apply bind_Ok in Eq as (r & _ & [= <-]).
Qed.

Lemma foldl_add (store l : list QueuedProposal) : foldl Store.add store l = store ++ l.
Proof. revert store. induction l as [|q l IH]; intros store; cbn [foldl]; [by rewrite app_nil_r|]. rewrite IH. unfold Store.add. by rewrite <- app_assoc. Qed.

(** C4. Preparing an external commit: when a member exports a group info, with the ratchet tree or
    with the tree passed on beside it, and a client builds its group from them, the group has
    the tree, context, transcript hash and confirmation tag of the member; the proposals that
    the commit will cover are SelfRemoves of members by reference, one ExternalInit, and the
    removal of the member with the signature key of the client if there is one; and from the
    ExternalInit the members compute the init secret of the client. *)
Theorem external_commit_prepared gm h signer with_tree additional info builder clock now credential initial gj :
  exporter gm h ->
  Exports.export_group_info_with_additional_extensions gm signer with_tree additional = Ok info ->
  (with_tree = false -> eb_ratchet_tree builder = Some (TSync.export_ratchet_tree (pg_treesync (public_group gm)))) ->
  EBuilder.build_group builder clock now (group_info_received info) credential = Ok (initial, gj) ->
  exists external_pub external_priv kem_output,
    derive_external_keypair (ges_external_secret (group_epoch_secrets gm)) (MGroup.ciphersuite gm) = Ok (external_pub, external_priv) /\
    prepared gm gj credential kem_output external_priv.
Proof.
  intros Hx Eexp Htree E. destruct (export_Ok _ _ _ _ _ _ Hx Eexp) as (pub & priv & tree & Hk & Ht & Hp & Hadd).
  unfold EBuilder.build_group in E. cbv zeta in E. apply bind_Ok in E as ([] & _ & E). apply bind_Ok in E as (nodes & En & E).
  assert (nodes = TSync.export_ratchet_tree (pg_treesync (public_group gm))) as ->.
  { eapply (exported_tree gm h with_tree additional tree pub); [done|done|done| |done|exact En]. cbn [vgi_payload group_info_received]. by rewrite Hp. }
  apply bind_Ok in E as ([g gi] & (-> & Hst & Him & _)%map_err_Ok%import_Ok & E). cbn [vgi_payload group_info_received gi_payload] in *.
  rewrite Hp in Him, E. cbn [gi_extensions] in E.
  apply bind_Ok in E as (pub' & Hpub%ok_or_Ok & E). assert (pub' = pub) as -> by (by destruct with_tree; injection Hpub).
  apply bind_Ok in E as ([init kem] & Ei%map_err_Ok & E). apply bind_Ok in E as (es & Ees%map_err_Ok & E).
  apply bind_Ok in E as (ctx & _ & E). destruct (EpSecrets.split_secrets _ _ _ _) as [ges ms] eqn:Esp.
  apply bind_Ok in E as (qs & Eqs & E). apply bind_Ok in E as (inl & Einl & E). apply bind_Ok in E as (own & Eown%map_err_Ok & [= <- <-]).
  destruct (imported_same gm h _ _ _ _ _ Hx Him) as (Htr & Hctx & Hint & Htag). exists pub, priv, kem. split; [done|].
  unfold init_secret_from_group_context in Ei. cbv zeta in Ei. apply bind_Ok in Ei as ([k raw] & Ei%map_err_Ok & [= <- <-]).
  rewrite Hctx in Ei, Ees. unfold EpSecrets.with_init_secret in Ees. apply bind_Ok in Ees as (es0 & _ & [= <-]). injection Esp as <- _.
  split; try done.
  - unfold init_secret_from_kem_output. erewrite hpke_export_agree; [done|exact Hk|exact Ei].
  - exists qs. split; [by eapply authenticate_Ok|]. unfold MGroup.proposal_store. cbn. rewrite Hst, foldl_add.
    change (Store.new ++ qs ++ inl) with (qs ++ inl). rewrite fmap_app, (inline_proposals _ _ _ Einl).
    unfold EBuilder.own_removal. by rewrite Htr.
  - unfold MGroup.proposal_store. cbn. rewrite Hst, foldl_add. unfold PGroup.leftmost_free_index in *. by rewrite <- Htr.
Qed.
End Properties.
