(* ===== verification/TreeWitnesses.v ===== *)
(** * A concrete group

    A tree of three members over the toy cryptography, used to instantiate the
    theorems about ratchet trees. *)
From S2P Require Import Prelude TreeMath TreeMathFacts BinaryTree BinaryTreeFacts Crypto CryptoFacts.
From S2P Require Import TreeSync TreeKem TreeSyncFacts TreeSyncDiffFacts TreeKemFacts TreeKemAgreement.
Import Toy.

(** A leaf node is its encryption key and its parent hash. *)
#[export] Instance toy_leaf_ops : LeafNodeOps (bytes * option bytes) := {
  leaf_encryption_key := fst;
  leaf_parent_hash := snd;
  tls_leaf_node leaf := Some (leaf.1 ++ default [] leaf.2);
}.

Abbreviation toy_diff := (TreeSyncDiff (bytes * option bytes)).

Definition toy_keypair (ikm : Z) : bytes * bytes :=
  match derive_hpke_keypair_op (Suite.hpke_config toy_cs) [ikm] with Ok kp => kp | _ => ([], []) end.

Definition toy_leaf (i : Z) : bytes * option bytes := ((toy_keypair i).1, None).

Definition toy_new_leaf (i : Z) (hash : bytes) : result LeafNodeBuildError ((bytes * option bytes) * (bytes * bytes)) :=
  Ok (((toy_keypair i).1, Some hash), toy_keypair i).

Definition blank_diff : toy_diff := Tree.empty_diff (mkTree [None] [] None None).

Definition out {E A} (a : A) (r : result E A) : A := match r with Ok x => x | _ => a end.

(** *** The founder's tree, two additions, a commit of the founder, one more addition *)
Definition toy_start : toy_diff :=
  Eval vm_compute in
    match Kem.new (Ok toy_secret) toy_cs (toy_leaf 10) with Ok (ts, _) => TSync.empty_diff ts | _ => blank_diff end.

Definition toy_added : toy_diff :=
  Eval vm_compute in (TSDiff.add_leaf (toy_leaf 12) (TSDiff.add_leaf (toy_leaf 11) toy_start).2).2.

Definition toy_commit (d : toy_diff) (seed : Z) :=
  Kem.apply_own_update_path (Ok [seed]) toy_cs Member 0 (toy_leaf 0) (toy_new_leaf (seed + 1)) None d.

Definition toy_committed : toy_diff := Eval vm_compute in (toy_commit toy_added 70).2.

Definition toy_root_keypair : bytes * bytes :=
  Eval vm_compute in
    match (toy_commit toy_added 70).1 with Ok (_, keypairs, _) => default ([], []) (last keypairs) | _ => ([], []) end.

Definition toy_tree : toy_diff := Eval vm_compute in (TSDiff.add_leaf (toy_leaf 13) toy_committed).2.

Lemma toy_start_reachable : reachable toy_start.
Proof.
  exists (Ok toy_secret), toy_cs, (toy_leaf 10).
  destruct (Kem.new (Ok toy_secret) toy_cs (toy_leaf 10)) as [[ts secret]| |] eqn:E; [|by vm_compute in E..].
  exists ts, secret. split; [done|]. vm_compute in E. injection E as <- _. apply rtc_refl.
Qed.

Lemma reachable_step (d d' : toy_diff) : reachable d -> ts_step d d' -> reachable d'.
Proof.
  intros (random & cs & leaf & ts & secret & Hn & Hr) Hs. exists random, cs, leaf, ts, secret. split; [done|].
  by apply (rtc_r _ d).
Qed.

Lemma toy_committed_reachable : reachable toy_committed.
Proof.
  apply (reachable_step toy_added).
  - apply (reachable_step (TSDiff.add_leaf (toy_leaf 11) toy_start).2).
    + apply (reachable_step toy_start); [exact toy_start_reachable|].
      apply (ts_add toy_start (toy_leaf 11) 1). by vm_compute.
    + apply (ts_add _ (toy_leaf 12) 2). by vm_compute.
  - eapply (ts_own toy_added (Ok [70]) toy_cs Member 0 (toy_leaf 0) (toy_new_leaf 71) None); [by eexists|by vm_compute].
Qed.

Lemma toy_tree_reachable : reachable toy_tree.
Proof.
  apply (reachable_step toy_committed); [exact toy_committed_reachable|].
  apply (ts_add toy_committed (toy_leaf 13) 3). by vm_compute.
Qed.

Lemma toy_below_root l : l / 4 = 0 -> below (Parent 1) l.
Proof. intros E. change (Parent 1) with (node_at 2 0). by apply below_node_at; [by vm_compute|]. Qed.

(** The root of the tree lists the last member as unmerged. *)
Lemma resolution_exact_witness :
  exists r, TSDiff.resolution toy_tree (Parent 1) ∅ = Some r /\ r.*1 = [Parent 1; Leaf 3] /\ covered_once r 3.
Proof.
  destruct (resolution_exact toy_tree (Parent 1) ∅ toy_tree_reachable) as (r & Er & Hc & _); [by vm_compute|].
  exists r. split; [exact Er|]. split; [|apply Hc; [exact (toy_below_root 3 eq_refl)|by eexists|apply not_elem_of_empty]].
  pose proof Er as E. vm_compute in E. by injection E as <-.
Defined.

Lemma unmerged_leaves_valid_witness :
  exists node, Diff.parent toy_tree 1 = Some node /\ unmerged_leaves node = [3] /\ StronglySorted Z.lt (unmerged_leaves node).
Proof.
  destruct (Diff.parent toy_tree 1) as [node|] eqn:E; [|done]. exists node. split; [reflexivity|]. split.
  - vm_compute in E. by injection E as <-.
  - apply (unmerged_leaves_valid toy_tree 1 node toy_tree_reachable); [by vm_compute|exact E].
Defined.

(** *** The founder commits again; member 2 receives *)
Definition toy_path : list PlainUpdatePathNode * list (bytes * bytes) * Secret :=
  Eval vm_compute in out ([], [], []) (toy_commit toy_tree 80).1.

Definition toy_final : toy_diff := Eval vm_compute in (toy_commit toy_tree 80).2.

Definition toy_nodes : list UpdatePathNode :=
  Eval vm_compute in out [] (Kem.encrypt_path toy_final toy_cs toy_path.1.1 [1; 2; 3] {[3]} 0).

Definition toy_owned : list (bytes * bytes) := [toy_keypair 12; toy_root_keypair].

Lemma toy_commit_run : toy_commit toy_tree 80 = (Ok toy_path, toy_final).
Proof. by vm_compute. Qed.

Lemma toy_encrypt_run : Kem.encrypt_path toy_final toy_cs toy_path.1.1 [1; 2; 3] {[3]} 0 = Ok toy_nodes.
Proof. by vm_compute. Qed.

Lemma toy_owns : owns_path_keys toy_tree toy_cs 2 toy_owned.
Proof.
  split.
  - intros keys pk E Hpk. vm_compute in E. injection E as <-. unfold toy_owned.
    apply elem_of_cons in Hpk as [->|Hpk]; [eexists; by constructor|].
    apply list_elem_of_singleton in Hpk as ->. eexists. by do 2 constructor.
  - intros pk sk [E|E%list_elem_of_singleton]%elem_of_cons.
    + exists [12]. by rewrite E.
    + exists [match sk with x :: _ => x - 38 | [] => 0 end]. vm_compute in E. injection E as -> ->. by vm_compute.
Qed.

Lemma update_path_agreement_witness :
  exists leaf keypairs_r,
    Kem.apply_received_update_path toy_cs 0 (mkUpdatePath leaf toy_nodes) toy_tree = (Ok tt, toy_final) /\
    Kem.decrypt_path toy_final toy_cs (Kem.mkDecryptPathParams toy_nodes 0 {[3]} [1; 2; 3]) toy_owned 2
      = Ok (keypairs_r, toy_path.2) /\ length keypairs_r = 1%nat.
Proof.
  destruct (update_path_agreement toy_tree toy_final toy_cs 0 2 (Ok [80]) (toy_leaf 0) (toy_new_leaf 81) None
    toy_path.1.1 toy_path.1.2 toy_path.2 [1; 2; 3] {[3]} toy_nodes toy_owned)
    as (leaf & common & kps & _ & Hrec & Hdec & Hcom & _ & HF);
    [exact toy_tree_reachable|by eexists|by eexists|done|by apply not_elem_of_singleton
    |by intros hash leaf kp [= <- _]|exact toy_owns|exact toy_commit_run|exact toy_encrypt_run|].
  exists leaf, kps. split; [exact Hrec|]. split; [exact Hdec|].
  rewrite <- (Forall2_length _ _ _ HF). vm_compute in Hcom. by injection Hcom as <-.
Defined.
