(* ===== verification/PublicGroupWitnesses.v ===== *)
(** * A concrete public group

    A group over the toy cryptography: its creation, a commit that adds two members, and
    what they send next. It instantiates the theorems about public groups and holds the
    runs behind two findings. *)
From S2P Require Import Prelude TreeMath TreeMathFacts BinaryTree BinaryTreeFacts Crypto CryptoFacts Extensions TreeSync LeafNode TreeKem.
From S2P Require Import Proposals ProposalStore PublicGroup StagedCommit LeafNodeFacts.
From S2P Require Import TreeSyncFacts TreeSyncDiffFacts TreeKemFacts TreeStateFacts TreeKemAgreement.
From S2P Require Import ValidationFacts ApplyProposalsFacts CommitFacts PublicGroupFacts CommitAgreement TreeWitnesses.
Import Toy.

(** ** Creation *)
Definition alice_key : bytes := [50].

Definition toy_builder : TempBuilderPG1 :=
  mkTempBuilderPG1 [1; 2] toy_cs (mkCredentialWithKey (mkCredential CredentialType.Basic [7]) alice_key)
    (Some (mkLifetime 0 1000)) (Some (mkCapabilities [ProtocolVersion.Mls10] [1] [] [ProposalType.SelfRemove] [CredentialType.Basic]))
    [] [] None.

Definition no_group : PublicGroup :=
  mkPublicGroup (mkTreeSync (mkTree [None] [] None None) []) [] (GContext.new toy_cs [] 0 [] [] []) [] [].

Definition create : result LeafNodeBuildError (TreeSync LeafNode * GroupContext * Secret * (bytes * bytes)) :=
  PBuilder.get_secrets toy_builder 100 (Ok [10]) (Ok toy_secret) (signer alice_key).

Definition created : TreeSync LeafNode * GroupContext * Secret * (bytes * bytes) :=
  Eval vm_compute in out (mkTreeSync (mkTree [None] [] None None) [], GContext.new toy_cs [] 0 [] [] [], [], ([], [])) create.

Definition group0 : PublicGroup := Eval vm_compute in out no_group (PBuilder.build created.1.1.1 created.1.1.2 [9]).

Lemma create_Ok : create = Ok created.
Proof. vm_compute. reflexivity. Qed.

Lemma group0_after : group_after toy_builder 0 group0.
Proof.
  apply (ga_new toy_builder 100 (Ok [10]) (Ok toy_secret) (signer alice_key) created.1.1.1 created.1.1.2 created.1.2 created.2 [9]);
    [exact create_Ok|vm_compute; reflexivity].
Qed.

(** ** The first commit adds two members *)
Definition member_leaf (i : Z) (source : LeafNodeSource) (key signature_key : bytes) : LeafNode :=
  mkLeafNode (mkLeafNodePayload key signature_key (mkCredential CredentialType.Basic [i])
    (mkCapabilities [ProtocolVersion.Mls10] [1] [] [ProposalType.SelfRemove] [CredentialType.Basic]) source []) [i].

Definition key_package (i : Z) : KeyPackage :=
  mkKeyPackage (mkKeyPackageTbs ProtocolVersion.Mls10 toy_cs [100 + i]
    (member_leaf i (SourceKeyPackage (mkLifetime 0 1000)) (toy_keypair i).1 [60 + i]) []) [] None.

(** The diff and the path of a commit of member 0 to the proposals in [q]. *)
Definition commit_run (g : PublicGroup) (q : ProposalQueue) (seed : Z) :
    option (ApplyProposalsValues * PublicGroupDiff * PathComputationResult * PublicGroupDiff) :=
  match PGDiff.apply_proposals q (Some 0) (PGroup.empty_diff g) with
  | (Ok v, diff) =>
      match PGDiff.compute_path (Ok [seed]) (Ok [seed + 1]) 0 (exclusion_list v) TreeKem.Member
              (mkLeafNodeParameters None None None None) (signer alice_key) (apv_extensions v)
              (PGroup.leaf_node_constraints g) diff with
      | (Ok result, diff') => Some (v, diff, result, diff')
      | _ => None
      end
  | _ => None
  end.

Definition commit_content (g : PublicGroup) (proposals : list ProposalOrRef) (path : option (UpdatePath LeafNode)) :
    AuthenticatedContent :=
  mkAuthenticatedContent WirePublicMessage
    (mkFramedContent [1; 2] (gc_epoch (pg_group_context g)) (Sender.Member 0) [] (BodyCommit (mkCommit proposals path)))
    (mkFramedContentAuthData [3] (Some [4])).

Definition committed_queue (g : PublicGroup) (proposals : list ProposalOrRef) : ProposalQueue :=
  match Queue.from_committed_proposals toy_cs proposals (pg_proposal_store g) (Sender.Member 0) with
  | Ok q => q
  | _ => Queue.default_queue
  end.

Definition commit_path_of (g : PublicGroup) (proposals : list ProposalOrRef) (seed : Z) : option (UpdatePath LeafNode) :=
  '(_, _, result, _) ← commit_run g (committed_queue g proposals) seed; pcr_encrypted_path result.

Definition additions : list ProposalOrRef := InlineProposal <$> (Proposal.Add <$> [key_package 11; key_package 12]).

Definition content1 : AuthenticatedContent :=
  Eval vm_compute in commit_content group0 additions (commit_path_of group0 additions 70).

Definition stage (g : PublicGroup) (content : AuthenticatedContent) : result StageCommitError (StagedCommit unit) :=
  PStage.stage_commit g 100 content Verify.

Definition advance (g : PublicGroup) (content : AuthenticatedContent) : PublicGroup :=
  match stage g content with Ok staged => PStage.merge_commit g staged | _ => no_group end.

Definition group1 : PublicGroup := Eval vm_compute in advance group0 content1.

Lemma advance_after n g content :
  group_after toy_builder n g -> is_Some (group_leaf g 0) -> fc_sender (ac_content content) = Sender.Member 0 ->
  (if stage g content is Ok _ then True else False) -> group_after toy_builder (S n) (advance g content).
Proof.
  intros Hg H0 Hs E. unfold advance. destruct (stage g content) as [staged| |] eqn:Es; [|done..].
  eapply ga_commit; [exact Hg|]. eapply commits_intro; [|exact Es]. rewrite Hs. by intros s [= <-].
Qed.

Lemma group1_after : group_after toy_builder 1 group1.
Proof.
  assert (advance group0 content1 = group1) as <- by (by vm_compute).
  apply advance_after; [exact group0_after|by eexists|done|by vm_compute].
Qed.

Lemma public_group_invariant_witness :
  group_inv group1 /\ gc_group_id (pg_group_context group1) = [1; 2] /\ gc_epoch (pg_group_context group1) = 1.
Proof. destruct (public_group_invariant toy_builder 1 group1 group1_after) as (Hi & Hid & _ & He). done. Defined.

Definition no_stage : StagedCommit unit :=
  mkStagedCommit Queue.default_queue (GroupMemberState tt).

Definition staged1 : StagedCommit unit := Eval vm_compute in out no_stage (stage group0 content1).

Lemma stage1 : stage group0 content1 = Ok staged1.
Proof. vm_compute. reflexivity. Qed.

Lemma merge1 : PStage.merge_commit group0 staged1 = group1.
Proof. vm_compute. reflexivity. Qed.

Lemma commit_effect_witness :
  exists commit q sender_index inv, merged_commit group0 content1 commit q sender_index inv group1 /\
    group_leaf group1 2 = Some (key_package_leaf (key_package 12)).
Proof.
  destruct (commit_effect toy_builder 0 group0 100 content1 Verify staged1) as (commit & q & idx & inv & Hm);
    [exact group0_after|intros s [= <-]; by eexists|exact stage1|].
  rewrite merge1 in Hm. exists commit, q, idx, inv. split; [exact Hm|]. by vm_compute.
Defined.

(** ** The second member updates its leaf, and the founder commits to the update *)
Definition update_proposal (signature_key : bytes) : QueuedProposal :=
  mkQueuedProposal (Proposal.Update (member_leaf 11 SourceUpdate (toy_keypair 21).1 signature_key)) [33] (Sender.Member 1) ByReference.

Definition group1_with (signature_key : bytes) : PublicGroup :=
  set_store group1 (Store.add (pg_proposal_store group1) (update_proposal signature_key)).

Lemma group1_with_after signature_key : group_after toy_builder 1 (group1_with signature_key).
Proof. eapply ga_within; [exact group1_after|]. apply we_add. exists 1. split; [done|by eexists]. Qed.

Definition update_content (signature_key : bytes) : AuthenticatedContent :=
  let g := group1_with signature_key in commit_content g [Reference [33]] (commit_path_of g [Reference [33]] 80).

Definition group_signature_keys (g : PublicGroup) : list bytes := leaf_signature_key <$> (TSync.full_leaves (pg_treesync g)).*2.

Lemma signature_keys_check g : group_inv g -> bool_decide (NoDup (group_signature_keys g)) = true -> distinct_signature_keys g.
Proof.
  intros Hg Hn%bool_decide_eq_true i j x y Hx Hy E. unfold group_signature_keys in Hn. rewrite <- list_fmap_compose in Hn.
  apply (full_leaves_elem (pg_treesync g)) in Hx, Hy; try by apply group_wf_tree.
  apply list_elem_of_lookup in Hx as [k Hk], Hy as [k' Hk'].
  assert (k = k') as ->.
  { eapply (NoDup_lookup _ _ _ _ Hn); rewrite list_lookup_fmap; [by rewrite Hk|by rewrite Hk'; cbn; rewrite E]. }
  rewrite Hk in Hk'. by injection Hk' as -> _.
Qed.

Definition staged2 : StagedCommit unit := Eval vm_compute in out no_stage (stage (group1_with [71]) (update_content [71])).

Lemma stage2 : stage (group1_with [71]) (update_content [71]) = Ok staged2.
Proof. vm_compute. reflexivity. Qed.

Lemma signature_keys_distinct_witness :
  distinct_signature_keys (PStage.merge_commit (group1_with [71]) staged2).
Proof.
  apply (signature_keys_distinct toy_builder 1 (group1_with [71]) 100 (update_content [71]) Verify staged2).
  - exact (group1_with_after [71]).
  - intros s [= <-]. by eexists.
  - apply Forall_singleton. intros i leaf x [= <- <-] [= <-]. done.
  - apply signature_keys_check; [exact (proj1 (group_after_inv _ _ _ (group1_with_after [71])))|vm_compute; reflexivity].
  - exact stage2.
Defined.

(** The same Update, with the signature key of the third member. *)
Definition staged_duplicate : StagedCommit unit :=
  Eval vm_compute in out no_stage (stage (group1_with [72]) (update_content [72])).

Lemma stage_duplicate : stage (group1_with [72]) (update_content [72]) = Ok staged_duplicate.
Proof. vm_compute. reflexivity. Qed.

Lemma update_duplicates_signature_key_witness :
  distinct_signature_keys (group1_with [72]) /\ ~ distinct_signature_keys (PStage.merge_commit (group1_with [72]) staged_duplicate).
Proof.
  split.
  { apply signature_keys_check; [exact (proj1 (group_after_inv _ _ _ (group1_with_after [72])))|vm_compute; reflexivity]. }
  refine (proj2 (proj2 (update_duplicates_signature_key toy_builder 1 (group1_with [72]) 100 (update_content [72]) Verify staged_duplicate
    0 1 (member_leaf 11 SourceUpdate (toy_keypair 21).1 [72]) 2 _ (group1_with_after [72]) eq_refl _ stage_duplicate _ _ eq_refl _ _ _ _ _))).
  - by eexists.
  - vm_compute. reflexivity.
  - vm_compute. apply not_elem_of_nil.
  - lia.
  - lia.
  - vm_compute. apply not_elem_of_nil.
  - vm_compute. reflexivity.
  - vm_compute. reflexivity.
Defined.

(** The founder commits to its own SelfRemove. *)
Definition leave_content : AuthenticatedContent :=
  Eval vm_compute in commit_content group1 [InlineProposal Proposal.SelfRemove] (commit_path_of group1 [] 95).

Definition staged_leave : StagedCommit unit := Eval vm_compute in out no_stage (stage group1 leave_content).

(** C39. A commit that covers the committer's own SelfRemove can be accepted, and the
    committer is still a member afterwards. *)
Theorem own_self_remove_accepted :
  exists b n g clock content policy (staged : StagedCommit unit) (s : LeafNodeIndex.t) p,
    group_after b n g /\ is_Some (group_leaf g s) /\ fc_sender (ac_content content) = Sender.Member s /\
    PStage.stage_commit g clock content policy = Ok staged /\
    p ∈ Queue.queued_proposals (staged_proposal_queue staged) /\ qp_proposal p = Proposal.SelfRemove /\
    qp_sender p = Sender.Member s /\ is_Some (group_leaf (PStage.merge_commit g staged) s).
Proof.
  exists toy_builder, 1%nat, group1, 100, leave_content, Verify, staged_leave, 0. eexists.
  split; [exact group1_after|]. split; [by eexists|]. split; [done|]. split; [vm_compute; reflexivity|].
  split; [vm_compute; constructor|]. split; [done|]. split; [done|by eexists].
Qed.

(** ** A leaf for the group *)
Definition new_leaf : result LeafNodeValidationError LeafNodeTbs :=
  LeafTbs.new toy_cs [5; 1] (mkCredentialWithKey (mkCredential CredentialType.Basic [14]) [74]) Caps.default_capabilities SourceUpdate []
    (TbsUpdate (mkTreePosition [1; 2] 1)) (PGroup.leaf_node_constraints group1) Widen.

Definition new_tbs : LeafNodeTbs :=
  Eval vm_compute in out (mkLeafNodeTbs (payload new_placeholder) TbsKeyPackage) new_leaf.

Lemma new_leaf_Ok : new_leaf = Ok new_tbs.
Proof. vm_compute. reflexivity. Qed.

Lemma basic_supported_by_all : lc_credentials_supported_by_all (PGroup.leaf_node_constraints group1) <> ∅.
Proof.
  assert (bool_decide (CredentialType.Basic ∈ lc_credentials_supported_by_all (PGroup.leaf_node_constraints group1)) = true) as H
    by (vm_compute; reflexivity).
  apply bool_decide_eq_true in H. intros E. rewrite E in H. by apply not_elem_of_empty in H.
Qed.

Lemma built_leaf_accepted_witness :
  PGroup.validate_leaf_node_capabilities group1 (mkLeafNode (tbs_payload new_tbs) [1]) = Ok tt.
Proof.
  refine (proj1 (built_leaf_accepted group1 toy_cs [5; 1] _ _ _ _ _ _ new_tbs [1] eq_refl eq_refl _ new_leaf_Ok)).
  right. exact basic_supported_by_all.
Defined.

(** ** The founder commits to an addition, and the third member receives *)
Definition queue2 : ProposalQueue :=
  Eval vm_compute in committed_queue group1 [InlineProposal (Proposal.Add (key_package 13))].

Definition no_result : PathComputationResult := mkPathComputationResult None None None [].

Definition run2 : ApplyProposalsValues * PublicGroupDiff * PathComputationResult * PublicGroupDiff :=
  Eval vm_compute in
    default (mkApplyProposalsValues false false [] [] None None, PGroup.empty_diff group1, no_result, PGroup.empty_diff group1)
      (commit_run group1 queue2 90).

(** The keys of the third member: that of its leaf and that of the root. *)
Definition owned2 : list (bytes * bytes) :=
  Eval vm_compute in
    toy_keypair 12 :: match commit_run group0 (committed_queue group0 additions) 70 with
                      | Some (_, _, result, _) => option_list (last (pcr_new_keypairs result))
                      | None => []
                      end.

Lemma apply2 : PGDiff.apply_proposals queue2 (Some 0) (PGroup.empty_diff group1) = (Ok run2.1.1.1, run2.1.1.2).
Proof. vm_compute. reflexivity. Qed.

Lemma apply_proposals_total_witness :
  exists d h inv, applied (group_diff group1) d h (Queue.queued_proposals queue2) inv /\ inv.*1 = [3].
Proof.
  pose proof (apply_proposals_total toy_builder 1 group1 queue2 (Some 0) group1_after) as H. rewrite apply2 in H.
  destruct H as (d & h & inv & _ & Ev & Ha); [repeat constructor|]. exists d, h, inv. split; [exact Ha|].
  apply (f_equal apv_invitation_list) in Ev. cbn in Ev. by rewrite <- Ev.
Defined.

Lemma compute2 :
  PGDiff.compute_path (Ok [90]) (Ok [91]) 0 (exclusion_list run2.1.1.1) TreeKem.Member (mkLeafNodeParameters None None None None)
    (signer alice_key) (apv_extensions run2.1.1.1) (PGroup.leaf_node_constraints group1) run2.1.1.2 = (Ok run2.1.2, run2.2).
Proof. vm_compute. reflexivity. Qed.

Lemma owns2 : owns_path_keys (pgd_diff run2.1.1.2) toy_cs 2 owned2.
Proof.
  split.
  - intros keys pk E Hpk. vm_compute in E. injection E as <-.
    repeat (apply elem_of_cons in Hpk as [->|Hpk]; [eexists; by repeat constructor|]). by apply not_elem_of_nil in Hpk.
  - intros pk sk E. exists [match sk with x :: _ => x - 38 | [] => 0 end].
    repeat (apply elem_of_cons in E as [[= -> ->]|E]; [by vm_compute|]). by apply not_elem_of_nil in E.
Qed.

Lemma commit_agreement_witness :
  exists v path secret diff1 keypairs,
    PGDiff.apply_proposals queue2 (Some 2) (PGroup.empty_diff group1) = (Ok v, run2.1.1.2) /\
    PGDiff.apply_received_update_path toy_cs 0 path run2.1.1.2 = (Ok tt, diff1) /\
    PGDiff.update_group_context (apv_extensions v) diff1 = (Ok tt, run2.2) /\
    PGDiff.decrypt_path run2.2 owned2 2 0 (update_nodes path) (exclusion_list v) = Ok (keypairs, secret) /\
    pcr_commit_secret run2.1.2 = Some secret.
Proof.
  destruct (commit_agreement toy_builder 1 group1 queue2 0 2 run2.1.1.1 run2.1.1.2 run2.2 (Ok [90]) (Ok [91])
    (mkLeafNodeParameters None None None None) (signer alice_key) (PGroup.leaf_node_constraints group1) run2.1.2 owned2)
    as (v & path & secret & diff1 & keypairs & Ha & _ & _ & Hsec & Hrec & Hctx & Hdec);
    [exact group1_after|repeat constructor|by eexists|apply not_elem_of_nil|by eexists|apply not_elem_of_nil|done
    |exact apply2|exact compute2|exact owns2|].
  exists v, path, secret, diff1, keypairs. repeat split; [exact Ha|exact Hrec|exact Hctx|exact Hdec|exact Hsec].
Defined.
