(* ===== verification/MemberWitnesses.v ===== *)
(** * Members of a concrete group

    Members of the concrete group exchange application messages, over the toy
    cryptography; the theorems about messages and their instances. *)
From S2P Require Import Prelude TreeMath TreeMathFacts BinaryTree Crypto CryptoFacts SenderRatchet SenderRatchetFacts SecretTree SecretTreeFacts SecretTreeProgress PastSecrets Extensions TreeSync LeafNode TreeKem Proposals KeySchedule Framing PrivateMessages ProposalStore PublicGroup StagedCommit MessageValidation MemberGroup MemberCommit MemberProcessing.
From S2P Require Import PrivateMessagesFacts MemberMessagesFacts MemberProcessingFacts ReceptionFacts ConversationFacts TreeWitnesses PublicGroupWitnesses.
Import Toy.

(** ** Properties *)

(** C6. A message is accepted once: when a member accepts a private message of another member,
    an application message, a proposal or a commit, of the current epoch or of a past one it
    keeps, it never accepts the message again, whatever messages it processes in between. *)
Theorem message_accepted_once {OC : OpenMlsCrypto} {TC : TlsCodec} {CD : ContentDecoder} {LK : LawfulKdf}
    d es own storage clock policy c self ms pm self' :
  0 <= d <= 29 -> wf_config (sender_ratchet_configuration (mls_group_config self)) ->
  MGroup.message_secrets_for_epoch self (pvm_epoch c) = Ok ms ->
  tree_inv (MGroup.ciphersuite self) (sender_ratchet_configuration (mls_group_config self)) d es own (secret_tree ms) ->
  MProcess.process_message_with_lifetime_policy storage clock (PrivateProtocolMessage c) policy self = (Ok pm, self') ->
  processed_content pm <> OwnPrivateMessage ->
  forall messages storage' clock' policy' pm' self'',
    MProcess.process_message_with_lifetime_policy storage' clock' (PrivateProtocolMessage c) policy' (process_all messages self')
      <> (Ok pm', self'').
Proof. intros Hd H1 H2 H3 H4 H5 messages storage' clock' policy' pm' self''. by eapply (accepted_once d es own Hd). Qed.

(** C17. Rejected messages cost nothing: when [process_message] does not return a message, for
    any message of any epoch, genuine or not, the group is as before, except that ratchets
    which had not been initialised may now be, at generation 0. *)
Theorem rejected_message_uses_no_key {OC : OpenMlsCrypto} {TC : TlsCodec} {CD : ContentDecoder} {LK : LawfulKdf}
    storage clock message policy self r self' :
  MProcess.process_message_with_lifetime_policy storage clock message policy self = (r, self') -> (forall p, r <> Ok p) ->
  framed (unused (MGroup.ciphersuite self) (sender_ratchet_configuration (mls_group_config self))) self self'.
Proof. intros E Hr. destruct (process_effect storage clock message policy self r self' E) as (_ & H & _). by apply H. Qed.

(** ** Members of the group *)
#[export] Instance toy_decoder : ContentDecoder := {| tls_read_proposal _ := None; tls_read_commit _ := None |}.

Definition member_config : MlsGroupJoinConfig :=
  mkMlsGroupJoinConfig (mkWireFormatPolicy OutgoingCiphertext IncomingCiphertext) 16 (MaxEpochs 2) 0 true (mkConfiguration 2 10).

Definition context1 : bytes := Eval vm_compute in default [] (tls_group_context (pg_group_context group1)).

Definition member_of (i : LeafNodeIndex.t) : MlsGroup :=
  mkMlsGroup member_config group1 (mkGroupEpochSecrets [] [] [] [] []) i
    (mkStore 2 [] (mkMessageSecrets toy_secret [2] [3] context1 (STree.new toy_secret (perfect 2) i) None))
    (RStore.new 0) [] [] Operational.

Definition no_storage : Storage := mkStorage ∅ ∅ (fun _ => None).

Lemma member_of_ok i : 0 <= i < 4 -> member_ok 2 toy_secret (member_of i).
Proof.
  intros Hi. split; [done|done|done|vm_compute; reflexivity|]. apply new_inv. lia.
Qed.

Lemma members_in_step i j : 0 <= i < 4 -> 0 <= j < 4 -> in_step 2 toy_secret (member_of i) (member_of j).
Proof. intros Hi Hj. split; [by apply member_of_ok..|done|done]. Qed.

Definition leaf_of (i : LeafNodeIndex.t) : LeafNode :=
  default (member_leaf 0 SourceUpdate [] []) (TSync.leaf (pg_treesync group1) i).

Lemma knows_of i j k :
  TSync.leaf (pg_treesync group1) j = Some (leaf_of j) -> TSync.is_leaf_in_tree (pg_treesync group1) j = true ->
  payload_signature_key (payload (leaf_of j)) = k -> knows (member_of i) j (leaf_of j) (signer k).
Proof. intros H1 H2 <-. split; [exact H1|exact H2|]. apply toy_signs. Qed.

Lemma knows_founder i : knows (member_of i) 0 (leaf_of 0) (signer alice_key).
Proof. apply knows_of; vm_compute; reflexivity. Qed.

Lemma knows_second i : knows (member_of i) 1 (leaf_of 1) (signer [71]).
Proof. apply knows_of; vm_compute; reflexivity. Qed.

Lemma knows_third i : knows (member_of i) 2 (leaf_of 2) (signer [72]).
Proof. apply knows_of; vm_compute; reflexivity. Qed.

(** ** Three members talk *)
Definition toy_peers : list Peer :=
  [mkPeer (member_of 0) (signer alice_key) (leaf_of 0); mkPeer (member_of 1) (signer [71]) (leaf_of 1);
   mkPeer (member_of 2) (signer [72]) (leaf_of 2)].

(** No ratchet of a new member is initialised. *)
Lemma member_of_start i ty j : exists o, get_at (STree.sender_ratchets (secret_tree_of (member_of i)) ty) j = o /\ (o = None \/ o = Some None).
Proof.
  eexists. split; [done|]. change (STree.sender_ratchets _ ty) with (match ty with HandshakeSecret => replicate 4 (@None SenderRatchet) | ApplicationSecret => replicate 4 None end).
  destruct ty; (destruct (get_at _ j) eqn:E; [apply get_at_replicate in E as ->|]); auto.
Qed.

Lemma toy_peers_inv p :
  p ∈ toy_peers -> exists i k, 0 <= i < 4 /\ p = mkPeer (member_of i) (signer k) (leaf_of i) /\
    forall j, knows (member_of j) i (leaf_of i) (signer k).
Proof.
  intros Hp. apply list_elem_of_In in Hp. destruct Hp as [<-|[<-|[<-|[]]]].
  - exists 0, alice_key. split_and!; [done..|apply knows_founder].
  - exists 1, [71]. split_and!; [done..|apply knows_second].
  - exists 2, [72]. split_and!; [done..|apply knows_third].
Qed.

Lemma toy_meeting : meeting toy_peers 2 toy_secret.
Proof.
  split.
  1-6: intros p Hp; destruct (toy_peers_inv p Hp) as (i & k & Hi & -> & Hk).
  8-10: intros p q Hp Hq; destruct (toy_peers_inv p Hp) as (i & k & Hi & -> & Hk), (toy_peers_inv q Hq) as (i' & k' & Hi' & -> & Hk').
  - by apply member_of_ok.
  - done.
  - done.
  - done.
  - intros msg. by eexists.
  - unfold next_of, next_generation. destruct (member_of_start i ApplicationSecret i) as (o & E & Ho). cbn [peer_group peer_index own_leaf_index member_of].
    rewrite E. by destruct Ho as [-> | ->].
  - intros p j Hp _. destruct (toy_peers_inv p Hp) as (i & k & Hi & -> & Hk). unfold tracks.
    destruct (member_of_start i ApplicationSecret j) as (o & E & Ho). cbn [peer_group]. rewrite E. by destruct Ho as [-> | ->].
  - done.
  - done.
  - apply Hk'.
  - intros i j p q Hi Hj. destruct i as [|[|[|]]], j as [|[|[|]]]; cbn in Hi, Hj; by simplify_eq.
Qed.

(** The founder sends three messages, which arrive out of order, one twice and one too
    late; the third member answers, and the founder gets one of its own messages back. *)
Definition toy_actions : list action :=
  [Send 0 [] [1; 2; 3; 4] [33]; Send 0 [7; 7] [5; 6; 7; 8] [104; 105]; Send 0 [8] [9; 9; 9; 9] [121; 111];
   Deliver no_storage 100 1 2; Deliver no_storage 100 1 1; Deliver no_storage 100 1 1; Deliver no_storage 100 1 0; Deliver no_storage 100 2 0;
   Send 2 [5] [0; 0; 0; 1] []; Deliver no_storage 100 0 3; Deliver no_storage 100 1 3; Deliver no_storage 100 0 1; Deliver no_storage 100 3 0].

Definition toy_outcomes : list outcome := Eval vm_compute in outcomes (spec_act toy_peers) toy_actions ([], []).

Lemma conversation_delivered_witness :
  outcomes (act toy_peers) toy_actions (peer_group <$> toy_peers, []) = toy_outcomes /\
  toy_outcomes !! 4%nat = Some (Processed (Ok (received (member_of 1) 0 [7; 7] (leaf_of 0) [104; 105]))) /\
  toy_outcomes !! 5%nat = Some (Processed (Err (ProcessValidation (UnableToDecrypt (DecryptionSecretTreeError SecretReuseError))))) /\
  toy_outcomes !! 6%nat = Some (Processed (Err (ProcessValidation (UnableToDecrypt (DecryptionSecretTreeError TooDistantInThePast))))).
Proof.
  rewrite (conversation_delivered toy_peers 2 toy_secret toy_actions toy_meeting); [split_and!; vm_compute; reflexivity|].
  repeat (constructor; [first [exact I|split; [reflexivity|intros p [= <-]; by vm_compute]]|]). constructor.
Defined.

Definition no_message : PrivateMessage := mkPrivateMessage [] 0 ContentApplication [] [] [].

Definition sent0 : PrivateMessage * MlsGroup := Eval vm_compute in
  match MGroup.create_message (Some [1; 2; 3; 4]) (signer alice_key) [104; 105] (member_of 0) with
  | (r, self) => (out no_message r, self)
  end.

Definition no_processed : ProcessedMessage :=
  mkProcessedMessage [] 0 Sender.NewMemberCommit [] OwnPrivateMessage (mkCredential CredentialType.Basic []).

Definition received1 : ProcessedMessage * MlsGroup := Eval vm_compute in
  match MProcess.process_message no_storage 100 (PrivateProtocolMessage sent0.1) (member_of 1) with
  | (r, self) => (out no_processed r, self)
  end.

Lemma sent0_Ok : MGroup.create_message (Some [1; 2; 3; 4]) (signer alice_key) [104; 105] (member_of 0) = (Ok sent0.1, sent0.2).
Proof. vm_compute. reflexivity. Qed.

Lemma received1_Ok :
  MProcess.process_message_with_lifetime_policy no_storage 100 (PrivateProtocolMessage sent0.1) Verify (member_of 1) = (Ok received1.1, received1.2).
Proof. vm_compute. reflexivity. Qed.

Lemma secrets1 : MGroup.message_secrets_for_epoch (member_of 1) (pvm_epoch sent0.1) = Ok (MGroup.current_secrets (member_of 1)).
Proof. vm_compute. reflexivity. Qed.

Lemma content1_application : processed_content received1.1 = ApplicationMessage [104; 105].
Proof. reflexivity. Qed.

Lemma message_accepted_once_witness :
  processed_content received1.1 = ApplicationMessage [104; 105] /\
  forall pm gb, MProcess.process_message_with_lifetime_policy no_storage 100 (PrivateProtocolMessage sent0.1) Verify
    (process_all [(no_storage, 100, Verify, PrivateProtocolMessage sent0.1)] received1.2) <> (Ok pm, gb).
Proof.
  split; [exact content1_application|]. intros pm gb.
  refine (message_accepted_once 2 toy_secret 1 no_storage 100 Verify sent0.1 (member_of 1) (MGroup.current_secrets (member_of 1)) received1.1 received1.2
    _ _ secrets1 (ok_tree _ _ _ (member_of_ok 1 _)) received1_Ok _ _ no_storage 100 Verify pm gb);
    [lia|done|lia|by rewrite content1_application].
Defined.

(** The ciphertext of the message with its last byte changed. *)
Definition forged : PrivateMessage :=
  mkPrivateMessage (pvm_group_id sent0.1) (pvm_epoch sent0.1) (pvm_content_type sent0.1) (pvm_authenticated_data sent0.1)
    (pvm_encrypted_sender_data sent0.1) (rev (match rev (pvm_ciphertext sent0.1) with x :: l => (x + 1) :: l | [] => [] end)).

Definition rejected1 : result ProcessMessageError ProcessedMessage * MlsGroup :=
  Eval vm_compute in MProcess.process_message no_storage 100 (PrivateProtocolMessage forged) (member_of 1).

Lemma rejected1_Err :
  MProcess.process_message_with_lifetime_policy no_storage 100 (PrivateProtocolMessage forged) Verify (member_of 1) =
  (Err (ProcessValidation (UnableToDecrypt AeadError)), rejected1.2).
Proof. vm_compute. reflexivity. Qed.

Lemma rejected_message_uses_no_key_witness :
  framed (unused toy_cs (mkConfiguration 2 10)) (member_of 1) rejected1.2.
Proof.
  refine (rejected_message_uses_no_key no_storage 100 (PrivateProtocolMessage forged) Verify (member_of 1)
            (Err (ProcessValidation (UnableToDecrypt AeadError))) rejected1.2 rejected1_Err _). by intros p.
Defined.
