(* ===== verification/EpochWitnesses.v ===== *)
(** * A commit between two members

    The founder of the concrete group adds a member; the third member follows. *)
From S2P Require Import Prelude TreeMath TreeMathFacts BinaryTree BinaryTreeFacts Crypto CryptoFacts SenderRatchet SenderRatchetFacts SecretTree SecretTreeFacts PastSecrets Extensions.
From S2P Require Import TreeSync LeafNode TreeKem Proposals KeySchedule Framing PrivateMessages Welcome ProposalStore PublicGroup StagedCommit.
From S2P Require Import MessageValidation MemberGroup MemberCommit MemberProcessing CommitBuilder MemberMessagesFacts ProposalStoreFacts TreeSyncFacts TreeSyncDiffFacts TreeKemFacts.
From S2P Require Import TreeStateFacts TreeKemAgreement LeafNodeFacts ValidationFacts ApplyProposalsFacts CommitFacts PublicGroupFacts.
From S2P Require Import CommitAgreement CommitQueueFacts EpochAgreement MemberEpochs TreeWitnesses PublicGroupWitnesses MemberWitnesses.
Import Toy.

Definition map_values (m : gmap LeafNodeIndex.t QueuedProposal) : list QueuedProposal := (map_to_list m).*2.

(** The founder proposes an addition by value. *)
Definition loaded3 : LoadedPsks :=
  Eval vm_compute in
    out (mkLoadedPsks [] false (mkLeafNodeParameters None None None None) None true [] (mkGroupInfoConfig true true []) Verify None)
      (CBuilder.load_psks (CBuilder.force_self_update (CBuilder.propose_adds CBuilder.default_initial [key_package 13]) true) (member_of 0) no_storage).

Definition no_complete : Complete :=
  mkComplete (mkCreateCommitResult leave_content None (mkStagedCommit Queue.default_queue (PublicState (mkPublicStagedCommitState
    (mkStagedPublicGroupDiff (mkStagedTreeSync (mkStaged ∅ ∅ 0) []) (pg_group_context group1) [] []) None))) None) None.

Definition complete3 : Complete :=
  Eval vm_compute in
    out no_complete (CBuilder.build_internal loaded3 (member_of 0) 100 (Ok [90]) (Ok [91]) map_values (signer alice_key) None (fun _ => true)).

Lemma build3 :
  CBuilder.build_internal loaded3 (member_of 0) 100 (Ok [90]) (Ok [91]) map_values (signer alice_key) None (fun _ => true) = Ok complete3.
Proof. vm_compute. reflexivity. Qed.

Definition no_bundle : CommitMessageBundle := mkCommitMessageBundle ProtocolVersion.Mls10 (PrivateProtocolMessage no_message) None None.

Definition pending3 : CommitMessageBundle * MlsGroup :=
  Eval vm_compute in match CBuilder.stage_commit complete3 (Some [1; 2; 3; 4]) (member_of 0) with (r, self) => (out no_bundle r, self) end.

Lemma stage3 : CBuilder.stage_commit complete3 (Some [1; 2; 3; 4]) (member_of 0) = (Ok pending3.1, pending3.2).
Proof. vm_compute. reflexivity. Qed.

(** The third member, with the key pairs of the epoch in its storage. *)
Definition storage2 : Storage := mkStorage {[([1; 2], 1, 2) := owned2]} ∅ (fun _ => None).

Definition staged3 : MStagedCommit :=
  Eval vm_compute in
    out (ccr_staged_commit (co_result no_complete))
      (MCommit.stage_commit (member_of 2) storage2 100 (ccr_commit (co_result complete3)) owned2 [] Verify).

Lemma receive3 : MCommit.stage_commit (member_of 2) storage2 100 (ccr_commit (co_result complete3)) owned2 [] Verify = Ok staged3.
Proof. vm_compute. reflexivity. Qed.

Lemma committer3 : committer (member_of 0).
Proof.
  split; [exact (proj1 (group_after_inv _ _ _ group1_after))|done|exact basic_supported_by_all| |by eexists].
  split; [constructor|constructor].
Qed.

Lemma peers3 : peers (member_of 0) (member_of 2).
Proof. split; [by split|exact committer3|by eexists|done]. Qed.

Lemma apply3 : (PGDiff.apply_proposals (commit_queue_of (co_result complete3)) (Some 2) (PGroup.empty_diff group1)).2 = run2.1.1.2.
Proof. vm_compute. reflexivity. Qed.

Definition commit3 : Commit := Eval vm_compute in out (mkCommit [] None) (PStage.commit_of (ccr_commit (co_result complete3))).

Lemma commit3_of : PStage.commit_of (ccr_commit (co_result complete3)) = Ok commit3.
Proof. vm_compute. reflexivity. Qed.

Lemma keys3 :
  PGroup.validate_key_uniqueness group1 (commit_queue_of (co_result complete3)) (Some commit3) (Sender.Member 0)
    ((fun path => payload_signature_key (payload (update_leaf_node path))) <$> commit_path commit3) = Ok tt.
Proof. vm_compute. reflexivity. Qed.

Lemma queued3 : qp_proposal <$> Queue.queued_proposals (commit_queue_of (co_result complete3)) = [Proposal.Add (key_package 13)].
Proof. vm_compute. reflexivity. Qed.

Lemma queue3_added : exists p, Queue.queued_proposals (commit_queue_of (co_result complete3)) = [p] /\ qp_proposal p = Proposal.Add (key_package 13).
Proof.
  pose proof queued3 as E. destruct (Queue.queued_proposals _) as [|p [|p' l]]; cbn in E; try discriminate. exists p.
  split; [done|]. injection E as E. exact E.
Qed.

Lemma acceptable3 : acceptable (member_of 0) (co_result complete3).
Proof.
  destruct queue3_added as (p & Eq & Ep). split.
  - intros commit E. rewrite commit3_of in E. injection E as <-. exact keys3.
  - unfold no_external_init. rewrite Eq. constructor; [by rewrite Ep|constructor].
Qed.

Lemma follow3 : can_follow (member_of 0) (member_of 2) loaded3 (co_result complete3) storage2 owned2 [].
Proof.
  destruct queue3_added as (p & Eq & Ep). split; [exact acceptable3|..].
  - rewrite Eq. unfold removed, removal_of. cbn. rewrite Ep. apply not_elem_of_nil.
  - rewrite Eq. unfold psk_ids. cbn. by rewrite Ep.
  - intros v diff E. pose proof apply3 as Ed. cbn [own_leaf_index public_group member_of] in E. rewrite E in Ed. cbn [snd] in Ed.
    rewrite Ed, app_nil_r. exact owns2.
Qed.

Definition merged3 : MCommit.Client * MCommit.Client :=
  Eval vm_compute in
    ((MCommit.merge_pending_commit 5 (MCommit.mkClient pending3.2 no_storage)).2,
     (MCommit.merge_staged_commit 6 staged3 (MCommit.mkClient (member_of 2) storage2)).2).

Lemma merge3_a : MCommit.merge_pending_commit 5 (MCommit.mkClient pending3.2 no_storage) = (Ok tt, merged3.1).
Proof. vm_compute. reflexivity. Qed.

Lemma merge3_b : MCommit.merge_staged_commit 6 staged3 (MCommit.mkClient (member_of 2) storage2) = (Ok tt, merged3.2).
Proof. vm_compute. reflexivity. Qed.

Lemma config_ok : wf_config (sender_ratchet_configuration member_config).
Proof. done. Qed.

Lemma next_epoch_agreed_witness :
  next_peers (MCommit.cl_group merged3.1) (MCommit.cl_group merged3.2) /\ MGroup.epoch (MCommit.cl_group merged3.2) = 2.
Proof.
  destruct (next_epoch_agreed (member_of 0) (member_of 2) loaded3 100 (Ok [90]) (Ok [91]) map_values (signer alice_key) None (fun _ => true)
    complete3 (Some [1; 2; 3; 4]) pending3.1 pending3.2 storage2 owned2 [] peers3 config_ok config_ok eq_refl build3 stage3 follow3)
    as (staged & Hst & Hnext).
  split; [|vm_compute; reflexivity]. change (lo_lifetime_policy loaded3) with Verify in Hst. rewrite receive3 in Hst. injection Hst as <-.
  exact (Hnext 5 6 no_storage storage2 _ _ merge3_a merge3_b).
Defined.

(** ** The founder removes the third member *)
Definition loaded4 : LoadedPsks :=
  Eval vm_compute in out loaded3 (CBuilder.load_psks (CBuilder.propose_removals CBuilder.default_initial [2]) (member_of 0) no_storage).

Definition complete4 : Complete :=
  Eval vm_compute in
    out no_complete (CBuilder.build_internal loaded4 (member_of 0) 100 (Ok [90]) (Ok [91]) map_values (signer alice_key) None (fun _ => true)).

Definition staged4 : MStagedCommit :=
  Eval vm_compute in
    out staged3 (MCommit.stage_commit (member_of 2) storage2 100 (ccr_commit (co_result complete4)) owned2 [] Verify).

Lemma receive4 : MCommit.stage_commit (member_of 2) storage2 100 (ccr_commit (co_result complete4)) owned2 [] Verify = Ok staged4.
Proof. vm_compute. reflexivity. Qed.

Definition merged4 : MCommit.Client :=
  Eval vm_compute in (MCommit.merge_staged_commit 6 staged4 (MCommit.mkClient (member_of 2) storage2)).2.

Lemma member_merge4 : MCommit.merge_staged_commit 6 staged4 (MCommit.mkClient (member_of 2) storage2) = (Ok tt, merged4).
Proof. vm_compute. reflexivity. Qed.

Definition public4 : MStagedCommit :=
  Eval vm_compute in out staged3 (PStage.stage_commit group1 100 (ccr_commit (co_result complete4)) Verify).

Lemma receive4_public : PStage.stage_commit group1 100 (ccr_commit (co_result complete4)) Verify = Ok public4.
Proof. vm_compute. reflexivity. Qed.

Lemma member_follows_public_group_witness :
  (exists public, PStage.stage_commit (MemberState := MemberStagedCommitState) group1 100 (ccr_commit (co_result complete3)) Verify = Ok public /\
     public_group (MCommit.cl_group merged3.2) = PStage.merge_commit group1 public) /\
  left_behind group1 (public_group (MCommit.cl_group merged4)) (PStage.merge_commit group1 public4).
Proof.
  split.
  - exact (member_follows_public_group (member_of 2) storage2 100 (ccr_commit (co_result complete3)) owned2 [] Verify staged3 6 storage2
      merged3.2 receive3 merge3_b).
  - exact (proj2 (member_follows_public_group (member_of 2) storage2 100 (ccr_commit (co_result complete4)) owned2 [] Verify staged4 6 storage2
      merged4 receive4 member_merge4) public4 receive4_public).
Defined.
