(* ===== verification/JoiningWitnesses.v ===== *)
(** * A member joins

    The founder of the concrete group adds a client by its key package; the client joins by
    the Welcome. *)
From S2P Require Import Prelude TreeMath TreeMathFacts BinaryTree BinaryTreeFacts Crypto CryptoFacts SenderRatchet SenderRatchetFacts SecretTree SecretTreeFacts PastSecrets Extensions.
From S2P Require Import TreeSync LeafNode TreeKem Proposals KeySchedule Framing PrivateMessages Welcome Decoding ProposalStore PublicGroup StagedCommit.
From S2P Require Import MessageValidation KeyPackages MemberGroup Exporting MemberCommit Joining MemberProcessing CommitBuilder DecodingFacts MemberMessagesFacts ProposalStoreFacts.
From S2P Require Import TreeSyncFacts TreeSyncDiffFacts TreeKemFacts TreeStateFacts TreeKemAgreement LeafNodeFacts ValidationFacts ApplyProposalsFacts CommitFacts PublicGroupFacts.
From S2P Require Import CommitAgreement CommitQueueFacts EpochAgreement MemberEpochs ImportFacts JoiningFacts TreeWitnesses PublicGroupWitnesses MemberWitnesses EpochWitnesses.
Import Toy ToyVec.
#[local] Existing Instance welcome_decoder.

(** ** The client and its key package *)
Definition bob_key : bytes := [51].
Definition bob_capabilities : Capabilities :=
  mkCapabilities [ProtocolVersion.Mls10] [1] [] [ProposalType.SelfRemove] [CredentialType.Basic].

Definition bob_run : result KeyPackageNewError KeyPackageBundle * gmap bytes KeyPackageBundle :=
  Eval vm_compute in
    KPBuilder.build (mkKeyPackageBuilder (Some (mkLifetime 0 1000)) None (Some bob_capabilities) None false None) toy_cs 100
      (Ok [20]) (Ok [21]) (signer bob_key) (Suite.signature_algorithm toy_cs)
      (mkCredentialWithKey (mkCredential CredentialType.Basic [8]) bob_key) ∅.

Definition bob : KeyPackageBundle :=
  Eval vm_compute in out (mkKeyPackageBundle (PublicGroupWitnesses.key_package 13) [] []) bob_run.1.
Definition bob_store : gmap bytes KeyPackageBundle := Eval vm_compute in bob_run.2.
Definition bob_ref : bytes := Eval vm_compute in out [] (key_package_hash_ref (KeyPackages.key_package bob)).

(** ** The founder and its commit *)
Definition context0 : bytes := Eval vm_compute in default [] (tls_group_context (pg_group_context group0)).

Definition founder : MlsGroup :=
  mkMlsGroup member_config group0 (mkGroupEpochSecrets [] [] [] [] []) 0
    (mkStore 2 [] (mkMessageSecrets toy_secret [2] [3] context0 (STree.new toy_secret (perfect 0) 0) None))
    (RStore.new 0) [] [] Operational.

Definition loaded4 : LoadedPsks :=
  Eval vm_compute in
    out loaded3 (CBuilder.load_psks (CBuilder.force_self_update (CBuilder.propose_adds CBuilder.default_initial [KeyPackages.key_package bob]) true) founder no_storage).

Definition complete4 : Complete :=
  Eval vm_compute in
    out no_complete (CBuilder.build_internal loaded4 founder 100 (Ok [90]) (Ok [91]) map_values (signer alice_key) None (fun _ => true)).

Lemma build4 :
  CBuilder.build_internal loaded4 founder 100 (Ok [90]) (Ok [91]) map_values (signer alice_key) None (fun _ => true) = Ok complete4.
Proof. vm_compute. reflexivity. Qed.

Definition pending4 : CommitMessageBundle * MlsGroup :=
  Eval vm_compute in match CBuilder.stage_commit complete4 (Some [1; 2; 3; 4]) founder with (r, self) => (out no_bundle r, self) end.

Lemma stage4 : CBuilder.stage_commit complete4 (Some [1; 2; 3; 4]) founder = (Ok pending4.1, pending4.2).
Proof. vm_compute. reflexivity. Qed.

Definition welcome4 : Welcome := Eval vm_compute in default (mkWelcome toy_cs [] []) (ccr_welcome_option (co_result complete4)).
Lemma welcome4_Some : ccr_welcome_option (co_result complete4) = Some welcome4.
Proof. vm_compute. reflexivity. Qed.

(** ** The commit is one that the client can join by *)
Lemma committer4 : committer founder.
Proof.
  split; [exact (proj1 (group_after_inv _ _ _ group0_after))|done| | |by eexists].
  - intros E. assert (bool_decide (CredentialType.Basic ∈ lc_credentials_supported_by_all (PGroup.leaf_node_constraints group0)) = true) as H
      by (vm_compute; reflexivity).
    apply bool_decide_eq_true in H. cbn [public_group founder] in E. rewrite E in H. by apply not_elem_of_empty in H.
  - split; [constructor|constructor].
Qed.

Definition commit4 : Commit := Eval vm_compute in out (mkCommit [] None) (PStage.commit_of (ccr_commit (co_result complete4))).

Lemma commit4_of : PStage.commit_of (ccr_commit (co_result complete4)) = Ok commit4.
Proof. vm_compute. reflexivity. Qed.

Lemma keys4 :
  PGroup.validate_key_uniqueness group0 (commit_queue_of (co_result complete4)) (Some commit4) (Sender.Member 0)
    ((fun path => payload_signature_key (payload (update_leaf_node path))) <$> commit_path commit4) = Ok tt.
Proof. vm_compute. reflexivity. Qed.

Definition queued4 : list QueuedProposal := Eval vm_compute in Queue.queued_proposals (commit_queue_of (co_result complete4)).

Lemma queue4 : Queue.queued_proposals (commit_queue_of (co_result complete4)) = queued4.
Proof. vm_compute. reflexivity. Qed.

Lemma acceptable4 : acceptable founder (co_result complete4).
Proof.
  split.
  - intros commit E. rewrite commit4_of in E. injection E as <-. exact keys4.
  - unfold no_external_init. rewrite queue4. by repeat constructor.
Qed.

Definition group4 : PublicGroup := Eval vm_compute in committed founder (co_result complete4).

Lemma committed4 : committed founder (co_result complete4) = group4.
Proof. vm_compute. reflexivity. Qed.

Definition leaves4 : list (LeafNodeIndex.t * LeafNode) := Eval vm_compute in TSync.full_leaves (pg_treesync group4).

Lemma leaves4_of : TSync.full_leaves (pg_treesync group4) = leaves4.
Proof. vm_compute. reflexivity. Qed.

Lemma wire_leaves4 : Forall (fun p => wire_leaf p.2) leaves4.
Proof. repeat (constructor || done). Qed.

Lemma on_wire4 : on_wire founder loaded4 (co_result complete4).
Proof.
  split; rewrite ?committed4.
  - repeat (constructor || done).
  - rewrite leaves4_of. intros i x Hx. pose proof wire_leaves4 as H. rewrite Forall_forall in H. exact (H _ Hx).
  - constructor.
  - rewrite queue4. constructor.
Qed.

Lemma ref4 : key_package_hash_ref (KeyPackages.key_package bob) = Ok bob_ref.
Proof. vm_compute. reflexivity. Qed.

Lemma welcomed4 : welcomed founder loaded4 (co_result complete4) welcome4 member_config no_storage bob_store bob bob_ref.
Proof.
  unfold welcomed. rewrite queue4. split; [vm_compute; reflexivity|exact ref4| | |vm_compute; reflexivity..].
  - exists (KeyPackages.key_package bob). split; [constructor|exact ref4].
  - intros kp Hkp _. apply list_elem_of_singleton in Hkp as ->. split; [done|]. exists [20]. vm_compute. reflexivity.
Qed.

(** ** The client joins *)
Definition no_context : GroupContext := pg_group_context group0.
Definition no_epoch : EpochSecrets := mkEpochSecrets [] [] [] [] [] [] [] [] [].

Definition no_processed_welcome : ProcessedWelcome :=
  mkProcessedWelcome member_config toy_cs (mkGroupSecrets [] None []) no_epoch
    (mkVerifiableGroupInfo (mkGroupInfoTBS no_context [] [] 0) []) (RStore.new 0) bob.

Definition processed4 : ProcessedWelcome * gmap bytes KeyPackageBundle :=
  Eval vm_compute in match Join.new_from_welcome member_config no_storage welcome4 bob_store with
                     | (r, store) => (out no_processed_welcome r, store)
                     end.

Lemma process4 : Join.new_from_welcome member_config no_storage welcome4 bob_store = (Ok processed4.1, processed4.2).
Proof. vm_compute. reflexivity. Qed.

Definition no_staged_welcome : StagedWelcome :=
  mkStagedWelcome member_config group0 (group_epoch_secrets founder) 0 (message_secrets_store founder) (RStore.new 0)
    (pw_verifiable_group_info no_processed_welcome) bob None.

Definition staged4 : StagedWelcome := Eval vm_compute in out no_staged_welcome (Join.into_staged_welcome processed4.1 100 6 ∅ None).

Lemma staged4_Ok : Join.into_staged_welcome processed4.1 100 6 ∅ None = Ok staged4.
Proof. vm_compute. reflexivity. Qed.

Definition joined4 : MlsGroup * JoinStorage :=
  Eval vm_compute in match Join.into_group staged4 (mkJoinStorage ∅ no_storage) with (r, s) => (out founder r, s) end.

Lemma join4 : Join.into_group staged4 (mkJoinStorage ∅ no_storage) = (Ok joined4.1, joined4.2).
Proof. vm_compute. reflexivity. Qed.

Definition merged4 : MCommit.Client :=
  Eval vm_compute in (MCommit.merge_pending_commit 5 (MCommit.mkClient pending4.2 no_storage)).2.

Lemma merge4 : MCommit.merge_pending_commit 5 (MCommit.mkClient pending4.2 no_storage) = (Ok tt, merged4).
Proof. vm_compute. reflexivity. Qed.

Lemma welcome_joins_witness :
  next_peers (MCommit.cl_group merged4) joined4.1 /\ own_leaf_index joined4.1 = 1 /\ MGroup.epoch joined4.1 = 1.
Proof.
  destruct (welcome_joins founder loaded4 100 (Ok [90]) (Ok [91]) map_values (signer alice_key) None (fun _ => true) complete4
    (Some [1; 2; 3; 4]) pending4.1 pending4.2 welcome4 member_config no_storage bob_store bob bob_ref
    committer4 config_ok config_ok eq_refl build4 stage4 acceptable4 on_wire4 welcome4_Some welcomed4) as (pw & store & Hpw & Hjoin).
  rewrite process4 in Hpw. injection Hpw as <- _. split; [|by vm_compute].
  refine (Hjoin 5 6 100 ∅ None staged4 no_storage merged4 (mkJoinStorage ∅ no_storage) joined4.1 joined4.2 merge4 _ staged4_Ok join4).
  by left.
Defined.

(** ** The imported tree and the messages on the wire *)
Definition tree4 : RatchetTree := TSync.export_ratchet_tree (pg_treesync group4).

Definition import4 : PublicGroup * GroupInfo :=
  Eval vm_compute in
    out (group0, mkGroupInfo (mkGroupInfoTBS no_context [] [] 0) [] None)
      (PImport.from_ratchet_tree 100 tree4 (pw_verifiable_group_info processed4.1) Store.new Verify).

Lemma import4_Ok : PImport.from_ratchet_tree 100 tree4 (pw_verifiable_group_info processed4.1) Store.new Verify = Ok import4.
Proof. vm_compute. reflexivity. Qed.

Lemma import_valid_witness :
  import4.1 = group4 /\ imported 100 Verify tree4 (vgi_payload (pw_verifiable_group_info processed4.1)) import4.1.
Proof. split; [vm_compute; reflexivity|]. exact (proj1 (proj2 (import_valid _ _ _ _ _ import4.1 import4.2 import4_Ok))). Defined.

(** The commit of the founder as a public message. *)
Definition message4 : MlsMessageBodyOut :=
  Eval vm_compute in OutPublicMessage
    (mkPublicMessage (ac_content (ccr_commit (co_result complete4))) (ac_auth (ccr_commit (co_result complete4))) (Some [1; 2; 3])).

Definition bytes4 : bytes := Eval vm_compute in default [] (tls_mls_message ProtocolVersion.Mls10 message4).

Lemma bytes4_Some : tls_mls_message ProtocolVersion.Mls10 message4 = Some bytes4.
Proof. vm_compute. reflexivity. Qed.

Lemma wire4 : wire_message message4.
Proof.
  assert (forall p, commit_path commit4 = Some p -> wire_leaf (update_leaf_node p)) as Hp.
  { intros p [= <-]. repeat (done || constructor). }
  split; [split; [done|done|split; [|exact Hp]]|]; repeat (done || constructor).
Qed.

Lemma message_roundtrip_witness :
  read_mls_message (bytes4 ++ [9; 9]) = Some (ProtocolVersion.Mls10, message_received message4, [9; 9]).
Proof. exact (message_roundtrip message4 bytes4 [9; 9] wire4 bytes4_Some). Defined.

Lemma grease_proposal_not_encodable_witness :
  is_Some (read_proposal (be_bytes 2 2570 ++ [128; 0; 0; 1; 7])) /\ tls_proposal (Proposal.Custom (mkCustomProposal 2570 [7])) = None.
Proof.
  destruct (grease_proposal_not_encodable 2570 [7] [128; 0; 0; 1; 7] []) as [H1 H2]; [done|done|done|].
  split; [|exact H2]. rewrite app_nil_r in H1. rewrite H1. done.
Defined.
