(* ===== verification/ProposingWitnesses.v ===== *)
(** * A proposal in a concrete group

    The founder of the concrete group proposes to remove a member, encrypted and in plain; the
    other member gets the proposal. *)
From S2P Require Import Prelude TreeMath TreeMathFacts BinaryTree Crypto CryptoFacts SenderRatchet SenderRatchetFacts SecretTree SecretTreeFacts SecretTreeProgress PastSecrets Extensions TreeSync LeafNode TreeKem Proposals KeySchedule Framing PrivateMessages Decoding ProposalStore PublicGroup StagedCommit MessageValidation KeyPackages MemberGroup MemberCommit MemberProcessing CommitBuilder Proposing.
From S2P Require Import PrivateMessagesFacts DecodingFacts MemberMessagesFacts ProposingFacts TreeWitnesses PublicGroupWitnesses MemberWitnesses.
Import Toy ToyVec.
#[local] Existing Instance content_decoder | 0.

Definition policy_of (plain : bool) : WireFormatPolicy :=
  if plain then mkWireFormatPolicy OutgoingPlaintext IncomingPlaintext else mkWireFormatPolicy OutgoingCiphertext IncomingCiphertext.

(** The members of the concrete group with either framing. *)
Definition framing_member (plain : bool) (i : LeafNodeIndex.t) : MlsGroup :=
  mkMlsGroup (mkMlsGroupJoinConfig (policy_of plain) 16 (MaxEpochs 2) 0 true (mkConfiguration 2 10)) group1
    (mkGroupEpochSecrets [] [] [] [] []) i (message_secrets_store (member_of i)) (RStore.new 0) [] [] Operational.

Definition no_protocol_message : ProtocolMessage := PrivateProtocolMessage no_message.

Definition proposed0 (plain : bool) : ProtocolMessage * bytes * MlsGroup :=
  match MPropose.propose_dispatch (Some [1; 2; 3; 4]) (Ok toy_secret) (signer alice_key) (ProposeRemove 1) ByValue
          (framing_member plain 0, []) with
  | (r, (self, _)) => (out (no_protocol_message, []) r, self)
  end.

Lemma proposed0_Ok plain :
  MPropose.propose_dispatch (Some [1; 2; 3; 4]) (Ok toy_secret) (signer alice_key) (ProposeRemove 1) ByValue (framing_member plain 0, [])
  = (Ok ((proposed0 plain).1.1, (proposed0 plain).1.2), ((proposed0 plain).2, [])).
Proof. destruct plain; vm_compute; reflexivity. Qed.

Lemma framing_members_in_step plain i j : 0 <= i < 4 -> 0 <= j < 4 -> in_step 2 toy_secret (framing_member plain i) (framing_member plain j).
Proof.
  intros Hi Hj. destruct (members_in_step i j Hi Hj) as [[] [] ? ?]. by split; [split|split|..].
Qed.

Lemma founder_heard plain : hears (framing_member plain 0) (framing_member plain 1) (leaf_of 0) (signer alice_key).
Proof.
  destruct (knows_founder 1). split; [done|done|by split|done|by destruct plain|]. intros _. by vm_compute.
Qed.

Lemma proposal_delivered_witness :
  (exists gb', MProcess.process_message no_storage 100 (proposed0 false).1.1 (framing_member false 1)
    = (Ok (received_proposal (framing_member false 1) 0 [] (leaf_of 0) (Proposal.Remove 1) (proposed0 false).1.2), gb')) /\
  (exists gb', MProcess.process_message no_storage 100 (proposed0 true).1.1 (framing_member true 1)
    = (Ok (received_proposal (framing_member true 1) 0 [] (leaf_of 0) (Proposal.Remove 1) (proposed0 true).1.2), gb')).
Proof.
  split; [destruct (proposal_delivered 2 toy_secret _ (framing_member false 1) _ [1; 2; 3; 4] _ _ _ _ _ _ _ _ (leaf_of 0) no_storage 100
      ltac:(by apply framing_members_in_step) (founder_heard false) eq_refl (proposed0_Ok false)) as (p & Hp & _ & _ & H)
    |destruct (proposal_delivered 2 toy_secret _ (framing_member true 1) _ [1; 2; 3; 4] _ _ _ _ _ _ _ _ (leaf_of 0) no_storage 100
      ltac:(by apply framing_members_in_step) (founder_heard true) eq_refl (proposed0_Ok true)) as (p & Hp & _ & _ & H)];
  (cbn [proposes] in Hp; subst p; destruct H as (gb' & H & _); [by split|done|done|]; exists gb'; exact H).
Defined.
