(* ===== verification/DeliveryServiceWitnesses.v ===== *)
(** * A run of the delivery service

    Two clients register, one publishes and the other fetches a key package, and they exchange
    messages through the service, over toy codecs. *)
From S2P Require Import Prelude TreeMath BinaryTree Crypto CryptoFacts SenderRatchet SecretTree PastSecrets Extensions TreeSync LeafNode TreeKem Proposals KeySchedule Framing PrivateMessages Welcome Decoding ProposalStore PublicGroup StagedCommit MessageValidation DeliveryService DecodingFacts DeliveryServiceFacts PublicGroupWitnesses.
Import Toy ToyVec.

#[local] Instance toy_wire : DsWire := {|
  url_safe_decode path := Some path;
  tls_read_vec_u32 A read b :=
    '(content, rest) ← tls_read_byte_vec 4 b; l ← read_all (length content) read content; Some (l, rest);
|}.

Definition encoded (o : option bytes) : bytes := default [] o.
Definition packages (l : list Z) : ClientKeyPackages := (fun i => ([i], PublicGroupWitnesses.key_package i)) <$> l.
Definition client_of (i : Z) : bytes := default [] (ci_id <$> Client.new [] (packages [i])).
Definition private_message (epoch : Z) (content_type : ContentType) : MlsMessageIn :=
  (ProtocolVersion.Mls10, InPrivateMessage (mkPrivateMessage [7] epoch content_type [] [1] [2])).
Definition group_message (m : MlsMessageIn) (recipients : list bytes) : bytes :=
  encoded (tls_message_in m) ++ encoded (tls_vec_fixed 4 (tls_byte_vec 4) recipients).

Definition toy_requests : list DS.Request :=
  [DS.PostRegister [1; 1] (encoded (tls_client_key_packages (packages [13; 14])));
   DS.PostRegister [2; 2] (encoded (tls_client_key_packages (packages [15])));
   DS.GetKeyPackage (client_of 13);
   DS.PostMessage (group_message (private_message 0 ContentCommit) [client_of 13; client_of 15]);
   DS.GetMessages (client_of 13) (encoded (tls_vlbytes [1; 1]));
   DS.PostMessage (group_message (private_message 1 ContentApplication) [client_of 13]);
   DS.PostMessage (group_message (private_message 1 ContentCommit) [client_of 13])].

Definition toy_run : list event * DsData := Eval vm_compute in serve DS.default toy_requests.

Lemma toy_run_eq : serve DS.default toy_requests = toy_run.
Proof. vm_compute. reflexivity. Qed.

Lemma mail_in_order_witness :
  toy_run.1 ≫= promised_to (client_of 13) `sublist_of`
    (toy_run.1 ≫= received_by (client_of 13)) ++ pending (ds_clients toy_run.2 !! client_of 13).
Proof.
  pose proof (mail_in_order toy_requests (client_of 13)) as H. rewrite toy_run_eq in H.
  apply H. repeat constructor.
Defined.

Lemma handshakes_in_order_witness : StronglySorted Z.le (toy_run.1 ≫= accepted_epoch [7]).
Proof.
  pose proof (handshakes_in_order toy_requests [7]) as H. rewrite toy_run_eq in H. apply H. repeat constructor.
Defined.
