(* ===== verification/ExternalCommitsWitnesses.v ===== *)
(** * An external commit to a concrete group

    The founder of the concrete group, which has added a client, exports a group info; another
    client prepares an external commit from it. *)
From S2P Require Import Prelude TreeMath TreeMathFacts BinaryTree BinaryTreeFacts Crypto CryptoFacts SenderRatchet SenderRatchetFacts SecretTree SecretTreeFacts PastSecrets Extensions.
From S2P Require Import TreeSync LeafNode TreeKem Proposals KeySchedule Framing PrivateMessages Welcome Decoding ProposalStore PublicGroup StagedCommit.
From S2P Require Import MessageValidation KeyPackages MemberGroup Exporting MemberCommit Joining MemberProcessing CommitBuilder ExternalCommits DecodingFacts MemberMessagesFacts ProposalStoreFacts.
From S2P Require Import TreeSyncFacts TreeSyncDiffFacts TreeKemFacts TreeStateFacts TreeKemAgreement LeafNodeFacts ValidationFacts ApplyProposalsFacts CommitFacts PublicGroupFacts.
From S2P Require Import CommitAgreement CommitQueueFacts EpochAgreement MemberEpochs ImportFacts JoiningFacts ExternalCommitsFacts TreeWitnesses PublicGroupWitnesses MemberWitnesses EpochWitnesses JoiningWitnesses.
Import Toy ToyVec.
#[local] Existing Instance welcome_decoder.

Definition exporter4 : MlsGroup := MCommit.cl_group merged4.

Lemma tight4 : exists h, tight (pg_treesync group4) h.
Proof.
  assert (lo_external_commit_info loaded4 = None) as Hn by done.
  destruct (build_internal_run _ _ _ _ _ _ _ _ _ _ committer4 Hn build4 acceptable4) as (params & own_updates & q & v & diff & path
    & diff1 & diff2 & diff3 & content & context & es & tag & sd & Hr).
  destruct (built_group _ _ _ _ _ _ _ _ _ _ _ _ _ _ _ _ _ _ _ _ _ _ committer4 Hn Hr) as (Ht & _). by rewrite committed4 in Ht.
Qed.

Lemma exporter4_ok : exists h, exporter exporter4 h.
Proof.
  destruct tight4 as [h Ht]. exists h. assert (public_group exporter4 = group4) as Hg by (vm_compute; reflexivity).
  split; [by rewrite Hg|vm_compute; reflexivity..|]. rewrite Hg, leaves4_of. intros i x Hin. pose proof wire_leaves4 as H. rewrite Forall_forall in H. exact (H _ Hin).
Qed.

Definition info4 : GroupInfo :=
  Eval vm_compute in out (mkGroupInfo (mkGroupInfoTBS no_context [] [] 0) [] None)
    (Exports.export_group_info_with_additional_extensions exporter4 (signer alice_key) true []).

Lemma info4_Ok : Exports.export_group_info_with_additional_extensions exporter4 (signer alice_key) true [] = Ok info4.
Proof. vm_compute. reflexivity. Qed.

Definition builder4 : ExternalCommitBuilder := mkExternalCommitBuilder [] None member_config Verify [].

(** The client has the signature key of the added member, which it will replace. *)
Definition rejoining : CredentialWithKey := mkCredentialWithKey (mkCredential CredentialType.Basic [8]) bob_key.

Definition built4 : Initial * MlsGroup :=
  Eval vm_compute in out (CBuilder.default_initial, founder) (EBuilder.build_group builder4 100 7 (group_info_received info4) rejoining).

Lemma built4_Ok : EBuilder.build_group builder4 100 7 (group_info_received info4) rejoining = Ok built4.
Proof. vm_compute. reflexivity. Qed.

Lemma external_commit_prepared_witness :
  exists external_priv kem_output, prepared exporter4 built4.2 rejoining kem_output external_priv /\ own_leaf_index built4.2 = 1.
Proof.
  destruct exporter4_ok as [h Hx].
  destruct (external_commit_prepared exporter4 h (signer alice_key) true [] info4 builder4 100 7 rejoining built4.1 built4.2 Hx info4_Ok
    ltac:(done) built4_Ok) as (pub & priv & kem & _ & Hp).
  exists priv, kem. split; [exact Hp|vm_compute; reflexivity].
Defined.
